(* ===== verification/_CoqProject ===== *)
-Q . S2P
Prelude.v
PyData.v
Regex.v
JsonGraph.v
JobPayload.v
Jobs.v
JobRouting.v
HashChain.v
JsonText.v
OperationJournal.v
Integrity.v
Cache.v
Passwords.v
Identity.v
Sessions.v
Installer.v
RemoteControl.v
Pairing.v
Dependencies.v
Packages.v
Contracts.v
Services.v
RenderSlots.v
EventBus.v
EventOutbox.v
EventDispatch.v
DelegatingEvents.v
AuditJournal.v
Observability.v
Diagnostics.v
Maintenance.v
Shutdown.v
HealthIssues.v
SqlText.v
Migrations.v
RateLimit.v
HttpAuth.v
PackageLifecycle.v
LifecycleLaws.v
LifecycleProgress.v
PackageSql.v
PackageSqlLaws.v
