(* ===== verification/Prelude.v ===== *)
(** * PLAIK core: a verification library

    A model, in Rocq, of the parts of the PLAIK platform kernel
    (src/src/plaik_core) that keep its state and decide: the job queue, the
    event outbox and the event bus, the journals of operations and of audit
    events with their integrity checkpoints, the cache, the identities and sessions
    and the HTTP adapter that guards routes with them, the installer state
    machine, the Remote Control record and its one-time pairing, the packages,
    their dependencies and SQL migrations, the services and render slots of
    extensions, and the observability, diagnostics, maintenance and shutdown of the
    process.  Every definition is a translation of the Python code named beside it;
    the theorems say what an operator of the platform relies on.

    ** How the program is put together

    Most stores of the kernel are a JSON (or JSON-lines) file with a lock file
    beside it; the event outbox and the migration ledger are tables of a
    database.  A public method reads the data, checks its arguments and the
    stored state, and writes atomically, under the lock or in a transaction;
    anything it refuses raises before the write.  The registries of the process
    (services, slots, events, health issues, diagnostics) are objects under a
    lock.  The components call each other through small interfaces: the job
    runner drives any [JobQueue], sessions look users up in the identity store,
    HTTP authentication composes both with the audit log and a login limiter,
    checkpoints anchor the head of a verified journal, the outbox publishes
    on the event bus, the package registry resolves dependencies before it writes,
    the pairing store reads the Remote Control record, which starts only after
    the installer is COMPLETED.

    ** Modelling conventions

    - A store is a state: [option] of the data its file holds, [None] when the
      file is missing.  A method is a value of the state-and-exception monad
      [M] below; what was written before an exception stays written.  A pure
      fallible function returns [result].  Methods keep the order of the
      checks, the exception classes and (up to the values they quote) the
      messages of the code.
    - A method that holds its lock throughout is one atomic step.  Where a
      method takes the lock several times, works outside it, or waits, it is a
      thread: a program counter per section and a step function of the whole
      system ([Cache.sys_step], [JobRouting.pump_step], [Pairing.sys_step],
      [EventDispatch.act], [Diagnostics.act], [Shutdown.act], and [sys_step] of
      [Migrations]).  [EventBus.publish] is a program of such sections and of calls
      of callbacks, which [Threads.step] runs in threads with a re-entrant lock.
    - Callbacks are computations on the state of the caller, so that re-entrant calls are
      covered; the handlers and validators of the event bus are the moves of its threads.
    - Exceptions are the classes of [exn_class] with the hierarchy the [except]
      clauses consult ([exn_isa]).
    - A Python [str] is its UTF-8 encoding; [len], [strip], [casefold] and
      [upper] follow it ([PyData]).  Integers are unbounded, as in Python; dates
      and durations are microseconds within the ranges of [datetime] and
      [timedelta], whose overflows raise.
    - Random identifiers, salts, tokens and clock readings are arguments.
      scrypt, HMAC, SHA-256, [isoformat], the pydantic models and the reading of
      a version specifier or of a journal line are parameters, with the documented
      behaviour a theorem needs as a named hypothesis; every such theorem has a
      witness with concrete functions.

    - Where a step may fail in the middle (writes, renames, removals of trees), an
      oracle chooses what takes place and whether an exception or the end of the
      process follows ([durable] of [PackageLifecycle]); the theorems hold for every oracle, and
      say what more is possible for one in which a write of the commit marker raises although the marker
      is in place ([late_marker]).

    ** The files

    Common ground:
    - [Prelude]: exceptions, the monads [result] and [M], Hoare triples and
      invariants ([triple], [preserves]), automation, sums.
    - [PyData]: sort keys and [sorted], insertion-ordered dictionaries, strings,
      time.  [Regex]: the patterns of [re], matched by derivatives, with
      [fullmatch_correct].
    - [JsonGraph]: Python values as a heap of shared containers, and their
      traversal with an explicit stack, limits and a cycle check.  [JsonText]: JSON values,
      their compact text, and its parser.  [HashChain]: hash-chained line files.

    Jobs, journals, cache:
    - [JobPayload] (jobs.py: [_safe_payload], [_validate_payload_structure]):
      the payload validator, an instance of [JsonGraph].  Its fuel is a bound on
      the number of visits, and [validate_structure_spec] proves that it never runs out.
    - [Jobs] (jobs.py: [DurableJobQueue]): enqueue, claim, leases, fencing
      tokens, retries, cancellation, purge.
    - [JobRouting] (jobs.py: [JobQueue], [DelegatingJobQueue], [JobRunner],
      [JobDrainPump]): the queue protocol as a class with laws, an instance for
      the durable queue and one for the router, and the clients proved against
      the class.
    - [OperationJournal] (operation_journal.py): the journal's operations, the
      reading and verification of the whole file, and an abstract machine of
      operation states that it refines.
    - [Integrity] (integrity.py, checkpoint_anchor.py): checkpoints, recovery
      epochs, the verification of the store, the anchoring loop.
    - [AuditJournal] (audit.py): the audit log over the bytes of its file, the
      screening of metadata, verification and iteration.
    - [Cache] (cache.py): the namespaced TTL cache with generations and the
      coalescing of producers, as a system of threads.

    Identity and access:
    - [Passwords], [Identity], [Sessions] (identity.py): the password hasher
      with its text format, the users, roles and permissions, the sessions.
      They meet in the classes [PasswordHashing] and [Directory].
    - [RateLimit] (http_auth.py: [LoginRateLimiter], [_DenialAuditSampler]):
      the limiter and a reference of it on the failures of a peer.
    - [HttpAuth] (http_auth.py: [HttpAuth]): CSRF tokens, the guards of routes,
      login, logout and session rotation, on a world made of the states of
      [Identity], [Sessions], [RateLimit] and any audit log.

    Installation and Remote Control:
    - [Installer] (installer.py): the forward-only installer states.
    - [RemoteControl] (remote_control.py): hostname, intent, record and gateway
      contracts, the operations of the store and the transition machine that
      they implement.
    - [Pairing] (pairing.py): codes, headers, [issue], [consume] as a thread
      with reservation, commit and clean-up sections, the enrollment session,
      and the decisions of the /activate routes.

    Packages and extensions:
    - [Dependencies] (dependencies.py): capabilities and the install order, a
      depth-first visit with a cycle check, against a declarative reading.
    - [Packages] (packages.py): the registry of installed packages over its
      file, with quarantine and the clean-up of documents of earlier versions.
    - [PackageLifecycle] (package_lifecycle.py): the transactional manager:
      intents, staged and replaced directories, roll back and recovery, over the
      registry of [Packages] and the journal of [OperationJournal].  [LifecycleLaws]: what a state
      of its files stands for, and that every call keeps it; [LifecycleProgress]:
      that recovery ends.  [PackageSql] (package_sql_lifecycle.py, package_sql_recovery.py): the
      manager that adds a prepared transaction of the database, as other methods for the
      same calls; [PackageSqlLaws]: its two-phase commit, for any coordinator with the laws of
      [CoordinatorLaws].
    - [SqlText] and [Migrations] (migrations.py): the lexical check of a
      statement, and the migration runner over a database any call of which may fail.
    - [Contracts], [Services], [RenderSlots], [EventBus] (extension_runtime.py):
      names and versions of contracts, and the three registries of extensions.  [EventBus]
      has the bus, its threads ([Threads]) and the phases of a keyed publication ([EventBusLaws]).

    Events:
    - [EventOutbox] (event_outbox.py, envelope.py): the outbox table, enqueue,
      the dispatch rounds and the drain loop over any bus.
    - [EventDispatch], [DelegatingEvents] (event_outbox.py): the lock and
      condition of the dispatcher as threads; the router over its backends.

    Operation of the process:
    - [Observability], [Diagnostics] (observability.py): the structured logger,
      the correlation middleware, and diagnostics under a deadline as threads.
    - [Maintenance], [Shutdown] (operational_safety.py): the maintenance fence
      and the barrier that drains durable work.
    - [HealthIssues] (health_issues.py): the bounded registry of issues.

    ** What the theorems show

    - Job queue: a fencing token completes its job at most once and is fenced
      out by the next claim; every reachable registry is well formed; claim,
      enqueue, cancellation, purge and back-off do exactly what they promise;
      draining terminates; completion is routed to the leasing backend; at most
      one thread drains; payload validation is equivalent to its declarative
      limits and stable.
    - Journals: the file refines a map of operation states; tampering below a
      trusted head is evident; operation ids are idempotency keys; trusted
      checkpoints are never rolled back, recovered at most once per operation,
      and always readable again; the audit file holds exactly the accepted
      events, screened and within the limits.
    - Events: a drain publishes each stored event once and ends; deferring is a
      barrier, dispatching is exclusive and no wake-up is lost; the deliveries of a keyed
      event never overlap, and none follows one that got through.
    - Cache: superseded values are never stored, the cache stays bounded with
      one producer per key, waiters can always be woken, invalidation is exact.
    - Identity: there is always an active super administrator, permissions are
      the declarative ones, authentication and hashing round trip, sessions are
      valid exactly while issued, unexpired and not revoked.
    - HTTP authentication: a guard answers only principals with a valid session, the
      permission and the CSRF token of the session; a login that is answered
      was authenticated, issued and audited, and one that is refused leaves no
      live session behind and is charged to the peer; the limiter throttles
      exactly the peers with too many recent failures.
    - Installation and Remote Control: the installer only moves forward; the
      store implements its transition machine; ENABLED is reached only through
      an enrolled passkey and an inspected gateway; plans are derived from
      valid records; at most eight guesses are tested against a pairing code,
      only issued codes are accepted, and a code leads to exactly one session.
    - Packages and extensions: resolution accepts exactly the batches that can
      be installed, in dependency order, whatever versions can be read; the registry stays consistent; the
      package manager is atomic in the face of failing steps and ending processes, its
      recovery completes, a call that answers did all that it says, and the
      database commits exactly with the package, up to the late commit marker; the
      statement check is equivalent to a declarative reading; the migration ledger
      tells exactly what was applied, for statements that keep away from it where the SQLite authorizer does not look; a service call gets the highest active version in range;
      no binding outlives its slot.
    - Process: every request is correlated and telemetry cannot change its
      outcome; at most one worker runs per diagnostic; the maintenance generation fences
      stale writers; after a drained shutdown no work runs; issues of quiet owners are kept.

    ** Bounds

    Loops over the data are structural.  Fuel appears in the payload traversal
    (a proved bound on the visits), in the JSON parser (the length of the text),
    in the drain loop of the jobs (a bound on the claims the stored jobs can
    still give), in the dispatch rounds and the drain loop of the outbox (from
    some fuel on they end, and more changes nothing), in the visit of the dependency
    graph (the number of packages), in the eviction of issues (their number)
    and in the exception hierarchy (its height); the anchoring loop has the
    code's own limit of attempts.

    ** Not modelled

    - The file system: permissions, ownership, symbolic links (other than to
      packages), directory descriptors, [fsync], partial writes.  Atomic replacement is
      assumed; a failing step is part of the model where it matters (pairing,
      migrations, package lifecycle).
    - The pydantic reading of store files beyond the validators of the code,
      and the collection of several validation errors into one message.
    - The application factories and the HTML pages (app.py, applications.py,
      web.py): wiring of FastAPI and Starlette, whose decisions are taken by the
      components above.
    - The PostgreSQL adapters: their behaviour is that of the SQL they send to
      a server.  The SQLite counterparts of the outbox and the ledger are modelled.
    - Archives, signatures, key files, backups, releases, the database side of
      package installation, the gateway and passkeys: their steps are calls of the
      operating system, of a server, of cryptographic libraries and of a WebAuthn library.
    - The command line, host inventory and process control.
    - Settings, themes and the in-process hooks are within reach of the same
      methods and have no model here. *)

From Stdlib Require Import Ascii ZArith Lia Sorting.Sorted Permutation.
From stdpp Require Import base decidable numbers list strings gmap.

Declare Scope py_scope.
Delimit Scope py_scope with py.

(** ** Exceptions

    [exn_class] enumerates the exception classes the modelled code raises, the
    built-in ones first; [exn_parents] is the class hierarchy the [except]
    clauses consult.  An exception carries the message the code gives it. *)

Inductive exn_class : Type :=
  | BaseExc | ValueErr | TypeErr | KeyErr | OverflowErr | RuntimeErr | OSErr
  | TimeoutErr | LookupErr | AssertionErr | StopIter
  | FileNotFoundErr
  | ValidationErr
  (* jobs.py *)
  | JobQueueError | JobQueueCapacityError
  (* operation_journal.py *)
  | OperationJournalError | OperationJournalIntegrityError
  | OperationConflictError | OperationTransitionError
  (* integrity.py *)
  | IntegrityCheckpointError
  (* dependencies.py *)
  | DependencyResolutionError
  (* pairing.py *)
  | PairingError | PairingDenied | PairingRejected
  | PairingIssueUnavailable | PairingStoreUnavailable
  (* identity.py *)
  | IdentityError | AuthenticationError | AuthorizationError
  | IdentityInvariantError | SessionError
  (* installer.py, remote_control.py *)
  | InvalidInstallTransition
  | RemoteControlError | InvalidRemoteControlTransition | InvalidRemoteHostname
  (* packages.py *)
  | PackageLifecycleError
  (* event_outbox.py *)
  | OutboxEnvelopeError | SqlIntegrityErr
  (* audit.py, extension_runtime.py, package_admin_commands.py *)
  | AuditIntegrityError
  | ExtensionContractError | ContractOwnershipError | ContractCompatibilityError | EventDeliveryError
  | InvalidVersion | InvalidSpecifier
  | CommandPayloadError
  (* package_sql_recovery.py *)
  | PackageSQLRecoveryError
  (* settings, declarations, themes, keys, migrations, web extensions, passkeys *)
  | SettingsStoreError | PackageDeclarationError | PermissionCatalogError
  | ThemeRevisionError | ThemeCompositionError | ThemeLocaleError | ThemeOperationError
  | KeyLifecycleError | ConnectionStoreError | WebExtensionError | ExtensionHostError
  | PackagePreparedTransactionError | MigrationError | MigrationStateError | MigrationChecksumError | MigrationLockError | MigrationApplyError
  | PasskeyError | PasskeyDenied | PasskeyRejected
  (* operational_safety.py *)
  | OperationalSafetyError | MaintenanceActive | StaleMaintenanceGeneration
  (* http_auth.py and the web framework *)
  | HTTPException | RateLimitExceeded
  (* package_artifacts.py, package_lifecycle.py, package_migrations.py, postgresql.py, package_sql_session.py *)
  | PackageArtifactError | PackageSignatureError | TransactionalPackageError | PackageMigrationError
  | ConstructedPackageExecuteError | PackageSqlUnavailable | PostgreSQLOwnershipError | PostgreSQLCommitUncertainError
  (* passkeys.py, backup.py, releases.py, secret_store.py, signing_keys.py, service_control.py, gateways, installer_config.py, web.py *)
  | PasskeyStoreUnavailable | BackupError | ReleaseError | SecretStoreError | SecretNotFoundError | SecretProviderReadOnlyError
  | SigningKeyStoreError | ServiceControlError | GatewayTransactionError | NginxGatewayError | InstallerConfigurationError
  | WebRenderError | PermanentOutboxDeliveryError
  | UnicodeErr
  (* an exception raised by code outside the model *)
  | ForeignExc.

#[global] Instance exn_class_eq_dec : EqDecision exn_class.
Proof. solve_decision. Defined.

Record exn : Type := Exn { exn_cls : exn_class; exn_msg : string }.

#[global] Instance exn_eq_dec : EqDecision exn.
Proof. solve_decision. Defined.

(** The direct superclasses; none for the root of the hierarchy. *)
Definition exn_parents (c : exn_class) : list exn_class :=
  match c with
  | BaseExc => []
  | ValueErr | TypeErr | OverflowErr | RuntimeErr | OSErr | LookupErr
  | AssertionErr | StopIter | ForeignExc => [BaseExc]
  | KeyErr => [LookupErr]
  | TimeoutErr | FileNotFoundErr => [OSErr]
  | ValidationErr => [ValueErr]
  | JobQueueError => [RuntimeErr]
  | JobQueueCapacityError => [JobQueueError]
  | OperationJournalError => [RuntimeErr]
  | OperationJournalIntegrityError | OperationConflictError
  | OperationTransitionError => [OperationJournalError]
  | IntegrityCheckpointError => [RuntimeErr]
  | DependencyResolutionError => [ValueErr]
  | PairingError => [RuntimeErr]
  | PairingDenied | PairingRejected | PairingIssueUnavailable
  | PairingStoreUnavailable => [PairingError]
  | IdentityError => [RuntimeErr]
  | AuthenticationError | AuthorizationError | IdentityInvariantError
  | SessionError => [IdentityError]
  | OutboxEnvelopeError => [ValueErr]
  | SqlIntegrityErr => [BaseExc]
  | PackageLifecycleError | AuditIntegrityError | ExtensionContractError | PackageSQLRecoveryError
  | OperationalSafetyError | SettingsStoreError | PackageDeclarationError | ThemeOperationError
  | KeyLifecycleError | ConnectionStoreError | WebExtensionError | ExtensionHostError
  | PackagePreparedTransactionError | MigrationError | PasskeyError => [RuntimeErr]
  | PermissionCatalogError => [PackageDeclarationError]
  | ThemeRevisionError | ThemeCompositionError => [ValueErr]
  | ThemeLocaleError => [ThemeCompositionError]
  | MigrationStateError | MigrationChecksumError | MigrationLockError | MigrationApplyError
  | PackageMigrationError | PostgreSQLOwnershipError | PostgreSQLCommitUncertainError => [MigrationError]
  | HTTPException => [BaseExc]
  | UnicodeErr | ConstructedPackageExecuteError => [ValueErr]
  | RateLimitExceeded | PackageArtifactError | TransactionalPackageError | PackageSqlUnavailable | BackupError | ReleaseError
  | SecretStoreError | SigningKeyStoreError | ServiceControlError | InstallerConfigurationError | WebRenderError
  | PermanentOutboxDeliveryError => [RuntimeErr]
  | PackageSignatureError => [PackageArtifactError]
  | SecretNotFoundError | SecretProviderReadOnlyError => [SecretStoreError]
  | GatewayTransactionError | NginxGatewayError => [RemoteControlError]
  | PasskeyStoreUnavailable => [PasskeyError]
  | PasskeyDenied | PasskeyRejected => [PasskeyError]
  | MaintenanceActive | StaleMaintenanceGeneration => [OperationalSafetyError]
  | ContractOwnershipError | ContractCompatibilityError | EventDeliveryError => [ExtensionContractError]
  | InvalidVersion | InvalidSpecifier | CommandPayloadError => [ValueErr]
  | InvalidInstallTransition => [ValueErr]
  | RemoteControlError => [RuntimeErr]
  | InvalidRemoteControlTransition => [RemoteControlError]
  | InvalidRemoteHostname => [RemoteControlError; ValueErr]
  end.

(** [isinstance]: at most four steps up, the height of the hierarchy. *)
Fixpoint exn_isa_fuel (fuel : nat) (c d : exn_class) : bool :=
  bool_decide (c = d) ||
  match fuel with
  | O => false
  | S fuel => existsb (λ p, exn_isa_fuel fuel p d) (exn_parents c)
  end.

Definition exn_isa (c d : exn_class) : bool := exn_isa_fuel 4 c d.

(** [except (C1, ..., Cn)]. *)
Definition exn_in (e : exn) (ds : list exn_class) : bool :=
  existsb (exn_isa (exn_cls e)) ds.

(** ** Results and the state-and-exception monad

    A pure fallible function returns [result A].  A method that reads and
    writes a store is an [M S A]: what it wrote before raising stays written. *)

Inductive result (A : Type) : Type :=
  | Ok (a : A)
  | Err (e : exn).
Arguments Ok {A} a.
Arguments Err {A} e.

#[global] Instance result_eq_dec A : EqDecision A → EqDecision (result A).
Proof. intros ?. solve_decision. Defined.

#[global] Instance result_ret : MRet result := λ A, Ok.
#[global] Instance result_bind : MBind result := λ A B k m,
  match m with Ok a => k a | Err e => Err e end.

Definition M (S A : Type) : Type := S → result A * S.

#[global] Instance M_ret S : MRet (M S) := λ A a s, (Ok a, s).
#[global] Instance M_bind S : MBind (M S) := λ A B k m s,
  match m s with
  | (Ok a, s') => k a s'
  | (Err e, s') => (Err e, s')
  end.

Definition fail {A} (c : exn_class) (msg : string) : result A := Err (Exn c msg).
Definition raise {S A} (c : exn_class) (msg : string) : M S A := λ s, (fail c msg, s).
Definition lift {S A} (r : result A) : M S A := λ s, (r, s).
Definition get_st {S} : M S S := λ s, (Ok s, s).
Definition put_st {S} (s : S) : M S unit := λ _, (Ok tt, s).
Definition gets {S A} (f : S → A) : M S A := λ s, (Ok (f s), s).
Definition modify_st {S} (f : S → S) : M S unit := λ s, (Ok tt, f s).

(** [if cond: raise C(msg)]. *)
Definition fail_if (b : bool) (c : exn_class) (msg : string) : result unit :=
  if b then fail c msg else Ok tt.
Definition raise_if {S} (b : bool) (c : exn_class) (msg : string) : M S unit :=
  lift (fail_if b c msg).

(** [try: m  except ...: h]: [h e] is [None] when no clause matches. *)
Definition try_except {S A} (m : M S A) (h : exn → option (M S A)) : M S A := λ s,
  match m s with
  | (Ok a, s') => (Ok a, s')
  | (Err e, s') => match h e with Some k => k s' | None => (Err e, s') end
  end.

(** [try: m  finally: f]: an exception of [f] replaces the outcome of [m]. *)
Definition try_finally {S A} (m : M S A) (f : M S unit) : M S A := λ s,
  let '(r, s') := m s in
  match f s' with
  | (Ok _, s'') => (r, s'')
  | (Err e, s'') => (Err e, s'')
  end.

Definition result_catch {A} (m : result A) (h : exn → option (result A)) : result A :=
  match m with
  | Ok a => Ok a
  | Err e => match h e with Some r => r | None => Err e end
  end.

(** [for x in l: ...] with an accumulator, in [result]. *)
Fixpoint fold_result {A B} (f : B → A → result B) (b : B) (l : list A) : result B :=
  match l with
  | [] => Ok b
  | x :: l => b' ← f b x; fold_result f b' l
  end.

Fixpoint map_result {A B} (f : A → result B) (l : list A) : result (list B) :=
  match l with
  | [] => Ok []
  | x :: l => y ← f x; ys ← map_result f l; Ok (y :: ys)
  end.

Definition is_ok {A} (r : result A) : bool := match r with Ok _ => true | Err _ => false end.

(** The state a method leaves. *)
Definition post {S A} (m : M S A) (s : S) : S := snd (m s).

Section monad_laws.
Context {S : Type}.

Lemma run_bind {A B} (m : M S A) (k : A → M S B) s :
  (m ≫= k) s = match m s with (Ok a, s') => k a s' | (Err e, s') => (Err e, s') end.
Proof. reflexivity. Qed.

Lemma run_ret {A} (a : A) (s : S) : mret (M := M S) a s = (Ok a, s).
Proof. reflexivity. Qed.

Lemma run_lift {A} (r : result A) (s : S) : lift r s = (r, s).
Proof. reflexivity. Qed.

Lemma run_bind_lift {A B} (r : result A) (k : A → M S B) (s : S) :
  (lift r ≫= k) s = match r with Ok a => k a s | Err e => (Err e, s) end.
Proof. by destruct r. Qed.

Lemma run_bind_get {B} (k : S → M S B) (s : S) : (get_st ≫= k) s = k s s.
Proof. reflexivity. Qed.

Lemma run_bind_put {B} (t : S) (k : unit → M S B) (s : S) : (put_st t ≫= k) s = k tt t.
Proof. reflexivity. Qed.

Lemma run_bind_ok_inv {A B} (m : M S A) (k : A → M S B) s b s' :
  (m ≫= k) s = (Ok b, s') → ∃ a s1, m s = (Ok a, s1) ∧ k a s1 = (Ok b, s').
Proof. rewrite run_bind. destruct (m s) as [[a|e] s1]; [eauto | discriminate]. Qed.

Lemma run_bind_assoc {A B C} (m : M S A) (f : A → M S B) (g : B → M S C) s :
  ((m ≫= f) ≫= g) s = (m ≫= λ a, f a ≫= g) s.
Proof. rewrite !run_bind. by destruct (m s) as [[a|e] s']. Qed.
End monad_laws.

Lemma bind_result_ok {A B} (r : result A) (k : A → result B) b :
  (r ≫= k) = Ok b ↔ ∃ a, r = Ok a ∧ k a = Ok b.
Proof. destruct r as [a|e]; simpl; [split; [eauto | by intros (? & [= <-] & ?)] | split; [done | by intros (? & ? & ?)]]. Qed.

Lemma fail_if_ok b c msg u : fail_if b c msg = Ok u ↔ b = false.
Proof. destruct b, u; simpl; naive_solver. Qed.

Lemma fail_if_then b c msg (k : result unit) : (_ ← fail_if b c msg; k) = Ok tt ↔ b = false ∧ k = Ok tt.
Proof. destruct b; simpl; naive_solver. Qed.

Lemma fail_if_then_err b c msg (k : result unit) e : (_ ← fail_if b c msg; k) = Err e → exn_cls e = c ∨ k = Err e.
Proof. destruct b; simpl; [intros [= <-]; by left|by right]. Qed.

Lemma fold_result_app {A B} (f : B → A → result B) b l1 l2 :
  fold_result f b (l1 ++ l2) = (b' ← fold_result f b l1; fold_result f b' l2).
Proof.
  revert b. induction l1 as [|x l1 IH]; intros b; [done|].
  simpl. destruct (f b x); simpl; [apply IH | done].
Qed.

Lemma fold_result_inv {A B} (I : B → Prop) (f : B → A → result B) l b b' :
  (∀ b x b', x ∈ l → I b → f b x = Ok b' → I b') → I b →
  fold_result f b l = Ok b' → I b'.
Proof.
  revert b. induction l as [|x l IH]; intros b Hf Hb; simpl; [naive_solver|].
  intros (b1 & H1 & H2)%bind_result_ok.
  eapply IH; [..|exact H2].
  - intros ??? Hin. apply Hf. by right.
  - eapply Hf; [by left|done|done].
Qed.

Lemma map_result_ok {A B} (f : A → result B) l ys :
  map_result f l = Ok ys ↔ Forall2 (λ x y, f x = Ok y) l ys.
Proof.
  revert ys. induction l as [|x l IH]; intros ys; simpl.
  - split; [by intros [= <-]; constructor | by inversion 1].
  - rewrite bind_result_ok. setoid_rewrite bind_result_ok. setoid_rewrite IH.
    split; [by intros (y & ? & zs & ? & [= <-]); constructor|].
    inversion 1; subst; eauto 10.
Qed.

(** ** Hoare triples

    [triple P m Q X]: from a state satisfying [P], [m] either returns a value
    and a state related by [Q], or raises leaving a state related by [X].
    [preserves I m] is the invariant case: [I] holds after [m], raised or not. *)

Definition triple {S A} (P : S → Prop) (m : M S A)
    (Q : A → S → Prop) (X : exn → S → Prop) : Prop :=
  ∀ s, P s → match m s with (Ok a, s') => Q a s' | (Err e, s') => X e s' end.

Definition preserves {S A} (I : S → Prop) (m : M S A) : Prop := ∀ s, I s → I (post m s).

Section triples.
Context {S : Type}.
Implicit Types P : S → Prop.

Lemma triple_conseq {A} P P' (m : M S A) Q Q' X X' :
  triple P' m Q' X' → (∀ s, P s → P' s) →
  (∀ a s, Q' a s → Q a s) → (∀ e s, X' e s → X e s) → triple P m Q X.
Proof.
  intros Hm HP HQ HX s Hs. specialize (Hm s (HP s Hs)).
  destruct (m s) as [[a|e] s']; auto.
Qed.

Lemma triple_bind {A B} P R (m : M S A) (k : A → M S B) Q X :
  triple P m R X → (∀ a, triple (R a) (k a) Q X) → triple P (m ≫= k) Q X.
Proof.
  intros Hm Hk s Hs. specialize (Hm s Hs). rewrite run_bind.
  destruct (m s) as [[a|e] s']; [by apply Hk | done].
Qed.

Lemma triple_try {A} P (m : M S A) h Q X :
  triple P m Q (λ e s, match h e with
                       | Some k => match k s with
                                   | (Ok a, s') => Q a s'
                                   | (Err e', s') => X e' s'
                                   end
                       | None => X e s
                       end) →
  triple P (try_except m h) Q X.
Proof.
  intros Hm s Hs. specialize (Hm s Hs). unfold try_except.
  destruct (m s) as [[a|e] s']; [done|]. by destruct (h e).
Qed.

Lemma preserves_triple {A} I (m : M S A) :
  preserves I m ↔ triple I m (λ _, I) (λ _, I).
Proof.
  unfold preserves, triple, post.
  split; intros H s Hs; specialize (H s Hs); destruct (m s) as [[]]; done.
Qed.

Lemma preserves_ret {A} I (a : A) : preserves I (mret (M := M S) a).
Proof. intros s Hs; exact Hs. Qed.

Lemma preserves_lift {A} I (r : result A) : preserves I (lift (S := S) r).
Proof. intros s Hs; exact Hs. Qed.

Lemma preserves_raise {A} I c msg : preserves I (raise (S := S) (A := A) c msg).
Proof. intros s Hs; exact Hs. Qed.

Lemma preserves_gets {A} I (f : S → A) : preserves I (gets f).
Proof. intros s Hs; exact Hs. Qed.

Lemma preserves_modify I (f : S → S) : (∀ s, I s → I (f s)) → preserves I (modify_st f).
Proof. intros Hf s Hs. by apply Hf. Qed.

Lemma preserves_bind {A B} I (m : M S A) (k : A → M S B) :
  preserves I m → (∀ a, preserves I (k a)) → preserves I (m ≫= k).
Proof.
  intros Hm Hk s Hs. specialize (Hm s Hs). unfold post in *. rewrite run_bind.
  destruct (m s) as [[a|e] s']; simpl in *; [by apply Hk | done].
Qed.

Lemma preserves_bind_lift {A B} I (r : result A) (k : A → M S B) :
  (∀ a, r = Ok a → preserves I (k a)) → preserves I (lift r ≫= k).
Proof.
  intros Hk s Hs. unfold post. rewrite run_bind_lift.
  destruct r; simpl; [by apply Hk | done].
Qed.

Lemma preserves_try {A} I (m : M S A) h :
  preserves I m → (∀ e k, h e = Some k → preserves I k) → preserves I (try_except m h).
Proof.
  intros Hm Hh s Hs. specialize (Hm s Hs). unfold post, try_except in *.
  destruct (m s) as [[a|e] s']; simpl in *; [done|].
  destruct (h e) as [k|] eqn:E; [by eapply Hh | done].
Qed.

Lemma preserves_finally {A} I (m : M S A) f :
  preserves I m → preserves I f → preserves I (try_finally m f).
Proof.
  intros Hm Hf s Hs. specialize (Hm s Hs). unfold post, try_finally in *.
  destruct (m s) as [r s']. specialize (Hf s' Hm). simpl in *. unfold post in Hf.
  destruct (f s') as [[u|e] s'']; exact Hf.
Qed.

Lemma preserves_if {A} I (b : bool) (m n : M S A) :
  preserves I m → preserves I n → preserves I (if b then m else n).
Proof. by destruct b. Qed.
End triples.

Create HintDb preserves.
#[export] Hint Resolve preserves_ret preserves_lift preserves_raise preserves_gets
  preserves_bind preserves_if : preserves.

(** ** Automation *)

(** Split the [match]/[if] scrutinee in the goal or a hypothesis, one step. *)
Ltac split_match :=
  match goal with
  | |- context [match ?x with _ => _ end] => destruct x eqn:?
  | H : context [match ?x with _ => _ end] |- _ => destruct x eqn:?
  end.

(** Turn boolean facts into propositions, so that [lia] and [congruence] see them. *)
Ltac bool_to_prop :=
  repeat match goal with
  | H : (_ && _) = true |- _ => apply andb_true_iff in H; destruct H
  | H : (_ || _) = false |- _ => apply orb_false_iff in H; destruct H
  | H : (_ || _) = true |- _ => apply orb_true_iff in H
  | H : (_ && _) = false |- _ => apply andb_false_iff in H
  | H : negb _ = true |- _ => apply negb_true_iff in H
  | H : negb _ = false |- _ => apply negb_false_iff in H
  | H : bool_decide _ = true |- _ => apply bool_decide_eq_true in H
  | H : bool_decide _ = false |- _ => apply bool_decide_eq_false in H
  | H : Z.leb _ _ = true |- _ => apply Z.leb_le in H
  | H : Z.leb _ _ = false |- _ => apply Z.leb_gt in H
  | H : Z.ltb _ _ = true |- _ => apply Z.ltb_lt in H
  | H : Z.ltb _ _ = false |- _ => apply Z.ltb_ge in H
  | H : Z.eqb _ _ = true |- _ => apply Z.eqb_eq in H
  | H : Z.eqb _ _ = false |- _ => apply Z.eqb_neq in H
  | H : Nat.leb _ _ = true |- _ => apply Nat.leb_le in H
  | H : Nat.leb _ _ = false |- _ => apply Nat.leb_gt in H
  | H : Nat.ltb _ _ = true |- _ => apply Nat.ltb_lt in H
  | H : Nat.ltb _ _ = false |- _ => apply Nat.ltb_ge in H
  end.

(** Invert a chain of [result] binds that returned [Ok]. *)
Ltac inv_ok H :=
  repeat first
    [ let a := fresh "a" in let H1 := fresh "Hok" in
      apply bind_result_ok in H as (a & H1 & H)
    | apply fail_if_ok in H ].

Lemma neq_self {A} `{EqDecision A} (x : A) : bool_decide (x ≠ x) = false.
Proof. apply bool_decide_eq_false_2. by intros []. Qed.

(** Sums of integers. *)
Definition zsum (l : list Z) : Z := foldr Z.add 0%Z l.
Arguments zsum : simpl never.

Lemma zsum_cons x l : zsum (x :: l) = (x + zsum l)%Z.
Proof. done. Qed.

Lemma zsum_app l1 l2 : zsum (l1 ++ l2) = (zsum l1 + zsum l2)%Z.
Proof. induction l1 as [|x l1 IH]; simpl; [done|]. rewrite !zsum_cons, IH. lia. Qed.

#[export] Instance zsum_perm : Proper ((≡ₚ) ==> eq) zsum.
Proof. induction 1; rewrite ?zsum_cons; lia. Qed.

Lemma zsum_nonneg l : Forall (λ x, 0 ≤ x)%Z l → (0 ≤ zsum l)%Z.
Proof. induction 1; rewrite ?zsum_cons; [done | lia]. Qed.

(** Greatest element, 0 for the empty list. *)
Definition zmax (l : list Z) : Z := foldr Z.max 0%Z l.
Arguments zmax : simpl never.

Lemma zmax_cons x l : zmax (x :: l) = Z.max x (zmax l).
Proof. done. Qed.

Lemma zmax_perm l1 l2 : l1 ≡ₚ l2 → zmax l1 = zmax l2.
Proof. induction 1; rewrite ?zmax_cons; lia. Qed.

Lemma zmax_nonneg l : (0 ≤ zmax l)%Z.
Proof. induction l as [|x l IH]; [done|]. rewrite zmax_cons. lia. Qed.

Lemma zmax_ge x l : x ∈ l → (x ≤ zmax l)%Z.
Proof.
  induction l as [|y l IH]; [by intros ?%not_elem_of_nil|].
  rewrite zmax_cons. intros [->|Hx]%elem_of_cons; [lia|]. specialize (IH Hx). lia.
Qed.

Lemma zmax_le l b : (0 ≤ b)%Z → (zmax l ≤ b)%Z ↔ Forall (λ x, x ≤ b)%Z l.
Proof.
  intros Hb. induction l as [|x l IH]; simpl.
  - split; [constructor | done].
  - rewrite Forall_cons, <-IH, zmax_cons. lia.
Qed.
