(* ===== verification/PyData.v ===== *)
(** * Python data: ordered keys, sorting, dictionaries, strings and time

    What the modelled code uses of Python's built-in types.
    - [PyOrd]: a total order on the values used as sort keys (ints, strings,
      tuples), with [sort_by] for [sorted(l, key=...)];
    - [dict]: an insertion-ordered dictionary;
    - strings: a Python [str] is represented by its UTF-8 encoding, so
      [String.length] is [len(s.encode("utf-8"))], code-point order is byte
      order, and [str_len] counts code points;
    - [datetime] and [timedelta] in microseconds, at Python's ranges. *)

From Stdlib Require Import Ascii ZArith Lia Sorting.Sorted Permutation.
From stdpp Require Import base decidable numbers list strings sets.
From S2P Require Import Prelude.

(** ** Total orders and sorting *)

Class PyOrd (A : Type) : Type := {
  ord_leb : A → A → bool;
  ord_total : ∀ x y, ord_leb x y = true ∨ ord_leb y x = true;
  ord_trans : ∀ x y z, ord_leb x y = true → ord_leb y z = true → ord_leb x z = true;
  ord_antisym : ∀ x y, ord_leb x y = true → ord_leb y x = true → x = y;
}.

Lemma ord_refl `{PyOrd A} (x : A) : ord_leb x x = true.
Proof. by destruct (ord_total x x). Qed.

#[export, program] Instance Z_ord : PyOrd Z := {| ord_leb := Z.leb |}.
Next Obligation. lia. Qed.
Next Obligation. lia. Qed.
Next Obligation. lia. Qed.

Lemma ascii_compare_N (a b : ascii) :
  Ascii.compare a b = N.compare (N_of_ascii a) (N_of_ascii b).
Proof. done. Qed.

Lemma string_leb_cons a b s t :
  String.leb (String a s) (String b t) =
  match N.compare (N_of_ascii a) (N_of_ascii b) with
  | Lt => true | Gt => false | Eq => String.leb s t
  end.
Proof.
  unfold String.leb. simpl. rewrite ascii_compare_N. by destruct (N.compare _ _).
Qed.

Lemma string_leb_trans x y z :
  String.leb x y = true → String.leb y z = true → String.leb x z = true.
Proof.
  revert y z. induction x as [|a x IH]; intros [|b y] [|c z]; try done.
  rewrite !string_leb_cons.
  destruct (N.compare_spec (N_of_ascii a) (N_of_ascii b)),
    (N.compare_spec (N_of_ascii b) (N_of_ascii c)),
    (N.compare_spec (N_of_ascii a) (N_of_ascii c)); try done; try lia.
  apply IH.
Qed.

#[export, program] Instance string_ord : PyOrd string := {| ord_leb := String.leb |}.
Next Obligation. apply String.leb_total. Qed.
Next Obligation. apply string_leb_trans. Qed.
Next Obligation. apply String.leb_antisym. Qed.

(** Tuples compare lexicographically. *)
Definition pair_leb `{PyOrd A, PyOrd B} `{EqDecision A} (p q : A * B) : bool :=
  if decide (p.1 = q.1) then ord_leb p.2 q.2 else ord_leb p.1 q.1.

#[export, program] Instance pair_ord `{PyOrd A, PyOrd B} `{EqDecision A} : PyOrd (A * B) :=
  {| ord_leb := pair_leb |}.
Next Obligation.
  intros ????? [a b] [a' b']. unfold pair_leb. simpl.
  destruct (decide (a = a')), (decide (a' = a)); try congruence; apply ord_total.
Qed.
Next Obligation.
  intros ????? [a b] [a' b'] [a'' b'']. unfold pair_leb. simpl.
  destruct (decide (a = a')), (decide (a' = a'')), (decide (a = a''));
    simplify_eq; try apply ord_trans; intros H1 H2; try done.
  match goal with Hne : _ ≠ _ |- _ => destruct Hne; by apply ord_antisym end.
Qed.
Next Obligation.
  intros ????? [a b] [a' b']. unfold pair_leb. simpl.
  destruct (decide (a = a')), (decide (a' = a)); subst; try congruence; intros H1 H2.
  - f_equal. by apply ord_antisym.
  - destruct n. by apply ord_antisym.
Qed.

Section sorting.
Context {A K : Type} `{PyOrd K} (key : A → K).

Definition key_leb (x y : A) : bool := ord_leb (key x) (key y).

Fixpoint insert_by (x : A) (l : list A) : list A :=
  match l with
  | [] => [x]
  | y :: l' => if key_leb x y then x :: l else y :: insert_by x l'
  end.

(** [sorted(l, key=key)]: stable, as an element is placed before the equal
    ones that follow it in [l]. *)
Definition sort_by (l : list A) : list A := foldr insert_by [] l.

Lemma insert_by_perm x l : insert_by x l ≡ₚ x :: l.
Proof.
  induction l as [|y l IH]; simpl; [done|].
  destruct (key_leb x y); [done|]. rewrite IH. by constructor.
Qed.

Lemma sort_by_perm l : sort_by l ≡ₚ l.
Proof. induction l as [|x l IH]; simpl; [done|]. by rewrite insert_by_perm, IH. Qed.

Lemma elem_of_sort_by x l : x ∈ sort_by l ↔ x ∈ l.
Proof. by rewrite sort_by_perm. Qed.

Lemma length_sort_by l : length (sort_by l) = length l.
Proof. by rewrite sort_by_perm. Qed.

Definition key_le (x y : A) : Prop := key_leb x y = true.

Lemma insert_by_sorted x l :
  StronglySorted key_le l → StronglySorted key_le (insert_by x l).
Proof.
  induction 1 as [|y l Hl IH Hy]; simpl; [by repeat constructor|].
  destruct (key_leb x y) eqn:E.
  - constructor; [by constructor|]. constructor; [done|].
    eapply Forall_impl; [exact Hy|]. intros z. by apply ord_trans.
  - constructor; [done|]. rewrite insert_by_perm. constructor; [|done].
    unfold key_le, key_leb in *. destruct (ord_total (key x) (key y)); congruence.
Qed.

Lemma sort_by_sorted l : StronglySorted key_le (sort_by l).
Proof. induction l; simpl; [constructor | by apply insert_by_sorted]. Qed.

(** The head of the sorted list is a least element. *)
Lemma sort_by_head l x l' :
  sort_by l = x :: l' → x ∈ l ∧ ∀ y, y ∈ l → ord_leb (key x) (key y) = true.
Proof.
  intros E. assert (Hin : ∀ y, y ∈ l ↔ y ∈ x :: l') by (intros; by rewrite <-E, sort_by_perm).
  split; [apply Hin; by left|]. intros y [->|Hy]%Hin%elem_of_cons; [apply ord_refl|].
  pose proof (sort_by_sorted l) as Hs. rewrite E in Hs. inversion Hs as [|?? _ Hall]; subst.
  rewrite Forall_forall in Hall. by apply Hall.
Qed.

Lemma sort_by_id l : StronglySorted key_le l → sort_by l = l.
Proof.
  induction 1 as [|x l _ IH Hx]; simpl; [done|]. rewrite IH.
  destruct Hx as [|y l Hy _]; simpl; [done|]. unfold key_le in Hy. by rewrite Hy.
Qed.

Lemma sort_by_nil_inv l : sort_by l = [] → l = [].
Proof. intros E. apply Permutation_nil. by rewrite <-E, sort_by_perm. Qed.
End sorting.

Create HintDb pydata.
Create Rewrite HintDb pydata.
#[export] Hint Rewrite @elem_of_sort_by @length_sort_by : pydata.

(** ** Insertion-ordered dictionaries *)

Definition dict (K V : Type) : Type := list (K * V).

Section dict.
Context {K V : Type} `{EqDecision K}.
Implicit Types (d : dict K V) (k : K) (v : V).

(** [d.get(k)]. *)
Fixpoint dict_get d k : option V :=
  match d with
  | [] => None
  | (k', v) :: d => if decide (k' = k) then Some v else dict_get d k
  end.

(** [d[k] = v]: in place for a present key, at the end for a new one. *)
Fixpoint dict_set d k v : dict K V :=
  match d with
  | [] => [(k, v)]
  | (k', v') :: d => if decide (k' = k) then (k, v) :: d else (k', v') :: dict_set d k v
  end.

(** [d.pop(k, None)], as a dictionary. *)
Fixpoint dict_del d k : dict K V :=
  match d with
  | [] => []
  | (k', v') :: d => if decide (k' = k) then d else (k', v') :: dict_del d k
  end.

Definition dict_mem d k : bool := match dict_get d k with Some _ => true | None => false end.
Definition dict_keys d : list K := d.*1.
Definition dict_values d : list V := d.*2.

(** The keys of a dictionary are distinct. *)
Definition dict_wf d : Prop := NoDup (dict_keys d).

Lemma dict_get_set_eq d k v : dict_get (dict_set d k v) k = Some v.
Proof.
  induction d as [|[k' v'] d IH]; simpl; [by rewrite decide_True|].
  destruct (decide (k' = k)) as [->|]; simpl; [by rewrite decide_True|].
  by rewrite decide_False.
Qed.

Lemma dict_get_set_ne d k k' v : k ≠ k' → dict_get (dict_set d k v) k' = dict_get d k'.
Proof.
  intros Hne. induction d as [|[j w] d IH]; simpl; [by rewrite decide_False|].
  destruct (decide (j = k)) as [->|]; simpl; [by rewrite !decide_False|].
  by rewrite IH.
Qed.

Lemma dict_get_set d k k' v :
  dict_get (dict_set d k v) k' = if decide (k = k') then Some v else dict_get d k'.
Proof.
  destruct (decide (k = k')) as [<-|]; [apply dict_get_set_eq | by apply dict_get_set_ne].
Qed.

Lemma dict_keys_set d k v j : j ∈ dict_keys (dict_set d k v) ↔ j = k ∨ j ∈ dict_keys d.
Proof.
  unfold dict_keys. induction d as [|[k' v'] d IH]; simpl; [set_solver|].
  destruct (decide (k' = k)); set_solver.
Qed.

Lemma dict_wf_set d k v : dict_wf d → dict_wf (dict_set d k v).
Proof.
  unfold dict_wf. induction d as [|[k' v'] d IH]; simpl.
  - intros _. apply NoDup_singleton.
  - intros [Hk Hd]%NoDup_cons. destruct (decide (k' = k)) as [->|]; simpl.
    + by constructor.
    + constructor; [|by apply IH]. change (k' ∉ dict_keys (dict_set d k v)).
      rewrite dict_keys_set. set_solver.
Qed.

Lemma dict_wf_nil : dict_wf [].
Proof. constructor. Qed.

Lemma dict_get_Some_in d k v : dict_get d k = Some v → (k, v) ∈ d.
Proof.
  induction d as [|[k' v'] d IH]; simpl; [done|].
  destruct (decide (k' = k)) as [->|]; [intros [= ->]; by left | right; auto].
Qed.

Lemma dict_get_None d k : dict_get d k = None ↔ k ∉ dict_keys d.
Proof.
  unfold dict_keys. induction d as [|[k' v'] d IH]; simpl; [set_solver|].
  destruct (decide (k' = k)); set_solver.
Qed.

Lemma dict_mem_true d k : dict_mem d k = true ↔ k ∈ dict_keys d.
Proof.
  unfold dict_mem. pose proof (dict_get_None d k) as HN.
  destruct (dict_get d k) as [v|] eqn:E.
  - split; [intros _|done]. apply dict_get_Some_in in E.
    apply list_elem_of_fmap. by exists (k, v).
  - split; [done|]. intros Hin. by apply HN in Hin.
Qed.

Lemma dict_get_in d k v : dict_wf d → (k, v) ∈ d → dict_get d k = Some v.
Proof.
  unfold dict_wf. induction d as [|[k' v'] d IH]; simpl; [set_solver|].
  intros [Hk Hd]%NoDup_cons [[= -> ->]|Hin]%elem_of_cons; [by rewrite decide_True|].
  rewrite decide_False; [by apply IH|]. intros ->. apply Hk.
  apply list_elem_of_fmap. by exists (k, v).
Qed.

Lemma dict_get_iff d k v : dict_wf d → dict_get d k = Some v ↔ (k, v) ∈ d.
Proof. split; [apply dict_get_Some_in | by apply dict_get_in]. Qed.

Lemma dict_get_perm d d' k : dict_wf d → d ≡ₚ d' → dict_get d k = dict_get d' k.
Proof.
  intros Hd Hp. apply option_eq. intros v.
  rewrite !dict_get_iff; [by rewrite Hp| |done].
  unfold dict_wf, dict_keys in *. by rewrite <-Hp.
Qed.

Lemma dict_wf_perm d d' : d ≡ₚ d' → dict_wf d → dict_wf d'.
Proof. unfold dict_wf, dict_keys. by intros ->. Qed.

Lemma dict_del_keys d k j : j ∈ dict_keys (dict_del d k) → j ∈ dict_keys d.
Proof.
  unfold dict_keys. induction d as [|[k' v'] d IH]; simpl; [done|].
  destruct (decide (k' = k)); set_solver.
Qed.

Lemma dict_wf_del d k : dict_wf d → dict_wf (dict_del d k).
Proof.
  unfold dict_wf. induction d as [|[k' v'] d IH]; simpl; [done|].
  intros [Hk Hd]%NoDup_cons. destruct (decide (k' = k)); simpl; [done|].
  constructor; [|by apply IH]. intros Hin. apply Hk. by eapply dict_del_keys.
Qed.

Lemma dict_get_del_eq d k : dict_wf d → dict_get (dict_del d k) k = None.
Proof.
  unfold dict_wf. induction d as [|[k' v'] d IH]; simpl; [done|].
  intros [Hk Hd]%NoDup_cons. destruct (decide (k' = k)) as [->|]; simpl.
  - by apply dict_get_None.
  - rewrite decide_False by done. by apply IH.
Qed.

Lemma dict_get_del_ne d k k' : k ≠ k' → dict_get (dict_del d k) k' = dict_get d k'.
Proof.
  intros Hne. induction d as [|[j w] d IH]; simpl; [done|].
  destruct (decide (j = k)) as [->|]; simpl.
  - by rewrite decide_False.
  - by rewrite IH.
Qed.

Lemma dict_get_del d k k' : dict_wf d →
  dict_get (dict_del d k) k' = if decide (k = k') then None else dict_get d k'.
Proof.
  intros Hd. destruct (decide (k = k')) as [<-|];
    [by apply dict_get_del_eq | by apply dict_get_del_ne].
Qed.

Lemma length_dict_set d k v :
  length (dict_set d k v) = if dict_mem d k then length d else S (length d).
Proof.
  unfold dict_mem. induction d as [|[k' v'] d IH]; simpl; [done|].
  destruct (decide (k' = k)); simpl; [done|]. rewrite IH. by destruct (dict_get d k).
Qed.

Lemma length_dict_del d k :
  length (dict_del d k) = if dict_mem d k then pred (length d) else length d.
Proof.
  unfold dict_mem. induction d as [|[k' v'] d IH]; simpl; [done|].
  destruct (decide (k' = k)); simpl; [done|]. rewrite IH.
  destruct (dict_get d k) eqn:E; [|done]. destruct d; simpl in *; [done | lia].
Qed.

Lemma dict_set_new d k v : dict_get d k = None → dict_set d k v = d ++ [(k, v)].
Proof.
  induction d as [|[k' v'] d IH]; simpl; [done|].
  destruct (decide (k' = k)); [done|]. intros Hd. by rewrite IH.
Qed.

Lemma dict_set_app_r d d' k v :
  k ∉ dict_keys d → dict_set (d ++ d') k v = d ++ dict_set d' k v.
Proof.
  unfold dict_keys. induction d as [|[k' v'] d IH]; [done|]. csimpl. intros Hk.
  rewrite decide_False by set_solver. by rewrite IH by set_solver.
Qed.

Lemma dict_set_in d k v x :
  dict_wf d → x ∈ dict_set d k v ↔ x = (k, v) ∨ (x ∈ d ∧ x.1 ≠ k).
Proof.
  intros Hd. destruct x as [j w].
  rewrite <-dict_get_iff by by apply dict_wf_set.
  rewrite <-(dict_get_iff d) by done. rewrite dict_get_set. simpl.
  destruct (decide (k = j)) as [->|Hne].
  - split; [intros [= ->]; by left | by intros [[= ->]|[_ []]]].
  - split; [right; split; congruence | by intros [[= -> ->]|[? _]]].
Qed.
End dict.

#[export] Hint Resolve dict_wf_nil dict_wf_set dict_wf_del : pydata.

(** ** Sums over the values of a dictionary *)

Section dict_sum.
Context {K V : Type} `{EqDecision K} (f : V → Z).

Definition dict_sum (d : dict K V) : Z := zsum (f <$> dict_values d).

Lemma dict_del_perm (d : dict K V) k v : dict_get d k = Some v → d ≡ₚ (k, v) :: dict_del d k.
Proof.
  induction d as [|[k' v'] d IH]; simpl; [done|].
  destruct (decide (k' = k)) as [->|]; [by intros [= ->]|].
  intros Hd. rewrite (IH Hd) at 1. by constructor.
Qed.

Lemma dict_sum_perm d d' : d ≡ₚ d' → dict_sum d = dict_sum d'.
Proof. unfold dict_sum, dict_values. by intros ->. Qed.

Lemma dict_sum_del d k v : dict_get d k = Some v → dict_sum d = (f v + dict_sum (dict_del d k))%Z.
Proof. intros Hd. rewrite (dict_sum_perm _ _ (dict_del_perm d k v Hd)). done. Qed.

(** No new keys, and no value grew. *)
Lemma dict_sum_le d d' :
  dict_wf d → dict_wf d' → (∀ k v, dict_get d k = Some v → 0 ≤ f v)%Z →
  (∀ k v', dict_get d' k = Some v' → ∃ v, dict_get d k = Some v ∧ (f v' ≤ f v)%Z) →
  (dict_sum d' ≤ dict_sum d)%Z.
Proof.
  intros Hd Hd' Hpos. revert d Hd Hpos. induction d' as [|[k v'] d' IH]; intros d Hd Hpos Hk.
  - apply zsum_nonneg, Forall_fmap, Forall_forall. intros v ([k v0] & -> & Hin)%list_elem_of_fmap.
    simpl. by eapply Hpos, dict_get_in.
  - apply NoDup_cons in Hd' as [Hnew Hd'].
    destruct (Hk k v') as (v & Hv & Hle); [simpl; by rewrite decide_True|].
    rewrite (dict_sum_del d k v Hv). change (dict_sum ((k, v') :: d')) with (f v' + dict_sum d')%Z.
    enough (dict_sum d' ≤ dict_sum (dict_del d k))%Z by lia.
    apply IH; [done|by apply dict_wf_del| |].
    + intros j w. rewrite dict_get_del by done. destruct (decide _); [done|]. apply Hpos.
    + intros j w' Hj. assert (k ≠ j) as Hne.
      { intros <-. apply dict_get_Some_in in Hj. apply Hnew, list_elem_of_fmap. by exists (k, w'). }
      rewrite dict_get_del_ne by done. apply (Hk j). simpl. by rewrite decide_False.
Qed.

(** ... and one of them shrank. *)
Lemma dict_sum_lt d d' k v v' :
  dict_wf d → dict_wf d' → (∀ k v, dict_get d k = Some v → 0 ≤ f v)%Z →
  (∀ k v', dict_get d' k = Some v' → ∃ v, dict_get d k = Some v ∧ (f v' ≤ f v)%Z) →
  dict_get d k = Some v → dict_get d' k = Some v' → (f v' < f v)%Z →
  (dict_sum d' < dict_sum d)%Z.
Proof.
  intros Hd Hd' Hpos Hk Hv Hv' Hlt. rewrite (dict_sum_del d k v), (dict_sum_del d' k v') by done.
  enough (dict_sum (dict_del d' k) ≤ dict_sum (dict_del d k))%Z by lia.
  apply dict_sum_le; [by apply dict_wf_del..| |].
  - intros j w. rewrite dict_get_del by done. destruct (decide _); [done|]. apply Hpos.
  - intros j w. rewrite !dict_get_del by done. destruct (decide _); [done|]. apply Hk.
Qed.
End dict_sum.

(** [d.update(e)]. *)
Definition dict_merge {V} (d e : dict string V) : dict string V :=
  foldl (λ d kv, dict_set d kv.1 kv.2) d e.

Lemma dict_wf_merge {V} (d e : dict string V) : dict_wf d → dict_wf (dict_merge d e).
Proof. revert d. induction e as [|kv e IH]; intros d Hd; [done|]. by apply IH, dict_wf_set. Qed.

Lemma dict_get_merge {V} (d e : dict string V) k :
  dict_wf e → dict_get (dict_merge d e) k = match dict_get e k with Some v => Some v | None => dict_get d k end.
Proof.
  unfold dict_wf, dict_keys. revert d. induction e as [|[k' v] e IH]; intros d He; [done|]. csimpl in He.
  apply NoDup_cons in He as [Hk He]. simpl. rewrite IH, dict_get_set by done. destruct (decide (k' = k)) as [->|]; [|done].
  by rewrite (proj2 (dict_get_None e k)).
Qed.

(** [dict(sorted(d.items()))]: sorting by distinct keys keeps the mapping. *)
Definition dict_sort {V} (d : dict string V) : dict string V := sort_by fst d.

Lemma dict_wf_sort {V} (d : dict string V) : dict_wf d → dict_wf (dict_sort d).
Proof. apply dict_wf_perm. symmetry. apply sort_by_perm. Qed.

Lemma dict_get_sort {V} (d : dict string V) k :
  dict_wf d → dict_get (dict_sort d) k = dict_get d k.
Proof. intros Hd. symmetry. apply dict_get_perm; [done|]. symmetry. apply sort_by_perm. Qed.

Lemma elem_of_dict_sort {V} (d : dict string V) x : x ∈ dict_sort d ↔ x ∈ d.
Proof. apply elem_of_sort_by. Qed.

Lemma length_dict_sort {V} (d : dict string V) : length (dict_sort d) = length d.
Proof. apply length_sort_by. Qed.

#[export] Hint Resolve dict_wf_sort : pydata.

(** ** Strings *)

Definition code (c : ascii) : N := N_of_ascii c.

(** A continuation byte of a multi-byte UTF-8 sequence. *)
Definition is_continuation (c : ascii) : bool := (128 <=? code c)%N && (code c <? 192)%N.

(** [len(s)]: code points, that is the bytes that begin one. *)
Fixpoint str_len (s : string) : nat :=
  match s with
  | EmptyString => 0
  | String c s => (if is_continuation c then 0 else 1) + str_len s
  end.

(** [len(s.encode("utf-8"))]. *)
Definition utf8_len (s : string) : nat := String.length s.

Definition chars (s : string) : list ascii := String.list_ascii_of_string s.
Definition of_chars (l : list ascii) : string := String.string_of_list_ascii l.

(** [any(p(c) for c in s)]. *)
Definition any_char (p : ascii → bool) (s : string) : bool := existsb p (chars s).
Definition contains_char (c : ascii) (s : string) : bool := any_char (λ d, bool_decide (d = c)) s.

(** [s.startswith(p)]. *)
Definition startswith (s p : string) : bool := String.prefix p s.
(** [s.endswith(p)]. *)
Definition endswith (s p : string) : bool :=
  startswith (of_chars (reverse (chars s))) (of_chars (reverse (chars p))).

(** [s.split(sep)] for a one-character separator. *)
Fixpoint split_chars (sep : ascii) (cur : list ascii) (l : list ascii) : list (list ascii) :=
  match l with
  | [] => [reverse cur]
  | c :: l => if decide (c = sep) then reverse cur :: split_chars sep [] l
              else split_chars sep (c :: cur) l
  end.
Definition str_split (sep : ascii) (s : string) : list string :=
  of_chars <$> split_chars sep [] (chars s).

(** [sep.join(l)]. *)
Definition str_join (sep : string) (l : list string) : string := String.concat sep l.

(** [s.rstrip(set)]: the trailing characters satisfying [p] removed. *)
Fixpoint drop_while {A} (p : A → bool) (l : list A) : list A :=
  match l with
  | [] => []
  | x :: l' => if p x then drop_while p l' else l
  end.
Definition rstrip (p : ascii → bool) (s : string) : string :=
  of_chars (reverse (drop_while p (reverse (chars s)))).
Definition lstrip (p : ascii → bool) (s : string) : string :=
  of_chars (drop_while p (chars s)).

(** [s.strip()]: white space is ASCII (bytes 9-13 and 28-32) or one of the
    Unicode spaces, in UTF-8 (U+0085, U+00A0, U+1680, U+2000 to U+200A,
    U+2028, U+2029, U+202F, U+205F, U+3000). *)
Definition is_space (c : ascii) : bool :=
  ((9 <=? code c)%N && (code c <=? 13)%N) || ((28 <=? code c)%N && (code c <=? 32)%N).
Definition space2 (a b : ascii) : bool :=
  (code a =? 194)%N && ((code b =? 133)%N || (code b =? 160)%N).
Definition space3 (a b c : ascii) : bool :=
  ((code a =? 225)%N && (code b =? 154)%N && (code c =? 128)%N) ||
  ((code a =? 226)%N && (code b =? 128)%N &&
     (((128 <=? code c)%N && (code c <=? 138)%N) || (code c =? 168)%N || (code c =? 169)%N || (code c =? 175)%N)) ||
  ((code a =? 226)%N && (code b =? 129)%N && (code c =? 159)%N) ||
  ((code a =? 227)%N && (code b =? 128)%N && (code c =? 128)%N).

Section strip.
Context (two : ascii → ascii → bool) (three : ascii → ascii → ascii → bool).

Fixpoint strip_head (l : list ascii) : list ascii :=
  match l with
  | [] => []
  | a :: l1 =>
      if is_space a then strip_head l1
      else match l1 with
           | [] => l
           | b :: l2 => if two a b then strip_head l2
                        else match l2 with
                             | [] => l
                             | c :: l3 => if three a b c then strip_head l3 else l
                             end
           end
  end.
End strip.

Definition str_strip (s : string) : string :=
  let l := strip_head space2 space3 (chars s) in
  of_chars (reverse (strip_head (λ b a, space2 a b) (λ c b a, space3 a b c) (reverse l))).

(** [s.casefold()] and [s.upper()].  The ASCII letters change case; the
    characters outside ASCII whose folding (or upper case) contains an ASCII
    letter are the ones of the tables, in UTF-8 (the long s, the Kelvin sign,
    the sharp s, the Latin ligatures, ...).  Every other byte is kept: no
    ASCII character comes out of it, which is all the callers depend on. *)
Definition fold2 (a b : N) : option (list N) :=
  match a, b with
  | 195, 159 => Some [115; 115]
  | 196, 176 => Some [105; 204; 135]
  | 197, 137 => Some [202; 188; 110]
  | 197, 191 => Some [115]
  | 199, 176 => Some [106; 204; 140]
  | _, _ => None
  end%N.
Definition fold3 (a b c : N) : option (list N) :=
  match a, b, c with
  | 225, 186, 150 => Some [104; 204; 177]
  | 225, 186, 151 => Some [116; 204; 136]
  | 225, 186, 152 => Some [119; 204; 138]
  | 225, 186, 153 => Some [121; 204; 138]
  | 225, 186, 154 => Some [97; 202; 190]
  | 225, 186, 158 => Some [115; 115]
  | 226, 132, 170 => Some [107]
  | 239, 172, 128 => Some [102; 102]
  | 239, 172, 129 => Some [102; 105]
  | 239, 172, 130 => Some [102; 108]
  | 239, 172, 131 => Some [102; 102; 105]
  | 239, 172, 132 => Some [102; 102; 108]
  | 239, 172, 133 | 239, 172, 134 => Some [115; 116]
  | _, _, _ => None
  end%N.
Definition upper2 (a b : N) : option (list N) :=
  match a, b with
  | 195, 159 => Some [83; 83]
  | 196, 177 => Some [73]
  | 197, 137 => Some [202; 188; 78]
  | 197, 191 => Some [83]
  | 199, 176 => Some [74; 204; 140]
  | _, _ => None
  end%N.
Definition upper3 (a b c : N) : option (list N) :=
  match a, b, c with
  | 225, 186, 150 => Some [72; 204; 177]
  | 225, 186, 151 => Some [84; 204; 136]
  | 225, 186, 152 => Some [87; 204; 138]
  | 225, 186, 153 => Some [89; 204; 138]
  | 225, 186, 154 => Some [65; 202; 190]
  | 239, 172, 128 => Some [70; 70]
  | 239, 172, 129 => Some [70; 73]
  | 239, 172, 130 => Some [70; 76]
  | 239, 172, 131 => Some [70; 70; 73]
  | 239, 172, 132 => Some [70; 70; 76]
  | 239, 172, 133 | 239, 172, 134 => Some [83; 84]
  | _, _, _ => None
  end%N.

Definition lower_char (c : ascii) : ascii :=
  if (65 <=? code c)%N && (code c <=? 90)%N then ascii_of_N (code c + 32) else c.
Definition upper_char (c : ascii) : ascii :=
  if (97 <=? code c)%N && (code c <=? 122)%N then ascii_of_N (code c - 32) else c.

Section case_map.
Context (map1 : ascii → ascii) (map2 : N → N → option (list N))
  (map3 : N → N → N → option (list N)).

Fixpoint case_map (l : list ascii) : list ascii :=
  match l with
  | [] => []
  | a :: l1 =>
      match l1 with
      | [] => [map1 a]
      | b :: l2 =>
          match map2 (code a) (code b) with
          | Some r => (ascii_of_N <$> r) ++ case_map l2
          | None =>
              match l2 with
              | [] => map1 a :: case_map l1
              | c :: l3 =>
                  match map3 (code a) (code b) (code c) with
                  | Some r => (ascii_of_N <$> r) ++ case_map l3
                  | None => map1 a :: case_map l1
                  end
              end
          end
      end
  end.
End case_map.

Definition casefold (s : string) : string := of_chars (case_map lower_char fold2 fold3 (chars s)).
Definition upper (s : string) : string := of_chars (case_map upper_char upper2 upper3 (chars s)).

Lemma chars_of_chars l : chars (of_chars l) = l.
Proof. apply String.list_ascii_of_string_of_list_ascii. Qed.

Lemma of_chars_chars s : of_chars (chars s) = s.
Proof. apply String.string_of_list_ascii_of_string. Qed.

Lemma chars_inj s t : chars s = chars t → s = t.
Proof. intros E. by rewrite <-(of_chars_chars s), E, of_chars_chars. Qed.

Lemma chars_app s t : chars (s +:+ t) = chars s ++ chars t.
Proof. unfold chars. induction s as [|c s IH]; [done|]. cbn. by rewrite <-IH. Qed.

Lemma str_app_assoc (s t u : string) : s +:+ t +:+ u = (s +:+ t) +:+ u.
Proof. apply chars_inj. rewrite !chars_app. apply (assoc_L (++)). Qed.

Lemma startswith_iff s p : startswith s p = true ↔ ∃ t, s = p +:+ t.
Proof.
  unfold startswith. revert s. induction p as [|c p IH]; intros s.
  - split; [intros _; by exists s | by destruct s].
  - destruct s as [|d s]; simpl; [split; [done | by intros [t [=]]]|].
    destruct (Ascii.ascii_dec c d) as [->|Hne].
    + rewrite IH. split; intros [t Ht]; exists t.
      * by rewrite Ht.
      * by injection Ht.
    + split; [done|]. intros [t Ht]. by injection Ht.
Qed.

Lemma any_char_false p s : any_char p s = false ↔ ∀ c, c ∈ chars s → p c = false.
Proof.
  unfold any_char. induction (chars s) as [|c l IH]; simpl; [set_solver|].
  rewrite orb_false_iff, IH. set_solver.
Qed.

(** Splitting at a character undoes joining parts without it. *)

Lemma split_chars_last sep cur l : sep ∉ l → split_chars sep cur l = [reverse cur ++ l].
Proof.
  revert cur. induction l as [|c l IH]; intros cur Hl; simpl; [by rewrite app_nil_r|].
  rewrite decide_False by set_solver. rewrite IH by set_solver. by rewrite reverse_cons, <-(assoc_L (++)).
Qed.

Lemma split_chars_sep sep cur l r :
  sep ∉ l → split_chars sep cur (l ++ sep :: r) = (reverse cur ++ l) :: split_chars sep [] r.
Proof.
  revert cur. induction l as [|c l IH]; intros cur Hl; simpl; [by rewrite decide_True, app_nil_r|].
  rewrite decide_False by set_solver. rewrite IH by set_solver. by rewrite reverse_cons, <-(assoc_L (++)).
Qed.

Lemma str_split_join sep parts :
  parts ≠ [] → Forall (λ p, sep ∉ chars p) parts →
  str_split sep (str_join (String sep "") parts) = parts.
Proof.
  intros Hne Hp. induction Hp as [|p parts Hp Hps IH]; [done|]. unfold str_split, str_join in *.
  destruct parts as [|q parts].
  - simpl. rewrite split_chars_last by done. simpl. by rewrite of_chars_chars.
  - change (String.concat (String sep "") (p :: q :: parts)) with (p +:+ String sep (String.concat (String sep "") (q :: parts))).
    rewrite chars_app. change (chars (String sep ?x)) with (sep :: chars x).
    rewrite split_chars_sep by done. csimpl. rewrite of_chars_chars. f_equal. by apply IH.
Qed.

(** The prefixes that [sep.join(parts[:i])] makes of a text. *)
Lemma str_join_split sep s : str_join (String sep "") (str_split sep s) = s.
Proof.
  unfold str_split, str_join.
  assert (∀ l cur, chars (String.concat (String sep "") (of_chars <$> split_chars sep cur l)) = reverse cur ++ l) as H.
  { induction l as [|c l IH]; intros cur; simpl; [by rewrite chars_of_chars, app_nil_r|].
    destruct (decide (c = sep)) as [->|].
    - specialize (IH []). destruct (split_chars sep [] l) as [|x xs] eqn:E.
      + exfalso. clear -E. revert E. generalize (@nil ascii). induction l as [|d l IHl]; intros cur0 E; simpl in E; [done|].
        destruct (decide (d = sep)); [done|by eapply IHl].
      + csimpl. change (of_chars (reverse cur) +:+ String sep "" +:+ ?t) with (of_chars (reverse cur) +:+ String sep t).
        rewrite chars_app, chars_of_chars. f_equal. change (chars (String sep ?t)) with (sep :: chars t). by f_equal.
    - by rewrite IH, reverse_cons, <-(assoc_L (++)). }
  apply chars_inj. by rewrite H.
Qed.

(** Stripping a text in which nothing is to strip. *)
Lemma drop_while_none {A} (p : A → bool) l : (∀ c, c ∈ l → p c = false) → drop_while p l = l.
Proof. destruct l as [|c l]; [done|]. intros H. simpl. by rewrite H by by left. Qed.

Lemma strip_none p s : (∀ c, c ∈ chars s → p c = false) → rstrip p (lstrip p s) = s.
Proof.
  intros H. unfold lstrip, rstrip. rewrite (drop_while_none p (chars s)) by done. rewrite of_chars_chars.
  rewrite drop_while_none; [by rewrite reverse_involutive, of_chars_chars|]. intros c Hc. apply H. by rewrite elem_of_reverse in Hc.
Qed.

(** Stripping and folding change nothing in a text of ASCII characters
    without white space and capitals. *)

Definition plain_char (c : ascii) : bool := (code c <? 128)%N && negb (is_space c) && negb ((65 <=? code c)%N && (code c <=? 90)%N).

Lemma strip_head_plain two three l :
  (∀ c, c ∈ l → is_space c = false) → (∀ a b, a ∈ l → b ∈ l → two a b = false) →
  (∀ a b c, a ∈ l → b ∈ l → c ∈ l → three a b c = false) → strip_head two three l = l.
Proof.
  intros H1 H2 H3. destruct l as [|a [|b [|c l]]]; cbn [strip_head]; [done|..];
    rewrite H1 by set_solver; [done|..]; rewrite H2 by set_solver; [done|]. by rewrite H3 by set_solver.
Qed.

Lemma str_strip_plain s : (∀ c, c ∈ chars s → plain_char c = true) → str_strip s = s.
Proof.
  intros H. unfold str_strip.
  assert (∀ c, c ∈ chars s → is_space c = false ∧ (code c < 128)%N) as Hc.
  { intros c Hin. specialize (H c Hin). unfold plain_char in H.
    apply andb_true_iff in H as [[Ha Hb%negb_true_iff]%andb_true_iff _]. split; [done|]. by apply N.ltb_lt. }
  assert (∀ (a b : ascii), (code a < 128)%N → space2 a b = false) as H2.
  { intros a b Ha. unfold space2. by rewrite (proj2 (N.eqb_neq (code a) 194)) by lia. }
  assert (∀ (a b c : ascii), (code a < 128)%N → space3 a b c = false) as H3.
  { intros a b c Ha. unfold space3.
    by rewrite (proj2 (N.eqb_neq (code a) 225)), (proj2 (N.eqb_neq (code a) 226)), (proj2 (N.eqb_neq (code a) 227)) by lia. }
  rewrite (strip_head_plain space2 space3) by naive_solver.
  rewrite strip_head_plain; [by rewrite reverse_involutive, of_chars_chars|..].
  - intros c. rewrite elem_of_reverse. naive_solver.
  - intros a b. rewrite !elem_of_reverse. naive_solver.
  - intros a b c. rewrite !elem_of_reverse. naive_solver.
Qed.

Lemma fold2_ascii a b : (a < 128)%N → fold2 a b = None.
Proof. intros Ha. unfold fold2. repeat (case_match; try done; try lia). Qed.
Lemma fold3_ascii a b c : (a < 128)%N → fold3 a b c = None.
Proof. intros Ha. unfold fold3. repeat (case_match; try done; try lia). Qed.
Lemma upper2_ascii a b : (a < 128)%N → upper2 a b = None.
Proof. intros Ha. unfold upper2. repeat (case_match; try done; try lia). Qed.
Lemma upper3_ascii a b c : (a < 128)%N → upper3 a b c = None.
Proof. intros Ha. unfold upper3. repeat (case_match; try done; try lia). Qed.

(** On ASCII text the case maps work character by character. *)
Lemma case_map_ascii map1 map2 map3 l :
  (∀ a b, (a < 128)%N → map2 a b = None) → (∀ a b c, (a < 128)%N → map3 a b c = None) →
  (∀ c, c ∈ l → (code c < 128)%N) → case_map map1 map2 map3 l = map1 <$> l.
Proof.
  intros H2 H3. induction l as [|a l IH]; intros Hl; [done|].
  assert (code a < 128)%N as Ha by (apply Hl; by left).
  assert (case_map map1 map2 map3 l = map1 <$> l) as E by (apply IH; set_solver).
  simpl. destruct l as [|b l]; [done|]. rewrite H2 by done.
  destruct l as [|c l]; [by rewrite E|]. rewrite H3 by done. by rewrite E.
Qed.

Lemma casefold_plain s : (∀ c, c ∈ chars s → plain_char c = true) → casefold s = s.
Proof.
  intros H. unfold casefold. rewrite case_map_ascii; [|exact fold2_ascii|exact fold3_ascii|].
  - rewrite <-(of_chars_chars s) at 2. f_equal. rewrite <-(list_fmap_id (chars s)) at 2.
    apply list_fmap_ext. intros _ c Hc%list_elem_of_lookup_2. specialize (H c Hc).
    apply andb_true_iff in H as [_ H%negb_true_iff]. unfold lower_char. by rewrite H.
  - intros c Hc. specialize (H c Hc). apply andb_true_iff in H as [[H _]%andb_true_iff _]. by apply N.ltb_lt.
Qed.

(** ** Time

    Instants and durations in microseconds.  An aware [datetime] is its UTC
    instant (two aware values compare by it); a naive one has no zone. *)

Inductive datetime : Type :=
  | Aware (us : Z)
  | Naive (us : Z).

#[global] Instance datetime_eq_dec : EqDecision datetime.
Proof. solve_decision. Defined.

Definition second : Z := 1000000.
Definition minute : Z := 60 * second.
Definition hour : Z := 3600 * second.
Definition day : Z := 86400 * second.

(** [datetime.min] and [datetime.max] in UTC: years 1 to 9999. *)
Definition DT_MIN : Z := -62135596800 * second.
Definition DT_MAX : Z := 253402300799 * second + 999999.
(** [timedelta.min] and [timedelta.max]: 999999999 days. *)
Definition TD_MIN : Z := -999999999 * day.
Definition TD_MAX : Z := 999999999 * day + (day - 1).

Definition dt_in_range (t : Z) : bool := (DT_MIN <=? t)%Z && (t <=? DT_MAX)%Z.
Definition td_in_range (d : Z) : bool := (TD_MIN <=? d)%Z && (d <=? TD_MAX)%Z.

(** [value.astimezone(UTC)] of an aware value. *)
Definition astimezone_utc (us : Z) : result Z :=
  if dt_in_range us then Ok us else fail OverflowErr "date value out of range".

(** [t + d] for an instant and a duration. *)
Definition dt_add (t d : Z) : result Z :=
  if dt_in_range (t + d) then Ok (t + d)%Z else fail OverflowErr "date value out of range".

(** Division by a positive integer rounding half to even, as [timedelta]
    multiplication by a float of exact ratio does. *)
Definition div_half_even (a b : Z) : Z :=
  let q := (a / b)%Z in
  let r := (a mod b)%Z in
  if (2 * r <? b)%Z then q
  else if (b <? 2 * r)%Z then (q + 1)%Z
  else if Z.even q then q else (q + 1)%Z.

(** [d * (2 ** e)]: an integer power for [0 <= e], the float [2.0 ** e]
    (an exact ratio) below. *)
Definition td_mul_pow2 (d e : Z) : result Z :=
  let r := if (0 <=? e)%Z then (d * 2 ^ e)%Z else div_half_even d (2 ^ (- e)) in
  if td_in_range r then Ok r else fail OverflowErr "days magnitude exceeds the range of timedelta".

(** [_as_utc]: naive values are refused with the caller's message. *)
Definition as_utc_msg (msg : string) (t : datetime) : result Z :=
  match t with
  | Naive _ => fail ValueErr msg
  | Aware us => astimezone_utc us
  end.

(** [x or default]. *)
Definition or_default {A} (o : option A) (a : A) : A :=
  match o with Some x => x | None => a end.

Lemma dt_in_range_iff t : dt_in_range t = true ↔ (DT_MIN ≤ t ≤ DT_MAX)%Z.
Proof. unfold dt_in_range. rewrite andb_true_iff, !Z.leb_le. done. Qed.

Lemma dt_add_ok t d t' : dt_add t d = Ok t' ↔ t' = (t + d)%Z ∧ dt_in_range t' = true.
Proof.
  unfold dt_add. destruct (dt_in_range (t + d)) eqn:E; split; try done.
  - by intros [= <-].
  - by intros [-> _].
  - intros [-> ?]. congruence.
Qed.

Lemma as_utc_ok msg t us : as_utc_msg msg t = Ok us ↔ t = Aware us ∧ dt_in_range us = true.
Proof.
  destruct t as [u|u]; simpl; [|naive_solver].
  unfold astimezone_utc. destruct (dt_in_range u) eqn:E; naive_solver congruence.
Qed.

(** ** Loops over [tuple(d.items())] that assign to the visited keys

    [for k, v in tuple(d.items()): if c: d[k] = f(v)] visits a snapshot, so it
    is one pass over the entries ([dict_update_each_map]). *)

Section dict_update.
Context {V : Type} (f : string → V → option V).

Definition update_step (d : dict string V) (kv : string * V) : dict string V :=
  match f kv.1 kv.2 with Some v => dict_set d kv.1 v | None => d end.

Definition dict_update_each (d : dict string V) : dict string V := foldl update_step d d.

Definition update_entry (kv : string * V) : string * V :=
  (kv.1, match f kv.1 kv.2 with Some v => v | None => kv.2 end).

Lemma dict_update_each_map d : dict_wf d → dict_update_each d = update_entry <$> d.
Proof.
  intros Hwf. unfold dict_update_each.
  enough (∀ done todo, dict_wf (done ++ todo) →
    foldl update_step ((update_entry <$> done) ++ todo) todo = update_entry <$> (done ++ todo))
    as H by exact (H [] d Hwf).
  intros dn todo. revert dn.
  induction todo as [|[k v] todo IH]; intros dn Hd; simpl; [by rewrite !app_nil_r|].
  replace (dn ++ (k, v) :: todo) with ((dn ++ [(k, v)]) ++ todo) in * by by rewrite <-(assoc_L (++)).
  rewrite <-IH by done. f_equal. rewrite fmap_app, <-(assoc_L (++)). simpl.
  unfold update_step, update_entry. simpl. destruct (f k v) as [w|]; [|done].
  rewrite dict_set_app_r; [simpl; by rewrite decide_True|].
  unfold dict_wf, dict_keys in *. rewrite !fmap_app in Hd. simpl in Hd.
  rewrite <-list_fmap_compose. unfold compose, update_entry. simpl.
  rewrite <-(assoc_L (++)) in Hd. apply NoDup_app in Hd as (_ & Hd & _).
  intros Hin. apply (Hd k Hin). by left.
Qed.

Lemma dict_update_keys d : dict_wf d → dict_keys (dict_update_each d) = dict_keys d.
Proof.
  intros Hd. rewrite dict_update_each_map by done. unfold dict_keys.
  by rewrite <-list_fmap_compose.
Qed.

Lemma dict_wf_update d : dict_wf d → dict_wf (dict_update_each d).
Proof. intros Hd. unfold dict_wf. by rewrite dict_update_keys. Qed.

Lemma dict_get_update d k : dict_wf d →
  dict_get (dict_update_each d) k =
  match dict_get d k with
  | Some v => Some (match f k v with Some w => w | None => v end)
  | None => None
  end.
Proof.
  intros Hd. rewrite dict_update_each_map by done. clear Hd.
  induction d as [|[k' v'] d IH]; simpl; [done|].
  destruct (decide (k' = k)) as [->|]; [done | exact IH].
Qed.

Lemma length_dict_update d : dict_wf d → length (dict_update_each d) = length d.
Proof. intros Hd. by rewrite dict_update_each_map, length_fmap. Qed.
End dict_update.

#[export] Hint Resolve dict_wf_update : pydata.

(** [del d[k]]. *)
Definition dict_del_item {K V} `{EqDecision K} (msg : string) (d : dict K V) (k : K) : result (dict K V) :=
  match dict_get d k with
  | Some _ => Ok (dict_del d k)
  | None => fail KeyErr msg
  end.
