(* ===== verification/Regex.v ===== *)
(** * Regular expressions

    The patterns the code compiles with [re], matched by derivatives.
    [fullmatch r s] decides [re.fullmatch]; [fullmatch_correct] states that it
    agrees with the language [re_lang r] for every expression and string.
    A pattern written [^...$] is its body: with [fullmatch] both anchors hold
    at the ends of the string and nowhere else. *)

From Stdlib Require Import Ascii Lia.
From stdpp Require Import base decidable numbers list strings sets.
From S2P Require Import Prelude PyData.

Inductive re : Type :=
  | Void
  | Eps
  | Chr (p : ascii → bool)
  | Seq (r s : re)
  | Alt (r s : re)
  | Star (r : re)
  | Rep (lo hi : nat) (r : re).

(** ** The language of an expression *)

Inductive re_pow (L : list ascii → Prop) : nat → list ascii → Prop :=
  | pow_O : re_pow L 0 []
  | pow_S n x y : L x → re_pow L n y → re_pow L (S n) (x ++ y).

Fixpoint re_lang (r : re) (w : list ascii) : Prop :=
  match r with
  | Void => False
  | Eps => w = []
  | Chr p => ∃ c, w = [c] ∧ p c = true
  | Seq r s => ∃ x y, w = x ++ y ∧ re_lang r x ∧ re_lang s y
  | Alt r s => re_lang r w ∨ re_lang s w
  | Star r => ∃ n, re_pow (re_lang r) n w
  | Rep lo hi r => ∃ n, lo ≤ n ≤ hi ∧ re_pow (re_lang r) n w
  end.

(** ** The matcher *)

Fixpoint nullable (r : re) : bool :=
  match r with
  | Void | Chr _ => false
  | Eps | Star _ => true
  | Seq r s => nullable r && nullable s
  | Alt r s => nullable r || nullable s
  | Rep lo hi r => (lo <=? hi)%nat && ((lo =? 0)%nat || nullable r)
  end.

(** Concatenation and union, simplified at [Void] and [Eps]. *)
Definition mk_seq (r s : re) : re :=
  match r with Void => Void | Eps => s | _ => Seq r s end.
Definition mk_alt (r s : re) : re :=
  match r, s with Void, _ => s | _, Void => r | _, _ => Alt r s end.

Fixpoint deriv (c : ascii) (r : re) : re :=
  match r with
  | Void | Eps => Void
  | Chr p => if p c then Eps else Void
  | Seq r s => if nullable r then mk_alt (mk_seq (deriv c r) s) (deriv c s)
               else mk_seq (deriv c r) s
  | Alt r s => mk_alt (deriv c r) (deriv c s)
  | Star r => mk_seq (deriv c r) (Star r)
  | Rep lo (S hi) r => if (lo <=? S hi)%nat then mk_seq (deriv c r) (Rep (pred lo) hi r) else Void
  | Rep _ O _ => Void
  end.

Fixpoint re_match (r : re) (w : list ascii) : bool :=
  match w with
  | [] => nullable r
  | c :: w => re_match (deriv c r) w
  end.

Definition fullmatch (r : re) (s : string) : bool := re_match r (chars s).

(** ** Building blocks of the patterns *)

Definition Opt (r : re) : re := Alt r Eps.
Definition Plus (r : re) : re := Seq r (Star r).
Fixpoint Lit_chars (l : list ascii) : re :=
  match l with
  | [] => Eps
  | c :: l => mk_seq (Chr (λ d, bool_decide (d = c))) (Lit_chars l)
  end.
(** A literal string. *)
Definition Lit (s : string) : re := Lit_chars (chars s).

Definition in_range (lo hi : ascii) (c : ascii) : bool :=
  (code lo <=? code c)%N && (code c <=? code hi)%N.
Definition is_lower : ascii → bool := in_range "a" "z".
Definition is_upper : ascii → bool := in_range "A" "Z".
Definition is_digit : ascii → bool := in_range "0" "9".
Definition is_alpha (c : ascii) : bool := is_lower c || is_upper c.
Definition is_alnum (c : ascii) : bool := is_alpha c || is_digit c.
Definition is_hex (c : ascii) : bool := is_digit c || in_range "a" "f" c.
(** One of the characters of [s]. *)
Definition one_of (s : string) (c : ascii) : bool := contains_char c s.

(** ** Correctness *)

Lemma mk_seq_lang r s w : re_lang (mk_seq r s) w ↔ re_lang (Seq r s) w.
Proof.
  destruct r; simpl; try done.
  - split; [done | by intros (? & ? & _ & ? & _)].
  - split; [by exists [], w | by intros (? & y & -> & -> & ?)].
Qed.

Lemma mk_alt_lang r s w : re_lang (mk_alt r s) w ↔ re_lang (Alt r s) w.
Proof. destruct r, s; simpl; tauto. Qed.

Lemma re_pow_nil L n : L [] → re_pow L n [].
Proof. intros HL. induction n; [constructor | by apply (pow_S L n [] [])]. Qed.

Lemma re_pow_pad L n m w : L [] → n ≤ m → re_pow L n w → re_pow L m w.
Proof.
  intros HL Hle Hp. revert m Hle. induction Hp as [|n x y Hx _ IH]; intros m Hle.
  - by apply re_pow_nil.
  - destruct m as [|m]; [lia|]. constructor; [done | apply IH; lia].
Qed.

(** A non-empty word of [L]^n begins with a non-empty factor, after empty ones. *)
Lemma re_pow_cons L n c w :
  re_pow L n (c :: w) →
  ∃ m x y, S m ≤ n ∧ (m = pred n ∨ L []) ∧ w = x ++ y ∧ L (c :: x) ∧ re_pow L m y.
Proof.
  remember (c :: w) as cw eqn:E. intros Hp. revert E.
  induction Hp as [|n x y Hx Hy IH]; [done|]. destruct x as [|a x]; simpl; intros E.
  - destruct (IH E) as (m & x' & y' & Hm & _ & ? & ? & ?).
    exists m, x', y'. eauto 10 with lia.
  - injection E as -> <-. exists n, x, y. auto.
Qed.

Lemma nullable_correct r : nullable r = true ↔ re_lang r [].
Proof.
  induction r as [| |p|r IHr s IHs|r IHr s IHs|r IHr|lo hi r IHr]; simpl.
  - done.
  - done.
  - split; [done | by intros (? & ? & _)].
  - rewrite andb_true_iff, IHr, IHs. split; [intros []; by exists [], []|].
    intros (x & y & E & ? & ?). symmetry in E. by apply app_nil in E as [-> ->].
  - by rewrite orb_true_iff, IHr, IHs.
  - split; [intros _; exists 0; constructor | done].
  - rewrite andb_true_iff, orb_true_iff, Nat.leb_le, Nat.eqb_eq, IHr. split.
    + intros [Hle [->|Hr]]; [exists 0; split; [lia | constructor]|].
      exists lo. split; [lia | by apply re_pow_nil].
    + intros (n & Hn & Hp). split; [lia|].
      destruct (decide (lo = 0)) as [|Hlo]; [by left|]. right.
      inversion Hp as [|m x y Hx _ Hm E]; subst; [lia|]. by apply app_nil in E as [-> ->].
Qed.

Lemma deriv_correct c r w : re_lang (deriv c r) w ↔ re_lang r (c :: w).
Proof.
  revert w. induction r as [| |p|r IHr s IHs|r IHr s IHs|r IHr|lo hi r IHr]; intros w; simpl.
  - done.
  - done.
  - destruct (p c) eqn:E; simpl.
    + split; [intros ->; eauto | by intros (? & [= <- ->] & _)].
    + split; [done | intros (? & [= <- ->] & ?); congruence].
  - assert (re_lang (mk_seq (deriv c r) s) w ↔
            ∃ x y, w = x ++ y ∧ re_lang r (c :: x) ∧ re_lang s y) as Hseq.
    { rewrite mk_seq_lang. simpl. by setoid_rewrite IHr. }
    destruct (nullable r) eqn:E.
    + rewrite mk_alt_lang. simpl. rewrite Hseq, IHs. apply nullable_correct in E. split.
      * intros [(x & y & -> & ? & ?)|?]; [by exists (c :: x), y | by exists [], (c :: w)].
      * intros (x & y & Exy & ? & ?). destruct x as [|a x]; simplify_eq/=; [by right | left; eauto].
    + rewrite Hseq. split; [intros (x & y & -> & ? & ?); by exists (c :: x), y|].
      intros (x & y & Exy & Hx & ?). destruct x as [|a x]; simplify_eq/=; [|eauto].
      apply nullable_correct in Hx. congruence.
  - rewrite mk_alt_lang. simpl. by rewrite IHr, IHs.
  - rewrite mk_seq_lang. simpl. setoid_rewrite IHr. split.
    + intros (x & y & -> & Hx & n & Hn). exists (S n). by apply (pow_S _ n (c :: x) y).
    + intros (n & Hn). apply re_pow_cons in Hn as (m & x & y & _ & _ & -> & ? & ?). eauto 10.
  - destruct hi as [|hi]; simpl.
    { split; [done|]. intros (n & Hn & Hp). replace n with 0 in Hp by lia. inversion Hp. }
    destruct (lo <=? S hi) eqn:Hle; simpl.
    2:{ apply Nat.leb_gt in Hle. split; [done | intros (n & ? & _); lia]. }
    apply Nat.leb_le in Hle. rewrite mk_seq_lang. simpl. setoid_rewrite IHr. split.
    + intros (x & y & -> & Hx & n & Hn & Hp). exists (S n).
      split; [lia | by apply (pow_S _ n (c :: x) y)].
    + intros (n & Hn & Hp).
      apply re_pow_cons in Hp as (m & x & y & Hm & Hor & -> & Hx & Hp).
      exists x, y. split_and!; [done..|]. exists (pred n). split; [lia|].
      destruct Hor as [<-|HL]; [done|]. eapply re_pow_pad; [done| |done]. lia.
Qed.

Lemma re_match_correct r w : re_match r w = true ↔ re_lang r w.
Proof.
  revert r. induction w as [|c w IH]; intros r; simpl; [apply nullable_correct|].
  by rewrite IH, deriv_correct.
Qed.

Lemma fullmatch_correct r s : fullmatch r s = true ↔ re_lang r (chars s).
Proof. apply re_match_correct. Qed.

(** What a full match of a sequence, a class or a bounded repetition gives. *)
Lemma re_pow_chr p n w : re_pow (re_lang (Chr p)) n w ↔ length w = n ∧ ∀ c, c ∈ w → p c = true.
Proof.
  split.
  - induction 1 as [|n x y (c & -> & Hc) _ [<- IH]]; simpl; [set_solver|]. set_solver.
  - revert w. induction n as [|n IH]; intros w [Hl Hw].
    + destruct w; [constructor | done].
    + destruct w as [|c w]; [done|]. apply (pow_S _ n [c] w).
      * exists c. split; [done | apply Hw; by left].
      * apply IH. split; [naive_solver | intros; apply Hw; by right].
Qed.

Lemma lang_chr_rep p lo hi w :
  re_lang (Rep lo hi (Chr p)) w ↔ lo ≤ length w ≤ hi ∧ ∀ c, c ∈ w → p c = true.
Proof.
  simpl. setoid_rewrite re_pow_chr. split.
  - intros (n & ? & <- & ?). auto.
  - intros [? ?]. eauto.
Qed.

(** ** What every matched text satisfies *)

Definition all_chars : list ascii := ascii_of_nat <$> seq 0 256.

Lemma elem_of_all_chars c : c ∈ all_chars.
Proof.
  apply list_elem_of_fmap. exists (nat_of_ascii c). split; [by rewrite ascii_nat_embedding|].
  pose proof (nat_ascii_bounded c). apply elem_of_seq. lia.
Qed.

(** Every character a match can contain satisfies [q]. *)
Fixpoint re_all (q : ascii → bool) (r : re) : bool :=
  match r with
  | Void | Eps => true
  | Chr p => forallb (λ c, implb (p c) (q c)) all_chars
  | Seq r s | Alt r s => re_all q r && re_all q s
  | Star r | Rep _ _ r => re_all q r
  end.

(** A bound on the length of a match. *)
Fixpoint re_max_len (r : re) : option nat :=
  match r with
  | Void | Eps => Some 0
  | Chr _ => Some 1
  | Seq r s => match re_max_len r, re_max_len s with Some m, Some n => Some (m + n) | _, _ => None end
  | Alt r s => match re_max_len r, re_max_len s with Some m, Some n => Some (Nat.max m n) | _, _ => None end
  | Star _ => None
  | Rep _ hi r => match re_max_len r with Some m => Some (hi * m) | None => None end
  end.

Lemma re_pow_all (L : list ascii → Prop) (P : ascii → Prop) n w :
  (∀ x, L x → ∀ c, c ∈ x → P c) → re_pow L n w → ∀ c, c ∈ w → P c.
Proof.
  intros HL. induction 1 as [|n x y Hx _ IH]; intros c Hc; [by apply not_elem_of_nil in Hc|].
  apply elem_of_app in Hc as [Hc|Hc]; [by eapply HL|by apply IH].
Qed.

Lemma re_all_lang q r w : re_all q r = true → re_lang r w → ∀ c, c ∈ w → q c = true.
Proof.
  revert w. induction r as [| |p|r1 IH1 r2 IH2|r1 IH1 r2 IH2|r IH|lo hi r IH]; intros w Hq Hw; cbn [re_all re_lang] in Hq, Hw.
  - done.
  - subst w. by intros c ?%not_elem_of_nil.
  - destruct Hw as (c0 & -> & Hp). intros c ->%list_elem_of_singleton.
    assert (implb (p c0) (q c0) = true) as Hc.
    { by apply (proj1 (forallb_forall _ _) Hq c0), list_elem_of_In, elem_of_all_chars. }
    by rewrite Hp in Hc.
  - apply andb_true_iff in Hq as [H1 H2]. destruct Hw as (x & y & -> & Hx & Hy). intros c [Hc|Hc]%elem_of_app; eauto.
  - apply andb_true_iff in Hq as [H1 H2]. destruct Hw; eauto.
  - destruct Hw as [n Hw]. eapply re_pow_all; eauto.
  - destruct Hw as (n & _ & Hw). eapply re_pow_all; eauto.
Qed.

Lemma re_max_len_lang r w m : re_max_len r = Some m → re_lang r w → length w ≤ m.
Proof.
  revert w m. induction r as [| |p|r1 IH1 r2 IH2|r1 IH1 r2 IH2|r IH|lo hi r IH]; intros w m Hm Hw; cbn [re_max_len re_lang] in Hm, Hw.
  - done.
  - subst w. simpl. lia.
  - destruct Hw as (c0 & -> & _). by injection Hm as <-.
  - destruct (re_max_len r1) as [m1|]; [|done]. destruct (re_max_len r2) as [m2|]; [|done]. injection Hm as <-.
    destruct Hw as (x & y & -> & Hx & Hy). rewrite length_app.
    specialize (IH1 x m1 eq_refl Hx). specialize (IH2 y m2 eq_refl Hy). lia.
  - destruct (re_max_len r1) as [m1|]; [|done]. destruct (re_max_len r2) as [m2|]; [|done]. injection Hm as <-.
    destruct Hw as [Hx|Hy]; [specialize (IH1 w m1 eq_refl Hx)|specialize (IH2 w m2 eq_refl Hy)]; lia.
  - done.
  - destruct (re_max_len r) as [k|]; [|done]. injection Hm as <-. destruct Hw as (n & [_ Hn] & Hw).
    assert (length w ≤ n * k) as Hl.
    { clear -IH Hw. induction Hw as [|n x y Hx _ IHp]; [done|]. rewrite length_app. specialize (IH x k eq_refl Hx). simpl. lia. }
    nia.
Qed.

Lemma fullmatch_all q r s : re_all q r = true → fullmatch r s = true → ∀ c, c ∈ chars s → q c = true.
Proof. intros Hq Hs%fullmatch_correct. by eapply re_all_lang. Qed.

Lemma fullmatch_max_len r s m : re_max_len r = Some m → fullmatch r s = true → length (chars s) ≤ m.
Proof. intros Hm Hs%fullmatch_correct. by eapply re_max_len_lang. Qed.
