(* ===== verification/JsonGraph.v ===== *)
(** * JSON object graphs

    Five modules of the kernel take an object graph from elsewhere, walk it with
    an explicit stack against limits and a cycle check, and keep the copy that
    [json.loads(json.dumps(...))] makes of it: job payloads (jobs.py), audit
    metadata (audit.py), event payloads (extension_runtime.py), log fields
    (observability.py) and admin commands (package_admin_commands.py).  The
    walk is written once here, over the limits and messages of a module
    ([rules]), with its equivalence to a declarative reading and the stability
    of the copies.

    [pyobj] is the object graph, every container carrying its identity
    ([id(value)]); a cyclic graph is represented by a finite unfolding that
    repeats the identity of the cycle's entry, which is all the walk reads of
    it.  [json] is what [json.loads(json.dumps(...))] returns: canonical trees,
    object members sorted by key.  A string is its UTF-8 encoding; [PSurrogate]
    and [KSurrogate] are the strings that have none. *)

From Stdlib Require Import Ascii ZArith Lia Sorting.Sorted Permutation.
From stdpp Require Import base decidable numbers list strings sets pretty.
From S2P Require Import Prelude PyData Regex.

Module JsonGraph.

(** ** Data *)

(** A finite float: its [repr] and its exact value [f_mant * 2 ^ f_exp]. *)
Record pyfloat : Type := Float { f_repr : string; f_mant : Z; f_exp : Z }.

Inductive pkey : Type :=
  | KStr (s : string)
  | KSurrogate
  | KOther.

Inductive pyobj : Type :=
  | PNone
  | PBool (b : bool)
  | PInt (z : Z)
  | PFloat (f : pyfloat)
  | PNonFinite
  | PStr (s : string)
  | PSurrogate
  | POther
  | PSeq (oid : nat) (l : list pyobj)
  | PMap (oid : nat) (is_dict : bool) (items : list (pkey * pyobj)).

Inductive json : Type :=
  | JNull
  | JBool (b : bool)
  | JInt (z : Z)
  | JFloat (f : pyfloat)
  | JStr (s : string)
  | JArr (l : list json)
  | JObj (m : list (string * json)).

Section pyobj_ind.
Context (P : pyobj → Prop)
  (Hleaf : ∀ v, match v with PSeq _ _ | PMap _ _ _ => False | _ => True end → P v)
  (Hseq : ∀ o l, Forall P l → P (PSeq o l))
  (Hmap : ∀ o b m, Forall (λ kv, P kv.2) m → P (PMap o b m)).

Fixpoint pyobj_ind' (v : pyobj) : P v.
Proof.
  destruct v as [|b|z|f| |s| | |o l|o b m]; try (apply Hleaf; exact I).
  - apply Hseq. induction l; constructor; auto.
  - apply Hmap. induction m as [|[k v] m IH]; constructor; [apply pyobj_ind' | exact IH].
Defined.
End pyobj_ind.

Section json_ind.
Context (P : json → Prop)
  (Hleaf : ∀ j, match j with JArr _ | JObj _ => False | _ => True end → P j)
  (Harr : ∀ l, Forall P l → P (JArr l))
  (Hobj : ∀ m, Forall (λ kv, P kv.2) m → P (JObj m)).

Fixpoint json_ind' (j : json) : P j.
Proof.
  destruct j as [|b|z|f|s|l|m]; try (apply Hleaf; exact I).
  - apply Harr. induction l; constructor; auto.
  - apply Hobj. induction m as [|[k j] m IH]; constructor; [apply json_ind' | exact IH].
Defined.
End json_ind.

(** Python's [==] on the values [json.loads] returns: numbers compare by value
    across [bool], [int] and [float]; canonical objects member by member. *)
Definition json_num (j : json) : option (Z * Z) :=
  match j with
  | JBool b => Some (Z.b2z b, 0%Z)
  | JInt z => Some (z, 0%Z)
  | JFloat f => Some (f_mant f, f_exp f)
  | _ => None
  end.

Definition dyadic_eqb (p q : Z * Z) : bool :=
  let e := Z.min p.2 q.2 in (p.1 * 2 ^ (p.2 - e) =? q.1 * 2 ^ (q.2 - e))%Z.

Fixpoint json_eqb (i j : json) {struct i} : bool :=
  match i, j with
  | JNull, JNull => true
  | JStr s, JStr t => String.eqb s t
  | JArr l, JArr m =>
      (fix arr_eqb (l m : list json) : bool :=
         match l, m with
         | [], [] => true
         | x :: l, y :: m => json_eqb x y && arr_eqb l m
         | _, _ => false
         end) l m
  | JObj l, JObj m =>
      (fix obj_eqb (l m : list (string * json)) : bool :=
         match l, m with
         | [], [] => true
         | (k, x) :: l, (k', y) :: m => String.eqb k k' && json_eqb x y && obj_eqb l m
         | _, _ => false
         end) l m
  | _, _ =>
      match json_num i, json_num j with
      | Some p, Some q => dyadic_eqb p q
      | _, _ => false
      end
  end.

(** ** Sensitive keys *)

(** [re.sub(r"(?<=[a-z0-9])(?=[A-Z])", "_", key)]. *)
Fixpoint camel_boundaries (l : list ascii) : list ascii :=
  match l with
  | a :: (b :: _) as l' =>
      if (is_lower a || is_digit a) && is_upper b
      then a :: "_"%char :: camel_boundaries l'
      else a :: camel_boundaries l'
  | _ => l
  end.

(** [[part for part in re.split(r"[^A-Za-z0-9]+", s) if part]]. *)
Fixpoint alnum_parts (cur : list ascii) (l : list ascii) : list string :=
  match l with
  | [] => match cur with [] => [] | _ => [of_chars (reverse cur)] end
  | c :: l =>
      if is_alnum c then alnum_parts (c :: cur) l
      else match cur with
           | [] => alnum_parts [] l
           | _ => of_chars (reverse cur) :: alnum_parts [] l
           end
  end.

(** [bool(parts & names) or compact in compact_names]. *)
Definition sensitive_key (names compact_names : list string) (key : string) : bool :=
  let with_camel_boundaries := of_chars (camel_boundaries (chars key)) in
  let ordered_parts := alnum_parts [] (chars (casefold with_camel_boundaries)) in
  let compact := str_join "" ordered_parts in
  existsb (λ p, bool_decide (p ∈ names)) ordered_parts
  || bool_decide (compact ∈ compact_names).

(** ** The limits of a module *)

Inductive refusal : Type :=
  | TooManyItems | TooDeep | Cyclic | KeyNotStr | KeyNotUtf8 | KeyInvalid | TooManyKeys | KeySensitive.

Record rules : Type := Rules {
  ru_items : Z;
  ru_depth : Z;
  ru_keys : Z;
  ru_key_bytes : nat;
  ru_bad_char : ascii → bool;
  ru_sensitive : string → bool;
  ru_class : exn_class;
  ru_message : refusal → string;
}.

Definition is_control (c : ascii) : bool := (code c <? 32)%N || (code c =? 127)%N.

(** ** [json.dumps] and the copy [json.loads] makes of it *)

Definition hex_digit (n : N) : ascii :=
  if (n <? 10)%N then ascii_of_N (48 + n) else ascii_of_N (87 + n).

(** The escapes of [ensure_ascii=False]. *)
Definition escape_char (c : ascii) : string :=
  let n := code c in
  if (n =? 34)%N then of_chars ["092"%char; "034"%char]
  else if (n =? 92)%N then of_chars ["092"%char; "092"%char]
  else if (n =? 8)%N then of_chars ["092"%char; "b"%char]
  else if (n =? 9)%N then of_chars ["092"%char; "t"%char]
  else if (n =? 10)%N then of_chars ["092"%char; "n"%char]
  else if (n =? 12)%N then of_chars ["092"%char; "f"%char]
  else if (n =? 13)%N then of_chars ["092"%char; "r"%char]
  else if (n <? 32)%N then
    of_chars ["092"%char; "u"%char; "0"%char; "0"%char; hex_digit (n / 16); hex_digit (n mod 16)]
  else String c EmptyString.

Definition quote : string := of_chars ["034"%char].
Definition dump_str (s : string) : string :=
  quote +:+ str_join "" (escape_char <$> chars s) +:+ quote.

Fixpoint json_dumps (j : json) : string :=
  match j with
  | JNull => "null"
  | JBool b => if b then "true" else "false"
  | JInt z => pretty z
  | JFloat f => f_repr f
  | JStr s => dump_str s
  | JArr l => "[" +:+ str_join "," (json_dumps <$> l) +:+ "]"
  | JObj m => "{" +:+ str_join "," ((λ kv, dump_str kv.1 +:+ ":" +:+ json_dumps kv.2) <$> m) +:+ "}"
  end.

(** [sys.int_info.default_max_str_digits]: longer decimal conversions raise. *)
Definition MAX_STR_DIGITS : Z := 4300.

Section map_items.
Context {A B : Type} (f : A → option B).
(** Members, keys first; only string keys can be written. *)
Fixpoint map_items (m : list (pkey * A)) : option (list (string * B)) :=
  match m with
  | [] => Some []
  | (KStr k, v) :: m => j ← f v; ms ← map_items m; Some ((k, j) :: ms)
  | _ :: _ => None
  end.
End map_items.

(** The value [json.loads(json.dumps(payload, sort_keys=True, ...))] returns:
    tuples become lists and members are sorted.  Whatever [json.dumps],
    [encode] or [json.loads] refuses, [None] here, the callers re-raise as one
    error. *)
Fixpoint to_json (v : pyobj) : option json :=
  match v with
  | PNone => Some JNull
  | PBool b => Some (JBool b)
  | PInt z => if (Z.abs z <? 10 ^ MAX_STR_DIGITS)%Z then Some (JInt z) else None
  | PFloat f => Some (JFloat f)
  | PStr s => Some (JStr s)
  | PNonFinite | PSurrogate | POther => None
  | PSeq _ l => js ← mapM to_json l; Some (JArr js)
  | PMap _ true m => js ← map_items to_json m; Some (JObj (dict_sort js))
  | PMap _ false _ => None
  end.

(** ** Reading a copy back

    [json.load] builds a fresh object for every container: [of_json n j] is the
    object graph of [j] with identities from [n] on, in pre-order. *)

Section of_json_list.
Context {A B : Type} (f : nat → A → nat * B).
Fixpoint label_list (n : nat) (l : list A) : nat * list B :=
  match l with
  | [] => (n, [])
  | x :: l => let '(n1, y) := f n x in let '(n2, ys) := label_list n1 l in (n2, y :: ys)
  end.
Fixpoint label_items {K} (n : nat) (l : list (string * A)) (mk : string → K) : nat * list (K * B) :=
  match l with
  | [] => (n, [])
  | (k, x) :: l =>
      let '(n1, y) := f n x in let '(n2, ys) := label_items n1 l mk in (n2, (mk k, y) :: ys)
  end.
End of_json_list.

Fixpoint of_json (n : nat) (j : json) : nat * pyobj :=
  match j with
  | JNull => (n, PNone)
  | JBool b => (n, PBool b)
  | JInt z => (n, PInt z)
  | JFloat f => (n, PFloat f)
  | JStr s => (n, PStr s)
  | JArr l => let '(n', l') := label_list of_json (S n) l in (n', PSeq n l')
  | JObj m => let '(n', m') := label_items of_json (S n) m KStr in (n', PMap n true m')
  end.

(** ** Reference specification of the validator

    Recursive measures of an object graph: its items, its height, its keys,
    the identities of its containers and the admissibility of its keys. *)

Definition children (v : pyobj) : list pyobj :=
  match v with PSeq _ l => l | PMap _ _ m => m.*2 | _ => [] end.
Definition own_keys (v : pyobj) : list pkey :=
  match v with PMap _ _ m => m.*1 | _ => [] end.
Definition own_oid (v : pyobj) : list nat :=
  match v with PSeq o _ | PMap o _ _ => [o] | _ => [] end.

Fixpoint nodes (v : pyobj) : Z :=
  match v with
  | PSeq _ l => 1 + zsum (nodes <$> l)
  | PMap _ _ m => 1 + zsum ((λ kv, nodes kv.2) <$> m)
  | _ => 1
  end%Z.
Fixpoint height (v : pyobj) : Z :=
  match v with
  | PSeq _ l => 1 + zmax (height <$> l)
  | PMap _ _ m => 1 + zmax ((λ kv, height kv.2) <$> m)
  | _ => 1
  end%Z.
Fixpoint all_keys (v : pyobj) : list pkey :=
  match v with
  | PSeq _ l => concat (all_keys <$> l)
  | PMap _ _ m => m.*1 ++ concat ((λ kv, all_keys kv.2) <$> m)
  | _ => []
  end.
Fixpoint oids (v : pyobj) : list nat :=
  match v with
  | PSeq o l => o :: concat (oids <$> l)
  | PMap o _ m => o :: concat ((λ kv, oids kv.2) <$> m)
  | _ => []
  end.

(** ** The walk *)

Section walk.
Context (rl : rules).

Definition refuse {A} (why : refusal) : result A := fail (ru_class rl) (ru_message rl why).
Definition refuse_if (b : bool) (why : refusal) : result unit := fail_if b (ru_class rl) (ru_message rl why).

(** The key checks before the counter, in the code's order. *)
Definition check_key (k : pkey) : result string :=
  match k with
  | KOther => refuse KeyNotStr
  | KSurrogate => refuse KeyNotUtf8
  | KStr key =>
      if negb ((1 <=? utf8_len key)%nat && (utf8_len key <=? (ru_key_bytes rl))%nat)
         || any_char (ru_bad_char rl) key
      then refuse KeyInvalid
      else Ok key
  end.

(** The loop over [value.items()]: the new stack (top first) and key count. *)
Fixpoint push_items (depth : Z) (items : list (pkey * pyobj))
    (st : list (pyobj * Z) * Z) : result (list (pyobj * Z) * Z) :=
  match items with
  | [] => Ok st
  | (k, nested) :: items =>
      key ← check_key k;
      let key_count := (st.2 + 1)%Z in
      _ ← refuse_if ((ru_keys rl) <? key_count)%Z TooManyKeys;
      _ ← refuse_if (ru_sensitive rl key) KeySensitive;
      push_items depth items ((nested, (depth + 1)%Z) :: st.1, key_count)
  end.

(** [stack.extend((nested, depth + 1) for nested in value)]. *)
Definition push_seq (depth : Z) (l : list pyobj) (stack : list (pyobj * Z)) : list (pyobj * Z) :=
  rev_append ((λ v, (v, (depth + 1)%Z)) <$> l) stack.

Record vstate : Type := VState {
  v_stack : list (pyobj * Z);
  v_seen : list nat;
  v_keys : Z;
  v_items : Z;
}.

(** The identity check on a container, [seen_containers.add] included. *)
Definition visit (oid : nat) (seen : list nat) : result (list nat) :=
  if bool_decide (oid ∈ seen) then refuse Cyclic
  else Ok (oid :: seen).

(** One iteration of [while stack], on a popped [(value, depth)]. *)
Definition validate_step (value : pyobj) (depth : Z) (st : vstate) : result vstate :=
  let item_count := (v_items st + 1)%Z in
  _ ← refuse_if ((ru_items rl) <? item_count)%Z TooManyItems;
  _ ← refuse_if ((ru_depth rl) <? depth)%Z TooDeep;
  match value with
  | PMap oid _ items =>
      seen ← visit oid (v_seen st);
      sk ← push_items depth items (v_stack st, v_keys st);
      Ok (VState sk.1 seen sk.2 item_count)
  | PSeq oid l =>
      seen ← visit oid (v_seen st);
      Ok (VState (push_seq depth l (v_stack st)) seen (v_keys st) item_count)
  | _ => Ok (VState (v_stack st) (v_seen st) (v_keys st) item_count)
  end.

(** The loop with fuel; [None] is fuel exhaustion. *)
Fixpoint validate_loop (fuel : nat) (st : vstate) : option (result unit) :=
  match v_stack st with
  | [] => Some (Ok tt)
  | (value, depth) :: rest =>
      match fuel with
      | O => None
      | S fuel =>
          match validate_step value depth (VState rest (v_seen st) (v_keys st) (v_items st)) with
          | Err e => Some (Err e)
          | Ok st' => validate_loop fuel st'
          end
      end
  end.

(** Every iteration counts an item and the count stops at the item limit. *)
Definition validate_fuel : nat := S (Z.to_nat (ru_items rl)).

Definition validate_structure (payload : pyobj) : result unit :=
  match validate_loop validate_fuel (VState [(payload, 1%Z)] [] 0 0) with
  | Some r => r
  | None => fail RuntimeErr "unreachable: out of fuel"
  end.

(** A key the validator lets through. *)
Definition key_ok (k : pkey) : Prop :=
  ∃ s, k = KStr s ∧ 1 ≤ utf8_len s ≤ (ru_key_bytes rl) ∧
    (∀ c, c ∈ chars s → (ru_bad_char rl) c = false) ∧ ru_sensitive rl s = false.

(** What [_validate_structure] means to accept. *)
Definition structure_ok (v : pyobj) : Prop :=
  (nodes v ≤ (ru_items rl))%Z ∧ (height v ≤ (ru_depth rl))%Z ∧
  (Z.of_nat (length (all_keys v)) ≤ (ru_keys rl))%Z ∧
  NoDup (oids v) ∧ Forall key_ok (all_keys v).

Lemma nodes_unfold v : nodes v = (1 + zsum (nodes <$> children v))%Z.
Proof. destruct v; simpl; try done. by rewrite <-list_fmap_compose. Qed.
Lemma height_unfold v : height v = (1 + zmax (height <$> children v))%Z.
Proof. destruct v; simpl; try done. by rewrite <-list_fmap_compose. Qed.
Lemma all_keys_unfold v : all_keys v = own_keys v ++ concat (all_keys <$> children v).
Proof. destruct v; simpl; try done. by rewrite <-list_fmap_compose. Qed.
Lemma oids_unfold v : oids v = own_oid v ++ concat (oids <$> children v).
Proof. destruct v; simpl; try done. by rewrite <-list_fmap_compose. Qed.

Lemma nodes_pos v : (1 ≤ nodes v)%Z.
Proof.
  induction v as [v Hv|o l IH|o b m IH] using pyobj_ind'.
  - by destruct v.
  - simpl. assert (0 ≤ zsum (nodes <$> l))%Z; [|lia].
    apply zsum_nonneg. rewrite Forall_fmap. eapply Forall_impl; [exact IH | simpl; lia].
  - simpl. assert (0 ≤ zsum ((λ kv, nodes kv.2) <$> m))%Z; [|lia].
    apply zsum_nonneg. rewrite Forall_fmap. eapply Forall_impl; [exact IH | simpl; lia].
Qed.

Lemma height_pos v : (1 ≤ height v)%Z.
Proof.
  rewrite height_unfold. assert (0 ≤ zmax (height <$> children v))%Z; [|lia].
  induction (height <$> children v); rewrite ?zmax_cons; [done | lia].
Qed.

(** The counters start within their limits. *)
Hypothesis limits_ok : (0 ≤ ru_items rl)%Z ∧ (0 ≤ ru_keys rl)%Z.

(** *** The loop *)

Definition frames (depth : Z) (l : list pyobj) : list (pyobj * Z) :=
  (λ v, (v, (depth + 1)%Z)) <$> l.

Lemma check_key_ok k s :
  check_key k = Ok s ↔
  k = KStr s ∧ 1 ≤ utf8_len s ≤ (ru_key_bytes rl) ∧ (∀ c, c ∈ chars s → (ru_bad_char rl) c = false).
Proof.
  destruct k as [t| |]; cbn [check_key]; try (split; [done | by intros [[=] _]]).
  rewrite <-any_char_false.
  destruct (negb _ || any_char (ru_bad_char rl) t) eqn:E.
  - split; [done|]. intros ([= <-] & Hl & Hc). rewrite Hc, orb_false_r, negb_true_iff in E.
    apply andb_false_iff in E as [E|E]; apply Nat.leb_gt in E; lia.
  - apply orb_false_iff in E as [E1 E2]. apply negb_false_iff, andb_true_iff in E1 as [E0 E1].
    apply Nat.leb_le in E0, E1.
    split; [by intros [= <-] | by intros ([= <-] & _)].
Qed.

Lemma push_items_ok depth items stack kc st :
  (kc ≤ (ru_keys rl))%Z →
  push_items depth items (stack, kc) = Ok st ↔
  Forall key_ok items.*1 ∧ (kc + Z.of_nat (length items) ≤ (ru_keys rl))%Z ∧
  st = (reverse (frames depth items.*2) ++ stack, kc + Z.of_nat (length items))%Z.
Proof.
  revert stack kc. induction items as [|[k v] items IH]; intros stack kc Hkc.
  - simpl. rewrite Z.add_0_r. split.
    + intros [= <-]. by split_and!; [constructor|..].
    + by intros (_ & _ & ->).
  - cbn [push_items]. rewrite bind_result_ok. setoid_rewrite check_key_ok. setoid_rewrite bind_result_ok.
    setoid_rewrite bind_result_ok. setoid_rewrite fail_if_ok. setoid_rewrite Z.ltb_ge.
    simpl. rewrite Forall_cons. split.
    + intros (s & (-> & Hs & Hc) & _ & Hk & _ & Hsens & Hrest).
      apply IH in Hrest as (Hall & Hle & ->); [|done].
      split_and!; [by exists s|done|lia|].
      unfold frames. simpl. rewrite reverse_cons, <-app_assoc. simpl. f_equal. lia.
    + intros ([(s & -> & Hs & Hc & Hsens) Hall] & Hle & ->).
      exists s. split; [done|]. exists tt. split; [lia|]. exists tt. split; [done|].
      apply IH; [lia|]. split_and!; [done|lia|].
      unfold frames. simpl. rewrite reverse_cons, <-app_assoc. simpl. f_equal. lia.
Qed.

Definition stack_oids (stack : list (pyobj * Z)) : list nat := concat ((λ p, oids p.1) <$> stack).
Definition stack_keys (stack : list (pyobj * Z)) : list pkey := concat ((λ p, all_keys p.1) <$> stack).

(** The loop invariant as a condition on the rest of the run. *)
Definition stack_ok (stack : list (pyobj * Z)) (seen : list nat) (keys items : Z) : Prop :=
  (items + zsum ((λ p, nodes p.1) <$> stack) ≤ (ru_items rl))%Z ∧
  (keys + Z.of_nat (length (stack_keys stack)) ≤ (ru_keys rl))%Z ∧
  Forall (λ p, p.2 + height p.1 ≤ (ru_depth rl) + 1)%Z stack ∧
  Forall key_ok (stack_keys stack) ∧ NoDup (stack_oids stack ++ seen).

Lemma stack_oids_cons v d S : stack_oids ((v, d) :: S) = oids v ++ stack_oids S.
Proof. done. Qed.
Lemma stack_keys_cons v d S : stack_keys ((v, d) :: S) = all_keys v ++ stack_keys S.
Proof. done. Qed.

Lemma NoDup_visit (own C R seen : list nat) :
  length own ≤ 1 →
  NoDup (((own ++ C) ++ R) ++ seen) ↔
  (∀ o, o ∈ own → o ∉ seen) ∧ NoDup ((C ++ R) ++ own ++ seen).
Proof.
  destruct own as [|o [|? ?]]; simpl; intros Hl; [set_solver| |lia].
  rewrite <-(Permutation_middle (C ++ R) seen o), !NoDup_cons. set_solver.
Qed.

(** Expanding the popped value into its children keeps the condition, when the
    value's own identity and keys pass. *)
Lemma stack_ok_expand v d rest seen keys items :
  stack_ok ((v, d) :: rest) seen keys items ↔
  (d ≤ (ru_depth rl))%Z ∧ (∀ o, o ∈ own_oid v → o ∉ seen) ∧
  Forall key_ok (own_keys v) ∧
  stack_ok (reverse (frames d (children v)) ++ rest) (own_oid v ++ seen)
    (keys + Z.of_nat (length (own_keys v))) (items + 1).
Proof.
  unfold stack_ok. rewrite stack_keys_cons, stack_oids_cons, Forall_cons.
  assert (Hp : reverse (frames d (children v)) ++ rest ≡ₚ frames d (children v) ++ rest)
    by (by rewrite reverse_Permutation).
  assert (Hk : stack_keys (reverse (frames d (children v)) ++ rest) ≡ₚ
               concat (all_keys <$> children v) ++ stack_keys rest).
  { unfold stack_keys. rewrite Hp, fmap_app, concat_app. unfold frames.
    by rewrite <-list_fmap_compose. }
  assert (Ho : stack_oids (reverse (frames d (children v)) ++ rest) ≡ₚ
               concat (oids <$> children v) ++ stack_oids rest).
  { unfold stack_oids. rewrite Hp, fmap_app, concat_app. unfold frames.
    by rewrite <-list_fmap_compose. }
  rewrite Hk, Ho, Hp. clear Hk Ho Hp. rewrite !Forall_app, fmap_app, zsum_app.
  unfold frames. rewrite <-list_fmap_compose, Forall_fmap.
  rewrite fmap_cons, zsum_cons. cbn [fst snd].
  rewrite (nodes_unfold v), (height_unfold v), (all_keys_unfold v), (oids_unfold v).
  rewrite !length_app, !Forall_app, !Nat2Z.inj_add. simpl.
  assert (Hh : (d + (1 + zmax (height <$> children v)) ≤ (ru_depth rl) + 1)%Z ↔
    (d ≤ (ru_depth rl))%Z ∧
    Forall (λ w, d + 1 + height w ≤ (ru_depth rl) + 1)%Z (children v)).
  { assert (Hz : (0 ≤ zmax (height <$> children v))%Z) by (induction (height <$> _); rewrite ?zmax_cons; [done | lia]).
    destruct (decide (d ≤ (ru_depth rl))%Z) as [Hd|Hd]; [|split; [lia | by intros []]].
    transitivity (zmax (height <$> children v) ≤ (ru_depth rl) - d)%Z; [lia|].
    rewrite zmax_le by lia. rewrite Forall_fmap, !Forall_forall.
    split; [intros H; split; [done|] | intros [_ H]]; intros w Hw; specialize (H w Hw); simpl in *; lia. }
  rewrite Hh. clear Hh.
  assert (Ho : NoDup (((own_oid v ++ concat (oids <$> children v)) ++ stack_oids rest) ++ seen) ↔
    (∀ o, o ∈ own_oid v → o ∉ seen) ∧
    NoDup ((concat (oids <$> children v) ++ stack_oids rest) ++ own_oid v ++ seen)).
  { apply NoDup_visit. by destruct v; simpl; lia. }
  rewrite Ho. unfold compose. simpl.
  change (λ x : pyobj, nodes x) with nodes. rewrite !Z.add_assoc. tauto.
Qed.

Lemma push_seq_frames d l stack : push_seq d l stack = reverse (frames d l) ++ stack.
Proof. unfold push_seq, reverse, frames. by rewrite !rev_append_rev, app_nil_r. Qed.

(** One iteration expands the popped value. *)
Lemma validate_step_ok v d rest seen keys items st :
  (items < (ru_items rl))%Z → (keys ≤ (ru_keys rl))%Z →
  validate_step v d (VState rest seen keys items) = Ok st ↔
  (d ≤ (ru_depth rl))%Z ∧ (∀ o, o ∈ own_oid v → o ∉ seen) ∧
  Forall key_ok (own_keys v) ∧
  (keys + Z.of_nat (length (own_keys v)) ≤ (ru_keys rl))%Z ∧
  st = VState (reverse (frames d (children v)) ++ rest) (own_oid v ++ seen)
         (keys + Z.of_nat (length (own_keys v))) (items + 1).
Proof.
  intros Hi Hk. unfold validate_step. cbn [v_items v_seen v_stack v_keys].
  rewrite !bind_result_ok. setoid_rewrite bind_result_ok. setoid_rewrite fail_if_ok.
  setoid_rewrite Z.ltb_ge.
  assert (Hleaf : ∀ R : Prop, (∃ a : unit, items + 1 ≤ (ru_items rl) ∧
      ∃ a0 : unit, d ≤ (ru_depth rl) ∧ R)%Z ↔ (d ≤ (ru_depth rl))%Z ∧ R).
  { intros R. split; [by intros (_ & _ & _ & ?)|]. intros ?. do 2 (exists tt; split; [lia|]); tauto. }
  rewrite Hleaf. clear Hleaf.
  assert (Hvisit : ∀ o seen', visit o seen = Ok seen' ↔ (o ∉ seen) ∧ seen' = o :: seen).
  { intros o seen'. unfold visit. case_bool_decide; [by split; [|intros []]|].
    split; [by intros [= <-] | by intros [_ ->]]. }
  destruct v as [|b|z|f| |s| | |o l|o b m]; simpl;
    try (rewrite Z.add_0_r; split; [intros [? [= <-]]; split_and!; try done; set_solver
                                   | by intros (? & _ & _ & _ & ->)]).
  - rewrite bind_result_ok. setoid_rewrite Hvisit. rewrite Z.add_0_r.
    rewrite push_seq_frames. split.
    + intros (? & ? & [Ho ->] & [= <-]). split_and!; try done; try constructor. set_solver.
    + intros (? & Ho & _ & _ & ->). split; [done|]. exists (o :: seen). split; [set_solver|done].
  - rewrite bind_result_ok. setoid_rewrite Hvisit. setoid_rewrite bind_result_ok.
    setoid_rewrite push_items_ok; [|done]. rewrite length_fmap. split.
    + intros (? & ? & [Ho ->] & ? & (Hall & Hle & ->) & [= <-]). split_and!; try done. set_solver.
    + intros (? & Ho & Hall & Hle & ->). split; [done|]. exists (o :: seen).
      split; [set_solver|]. eexists. split; [by split_and!|done].
Qed.

(** The loop accepts exactly what the condition says, whatever the fuel above
    the number of items it may still count. *)
Lemma validate_loop_ok fuel stack seen keys items :
  (0 ≤ items ≤ (ru_items rl))%Z → (0 ≤ keys ≤ (ru_keys rl))%Z →
  ((ru_items rl) < items + Z.of_nat fuel)%Z → NoDup seen →
  ∃ r, validate_loop fuel (VState stack seen keys items) = Some r ∧
       (r = Ok tt ↔ stack_ok stack seen keys items).
Proof.
  revert stack seen keys items.
  induction fuel as [|fuel IH]; intros stack seen keys items Hi Hk Hf Hs; [lia|].
  destruct stack as [|[v d] rest].
  { exists (Ok tt). split; [done|]. split; [intros _|done].
    unfold stack_ok, zsum. simpl. split_and!; try done; lia. }
  cbn [validate_loop v_stack v_seen v_keys v_items].
  pose proof (stack_ok_expand v d rest seen keys items) as Hx.
  destruct (validate_step v d (VState rest seen keys items)) as [st|e] eqn:E.
  - assert (Hlt : (items < (ru_items rl))%Z).
    { unfold validate_step in E. simpl in E. apply bind_result_ok in E as ([] & E & _).
      apply fail_if_ok, Z.ltb_ge in E. lia. }
    apply validate_step_ok in E as (Hd & Ho & Hkeys & Hkc & ->); [|lia..].
    destruct (IH (reverse (frames d (children v)) ++ rest) (own_oid v ++ seen)
      (keys + Z.of_nat (length (own_keys v)))%Z (items + 1)%Z) as (r & Hr & Hiff); [lia..| |].
    { apply NoDup_app. split; [|by split].
      destruct v; simpl; first [apply NoDup_singleton | constructor]. }
    exists r. split; [done|]. rewrite Hiff. tauto.
  - exists (Err e). split; [done|]. rewrite Hx. split; [done|].
    intros (Hd & Ho & Hkeys & (Hn & Hkc & _)). exfalso.
    assert (Hpos : (0 ≤ zsum ((λ p, nodes p.1) <$> reverse (frames d (children v)) ++ rest))%Z).
    { apply zsum_nonneg, Forall_fmap, Forall_forall. intros [w ?] _. pose proof (nodes_pos w). simpl. lia. }
    assert (Hst := validate_step_ok v d rest seen keys items
      (VState (reverse (frames d (children v)) ++ rest) (own_oid v ++ seen)
         (keys + Z.of_nat (length (own_keys v))) (items + 1)) ltac:(lia) ltac:(lia)).
    rewrite E in Hst. destruct Hst as [_ Hst]. discriminate Hst. split_and!; try done. lia.
Qed.

(** The validator agrees with its reference specification, on every object
    graph: the loop terminates within its fuel and accepts [v] iff [structure_ok v]. *)
Lemma validate_structure_iff v :
  validate_structure v = Ok tt ↔ structure_ok v.
Proof.
  unfold validate_structure.
  destruct (validate_loop_ok validate_fuel [(v, 1%Z)] [] 0 0) as (r & -> & ->);
    [lia|lia|unfold validate_fuel; lia|constructor|].
  unfold stack_ok, structure_ok, stack_keys, stack_oids, zsum. simpl.
  rewrite !app_nil_r, Forall_singleton. simpl. rewrite Z.add_0_r.
  intuition lia.
Qed.

(** ** Copies are accepted again, unchanged *)

Fixpoint jnodes (j : json) : Z :=
  match j with
  | JArr l => 1 + zsum (jnodes <$> l)
  | JObj m => 1 + zsum ((λ kv, jnodes kv.2) <$> m)
  | _ => 1
  end%Z.
Fixpoint jheight (j : json) : Z :=
  match j with
  | JArr l => 1 + zmax (jheight <$> l)
  | JObj m => 1 + zmax ((λ kv, jheight kv.2) <$> m)
  | _ => 1
  end%Z.
(** The member names of every object of the tree. *)
Fixpoint jkeys (j : json) : list string :=
  match j with
  | JArr l => concat (jkeys <$> l)
  | JObj m => m.*1 ++ concat ((λ kv, jkeys kv.2) <$> m)
  | _ => []
  end.

(** What [to_json] produces: writable integers, members sorted by key. *)
Inductive canonical : json → Prop :=
  | can_leaf j : match j with
                 | JArr _ | JObj _ => False
                 | JInt z => Z.abs z < 10 ^ MAX_STR_DIGITS
                 | _ => True
                 end%Z → canonical j
  | can_arr l : Forall canonical l → canonical (JArr l)
  | can_obj m : StronglySorted (key_le fst) m → Forall (λ kv, canonical kv.2) m → canonical (JObj m).

Lemma map_items_ok {A B} (f : A → option B) m js :
  map_items f m = Some js ↔
  Forall2 (λ kv kj, kv.1 = KStr kj.1 ∧ f kv.2 = Some kj.2) m js.
Proof.
  revert js. induction m as [|[k v] m IH]; intros js; simpl.
  - split; [intros [= <-]; constructor | by inversion 1].
  - split.
    + destruct k as [k| |]; try done. intros (j & Hj & H)%bind_Some.
      apply bind_Some in H as (ms & Hm & [= <-]). constructor; [done | by apply IH].
    + inversion 1 as [|? [k' j] ? js' [Hk Hj] Hrest]; subst. simpl in *. subst k.
      apply bind_Some. exists j. split; [done|]. apply bind_Some.
      exists js'. split; [by apply IH | done].
Qed.

Lemma to_json_canonical v j : to_json v = Some j → canonical j.
Proof.
  revert j. induction v as [v Hv|o l IH|o b m IH] using pyobj_ind'; intros j.
  - destruct v as [|b|z|f| |s| | |? ?|? ? ?]; try done; simpl;
      try (intros [= <-]; by constructor).
    destruct (_ <? _)%Z eqn:E; [|done]. apply Z.ltb_lt in E. intros [= <-]. by constructor.
  - simpl. intros (js & Hjs & [= <-])%bind_Some. apply mapM_Some in Hjs. apply can_arr.
    induction Hjs; inversion IH; subst; constructor; auto.
  - destruct b; [|done]. simpl. intros (js & Hjs & [= <-])%bind_Some.
    apply map_items_ok in Hjs. apply can_obj; [apply sort_by_sorted|].
    unfold dict_sort. rewrite sort_by_perm.
    induction Hjs as [|? ? ? ? []]; inversion IH; subst; constructor; auto.
Qed.

(** The copy has the items, the height and the keys of the original. *)
Definition same_measures (j : json) (v : pyobj) : Prop :=
  jnodes j = nodes v ∧ jheight j = height v ∧ (KStr <$> jkeys j) ≡ₚ all_keys v.

Lemma same_measures_list js l :
  Forall2 same_measures js l →
  zsum (jnodes <$> js) = zsum (nodes <$> l) ∧ zmax (jheight <$> js) = zmax (height <$> l) ∧
  (KStr <$> concat (jkeys <$> js)) ≡ₚ concat (all_keys <$> l).
Proof.
  induction 1 as [|j v js l (Hn & Hh & Hk) _ (IHn & IHh & IHk)]; [done|].
  rewrite !fmap_cons, !zsum_cons, !zmax_cons. simpl. rewrite fmap_app, Hk, IHk.
  split_and!; [congruence|congruence|done].
Qed.

Lemma same_measures_items js m :
  Forall2 (λ kj kv, kv.1 = KStr kj.1 ∧ same_measures kj.2 kv.2) js m →
  same_measures (JObj js) (PMap 0 true m).
Proof.
  intros H. assert (Hk : KStr <$> js.*1 = m.*1).
  { induction H as [|? ? ? ? [Hk _] _ IH]; csimpl; [done|]. by rewrite Hk, IH. }
  assert (Hm : Forall2 same_measures js.*2 m.*2).
  { rewrite Forall2_fmap. eapply Forall2_impl; [exact H|]. by intros ?? []. }
  apply same_measures_list in Hm as (Hn & Hh & Hks).
  rewrite <-!list_fmap_compose in Hn, Hh, Hks. unfold compose in *.
  unfold same_measures. simpl. by rewrite fmap_app, Hk, Hn, Hh, Hks.
Qed.

Lemma same_measures_perm js js' v :
  js ≡ₚ js' → same_measures (JObj js) v → same_measures (JObj js') v.
Proof.
  unfold same_measures. intros Hp (<- & <- & <-). simpl.
  rewrite (zmax_perm _ _ (fmap_Permutation (λ kv, jheight kv.2) _ _ Hp)). by rewrite Hp.
Qed.

Lemma to_json_measures v j : to_json v = Some j → same_measures j v.
Proof.
  revert j. induction v as [v Hv|o l IH|o b m IH] using pyobj_ind'; intros j.
  - destruct v as [|b|z|f| |s| | |? ?|? ? ?]; try done; simpl; try (by intros [= <-]).
    destruct (_ <? _)%Z; [by intros [= <-] | done].
  - simpl. intros (js & Hjs & [= <-])%bind_Some. apply mapM_Some in Hjs.
    destruct (same_measures_list js l) as (Hn & Hh & Hk).
    { induction Hjs; inversion IH; subst; constructor; auto. }
    unfold same_measures. simpl. by rewrite Hn, Hh, Hk.
  - destruct b; [|done]. simpl. intros (js & Hjs & [= <-])%bind_Some.
    apply map_items_ok in Hjs. apply (same_measures_perm js); [symmetry; apply sort_by_perm|].
    apply (same_measures_items js m).
    induction Hjs as [|? ? ? ? []]; inversion IH; subst; constructor; auto.
Qed.

(** Relabelling: measures, and distinct identities in [[n, n')]. *)
Definition labelled (n : nat) (j : json) (r : nat * pyobj) : Prop :=
  n ≤ r.1 ∧ (∀ o, o ∈ oids r.2 → n ≤ o < r.1) ∧ NoDup (oids r.2) ∧
  same_measures j r.2 ∧ (canonical j → to_json r.2 = Some j).

Lemma label_list_ok (l : list json) n :
  Forall (λ j, ∀ n, labelled n j (of_json n j)) l →
  let r := label_list of_json n l in
  n ≤ r.1 ∧ (∀ o, o ∈ concat (oids <$> r.2) → n ≤ o < r.1) ∧ NoDup (concat (oids <$> r.2)) ∧
  Forall2 same_measures l r.2 ∧ (Forall canonical l → mapM to_json r.2 = Some l).
Proof.
  intros H. revert n. induction H as [|j l Hj _ IH]; intros n; simpl.
  { split_and!; try done; try constructor; set_solver. }
  specialize (Hj n). destruct (of_json n j) as [n1 v].
  specialize (IH n1). destruct (label_list of_json n1 l) as [n2 vs].
  destruct Hj as (Hle1 & Hb1 & Hd1 & Hm1 & Hc1), IH as (Hle2 & Hb2 & Hd2 & Hm2 & Hc2).
  simpl in *. split_and!.
  - lia.
  - intros o [Ho|Ho]%elem_of_app; [specialize (Hb1 o Ho) | specialize (Hb2 o Ho)]; lia.
  - apply NoDup_app. split_and!; [done| |done].
    intros o H1 H2. specialize (Hb1 o H1). specialize (Hb2 o H2). lia.
  - by constructor.
  - intros [Hcj Hcl]%Forall_cons. by rewrite (Hc1 Hcj), (Hc2 Hcl).
Qed.

Lemma label_items_list (m : list (string * json)) n :
  (label_items of_json n m KStr).1 = (label_list of_json n m.*2).1 ∧
  (label_items of_json n m KStr).2 = zip (KStr <$> m.*1) (label_list of_json n m.*2).2.
Proof.
  revert n. induction m as [|[k j] m IH]; intros n; csimpl; [done|].
  destruct (of_json n j) as [n1 v]. specialize (IH n1).
  destruct (label_items of_json n1 m KStr) as [n2 vs], (label_list of_json n1 m.*2) as [n3 ws].
  csimpl in *. by destruct IH as [-> ->].
Qed.

Lemma of_json_labelled j n : labelled n j (of_json n j).
Proof.
  revert n. induction j as [j Hj|l IH|m IH] using json_ind'; intros n.
  - destruct j; try done; simpl; (split_and!; [simpl; lia|simpl; set_solver|constructor|done|]);
      simpl; try done.
    intros Hc. inversion Hc as [? Hz| |]; subst. apply Z.ltb_lt in Hz. by rewrite Hz.
  - simpl. destruct (label_list_ok l (S n) IH) as (Hle & Hb & Hd & Hm & Hc).
    destruct (label_list of_json (S n) l) as [n' vs]. simpl in *.
    apply same_measures_list in Hm as (Hn & Hh & Hk). split_and!; simpl.
    + lia.
    + intros o [->|Ho]%elem_of_cons; [lia|]. specialize (Hb o Ho). lia.
    + apply NoDup_cons. split; [|done]. intros Ho. specialize (Hb n Ho). lia.
    + unfold same_measures. simpl. by rewrite Hn, Hh.
    + inversion 1; subst; [done|]. by rewrite Hc.
  - assert (IH' : Forall (λ j, ∀ n, labelled n j (of_json n j)) m.*2) by by apply Forall_fmap.
    simpl. destruct (label_list_ok m.*2 (S n) IH') as (Hle & Hb & Hd & Hm & Hc).
    pose proof (label_items_list m (S n)) as [H1 H2].
    destruct (label_items of_json (S n) m KStr) as [n' kvs],
      (label_list of_json (S n) m.*2) as [n'' vs].
    simpl in *. subst n'' kvs.
    assert (Hlen : length vs = length m) by (apply Forall2_length in Hm; by rewrite length_fmap in Hm).
    assert (Hsnd : (zip (KStr <$> m.*1) vs).*2 = vs).
    { apply snd_zip. rewrite !length_fmap. lia. }
    assert (Hoids : (λ kv, oids kv.2) <$> zip (KStr <$> m.*1) vs = oids <$> vs).
    { rewrite <-Hsnd at 2. by rewrite <-(list_fmap_compose snd oids). }
    assert (Hall : Forall2 (λ kj kv, kv.1 = KStr kj.1 ∧ same_measures kj.2 kv.2)
      m (zip (KStr <$> m.*1) vs)).
    { clear -Hm. revert vs Hm. induction m as [|[k j] m IH]; intros vs Hm; csimpl;
        inversion Hm; subst; simpl; constructor; auto. }
    split_and!; simpl.
    + lia.
    + rewrite Hoids. intros o [->|Ho]%elem_of_cons; [lia|]. specialize (Hb o Ho). lia.
    + rewrite Hoids. apply NoDup_cons. split; [|done]. intros Ho. specialize (Hb n Ho). lia.
    + by apply (same_measures_items m) in Hall.
    + inversion 1 as [| |? Hsort Hcan]; subst; [done|].
      apply Forall_fmap, Hc in Hcan. apply mapM_Some in Hcan.
      assert (Hmi : map_items to_json (zip (KStr <$> m.*1) vs) = Some m).
      { apply map_items_ok. clear -Hcan. revert vs Hcan.
        induction m as [|[k j] m IH]; intros vs Hcan; csimpl; inversion Hcan; subst; simpl;
          constructor; auto. }
      rewrite Hmi. simpl. unfold dict_sort. by rewrite sort_by_id.
Qed.

Lemma structure_ok_measures j v w :
  same_measures j v → same_measures j w → NoDup (oids w) → structure_ok v → structure_ok w.
Proof.
  intros (Hn & Hh & Hk) (Hn' & Hh' & Hk') Hd (H1 & H2 & H3 & _ & H5).
  unfold structure_ok. rewrite <-Hk', Hk, <-Hn', <-Hh', Hn, Hh. done.
Qed.

(** *** Copies *)

(** The walk, the copy and its size, with the errors of the last two. *)
Definition checked_copy (limit : Z) (size_error json_error : exn) (v : pyobj) : result json :=
  _ ← validate_structure v;
  copied ← match to_json v with Some j => Ok j | None => Err json_error end;
  _ ← (if (limit <? Z.of_nat (utf8_len (json_dumps copied)))%Z then Err size_error else Ok tt);
  Ok copied.

(** A copy obeys every limit and is copied again to itself. *)
Lemma checked_copy_stable limit size_error json_error v j :
  checked_copy limit size_error json_error v = Ok j →
  (Z.of_nat (utf8_len (json_dumps j)) ≤ limit)%Z ∧ (jheight j ≤ ru_depth rl)%Z ∧
  (∀ k, k ∈ jkeys j → ru_sensitive rl k = false) ∧
  checked_copy limit size_error json_error (of_json 0 j).2 = Ok j.
Proof.
  unfold checked_copy. intros ([] & Hs%validate_structure_iff & H)%bind_result_ok.
  destruct (to_json v) as [j'|] eqn:Hj; cbn [mbind result_bind] in H; [|done].
  destruct (_ <? _)%Z eqn:Hsize in H; cbn [mbind result_bind] in H; [done|]. injection H as ->.
  pose proof (to_json_measures _ _ Hj) as Hm. pose proof (to_json_canonical _ _ Hj) as Hc.
  destruct (of_json_labelled j 0) as (_ & _ & Hd & Hm' & Hback).
  pose proof (structure_ok_measures _ _ _ Hm Hm' Hd Hs) as Hs'.
  destruct Hm as (_ & Hh & Hk). destruct Hs as (_ & Hdepth & _ & _ & Hkeys).
  split; [by apply Z.ltb_ge in Hsize|]. split; [congruence|]. split.
  - intros k Hin. rewrite Forall_forall in Hkeys. destruct (Hkeys (KStr k)) as (? & [= <-] & _ & _ & ?); [|done].
    rewrite <-Hk. by apply list_elem_of_fmap_2.
  - rewrite (proj2 (validate_structure_iff _) Hs'). cbn [mbind result_bind]. rewrite (Hback Hc).
    cbn [mbind result_bind]. by rewrite Hsize.
Qed.

(** The copy of a mapping is an object. *)
Lemma checked_copy_to_json limit size_error json_error v j :
  checked_copy limit size_error json_error v = Ok j → to_json v = Some j.
Proof.
  unfold checked_copy. intros ([] & _ & H)%bind_result_ok.
  destruct (to_json v) as [j'|]; cbn [mbind result_bind] in H; [|done].
  destruct (_ <? _)%Z in H; cbn [mbind result_bind] in H; [done|]. by injection H as ->.
Qed.

Lemma checked_copy_obj limit size_error json_error o b m j :
  checked_copy limit size_error json_error (PMap o b m) = Ok j → ∃ js, j = JObj js.
Proof.
  intros Hj%checked_copy_to_json. destruct b; simpl in Hj; [|done]. apply bind_Some in Hj as (js & _ & [= <-]). by eexists.
Qed.

Lemma of_json_obj n js : ∃ m, (of_json n (JObj js)).2 = PMap n true m.
Proof. simpl. destruct (label_items of_json (S n) js KStr) as [n' m]. by exists m. Qed.
End walk.
End JsonGraph.
