(* ===== verification/JobPayload.v ===== *)
(** * Job payloads (jobs.py: [_safe_payload] and its helpers)

    The walk and the copy are those of [JsonGraph], with the limits of this
    module. *)

From Stdlib Require Import Ascii ZArith.
From stdpp Require Import base decidable numbers list strings.
From S2P Require Import Prelude PyData JsonGraph.

Module Payload.
Import JsonGraph.

Definition MAX_JOB_PAYLOAD_BYTES : Z := 64 * 1024.
Definition MAX_JOB_PAYLOAD_DEPTH : Z := 16.
Definition MAX_JOB_PAYLOAD_KEYS : Z := 512.
Definition MAX_JOB_PAYLOAD_ITEMS : Z := 4096.
Definition MAX_JOB_PAYLOAD_KEY_BYTES : nat := 128.

Definition SENSITIVE_KEYS : list string :=
  ["authorization"; "cookie"; "credential"; "password"; "secret"; "token"].
Definition SENSITIVE_COMPACT_KEYS : list string :=
  ["accesstoken"; "apikey"; "clientsecret"; "privatekey"; "refreshtoken"; "sessioncookie"].

Definition is_sensitive_payload_key : string → bool := sensitive_key SENSITIVE_KEYS SENSITIVE_COMPACT_KEYS.

Definition payload_message (why : refusal) : string :=
  match why with
  | TooManyItems => "job payload exceeds its item limit"
  | TooDeep => "job payload exceeds its depth limit"
  | Cyclic => "job payload must be an acyclic JSON object"
  | KeyNotStr => "job payload keys must be strings"
  | KeyNotUtf8 => "job payload keys must be valid UTF-8"
  | KeyInvalid => "job payload contains an invalid key"
  | TooManyKeys => "job payload exceeds its key limit"
  | KeySensitive => "job payload contains a sensitive field"
  end.

Definition payload_rules : rules := {|
  ru_items := MAX_JOB_PAYLOAD_ITEMS; ru_depth := MAX_JOB_PAYLOAD_DEPTH; ru_keys := MAX_JOB_PAYLOAD_KEYS;
  ru_key_bytes := MAX_JOB_PAYLOAD_KEY_BYTES; ru_bad_char := is_control; ru_sensitive := is_sensitive_payload_key;
  ru_class := JobQueueError; ru_message := payload_message |}.

Definition validate_payload_structure : pyobj → result unit := validate_structure payload_rules.

(** [_safe_payload]. *)
Definition safe_payload (payload : pyobj) : result json :=
  match payload with
  | PMap _ _ _ =>
      checked_copy payload_rules MAX_JOB_PAYLOAD_BYTES
        (Exn JobQueueError "job payload exceeds its size limit")
        (Exn JobQueueError "job payload must be JSON-safe") payload
  | _ => fail TypeErr "job payload must be an object"
  end.

(** The field validator of [JobRecord.payload] when a stored record is read. *)
Definition validate_payload (j : json) : result json := safe_payload (of_json 0 j).2.

Lemma payload_limits_ok : (0 ≤ ru_items payload_rules)%Z ∧ (0 ≤ ru_keys payload_rules)%Z.
Proof. done. Qed.

(** The result of [_safe_payload] obeys every limit and is accepted again. *)
Lemma safe_payload_limits v j :
  safe_payload v = Ok j →
  (Z.of_nat (utf8_len (json_dumps j)) ≤ MAX_JOB_PAYLOAD_BYTES)%Z ∧ (jheight j ≤ MAX_JOB_PAYLOAD_DEPTH)%Z ∧
  (∀ k, k ∈ jkeys j → is_sensitive_payload_key k = false) ∧ validate_payload j = Ok j.
Proof.
  destruct v as [|b|z|f| |s| | |o l|o b m]; try done. cbn [safe_payload]. intros H.
  destruct (checked_copy_obj _ _ _ _ _ _ _ _ H) as [js ->].
  apply (checked_copy_stable _ payload_limits_ok) in H as (Hsize & Hheight & Hkeys & Hback).
  split_and!; [done..|]. unfold validate_payload. destruct (of_json_obj 0 js) as [m' E]. by rewrite E in *.
Qed.

(** ** Properties *)

(** C32: the payload validator terminates within its fuel on every object graph
    and accepts exactly the graphs of [structure_ok]: at most 4096 items, 16
    levels and 512 keys in all, no container met twice, and every key a
    well-formed non-sensitive string. *)
Theorem validate_structure_spec v :
  (∃ r, validate_loop payload_rules (validate_fuel payload_rules) (VState [(v, 1%Z)] [] 0 0) = Some r) ∧
  (validate_payload_structure v = Ok tt ↔ structure_ok payload_rules v).
Proof.
  split; [|apply validate_structure_iff, payload_limits_ok].
  destruct (validate_loop_ok payload_rules payload_limits_ok (validate_fuel payload_rules) [(v, 1%Z)] [] 0 0) as (r & Hr & _);
    [done|done|done|constructor|eauto].
Qed.

(** A payload accepted once satisfies the limits as stored (size, depth,
    no sensitive member name anywhere) and is accepted again, unchanged, each
    time the stored record is read back. *)
Theorem safe_payload_stable v j :
  safe_payload v = Ok j →
  (Z.of_nat (utf8_len (json_dumps j)) ≤ MAX_JOB_PAYLOAD_BYTES)%Z ∧ (jheight j ≤ MAX_JOB_PAYLOAD_DEPTH)%Z ∧
  (∀ k, k ∈ jkeys j → is_sensitive_payload_key k = false) ∧ validate_payload j = Ok j.
Proof. apply safe_payload_limits. Qed.

Definition sample_payload : pyobj :=
  PMap 0 true [(KStr "sku", PStr "A-1"); (KStr "lines", PSeq 1 [PInt 3; PNone])].

Lemma safe_payload_stable_witness :
  validate_payload (JObj [("lines", JArr [JInt 3; JNull]); ("sku", JStr "A-1")])
  = Ok (JObj [("lines", JArr [JInt 3; JNull]); ("sku", JStr "A-1")]).
Proof.
  apply (safe_payload_stable sample_payload). vm_compute. reflexivity.
Defined.

End Payload.
