(* ===== verification/Jobs.v ===== *)
(** * The durable job queue (jobs.py: [JobRecord], [DurableJobQueue])

    The JSON registry on disk is the state: [None] when the file does not
    exist, else its version and its jobs.  Every operation is one critical
    section of [exclusive_file_lock]: it reads the registry, checks, and
    writes at most once, so its effect is the state of the monad.  The clock
    ([datetime.now(UTC)]) and the fresh identifier ([str(uuid4())]) are
    arguments.  Timestamps in records are UTC instants in microseconds. *)

From Stdlib Require Import Ascii ZArith Lia Sorting.Sorted Permutation.
From stdpp Require Import base decidable numbers list strings sets.
From S2P Require Import Prelude PyData Regex JsonGraph JobPayload.

Module Jobs.
Import JsonGraph Payload.

(** ** Data *)

Inductive JobStatus : Type := QUEUED | RUNNING | SUCCEEDED | FAILED.

#[global] Instance JobStatus_eq_dec : EqDecision JobStatus.
Proof. solve_decision. Defined.

Record JobRecord : Type := {
  r_id : string;
  r_type : string;
  r_idempotency_key : string;
  r_payload : json;
  r_status : JobStatus;
  r_attempts : Z;
  r_maximum_attempts : Z;
  r_scheduled_at : Z;
  r_created_at : Z;
  r_updated_at : Z;
  r_lease_owner : option string;
  r_lease_expires_at : option Z;
  r_fencing_token : Z;
  r_error_code : option string;
}.

(** The on-disk registry; [jobs = None] when the "jobs" member is not an object. *)
Record registry : Type := Registry { reg_version : Z; reg_jobs : option (dict string JobRecord) }.

Abbreviation store := (option registry).

Definition REGISTRY_VERSION : Z := 1.
Definition DEFAULT_MAXIMUM_JOB_RECORDS : Z := 4096.
Definition HARD_MAXIMUM_JOB_RECORDS : Z := 100000.
Definition MAXIMUM_TERMINAL_PURGE_BATCH : Z := 1000.

(** ** Validators of identifiers *)

Definition word_char (extra : string) (c : ascii) : bool := is_alnum c || one_of extra c.
Definition lower_word (extra : string) (c : ascii) : bool := is_lower c || is_digit c || one_of extra c.

Definition JOB_TYPE : re :=
  Seq (Chr is_lower) (Seq (Rep 1 63 (Chr (lower_word "-")))
    (Seq (Lit ".") (Seq (Chr is_lower) (Rep 1 95 (Chr (lower_word "._-")))))).
Definition OWNER : re :=
  Seq (Chr is_lower) (Seq (Star (Chr (lower_word "")))
    (Star (Seq (Lit "-") (Plus (Chr (lower_word "")))))).
Definition WORKER_ID : re := Seq (Chr is_alnum) (Rep 2 127 (Chr (word_char "._:-"))).
Definition IDEMPOTENCY_KEY : re := Seq (Chr is_alnum) (Rep 7 255 (Chr (word_char "._:/-"))).
Definition ERROR_CODE : re := Seq (Chr is_lower) (Rep 1 127 (Chr (lower_word "_.-"))).

Definition validate_re (r : re) (msg : string) (value : string) : result string :=
  if fullmatch r value then Ok value else fail ValueErr msg.

Definition validate_job_type : string → result string :=
  validate_re JOB_TYPE "invalid namespaced job type".
Definition owner_job_prefix (owner : string) : result string :=
  _ ← validate_re OWNER "invalid extension owner id" owner; Ok (owner +:+ ".").
Definition validate_worker_id : string → result string := validate_re WORKER_ID "invalid worker id".
Definition validate_idempotency_key : string → result string :=
  validate_re IDEMPOTENCY_KEY "invalid job idempotency key".

Definition as_utc : datetime → result Z := as_utc_msg "job timestamp must be timezone-aware".

(** [_as_utc(now or datetime.now(UTC))]. *)
Definition timestamp_of (clock : Z) (now : option datetime) : result Z :=
  as_utc (or_default now (Aware clock)).

(** The field constraints [JobRecord] checks when built or read back. *)
Definition validate_record (r : JobRecord) : result JobRecord :=
  _ ← validate_payload (r_payload r);
  _ ← fail_if (negb ((1 <=? r_maximum_attempts r)%Z && (r_maximum_attempts r <=? 32)%Z))
        ValidationErr "maximum_attempts";
  _ ← fail_if (r_fencing_token r <? 0)%Z ValidationErr "fencing_token";
  Ok r.

(** ** The queue *)

Record config : Type := Config {
  base_retry_delay : Z;
  maximum_retry_delay : Z;
  maximum_records : Z;
}.

(** [DurableJobQueue.__init__]. *)
Definition new_queue (base maxd maxr : Z) : result config :=
  _ ← fail_if (base <=? 0)%Z ValueErr "base retry delay must be positive";
  _ ← fail_if (maxd <? base)%Z ValueErr "maximum retry delay cannot be below base delay";
  _ ← fail_if (negb ((1 <=? maxr)%Z && (maxr <=? HARD_MAXIMUM_JOB_RECORDS)%Z)) ValueErr
        "maximum job records must be between 1 and 100000";
  Ok (Config base maxd maxr).

(** [_read]. *)
Definition read_registry (s : store) : result (dict string JobRecord) :=
  match or_default s (Registry REGISTRY_VERSION (Some [])) with
  | Registry version jobs =>
      _ ← fail_if (negb (version =? REGISTRY_VERSION)%Z) JobQueueError
            "unsupported job registry version";
      match jobs with
      | None => fail JobQueueError "job registry is malformed"
      | Some d =>
          map_result (λ kv, r ← validate_record kv.2; Ok (kv.1, r)) d
      end
  end.

Definition read : M store (dict string JobRecord) := λ s, (read_registry s, s).

(** [_write]. *)
Definition write (records : dict string JobRecord) : M store unit :=
  put_st (Some (Registry REGISTRY_VERSION (Some (dict_sort records)))).

(** ** [enqueue] *)

Definition enqueue (q : config) (clock : Z) (new_id : string)
    (job_type : string) (payload : pyobj) (idempotency_key : string)
    (maximum_attempts : Z) (scheduled_at now : option datetime) : M store JobRecord :=
  job_type ← lift (validate_job_type job_type);
  idempotency_key ← lift (validate_idempotency_key idempotency_key);
  safe ← lift (safe_payload payload);
  timestamp ← lift (timestamp_of clock now);
  due ← lift (as_utc (or_default scheduled_at (Aware timestamp)));
  _ ← raise_if (negb ((1 <=? maximum_attempts)%Z && (maximum_attempts <=? 32)%Z)) ValueErr
        "maximum attempts must be between 1 and 32";
  records ← read;
  match List.find (λ r, String.eqb (r_idempotency_key r) idempotency_key) (dict_values records) with
  | Some existing =>
      if negb (String.eqb (r_type existing) job_type) || negb (json_eqb (r_payload existing) safe)
      then raise JobQueueError "job idempotency key is bound to another operation"
      else mret existing
  | None =>
      _ ← raise_if (maximum_records q <=? Z.of_nat (length records))%Z JobQueueCapacityError
            "job queue capacity is exhausted";
      record ← lift (validate_record
        {| r_id := new_id; r_type := job_type; r_idempotency_key := idempotency_key;
           r_payload := safe; r_status := QUEUED; r_attempts := 0;
           r_maximum_attempts := maximum_attempts; r_scheduled_at := due;
           r_created_at := timestamp; r_updated_at := timestamp;
           r_lease_owner := None; r_lease_expires_at := None;
           r_fencing_token := 0; r_error_code := None |});
      _ ← write (dict_set records (r_id record) record);
      mret record
  end.

(** ** Record updates ([model_copy(update=...)]) *)

(** A terminal or re-queued record: the lease is cleared. *)
Definition set_unleased (r : JobRecord) (status : JobStatus) (scheduled_at updated_at : Z)
    (error_code : option string) : JobRecord :=
  {| r_id := r_id r; r_type := r_type r; r_idempotency_key := r_idempotency_key r;
     r_payload := r_payload r; r_status := status; r_attempts := r_attempts r;
     r_maximum_attempts := r_maximum_attempts r; r_scheduled_at := scheduled_at;
     r_created_at := r_created_at r; r_updated_at := updated_at;
     r_lease_owner := None; r_lease_expires_at := None;
     r_fencing_token := r_fencing_token r; r_error_code := error_code |}.

(** The claimed copy of a due record. *)
Definition set_claimed (r : JobRecord) (worker : string) (timestamp expires : Z) : JobRecord :=
  {| r_id := r_id r; r_type := r_type r; r_idempotency_key := r_idempotency_key r;
     r_payload := r_payload r; r_status := RUNNING; r_attempts := r_attempts r + 1;
     r_maximum_attempts := r_maximum_attempts r; r_scheduled_at := r_scheduled_at r;
     r_created_at := r_created_at r; r_updated_at := timestamp;
     r_lease_owner := Some worker; r_lease_expires_at := Some expires;
     r_fencing_token := r_fencing_token r + 1; r_error_code := None |}.

(** ** [cancel_owner] *)

Definition is_live (s : JobStatus) : bool :=
  match s with QUEUED | RUNNING => true | SUCCEEDED | FAILED => false end.
Definition is_terminal (s : JobStatus) : bool := negb (is_live s).

(** The body of the loop: [None] is [continue]. *)
Definition cancel_entry (prefix : string) (timestamp : Z) (_ : string) (r : JobRecord) : option JobRecord :=
  if negb (is_live (r_status r)) then None
  else if negb (startswith (r_type r) prefix) then None
  else Some (set_unleased r FAILED (r_scheduled_at r) timestamp (Some "job.owner_inactive")).

Definition cancel_owner (clock : Z) (owner : string) (now : option datetime) : M store Z :=
  prefix ← lift (owner_job_prefix owner);
  timestamp ← lift (timestamp_of clock now);
  records ← read;
  let changed := Z.of_nat (length (List.filter
    (λ kv, match cancel_entry prefix timestamp kv.1 kv.2 with Some _ => true | None => false end)
    records)) in
  _ ← (if (changed =? 0)%Z then mret tt
       else write (dict_update_each (cancel_entry prefix timestamp) records));
  mret changed.

(** ** [claim] *)

Definition recover_entry (now : Z) (_ : string) (r : JobRecord) : option JobRecord :=
  match r_status r, r_lease_expires_at r with
  | RUNNING, Some expires =>
      if (expires <=? now)%Z
      then let terminal := (r_maximum_attempts r <=? r_attempts r)%Z in
           Some (set_unleased r (if terminal then FAILED else QUEUED) now now (Some "job.lease_expired"))
      else None
  | _, _ => None
  end.

(** [_recover_expired]. *)
Definition recover_expired (records : dict string JobRecord) (now : Z) : dict string JobRecord :=
  dict_update_each (recover_entry now) records.

Definition is_due (timestamp : Z) (r : JobRecord) : bool :=
  bool_decide (r_status r = QUEUED) && (r_scheduled_at r <=? timestamp)%Z.

Definition claim_key (r : JobRecord) : Z * Z * string := (r_scheduled_at r, r_created_at r, r_id r).

(** The due records in claim order. *)
Definition due_records (timestamp : Z) (records : dict string JobRecord) : list JobRecord :=
  sort_by claim_key (List.filter (is_due timestamp) (dict_values records)).

Definition claim (clock : Z) (worker_id : string) (lease : Z) (now : option datetime) :
    M store (option JobRecord) :=
  worker_id ← lift (validate_worker_id worker_id);
  _ ← raise_if (negb ((second <=? lease)%Z && (lease <=? hour)%Z)) ValueErr
        "job lease must be between 1 second and 1 hour";
  timestamp ← lift (timestamp_of clock now);
  records ← read;
  let records := recover_expired records timestamp in
  match due_records timestamp records with
  | [] => _ ← write records; mret None
  | selected :: _ =>
      expires ← lift (dt_add timestamp lease);
      let claimed := set_claimed selected worker_id timestamp expires in
      _ ← write (dict_set records (r_id claimed) claimed);
      mret (Some claimed)
  end.

(** ** [succeed] and [fail] *)

(** [fencing_token < 1] (the argument is an [int]). *)
Definition check_fencing (fencing_token : Z) : result unit :=
  fail_if (fencing_token <? 1)%Z ValueErr "job fencing token must be a positive integer".

(** [min(self.base_retry_delay * (2 ** (attempts - 1)), self.maximum_retry_delay)]. *)
Definition retry_delay (q : config) (attempts : Z) : result Z :=
  d ← td_mul_pow2 (base_retry_delay q) (attempts - 1);
  Ok (Z.min d (maximum_retry_delay q)).

(** The three outcomes of a finished attempt. *)
Definition finish_update (q : config) (current : JobRecord) (timestamp : Z) (succeeded : bool)
    (error_code : option string) : result JobRecord :=
  if succeeded then
    Ok (set_unleased current SUCCEEDED (r_scheduled_at current) timestamp None)
  else if (r_maximum_attempts current <=? r_attempts current)%Z then
    Ok (set_unleased current FAILED (r_scheduled_at current) timestamp error_code)
  else
    delay ← retry_delay q (r_attempts current);
    scheduled ← dt_add timestamp delay;
    Ok (set_unleased current QUEUED scheduled timestamp error_code).

(** [_finish]. *)
Definition finish (q : config) (clock : Z) (job_id worker_id : string) (fencing_token : Z)
    (succeeded : bool) (error_code : option string) (now : option datetime) : M store JobRecord :=
  worker_id ← lift (validate_worker_id worker_id);
  _ ← lift (check_fencing fencing_token);
  timestamp ← lift (timestamp_of clock now);
  records ← read;
  match dict_get records job_id with
  | None => raise JobQueueError "job does not exist"
  | Some current =>
      _ ← raise_if (bool_decide (r_status current ≠ RUNNING)
                    || bool_decide (r_lease_owner current ≠ Some worker_id))
            JobQueueError "worker does not own the running job";
      _ ← raise_if (negb (r_fencing_token current =? fencing_token)%Z)
            JobQueueError "job fencing token is stale";
      _ ← raise_if (match r_lease_expires_at current with
                    | None => true
                    | Some expires => (expires <=? timestamp)%Z
                    end)
            JobQueueError "job lease has expired";
      updated ← lift (finish_update q current timestamp succeeded error_code);
      _ ← write (dict_set records job_id updated);
      mret updated
  end.

Definition succeed (q : config) (clock : Z) (job_id worker_id : string) (fencing_token : Z)
    (now : option datetime) : M store JobRecord :=
  finish q clock job_id worker_id fencing_token true None now.

Definition fail_job (q : config) (clock : Z) (job_id worker_id : string) (fencing_token : Z)
    (error_code : string) (now : option datetime) : M store JobRecord :=
  _ ← raise_if (negb (fullmatch ERROR_CODE error_code)) ValueErr "invalid safe job error code";
  finish q clock job_id worker_id fencing_token false (Some error_code) now.

(** ** [records], [leased], [purge_terminal] *)

Definition records : M store (dict string JobRecord) := d ← read; mret (dict_sort d).

(** The condition under which [leased] answers with the record. *)
Definition holds_lease (r : JobRecord) (worker_id : string) (fencing_token timestamp : Z) : bool :=
  bool_decide (r_status r = RUNNING) && bool_decide (r_lease_owner r = Some worker_id) &&
  (r_fencing_token r =? fencing_token)%Z &&
  match r_lease_expires_at r with
  | None => false
  | Some expires => (timestamp <? expires)%Z
  end.

Definition leased (clock : Z) (job_id worker_id : string) (fencing_token : Z)
    (now : option datetime) : M store (option JobRecord) :=
  worker_id ← lift (validate_worker_id worker_id);
  _ ← lift (check_fencing fencing_token);
  timestamp ← lift (timestamp_of clock now);
  records ← read;
  match dict_get records job_id with
  | None => mret None
  | Some current =>
      mret (if holds_lease current worker_id fencing_token timestamp then Some current else None)
  end.

Definition purge_key (r : JobRecord) : Z * string := (r_updated_at r, r_id r).

Definition purge_batch (cutoff limit : Z) (records : dict string JobRecord) : list JobRecord :=
  take (Z.to_nat limit) (sort_by purge_key
    (List.filter (λ r, is_terminal (r_status r) && (r_updated_at r <? cutoff)%Z) (dict_values records))).

Definition purge_terminal (before : datetime) (limit : Z) : M store Z :=
  cutoff ← lift (as_utc before);
  _ ← raise_if (negb ((1 <=? limit)%Z && (limit <=? MAXIMUM_TERMINAL_PURGE_BATCH)%Z)) ValueErr
        "terminal purge limit must be between 1 and 1000";
  records ← read;
  let terminal := purge_batch cutoff limit records in
  match terminal with
  | [] => mret 0%Z
  | _ =>
      records ← lift (fold_result (λ d r, dict_del_item (r_id r) d (r_id r)) records terminal);
      _ ← write records;
      mret (Z.of_nat (length terminal))
  end.
(** ** The registry invariant *)

Record record_wf (r : JobRecord) : Prop := {
  rw_payload : validate_payload (r_payload r) = Ok (r_payload r);
  rw_max : (1 ≤ r_maximum_attempts r ≤ 32)%Z;
  rw_attempts : (0 ≤ r_attempts r ≤ r_maximum_attempts r)%Z;
  rw_fencing : r_fencing_token r = r_attempts r;
  rw_lease : match r_status r with
             | RUNNING => (∃ w, r_lease_owner r = Some w) ∧ (∃ e, r_lease_expires_at r = Some e)
             | _ => r_lease_owner r = None ∧ r_lease_expires_at r = None
             end;
  rw_progress : match r_status r with
                | QUEUED => r_attempts r < r_maximum_attempts r
                | RUNNING | SUCCEEDED => 1 ≤ r_attempts r
                | FAILED => True
                end%Z;
}.

Record wf_dict (q : config) (d : dict string JobRecord) : Prop := {
  wf_keys : dict_wf d;
  wf_rec : ∀ k r, (k, r) ∈ d → r_id r = k ∧ record_wf r;
  wf_idem : ∀ k1 r1 k2 r2, (k1, r1) ∈ d → (k2, r2) ∈ d →
    r_idempotency_key r1 = r_idempotency_key r2 → k1 = k2;
  wf_len : (Z.of_nat (length d) ≤ maximum_records q)%Z;
}.

(** The jobs of a registry file. *)
Definition jobs_of (s : store) : dict string JobRecord :=
  match s with Some (Registry _ (Some d)) => d | _ => [] end.

(** A file the queue itself wrote: absent, or the current version with
    well-formed jobs. *)
Definition store_wf (q : config) (s : store) : Prop :=
  match s with
  | None => (0 ≤ maximum_records q)%Z
  | Some (Registry v jobs) => v = REGISTRY_VERSION ∧ ∃ d, jobs = Some d ∧ wf_dict q d
  end.

Lemma store_wf_dict q s : store_wf q s → wf_dict q (jobs_of s).
Proof.
  destruct s as [[v jobs]|]; simpl.
  - by intros (_ & d & -> & ?).
  - intros ?. split; simpl; [constructor | set_solver | set_solver | lia].
Qed.

Lemma validate_record_wf r : record_wf r → validate_record r = Ok r.
Proof.
  intros [Hp Hm Ha Hf _ _]. unfold validate_record. rewrite Hp. simpl.
  rewrite !(proj2 (Z.leb_le _ _)) by lia. simpl.
  by rewrite (proj2 (Z.ltb_ge _ _)) by lia.
Qed.

Lemma validate_record_ok r r' : validate_record r = Ok r' → r' = r.
Proof.
  unfold validate_record. intros (? & _ & H)%bind_result_ok.
  apply bind_result_ok in H as (_ & _ & H). apply bind_result_ok in H as (_ & _ & H).
  congruence.
Qed.

(** Reading a well-formed registry succeeds and returns it unchanged. *)
Lemma read_wf q s : store_wf q s → read s = (Ok (jobs_of s), s).
Proof.
  intros Hs. unfold read. f_equal. unfold read_registry.
  destruct s as [[v jobs]|]; simpl in *; [|done].
  destruct Hs as (-> & d & -> & [_ Hd _ _]). simpl.
  apply map_result_ok. assert (Hall : Forall (λ kv, record_wf kv.2) d).
  { apply Forall_forall. intros [k r] Hin. by apply (Hd k r). }
  clear Hd. induction Hall as [|[k r] d Hr _ IH]; constructor; [|done].
  simpl in *. by rewrite (validate_record_wf r Hr).
Qed.

Lemma run_write d s : write d s = (Ok tt, Some (Registry REGISTRY_VERSION (Some (dict_sort d)))).
Proof. done. Qed.

Lemma wf_dict_sort q d : wf_dict q d → wf_dict q (dict_sort d).
Proof.
  intros [Hk Hr Hi Hl]. split.
  - by apply dict_wf_sort.
  - intros k r. rewrite elem_of_dict_sort. apply Hr.
  - intros k1 r1 k2 r2. rewrite !elem_of_dict_sort. apply Hi.
  - by rewrite length_dict_sort.
Qed.

Lemma store_wf_write q d :
  wf_dict q d → store_wf q (Some (Registry REGISTRY_VERSION (Some (dict_sort d)))).
Proof. intros Hd. split; [done|]. eexists. split; [done | by apply wf_dict_sort]. Qed.

(** Replacing a record by a well-formed one with the same identity. *)
Lemma wf_dict_replace q d k r r' :
  wf_dict q d → dict_get d k = Some r → r_id r' = r_id r →
  r_idempotency_key r' = r_idempotency_key r → record_wf r' → wf_dict q (dict_set d k r').
Proof.
  intros [Hk Hr Hi Hl] Hget Hid Hkey Hwf. apply dict_get_Some_in in Hget as Hin.
  split.
  - by apply dict_wf_set.
  - intros j w. rewrite dict_set_in by done. intros [[= -> ->]|[Hj _]]; [|by apply Hr].
    split; [|done]. rewrite Hid. by apply Hr.
  - intros k1 r1 k2 r2. rewrite !dict_set_in by done. simpl.
    intros [[= -> ->]|[H1 ?]] [[= -> ->]|[H2 ?]]; try done.
    + rewrite Hkey. by apply Hi.
    + rewrite Hkey. by apply Hi.
    + by apply Hi.
  - rewrite length_dict_set. unfold dict_mem. by rewrite Hget.
Qed.

(** Adding a well-formed record under a new idempotency key, below capacity. *)
Lemma wf_dict_add q d r :
  wf_dict q d → (Z.of_nat (length d) < maximum_records q)%Z → record_wf r →
  (∀ k r', (k, r') ∈ d → r_idempotency_key r' ≠ r_idempotency_key r) →
  wf_dict q (dict_set d (r_id r) r).
Proof.
  intros [Hk Hr Hi Hl] Hlen Hwf Hnew. split.
  - by apply dict_wf_set.
  - intros j w. rewrite dict_set_in by done. intros [[= -> ->]|[Hj _]]; [done | by apply Hr].
  - intros k1 r1 k2 r2. rewrite !dict_set_in by done. simpl.
    intros [[= -> ->]|[H1 ?]] [[= -> ->]|[H2 ?]] E; try done.
    + by destruct (Hnew _ _ H2).
    + by destruct (Hnew _ _ H1).
    + by eapply Hi.
  - rewrite length_dict_set. destruct (dict_mem _ _); lia.
Qed.

(** A pass that rewrites records without changing their identity. *)
Lemma wf_dict_update q d f :
  wf_dict q d →
  (∀ k r r', record_wf r → f k r = Some r' →
     record_wf r' ∧ r_id r' = r_id r ∧ r_idempotency_key r' = r_idempotency_key r) →
  wf_dict q (dict_update_each f d).
Proof.
  intros [Hk Hr Hi Hl] Hf.
  assert (Hin : ∀ k r', (k, r') ∈ dict_update_each f d →
    ∃ r, (k, r) ∈ d ∧ record_wf r' ∧ r_id r' = r_id r ∧ r_idempotency_key r' = r_idempotency_key r).
  { intros k r'. rewrite dict_update_each_map by done.
    intros ([k0 r] & [= -> ->] & Hin)%list_elem_of_fmap. exists r.
    destruct (Hr _ _ Hin) as [_ Hwf]. simpl. split; [done|].
    destruct (f k0 r) eqn:E; [by eapply Hf | done]. }
  split.
  - by apply dict_wf_update.
  - intros k r' (r & ? & ? & -> & _)%Hin. split; [by apply Hr | done].
  - intros k1 r1 k2 r2 (r1' & H1 & _ & _ & ->)%Hin (r2' & H2 & _ & _ & ->)%Hin. by eapply Hi.
  - by rewrite length_dict_update.
Qed.

Lemma wf_dict_del q d k : wf_dict q d → wf_dict q (dict_del d k).
Proof.
  intros [Hk Hr Hi Hl].
  assert (Hin : ∀ x, x ∈ dict_del d k → x ∈ d).
  { intros [j w] H. apply dict_get_iff in H; [|by apply dict_wf_del].
    apply dict_get_iff; [done|]. rewrite dict_get_del in H by done. by destruct (decide _). }
  split.
  - by apply dict_wf_del.
  - intros j w H%Hin. by apply Hr.
  - intros ???? H1%Hin H2%Hin. by eapply Hi.
  - rewrite length_dict_del. destruct (dict_mem d k); lia.
Qed.

Lemma wf_dict_get q d k r : wf_dict q d → dict_get d k = Some r → r_id r = k ∧ record_wf r.
Proof. intros [_ Hr _ _] H%dict_get_Some_in. by apply Hr. Qed.

(** ** Evolution of a job *)

(** What an operation may do to a record: its identity is fixed, its fencing
    token never decreases, a terminal record is frozen, and the lease that
    belongs to a token is never granted again nor changed. *)
Record evolves (r r' : JobRecord) : Prop := {
  ev_id : r_id r' = r_id r;
  ev_type : r_type r' = r_type r;
  ev_key : r_idempotency_key r' = r_idempotency_key r;
  ev_payload : r_payload r' = r_payload r;
  ev_max : r_maximum_attempts r' = r_maximum_attempts r;
  ev_created : r_created_at r' = r_created_at r;
  ev_fencing : (r_fencing_token r ≤ r_fencing_token r')%Z;
  ev_terminal : is_terminal (r_status r) = true → r' = r;
  ev_lease : r_fencing_token r' = r_fencing_token r → r_status r' = RUNNING → r' = r;
}.

Lemma evolves_refl r : evolves r r.
Proof. by split. Qed.

(** A job is kept, evolved, or removed once terminal. *)
Definition evolves_dict (d d' : dict string JobRecord) : Prop :=
  ∀ k r, dict_get d k = Some r →
    match dict_get d' k with
    | Some r' => evolves r r'
    | None => is_terminal (r_status r) = true
    end.

Lemma evolves_dict_refl d : evolves_dict d d.
Proof. intros k r ->. apply evolves_refl. Qed.

Lemma evolves_dict_sort d d' : dict_wf d' → evolves_dict d d' → evolves_dict d (dict_sort d').
Proof. intros Hd H k r Hk. rewrite dict_get_sort by done. by apply H. Qed.

Lemma evolves_dict_replace d k r r' :
  dict_get d k = Some r → evolves r r' → evolves_dict d (dict_set d k r').
Proof.
  intros Hk Hr j w Hj. rewrite dict_get_set. destruct (decide (k = j)) as [<-|].
  - by rewrite Hk in Hj; simplify_eq.
  - rewrite Hj. apply evolves_refl.
Qed.

Lemma evolves_dict_add d k r : dict_get d k = None → evolves_dict d (dict_set d k r).
Proof.
  intros Hk j w Hj. rewrite dict_get_set_ne by congruence. rewrite Hj. apply evolves_refl.
Qed.

Lemma evolves_dict_update d f :
  dict_wf d → (∀ k r r', f k r = Some r' → evolves r r') → evolves_dict d (dict_update_each f d).
Proof.
  intros Hd Hf k r Hk. rewrite dict_get_update, Hk by done.
  destruct (f k r) eqn:E; [by eapply Hf | apply evolves_refl].
Qed.

(** The record updates of the queue. *)
Lemma set_unleased_wf r status sch upd code :
  record_wf r → status ≠ RUNNING →
  (status = QUEUED → r_attempts r < r_maximum_attempts r)%Z →
  (status = SUCCEEDED → 1 ≤ r_attempts r)%Z →
  record_wf (set_unleased r status sch upd code).
Proof. intros [] ???. split; simpl; try done; destruct status; auto; done. Qed.

Lemma set_unleased_evolves r status sch upd code :
  is_live (r_status r) = true → status ≠ RUNNING → evolves r (set_unleased r status sch upd code).
Proof. intros Hl Hs. split; simpl; try done. unfold is_terminal. by rewrite Hl. Qed.

Lemma set_claimed_wf r w t e :
  record_wf r → r_status r = QUEUED → record_wf (set_claimed r w t e).
Proof. intros [Hp Hm Ha Hf Hl Hpr] Hs. rewrite Hs in *. split; simpl; try done; eauto; lia. Qed.

Lemma set_claimed_evolves r w t e : r_status r = QUEUED → evolves r (set_claimed r w t e).
Proof.
  intros Hs. split; simpl; try done; [lia | by rewrite Hs | lia].
Qed.

Lemma cancel_entry_some prefix t k r r' :
  cancel_entry prefix t k r = Some r' →
  is_live (r_status r) = true ∧ startswith (r_type r) prefix = true ∧
  r' = set_unleased r FAILED (r_scheduled_at r) t (Some "job.owner_inactive").
Proof.
  unfold cancel_entry. destruct (is_live _); simpl; [|done].
  destruct (startswith _ _); simpl; [|done]. by intros [= <-].
Qed.

Lemma recover_entry_some now k r r' :
  recover_entry now k r = Some r' →
  r_status r = RUNNING ∧ (∃ e, r_lease_expires_at r = Some e ∧ (e ≤ now)%Z) ∧
  r' = set_unleased r (if (r_maximum_attempts r <=? r_attempts r)%Z then FAILED else QUEUED)
         now now (Some "job.lease_expired").
Proof.
  unfold recover_entry. destruct (r_status r); try done.
  destruct (r_lease_expires_at r) as [e|]; [|done].
  destruct (e <=? now)%Z eqn:E; [|done]. apply Z.leb_le in E. intros [= <-]. eauto.
Qed.

Lemma cancel_entry_ok prefix t k r r' :
  record_wf r → cancel_entry prefix t k r = Some r' →
  record_wf r' ∧ evolves r r'.
Proof.
  intros Hr (Hl & _ & ->)%cancel_entry_some.
  split; [by apply set_unleased_wf | by apply set_unleased_evolves].
Qed.

Lemma recover_entry_ok now k r r' :
  record_wf r → recover_entry now k r = Some r' → record_wf r' ∧ evolves r r'.
Proof.
  intros Hr (Hs & _ & ->)%recover_entry_some. split.
  - apply set_unleased_wf; [done|by destruct (_ <=? _)%Z| |by destruct (_ <=? _)%Z].
    destruct (_ <=? _)%Z eqn:E; [done|]. apply Z.leb_gt in E. done.
  - apply set_unleased_evolves; [by rewrite Hs | by destruct (_ <=? _)%Z].
Qed.

Lemma wf_dict_cancel q d prefix t :
  wf_dict q d → wf_dict q (dict_update_each (cancel_entry prefix t) d).
Proof.
  intros Hd. apply wf_dict_update; [done|]. intros k r r' Hr E.
  destruct (cancel_entry_ok _ _ _ _ _ Hr E) as [? []]. done.
Qed.

Lemma wf_dict_recover q d now : wf_dict q d → wf_dict q (recover_expired d now).
Proof.
  intros Hd. apply wf_dict_update; [done|]. intros k r r' Hr E.
  destruct (recover_entry_ok _ _ _ _ Hr E) as [? []]. done.
Qed.

Lemma evolves_dict_recover q d now : wf_dict q d → evolves_dict d (recover_expired d now).
Proof.
  intros Hd k r Hk. unfold recover_expired. rewrite dict_get_update, Hk by apply Hd.
  destruct (recover_entry now k r) eqn:E; [|apply evolves_refl].
  eapply recover_entry_ok; [|done]. by eapply wf_dict_get.
Qed.

Lemma evolves_trans r1 r2 r3 : evolves r1 r2 → evolves r2 r3 → evolves r1 r3.
Proof.
  intros [] []. split; try congruence; try lia.
  - intros H. assert (r2 = r1) as -> by auto. auto.
  - intros Hf Hs. assert (r3 = r2) as -> by (apply ev_lease1; [lia|done]). apply ev_lease0; [lia|done].
Qed.

Lemma evolves_dict_replace_after d d1 k r r' :
  evolves_dict d d1 → dict_get d1 k = Some r → evolves r r' → evolves_dict d (dict_set d1 k r').
Proof.
  intros H Hk Hr j w Hj. specialize (H j w Hj). rewrite dict_get_set.
  destruct (decide (k = j)) as [<-|]; [|done].
  rewrite Hk in H. by eapply evolves_trans.
Qed.

(** [adds_only N d d']: [d'] has no job that [d] lacks, but the one named [N]. *)
Definition adds_only (N : option string) (d d' : dict string JobRecord) : Prop :=
  ∀ k, dict_get d k = None → N ≠ Some k → dict_get d' k = None.

Lemma adds_only_refl N d : adds_only N d d.
Proof. by intros k. Qed.

Lemma adds_only_sort N d d' : dict_wf d' → adds_only N d d' → adds_only N d (dict_sort d').
Proof. intros Hd H k Hk HN. rewrite dict_get_sort by done. by apply H. Qed.

Lemma adds_only_update N d f : dict_wf d → adds_only N d (dict_update_each f d).
Proof. intros Hd k Hk _. by rewrite dict_get_update, Hk. Qed.

Lemma adds_only_set N d d1 k r :
  adds_only N d d1 → dict_get d k ≠ None ∨ N = Some k → adds_only N d (dict_set d1 k r).
Proof.
  intros H Hk j Hj HN. rewrite dict_get_set_ne; [by apply H|].
  intros <-. by destruct Hk.
Qed.

(** ** Every operation keeps the invariant and evolves the jobs *)

(** [good_at q N d m]: run on a well-formed store with jobs [d], [m] leaves a
    well-formed store whose jobs evolve from [d], none added but [N], whether
    it raises or not. *)
Definition good_at {A} (q : config) (N : option string) (d : dict string JobRecord)
    (m : M store A) : Prop :=
  ∀ s, store_wf q s → jobs_of s = d →
    store_wf q (post m s) ∧ evolves_dict d (jobs_of (post m s)) ∧ adds_only N d (jobs_of (post m s)).

Section good.
Context {A : Type} (q : config) (N : option string) (d : dict string JobRecord).

Lemma good_idle (m : M store A) : (∀ s, post m s = s) → good_at q N d m.
Proof. intros Hm s Hs <-. rewrite Hm. split_and!; [done | apply evolves_dict_refl | apply adds_only_refl]. Qed.

Lemma good_ret (a : A) : good_at q N d (mret a).
Proof. by apply good_idle. Qed.

Lemma good_raise c msg : good_at q N d (raise (A := A) c msg).
Proof. by apply good_idle. Qed.

Lemma good_bind_lift {B} (r : result B) (k : B → M store A) :
  (∀ b, r = Ok b → good_at q N d (k b)) → good_at q N d (lift r ≫= k).
Proof.
  intros Hk s Hs Hd. unfold post. rewrite run_bind_lift.
  destruct r as [b|e]; simpl; [by apply Hk|]. rewrite Hd. split_and!; [done | apply evolves_dict_refl | apply adds_only_refl].
Qed.

Lemma good_if (b : bool) (m n : M store A) :
  (b = true → good_at q N d m) → (b = false → good_at q N d n) → good_at q N d (if b then m else n).
Proof. destruct b; auto. Qed.

Lemma good_read (k : dict string JobRecord → M store A) :
  wf_dict q d → good_at q N d (k d) → good_at q N d (read ≫= k).
Proof.
  intros Hd Hk s Hs Hj. unfold post. rewrite run_bind, (read_wf q) by done. rewrite Hj.
  by apply Hk.
Qed.

Lemma good_write d' (a : A) :
  wf_dict q d' → evolves_dict d d' → adds_only N d d' → good_at q N d (_ ← write d'; mret a).
Proof.
  intros Hd He Ha s Hs Hj. unfold post. rewrite run_bind, run_write. split_and!.
  - by apply store_wf_write.
  - simpl. apply evolves_dict_sort; [apply Hd | done].
  - simpl. apply adds_only_sort; [apply Hd | done].
Qed.
End good.

Create HintDb good.
#[export] Hint Resolve good_ret good_raise good_write : good.

(** Walk through an operation up to its read and its final [write]. *)
Ltac good_step :=
  match goal with
  | |- good_at _ _ _ (lift _ ≫= _) => apply good_bind_lift; intros
  | |- good_at _ _ _ (raise_if _ _ _ ≫= _) => apply good_bind_lift; intros ? ?%fail_if_ok
  | |- good_at _ _ _ (read ≫= _) => apply good_read; [done|]
  | |- good_at _ _ _ (if _ then _ else _) => apply good_if; intros
  | |- good_at _ _ _ (match ?x with _ => _ end) => destruct x eqn:?
  | |- good_at _ _ _ (let _ := _ in _) => cbv zeta
  end.
Ltac good_steps := repeat good_step; auto with good.

Lemma good_enqueue q d clock new_id ty p key mx sch now :
  wf_dict q d → dict_get d new_id = None →
  good_at q (Some new_id) d (enqueue q clock new_id ty p key mx sch now).
Proof.
  intros Hd Hfresh. unfold enqueue. good_steps.
  repeat match goal with H : validate_record _ = Ok _ |- _ => apply validate_record_ok in H; subst end.
  match goal with H : safe_payload _ = Ok _ |- _ => apply safe_payload_limits in H as (_ & _ & _ & Hp) end.
  bool_to_prop. apply good_write;
    [apply wf_dict_add|apply evolves_dict_add|apply adds_only_set; [apply adds_only_refl|by right]]; simpl; try done.
  - split; simpl; try done; lia.
  - intros k r Hin E. match goal with H : List.find _ _ = None |- _ =>
      apply (find_none _ _) with (x := r) in H; [by rewrite E, String.eqb_refl in H|] end.
    apply list_elem_of_In, list_elem_of_fmap. by exists (k, r).
Qed.

Lemma good_cancel_owner q d clock owner now :
  wf_dict q d → good_at q None d (cancel_owner clock owner now).
Proof.
  intros Hd. unfold cancel_owner. good_steps. destruct (_ =? 0)%Z.
  { apply good_idle. done. }
  apply good_write; [by apply wf_dict_cancel| |apply adds_only_update, Hd]. intros k r Hk.
  rewrite dict_get_update, Hk by apply Hd.
  destruct (cancel_entry _ _ k r) eqn:E; [|apply evolves_refl].
  eapply cancel_entry_ok; [|done]. by eapply wf_dict_get.
Qed.

Lemma due_records_in t d r :
  r ∈ due_records t d ↔ r ∈ dict_values d ∧ r_status r = QUEUED ∧ (r_scheduled_at r ≤ t)%Z.
Proof.
  unfold due_records. rewrite elem_of_sort_by, list_elem_of_In, filter_In, <-list_elem_of_In.
  unfold is_due. rewrite andb_true_iff, bool_decide_eq_true, Z.leb_le. done.
Qed.

Lemma dict_values_get q d r : wf_dict q d → r ∈ dict_values d → dict_get d (r_id r) = Some r.
Proof.
  intros [Hk Hr _ _] ([k r'] & -> & Hin)%list_elem_of_fmap. simpl.
  destruct (Hr _ _ Hin) as [-> _]. by apply dict_get_in.
Qed.

(** The selected job: due in the recovered registry, under its own key. *)
Lemma due_head q d t r l :
  wf_dict q d → due_records t (recover_expired d t) = r :: l →
  dict_get (recover_expired d t) (r_id r) = Some r ∧ r_status r = QUEUED ∧
  (r_scheduled_at r ≤ t)%Z ∧ record_wf r.
Proof.
  intros Hd E. assert (Hr : r ∈ due_records t (recover_expired d t)) by (rewrite E; by left).
  apply due_records_in in Hr as (Hin & Hq & Hs).
  pose proof (wf_dict_recover q d t Hd) as Hrec.
  pose proof (dict_values_get _ _ _ Hrec Hin) as Hget.
  split_and!; try done. by eapply wf_dict_get.
Qed.

Lemma good_claim q d clock w lease now : wf_dict q d → good_at q None d (claim clock w lease now).
Proof.
  intros Hd. unfold claim. good_steps.
  - apply good_write; [by apply wf_dict_recover | by eapply evolves_dict_recover|].
    apply adds_only_update, Hd.
  - match goal with H : due_records _ _ = _ :: _ |- _ =>
      destruct (due_head q _ _ _ _ Hd H) as (Hget & Hq & _ & Hr) end.
    pose proof (wf_dict_recover q d) as Hrec.
    apply good_write.
    + eapply wf_dict_replace; [by apply Hrec|done..|]. by apply set_claimed_wf.
    + eapply evolves_dict_replace_after; [by eapply evolves_dict_recover|done|].
      by apply set_claimed_evolves.
    + apply adds_only_set; [apply adds_only_update, Hd|]. left. intros Hn.
      simpl in Hn. unfold recover_expired in Hget. by rewrite dict_get_update, Hn in Hget by apply Hd.
Qed.

Lemma finish_update_ok q r t ok code u :
  record_wf r → r_status r = RUNNING → finish_update q r t ok code = Ok u →
  record_wf u ∧ evolves r u ∧ r_status u ≠ RUNNING ∧ r_fencing_token u = r_fencing_token r.
Proof.
  intros Hr Hs. pose proof (rw_progress r Hr) as Hp. rewrite Hs in Hp.
  unfold finish_update. destruct ok; [|destruct (_ <=? _)%Z eqn:E].
  - intros [= <-]. split_and!; [by apply set_unleased_wf| |done|done].
    apply set_unleased_evolves; [by rewrite Hs|done].
  - intros [= <-]. split_and!; [by apply set_unleased_wf| |done|done].
    apply set_unleased_evolves; [by rewrite Hs|done].
  - intros (delay & _ & H)%bind_result_ok. apply bind_result_ok in H as (sch & _ & [= <-]).
    apply Z.leb_gt in E. split_and!; [by apply set_unleased_wf| |done|done].
    apply set_unleased_evolves; [by rewrite Hs|done].
Qed.

Lemma good_finish q d clock id w tok ok code now :
  wf_dict q d → good_at q None d (finish q clock id w tok ok code now).
Proof.
  intros Hd. unfold finish. good_steps.
  match goal with H : dict_get d _ = Some ?r |- _ =>
    destruct (wf_dict_get _ _ _ _ Hd H) as [Hid Hr] end.
  bool_to_prop.
  match goal with H : ¬ (r_status _ ≠ RUNNING) |- _ => apply dec_stable in H end.
  match goal with H : finish_update _ _ _ _ _ = Ok _ |- _ =>
    destruct (finish_update_ok _ _ _ _ _ _ Hr ltac:(done) H) as (Hu & He & _) end.
  apply good_write; [eapply wf_dict_replace; try done; apply He| |].
  - eapply evolves_dict_replace_after; [apply evolves_dict_refl|done|done].
  - apply adds_only_set; [apply adds_only_refl|left; congruence].
Qed.

Lemma good_fail q d clock id w tok code now :
  wf_dict q d → good_at q None d (fail_job q clock id w tok code now).
Proof. intros Hd. unfold fail_job. good_step. by apply good_finish. Qed.
(** *** Purging *)

Lemma fold_del_ok q ts d :
  wf_dict q d → NoDup (r_id <$> ts) → (∀ r, r ∈ ts → dict_get d (r_id r) = Some r) →
  ∃ d', fold_result (λ d r, dict_del_item (r_id r) d (r_id r)) d ts = Ok d' ∧ wf_dict q d' ∧
    (∀ k, dict_get d' k = if decide (k ∈ r_id <$> ts) then None else dict_get d k) ∧
    length d = length d' + length ts.
Proof.
  revert d. induction ts as [|r ts IH]; intros d Hd Hnd Hin.
  - exists d. split_and!; [done|done| |simpl; lia].
    intros k. destruct (decide _); [set_solver|done].
  - csimpl in *. apply NoDup_cons in Hnd as [Hr Hnd].
    assert (Hget : dict_get d (r_id r) = Some r) by (apply Hin; by left).
    assert (Hdel : dict_del_item (r_id r) d (r_id r) = Ok (dict_del d (r_id r)))
      by (unfold dict_del_item; by rewrite Hget).
    cbn [fold_result]. rewrite Hdel. cbn [mbind result_bind].
    destruct (IH (dict_del d (r_id r))) as (d' & -> & Hd' & Hk & Hlen).
    + by apply wf_dict_del.
    + done.
    + intros r' Hr'. rewrite dict_get_del_ne; [apply Hin; by right|].
      intros E. apply Hr. rewrite E. by apply list_elem_of_fmap_2.
    + exists d'. split_and!; try done.
      * intros k. rewrite Hk, dict_get_del by apply Hd.
        destruct (decide (r_id r = k)) as [<-|].
        -- rewrite decide_False by done. by rewrite decide_True by set_solver.
        -- destruct (decide (k ∈ r_id <$> ts)); [by rewrite decide_True by set_solver|].
           by rewrite decide_False by set_solver.
      * rewrite length_dict_del in Hlen. unfold dict_mem in Hlen. rewrite Hget in Hlen.
        assert (0 < length d); [|lia]. destruct d; [done | simpl; lia].
Qed.

Lemma purge_batch_ok q d cutoff limit :
  wf_dict q d →
  NoDup (r_id <$> purge_batch cutoff limit d) ∧
  (∀ r, r ∈ purge_batch cutoff limit d →
     dict_get d (r_id r) = Some r ∧ is_terminal (r_status r) = true ∧ (r_updated_at r < cutoff)%Z).
Proof.
  intros Hd.
  assert (Hids : r_id <$> dict_values d = dict_keys d).
  { unfold dict_values, dict_keys. rewrite <-list_fmap_compose.
    apply list_fmap_ext. intros i [k r] Hi. apply (wf_rec q d Hd).
    by eapply list_elem_of_lookup_2. }
  unfold purge_batch. set (p := λ r, _ && _). split.
  - assert (Hsub : NoDup (r_id <$> sort_by purge_key (List.filter p (dict_values d)))).
    { rewrite sort_by_perm. assert (Hnd : NoDup (r_id <$> dict_values d)) by (rewrite Hids; apply Hd).
      clear Hids. induction (dict_values d) as [|r l IH]; csimpl in *; [constructor|].
      apply NoDup_cons in Hnd as [Hr Hnd]. destruct (p r); csimpl; [|by apply IH].
      apply NoDup_cons. split; [|by apply IH].
      intros (r' & Heq & Hin)%list_elem_of_fmap. apply Hr. rewrite Heq. apply list_elem_of_fmap_2.
      apply list_elem_of_In, filter_In in Hin as [Hin _]. by apply list_elem_of_In. }
    rewrite fmap_take. eapply sublist_NoDup; [exact Hsub | apply sublist_take].
  - intros r Hr. assert (Hin : r ∈ List.filter p (dict_values d)).
    { rewrite <-(elem_of_sort_by purge_key). eapply subseteq_take; done. }
    apply list_elem_of_In, filter_In in Hin as [Hin Hp]. apply list_elem_of_In in Hin.
    subst p. simpl in Hp. bool_to_prop. split_and!; try done. by eapply dict_values_get.
Qed.

Lemma good_purge q d before limit : wf_dict q d → good_at q None d (purge_terminal before limit).
Proof.
  intros Hd. unfold purge_terminal. good_steps.
  match goal with H : purge_batch ?c ?l d = _, H' : fold_result _ _ _ = Ok _ |- _ =>
    destruct (purge_batch_ok q d c l Hd) as [Hnd Hin]; rewrite H in Hnd, Hin;
    destruct (fold_del_ok q _ d Hd Hnd (λ r Hr, proj1 (Hin r Hr))) as (d' & Hf & Hd' & Hk & _);
    rewrite Hf in H'; injection H' as <-
  end.
  apply good_write; [done| |intros k Hget _; rewrite Hk; by destruct (decide _)].
  intros k r Hget. rewrite Hk.
  destruct (decide _) as [(r' & -> & Hr')%list_elem_of_fmap|]; [|rewrite Hget; apply evolves_refl].
  destruct (Hin r' Hr') as (Hg & Ht & _). congruence.
Qed.

Lemma good_leased q d clock id w tok now : wf_dict q d → good_at q None d (leased clock id w tok now).
Proof. intros Hd. unfold leased. good_steps. Qed.

Lemma good_records q d : wf_dict q d → good_at q None d records.
Proof. intros Hd. unfold records. good_steps. Qed.
(** ** The queue as a state machine *)

Inductive op : Type :=
  | OpEnqueue (clock : Z) (new_id job_type : string) (payload : pyobj) (key : string)
      (maximum_attempts : Z) (scheduled_at now : option datetime)
  | OpCancelOwner (clock : Z) (owner : string) (now : option datetime)
  | OpClaim (clock : Z) (worker_id : string) (lease : Z) (now : option datetime)
  | OpSucceed (clock : Z) (job_id worker_id : string) (token : Z) (now : option datetime)
  | OpFail (clock : Z) (job_id worker_id : string) (token : Z) (code : string) (now : option datetime)
  | OpLeased (clock : Z) (job_id worker_id : string) (token : Z) (now : option datetime)
  | OpRecords
  | OpPurge (before : datetime) (limit : Z).

(** Run an operation for its effect on the store, raised or not. *)
Definition exec (q : config) (o : op) (s : store) : store :=
  match o with
  | OpEnqueue c i t p k m sch n => post (enqueue q c i t p k m sch n) s
  | OpCancelOwner c o n => post (cancel_owner c o n) s
  | OpClaim c w l n => post (claim c w l n) s
  | OpSucceed c j w t n => post (succeed q c j w t n) s
  | OpFail c j w t e n => post (fail_job q c j w t e n) s
  | OpLeased c j w t n => post (leased c j w t n) s
  | OpRecords => post records s
  | OpPurge b l => post (purge_terminal b l) s
  end.

(** [uuid4] does not return an identifier in use. *)
Definition op_fresh (o : op) (s : store) : Prop :=
  match o with
  | OpEnqueue _ i _ _ _ _ _ _ => dict_get (jobs_of s) i = None
  | _ => True
  end.

(** The identifier under which [o] may create a job. *)
Definition op_new (o : op) : option string :=
  match o with OpEnqueue _ i _ _ _ _ _ _ => Some i | _ => None end.

Inductive steps (q : config) : store → list op → store → Prop :=
  | steps_nil s : steps q s [] s
  | steps_cons s o os s' : op_fresh o s → steps q (exec q o s) os s' → steps q s (o :: os) s'.

Lemma exec_good q o s :
  store_wf q s → op_fresh o s →
  store_wf q (exec q o s) ∧ evolves_dict (jobs_of s) (jobs_of (exec q o s)) ∧
  adds_only (op_new o) (jobs_of s) (jobs_of (exec q o s)).
Proof.
  intros Hs Hf. pose proof (store_wf_dict q s Hs) as Hd.
  destruct o; simpl in *.
  - by apply (good_enqueue q (jobs_of s)).
  - by apply (good_cancel_owner q (jobs_of s)).
  - by apply (good_claim q (jobs_of s)).
  - by apply (good_finish q (jobs_of s)).
  - by apply (good_fail q (jobs_of s)).
  - by apply (good_leased q (jobs_of s)).
  - by apply (good_records q (jobs_of s)).
  - by apply (good_purge q (jobs_of s)).
Qed.

Lemma steps_wf q s os s' : store_wf q s → steps q s os s' → store_wf q s'.
Proof.
  intros Hs H. induction H as [|s o os s' Hf _ IH]; [done|]. by apply IH, exec_good.
Qed.

(** *** The history of a fencing token *)

(** Token [t] of job [k] is spent: the job is gone, or it is at a later token,
    or it is no longer running. *)
Definition spent (k : string) (t : Z) (s : store) : Prop :=
  match dict_get (jobs_of s) k with
  | None => True
  | Some r => (t < r_fencing_token r)%Z ∨ (r_fencing_token r = t ∧ r_status r ≠ RUNNING)
  end.

Lemma spent_exec q k t o s :
  store_wf q s → op_fresh o s → op_new o ≠ Some k → spent k t s → spent k t (exec q o s).
Proof.
  intros Hs Hf Hn Hsp. destruct (exec_good q o s Hs Hf) as (_ & He & Ha).
  unfold spent in *. specialize (He k). specialize (Ha k).
  destruct (dict_get (jobs_of s) k) as [r|]; [|by rewrite Ha].
  specialize (He r eq_refl). destruct (dict_get (jobs_of (exec q o s)) k) as [r'|]; [|done].
  pose proof (ev_fencing _ _ He). destruct Hsp as [?|[Ht Hst]]; [left; lia|].
  destruct (decide (r_fencing_token r' = t)) as [E|]; [|left; lia].
  right. split; [done|]. intros Hr. destruct Hst.
  rewrite <-(ev_lease _ _ He); [done|congruence|done].
Qed.

Lemma spent_steps q k t os s s' :
  store_wf q s → steps q s os s' → Forall (λ o, op_new o ≠ Some k) os →
  spent k t s → spent k t s'.
Proof.
  intros Hs H. revert Hs. induction H as [|s o os s' Hf _ IH]; intros Hs Hall Hsp; [done|].
  apply Forall_cons in Hall as [Hn Hall].
  apply IH; [by apply exec_good|done|]. by apply spent_exec.
Qed.

(** *** What [finish] does, on every branch *)

Lemma finish_run q clock id w tok ok code now s t :
  store_wf q s → fullmatch WORKER_ID w = true → (1 ≤ tok)%Z → timestamp_of clock now = Ok t →
  finish q clock id w tok ok code now s =
  match dict_get (jobs_of s) id with
  | None => (fail JobQueueError "job does not exist", s)
  | Some r =>
      if bool_decide (r_status r = RUNNING) && bool_decide (r_lease_owner r = Some w) then
        if (r_fencing_token r =? tok)%Z then
          if holds_lease r w tok t then
            match finish_update q r t ok code with
            | Ok u => (Ok u, Some (Registry REGISTRY_VERSION (Some (dict_sort (dict_set (jobs_of s) id u)))))
            | Err e => (Err e, s)
            end
          else (fail JobQueueError "job lease has expired", s)
        else (fail JobQueueError "job fencing token is stale", s)
      else (fail JobQueueError "worker does not own the running job", s)
  end.
Proof.
  intros Hs Hw Ht Hts. unfold finish, validate_worker_id, validate_re, check_fencing.
  rewrite Hw, run_bind_lift, (proj2 (Z.ltb_ge _ _)) by lia. simpl fail_if.
  rewrite run_bind_lift, Hts, run_bind_lift, run_bind, (read_wf q) by done.
  destruct (dict_get (jobs_of s) id) as [r|]; [|done].
  unfold raise_if. rewrite run_bind_lift. unfold holds_lease.
  destruct (decide (r_status r = RUNNING)) as [Hr|Hr];
    [rewrite (bool_decide_eq_false_2 (r_status r ≠ RUNNING)), (bool_decide_eq_true_2 (_ = RUNNING))
       by (done || by intros []) | rewrite (bool_decide_eq_true_2 (r_status r ≠ RUNNING)),
       (bool_decide_eq_false_2 (_ = RUNNING)) by done; done].
  destruct (decide (r_lease_owner r = Some w)) as [Ho|Ho];
    [rewrite (bool_decide_eq_false_2 (_ ≠ Some w)), (bool_decide_eq_true_2 (_ = Some w))
       by (done || by intros []) | rewrite (bool_decide_eq_true_2 (_ ≠ Some w)),
       (bool_decide_eq_false_2 (_ = Some w)) by done; done].
  simpl. rewrite run_bind_lift. destruct (r_fencing_token r =? tok)%Z; simpl; [|done].
  rewrite run_bind_lift. destruct (r_lease_expires_at r) as [e|]; [|done].
  rewrite Z.ltb_antisym. destruct (e <=? t)%Z; simpl; [done|].
  rewrite run_bind_lift. by destruct (finish_update q r t ok code).
Qed.

(** ** Properties *)

(** C12: from an empty queue, after any sequence of operations (raised or not)
    the registry is readable and well formed: distinct ids and idempotency
    keys, at most [maximum_records] jobs, attempts within their maximum, the
    fencing token equal to the number of claims, and a lease exactly on the
    running jobs. *)
Theorem reachable_registry_wf q base maxd maxr os s :
  new_queue base maxd maxr = Ok q → steps q None os s →
  store_wf q s ∧ read s = (Ok (jobs_of s), s) ∧ wf_dict q (jobs_of s).
Proof.
  unfold new_queue. intros (_ & _ & H)%bind_result_ok Hsteps.
  apply bind_result_ok in H as (_ & _ & H). apply bind_result_ok in H as ([] & Hm & Hq).
  injection Hq as Hq. subst q. apply fail_if_ok in Hm. bool_to_prop.
  assert (Hwf : store_wf (Config base maxd maxr) s).
  { eapply steps_wf; [|done]. simpl. lia. }
  split_and!; [done | by eapply read_wf | by apply store_wf_dict].
Qed.

(** A spent token cannot finish its job any more: the call raises and writes nothing. *)
Lemma spent_finish q k tok s clock w ok code now :
  store_wf q s → spent k tok s →
  ∃ e, finish q clock k w tok ok code now s = (Err e, s).
Proof.
  intros Hs Hsp.
  destruct (fullmatch WORKER_ID w) eqn:Hw.
  2:{ unfold finish, validate_worker_id, validate_re. rewrite Hw. by eexists. }
  destruct (decide (1 ≤ tok)%Z) as [Ht|Ht].
  2:{ unfold finish, validate_worker_id, validate_re, check_fencing. rewrite Hw, run_bind_lift.
      rewrite (proj2 (Z.ltb_lt _ _)) by lia. by eexists. }
  destruct (timestamp_of clock now) as [t|e] eqn:Hts.
  2:{ unfold finish, validate_worker_id, validate_re, check_fencing. rewrite Hw, run_bind_lift.
      rewrite (proj2 (Z.ltb_ge _ _)) by lia. simpl fail_if.
      rewrite run_bind_lift, Hts, run_bind_lift. by eexists. }
  rewrite (finish_run q clock k w tok ok code now s t) by done. unfold spent in Hsp.
  destruct (dict_get (jobs_of s) k) as [r|]; [|by eexists].
  destruct (decide (r_status r = RUNNING)) as [Hr|Hr];
    [|rewrite (bool_decide_eq_false_2 (_ = RUNNING)) by done; by eexists].
  destruct (_ && _); [|by eexists].
  rewrite (proj2 (Z.eqb_neq _ _)); [by eexists|]. destruct Hsp as [?|[_ ?]]; [lia|done].
Qed.

Lemma finish_inv q clock id w tok ok code now s u s' :
  store_wf q s → finish q clock id w tok ok code now s = (Ok u, s') →
  ∃ t r, timestamp_of clock now = Ok t ∧ dict_get (jobs_of s) id = Some r ∧
    holds_lease r w tok t = true ∧ r_status r = RUNNING ∧ r_fencing_token r = tok ∧
    finish_update q r t ok code = Ok u ∧
    s' = Some (Registry REGISTRY_VERSION (Some (dict_sort (dict_set (jobs_of s) id u)))).
Proof.
  intros Hs H. pose proof H as Hrun.
  unfold finish, validate_worker_id, validate_re, check_fencing in H.
  destruct (fullmatch WORKER_ID w) eqn:Hw; [|done]. rewrite run_bind_lift in H.
  destruct (tok <? 1)%Z eqn:Ht; [done|]. apply Z.ltb_ge in Ht. rewrite run_bind_lift in H. simpl in H.
  destruct (timestamp_of clock now) as [t|] eqn:Hts; [|done]. clear H.
  rewrite (finish_run q clock id w tok ok code now s t) in Hrun by done.
  destruct (dict_get (jobs_of s) id) as [r|]; [|done].
  destruct (_ && _) eqn:E1; [|done]. destruct (_ =? _)%Z eqn:E2; [|done].
  destruct (holds_lease r w tok t) eqn:E3; [|done].
  destruct (finish_update q r t ok code) eqn:E4; [|done]. simplify_eq.
  bool_to_prop. exists t, r. done.
Qed.

(** C11: a fencing token finishes its job at most once.  After a successful
    [succeed] or [fail] with token [tok], whatever operations follow (the job
    is retried, re-claimed, cancelled, purged), any later completion that
    presents [tok] raises and leaves the registry as it is. *)
Theorem token_completes_once q s clock id w tok ok code now u s1 os s2 :
  store_wf q s → finish q clock id w tok ok code now s = (Ok u, s1) →
  steps q s1 os s2 → Forall (λ o, op_new o ≠ Some id) os →
  ∀ clock' w' ok' code' now', ∃ e, finish q clock' id w' tok ok' code' now' s2 = (Err e, s2).
Proof.
  intros Hs Hfin Hsteps Hav clock' w' ok' code' now'.
  pose proof (good_finish q (jobs_of s) clock id w tok ok code now (store_wf_dict q s Hs) s Hs eq_refl)
    as (Hs1 & _). unfold post in Hs1. rewrite Hfin in Hs1. simpl in Hs1.
  apply spent_finish; [by eapply steps_wf|]. eapply spent_steps; [done..|].
  apply (finish_inv q) in Hfin as (t & r & _ & Hg & _ & Hrun & Htok & Hu & ->); [|done].
  destruct (wf_dict_get _ _ _ _ (store_wf_dict q s Hs) Hg) as [_ Hr].
  destruct (finish_update_ok _ _ _ _ _ _ Hr Hrun Hu) as (_ & _ & Hst & Hf).
  unfold spent. simpl. rewrite dict_get_sort, dict_get_set_eq; [right; split; [congruence|done]|].
  apply dict_wf_set, (wf_keys q), store_wf_dict, Hs.
Qed.

(** *** What [claim] does *)

Lemma claim_run q clock w lease now s t :
  store_wf q s → fullmatch WORKER_ID w = true → (second ≤ lease ≤ hour)%Z →
  timestamp_of clock now = Ok t →
  claim clock w lease now s =
  let rec := recover_expired (jobs_of s) t in
  let stored d := Some (Registry REGISTRY_VERSION (Some (dict_sort d))) in
  match due_records t rec with
  | [] => (Ok None, stored rec)
  | r :: _ =>
      match dt_add t lease with
      | Ok e => (Ok (Some (set_claimed r w t e)), stored (dict_set rec (r_id r) (set_claimed r w t e)))
      | Err e => (Err e, s)
      end
  end.
Proof.
  intros Hs Hw Hl Ht. unfold claim, validate_worker_id, validate_re.
  rewrite Hw, run_bind_lift. unfold raise_if.
  rewrite !(proj2 (Z.leb_le _ _)) by lia. simpl fail_if.
  rewrite run_bind_lift, Ht, run_bind_lift, run_bind, (read_wf q) by done. cbv zeta.
  destruct (due_records t _) as [|r l]; [done|].
  rewrite run_bind_lift. by destruct (dt_add t lease).
Qed.

Lemma claim_inv q clock w lease now s o s' :
  store_wf q s → claim clock w lease now s = (Ok o, s') →
  ∃ t, timestamp_of clock now = Ok t ∧
    let rec := recover_expired (jobs_of s) t in
    match o with
    | None => (∀ k r, dict_get rec k = Some r → is_due t r = false) ∧
              ∀ k, dict_get (jobs_of s') k = dict_get rec k
    | Some c => ∃ r, dict_get rec (r_id r) = Some r ∧ is_due t r = true ∧
        (∀ k r', dict_get rec k = Some r' → is_due t r' = true →
           ord_leb (claim_key r) (claim_key r') = true) ∧
        c = set_claimed r w t (t + lease) ∧
        ∀ k, dict_get (jobs_of s') k = if decide (r_id r = k) then Some c else dict_get rec k
    end.
Proof.
  intros Hs H. pose proof H as Hrun. unfold claim, validate_worker_id, validate_re in H.
  destruct (fullmatch WORKER_ID w) eqn:Hw; [|done]. rewrite run_bind_lift in H.
  unfold raise_if in H. destruct (negb _) eqn:Hl; [done|]. rewrite run_bind_lift in H. simpl in H.
  destruct (timestamp_of clock now) as [t|] eqn:Ht; [|done]. clear H. bool_to_prop.
  rewrite (claim_run q clock w lease now s t) in Hrun by done. cbv zeta in Hrun.
  exists t. split; [done|]. cbv zeta.
  pose proof (store_wf_dict q s Hs) as Hd. pose proof (wf_dict_recover q _ t Hd) as Hrec.
  assert (Hdue : ∀ k r, dict_get (recover_expired (jobs_of s) t) k = Some r →
    is_due t r = true → r ∈ due_records t (recover_expired (jobs_of s) t)).
  { intros k r Hk Hdue. apply due_records_in. unfold is_due in Hdue. bool_to_prop.
    split_and!; [|done|done]. apply list_elem_of_fmap. exists (k, r). split; [done|].
    by apply dict_get_Some_in. }
  destruct (due_records t _) as [|r l] eqn:E.
  - injection Hrun as <- <-. simpl. split.
    + intros k r Hk. destruct (is_due t r) eqn:E'; [|done]. specialize (Hdue k r Hk E'). set_solver.
    + intros k. apply dict_get_sort, Hrec.
  - destruct (due_head q _ _ _ _ Hd E) as (Hget & Hq & Hsch & _).
    destruct (dt_add t lease) as [e|] eqn:He; [|done]. apply dt_add_ok in He as [-> _].
    injection Hrun as <- <-. exists r. split_and!; [done| | |done|].
    + unfold is_due. rewrite Hq. simpl. by apply Z.leb_le.
    + intros k r' Hk Hd'. unfold due_records in E. apply sort_by_head in E as [_ Hmin].
      apply Hmin. rewrite list_elem_of_In, filter_In, <-list_elem_of_In. split; [|done].
      apply list_elem_of_fmap. exists (k, r'). split; [done|]. by apply dict_get_Some_in.
    + intros k. simpl. rewrite dict_get_sort by apply dict_wf_set, Hrec. apply dict_get_set.
Qed.

(** What the documentation of the queue says of a claim at time [t]. *)

(** A running job whose lease has run out at [t]. *)
Definition lease_over (t : Z) (r : JobRecord) : Prop := r_status r = RUNNING ∧ ∃ e, r_lease_expires_at r = Some e ∧ (e ≤ t)%Z.

(** It waits again, from [t] on, or has failed if that was its last attempt; nothing else of it changes. *)
Definition lease_ended (t : Z) (r r' : JobRecord) : Prop :=
  r_id r' = r_id r ∧ r_type r' = r_type r ∧ r_idempotency_key r' = r_idempotency_key r ∧ r_payload r' = r_payload r ∧
  r_attempts r' = r_attempts r ∧ r_maximum_attempts r' = r_maximum_attempts r ∧ r_created_at r' = r_created_at r ∧
  r_fencing_token r' = r_fencing_token r ∧
  ((r_attempts r < r_maximum_attempts r)%Z → r_status r' = QUEUED) ∧ ((r_maximum_attempts r ≤ r_attempts r)%Z → r_status r' = FAILED) ∧
  r_scheduled_at r' = t ∧ r_updated_at r' = t ∧ r_lease_owner r' = None ∧ r_lease_expires_at r' = None ∧
  r_error_code r' = Some "job.lease_expired".

(** [rec] are the jobs [d] once every lease that is over has ended. *)
Definition leases_ended (t : Z) (d : dict string JobRecord) (rec : string → option JobRecord) : Prop :=
  ∀ k, match dict_get d k with
       | None => rec k = None
       | Some r => ∃ r', rec k = Some r' ∧ (lease_over t r → lease_ended t r r') ∧ (¬ lease_over t r → r' = r)
       end.

Definition may_start (t : Z) (r : JobRecord) : Prop := r_status r = QUEUED ∧ (r_scheduled_at r ≤ t)%Z.

(** First the job that was to start first, then the one that was made first, then by id. *)
Definition not_after (r r' : JobRecord) : Prop :=
  (r_scheduled_at r < r_scheduled_at r')%Z ∨
  (r_scheduled_at r = r_scheduled_at r' ∧
     ((r_created_at r < r_created_at r')%Z ∨ (r_created_at r = r_created_at r' ∧ String.leb (r_id r) (r_id r') = true))).

Definition leased_to (worker : string) (t e : Z) (r c : JobRecord) : Prop :=
  r_id c = r_id r ∧ r_type c = r_type r ∧ r_idempotency_key c = r_idempotency_key r ∧ r_payload c = r_payload r ∧
  r_maximum_attempts c = r_maximum_attempts r ∧ r_scheduled_at c = r_scheduled_at r ∧ r_created_at c = r_created_at r ∧
  r_status c = RUNNING ∧ r_attempts c = (r_attempts r + 1)%Z ∧ r_fencing_token c = (r_fencing_token r + 1)%Z ∧
  r_updated_at c = t ∧ r_lease_owner c = Some worker ∧ r_lease_expires_at c = Some e ∧ r_error_code c = None.

Lemma recover_leases q d t : wf_dict q d → leases_ended t d (dict_get (recover_expired d t)).
Proof.
  intros Hd k. unfold recover_expired. rewrite dict_get_update by apply Hd. destruct (dict_get d k) as [r|]; [|done].
  unfold recover_entry, lease_over. destruct (r_status r) eqn:Es; try (exists r; by split_and!; [|intros [? _]|]).
  destruct (r_lease_expires_at r) as [e|] eqn:Ee; [|exists r; by split_and!; [|intros [_ (? & ? & _)]|]].
  destruct (e <=? t)%Z eqn:El; apply Z.leb_le in El || apply Z.leb_gt in El.
  - eexists. split; [done|]. split; [|intros Hno; destruct Hno; split; [done|by exists e]]. intros _. unfold lease_ended, set_unleased. simpl.
    split_and!; try done; intros Ha; [rewrite (proj2 (Z.leb_gt _ _)) by lia|rewrite (proj2 (Z.leb_le _ _)) by lia]; done.
  - exists r. split; [done|]. split; [|done]. intros [_ (e' & [= <-] & He)]. lia.
Qed.

Lemma is_due_spec t r : is_due t r = true ↔ may_start t r.
Proof. unfold is_due, may_start. rewrite andb_true_iff, bool_decide_eq_true, Z.leb_le. done. Qed.

Lemma claim_key_spec r r' : ord_leb (claim_key r) (claim_key r') = true → not_after r r'.
Proof.
  unfold claim_key, not_after. unfold ord_leb at 1. cbn. unfold pair_leb. cbn. destruct (decide _) as [[= -> ->]|Hne]; [auto|].
  unfold ord_leb. cbn. unfold pair_leb. cbn. destruct (decide (r_scheduled_at r = r_scheduled_at r')) as [Hs|Hs]; intros Hle%Z.leb_le; [|left; lia].
  right. split; [done|]. left. assert (r_created_at r ≠ r_created_at r') by (intros Hc; apply Hne; by rewrite Hs, Hc). lia.
Qed.

(** C13: [claim] takes the first job that may start.  On a well-formed registry it first ends every lease
    that is over, which queues the running job again or, at its last attempt, fails it. Then, if queued jobs are scheduled by now,
    it returns the one that comes first by the time it is scheduled for, then by the time it was made, then by id, running, with the next fencing token, one
    attempt more and a lease of [lease] for the worker, and stores it, and it changes no other
    job; if there are none it returns nothing. *)
Theorem claim_least_due q clock w lease now s o s' :
  store_wf q s → claim clock w lease now s = (Ok o, s') →
  ∃ t rec, timestamp_of clock now = Ok t ∧ leases_ended t (jobs_of s) rec ∧
    match o with
    | None => (∀ k r, rec k = Some r → ¬ may_start t r) ∧ ∀ k, dict_get (jobs_of s') k = rec k
    | Some c => ∃ r, rec (r_id r) = Some r ∧ may_start t r ∧ (∀ k r', rec k = Some r' → may_start t r' → not_after r r') ∧
        leased_to w t (t + lease) r c ∧
        ∀ k, dict_get (jobs_of s') k = if decide (r_id c = k) then Some c else rec k
    end.
Proof.
  intros Hs Hc. destruct (claim_inv q clock w lease now s o s' Hs Hc) as (t & Ht & Ho). cbv zeta in Ho.
  exists t, (dict_get (recover_expired (jobs_of s) t)). split; [done|]. split; [by apply (recover_leases q), store_wf_dict|]. destruct o as [c|].
  - destruct Ho as (r & Hr & Hdue & Hmin & -> & Hk). exists r. split; [done|]. split; [by apply is_due_spec|]. split; [|done].
    intros k r' Hr' Hd. by apply claim_key_spec, (Hmin k), is_due_spec.
  - destruct Ho as [Hnone Hk]. split; [|done]. intros k r Hr Hd%is_due_spec. by rewrite (Hnone k r Hr) in Hd.
Qed.

(** A claim supersedes every earlier token of its job: once a job has been
    claimed with token [r_fencing_token c], a completion presenting a smaller
    token raises and changes nothing, now and after any further operations. *)
Theorem claim_fences_out_older_tokens q s clock w lease now c s1 os s2 tok :
  store_wf q s → claim clock w lease now s = (Ok (Some c), s1) →
  steps q s1 os s2 → Forall (λ o, op_new o ≠ Some (r_id c)) os → (tok < r_fencing_token c)%Z →
  ∀ clock' w' ok' code' now', ∃ e, finish q clock' (r_id c) w' tok ok' code' now' s2 = (Err e, s2).
Proof.
  intros Hs Hc Hsteps Hav Htok clock' w' ok' code' now'.
  pose proof (good_claim q (jobs_of s) clock w lease now (store_wf_dict q s Hs) s Hs eq_refl)
    as (Hs1 & _). unfold post in Hs1. rewrite Hc in Hs1. simpl in Hs1.
  apply spent_finish; [by eapply steps_wf|]. eapply spent_steps; [done..|].
  apply (claim_inv q) in Hc as (t & _ & r & _ & _ & _ & -> & Hk); [|done].
  unfold spent. simpl in *. rewrite Hk, decide_True by done. left. done.
Qed.

(** *** What [enqueue] does *)

Lemma find_key_some q (d : dict string JobRecord) k r key :
  wf_dict q d → dict_get d k = Some r → r_idempotency_key r = key →
  List.find (λ r, String.eqb (r_idempotency_key r) key) (dict_values d) = Some r.
Proof.
  intros Hd Hk <-.
  destruct (List.find _ _) as [r'|] eqn:E.
  - apply find_some in E as [Hin E]. apply String.eqb_eq in E.
    apply list_elem_of_In, (dict_values_get q) in Hin; [|done].
    assert (r_id r' = k) as Hid.
    { eapply (wf_idem q d Hd); [by apply dict_get_Some_in|by apply dict_get_Some_in|done]. }
    congruence.
  - apply find_none with (x := r) in E; [by rewrite String.eqb_refl in E|].
    apply list_elem_of_In, list_elem_of_fmap. exists (k, r). split; [done|].
    by apply dict_get_Some_in.
Qed.

Lemma find_key_none (d : dict string JobRecord) key :
  (∀ k r, dict_get d k = Some r → r_idempotency_key r ≠ key) → dict_wf d →
  List.find (λ r, String.eqb (r_idempotency_key r) key) (dict_values d) = None.
Proof.
  intros Hno Hd. destruct (List.find _ _) as [r|] eqn:E; [|done].
  apply find_some in E as [Hin E]. apply String.eqb_eq in E.
  apply list_elem_of_In, list_elem_of_fmap in Hin as ([k r'] & -> & Hin).
  destruct (Hno k r'); [by apply dict_get_in|done].
Qed.

(** The record a first [enqueue] stores. *)
Definition new_record (id ty key : string) (j : json) (mx t due : Z) : JobRecord :=
  {| r_id := id; r_type := ty; r_idempotency_key := key; r_payload := j; r_status := QUEUED;
     r_attempts := 0; r_maximum_attempts := mx; r_scheduled_at := due; r_created_at := t;
     r_updated_at := t; r_lease_owner := None; r_lease_expires_at := None;
     r_fencing_token := 0; r_error_code := None |}.

Lemma enqueue_run q clock id ty p key mx sch now s j t due :
  store_wf q s → fullmatch JOB_TYPE ty = true → fullmatch IDEMPOTENCY_KEY key = true →
  safe_payload p = Ok j → timestamp_of clock now = Ok t →
  as_utc (or_default sch (Aware t)) = Ok due → (1 ≤ mx ≤ 32)%Z →
  enqueue q clock id ty p key mx sch now s =
  match List.find (λ r, String.eqb (r_idempotency_key r) key) (dict_values (jobs_of s)) with
  | Some r =>
      if String.eqb (r_type r) ty && json_eqb (r_payload r) j then (Ok r, s)
      else (fail JobQueueError "job idempotency key is bound to another operation", s)
  | None =>
      if (maximum_records q <=? Z.of_nat (length (jobs_of s)))%Z
      then (fail JobQueueCapacityError "job queue capacity is exhausted", s)
      else let r := new_record id ty key j mx t due in
           (Ok r, Some (Registry REGISTRY_VERSION (Some (dict_sort (dict_set (jobs_of s) id r)))))
  end.
Proof.
  intros Hs Hty Hkey Hp Ht Hdue Hmx.
  unfold enqueue, validate_job_type, validate_idempotency_key, validate_re.
  rewrite Hty, run_bind_lift, Hkey, run_bind_lift, Hp, run_bind_lift, Ht, run_bind_lift.
  rewrite Hdue, run_bind_lift. unfold raise_if. rewrite !(proj2 (Z.leb_le _ _)) by lia.
  simpl fail_if. rewrite run_bind_lift, run_bind, (read_wf q) by done.
  destruct (List.find _ _) as [r|].
  - destruct (String.eqb (r_type r) ty); simpl; [|done]. by destruct (json_eqb _ _).
  - rewrite run_bind_lift. destruct (_ <=? _)%Z; [done|]. simpl fail_if. cbv iota beta.
    rewrite run_bind_lift, validate_record_wf; [done|].
    apply safe_payload_limits in Hp as (_ & _ & _ & Hp). by split; simpl; try done; lia.
Qed.

(** Enqueue is idempotent in its key.  With valid arguments on a
    well-formed registry: a known key with the same type and payload returns
    the job it is bound to and writes nothing; a known key with another type
    or payload, and a new key at capacity, raise and write nothing; a new key
    below capacity stores exactly one new queued job under the fresh id. *)
Theorem enqueue_by_key q clock id ty p key mx sch now s j t due :
  store_wf q s → fullmatch JOB_TYPE ty = true → fullmatch IDEMPOTENCY_KEY key = true →
  safe_payload p = Ok j → timestamp_of clock now = Ok t →
  as_utc (or_default sch (Aware t)) = Ok due → (1 ≤ mx ≤ 32)%Z →
  let '(r, s') := enqueue q clock id ty p key mx sch now s in
  (∀ k old, dict_get (jobs_of s) k = Some old → r_idempotency_key old = key →
     s' = s ∧ r = if String.eqb (r_type old) ty && json_eqb (r_payload old) j then Ok old
                  else fail JobQueueError "job idempotency key is bound to another operation") ∧
  ((∀ k old, dict_get (jobs_of s) k = Some old → r_idempotency_key old ≠ key) →
     if (maximum_records q <=? Z.of_nat (length (jobs_of s)))%Z
     then s' = s ∧ r = fail JobQueueCapacityError "job queue capacity is exhausted"
     else r = Ok (new_record id ty key j mx t due) ∧
          ∀ k, dict_get (jobs_of s') k =
               if decide (id = k) then Some (new_record id ty key j mx t due) else dict_get (jobs_of s) k).
Proof.
  intros Hs Hty Hkey Hp Ht Hdue Hmx. pose proof (store_wf_dict q s Hs) as Hd.
  destruct (enqueue q clock id ty p key mx sch now s) as [r s'] eqn:Hrun.
  rewrite (enqueue_run q clock id ty p key mx sch now s j t due) in Hrun by done.
  split.
  - intros k old Hk Hok. rewrite (find_key_some q _ k old key) in Hrun by done.
    by destruct (_ && _); injection Hrun as <- <-.
  - intros Hno. rewrite (find_key_none _ key Hno) in Hrun by apply Hd.
    destruct (_ <=? _)%Z; injection Hrun as <- <-; [done|]. split; [done|]. intros k. simpl.
    rewrite dict_get_sort by apply dict_wf_set, Hd. apply dict_get_set.
Qed.

(** *** Retry delays *)

Lemma retry_delay_eq q a :
  (0 < base_retry_delay q)%Z → (1 ≤ a ≤ 31)%Z → (base_retry_delay q * 2 ^ 30 ≤ TD_MAX)%Z →
  retry_delay q a = Ok (Z.min (base_retry_delay q * 2 ^ (a - 1)) (maximum_retry_delay q)).
Proof.
  intros Hb Ha Hmax. unfold retry_delay, td_mul_pow2.
  rewrite (proj2 (Z.leb_le 0 _)) by lia.
  assert (Hle : (2 ^ (a - 1) ≤ 2 ^ 30)%Z) by (apply Z.pow_le_mono_r; lia).
  assert (Hpos : (0 < 2 ^ (a - 1))%Z) by (apply Z.pow_pos_nonneg; lia).
  assert (Hr : td_in_range (base_retry_delay q * 2 ^ (a - 1)) = true).
  { unfold td_in_range. apply andb_true_iff. split; apply Z.leb_le; [|nia].
    transitivity 0%Z; [done|nia]. }
  by rewrite Hr.
Qed.

(** The retry back-off is exponential and capped.  For a base delay of at
    most 22 hours, the delay after the [a]-th attempt of a job that may still
    be retried is [min(base * 2^(a-1), maximum)]: it never overflows, lies
    between the base and the maximum, and never decreases with [a]. *)
Theorem retry_delay_bounded q base maxd maxr a b :
  new_queue base maxd maxr = Ok q → (base ≤ 22 * hour)%Z → (1 ≤ a ≤ b)%Z → (b < 32)%Z →
  ∃ da db, retry_delay q a = Ok da ∧ retry_delay q b = Ok db ∧
    da = Z.min (base * 2 ^ (a - 1)) maxd ∧ (base ≤ da ≤ db)%Z ∧ (db ≤ maxd)%Z.
Proof.
  unfold new_queue. intros ([] & Hb & H)%bind_result_ok Hbase Ha Hb32.
  apply bind_result_ok in H as ([] & Hm & H). apply bind_result_ok in H as (_ & _ & Hq).
  injection Hq as Hq. subst q. apply fail_if_ok in Hb, Hm. bool_to_prop.
  assert (Hover : (base * 2 ^ 30 ≤ TD_MAX)%Z).
  { transitivity (22 * hour * 2 ^ 30)%Z; [nia | done]. }
  rewrite !retry_delay_eq by (simpl; lia). simpl.
  do 2 eexists. split_and!; [done|done|done|..]; [| |lia].
  - assert (0 < 2 ^ (a - 1))%Z by (apply Z.pow_pos_nonneg; lia). nia.
  - assert (2 ^ (a - 1) ≤ 2 ^ (b - 1))%Z by (apply Z.pow_le_mono_r; lia). nia.
Qed.

(** The bound on the base delay matters: the product is formed before [min],
    so with a base of 23 hours the 31st retry raises instead of being capped. *)
Lemma retry_delay_overflow :
  retry_delay (Config (23 * hour) (24 * hour) 1) 31 =
  fail OverflowErr "days magnitude exceeds the range of timedelta".
Proof. reflexivity. Qed.

(** *** What [cancel_owner] and [purge_terminal] do *)

Lemma filter_none_update (d : dict string JobRecord) (f : string → JobRecord → option JobRecord) :
  dict_wf d →
  length (List.filter (λ kv, match f kv.1 kv.2 with Some _ => true | None => false end) d) = 0 →
  ∀ k r, dict_get d k = Some r → f k r = @None JobRecord.
Proof.
  intros Hd Hl k r Hk. destruct (f k r) eqn:E; [|done].
  assert (Hin : (k, r) ∈ List.filter (λ kv, match f kv.1 kv.2 with Some _ => true | None => false end) d).
  { rewrite list_elem_of_In, filter_In, <-list_elem_of_In. simpl. rewrite E.
    split; [by apply dict_get_Some_in | done]. }
  apply nil_length_inv in Hl. rewrite Hl in Hin. set_solver.
Qed.

(** [cancel_owner] is exact.  On a well-formed registry it fails, with
    code [job.owner_inactive] and the lease cleared, every queued or running
    job whose type lies in the owner's namespace [owner.], leaves every other
    job as it was, and reports how many it failed. *)
Theorem cancel_owner_exact q clock owner now s n s' :
  store_wf q s → cancel_owner clock owner now s = (Ok n, s') →
  ∃ t, timestamp_of clock now = Ok t ∧
  let hit r := is_live (r_status r) && startswith (r_type r) (owner +:+ ".") in
  n = Z.of_nat (length (List.filter (λ kv, hit kv.2) (jobs_of s))) ∧
  ∀ k, dict_get (jobs_of s') k =
       match dict_get (jobs_of s) k with
       | Some r => Some (if hit r then set_unleased r FAILED (r_scheduled_at r) t (Some "job.owner_inactive")
                         else r)
       | None => None
       end.
Proof.
  intros Hs. pose proof (store_wf_dict q s Hs) as Hd. unfold cancel_owner.
  unfold owner_job_prefix, validate_re. destruct (fullmatch OWNER owner); [|done].
  cbn [mbind result_bind]. rewrite run_bind_lift.
  destruct (timestamp_of clock now) as [t|]; [|done].
  rewrite run_bind_lift, run_bind, (read_wf q) by done. cbv zeta.
  set (pre := owner +:+ "."). set (f := cancel_entry pre t).
  assert (Hhit : ∀ k r, match f k r with Some _ => true | None => false end =
                        is_live (r_status r) && startswith (r_type r) pre).
  { intros k r. unfold f, cancel_entry. destruct (is_live _), (startswith _ _); done. }
  assert (Hf : ∀ k r, match f k r with Some w => w | None => r end =
    if is_live (r_status r) && startswith (r_type r) pre
    then set_unleased r FAILED (r_scheduled_at r) t (Some "job.owner_inactive") else r).
  { intros k r. unfold f, cancel_entry. destruct (is_live _), (startswith _ _); done. }
  assert (Hlen : List.filter (λ kv, match f kv.1 kv.2 with Some _ => true | None => false end) (jobs_of s)
    = List.filter (λ kv, is_live (r_status kv.2) && startswith (r_type kv.2) pre) (jobs_of s)).
  { apply filter_ext. intros [k r]. apply Hhit. }
  rewrite Hlen. intros Hrun. exists t. split; [done|]. cbv zeta.
  destruct (Z.of_nat _ =? 0)%Z eqn:E; injection Hrun as <- <-; (split; [done|]); intros k.
  - apply Z.eqb_eq in E. rewrite <-Hlen in E.
    destruct (dict_get (jobs_of s) k) as [r|] eqn:Hk; [|done]. rewrite <-(Hf k r).
    rewrite (filter_none_update (jobs_of s) f) by (done || apply Hd || lia). done.
  - simpl. rewrite dict_get_sort by apply dict_wf_update, Hd. rewrite dict_get_update by apply Hd.
    destruct (dict_get (jobs_of s) k) as [r|]; [|done]. by rewrite Hf.
Qed.

(** [purge_terminal] removes at most [limit] jobs, each of them terminal
    and last updated before the cutoff, reports their number, and keeps every
    other job unchanged; it removes all such jobs when they fit in the limit. *)
Theorem purge_terminal_bounded q before limit s n s' :
  store_wf q s → purge_terminal before limit s = (Ok n, s') →
  ∃ cutoff removed, as_utc before = Ok cutoff ∧ n = Z.of_nat (length removed) ∧ (n ≤ limit)%Z ∧
    length (jobs_of s) = length (jobs_of s') + length removed ∧
    (∀ k, k ∈ removed → ∃ r, dict_get (jobs_of s) k = Some r ∧
       is_terminal (r_status r) = true ∧ (r_updated_at r < cutoff)%Z) ∧
    (∀ k, dict_get (jobs_of s') k = if decide (k ∈ removed) then None else dict_get (jobs_of s) k) ∧
    ((n < limit)%Z → ∀ k r, dict_get (jobs_of s) k = Some r → is_terminal (r_status r) = true →
       (r_updated_at r < cutoff)%Z → k ∈ removed).
Proof.
  intros Hs. pose proof (store_wf_dict q s Hs) as Hd. unfold purge_terminal.
  destruct (as_utc before) as [cutoff|]; [|done]. rewrite run_bind_lift. unfold raise_if.
  destruct (negb _) eqn:Hl; [done|]. rewrite run_bind_lift. simpl fail_if. cbv iota beta.
  bool_to_prop. rewrite run_bind, (read_wf q) by done. cbv zeta.
  destruct (purge_batch_ok q (jobs_of s) cutoff limit Hd) as [Hnd Hin].
  destruct (fold_del_ok q _ _ Hd Hnd (λ r Hr, proj1 (Hin r Hr))) as (d' & Hf & Hd' & Hk & Hlen).
  set (batch := purge_batch cutoff limit (jobs_of s)) in *.
  assert (Hcap : (Z.of_nat (length batch) ≤ limit)%Z).
  { subst batch. unfold purge_batch. rewrite length_take. lia. }
  assert (Hall : (Z.of_nat (length batch) < limit)%Z → ∀ k r, dict_get (jobs_of s) k = Some r →
    is_terminal (r_status r) = true → (r_updated_at r < cutoff)%Z → k ∈ r_id <$> batch).
  { intros Hlt k r Hg Ht Hu. destruct (wf_dict_get _ _ _ _ Hd Hg) as [<- _].
    apply list_elem_of_fmap_2. subst batch. unfold purge_batch in *.
    rewrite length_take in Hlt. rewrite take_ge by lia. rewrite elem_of_sort_by.
    rewrite list_elem_of_In, filter_In, <-list_elem_of_In, Ht. split; [|by apply Z.ltb_lt].
    apply list_elem_of_fmap. exists (r_id r, r). split; [done|]. by apply dict_get_Some_in. }
  intros Hrun. exists cutoff, (r_id <$> batch). rewrite length_fmap.
  assert (Hrem : ∀ k, k ∈ r_id <$> batch → ∃ r, dict_get (jobs_of s) k = Some r ∧
    is_terminal (r_status r) = true ∧ (r_updated_at r < cutoff)%Z).
  { intros k (r & -> & Hr)%list_elem_of_fmap. exists r. by apply Hin. }
  destruct batch as [|r0 rest] eqn:Eb.
  - injection Hrun as <- <-. simpl in *. split_and!; try done; try lia.
  - rewrite Hf, run_bind_lift in Hrun. injection Hrun as <- <-. simpl jobs_of.
    rewrite length_dict_sort. split_and!; try done.
    intros k. rewrite dict_get_sort by apply Hd'. apply Hk.
Qed.

(** ** A concrete run, for the witnesses *)

Definition demo_q : config := Config (5 * second) hour 10.
Definition demo_payload : pyobj := PMap 0 true [(KStr "sku", PStr "A-1")].
Definition demo_ops : list op :=
  [OpEnqueue 0 "j1" "shop.reindex" demo_payload "reindex-0001" 2 None None;
   OpClaim second "worker-a" minute None].
Definition demo_s1 : store := exec demo_q (OpEnqueue 0 "j1" "shop.reindex" demo_payload "reindex-0001" 2 None None) None.
Definition demo_s2 : store := exec demo_q (OpClaim second "worker-a" minute None) demo_s1.

Lemma demo_steps : steps demo_q None demo_ops demo_s2.
Proof. do 2 (apply steps_cons; [by vm_compute|]). apply steps_nil. Qed.

Lemma demo_s1_wf : store_wf demo_q demo_s1.
Proof. apply exec_good; [by vm_compute | done]. Qed.

Lemma demo_s2_wf : store_wf demo_q demo_s2.
Proof. apply exec_good; [apply demo_s1_wf | done]. Qed.

Definition demo_record : JobRecord :=
  new_record "j1" "shop.reindex" "reindex-0001" (JObj [("sku", JStr "A-1")]) 2 0 0.
Definition demo_claimed : JobRecord := set_claimed demo_record "worker-a" second (61 * second).
Definition demo_done : JobRecord := set_unleased demo_claimed SUCCEEDED 0 (2 * second) None.
Definition demo_s3 : store := exec demo_q (OpSucceed (2 * second) "j1" "worker-a" 1 None) demo_s2.

Lemma demo_s3_wf : store_wf demo_q demo_s3.
Proof. apply exec_good; [apply demo_s2_wf | done]. Qed.

Lemma reachable_registry_wf_witness : wf_dict demo_q (jobs_of demo_s2).
Proof.
  apply (reachable_registry_wf demo_q (5 * second) hour 10 demo_ops demo_s2);
    [vm_compute; reflexivity | apply demo_steps].
Defined.

Lemma token_completes_once_witness :
  ∃ e, finish demo_q (3 * second) "j1" "worker-a" 1 true None None demo_s3 = (Err e, demo_s3).
Proof.
  apply (token_completes_once demo_q demo_s2 (2 * second) "j1" "worker-a" 1 true None None demo_done demo_s3 []).
  - apply demo_s2_wf.
  - vm_compute. reflexivity.
  - apply steps_nil.
  - constructor.
Defined.

(** Two jobs may start: the one that was made later was to start earlier. *)
Definition demo_two : store :=
  exec demo_q (OpEnqueue second "j2" "shop.reindex" demo_payload "reindex-0002" 2 (Some (Aware (2 * second))) None)
    (exec demo_q (OpEnqueue 0 "j1" "shop.reindex" demo_payload "reindex-0001" 2 (Some (Aware (3 * second))) None) None).
Definition demo_second : JobRecord :=
  new_record "j2" "shop.reindex" "reindex-0002" (JObj [("sku", JStr "A-1")]) 2 second (2 * second).

Lemma demo_two_wf : store_wf demo_q demo_two.
Proof. apply exec_good; [apply exec_good; done|by vm_compute]. Qed.

Lemma claim_least_due_witness :
  let run := claim (5 * second) "worker-a" minute None demo_two in
  run.1 = Ok (Some (set_claimed demo_second "worker-a" (5 * second) (65 * second))) ∧
  ∃ t rec r, timestamp_of (5 * second) None = Ok t ∧ leases_ended t (jobs_of demo_two) rec ∧ rec (r_id r) = Some r ∧
    may_start t r ∧ ∀ k r', rec k = Some r' → may_start t r' → not_after r r'.
Proof.
  split; [vm_compute; reflexivity|].
  destruct (claim_least_due demo_q (5 * second) "worker-a" minute None demo_two
    (Some (set_claimed demo_second "worker-a" (5 * second) (65 * second))) (claim (5 * second) "worker-a" minute None demo_two).2)
    as (t & rec & Ht & Hrec & r & Hr & Hd & Hmin & _).
  - apply demo_two_wf.
  - vm_compute. reflexivity.
  - exists t, rec, r. by split_and!.
Defined.

Lemma claim_fences_out_older_tokens_witness :
  ∃ e, finish demo_q second "j1" "worker-a" 0 true None None demo_s2 = (Err e, demo_s2).
Proof.
  apply (claim_fences_out_older_tokens demo_q demo_s1 second "worker-a" minute None demo_claimed demo_s2 []).
  - apply demo_s1_wf.
  - vm_compute. reflexivity.
  - apply steps_nil.
  - constructor.
  - vm_compute. reflexivity.
Defined.

Lemma enqueue_by_key_witness :
  enqueue demo_q 7 "j2" "shop.reindex" demo_payload "reindex-0001" 2 None None demo_s1
  = (Ok demo_record, demo_s1).
Proof.
  pose proof (enqueue_by_key demo_q 7 "j2" "shop.reindex" demo_payload "reindex-0001" 2 None None
    demo_s1 (JObj [("sku", JStr "A-1")]) 7 7 demo_s1_wf eq_refl eq_refl eq_refl eq_refl eq_refl
    (conj (Zle_bool_imp_le 1 2 eq_refl) (Zle_bool_imp_le 2 32 eq_refl))) as H.
  destruct (enqueue _ _ _ _ _ _ _ _ _ _) as [r s'].
  destruct H as [H _]. destruct (H "j1" demo_record eq_refl eq_refl) as [-> ->]. reflexivity.
Defined.

Lemma retry_delay_bounded_witness :
  ∃ da db, retry_delay demo_q 1 = Ok da ∧ retry_delay demo_q 12 = Ok db ∧ (da ≤ db)%Z.
Proof.
  destruct (retry_delay_bounded demo_q (5 * second) hour 10 1 12) as (da & db & Ha & Hb & _ & [_ Hle] & _).
  - vm_compute. reflexivity.
  - vm_compute. discriminate.
  - split; vm_compute; discriminate.
  - vm_compute. reflexivity.
  - exists da, db. split; [exact Ha|]. split; [exact Hb|exact Hle].
Defined.

Lemma cancel_owner_exact_witness :
  ∃ t, timestamp_of (2 * second) None = Ok t.
Proof.
  destruct (cancel_owner_exact demo_q (2 * second) "shop" None demo_s2 1
    (exec demo_q (OpCancelOwner (2 * second) "shop" None) demo_s2)) as (t & Ht & _).
  - apply demo_s2_wf.
  - vm_compute. reflexivity.
  - exists t. exact Ht.
Defined.

Lemma purge_terminal_bounded_witness :
  ∃ removed : list string, 1%Z = Z.of_nat (length removed).
Proof.
  destruct (purge_terminal_bounded demo_q (Aware hour) 5 demo_s3 1
    (exec demo_q (OpPurge (Aware hour) 5) demo_s3)) as (cutoff & removed & _ & Hn & _).
  - apply demo_s3_wf.
  - vm_compute. reflexivity.
  - exists removed. exact Hn.
Defined.
End Jobs.
