(* ===== verification/JobRouting.v ===== *)
(** * Routing and running jobs (jobs.py: [JobQueue], [DelegatingJobQueue],
    [JobRunner], [JobDrainPump])

    The [JobQueue] protocol is a type class over a world [W] and a type [Q] of
    queue objects; equality on [Q] is object identity.  [durable_queue] is
    the instance for [DurableJobQueue], each object on a file of its own;
    [delegating_queue] the one for [DelegatingJobQueue].  The laws a runner
    relies on are the class [JobQueueLaws], which both instances satisfy.
    [JobExecutionContext] (plaik_contracts) is a parameter.  Exceptions stand
    for subclasses of [Exception]. *)

From Stdlib Require Import Ascii ZArith Lia.
From stdpp Require Import base decidable numbers list strings gmap sets.
From S2P Require Import Prelude PyData Regex JsonGraph JobPayload Jobs.

Module JobRouting.
Import JsonGraph Payload Jobs.

(** ** The protocol *)

Class JobQueue (W Q : Type) := {
  jq_enqueue : Q → string → pyobj → string → Z → option datetime → option datetime → M W JobRecord;
  jq_cancel_owner : Q → string → option datetime → M W Z;
  jq_claim : Q → string → Z → option datetime → M W (option JobRecord);
  jq_succeed : Q → string → string → Z → option datetime → M W JobRecord;
  jq_fail : Q → string → string → Z → string → option datetime → M W JobRecord;
  jq_records : Q → M W (dict string JobRecord);
  jq_leased : Q → string → string → Z → option datetime → M W (option JobRecord);
  jq_purge_terminal : Q → datetime → Z → M W Z;
}.

(** [try: x = m  except Exception as error: ...]. *)
Definition attempt {W A} (m : M W A) : M W (result A) := λ w, let '(r, w') := m w in (Ok r, w').

(** ** [DelegatingJobQueue] *)

Record delegating (W Q : Type) : Type := Delegating {
  dg_resolve : M W Q;
  dg_fallback : option Q;
}.
Arguments Delegating {W Q}.
Arguments dg_resolve {W Q}.
Arguments dg_fallback {W Q}.

Section delegating.
Context {W Q : Type} `{EqDecision Q} `{JobQueue W Q}.

(** [fallback is not None and fallback is not live]. *)
Definition leftover_of (d : delegating W Q) (live : Q) : option Q :=
  match dg_fallback d with
  | Some f => if decide (f = live) then None else Some f
  | None => None
  end.

Definition dg_enqueue (d : delegating W Q) ty p key mx sch now : M W JobRecord :=
  live ← dg_resolve d;
  jq_enqueue live ty p key mx sch now.

Definition dg_cancel_owner (d : delegating W Q) (owner : string) (now : option datetime) : M W Z :=
  live ← dg_resolve d;
  changed ← jq_cancel_owner live owner now;
  match leftover_of d live with
  | Some f =>
      r ← attempt (jq_cancel_owner f owner now);
      match r with
      | Ok n => mret (changed + n)%Z
      | Err e => lift (Err e)
      end
  | None => mret changed
  end.

(** The common shape of [claim] and [leased]: the leftover queue first; an
    answer of the live queue wins over an error of the leftover one. *)
Definition leftover_first (d : delegating W Q) (op : Q → M W (option JobRecord)) :
    M W (option JobRecord) :=
  live ← dg_resolve d;
  leftover ← match leftover_of d live with
             | Some f => attempt (op f)
             | None => mret (Ok None)
             end;
  match leftover with
  | Ok (Some r) => mret (Some r)
  | _ =>
      claimed ← attempt (op live);
      match leftover, claimed with
      | Err e, Ok None | Err e, Err _ => lift (Err e)
      | _, Err e => lift (Err e)
      | _, Ok o => mret o
      end
  end.

Definition dg_claim (d : delegating W Q) (worker : string) (lease : Z) (now : option datetime) :=
  leftover_first d (λ q, jq_claim q worker lease now).

Definition dg_leased (d : delegating W Q) (job_id worker : string) (token : Z) (now : option datetime) :=
  leftover_first d (λ q, jq_leased q job_id worker token now).

(** [_backend_for]. *)
Definition backend_for (d : delegating W Q) (job_id : string) : M W Q :=
  live ← dg_resolve d;
  match leftover_of d live with
  | Some f =>
      r ← attempt (jq_records f);
      let leftover_records := match r with Ok rs => rs | Err _ => [] end in
      if dict_mem leftover_records job_id then
        rs ← jq_records live;
        mret (if dict_mem rs job_id then live else f)
      else mret live
  | None => mret live
  end.

Definition dg_succeed (d : delegating W Q) (job_id worker : string) (token : Z)
    (now : option datetime) : M W JobRecord :=
  q ← backend_for d job_id;
  jq_succeed q job_id worker token now.

Definition dg_fail (d : delegating W Q) (job_id worker : string) (token : Z) (code : string)
    (now : option datetime) : M W JobRecord :=
  q ← backend_for d job_id;
  jq_fail q job_id worker token code now.

Definition dg_records (d : delegating W Q) : M W (dict string JobRecord) :=
  live ← dg_resolve d;
  merged ← match leftover_of d live with
           | Some f => rs ← jq_records f; mret (dict_merge [] rs)
           | None => mret []
           end;
  rs ← jq_records live;
  mret (dict_sort (dict_merge merged rs)).

Definition dg_purge_terminal (d : delegating W Q) (before : datetime) (limit : Z) : M W Z :=
  live ← dg_resolve d;
  purged ← jq_purge_terminal live before limit;
  match leftover_of d live with
  | Some f =>
      if (purged <? limit)%Z then
        n ← jq_purge_terminal f before (limit - purged)%Z;
        mret (purged + n)%Z
      else mret purged
  | None => mret purged
  end.

#[export] Instance delegating_queue : JobQueue W (delegating W Q) := {|
  jq_enqueue := dg_enqueue;
  jq_cancel_owner := dg_cancel_owner;
  jq_claim := dg_claim;
  jq_succeed := dg_succeed;
  jq_fail := dg_fail;
  jq_records := dg_records;
  jq_leased := dg_leased;
  jq_purge_terminal := dg_purge_terminal;
|}.
End delegating.

(** ** [JobRunner] *)

(** The keyword arguments of [JobExecutionContext]. *)
Record context_args : Type := ContextArgs {
  cx_job_id : string;
  cx_idempotency_key : string;
  cx_attempt : Z;
  cx_fencing_token : Z;
  cx_lease_owner : string;
  cx_lease_expires_at : Z;
  cx_payload : json;
}.

(** [s[:n]]: the first [n] code points. *)
Fixpoint take_points (n : nat) (l : list ascii) : list ascii :=
  match l with
  | [] => []
  | c :: l =>
      if is_continuation c then c :: take_points n l
      else match n with
           | O => []
           | S n => c :: take_points n l
           end
  end.

(** [f"job.{type(error).__name__.casefold()}"[:128]]. *)
Definition safe_error_code (type_name : string) : string :=
  of_chars (take_points 128 (chars ("job." +:+ casefold type_name))).

Section runner.
Context {W Q : Type} `{JobQueue W Q}.
(** [JobExecutionContext(...)] and [type(error).__name__]. *)
Context {Ctx : Type} (JobExecutionContext : context_args → result Ctx) (type_name : exn → string).

Definition JobHandler : Type := Ctx → M W unit.

Record runner : Type := Runner {
  rn_queue : Q;
  rn_handlers : dict string JobHandler;
}.

(** [JobRunner.__init__] (a handler is always callable here). *)
Definition new_runner (queue : Q) (handlers : dict string JobHandler) : result runner :=
  _ ← map_result (λ kv, validate_job_type kv.1) handlers;
  Ok (Runner queue handlers).

(** [_complete]. *)
Definition complete (rn : runner) (job_id worker : string) (token : Z) (succeeded : bool)
    (error_code : option string) (now : option datetime) : M W (option JobRecord) :=
  try_except
    (if succeeded then
       r ← jq_succeed (rn_queue rn) job_id worker token now; mret (Some r)
     else
       match error_code with
       | None => raise JobQueueError "failed job is missing an error code"
       | Some code => r ← jq_fail (rn_queue rn) job_id worker token code now; mret (Some r)
       end)
    (λ e, if exn_in e [JobQueueError]
          then Some (rs ← jq_records (rn_queue rn); mret (dict_get rs job_id))
          else None).

Definition DEFAULT_LEASE : Z := 5 * minute.

(** Run the handler of a leased job and record its outcome. *)
Definition execute (rn : runner) (worker : string) (now : option datetime) (live : JobRecord) :
    M W (option JobRecord) :=
  match dict_get (rn_handlers rn) (r_type live) with
  | None =>
      complete rn (r_id live) worker (r_fencing_token live) false (Some "job.handler_missing") now
  | Some handler =>
      match r_lease_expires_at live, r_lease_owner live with
      | Some expires, Some owner =>
          context ← lift (JobExecutionContext {|
            cx_job_id := r_id live; cx_idempotency_key := r_idempotency_key live;
            cx_attempt := r_attempts live; cx_fencing_token := r_fencing_token live;
            cx_lease_owner := owner; cx_lease_expires_at := expires;
            cx_payload := r_payload live |});
          outcome ← attempt (handler context);
          match outcome with
          | Err e => complete rn (r_id live) worker (r_fencing_token live) false
                       (Some (safe_error_code (type_name e))) now
          | Ok _ => complete rn (r_id live) worker (r_fencing_token live) true None now
          end
      | _, _ => raise JobQueueError "claimed job is missing lease context"
      end
  end.

Definition run_once (rn : runner) (worker : string) (now : option datetime) :
    M W (option JobRecord) :=
  job ← jq_claim (rn_queue rn) worker DEFAULT_LEASE now;
  match job with
  | None => mret None
  | Some job =>
      live ← jq_leased (rn_queue rn) (r_id job) worker (r_fencing_token job) now;
      match live with
      | None => rs ← jq_records (rn_queue rn); mret (dict_get rs (r_id job))
      | Some live => execute rn worker now live
      end
  end.

(** [while self._runner.run_once(self._worker_id) is not None: pass]; [None]
    when the fuel runs out. *)
Fixpoint drain_loop (fuel : nat) (rn : runner) (worker : string) (w : W) : option (result unit * W) :=
  match fuel with
  | O => None
  | S fuel =>
      match run_once rn worker None w with
      | (Ok (Some _), w') => drain_loop fuel rn worker w'
      | (Ok None, w') => Some (Ok tt, w')
      | (Err e, w') => Some (Err e, w')
      end
  end.
End runner.

(** ** What a runner relies on

    [jq_work q w] counts the claims the jobs of [q] can still give.  [spends q
    n c m]: from a good state, [m] leaves a good state; it may use [n] units of
    credit, and it returns [c r] of them with its outcome [r]. *)

Definition spending {W Q} (inv : Q → W → Prop) (work : Q → W → nat) (q : Q) (n : nat) {A}
    (c : result A → nat) (m : M W A) : Prop :=
  ∀ w, inv q w → inv q (post m w) ∧ work q (post m w) + c (m w).1 ≤ work q w + n.

(** One unit for an answer. *)
Definition found {A} (r : result (option A)) : nat := match r with Ok (Some _) => 1 | _ => 0 end.
Definition keep (n : nat) {A} (_ : result A) : nat := n.

Class JobQueueLaws (W Q : Type) `{JobQueue W Q} := {
  jq_inv : Q → W → Prop;
  jq_work : Q → W → nat;
  jq_claim_law q worker lease now : spending jq_inv jq_work q 0 found (jq_claim q worker lease now);
  jq_leased_law q id worker tok now : spending jq_inv jq_work q 0 (keep 0) (jq_leased q id worker tok now);
  jq_succeed_law q id worker tok now : spending jq_inv jq_work q 0 (keep 0) (jq_succeed q id worker tok now);
  jq_fail_law q id worker tok code now : spending jq_inv jq_work q 0 (keep 0) (jq_fail q id worker tok code now);
  jq_records_law q : spending jq_inv jq_work q 0 (keep 0) (jq_records q);
}.

(** Distinct queues do not touch each other's jobs. *)
Definition framed {W Q} (inv : Q → W → Prop) (work : Q → W → nat) (q : Q) {A} (m : M W A) : Prop :=
  ∀ w q', q' ≠ q → inv q' w → inv q' (post m w) ∧ work q' (post m w) = work q' w.

Class JobQueueFrame (W Q : Type) `{JobQueueLaws W Q} := {
  jq_claim_frame q worker lease now : framed jq_inv jq_work q (jq_claim q worker lease now);
  jq_leased_frame q id worker tok now : framed jq_inv jq_work q (jq_leased q id worker tok now);
  jq_succeed_frame q id worker tok now : framed jq_inv jq_work q (jq_succeed q id worker tok now);
  jq_fail_frame q id worker tok code now : framed jq_inv jq_work q (jq_fail q id worker tok code now);
  jq_records_frame q : framed jq_inv jq_work q (jq_records q);
}.

Section spending.
Context {W Q : Type} (inv : Q → W → Prop) (work : Q → W → nat) (q : Q).

Local Abbreviation spends := (spending inv work q).

Lemma spends_lift {A} (r : result A) c n : c r ≤ n → spends n c (lift r).
Proof. intros ? w Hw. split; [done|]. unfold post; simpl. lia. Qed.

Lemma spends_ret {A} (a : A) c n : c (Ok a) ≤ n → spends n c (mret a).
Proof. apply (spends_lift (Ok a)). Qed.

Lemma spends_bind {A B} (m : M W A) (k : A → M W B) n c d :
  spends n c m → (∀ a, spends (c (Ok a)) d (k a)) → (∀ e, d (Err e) ≤ c (Err e)) →
  spends n d (m ≫= k).
Proof.
  intros Hm Hk He w Hw. destruct (Hm w Hw) as [Hi Hn]. unfold post in *. rewrite run_bind.
  destruct (m w) as [[a|e] w']; simpl in *; [|specialize (He e); split; [done|lia]].
  destruct (Hk a w' Hi) as [Hi' Hn']. unfold post in *. split; [done|lia].
Qed.

(** ... where [m] returns only values satisfying [P]. *)
Lemma spends_bind_when {A B} (P : A → Prop) (m : M W A) (k : A → M W B) n c d :
  spends n c m → (∀ w a w', m w = (Ok a, w') → P a) →
  (∀ a, P a → spends (c (Ok a)) d (k a)) → (∀ e, d (Err e) ≤ c (Err e)) →
  spends n d (m ≫= k).
Proof.
  intros Hm HP Hk He w Hw. destruct (Hm w Hw) as [Hi Hn]. unfold post in *. rewrite run_bind.
  destruct (m w) as [[a|e] w'] eqn:E; simpl in *; [|specialize (He e); split; [done|lia]].
  destruct (Hk a (HP _ _ _ E) w' Hi) as [Hi' Hn']. unfold post in *. split; [done|lia].
Qed.

Lemma spends_ext {A} (m m' : M W A) n c : (∀ w, m w = m' w) → spends n c m' → spends n c m.
Proof. intros E Hm w Hw. unfold post. rewrite E. by apply Hm. Qed.

Lemma spends_bind_lift {A B} (r : result A) (k : A → M W B) n d :
  (∀ a, spends n d (k a)) → (∀ e, d (Err e) ≤ n) → spends n d (lift r ≫= k).
Proof.
  intros Hk He. apply (spends_bind _ _ _ (keep n)); [by apply spends_lift|done..].
Qed.

Lemma spends_attempt {A} (m : M W A) n c d :
  spends n c m → (∀ r, d (Ok r) ≤ c r) → spends n d (attempt m).
Proof.
  intros Hm Hd w Hw. destruct (Hm w Hw) as [Hi Hn]. unfold post, attempt in *.
  destruct (m w) as [r w']; simpl in *. specialize (Hd r). split; [done|lia].
Qed.

Lemma spends_try {A} (m : M W A) h n c d :
  spends n c m → (∀ a, d (Ok a) ≤ c (Ok a)) → (∀ e, d (Err e) ≤ c (Err e)) →
  (∀ e k, h e = Some k → spends (c (Err e)) d k) → spends n d (try_except m h).
Proof.
  intros Hm Ha He Hh w Hw. destruct (Hm w Hw) as [Hi Hn]. unfold post, try_except in *.
  destruct (m w) as [[a|e] w'] eqn:E; simpl in *; [specialize (Ha a); split; [done|lia]|].
  specialize (He e). destruct (h e) as [k|] eqn:Ek; simpl; [|split; [done|lia]].
  destruct (Hh e k Ek w' Hi) as [Hi' Hn']. unfold post in *. split; [done|lia].
Qed.

(** Credit not used is kept. *)
Lemma spends_keep {A} (m : M W A) n c d k :
  spends n c m → (∀ r, d r ≤ c r + k) → spends (n + k) d m.
Proof.
  intros Hm Hd w Hw. destruct (Hm w Hw) as [Hi Hs]. specialize (Hd (m w).1). split; [done|lia].
Qed.

Lemma spends_weaken {A} (m : M W A) n n' c c' :
  spends n c m → n ≤ n' → (∀ r, c' r ≤ c r) → spends n' c' m.
Proof.
  intros Hm Hn Hc w Hw. destruct (Hm w Hw) as [Hi Hs]. specialize (Hc (m w).1). split; [done|lia].
Qed.

Lemma spends_if {A} (b : bool) (m m' : M W A) n c :
  spends n c m → spends n c m' → spends n c (if b then m else m').
Proof. by destruct b. Qed.
End spending.

(** ** Draining terminates *)

Section drain.
Context {W Q : Type} `{JobQueueLaws W Q}.
Context {Ctx : Type} (JobExecutionContext : context_args → result Ctx) (type_name : exn → string).

Local Abbreviation spends := (spending jq_inv jq_work).

(** A handler that keeps the queue well formed and adds no job to it. *)
Definition quiet (rn : @runner W Q Ctx) : Prop :=
  ∀ ty h ctx, dict_get (rn_handlers rn) ty = Some h → spends (rn_queue rn) 0 (keep 0) (h ctx).

Lemma found_le {A} (r : result (option A)) : found r ≤ 1.
Proof. destruct r as [[]|]; simpl; lia. Qed.

Hint Extern 1 (_ ≤ _) => (unfold keep; simpl; lia) : core.
Hint Resolve found_le : core.

(** An operation that needs no credit, under a unit that is kept. *)
Lemma spends_unit {A} q (m : M W A) : spends q 0 (keep 0) m → spends q 1 (keep 1) m.
Proof. intros Hm. by apply (spends_keep _ _ _ _ 0 (keep 0) _ 1). Qed.

Lemma spends_complete (rn : @runner W Q Ctx) id worker tok ok code now :
  spends (rn_queue rn) 1 found (complete rn id worker tok ok code now).
Proof.
  unfold complete. apply (spends_try _ _ _ _ _ _ (keep 1)); [|done..|].
  - apply spends_if; [|destruct code].
    + apply (spends_bind _ _ _ _ _ _ (keep 1)); [apply spends_unit, jq_succeed_law| |done].
      intros r. by apply spends_ret.
    + apply (spends_bind _ _ _ _ _ _ (keep 1)); [apply spends_unit, jq_fail_law| |done].
      intros r. by apply spends_ret.
    + by apply spends_lift.
  - intros e k Hk. destruct (exn_in _ _); simplify_eq.
    apply (spends_bind _ _ _ _ _ _ (keep 1)); [apply spends_unit, jq_records_law| |done].
    intros rs. by apply spends_ret.
Qed.

Lemma spends_execute (rn : @runner W Q Ctx) worker now live :
  quiet rn → spends (rn_queue rn) 1 found (execute JobExecutionContext type_name rn worker now live).
Proof.
  intros Hq. unfold execute. destruct (dict_get _ _) as [h|] eqn:Eh; [|apply spends_complete].
  destruct (r_lease_expires_at live), (r_lease_owner live); try by apply spends_lift.
  apply spends_bind_lift; [|done]. intros ctx.
  apply (spends_bind _ _ _ _ _ _ (keep 1)); [| |done].
  - by eapply spends_attempt; [apply spends_unit; by eapply Hq|].
  - intros [[]|e]; apply spends_complete.
Qed.

(** Every round that runs a job uses up one of the claims left. *)
Lemma spends_run_once (rn : @runner W Q Ctx) worker now :
  quiet rn → spends (rn_queue rn) 0 found (run_once JobExecutionContext type_name rn worker now).
Proof.
  intros Hq. unfold run_once.
  apply (spends_bind _ _ _ _ _ _ found); [apply jq_claim_law| |done].
  intros [job|]; [|by apply spends_ret]. simpl.
  apply (spends_bind _ _ _ _ _ _ (keep 1)); [apply spends_unit, jq_leased_law| |done].
  intros [live|]; [by apply spends_execute|].
  apply (spends_bind _ _ _ _ _ _ (keep 1)); [apply spends_unit, jq_records_law| |done].
  intros rs. by apply spends_ret.
Qed.

Lemma drain_loop_done (rn : @runner W Q Ctx) worker fuel w :
  quiet rn → jq_inv (rn_queue rn) w → jq_work (rn_queue rn) w < fuel →
  ∃ r w0 w', drain_loop JobExecutionContext type_name fuel rn worker w = Some (r, w') ∧
    jq_inv (rn_queue rn) w' ∧
    run_once JobExecutionContext type_name rn worker None w0 =
      (match r with Ok _ => Ok None | Err e => Err e end, w').
Proof.
  intros Hq. revert w. induction fuel as [|fuel IH]; intros w Hi Hf; [lia|]. simpl.
  destruct (spends_run_once rn worker None Hq w Hi) as [Hi' Hn]. unfold post in *.
  destruct (run_once _ _ _ _ _ w) as [[[r|]|e] w'] eqn:E; simpl in *.
  - apply IH; [done|lia].
  - by exists (Ok tt), w, w'.
  - by exists (Err e), w, w'.
Qed.
End drain.

(** ** [DurableJobQueue] objects in a world of files *)

(** Each queue object [i] has its settings and its own registry file. *)
Record world : Type := World {
  w_clock : Z;
  w_uuid : nat → string;
  w_next : nat;
  w_files : gmap nat registry;
}.

Definition set_files (w : world) (fs : gmap nat registry) : world :=
  World (w_clock w) (w_uuid w) (w_next w) fs.

Section durable.
Context (cfg : nat → config).

(** Run an operation of queue [i] on its file. *)
Definition on_file {A} (i : nat) (m : M store A) : M world A := λ w,
  let '(r, s) := m (w_files w !! i) in (r, set_files w (partial_alter (λ _, s) i (w_files w))).

(** [str(uuid4())]: drawn when a new record is built. *)
Definition draw_uuid (w : world) : string := w_uuid w (w_next w).

Definition durable_enqueue (i : nat) ty p key mx sch now : M world JobRecord := λ w,
  let '(r, w') := on_file i (enqueue (cfg i) (w_clock w) (draw_uuid w) ty p key mx sch now) w in
  (r, World (w_clock w') (w_uuid w') (S (w_next w')) (w_files w')).

#[export] Instance durable_queue : JobQueue world nat := {|
  jq_enqueue := durable_enqueue;
  jq_cancel_owner i owner now := λ w, on_file i (cancel_owner (w_clock w) owner now) w;
  jq_claim i worker lease now := λ w, on_file i (claim (w_clock w) worker lease now) w;
  jq_succeed i id worker tok now := λ w, on_file i (succeed (cfg i) (w_clock w) id worker tok now) w;
  jq_fail i id worker tok code now := λ w, on_file i (fail_job (cfg i) (w_clock w) id worker tok code now) w;
  jq_records i := on_file i records;
  jq_leased i id worker tok now := λ w, on_file i (leased (w_clock w) id worker tok now) w;
  jq_purge_terminal i before limit := on_file i (purge_terminal before limit);
|}.

(** The claims the jobs of a registry can still give. *)
Definition attempts_left (r : JobRecord) : Z := r_maximum_attempts r - r_attempts r.

Definition durable_inv (i : nat) (w : world) : Prop := store_wf (cfg i) (w_files w !! i).
Definition durable_work (i : nat) (w : world) : nat :=
  Z.to_nat (dict_sum attempts_left (jobs_of (w_files w !! i))).

Lemma run_on_file {A} i (m : M store A) w :
  on_file i m w = ((m (w_files w !! i)).1,
    set_files w (partial_alter (λ _, (m (w_files w !! i)).2) i (w_files w))).
Proof. unfold on_file. by destruct (m _). Qed.

Lemma attempts_left_pos q d k r :
  wf_dict q d → dict_get d k = Some r → (0 ≤ attempts_left r)%Z.
Proof.
  intros Hd Hk. destruct (wf_dict_get _ _ _ _ Hd Hk) as [_ Hr].
  pose proof (rw_attempts r Hr). unfold attempts_left. lia.
Qed.

Lemma attempts_left_evolves q d d' k r' :
  wf_dict q d → wf_dict q d' → evolves_dict d d' → adds_only None d d' →
  dict_get d' k = Some r' → ∃ r, dict_get d k = Some r ∧ (attempts_left r' ≤ attempts_left r)%Z.
Proof.
  intros Hd Hd' He Ha Hk. destruct (dict_get d k) as [r|] eqn:E; [|by rewrite Ha in Hk].
  exists r. split; [done|]. specialize (He k r E). rewrite Hk in He.
  destruct (wf_dict_get _ _ _ _ Hd E) as [_ Hr]. destruct (wf_dict_get _ _ _ _ Hd' Hk) as [_ Hr'].
  pose proof (ev_fencing _ _ He). pose proof (ev_max _ _ He).
  pose proof (rw_fencing _ Hr). pose proof (rw_fencing _ Hr'). unfold attempts_left. lia.
Qed.

Lemma durable_spends {A} i (op : Z → M store A) :
  (∀ d clock, wf_dict (cfg i) d → good_at (cfg i) None d (op clock)) →
  spending durable_inv durable_work i 0 (keep 0) (λ w, on_file i (op (w_clock w)) w).
Proof.
  intros Hop w Hw. unfold post. rewrite run_on_file. unfold durable_inv, durable_work in *. simpl.
  rewrite lookup_partial_alter_eq. unfold keep.
  pose proof (store_wf_dict _ _ Hw) as Hd.
  destruct (Hop _ (w_clock w) Hd _ Hw eq_refl) as (Hs & He & Ha). unfold post in *.
  split; [done|]. pose proof (store_wf_dict _ _ Hs) as Hd'.
  assert (dict_sum attempts_left (jobs_of (op (w_clock w) (w_files w !! i)).2) ≤
          dict_sum attempts_left (jobs_of (w_files w !! i)))%Z; [|lia].
  apply dict_sum_le; [apply Hd|apply Hd'|..].
  - intros k r. by apply attempts_left_pos with (q := cfg i).
  - intros k r'. by apply (attempts_left_evolves (cfg i)).
Qed.

Lemma durable_frame {A} i (op : Z → M store A) :
  framed durable_inv durable_work i (λ w, on_file i (op (w_clock w)) w).
Proof.
  intros w j Hj Hw. unfold post. rewrite run_on_file. unfold durable_inv, durable_work in *. simpl.
  by rewrite lookup_partial_alter_ne.
Qed.

(** A successful claim takes one attempt from the jobs. *)
Lemma durable_claim_spends i worker lease now :
  spending durable_inv durable_work i 0 found (jq_claim i worker lease now).
Proof.
  intros w Hw. destruct (durable_spends i (λ c, claim c worker lease now)
    ltac:(intros; by apply good_claim) w Hw) as [Hi Hle]. simpl in *.
  split; [done|]. destruct (on_file _ _ w).1 as [[c|]|e] eqn:E; simpl; [|unfold keep in Hle; lia..].
  unfold post in *. rewrite run_on_file in *. unfold durable_inv, durable_work in *. simpl in *.
  rewrite lookup_partial_alter_eq in *. set (s := w_files w !! i) in *.
  destruct (claim _ _ _ _ s) as [o s'] eqn:Ec. simpl in *. subst o.
  pose proof (good_claim (cfg i) _ (w_clock w) worker lease now (store_wf_dict _ _ Hw) s Hw eq_refl)
    as (_ & He & Ha). unfold post in *. rewrite Ec in He, Ha. simpl in He, Ha.
  apply (claim_inv (cfg i)) in Ec as (t & _ & r & Hr & _ & _ & -> & Hk); [|done].
  pose proof (store_wf_dict _ _ Hw) as Hd. pose proof (store_wf_dict _ _ Hi) as Hd'.
  assert (dict_sum attempts_left (jobs_of s') < dict_sum attempts_left (jobs_of s))%Z as Hlt.
  { unfold recover_expired in Hr. rewrite dict_get_update in Hr by apply Hd.
    destruct (dict_get (jobs_of s) (r_id r)) as [r0|] eqn:E0; [|done].
    apply (dict_sum_lt attempts_left _ _ (r_id r) r0 (set_claimed r worker t (t + lease)));
      [apply Hd|apply Hd'|..].
    - intros k x. by apply attempts_left_pos with (q := cfg i).
    - intros k x. by apply (attempts_left_evolves (cfg i)).
    - done.
    - simpl. rewrite Hk. by rewrite decide_True.
    - injection Hr as Hr. unfold attempts_left. simpl. destruct (recover_entry t _ r0) eqn:Er.
      + apply recover_entry_some in Er as (_ & _ & ->). subst r. simpl. lia.
      + subst r0. lia. }
  assert (0 ≤ dict_sum attempts_left (jobs_of s'))%Z; [|lia].
  apply zsum_nonneg, Forall_fmap, Forall_forall. intros x ([k x'] & -> & Hin)%list_elem_of_fmap.
  simpl. eapply attempts_left_pos; [exact Hd'|]. apply dict_get_in; [apply Hd'|done].
Qed.

#[export] Program Instance durable_laws : JobQueueLaws world nat := {|
  jq_inv := durable_inv;
  jq_work := durable_work;
  jq_claim_law := durable_claim_spends;
|}.
Next Obligation.
  intros. apply (durable_spends q (λ c, leased c id worker tok now)). intros. by apply good_leased.
Qed.
Next Obligation.
  intros. apply (durable_spends q (λ c, succeed (cfg q) c id worker tok now)). intros. by apply good_finish.
Qed.
Next Obligation.
  intros. apply (durable_spends q (λ c, fail_job (cfg q) c id worker tok code now)).
  intros. by apply good_fail.
Qed.
Next Obligation. intros. apply (durable_spends q (λ _, records)). intros. by apply good_records. Qed.

#[export] Program Instance durable_frames : JobQueueFrame world nat.
Next Obligation. intros. apply (durable_frame q (λ c, claim c worker lease now)). Qed.
Next Obligation. intros. apply (durable_frame q (λ c, leased c id worker tok now)). Qed.
Next Obligation. intros. apply (durable_frame q (λ c, succeed (cfg q) c id worker tok now)). Qed.
Next Obligation. intros. apply (durable_frame q (λ c, fail_job (cfg q) c id worker tok code now)). Qed.
Next Obligation. intros. apply (durable_frame q (λ _, records)). Qed.
End durable.

(** ** The router keeps the laws of its backends *)

Section delegating_laws.
Context {W Q : Type} `{EqDecision Q} `{JobQueueFrame W Q}.

(** The live queue is [live] for good: [resolve] reads it and nothing more. *)
Definition resolves (d : delegating W Q) (live : Q) : Prop := ∀ w, dg_resolve d w = (Ok live, w).

Definition pair_inv (live : Q) (lo : option Q) (w : W) : Prop :=
  jq_inv live w ∧ ∀ f, lo = Some f → jq_inv f w.
Definition pair_work (live : Q) (lo : option Q) (w : W) : nat :=
  jq_work live w + match lo with Some f => jq_work f w | None => 0 end.

Definition dg_inv (d : delegating W Q) (w : W) : Prop :=
  ∃ live, resolves d live ∧ pair_inv live (leftover_of d live) w.
Definition dg_work (d : delegating W Q) (w : W) : nat :=
  match (dg_resolve d w).1 with
  | Ok live => pair_work live (leftover_of d live) w
  | Err _ => 0
  end.

Lemma leftover_ne (d : delegating W Q) live f : leftover_of d live = Some f → f ≠ live.
Proof. unfold leftover_of. destruct (dg_fallback d); [|done]. destruct (decide _); naive_solver. Qed.

Lemma spends_live {A} live lo (c : result A → nat) (m : M W A) :
  (∀ f, lo = Some f → f ≠ live) → spending jq_inv jq_work live 0 c m → framed jq_inv jq_work live m →
  spending (λ l, pair_inv l lo) (λ l, pair_work l lo) live 0 c m.
Proof.
  intros Hne Hm Hf w [Hl Ho]. destruct (Hm w Hl) as [Hi Hs]. unfold pair_inv, pair_work.
  destruct lo as [f|].
  - destruct (Hf w f (Hne f eq_refl) (Ho f eq_refl)) as [Hfi Hfw]. split; [split; naive_solver|lia].
  - split; [done|lia].
Qed.

Lemma spends_leftover {A} live f (c : result A → nat) (m : M W A) :
  f ≠ live → spending jq_inv jq_work f 0 c m → framed jq_inv jq_work f m →
  spending (λ l, pair_inv l (Some f)) (λ l, pair_work l (Some f)) live 0 c m.
Proof.
  intros Hne Hm Hf w [Hl Ho]. destruct (Hm w (Ho f eq_refl)) as [Hi Hs]. unfold pair_inv, pair_work.
  destruct (Hf w live (not_eq_sym Hne) Hl) as [Hfi Hfw]. split; [split; naive_solver|lia].
Qed.

(** What a router operation spends once [resolve] has answered. *)
Lemma dg_spends {A} (d : delegating W Q) (c : result A → nat) (k : Q → M W A) :
  (∀ live, resolves d live →
     spending (λ l, pair_inv l (leftover_of d live)) (λ l, pair_work l (leftover_of d live)) live 0 c (k live)) →
  spending dg_inv dg_work d 0 c (live ← dg_resolve d; k live).
Proof.
  intros Hk w (live & Hr & Hi). unfold post. rewrite run_bind, Hr.
  destruct (Hk live Hr w Hi) as [Hi' Hs]. unfold post in *. split; [by exists live|].
  unfold dg_work. rewrite !Hr. exact Hs.
Qed.

Hint Extern 1 (_ ≤ _) => (unfold keep; simpl; lia) : core.
Hint Resolve leftover_ne : core.

Lemma leftover_first_spends (d : delegating W Q) c op :
  (∀ r, c r ≤ 1) → c (Ok None) = 0 → (∀ e, c (Err e) = 0) →
  (∀ q, spending jq_inv jq_work q 0 c (op q)) → (∀ q, framed jq_inv jq_work q (op q)) →
  spending dg_inv dg_work d 0 c (leftover_first d op).
Proof.
  intros Hone HN HE Hop Hfr. unfold leftover_first. apply dg_spends. intros live Hr.
  apply (spends_bind _ _ _ _ _ _ (λ r, match r with Ok r' => c r' | Err _ => 0 end)).
  - destruct (leftover_of d live) as [f|] eqn:Ef.
    + eapply spends_attempt; [by apply spends_leftover; eauto|done].
    + apply spends_ret. by rewrite HN.
  - intros [[r|]|e]; [by apply spends_ret| |];
      (apply (spends_weaken _ _ _ _ 0 _ c); [|lia|done];
       apply (spends_bind _ _ _ _ _ _ (λ r, match r with Ok r' => c r' | Err _ => 0 end));
       [eapply spends_attempt; [apply spends_live; eauto|done]| |intros e'; rewrite HE; lia]);
      intros [[r|]|e']; try (by apply spends_ret); apply spends_lift; rewrite HE; lia.
  - intros e. rewrite HE. lia.
Qed.

Lemma backend_spends {A} (d : delegating W Q) (op : Q → M W A) id :
  (∀ q, spending jq_inv jq_work q 0 (keep 0) (op q)) → (∀ q, framed jq_inv jq_work q (op q)) →
  spending dg_inv dg_work d 0 (keep 0) (q ← backend_for d id; op q).
Proof.
  intros Hop Hfr. unfold backend_for.
  eapply spends_ext; [intros w; apply run_bind_assoc|].
  apply dg_spends. intros live Hr.
  apply (spends_bind_when _ _ _ (λ q, q = live ∨ leftover_of d live = Some q) _ _ _ (keep 0)).
  - destruct (leftover_of d live) as [f|] eqn:Ef; [|by apply spends_ret].
    apply (spends_bind _ _ _ _ _ _ (keep 0)); [| |done].
    + eapply spends_attempt; [apply spends_leftover; eauto using jq_records_law, jq_records_frame|done].
    + intros r. apply spends_if; [|by apply spends_ret].
      apply (spends_bind _ _ _ _ _ _ (keep 0)); [| |done].
      * apply spends_live; [intros ? [= <-]; eauto|apply jq_records_law|apply jq_records_frame].
      * intros rs. by apply spends_ret.
  - intros w q w' Hq. destruct (leftover_of d live) as [f|]; [|injection Hq; auto].
    rewrite run_bind in Hq. unfold attempt in Hq. destruct (jq_records f w) as [r w1].
    destruct (dict_mem _ id); [|injection Hq; auto].
    rewrite run_bind in Hq. destruct (jq_records live w1) as [[rs|e] w2]; [|done].
    injection Hq as Hq _. destruct (dict_mem rs id); subst q; auto.
  - intros q [->|Hq]; [apply spends_live; eauto|]. rewrite Hq. apply spends_leftover; eauto.
  - done.
Qed.

Lemma dg_records_spends (d : delegating W Q) : spending dg_inv dg_work d 0 (keep 0) (dg_records d).
Proof.
  unfold dg_records. apply dg_spends. intros live Hr.
  apply (spends_bind _ _ _ _ _ _ (keep 0)); [| |done].
  - destruct (leftover_of d live) as [f|] eqn:Ef; [|by apply spends_ret].
    apply (spends_bind _ _ _ _ _ _ (keep 0)); [| |done].
    + apply spends_leftover; eauto using jq_records_law, jq_records_frame.
    + intros rs. by apply spends_ret.
  - intros rs. apply (spends_bind _ _ _ _ _ _ (keep 0)); [| |done].
    + apply spends_live; eauto using jq_records_law, jq_records_frame.
    + intros rs'. by apply spends_ret.
Qed.

#[export] Program Instance delegating_laws : JobQueueLaws W (delegating W Q) := {|
  jq_inv := dg_inv;
  jq_work := dg_work;
  jq_records_law := dg_records_spends;
|}.
Next Obligation.
  intros d worker lease now. apply leftover_first_spends;
    [apply found_le|done|done|intros; apply jq_claim_law|intros; apply jq_claim_frame].
Qed.
Next Obligation.
  intros d id worker tok now. apply leftover_first_spends;
    [unfold keep; lia|done|done|intros; apply jq_leased_law|intros; apply jq_leased_frame].
Qed.
Next Obligation.
  intros d id worker tok now. apply (backend_spends d (λ q, jq_succeed q id worker tok now));
    [intros; apply jq_succeed_law|intros; apply jq_succeed_frame].
Qed.
Next Obligation.
  intros d id worker tok code now. apply (backend_spends d (λ q, jq_fail q id worker tok code now));
    [intros; apply jq_fail_law|intros; apply jq_fail_frame].
Qed.
End delegating_laws.

(** ** [JobDrainPump] among threads

    A thread in [drain] waits for the lock or runs the loop.  [drain_call] is
    the code up to [with self._lock], [drain_acquire] the entry of the locked
    section, [drain_finish] its exit, [drain_loop] returned or raised. *)

Inductive drain_pc : Type := Waiting | Draining.

#[global] Instance drain_pc_eq_dec : EqDecision drain_pc.
Proof. solve_decision. Defined.

Record pump : Type := Pump {
  pp_deferred : bool;
  pp_lock : option Z;
  pp_thread : option Z;
  pp_pc : gmap Z drain_pc;
}.

(** [__init__]. *)
Definition new_pump (worker_id : string) : result (string * pump) :=
  worker ← validate_worker_id worker_id;
  Ok (worker, Pump true None None ∅).

Definition drain_call (me : Z) (p : pump) : pump :=
  if pp_deferred p then p
  else if decide (pp_thread p = Some me) then p
  else Pump (pp_deferred p) (pp_lock p) (pp_thread p) (<[me := Waiting]> (pp_pc p)).

Definition drain_acquire (me : Z) (p : pump) : pump :=
  if decide (pp_thread p = Some me) then Pump (pp_deferred p) None (pp_thread p) (delete me (pp_pc p))
  else Pump (pp_deferred p) (Some me) (Some me) (<[me := Draining]> (pp_pc p)).

Definition drain_finish (me : Z) (p : pump) : pump :=
  Pump (pp_deferred p) None None (delete me (pp_pc p)).

Inductive pump_step : pump → pump → Prop :=
  | step_deferred p b : pump_step p (Pump b (pp_lock p) (pp_thread p) (pp_pc p))
  | step_call p me : pp_pc p !! me ≠ Some Waiting → pump_step p (drain_call me p)
  | step_acquire p me :
      pp_pc p !! me = Some Waiting → pp_lock p = None → pump_step p (drain_acquire me p)
  | step_finish p me : pp_pc p !! me = Some Draining → pump_step p (drain_finish me p).

(** The thread that drains is the one the pump names and the lock's holder. *)
Definition pump_inv (p : pump) : Prop :=
  pp_thread p = pp_lock p ∧ ∀ me, pp_pc p !! me = Some Draining ↔ pp_lock p = Some me.

Lemma pump_step_inv p p' : pump_inv p → pump_step p p' → pump_inv p'.
Proof.
  intros [Ht Hp] Hs. destruct Hs as [p b|p me Hpc|p me Hpc Hl|p me Hpc].
  - done.
  - unfold drain_call. destruct (pp_deferred p); [done|]. destruct (decide _) as [|Hne]; [done|].
    split; simpl; [done|]. intros t. rewrite Ht in Hne. destruct (decide (me = t)) as [->|].
    + rewrite lookup_insert_eq. naive_solver.
    + by rewrite lookup_insert_ne.
  - unfold drain_acquire. rewrite decide_False by congruence. split; simpl; [done|].
    intros t. destruct (decide (me = t)) as [->|]; [by rewrite lookup_insert_eq|].
    rewrite lookup_insert_ne, Hp, Hl by done. naive_solver.
  - split; simpl; [done|]. intros t. apply Hp in Hpc. destruct (decide (me = t)) as [->|].
    + rewrite lookup_delete_eq. naive_solver.
    + rewrite lookup_delete_ne, Hp, Hpc by done. naive_solver.
Qed.

(** ** A round of the runner on a durable queue *)

Definition identifier_char (c : ascii) : bool := is_alnum c || one_of "_" c.
Definition identifier (s : string) : Prop := s ≠ "" ∧ ∀ c, c ∈ chars s → identifier_char c = true.

Lemma ascii_all (P : ascii → bool) : forallb P (ascii_of_N ∘ N.of_nat <$> seq 0 256) = true → ∀ c, P c = true.
Proof.
  intros H c. rewrite forallb_forall in H. apply H. apply list_elem_of_In, list_elem_of_fmap.
  exists (N.to_nat (code c)). unfold compose, code. rewrite N2Nat.id, ascii_N_embedding.
  split; [done|]. apply elem_of_seq. pose proof (N_ascii_bounded c). lia.
Qed.

Lemma identifier_lower c : identifier_char c = true →
  lower_word "_.-" (lower_char c) = true ∧ is_continuation c = false ∧
  is_continuation (lower_char c) = false ∧ (code c < 128)%N.
Proof.
  intros Hc. pose proof (ascii_all (λ c, negb (identifier_char c) ||
    (lower_word "_.-" (lower_char c) && negb (is_continuation c) &&
     negb (is_continuation (lower_char c)) && (code c <? 128)%N))) as H.
  specialize (H ltac:(vm_compute; reflexivity) c). cbv beta in H. rewrite Hc in H. simpl in H.
  repeat (apply andb_true_iff in H as [H ?]). bool_to_prop. split_and!; try done. by apply N.ltb_lt.
Qed.

Lemma take_points_ascii n l :
  (∀ c, c ∈ l → is_continuation c = false) → take_points n l = take n l.
Proof.
  revert n. induction l as [|c l IH]; intros n Hl; simpl; [by rewrite take_nil|].
  rewrite Hl by by left. destruct n; simpl; [done|]. rewrite IH by set_solver. done.
Qed.

(** The code derived from an ASCII class name is always a valid one. *)
Lemma safe_error_code_valid name :
  identifier name → fullmatch ERROR_CODE (safe_error_code name) = true.
Proof.
  intros [_ Hid]. unfold safe_error_code, casefold.
  rewrite (case_map_ascii lower_char fold2 fold3) by (by eauto using fold2_ascii, fold3_ascii || (intros c Hc; by apply identifier_lower, Hid)).
  rewrite chars_app, chars_of_chars.
  change (chars "job.") with ["j"; "o"; "b"; "."]%char.
  assert (Hl : ∀ c, c ∈ lower_char <$> chars name → lower_word "_.-" c = true ∧ is_continuation c = false).
  { intros c (c' & -> & Hc)%list_elem_of_fmap. by destruct (identifier_lower c' (Hid c' Hc)) as (? & _ & ? & _). }
  rewrite take_points_ascii.
  2:{ intros c [Hc|Hc]%elem_of_app; [|by apply Hl]. repeat (apply elem_of_cons in Hc as [->|Hc]; [done|]). set_solver. }
  apply fullmatch_correct. rewrite chars_of_chars. unfold ERROR_CODE.
  exists ["j"%char], (["o"; "b"; "."]%char ++ take 124 (lower_char <$> chars name)).
  split; [done|]. split; [by exists "j"%char|]. apply lang_chr_rep. split.
  - rewrite length_app, length_take. change (length ["o"; "b"; "."]%char) with 3. lia.
  - intros c [Hc|Hc]%elem_of_app.
    + repeat (apply elem_of_cons in Hc as [->|Hc]; [done|]). set_solver.
    + apply Hl. by eapply subseteq_take.
Qed.

Section durable_round.
Context (cfg : nat → config) {Ctx : Type} (mk : context_args → result Ctx) (type_name : exn → string).
#[local] Instance round_queue : JobQueue world nat := durable_queue cfg.

(** The arguments the context of a claimed job gets. *)
Definition args_of (c : JobRecord) (owner : string) (expires : Z) : context_args :=
  {| cx_job_id := r_id c; cx_idempotency_key := r_idempotency_key c; cx_attempt := r_attempts c;
     cx_fencing_token := r_fencing_token c; cx_lease_owner := owner;
     cx_lease_expires_at := expires; cx_payload := r_payload c |}.

(** How a claimed job ends at time [t]. *)
Definition job_end (i : nat) (handlers : dict string (Ctx → M world unit)) (worker : string) (t : Z)
    (c u : JobRecord) : Prop :=
  match dict_get handlers (r_type c) with
  | None => finish_update (cfg i) c t false (Some "job.handler_missing") = Ok u
  | Some h => ∃ ctx w1, mk (args_of c worker (t + DEFAULT_LEASE)) = Ok ctx ∧
      dict_get (jobs_of (w_files w1 !! i)) (r_id c) = Some c ∧
      match (h ctx w1).1 with
      | Ok _ => finish_update (cfg i) c t true None = Ok u
      | Err e => finish_update (cfg i) c t false (Some (safe_error_code (type_name e))) = Ok u
      end
  end.

Lemma finish_update_err q r t ok code e : finish_update q r t ok code = Err e → exn_cls e = OverflowErr.
Proof.
  unfold finish_update, retry_delay, td_mul_pow2, dt_add, fail.
  destruct ok; [done|]. destruct (_ <=? _)%Z; [done|].
  destruct (td_in_range _); simpl; [|by intros [= <-]].
  destruct (dt_in_range _); simpl; [done|by intros [= <-]].
Qed.

(** [finish] by the holder of a lease is its [finish_update]. *)
Lemma finish_held q clock c w t ok code s :
  store_wf q s → dict_get (jobs_of s) (r_id c) = Some c → fullmatch WORKER_ID w = true →
  holds_lease c w (r_fencing_token c) t = true → dt_in_range t = true → (1 ≤ r_fencing_token c)%Z →
  finish q clock (r_id c) w (r_fencing_token c) ok code (Some (Aware t)) s =
  match finish_update q c t ok code with
  | Ok u => (Ok u, Some (Registry REGISTRY_VERSION (Some (dict_sort (dict_set (jobs_of s) (r_id c) u)))))
  | Err e => (Err e, s)
  end.
Proof.
  intros Hs Hc Hw Hh Ht Htok. rewrite (finish_run q clock _ w _ ok code _ s t); [|done..|].
  2:{ unfold timestamp_of, as_utc. simpl. unfold astimezone_utc. by rewrite Ht. }
  rewrite Hc, Hh, Z.eqb_refl. unfold holds_lease in Hh. bool_to_prop.
  by rewrite !bool_decide_eq_true_2 by done.
Qed.

(** [_complete] of a held lease at the time of the claim: the outcome is
    stored, or an overflow of the retry date is raised. *)
Lemma complete_held i handlers c worker t (ok : bool) code w r w' :
  store_wf (cfg i) (w_files w !! i) → dict_get (jobs_of (w_files w !! i)) (r_id c) = Some c →
  fullmatch WORKER_ID worker = true → holds_lease c worker (r_fencing_token c) t = true →
  dt_in_range t = true → (1 ≤ r_fencing_token c)%Z →
  (if ok then code = None else ∃ x, code = Some x ∧ fullmatch ERROR_CODE x = true) →
  complete (Runner (Ctx := Ctx) i handlers) (r_id c) worker (r_fencing_token c) ok code (Some (Aware t)) w
    = (Ok r, w') →
  ∃ u, r = Some u ∧ finish_update (cfg i) c t ok code = Ok u ∧
    dict_get (jobs_of (w_files w' !! i)) (r_id c) = Some u.
Proof.
  intros Hs Hc Hw Hh Ht Htok Hcode H.
  assert (Hrun : complete (Runner (Ctx := Ctx) i handlers) (r_id c) worker (r_fencing_token c) ok code (Some (Aware t)) w
    = match finish_update (cfg i) c t ok code with
      | Ok u => (Ok (Some u), set_files w (partial_alter (λ _, Some (Registry REGISTRY_VERSION
                  (Some (dict_sort (dict_set (jobs_of (w_files w !! i)) (r_id c) u))))) i (w_files w)))
      | Err e => (Err e, set_files w (partial_alter (λ _, w_files w !! i) i (w_files w)))
      end).
  { pose proof (finish_held (cfg i) (w_clock w) c worker t ok code _ Hs Hc Hw Hh Ht Htok) as Hfin.
    destruct (finish_update (cfg i) c t ok code) as [u|e] eqn:Eu;
      [|pose proof (finish_update_err _ _ _ _ _ _ Eu) as He];
      unfold complete, try_except; destruct ok.
    1,3: simpl in Hcode; subst code; rewrite run_bind; cbn [jq_succeed round_queue durable_queue rn_queue];
      unfold succeed; rewrite run_on_file, Hfin; first [done | cbn; unfold exn_in; by rewrite He].
    all: destruct Hcode as (x & -> & Hx); rewrite run_bind;
      cbn [jq_fail round_queue durable_queue rn_queue]; unfold fail_job, raise_if;
      rewrite run_on_file, run_bind_lift, Hx; cbn; rewrite Hfin; first [done | cbn; unfold exn_in; by rewrite He]. }
  rewrite Hrun in H. destruct (finish_update _ _ _ _ _) as [u|e]; [|done]. injection H as <- <-.
  exists u. split_and!; [done..|]. simpl. rewrite lookup_partial_alter_eq. simpl.
  rewrite dict_get_sort by apply dict_wf_set, (wf_keys (cfg i)), store_wf_dict, Hs. apply dict_get_set_eq.
Qed.
(** The claim of a round at [t] and the lease it holds. *)
Lemma round_claims i handlers worker t w u w' :
  store_wf (cfg i) (w_files w !! i) → dt_in_range t = true →
  run_once mk type_name (Runner i handlers) worker (Some (Aware t)) w = (Ok (Some u), w') →
  ∃ c w1, dict_get (jobs_of (w_files w !! i)) (r_id c) ≠ None ∧
    store_wf (cfg i) (w_files w1 !! i) ∧ dict_get (jobs_of (w_files w1 !! i)) (r_id c) = Some c ∧
    r_status c = RUNNING ∧ record_wf c ∧ r_lease_expires_at c = Some (t + DEFAULT_LEASE)%Z ∧
    r_lease_owner c = Some worker ∧ fullmatch WORKER_ID worker = true ∧ (1 ≤ r_fencing_token c)%Z ∧
    execute mk type_name (Runner i handlers) worker (Some (Aware t)) c w1 = (Ok (Some u), w').
Proof.
  intros Hs Ht. unfold run_once. rewrite run_bind. cbn [jq_claim round_queue durable_queue rn_queue].
  rewrite run_on_file. set (s := w_files w !! i) in *.
  destruct (claim (w_clock w) worker DEFAULT_LEASE (Some (Aware t)) s) as [[[c|]|e] s1] eqn:Ec; [|done..].
  cbn [fst snd]. set (w1 := set_files w _).
  assert (Hf1 : w_files w1 !! i = s1) by (subst w1; simpl; by rewrite lookup_partial_alter_eq).
  assert (Hw : fullmatch WORKER_ID worker = true).
  { unfold claim, validate_worker_id, validate_re in Ec. by destruct (fullmatch WORKER_ID worker). }
  pose proof (store_wf_dict _ _ Hs) as Hd.
  pose proof (good_claim (cfg i) _ (w_clock w) worker DEFAULT_LEASE (Some (Aware t)) Hd s Hs eq_refl) as (Hs1 & _ & Ha).
  unfold post in Hs1, Ha. rewrite Ec in Hs1, Ha. simpl in Hs1, Ha.
  apply (claim_inv (cfg i)) in Ec as (t' & Ht' & r & Hr & Hdue & _ & Hcr & Hk); [|done].
  assert (t' = t) as ->.
  { unfold timestamp_of, as_utc in Ht'. simpl in Ht'. unfold astimezone_utc in Ht'. rewrite Ht in Ht'. congruence. }
  assert (Hc : dict_get (jobs_of s1) (r_id c) = Some c) by (rewrite Hk, Hcr; simpl; by rewrite decide_True).
  destruct (wf_dict_get _ _ _ _ (store_wf_dict _ _ Hs1) Hc) as [_ Hrec].
  assert (Hold : dict_get (jobs_of s) (r_id c) ≠ None) by (intros Hn; rewrite (Ha _ Hn) in Hc; done).
  assert (Hst : r_status c = RUNNING) by by rewrite Hcr.
  assert (Hex : r_lease_expires_at c = Some (t + DEFAULT_LEASE)%Z) by by rewrite Hcr.
  assert (How : r_lease_owner c = Some worker) by by rewrite Hcr.
  pose proof (rw_progress _ Hrec) as Hp. rewrite Hst in Hp. pose proof (rw_fencing _ Hrec).
  assert (Hl : leased (w_clock w1) (r_id c) worker (r_fencing_token c) (Some (Aware t)) s1 = (Ok (Some c), s1)).
  { unfold leased, validate_worker_id, validate_re, check_fencing. rewrite Hw, run_bind_lift.
    rewrite (proj2 (Z.ltb_ge _ _)) by lia. simpl fail_if. rewrite run_bind_lift.
    unfold timestamp_of, as_utc. simpl. unfold astimezone_utc. rewrite Ht, run_bind_lift, run_bind.
    rewrite (read_wf (cfg i)) by done. rewrite Hc. unfold holds_lease. rewrite Hst, How, Hex, Z.eqb_refl.
    rewrite !bool_decide_eq_true_2 by done. simpl. rewrite (proj2 (Z.ltb_lt _ _)); [done|].
    unfold DEFAULT_LEASE, minute, second. lia. }
  rewrite run_bind. cbn [jq_leased round_queue durable_queue rn_queue].
  rewrite run_on_file, Hf1, Hl. cbn [fst snd].
  intros H'. eexists c, _. split; [done|]. repeat (split; [|done || idtac]).
  all: try exact H'; simpl; rewrite ?lookup_partial_alter_eq; try done; try lia.
Qed.

(** The rest of the round. *)
Lemma execute_held i handlers worker t c w u w' :
  store_wf (cfg i) (w_files w !! i) → dict_get (jobs_of (w_files w !! i)) (r_id c) = Some c →
  r_status c = RUNNING → record_wf c → r_lease_expires_at c = Some (t + DEFAULT_LEASE)%Z →
  r_lease_owner c = Some worker → dt_in_range t = true → fullmatch WORKER_ID worker = true →
  (1 ≤ r_fencing_token c)%Z →
  (∀ ty h ctx w, dict_get handlers ty = Some h → w_files (post (h ctx) w) !! i = w_files w !! i) →
  (∀ e, identifier (type_name e)) →
  execute mk type_name (Runner i handlers) worker (Some (Aware t)) c w = (Ok (Some u), w') →
  job_end i handlers worker t c u ∧ dict_get (jobs_of (w_files w' !! i)) (r_id c) = Some u ∧
  r_status u ≠ RUNNING.
Proof.
  intros Hs Hc Hst Hrec Hex How Ht Hw Htok Hq Hid.
  assert (Hh : holds_lease c worker (r_fencing_token c) t = true).
  { unfold holds_lease. rewrite Hst, How, Hex, Z.eqb_refl, !bool_decide_eq_true_2 by done. simpl.
    apply Z.ltb_lt. unfold DEFAULT_LEASE, minute, second. lia. }
  assert (Hdone : ∀ ok code v, finish_update (cfg i) c t ok code = Ok v → r_status v ≠ RUNNING)
    by (intros ok code v Hv; by apply (finish_update_ok _ _ _ _ _ _ Hrec Hst) in Hv as (_ & _ & ? & _)).
  unfold execute, job_end, JobHandler. cbn [rn_handlers]. destruct (dict_get handlers (r_type c)) as [h|] eqn:Eh.
  2:{ intros H. apply complete_held in H as (v & [= <-] & Hv & Hg); try done; [|by exists "job.handler_missing"].
      split_and!; [done..|by eapply Hdone]. }
  rewrite Hex, How, run_bind_lift. fold (args_of c worker (t + DEFAULT_LEASE)).
  destruct (mk _) as [ctx|] eqn:Em; [|done]. rewrite run_bind. unfold attempt.
  pose proof (Hq _ h ctx w Eh) as Hfile. unfold post in Hfile.
  destruct (h ctx w) as [o w2] eqn:Eo. simpl in Hfile.
  destruct o as [[]|e]; intros H;
    (apply complete_held in H as (v & [= <-] & Hv & Hg); rewrite ?Hfile; try done;
     [split_and!; [|done|by eapply Hdone]; exists ctx, w; by rewrite Eo|..]).
  eexists. split; [done|]. by apply safe_error_code_valid.
Qed.
(** A claim by a router leaves the claimed record in the file of the queue that
    gave it, and the other queue's file with the jobs it had. *)
Lemma claim_stores i worker lease now w c w1 :
  store_wf (cfg i) (w_files w !! i) → jq_claim i worker lease now w = (Ok (Some c), w1) →
  store_wf (cfg i) (w_files w1 !! i) ∧ dict_get (jobs_of (w_files w1 !! i)) (r_id c) = Some c ∧
  dict_get (jobs_of (w_files w !! i)) (r_id c) ≠ None.
Proof.
  intros Hs. cbn [jq_claim round_queue durable_queue]. rewrite run_on_file.
  set (s := w_files w !! i) in *.
  destruct (claim _ _ _ _ s) as [[[x|]|e] s1] eqn:Ec; [|done..]. intros [= -> <-].
  pose proof (store_wf_dict _ _ Hs) as Hd.
  pose proof (good_claim (cfg i) _ (w_clock w) worker lease now Hd s Hs eq_refl) as (Hs1 & _ & Ha).
  unfold post in Hs1, Ha. rewrite Ec in Hs1, Ha. simpl in *. rewrite lookup_partial_alter_eq.
  apply (claim_inv (cfg i)) in Ec as (t' & _ & r & Hr & _ & _ & Hcr & Hk); [|done].
  assert (Hc : dict_get (jobs_of s1) (r_id c) = Some c) by (rewrite Hk, Hcr; simpl; by rewrite decide_True).
  split_and!; [done|done|]. intros Hn. by rewrite (Ha _ Hn) in Hc.
Qed.

Lemma durable_frame_file {A} i j (op : Z → M store A) w :
  i ≠ j → w_files (post (λ w, on_file i (op (w_clock w)) w) w) !! j = w_files w !! j.
Proof. intros Hne. unfold post. rewrite run_on_file. simpl. by rewrite lookup_partial_alter_ne. Qed.

(** [records] of a well-formed queue, and a claim that answers nothing. *)
Lemma records_file i w :
  store_wf (cfg i) (w_files w !! i) →
  ∃ rs, jq_records i w = (Ok rs, set_files w (partial_alter (λ _, w_files w !! i) i (w_files w))) ∧
    ∀ k, dict_mem rs k = dict_mem (jobs_of (w_files w !! i)) k.
Proof.
  intros Hs. cbn [jq_records round_queue durable_queue]. rewrite run_on_file. unfold records.
  rewrite run_bind, (read_wf (cfg i)) by done. eexists. split; [done|]. intros k.
  unfold dict_mem. rewrite dict_get_sort; [done|]. by apply (wf_keys (cfg i)), store_wf_dict.
Qed.

Lemma set_files_same w i : set_files w (partial_alter (λ _, w_files w !! i) i (w_files w)) = w.
Proof. destruct w as [c u n fs]. unfold set_files. simpl. f_equal. apply partial_alter_self. Qed.

(** Which backend serves the jobs of a file that only one of the two has. *)
Lemma backend_for_durable (d : delegating world nat) live f id w :
  resolves d live → dg_fallback d = Some f → f ≠ live →
  store_wf (cfg live) (w_files w !! live) → store_wf (cfg f) (w_files w !! f) →
  backend_for d id w =
    (Ok (if dict_mem (jobs_of (w_files w !! f)) id && negb (dict_mem (jobs_of (w_files w !! live)) id)
         then f else live), w).
Proof.
  intros Hr Hf Hne Hl Hs. unfold backend_for. rewrite run_bind, Hr. unfold leftover_of.
  rewrite Hf, decide_False by done.
  destruct (records_file f w Hs) as (rs & Hrs & Hmem). destruct (records_file live w Hl) as (rl & Hrl & Hml).
  rewrite set_files_same in Hrs, Hrl.
  rewrite run_bind. unfold attempt. rewrite Hrs, Hmem. destruct (dict_mem _ id); [|done].
  rewrite run_bind, Hrl, Hml. simpl. by destruct (dict_mem _ id).
Qed.

(** The live queue's claim, after the leftover queue gave nothing. *)
Lemma live_claimed (P : Prop) live f worker lease now w wf c wl :
  f ≠ live → store_wf (cfg live) (w_files w !! live) → store_wf (cfg f) (w_files wf !! f) →
  w_files wf !! live = w_files w !! live →
  jq_claim live worker lease now wf = (Ok (Some c), wl) →
  P →
  dict_get (jobs_of (w_files wl !! live)) (r_id c) = Some c ∧
  (live = f ∨ live = live ∧ P) ∧
  store_wf (cfg live) (w_files wl !! live) ∧ store_wf (cfg f) (w_files wl !! f) ∧
  (if dict_mem (jobs_of (w_files wl !! f)) (r_id c) &&
      negb (dict_mem (jobs_of (w_files wl !! live)) (r_id c)) then f else live) = live.
Proof.
  intros Hne Hl Hs Hsame El Hnone. rewrite <-Hsame in Hl.
  destruct (claim_stores live worker lease now wf c wl Hl El) as (Hl1 & Hc & _).
  assert (Hf : w_files wl !! f = w_files wf !! f).
  { replace wl with (jq_claim live worker lease now wf).2 by by rewrite El.
    apply (durable_frame_file live f (λ k, claim k worker lease now)). done. }
  split_and!; [done|auto|done|by rewrite Hf|].
  unfold dict_mem at 2. rewrite Hc. simpl. by rewrite andb_false_r.
Qed.

(** Which queue a claim through the router comes from. *)
Lemma routed_claim (d : delegating world nat) live f worker lease now w c w1 :
  resolves d live → dg_fallback d = Some f → f ≠ live →
  store_wf (cfg live) (w_files w !! live) → store_wf (cfg f) (w_files w !! f) →
  (∀ k, dict_get (jobs_of (w_files w !! live)) k = None ∨ dict_get (jobs_of (w_files w !! f)) k = None) →
  dg_claim d worker lease now w = (Ok (Some c), w1) →
  ∃ q, dict_get (jobs_of (w_files w1 !! q)) (r_id c) = Some c ∧
    (q = f ∨ q = live ∧ ∀ x, (jq_claim f worker lease now w).1 ≠ Ok (Some x)) ∧
    store_wf (cfg live) (w_files w1 !! live) ∧ store_wf (cfg f) (w_files w1 !! f) ∧
    (if dict_mem (jobs_of (w_files w1 !! f)) (r_id c) &&
        negb (dict_mem (jobs_of (w_files w1 !! live)) (r_id c)) then f else live) = q.
Proof.
  intros Hr Hf Hne Hl Hs Hdisj. unfold dg_claim, leftover_first. rewrite run_bind, Hr.
  unfold leftover_of. rewrite Hf, decide_False by done. rewrite run_bind.
  destruct (attempt (jq_claim f worker lease now) w) as [o wa] eqn:Ea. unfold attempt in Ea.
  destruct (jq_claim f worker lease now w) as [ro wf] eqn:Ef. injection Ea as <- <-.
  assert (Hwf_live : w_files wf !! live = w_files w !! live).
  { replace wf with (jq_claim f worker lease now w).2 by by rewrite Ef.
    apply (durable_frame_file f live (λ k, claim k worker lease now)). done. }
  assert (Hwf_f : store_wf (cfg f) (w_files wf !! f)).
  { assert (durable_inv cfg f (post (jq_claim f worker lease now) w)) as Hi
      by apply (durable_claim_spends cfg f worker lease now w Hs).
    unfold post in Hi. by rewrite Ef in Hi. }
  destruct ro as [[x|]|e].
  - intros [= -> <-]. exists f.
    destruct (claim_stores f worker lease now w c wf Hs Ef) as (_ & Hc & Hold).
    split_and!; [done|by left|by rewrite Hwf_live|done|].
    unfold dict_mem. rewrite Hc, Hwf_live. simpl. destruct (Hdisj (r_id c)) as [->|?]; done.
  - rewrite run_bind. unfold attempt. destruct (jq_claim live worker lease now wf) as [rl wl] eqn:El.
    destruct rl as [o|e]; [|done]. intros [= -> <-]. exists live.
    by eapply live_claimed.
  - rewrite run_bind. unfold attempt. destruct (jq_claim live worker lease now wf) as [rl wl] eqn:El.
    destruct rl as [[o|]|e']; [|done..]. intros [= -> <-]. exists live.
    by eapply live_claimed.
Qed.
End durable_round.

(** ** Properties *)

(** Draining terminates.  On any queue that meets the laws of the protocol
    (the durable queue and a router over durable queues do), with handlers
    that add no job, [drain] runs at most one round more than the claims the
    jobs can still give; it ends when a round finds no job, or with the
    exception a round raised, and the queue stays well formed. *)
Theorem drain_terminates {W Q Ctx} `{JobQueueLaws W Q} (mk : context_args → result Ctx)
    (type_name : exn → string) (rn : @runner W Q Ctx) worker w :
  quiet rn → jq_inv (rn_queue rn) w →
  ∃ r w0 w', drain_loop mk type_name (S (jq_work (rn_queue rn) w)) rn worker w = Some (r, w') ∧
    jq_inv (rn_queue rn) w' ∧
    run_once mk type_name rn worker None w0 =
      (match r with Ok _ => Ok None | Err e => Err e end, w').
Proof. intros Hq Hi. apply drain_loop_done; [done|done|lia]. Qed.

(** One round of the runner on a durable queue.  When a round at time [t]
    answers with a record, it claimed a job, ran the handler of its type once
    (or none if there is none) with the arguments of that claim, and stored the
    outcome: success, failure with the derived error code, or a retry; the
    answer is the stored record, no longer running.  The handlers are assumed
    to leave the queue's own file alone; exception names are ASCII. *)
Theorem run_once_outcome cfg {Ctx} (mk : context_args → result Ctx) type_name i
    (handlers : dict string (Ctx → M world unit)) worker t w u w' :
  store_wf (cfg i) (w_files w !! i) → dt_in_range t = true →
  (∀ ty h ctx w, dict_get handlers ty = Some h → w_files (post (h ctx) w) !! i = w_files w !! i) →
  (∀ e, identifier (type_name e)) →
  run_once (H := durable_queue cfg) mk type_name (Runner i handlers) worker (Some (Aware t)) w = (Ok (Some u), w') →
  ∃ c, dict_get (jobs_of (w_files w !! i)) (r_id c) ≠ None ∧ r_status c = RUNNING ∧
    job_end cfg mk type_name i handlers worker t c u ∧
    dict_get (jobs_of (w_files w' !! i)) (r_id c) = Some u ∧ r_status u ≠ RUNNING.
Proof.
  intros Hs Ht Hq Hid H.
  destruct (round_claims cfg mk type_name i handlers worker t w u w' Hs Ht H)
    as (c & w1 & Hold & Hs1 & Hc & Hrun & Hrec & Hlease & Howner & Hw & Htok & H1).
  exists c. split; [done|]. split; [done|].
  destruct (execute_held cfg mk type_name i handlers worker t c w1 u w' Hs1 Hc Hrun Hrec Hlease Howner Ht Hw Htok Hq Hid H1)
    as (Hend & Hget & Hnr).
  done.
Qed.

(** At most one thread drains at a time.  Whatever the interleaving of
    calls, two threads never run the loop together; the draining thread is
    the one recorded, so a handler that calls [drain] again returns at once
    instead of waiting for its own lock; and a waiting thread that gets the
    free lock becomes the one that drains. *)
Theorem pump_exclusive worker_id worker p0 p :
  new_pump worker_id = Ok (worker, p0) → rtc pump_step p0 p →
  (∀ t1 t2, pp_pc p !! t1 = Some Draining → pp_pc p !! t2 = Some Draining → t1 = t2) ∧
  (∀ t, pp_pc p !! t = Some Draining → drain_call t p = p) ∧
  (∀ t, pp_lock p = None → pp_pc (drain_acquire t p) !! t = Some Draining).
Proof.
  intros Hnew Hsteps. apply bind_result_ok in Hnew as (wk & _ & [= <- <-]).
  assert (Hinv : pump_inv p).
  { assert (pump_inv (Pump true None None ∅)) as Hi.
    { split; [done|]. intros me. simpl. by rewrite lookup_empty. }
    revert Hi Hsteps. generalize (Pump true None None ∅). intros p0 Hi Hs.
    induction Hs; eauto using pump_step_inv. }
  destruct Hinv as [Ht Hp]. split_and!.
  - intros t1 t2 H1%Hp H2%Hp. congruence.
  - intros t Hd%Hp. unfold drain_call. rewrite decide_True by congruence. by destruct (pp_deferred p).
  - intros t Hl. unfold drain_acquire. rewrite decide_False by congruence. simpl. by rewrite lookup_insert_eq.
Qed.

(** C24: a job is finished where it was leased.  Through a router whose two
    durable queues share no job id, a claim is served by the leftover queue if
    it has one due, else by the live queue; and completing the claimed job,
    at any later time the files still hold, acts on the queue that leased it
    and on nothing else. *)
Theorem routed_completion cfg (d : delegating world nat) live f worker lease now w c w1 :
  resolves d live → dg_fallback d = Some f → f ≠ live →
  store_wf (cfg live) (w_files w !! live) → store_wf (cfg f) (w_files w !! f) →
  (∀ k, dict_get (jobs_of (w_files w !! live)) k = None ∨ dict_get (jobs_of (w_files w !! f)) k = None) →
  dg_claim (H := durable_queue cfg) d worker lease now w = (Ok (Some c), w1) →
  ∃ q, dict_get (jobs_of (w_files w1 !! q)) (r_id c) = Some c ∧
    (q = f ∨ q = live ∧ ∀ x, (jq_claim (JobQueue := durable_queue cfg) f worker lease now w).1 ≠ Ok (Some x)) ∧
    ∀ w2, w_files w2 = w_files w1 →
      (∀ worker tok now, dg_succeed (H := durable_queue cfg) d (r_id c) worker tok now w2 =
         jq_succeed (JobQueue := durable_queue cfg) q (r_id c) worker tok now w2) ∧
      (∀ worker tok code now, dg_fail (H := durable_queue cfg) d (r_id c) worker tok code now w2 =
         jq_fail (JobQueue := durable_queue cfg) q (r_id c) worker tok code now w2).
Proof.
  intros Hr Hf Hne Hl Hs Hdisj H.
  destruct (routed_claim cfg d live f worker lease now w c w1 Hr Hf Hne Hl Hs Hdisj H)
    as (q & Hc & Hq & Hl1 & Hs1 & Hm).
  exists q. split; [done|]. split; [done|]. intros w2 Hw2.
  rewrite <-Hw2 in Hl1, Hs1, Hm.
  split; intros; unfold dg_succeed, dg_fail;
    rewrite run_bind, (backend_for_durable cfg d live f) by done; by rewrite Hm.
Qed.

(** ** A concrete world, for the witnesses *)

Definition demo_cfg (_ : nat) : config := demo_q.
(** Queue 1 (the leftover file) has one job; queue 0 (live) has none. *)
Definition demo_world : world :=
  World minute (λ _, "j9") 0 (match demo_s1 with Some r => {[ 1 := r ]} | None => ∅ end).
Definition demo_router : delegating world nat := Delegating (λ w, (Ok 0, w)) (Some 1).
Definition demo_mk (a : context_args) : result Z := Ok (cx_attempt a).
Definition demo_name (_ : exn) : string := "KeyError".
(** A handler that fails on the first attempt. *)
Definition demo_handlers : dict string (Z → M world unit) :=
  [("shop.reindex", λ a, if (a =? 1)%Z then raise KeyErr "sku" else mret tt)].
Definition demo_after : world :=
  (dg_claim (H := durable_queue demo_cfg) demo_router "worker-a" minute None demo_world).2.

Lemma demo_files_wf : store_wf (demo_cfg 1) (w_files demo_world !! 1) ∧
  store_wf (demo_cfg 0) (w_files demo_world !! 0).
Proof. split; [exact demo_s1_wf | vm_compute; discriminate]. Qed.

Lemma drain_terminates_witness :
  ∃ r w0 w', drain_loop (H := durable_queue demo_cfg) demo_mk demo_name
      3 (Runner 1 demo_handlers) "worker-a" demo_world = Some (r, w') ∧
    run_once (H := durable_queue demo_cfg) demo_mk demo_name (Runner 1 demo_handlers) "worker-a" None w0 =
      (match r with Ok _ => Ok None | Err e => Err e end, w').
Proof.
  destruct (drain_terminates (H0 := durable_laws demo_cfg) demo_mk demo_name
    (Runner 1 demo_handlers) "worker-a" demo_world) as (r & w0 & w' & Hd & _ & Hr).
  - intros ty h ctx Hh w Hw. simpl in Hh. destruct (decide _); [|discriminate].
    injection Hh as <-. unfold post, keep. destruct (ctx =? 1)%Z; simpl; split; [exact Hw|lia|exact Hw|lia].
  - exact (proj1 demo_files_wf).
  - exists r, w0, w'. split; [exact Hd|exact Hr].
Defined.

Definition demo_pump : pump := Pump false (Some 7%Z) (Some 7%Z) {[ 7%Z := Draining ]}.

Lemma pump_exclusive_witness : drain_call 7 demo_pump = demo_pump.
Proof.
  apply (pump_exclusive "plaik-core" "plaik-core" (Pump true None None ∅) demo_pump).
  - vm_compute. reflexivity.
  - eapply rtc_l; [apply (step_deferred _ false)|].
    eapply rtc_l; [apply (step_call _ 7%Z); vm_compute; discriminate|].
    eapply rtc_l; [apply (step_acquire _ 7%Z); vm_compute; reflexivity|].
    vm_compute. apply rtc_refl.
  - vm_compute. reflexivity.
Defined.

Lemma run_once_outcome_witness :
  ∃ c u, r_status c = RUNNING ∧ r_error_code u = Some "job.keyerror" ∧ r_status u = QUEUED.
Proof.
  destruct (run_once (H := durable_queue demo_cfg) demo_mk demo_name (Runner 1 demo_handlers)
    "worker-a" (Some (Aware minute)) demo_world) as [[[u|]|e] w'] eqn:E; [|vm_compute in E; discriminate..].
  destruct (run_once_outcome demo_cfg demo_mk demo_name 1 demo_handlers "worker-a" minute demo_world u w')
    as (c & _ & Hc & _ & _).
  - exact (proj1 demo_files_wf).
  - vm_compute. reflexivity.
  - intros ty h ctx w Hh. simpl in Hh. destruct (decide _); [|discriminate].
    injection Hh as <-. destruct (ctx =? 1)%Z; reflexivity.
  - intros e. split; [discriminate|]. intros x Hx.
    apply (proj1 (forallb_forall identifier_char (chars "KeyError"))); [vm_compute; reflexivity|].
    by apply list_elem_of_In.
  - exact E.
  - exists c, u. split; [exact Hc|]. vm_compute in E. injection E as Hu Hw'. rewrite <-Hu. split; reflexivity.
Defined.

Lemma routed_completion_witness :
  ∃ c q, (demo_after, Ok (Some c)) =
      (demo_after, (dg_claim (H := durable_queue demo_cfg) demo_router "worker-a" minute None demo_world).1) ∧
    dict_get (jobs_of (w_files demo_after !! q)) (r_id c) = Some c.
Proof.
  destruct (dg_claim (H := durable_queue demo_cfg) demo_router "worker-a" minute None demo_world)
    as [[[c|]|e] w1] eqn:E; [|vm_compute in E; discriminate..].
  destruct (routed_completion demo_cfg demo_router 0 1 "worker-a" minute None demo_world c w1)
    as (q & Hq & _).
  - intros w. reflexivity.
  - reflexivity.
  - discriminate.
  - exact (proj2 demo_files_wf).
  - exact (proj1 demo_files_wf).
  - intros k. left. vm_compute. reflexivity.
  - exact E.
  - exists c, q. split; [reflexivity|]. unfold demo_after. rewrite E. exact Hq.
Defined.
End JobRouting.
