(* ===== verification/HashChain.v ===== *)
(** * Signed hash chains

    What the append-only journals (operation_journal.py, integrity.py) share:
    the canonical JSON of a flat record determines its fields, and a chain of
    records, each carrying the hash of the one before and a keyed hash of its
    own canonical JSON, is determined by its head. *)

From Stdlib Require Import Ascii ZArith Lia.
From stdpp Require Import base decidable countable numbers list sets strings pretty.
From S2P Require Import Prelude PyData JsonGraph.

Module HashChain.
Import JsonGraph.

(** ** Timestamps and lines *)

(** A timestamp: the UTC instant and the offset it is written with; without
    an offset it is naive. *)
Record stamp : Type := Stamp { st_us : Z; st_offset : option Z }.

#[global] Instance stamp_eq_dec : EqDecision stamp.
Proof. solve_decision. Defined.

Definition utc_stamp (us : Z) : stamp := Stamp us (Some 0%Z).

Definition newline : ascii := "010"%char.

(** The lines [readline] gives: each ends with a newline but perhaps the last. *)
Fixpoint split_lines (cur : list ascii) (l : list ascii) : list (list ascii) :=
  match l with
  | [] => match cur with [] => [] | _ => [reverse cur] end
  | c :: l => if decide (c = newline) then reverse (c :: cur) :: split_lines [] l
              else split_lines (c :: cur) l
  end.
Definition read_lines (text : string) : list string := of_chars <$> split_lines [] (chars text).

Definition complete_line (line : string) : bool :=
  match last (chars line) with Some c => bool_decide (c = newline) | None => false end.

Lemma split_lines_newline cur l d :
  split_lines cur (l ++ newline :: d) = split_lines cur (l ++ [newline]) ++ split_lines [] d.
Proof.
  revert cur. induction l as [|c l IH]; intros cur; [done|]; simpl.
  destruct (decide (c = newline)); simpl; by rewrite IH.
Qed.

Lemma split_lines_one cur w :
  newline ∉ w → split_lines cur (w ++ [newline]) = [reverse cur ++ w ++ [newline]].
Proof.
  revert cur. induction w as [|c w IH]; intros cur Hw; simpl.
  - by rewrite reverse_cons.
  - rewrite decide_False by set_solver. rewrite IH by set_solver.
    rewrite reverse_cons. by rewrite <-(assoc_L (++)).
Qed.

Lemma split_lines_complete cur l :
  newline ∉ cur → (∀ w, w ∈ split_lines cur l → last w = Some newline) →
  (l = [] ∧ cur = []) ∨ ∃ l', l = l' ++ [newline].
Proof.
  revert cur. induction l as [|c l IH]; intros cur Hcur Hall; simpl in *.
  - destruct cur as [|a cur]; [by left|]. exfalso. specialize (Hall (reverse (a :: cur)) ltac:(by left)).
    rewrite reverse_cons, last_snoc in Hall. set_solver.
  - right. destruct (decide (c = newline)) as [->|Hne].
    + destruct (IH []) as [[-> _]|[l' ->]]; [set_solver|set_solver|by exists []|by exists (newline :: l')].
    + destruct (IH (c :: cur)) as [[-> ?]|[l' ->]]; [set_solver|done|done|by exists (c :: l')].
Qed.

Lemma complete_line_last w : complete_line (of_chars w) = true ↔ last w = Some newline.
Proof.
  unfold complete_line. rewrite chars_of_chars. destruct (last w) as [c|]; [|done].
  rewrite bool_decide_eq_true. naive_solver.
Qed.

(** A complete line added to a text of complete lines is read last. *)
Lemma read_lines_snoc t w :
  Forall (λ l, complete_line l = true) (read_lines t) → newline ∉ w →
  read_lines (t +:+ of_chars (w ++ [newline])) = read_lines t ++ [of_chars (w ++ [newline])].
Proof.
  intros Hall Hw. unfold read_lines in *. rewrite chars_app, chars_of_chars.
  destruct (split_lines_complete [] (chars t)) as [[-> _]|[l' ->]].
  - set_solver.
  - intros x Hx. apply complete_line_last. rewrite Forall_forall in Hall. apply Hall.
    by apply list_elem_of_fmap_2.
  - simpl. by rewrite split_lines_one.
  - rewrite <-(assoc_L (++)). simpl. rewrite split_lines_newline, fmap_app. f_equal.
    by rewrite split_lines_one.
Qed.

(** A reading loop that accepts only complete lines reads an added line last. *)
Lemma fold_lines_snoc {S} (step : S → string → result S) s0 s t w :
  (∀ s l s', step s l = Ok s' → complete_line l = true) →
  fold_result step s0 (read_lines t) = Ok s → newline ∉ w →
  fold_result step s0 (read_lines (t +:+ of_chars (w ++ [newline]))) = step s (of_chars (w ++ [newline])).
Proof.
  intros Hstep Hs Hw. rewrite read_lines_snoc; [|clear Hw|done].
  - rewrite fold_result_app, Hs. simpl. by destruct (step s _).
  - revert s0 Hs. induction (read_lines t) as [|l ls IH]; intros s0 Hs; [constructor|].
    apply bind_result_ok in Hs as (s1 & H1 & Hs). constructor; [by eapply Hstep|by eapply IH].
Qed.

(** ** Canonical JSON of flat records *)

(** The field types of the journals. *)
Definition scalar (j : json) : bool :=
  match j with JNull | JInt _ | JStr _ => true | _ => false end.

(** Decode one character of a JSON string. *)
Definition unhex (c : ascii) : N := if (code c <=? 57)%N then code c - 48 else code c - 87.
Definition decode_one (l : list ascii) : option (ascii * list ascii) :=
  match l with
  | "092"%char :: "b"%char :: l => Some (ascii_of_N 8, l)
  | "092"%char :: "t"%char :: l => Some (ascii_of_N 9, l)
  | "092"%char :: "n"%char :: l => Some (ascii_of_N 10, l)
  | "092"%char :: "f"%char :: l => Some (ascii_of_N 12, l)
  | "092"%char :: "r"%char :: l => Some (ascii_of_N 13, l)
  | "092"%char :: "u"%char :: _ :: _ :: a :: b :: l => Some (ascii_of_N (16 * unhex a + unhex b), l)
  | "092"%char :: c :: l => Some (c, l)
  | "034"%char :: _ => None
  | c :: l => Some (c, l)
  | [] => None
  end.

Lemma decode_escape c l : decode_one (chars (escape_char c) ++ l) = Some (c, l).
Proof. destruct c as [[] [] [] [] [] [] [] []]; reflexivity. Qed.

Definition escaped (l : list ascii) : list ascii := l ≫= λ c, chars (escape_char c).

Lemma chars_join l : chars (str_join "" l) = l ≫= chars.
Proof.
  unfold str_join. induction l as [|s l IH]; [done|]. csimpl. rewrite <-IH.
  destruct l; simpl; [by rewrite app_nil_r|]. by rewrite chars_app.
Qed.

Lemma chars_dump_str s : chars (dump_str s) = "034"%char :: escaped (chars s) ++ ["034"%char].
Proof.
  unfold dump_str. rewrite !chars_app, chars_join. simpl. f_equal. f_equal.
  unfold escaped. induction (chars s) as [|c l IH]; [done|]. csimpl. by rewrite IH.
Qed.

Lemma escaped_inj l1 l2 r1 r2 :
  escaped l1 ++ "034"%char :: r1 = escaped l2 ++ "034"%char :: r2 → l1 = l2 ∧ r1 = r2.
Proof.
  revert l2. induction l1 as [|c1 l1 IH]; intros l2 E.
  - destruct l2 as [|c2 l2]; [by injection E|]. unfold escaped in E. csimpl in E.
    rewrite <-(assoc_L (++)) in E. apply (f_equal decode_one) in E. by rewrite decode_escape in E.
  - destruct l2 as [|c2 l2]; unfold escaped in E; csimpl in E; rewrite <-?(assoc_L (++)) in E.
    + apply (f_equal decode_one) in E. by rewrite decode_escape in E.
    + apply (f_equal decode_one) in E. rewrite !decode_escape in E. injection E as -> E.
      by apply IH in E as [-> ->].
Qed.

Lemma dump_str_inj s1 s2 r1 r2 :
  chars (dump_str s1) ++ r1 = chars (dump_str s2) ++ r2 → s1 = s2 ∧ r1 = r2.
Proof.
  rewrite !chars_dump_str. simpl. rewrite <-!(assoc_L (++)). simpl.
  intros [= E]. apply escaped_inj in E as [E ->]. by apply chars_inj in E.
Qed.

(** The decimal form of an integer has no separator. *)
Definition digit_char (c : ascii) : Prop := c ∈ chars "-0123456789".

Lemma pretty_N_char_digit x : digit_char (pretty_N_char x).
Proof. unfold digit_char, pretty_N_char. repeat case_match; vm_compute; set_solver. Qed.

Lemma pretty_N_go_digits x s :
  (∀ c, c ∈ chars s → digit_char c) → ∀ c, c ∈ chars (pretty_N_go x s) → digit_char c.
Proof.
  revert s. induction (N.lt_wf_0 x) as [x _ IH]; intros s Hs.
  assert (x = 0 ∨ 0 < x)%N as [->|?] by lia; [by rewrite pretty_N_go_0|].
  rewrite pretty_N_go_step by done. apply IH; [by apply N.div_lt|].
  intros c [->|Hc]%elem_of_cons; [apply pretty_N_char_digit | by apply Hs].
Qed.

Lemma pretty_digits (z : Z) c : c ∈ chars (pretty z) → digit_char c.
Proof.
  assert (∀ p c, c ∈ chars (pretty (N.pos p)) → digit_char c) as Hp.
  { intros p. apply pretty_N_go_digits. intros d Hd. by apply not_elem_of_nil in Hd. }
  destruct z as [|p|p]; simpl.
  - vm_compute. set_solver.
  - apply Hp.
  - intros [->|Hc]%elem_of_cons; [vm_compute; set_solver | by apply (Hp p)].
Qed.

(** What may follow a value: a separator. *)
Definition ends (r : list ascii) : Prop := ∃ c r', r = c :: r' ∧ (c = ","%char ∨ c = "}"%char).

Lemma ends_not_digit c : digit_char c → c = ","%char ∨ c = "}"%char → False.
Proof.
  unfold digit_char. vm_compute. intros H [->| ->];
    repeat (apply elem_of_cons in H as [H|H]; [discriminate|]); by apply not_elem_of_nil in H.
Qed.

Lemma span_inj l1 l2 r1 r2 :
  (∀ c, c ∈ l1 → digit_char c) → (∀ c, c ∈ l2 → digit_char c) → ends r1 → ends r2 →
  l1 ++ r1 = l2 ++ r2 → l1 = l2 ∧ r1 = r2.
Proof.
  revert l2. induction l1 as [|c1 l1 IH]; intros [|c2 l2] H1 H2 He1 He2 E; simpl in *; [done|..].
  - destruct He1 as (c & r & -> & Hc). injection E as -> _.
    destruct (ends_not_digit c2); [apply H2; by left|done].
  - destruct He2 as (c & r & -> & Hc). injection E as <- _.
    destruct (ends_not_digit c1); [apply H1; by left|done].
  - injection E as -> E. apply IH in E as [-> ->]; [done|set_solver|set_solver|done|done].
Qed.

Lemma dump_head_int (z : Z) : ∃ c l, chars (pretty z) = c :: l ∧ digit_char c.
Proof.
  destruct (chars (pretty z)) as [|c l] eqn:E.
  - exfalso. apply (f_equal of_chars) in E. rewrite of_chars_chars in E.
    assert (pretty 1%Z ≠ "" ∧ pretty 0%Z ≠ "") as [_ H0] by done.
    destruct z as [|p|p]; [done| |done].
    cut (∀ x s, pretty_N_go x s = "" → s = "").
    { intros H. unfold pretty, pretty_Z, pretty_positive, pretty, pretty_N in E.
      rewrite decide_False in E by done. rewrite pretty_N_go_step in E by done. by apply H in E. }
    intros x. induction (N.lt_wf_0 x) as [x _ IH]; intros s.
    assert (x = 0 ∨ 0 < x)%N as [->|?] by lia; [by rewrite pretty_N_go_0|].
    rewrite pretty_N_go_step by done. intros Heq. by apply IH in Heq; [|by apply N.div_lt].
  - exists c, l. split; [done|]. apply (pretty_digits z). rewrite E. by left.
Qed.

Lemma scalar_dumps_inj j1 j2 r1 r2 :
  scalar j1 = true → scalar j2 = true → ends r1 → ends r2 →
  chars (json_dumps j1) ++ r1 = chars (json_dumps j2) ++ r2 → j1 = j2 ∧ r1 = r2.
Proof.
  assert (∀ c, digit_char c → c ≠ "n"%char ∧ c ≠ "034"%char) as Hd.
  { intros c. unfold digit_char. intros H. split; intros ->; vm_compute in H;
      repeat (apply elem_of_cons in H as [H|H]; [discriminate|]); by apply not_elem_of_nil in H. }
  intros H1 H2 He1 He2. destruct j1 as [| |z1| |s1| |], j2 as [| |z2| |s2| |]; try done;
    cbn [json_dumps].
  - by intros [= ->].
  - destruct (dump_head_int z2) as (c & l & -> & Hc). intros [= <- _]. by apply Hd in Hc as [].
  - destruct (dump_head_int z1) as (c & l & -> & Hc). intros [= -> _]. by apply Hd in Hc as [].
  - intros E. apply span_inj in E as [E ->]; [|by apply pretty_digits|by apply pretty_digits|done|done].
    by apply chars_inj, (inj pretty) in E as ->.
  - destruct (dump_head_int z1) as (c & l & -> & Hc). rewrite chars_dump_str. intros [= -> _].
    by apply Hd in Hc as [].
  - destruct (dump_head_int z2) as (c & l & -> & Hc). rewrite chars_dump_str. intros [= <- _].
    by apply Hd in Hc as [].
  - intros E. by apply dump_str_inj in E as [-> ->].
Qed.

Definition member_chars (kv : string * json) : list ascii :=
  chars (dump_str kv.1) ++ ":"%char :: chars (json_dumps kv.2).

Fixpoint members_chars (m : list (string * json)) : list ascii :=
  match m with
  | [] => []
  | [kv] => member_chars kv
  | kv :: m => member_chars kv ++ ","%char :: members_chars m
  end.

Lemma chars_join_cons x y l :
  chars (str_join "," (x :: y :: l)) = chars x ++ ","%char :: chars (str_join "," (y :: l)).
Proof. change (str_join "," (x :: y :: l)) with (x +:+ "," +:+ str_join "," (y :: l)). by rewrite !chars_app. Qed.

Lemma chars_members {A} (f : A → string) (g : A → string * json) l :
  (∀ x, chars (f x) = member_chars (g x)) → chars (str_join "," (f <$> l)) = members_chars (g <$> l).
Proof.
  intros Hf. induction l as [|x l IH]; [done|]. destruct l as [|y l]; [apply Hf|].
  change (f <$> x :: y :: l) with (f x :: f y :: (f <$> l)). rewrite chars_join_cons, Hf.
  change (f y :: (f <$> l)) with (f <$> y :: l). by rewrite IH.
Qed.

Lemma chars_obj m : chars (json_dumps (JObj m)) = "{"%char :: members_chars m ++ ["}"%char].
Proof.
  cbn [json_dumps]. rewrite !chars_app, (chars_members _ id), list_fmap_id; [done|].
  intros kv. unfold member_chars. by rewrite !chars_app.
Qed.

Lemma members_inj m1 m2 :
  m1.*1 = m2.*1 → Forall (λ kv, scalar kv.2 = true) m1 → Forall (λ kv, scalar kv.2 = true) m2 →
  members_chars m1 ++ ["}"%char] = members_chars m2 ++ ["}"%char] → m1 = m2.
Proof.
  revert m2. induction m1 as [|[k1 v1] m1 IH]; intros [|[k2 v2] m2] Hk H1 H2 E; try done.
  csimpl in Hk. injection Hk as -> Hk. apply Forall_cons in H1 as [Hv1 H1], H2 as [Hv2 H2].
  assert (∀ k v m, ∃ r, members_chars ((k, v) :: m) ++ ["}"%char] =
    chars (dump_str k) ++ ":"%char :: chars (json_dumps v) ++ r ∧ ends r ∧
    (r = if decide (m = []) then ["}"%char] else ","%char :: members_chars m ++ ["}"%char])) as Hshape.
  { intros k v m. exists (if decide (m = []) then ["}"%char] else ","%char :: members_chars m ++ ["}"%char]).
    split; [|split; [|done]].
    - destruct m as [|kv m]; [simpl; unfold member_chars; simpl; by rewrite <-!(assoc_L (++))|].
      change (members_chars ((k, v) :: kv :: m)) with (member_chars (k, v) ++ ","%char :: members_chars (kv :: m)).
      unfold member_chars at 1. by rewrite <-!(assoc_L (++)).
    - destruct (decide _); eexists _, _; eauto. }
  destruct (Hshape k2 v1 m1) as (r1 & E1 & He1 & Hr1), (Hshape k2 v2 m2) as (r2 & E2 & He2 & Hr2).
  rewrite E1, E2 in E. apply dump_str_inj in E as [_ E]. injection E as E.
  apply scalar_dumps_inj in E as [-> E]; [|done..]. f_equal.
  rewrite Hr1, Hr2 in E. destruct (decide (m1 = [])) as [->|], (decide (m2 = [])) as [->|]; try done.
  injection E as E. by apply IH.
Qed.

(** Two flat objects with the same members in the same order are equal when
    their canonical texts are. *)
Lemma flat_dumps_inj m1 m2 :
  m1.*1 = m2.*1 → Forall (λ kv, scalar kv.2 = true) m1 → Forall (λ kv, scalar kv.2 = true) m2 →
  json_dumps (JObj m1) = json_dumps (JObj m2) → m1 = m2.
Proof.
  intros Hk H1 H2 E. apply (f_equal chars) in E. rewrite !chars_obj in E.
  apply members_inj; [done..|congruence].
Qed.

Lemma scalar_members m :
  forallb (λ kv, scalar kv.2) m = true → Forall (λ kv, scalar kv.2 = true) (dict_sort m).
Proof.
  rewrite forallb_forall. intros H. apply Forall_forall. intros kv Hin.
  apply H, list_elem_of_In. by rewrite elem_of_dict_sort in Hin.
Qed.

(** ** Reading a flat record back

    A parser for the texts above: the instance by which the round-trip
    hypothesis on [json.loads] is shown to hold. *)

Fixpoint parse_str (fuel : nat) (acc l : list ascii) : option (list ascii * list ascii) :=
  match fuel with
  | O => None
  | S fuel =>
      match l with
      | "034"%char :: r => Some (reverse acc, r)
      | _ => match decode_one l with
             | Some (c, r) => parse_str fuel (c :: acc) r
             | None => None
             end
      end
  end.

Fixpoint span_digits (l : list ascii) : list ascii * list ascii :=
  match l with
  | [] => ([], [])
  | c :: l' =>
      if (48 <=? code c)%N && (code c <=? 57)%N
      then let '(d, r) := span_digits l' in (c :: d, r)
      else ([], l)
  end.

Definition push_digit (n : N) (c : ascii) : N := 10 * n + (code c - 48).
Definition decimal (l : list ascii) : N := foldl push_digit 0%N l.

Definition parse_scalar (l : list ascii) : option (json * list ascii) :=
  match l with
  | "034"%char :: r =>
      match parse_str (S (length r)) [] r with
      | Some (s, r) => Some (JStr (of_chars s), r)
      | None => None
      end
  | "n"%char :: "u"%char :: "l"%char :: "l"%char :: r => Some (JNull, r)
  | "-"%char :: r => let '(d, r) := span_digits r in Some (JInt (- Z.of_N (decimal d)), r)
  | _ => let '(d, r) := span_digits l in Some (JInt (Z.of_N (decimal d)), r)
  end.

Fixpoint parse_members (fuel : nat) (l : list ascii) : option (list (string * json)) :=
  match fuel, l with
  | S fuel, "034"%char :: r =>
      match parse_str (S (length r)) [] r with
      | Some (k, ":"%char :: r) =>
          match parse_scalar r with
          | Some (v, ","%char :: r) =>
              match parse_members fuel r with
              | Some m => Some ((of_chars k, v) :: m)
              | None => None
              end
          | Some (v, ["}"%char]) => Some [(of_chars k, v)]
          | _ => None
          end
      | _ => None
      end
  | _, _ => None
  end.

Definition parse_flat (s : string) : option (list (string * json)) :=
  match chars s with
  | "{"%char :: r => parse_members (S (length r)) r
  | _ => None
  end.

Lemma escape_not_quote c l : ∃ d r, chars (escape_char c) ++ l = d :: r ∧ d ≠ "034"%char.
Proof. destruct c as [[] [] [] [] [] [] [] []]; eexists _, _; (split; [reflexivity|discriminate]). Qed.

Lemma parse_str_ok s r acc fuel :
  length s < fuel → parse_str fuel acc (escaped s ++ "034"%char :: r) = Some (reverse acc ++ s, r).
Proof.
  revert acc fuel. induction s as [|c s IH]; intros acc fuel Hf; destruct fuel as [|fuel]; simpl in Hf; try lia.
  - simpl. by rewrite app_nil_r.
  - unfold escaped. csimpl. rewrite <-(assoc_L (++)).
    destruct (escape_not_quote c (escaped s ++ "034"%char :: r)) as (d & t & Ed & Hd).
    pose proof (decode_escape c (escaped s ++ "034"%char :: r)) as Hdec. unfold escaped in Ed, Hdec.
    rewrite Ed in *. cbn [parse_str]. rewrite Hdec.
    assert (∀ X Y : option (list ascii * list ascii),
      (match d with "034"%char => X | _ => Y end) = Y) as Hskip.
    { intros X Y. by destruct d as [[] [] [] [] [] [] [] []]. }
    rewrite Hskip. rewrite (IH (c :: acc)) by lia. rewrite reverse_cons. by rewrite <-(assoc_L (++)).
Qed.

Lemma escaped_length s : length s ≤ length (escaped s).
Proof.
  unfold escaped. induction s as [|c s IH]; [done|]. csimpl. rewrite length_app.
  destruct (escape_not_quote c []) as (d & t & Ed & _). rewrite app_nil_r in Ed. rewrite Ed. simpl. lia.
Qed.

Lemma parse_dumped s r :
  ∃ t, chars (dump_str s) ++ r = "034"%char :: t ∧ parse_str (S (length t)) [] t = Some (chars s, r).
Proof.
  exists (escaped (chars s) ++ "034"%char :: r). rewrite chars_dump_str. split.
  - simpl. by rewrite <-(assoc_L (++)).
  - rewrite parse_str_ok; [done|]. rewrite length_app. pose proof (escaped_length (chars s)). lia.
Qed.

Lemma decimal_go x s n : foldl push_digit n (chars (pretty_N_go x s)) =
  foldl push_digit (if decide (x = 0%N) then n else foldl push_digit n (chars (pretty_N_go x ""))) (chars s).
Proof.
  destruct (decide (x = 0%N)) as [->|Hx]; [by rewrite pretty_N_go_0|].
  assert (∀ s, chars (pretty_N_go x s) = chars (pretty_N_go x "") ++ chars s) as ->; [|by rewrite foldl_app].
  clear Hx s n. induction (N.lt_wf_0 x) as [x _ IH]; intros s.
  assert (x = 0 ∨ 0 < x)%N as [->|?] by lia; [by rewrite !pretty_N_go_0|].
  rewrite !(pretty_N_go_step x) by done. rewrite IH, (IH _ (N.div_lt x 10 ltac:(done) ltac:(done)) (String _ "")) by by apply N.div_lt.
  by rewrite <-(assoc_L (++)).
Qed.

Lemma decimal_pretty x : decimal (chars (pretty x)) = x.
Proof.
  assert (∀ x, (0 < x)%N → foldl push_digit 0%N (chars (pretty_N_go x "")) = x) as Hgo.
  { clear x. intros x. induction (N.lt_wf_0 x) as [x _ IH]; intros Hx.
    rewrite pretty_N_go_step by done. rewrite decimal_go.
    assert (code (pretty_N_char (x `mod` 10)) - 48 = x `mod` 10)%N as Hdig.
    { assert (x `mod` 10 < 10)%N as Hlt by by apply N.mod_lt. revert Hlt.
      generalize (x `mod` 10)%N. intros m Hm.
      assert (m = 0 ∨ m = 1 ∨ m = 2 ∨ m = 3 ∨ m = 4 ∨ m = 5 ∨ m = 6 ∨ m = 7 ∨ m = 8 ∨ m = 9)%N
        as Hcases by lia. by repeat destruct Hcases as [->|Hcases]; [..|subst m]. }
    destruct (decide _) as [E|E]; simpl; unfold push_digit at 1; rewrite Hdig.
    - rewrite (N.div_mod x 10) at 2 by done. lia.
    - rewrite IH by (by apply N.div_lt || by apply N.neq_0_lt_0). rewrite (N.div_mod x 10) at 3 by done. lia. }
  unfold decimal, pretty, pretty_N. destruct (decide (x = 0)%N) as [->|Hx]; [done|]. apply Hgo. lia.
Qed.

Lemma pretty_N_digits (x : N) c : c ∈ chars (pretty x) → (48 ≤ code c ≤ 57)%N.
Proof.
  assert (∀ x s, (∀ c, c ∈ chars s → 48 ≤ code c ≤ 57)%N →
    ∀ c, c ∈ chars (pretty_N_go x s) → (48 ≤ code c ≤ 57)%N) as Hgo.
  { clear x c. intros x. induction (N.lt_wf_0 x) as [x _ IH]; intros s Hs.
    assert (x = 0 ∨ 0 < x)%N as [->|?] by lia; [by rewrite pretty_N_go_0|].
    rewrite pretty_N_go_step by done. apply IH; [by apply N.div_lt|].
    intros c [->|Hc]%elem_of_cons; [|by apply Hs].
    unfold pretty_N_char. repeat case_match; vm_compute; split; discriminate. }
  unfold pretty, pretty_N. destruct (decide _).
  - intros [->|H]%elem_of_cons; [vm_compute; split; discriminate|by apply not_elem_of_nil in H].
  - apply Hgo. intros d Hd. by apply not_elem_of_nil in Hd.
Qed.

Lemma span_digits_ok l r :
  (∀ c, c ∈ l → 48 ≤ code c ≤ 57)%N → ends r → span_digits (l ++ r) = (l, r).
Proof.
  intros Hl (c & r' & -> & Hc). induction l as [|d l IH]; simpl.
  - by destruct Hc as [->| ->].
  - specialize (Hl d ltac:(by left)) as Hd.
    rewrite !(proj2 (N.leb_le _ _)) by lia. simpl. rewrite IH; [done|]. intros e He. apply Hl. by right.
Qed.

Lemma parse_scalar_ok j r : scalar j = true → ends r → parse_scalar (chars (json_dumps j) ++ r) = Some (j, r).
Proof.
  intros Hj Hr. destruct j as [| |z| |s| |]; try done; cbn [json_dumps].
  - assert (∀ p, span_digits (chars (pretty (N.pos p)) ++ r) = (chars (pretty (N.pos p)), r)) as Hspan.
    { intros p. apply span_digits_ok; [apply pretty_N_digits|done]. }
    assert (∀ l, (∀ c, head l = Some c → 48 ≤ code c ≤ 57)%N → l ≠ [] →
      parse_scalar l = let '(d, r) := span_digits l in Some (JInt (Z.of_N (decimal d)), r)) as Hint.
    { intros [|c l] Hc Hne; [done|]. specialize (Hc c eq_refl). unfold parse_scalar.
      by destruct c as [[] [] [] [] [] [] [] []]; try reflexivity; exfalso; vm_compute in Hc; destruct Hc as [H1 H2]; (by apply H1) || (by apply H2). }
    destruct z as [|p|p].
    + destruct Hr as (c & r' & -> & [->| ->]); done.
    + change (pretty (Z.pos p)) with (pretty (N.pos p)).
      assert (∃ c l, chars (pretty (N.pos p)) = c :: l) as (c & l & E).
      { destruct (dump_head_int (Z.pos p)) as (c & l & E & _). by exists c, l. }
      rewrite Hint.
      * rewrite Hspan. by rewrite decimal_pretty.
      * rewrite E. intros d [= <-]. apply (pretty_N_digits (N.pos p)). rewrite E. by left.
      * by rewrite E.
    + change (chars (pretty (Z.neg p)) ++ r) with ("-"%char :: chars (pretty (N.pos p)) ++ r).
      simpl. by rewrite Hspan, decimal_pretty.
  - destruct (parse_dumped s r) as (t & -> & Ht). simpl in *. by rewrite Ht, of_chars_chars.
Qed.

Lemma members_length m : length m ≤ length (members_chars m).
Proof.
  assert (∀ kv, 1 ≤ length (member_chars kv)) as Hkv.
  { intros kv. unfold member_chars. rewrite length_app. simpl. lia. }
  induction m as [|kv m IH]; [done|]. destruct m as [|kv' m]; [apply (Hkv kv)|].
  change (members_chars (kv :: kv' :: m)) with (member_chars kv ++ ","%char :: members_chars (kv' :: m)).
  rewrite length_app. specialize (Hkv kv). simpl length in *. lia.
Qed.

Lemma parse_flat_ok m :
  m ≠ [] → Forall (λ kv, scalar kv.2 = true) m → parse_flat (json_dumps (JObj m)) = Some m.
Proof.
  intros Hne Hm. unfold parse_flat. rewrite chars_obj.
  enough (∀ fuel, length m ≤ fuel → parse_members fuel (members_chars m ++ ["}"%char]) = Some m) as H.
  { apply H. rewrite length_app. pose proof (members_length m). lia. }
  induction Hm as [|[k v] m Hv Hm IH]; [done|]. intros fuel Hf.
  destruct fuel as [|fuel]; simpl in Hf; [lia|].
  destruct m as [|kv' m].
  - change (members_chars [(k, v)]) with (chars (dump_str k) ++ ":"%char :: chars (json_dumps v)).
    rewrite <-(assoc_L (++)). change ((":"%char :: chars (json_dumps v)) ++ ["}"%char]) with (":"%char :: chars (json_dumps v) ++ ["}"%char]).
    destruct (parse_dumped k (":"%char :: chars (json_dumps v) ++ ["}"%char])) as (t & -> & Ht).
    simpl. simpl in Ht. rewrite Ht. rewrite parse_scalar_ok, of_chars_chars; [done|done|]. by eexists _, _; eauto.
  - change (members_chars ((k, v) :: kv' :: m)) with (member_chars (k, v) ++ ","%char :: members_chars (kv' :: m)).
    unfold member_chars. cbn [fst snd]. rewrite <-!(assoc_L (++)). cbn [app].
    destruct (parse_dumped k (":"%char :: (chars (json_dumps v) ++ ","%char :: members_chars (kv' :: m) ++ ["}"%char])))
      as (t & Et & Ht).
    rewrite <-?(assoc_L (++)). cbn [app]. rewrite Et. cbn [parse_members]. rewrite Ht.
    rewrite parse_scalar_ok; [|done|by eexists _, _; eauto].
    rewrite IH by (done || lia). by rewrite of_chars_chars.
Qed.

(** The text of a flat record is one line. *)

Lemma dump_str_no_newline s : newline ∉ chars (dump_str s).
Proof.
  rewrite chars_dump_str. unfold escaped. intros [H|[H|H]%elem_of_app]%elem_of_cons; [done| |set_solver].
  apply list_elem_of_bind in H as (c & Hc & _).
  destruct c as [[] [] [] [] [] [] [] []]; vm_compute in Hc;
    repeat (apply elem_of_cons in Hc as [Hc|Hc]; [discriminate|]); by apply not_elem_of_nil in Hc.
Qed.

Lemma scalar_no_newline j : scalar j = true → newline ∉ chars (json_dumps j).
Proof.
  destruct j as [| |z| |s| |]; try done; intros _; cbn [json_dumps].
  - vm_compute. set_solver.
  - intros H%pretty_digits. vm_compute in H.
    repeat (apply elem_of_cons in H as [H|H]; [discriminate|]); by apply not_elem_of_nil in H.
  - apply dump_str_no_newline.
Qed.

Lemma flat_no_newline m :
  Forall (λ kv, scalar kv.2 = true) m → newline ∉ chars (json_dumps (JObj m)).
Proof.
  intros Hm. rewrite chars_obj.
  assert (∀ kv, scalar kv.2 = true → newline ∉ member_chars kv) as Hkv.
  { intros kv Hs [H|[H|H]%elem_of_cons]%elem_of_app;
      [by apply dump_str_no_newline in H|done|by apply scalar_no_newline in H]. }
  intros [H|[H|H]%elem_of_app]%elem_of_cons; [done| |set_solver].
  induction Hm as [|kv m Hs Hm IH]; [by apply not_elem_of_nil in H|].
  destruct m as [|kv' m]; [by apply (Hkv kv)|].
  apply elem_of_app in H as [H|[H|H]%elem_of_cons]; [by apply (Hkv kv)|done|by apply IH].
Qed.

Definition non_ascii (c : ascii) : bool := (128 <=? code c)%N.

(** [hmac.compare_digest] of two strings. *)
Definition compare_digest (a b : string) : result bool :=
  if any_char non_ascii a || any_char non_ascii b
  then fail TypeErr "comparing strings with non-ASCII characters is not supported"
  else Ok (bool_decide (a = b)).

Lemma compare_digest_ok a b r : compare_digest a b = Ok r → r = bool_decide (a = b).
Proof. unfold compare_digest. destruct (_ || _); [done|]. by intros [= <-]. Qed.

(** ** Chains *)

Section chain.
Context {E : Type} (seq : E → Z) (prev hash payload : E → string) (mac : string → string).

(** Records numbered from [n], the first linked to [p], each signed. *)
Fixpoint chain_ok (n : Z) (p : string) (es : list E) : Prop :=
  match es with
  | [] => True
  | e :: es => seq e = n ∧ prev e = p ∧ hash e = mac (payload e) ∧ chain_ok (n + 1) (hash e) es
  end.

(** The hash the next record links to. *)
Definition head_hash (p : string) (es : list E) : string :=
  match last es with Some e => hash e | None => p end.

Lemma head_hash_snoc p es e : head_hash p (es ++ [e]) = hash e.
Proof. unfold head_hash. by rewrite last_snoc. Qed.

Lemma head_hash_cons p e es : head_hash p (e :: es) = head_hash (hash e) es.
Proof.
  unfold head_hash. rewrite last_cons. by destruct (last es).
Qed.

Lemma chain_snoc n p es e :
  chain_ok n p (es ++ [e]) ↔
  chain_ok n p es ∧ seq e = (n + Z.of_nat (length es))%Z ∧ prev e = head_hash p es ∧
  hash e = mac (payload e).
Proof.
  revert n p. induction es as [|x es IH]; intros n p; simpl.
  - unfold head_hash. simpl. rewrite Z.add_0_r. naive_solver.
  - rewrite IH, head_hash_cons, ?Zpos_P_of_succ_nat. split.
    + intros (? & ? & ? & ? & ? & ? & ?). split_and!; try done. lia.
    + intros ((? & ? & ? & ?) & ? & ? & ?). split_and!; try done. lia.
Qed.

(** Under a collision-free keyed hash a chain is determined by its head. *)
Lemma chain_determined g es1 es2 :
  (∀ p q, mac p = mac q → p = q) → (∀ p, mac p ≠ g) →
  (∀ a b, payload a = payload b → seq a = seq b ∧ prev a = prev b ∧ (hash a = hash b → a = b)) →
  chain_ok 1 g es1 → chain_ok 1 g es2 → head_hash g es1 = head_hash g es2 → es1 = es2.
Proof.
  intros Hinj Hg Hp. revert es2.
  induction es1 as [|e1 es1 IH] using rev_ind; intros es2 H1 H2 Hh.
  - destruct es2 as [|e2 es2 _] using rev_ind; [done|]. exfalso.
    apply chain_snoc in H2 as (_ & _ & _ & Hs). rewrite head_hash_snoc in Hh.
    unfold head_hash in Hh. simpl in Hh. eapply Hg. by rewrite <-Hs.
  - apply chain_snoc in H1 as (H1 & Hseq1 & Hp1 & Hs1). rewrite head_hash_snoc in Hh.
    destruct es2 as [|e2 es2 _] using rev_ind.
    { unfold head_hash in Hh. simpl in Hh. exfalso. eapply Hg. by rewrite <-Hs1, Hh. }
    apply chain_snoc in H2 as (H2 & Hseq2 & Hp2 & Hs2). rewrite head_hash_snoc in Hh.
    assert (payload e1 = payload e2) as Hpay by (apply Hinj; congruence).
    destruct (Hp _ _ Hpay) as (Hseq & Hprev & Heq). rewrite (Heq Hh). f_equal.
    apply IH; [done|done|congruence].
Qed.
End chain.

(** ** Concrete parameters, for the witnesses *)

Definition nibble (a b c d : bool) : ascii := Ascii a b c d false true true false.
Definition bits (c : ascii) : list ascii :=
  match c with Ascii a b c d e f g h => [nibble a b c d; nibble e f g h] end.

(** A collision-free stand-in for the keyed hash. *)
Definition demo_mac (key payload : string) : string := String "m" (of_chars (chars payload ≫= bits)).

Lemma bits_inj l1 l2 : l1 ≫= bits = l2 ≫= bits → l1 = l2.
Proof.
  assert (∀ c1 c2 r1 r2, bits c1 ++ r1 = bits c2 ++ r2 → c1 = c2 ∧ r1 = r2) as Hone.
  { intros [a1 b1 c1 d1 e1 f1 g1 h1] [a2 b2 c2 d2 e2 f2 g2 h2] r1 r2 [= -> -> -> -> -> -> -> -> ->].
    done. }
  revert l2. induction l1 as [|c1 l1 IH]; intros [|c2 l2] E; csimpl in E; [done| | |].
  - by destruct c2.
  - by destruct c1.
  - apply Hone in E as [-> E]. by rewrite (IH _ E).
Qed.

Lemma demo_mac_inj key p q : demo_mac key p = demo_mac key q → p = q.
Proof.
  unfold demo_mac. intros E. injection E as E. apply (f_equal chars) in E.
  rewrite !chars_of_chars in E. by apply bits_inj, chars_inj in E.
Qed.

Lemma demo_mac_ascii key p : any_char non_ascii (demo_mac key p) = false.
Proof.
  apply any_char_false. unfold demo_mac. intros c [->|Hc]%elem_of_cons; [done|].
  change (c ∈ chars (of_chars (chars p ≫= bits))) in Hc. rewrite chars_of_chars in Hc.
  apply list_elem_of_bind in Hc as ([a b d e f g h i] & Hc & _).
  assert (∀ a b d e, non_ascii (nibble a b d e) = false) as Hn by by intros [] [] [] [].
  apply elem_of_cons in Hc as [->|[->|Hc]%elem_of_cons]; [done..|by apply not_elem_of_nil in Hc].
Qed.

(** A text for a timestamp, and its reading. *)
Definition demo_stamp_text {A} `{Countable A} (t : A) : string := pretty (encode t).
Definition demo_stamp_read {A} `{Countable A} (s : string) : option A :=
  match decimal (chars s) with Npos p => decode p | N0 => None end.

Lemma demo_stamp_read_text {A} `{Countable A} (t : A) : demo_stamp_read (demo_stamp_text t) = Some t.
Proof.
  unfold demo_stamp_read, demo_stamp_text. change (pretty (encode t)) with (pretty (N.pos (encode t))).
  rewrite decimal_pretty. apply decode_encode.
Qed.

Lemma demo_stamp_text_inj {A} `{Countable A} (t u : A) : demo_stamp_text t = demo_stamp_text u → t = u.
Proof. intros E. apply (f_equal (demo_stamp_read (A:=A))) in E. rewrite !demo_stamp_read_text in E. congruence. Qed.
End HashChain.
