(* ===== verification/JsonText.v ===== *)
(** * The text of JSON

    [json.loads] on the texts [json.dumps(..., sort_keys=True,
    separators=(",", ":"))] writes ([JsonGraph.json_dumps]): reading a text gives the
    value it was written from, so a canonical text determines its value, and a text is one
    line.  [read_float] stands for [float] on a number with a fraction or an exponent;
    [float_ok] is what the language documents of [repr]. *)

From Stdlib Require Import Ascii ZArith Lia.
From stdpp Require Import base decidable numbers list strings sets pretty.
From S2P Require Import Prelude PyData Regex JsonGraph HashChain.

Module JsonText.
Import JsonGraph HashChain.

(** ** Reading *)

Definition num_char (c : ascii) : bool := (48 <=? code c)%N && (code c <=? 57)%N || one_of "-+.eE" c.
Definition fraction_char (c : ascii) : bool := one_of ".eE" c.

Fixpoint span_number (l : list ascii) : list ascii * list ascii :=
  match l with
  | [] => ([], [])
  | c :: l' => if num_char c then let '(d, r) := span_number l' in (c :: d, r) else ([], l)
  end.

Fixpoint skip (word l : list ascii) : option (list ascii) :=
  match word, l with
  | [], l => Some l
  | c :: word, d :: l => if Ascii.eqb c d then skip word l else None
  | _ :: _, [] => None
  end.

(** An object member up to its value. *)
Definition parse_key (l : list ascii) : option (string * list ascii) :=
  match l with
  | "034"%char :: r =>
      match parse_str (S (length r)) [] r with
      | Some (k, ":"%char :: r) => Some (of_chars k, r)
      | _ => None
      end
  | _ => None
  end.

Section read.
Context (read_float : string → option pyfloat).

Definition number (token : list ascii) : option json :=
  if existsb fraction_char token then f ← read_float (of_chars token); Some (JFloat f)
  else match token with
       | "-"%char :: d => Some (JInt (- Z.of_N (decimal d)))
       | d => Some (JInt (Z.of_N (decimal d)))
       end.

Definition word (w : string) (j : json) (l : list ascii) : option (json * list ascii) :=
  r ← skip (chars w) l; Some (j, r).

(** One value at the front of the text, and the rest. *)
Fixpoint parse_value (fuel : nat) (l : list ascii) : option (json * list ascii) :=
  match fuel, l with
  | S fuel, c :: r =>
      if Ascii.eqb c "034" then
        match parse_str (S (length r)) [] r with Some (s, r) => Some (JStr (of_chars s), r) | None => None end
      else if Ascii.eqb c "[" then
        match skip ["]"%char] r with
        | Some r => Some (JArr [], r)
        | None => match parse_array fuel r with Some (a, r) => Some (JArr a, r) | None => None end
        end
      else if Ascii.eqb c "{" then
        match skip ["}"%char] r with
        | Some r => Some (JObj [], r)
        | None => match parse_object fuel r with Some (m, r) => Some (JObj m, r) | None => None end
        end
      else if num_char c then
        let '(token, r) := span_number l in
        match number token with Some j => Some (j, r) | None => None end
      else if Ascii.eqb c "n" then word "null" JNull l
      else if Ascii.eqb c "t" then word "true" (JBool true) l
      else word "false" (JBool false) l
  | _, _ => None
  end
with parse_array (fuel : nat) (l : list ascii) : option (list json * list ascii) :=
  match fuel with
  | O => None
  | S fuel =>
      match parse_value fuel l with
      | Some (v, ","%char :: r) => match parse_array fuel r with Some (a, r) => Some (v :: a, r) | None => None end
      | Some (v, "]"%char :: r) => Some ([v], r)
      | _ => None
      end
  end
with parse_object (fuel : nat) (l : list ascii) : option (list (string * json) * list ascii) :=
  match fuel with
  | O => None
  | S fuel =>
      match parse_key l with
      | Some (k, r) =>
          match parse_value fuel r with
          | Some (v, ","%char :: r) => match parse_object fuel r with Some (m, r) => Some ((k, v) :: m, r) | None => None end
          | Some (v, "}"%char :: r) => Some ([(k, v)], r)
          | _ => None
          end
      | None => None
      end
  end.

Definition json_loads (text : string) : option json :=
  match parse_value (S (length (chars text))) (chars text) with
  | Some (j, []) => Some j
  | _ => None
  end.

(** ** Floats *)

(** [float(repr(x)) == x], and what [repr] of a finite float looks like. *)
Definition float_ok (f : pyfloat) : Prop :=
  read_float (f_repr f) = Some f ∧ forallb num_char (chars (f_repr f)) = true ∧
  existsb fraction_char (chars (f_repr f)) = true.

Fixpoint jfloats (j : json) : list pyfloat :=
  match j with
  | JFloat f => [f]
  | JArr l => concat (jfloats <$> l)
  | JObj m => concat ((λ kv, jfloats kv.2) <$> m)
  | _ => []
  end.

Definition floats_ok (j : json) : Prop := Forall float_ok (jfloats j).

(** ** Round trip *)

(** What may follow a number. *)
Definition stops (r : list ascii) : Prop := match r with [] => True | c :: _ => num_char c = false end.

Lemma span_number_ok l r : forallb num_char l = true → stops r → span_number (l ++ r) = (l, r).
Proof.
  intros Hl Hr. induction l as [|c l IH]; simpl in *.
  - destruct r as [|c r]; simpl; [done|]. by rewrite Hr.
  - apply andb_true_iff in Hl as [-> Hl]. by rewrite IH.
Qed.

Lemma skip_word (w l : list ascii) : skip w (w ++ l) = Some l.
Proof. induction w as [|c w IH]; simpl; [done|]. by rewrite Ascii.eqb_refl. Qed.

Lemma skip_other (c d : ascii) l : c ≠ d → skip [d] (c :: l) = None.
Proof. intros Hne. unfold skip. by rewrite (proj2 (Ascii.eqb_neq d c)) by congruence. Qed.

(** The text of a number. *)
Lemma pretty_number z : ∃ c l, chars (pretty z) = c :: l ∧ forallb num_char (c :: l) = true ∧
  existsb fraction_char (c :: l) = false ∧ number (c :: l) = Some (JInt z).
Proof.
  assert (∀ x : N, forallb num_char (chars (pretty x)) = true ∧ existsb fraction_char (chars (pretty x)) = false) as Hn.
  { intros x. split.
    - apply forallb_forall. intros c Hc%list_elem_of_In%pretty_N_digits. unfold num_char. by rewrite !(proj2 (N.leb_le _ _)) by lia.
    - apply not_true_iff_false. intros (c & Hc%list_elem_of_In%pretty_N_digits & Hf)%existsb_exists.
      by destruct c as [[] [] [] [] [] [] [] []]; vm_compute in Hf; try discriminate Hf; vm_compute in Hc; destruct Hc as [Hc Hc']; first [by destruct Hc|by destruct Hc']. }
  assert (∀ (x : N) c l, chars (pretty x) = c :: l → number (c :: l) = Some (JInt (Z.of_N x))) as Hdec.
  { intros x c l E. destruct (Hn x) as [_ Hf]. rewrite E in Hf. unfold number. rewrite Hf.
    pose proof (pretty_N_digits x c ltac:(rewrite E; by left)) as Hc.
    rewrite <-(decimal_pretty x) at 1. rewrite E. by destruct c as [[] [] [] [] [] [] [] []]; try reflexivity; vm_compute in Hc; destruct Hc as [Hc _]; destruct Hc. }
  destruct z as [|p|p].
  - exists "0"%char, []. by split_and!.
  - change (pretty (Z.pos p)) with (pretty (N.pos p)).
    destruct (dump_head_int (Z.pos p)) as (c & l & E & _). change (pretty (Z.pos p)) with (pretty (N.pos p)) in E.
    exists c, l. split; [done|]. destruct (Hn (N.pos p)) as [H1 H2]. rewrite E in H1, H2. split_and!; [done..|]. by apply (Hdec (N.pos p)).
  - exists "-"%char, (chars (pretty (N.pos p))). destruct (Hn (N.pos p)) as [H1 H2]. split_and!; [done| | |].
    + simpl. by rewrite H1.
    + simpl. by rewrite H2.
    + unfold number. simpl. rewrite H2. by rewrite decimal_pretty.
Qed.

Fixpoint jsize (j : json) : nat :=
  match j with
  | JArr l => S (sum_list ((λ x, S (jsize x)) <$> l))
  | JObj m => S (sum_list ((λ kv, S (jsize kv.2)) <$> m))
  | _ => 1
  end.

(** Every text begins with a character that closes nothing. *)
Lemma dumps_head j : floats_ok j → ∃ c l, chars (json_dumps j) = c :: l ∧ c ≠ "]"%char.
Proof.
  intros Hf. destruct j as [|[]|z|f|s|l|m]; cbn [json_dumps].
  - by eexists _, _.
  - by eexists _, _.
  - by eexists _, _.
  - destruct (pretty_number z) as (c & l & -> & Hc & _). exists c, l. split; [done|]. by intros ->.
  - apply Forall_singleton in Hf as (_ & Hn & Hx). destruct (chars (f_repr f)) as [|c l]; [done|]. exists c, l. split; [done|]. by intros ->.
  - rewrite chars_dump_str. by eexists _, _.
  - rewrite !chars_app. by eexists _, _.
  - rewrite !chars_app. by eexists _, _.
Qed.

Lemma parse_number_ok fuel c l r j :
  forallb num_char (c :: l) = true → number (c :: l) = Some j → stops r →
  parse_value (S fuel) ((c :: l) ++ r) = Some (j, r).
Proof.
  intros Hn Hj Hr. pose proof (span_number_ok _ r Hn Hr) as Hspan. cbn [app] in *. cbn [parse_value].
  assert (num_char c = true) as Hc by (cbn in Hn; by apply andb_true_iff in Hn as [? _]).
  rewrite Hspan, Hj, Hc. destruct c as [[] [] [] [] [] [] [] []]; try discriminate Hc; reflexivity.
Qed.

Definition value_ok (j : json) : Prop := ∀ fuel r,
  floats_ok j → stops r → jsize j ≤ fuel → parse_value fuel (chars (json_dumps j) ++ r) = Some (j, r).

Lemma parse_array_ok l r fuel :
  Forall value_ok l → Forall floats_ok l → l ≠ [] → sum_list ((λ x, S (jsize x)) <$> l) ≤ fuel →
  parse_array fuel (chars (str_join "," (json_dumps <$> l)) ++ "]"%char :: r) = Some (l, r).
Proof.
  revert fuel. induction l as [|x l IH]; intros fuel Hl Hf Hne Hfuel; [done|].
  apply Forall_cons in Hl as [Hx Hl], Hf as [Hfx Hf]. csimpl in Hfuel. destruct fuel as [|fuel]; [lia|].
  destruct l as [|y l].
  - cbn [fmap list_fmap str_join parse_array]. rewrite Hx by (done || simpl in Hfuel; lia). done.
  - change (json_dumps <$> x :: y :: l) with (json_dumps x :: json_dumps y :: (json_dumps <$> l)).
    rewrite chars_join_cons, <-(assoc_L (++)). cbn [app parse_array]. rewrite Hx by (done || lia).
    change (json_dumps y :: (json_dumps <$> l)) with (json_dumps <$> y :: l). by rewrite IH by (done || lia).
Qed.

Lemma parse_key_ok k r : parse_key (chars (dump_str k) ++ ":"%char :: r) = Some (k, r).
Proof.
  destruct (parse_dumped k (":"%char :: r)) as (t & -> & Ht). unfold parse_key. by rewrite Ht, of_chars_chars.
Qed.

Lemma parse_object_ok m r fuel :
  Forall (λ kv, value_ok kv.2) m → Forall (λ kv, floats_ok kv.2) m → m ≠ [] →
  sum_list ((λ kv, S (jsize kv.2)) <$> m) ≤ fuel →
  parse_object fuel (members_chars m ++ "}"%char :: r) = Some (m, r).
Proof.
  revert fuel. induction m as [|[k v] m IH]; intros fuel Hm Hf Hne Hfuel; [done|].
  apply Forall_cons in Hm as [Hv Hm], Hf as [Hfv Hf]. csimpl in Hfuel. destruct fuel as [|fuel]; [lia|]. cbn [snd] in *.
  destruct m as [|kv m].
  - change (members_chars [(k, v)]) with (member_chars (k, v)). unfold member_chars. cbn [fst snd parse_object].
    rewrite <-(assoc_L (++)). cbn [app]. rewrite parse_key_ok, Hv by (done || simpl in Hfuel; lia). done.
  - change (members_chars ((k, v) :: kv :: m)) with (member_chars (k, v) ++ ","%char :: members_chars (kv :: m)).
    unfold member_chars. cbn [fst snd parse_object]. rewrite <-!(assoc_L (++)). cbn [app]. rewrite parse_key_ok.
    rewrite Hv by (done || lia). by rewrite IH by (done || lia).
Qed.

Lemma chars_arr l : chars (json_dumps (JArr l)) = "["%char :: chars (str_join "," (json_dumps <$> l)) ++ ["]"%char].
Proof. cbn [json_dumps]. by rewrite !chars_app. Qed.

Lemma floats_ok_arr l : floats_ok (JArr l) → Forall floats_ok l.
Proof. unfold floats_ok. cbn [jfloats]. rewrite Forall_concat, Forall_fmap. done. Qed.

Lemma floats_ok_obj m : floats_ok (JObj m) ↔ Forall (λ kv, floats_ok kv.2) m.
Proof. unfold floats_ok. cbn [jfloats]. by rewrite Forall_concat, Forall_fmap. Qed.

Lemma parse_value_ok j : value_ok j.
Proof.
  induction j as [j Hleaf|l IH|m IH] using json_ind'; intros fuel r Hf Hr Hfuel.
  - destruct fuel as [|fuel]; [by destruct j; simpl in Hfuel; lia|].
    destruct j as [|[]|z|f|s| |]; try done; cbn [json_dumps].
    + destruct (pretty_number z) as (c & l & -> & Hn & _ & Hj). by apply parse_number_ok.
    + apply Forall_singleton in Hf as (Hread & Hn & Hx). destruct (chars (f_repr f)) as [|c l] eqn:E; [done|].
      apply parse_number_ok; [done| |done]. unfold number. rewrite Hx. rewrite <-E, of_chars_chars, Hread. done.
    + destruct (parse_dumped s r) as (t & -> & Ht). cbn [parse_value Ascii.eqb]. simpl in *. by rewrite Ht, of_chars_chars.
  - destruct fuel as [|fuel]; [simpl in Hfuel; lia|]. rewrite chars_arr. cbn [app]. rewrite <-(assoc_L (++)).
    cbn [app]. destruct l as [|x l]; [done|]. apply floats_ok_arr in Hf. pose proof Hf as Hhead. apply Forall_cons in Hhead as [Hhead _].

    cbn [parse_value]. change (Ascii.eqb "[" "034") with false. change (Ascii.eqb "[" "[") with true.
    destruct (dumps_head _ Hhead) as (c & t & Ec & Hc).
    assert (skip ["]"%char] (chars (str_join "," (json_dumps <$> x :: l)) ++ "]"%char :: r) = None) as ->.
    { destruct l as [|y l].
      - change (str_join "," (json_dumps <$> [x])) with (json_dumps x). rewrite Ec. by apply skip_other.
      - change (json_dumps <$> x :: y :: l) with (json_dumps x :: json_dumps y :: (json_dumps <$> l)).
        rewrite chars_join_cons, Ec. by apply skip_other. }
    rewrite parse_array_ok; [done|done|done|done|]. cbn [jsize] in Hfuel. lia.
  - destruct fuel as [|fuel]; [simpl in Hfuel; lia|]. rewrite chars_obj. cbn [app]. rewrite <-(assoc_L (++)). cbn [app].
    destruct m as [|[k v] m]; [done|]. apply floats_ok_obj in Hf.
    cbn [parse_value]. change (Ascii.eqb "{" "034") with false. change (Ascii.eqb "{" "[") with false. change (Ascii.eqb "{" "{") with true.
    assert (skip ["}"%char] (members_chars ((k, v) :: m) ++ "}"%char :: r) = None) as ->.
    { assert (∃ t, members_chars ((k, v) :: m) = "034"%char :: t) as [t ->]; [|done].
      destruct m; [change (members_chars [(k, v)]) with (member_chars (k, v))|change (members_chars ((k, v) :: p :: m)) with (member_chars (k, v) ++ ","%char :: members_chars (p :: m))];
        unfold member_chars; cbn [fst snd]; rewrite chars_dump_str; by eexists. }
    rewrite parse_object_ok; [done|done|done|done|]. cbn [jsize] in Hfuel. lia.
Qed.

Lemma json_loads_fuel j : floats_ok j → jsize j ≤ length (chars (json_dumps j)).
Proof.
  induction j as [j Hleaf|l IH|m IH] using json_ind'; intros Hf.
  - destruct (dumps_head j Hf) as (c & t & -> & _). destruct j; simpl in *; try done; lia.
  - rewrite chars_arr. cbn [jsize length]. rewrite length_app. cbn [length]. apply floats_ok_arr in Hf.
    enough (sum_list ((λ x, S (jsize x)) <$> l) ≤ S (length (chars (str_join "," (json_dumps <$> l))))) by lia.
    induction l as [|x l IHl]; [simpl; lia|]. apply Forall_cons in IH as [Hx IH], Hf as [Hfx Hf]. specialize (IHl IH Hf). specialize (Hx Hfx).
    destruct l as [|y l]; [change (str_join "," (json_dumps <$> [x])) with (json_dumps x); simpl in *; lia|].
    change (json_dumps <$> x :: y :: l) with (json_dumps x :: json_dumps y :: (json_dumps <$> l)).
    rewrite chars_join_cons. csimpl in *. rewrite length_app. cbn [length]. lia.
  - rewrite chars_obj. cbn [jsize length]. rewrite length_app. cbn [length]. apply floats_ok_obj in Hf.
    enough (sum_list ((λ kv, S (jsize kv.2)) <$> m) ≤ S (length (members_chars m))) by lia.
    induction m as [|[k v] m IHm]; [simpl; lia|]. apply Forall_cons in IH as [Hx IH], Hf as [Hfx Hf]. specialize (IHm IH Hf). specialize (Hx Hfx).
    assert (S (jsize v) ≤ length (member_chars (k, v))) as Hkv.
    { unfold member_chars. rewrite length_app. cbn [length fst snd] in *. lia. }
    destruct m as [|kv m]; [change (members_chars [(k, v)]) with (member_chars (k, v)); simpl in *; lia|].
    change (members_chars ((k, v) :: kv :: m)) with (member_chars (k, v) ++ ","%char :: members_chars (kv :: m)).
    csimpl in *. rewrite length_app. cbn [length]. lia.
Qed.

(** Reading a text gives the value it was written from. *)
Lemma json_loads_dumps j : floats_ok j → json_loads (json_dumps j) = Some j.
Proof.
  intros Hf. unfold json_loads.
  pose proof (parse_value_ok j (S (length (chars (json_dumps j)))) [] Hf I) as H. rewrite app_nil_r in H.
  rewrite H; [done|]. pose proof (json_loads_fuel j Hf). lia.
Qed.

Lemma json_dumps_inj i j : floats_ok i → floats_ok j → json_dumps i = json_dumps j → i = j.
Proof. intros Hi Hj E. apply json_loads_dumps in Hi, Hj. congruence. Qed.

(** A text is one line. *)
Lemma dumps_no_newline j : floats_ok j → newline ∉ chars (json_dumps j).
Proof.
  induction j as [j Hleaf|l IH|m IH] using json_ind'; intros Hf.
  - destruct j as [|[]|z|f|s| |]; try done; [by apply scalar_no_newline|vm_compute; set_solver|vm_compute; set_solver|by apply scalar_no_newline| |by apply scalar_no_newline].
    apply Forall_singleton in Hf as (_ & Hn & _). cbn [json_dumps]. rewrite forallb_forall in Hn.
    intros H%list_elem_of_In%Hn. done.
  - apply floats_ok_arr in Hf. rewrite chars_arr. intros [H|[H|H]%elem_of_app]%elem_of_cons; [done| |set_solver].
    induction l as [|x l IHl]; [by apply not_elem_of_nil in H|]. apply Forall_cons in IH as [Hx IH], Hf as [Hfx Hf].
    destruct l as [|y l]; [by apply Hx|].
    change (json_dumps <$> x :: y :: l) with (json_dumps x :: json_dumps y :: (json_dumps <$> l)) in H.
    rewrite chars_join_cons in H. apply elem_of_app in H as [H|[H|H]%elem_of_cons]; [by apply Hx|done|by apply IHl].
  - apply floats_ok_obj in Hf. rewrite chars_obj. intros [H|[H|H]%elem_of_app]%elem_of_cons; [done| |set_solver].
    assert (∀ k v, (newline ∉ chars (json_dumps v)) → newline ∉ member_chars (k, v)) as Hkv.
    { intros k v Hv. unfold member_chars. intros [H'|[H'|H']%elem_of_cons]%elem_of_app; [by apply dump_str_no_newline in H'|done|by apply Hv]. }
    induction m as [|[k v] m IHm]; [by apply not_elem_of_nil in H|]. apply Forall_cons in IH as [Hx IH], Hf as [Hfx Hf].
    destruct m as [|kv m]; [by apply (Hkv k v); [apply Hx|]|].
    change (members_chars ((k, v) :: kv :: m)) with (member_chars (k, v) ++ ","%char :: members_chars (kv :: m)) in H.
    apply elem_of_app in H as [H|[H|H]%elem_of_cons]; [by apply (Hkv k v); [apply Hx|]|done|by apply IHm].
Qed.
End read.

(** ** [sort_keys=True] *)

(** The value whose members [json.dumps] writes in key order, at every depth. *)
Fixpoint sort_json (j : json) : json :=
  match j with
  | JArr l => JArr (sort_json <$> l)
  | JObj m => JObj (dict_sort ((λ kv, (kv.1, sort_json kv.2)) <$> m))
  | _ => j
  end.

Lemma sort_json_id j : canonical j → sort_json j = j.
Proof.
  induction j as [j Hleaf|l IH|m IH] using json_ind'; intros Hc; [by destruct j|..]; cbn [sort_json]; inversion Hc as [? Hl|? Hl|? Hs Hl]; subst; try done.
  - f_equal. clear Hc. induction l as [|x l IHl]; [done|]. apply Forall_cons in IH as [Hx IH], Hl as [Hlx Hl]. csimpl. by rewrite Hx, IHl.
  - assert ((λ kv : string * json, (kv.1, sort_json kv.2)) <$> m = m) as ->.
    { clear Hc Hs. induction m as [|[k v] m IHm]; [done|]. apply Forall_cons in IH as [Hx IH], Hl as [Hlx Hl]. csimpl. cbn [snd] in *. by rewrite Hx, IHm. }
    f_equal. by apply sort_by_id.
Qed.

Lemma floats_ok_sort read_float j : floats_ok read_float j → floats_ok read_float (sort_json j).
Proof.
  induction j as [j Hleaf|l IH|m IH] using json_ind'; intros Hf; [by destruct j|..]; cbn [sort_json].
  - apply floats_ok_arr in Hf. unfold floats_ok. cbn [jfloats]. rewrite Forall_concat, !Forall_fmap.
    rewrite Forall_forall in IH, Hf. apply Forall_forall. intros x Hx. by apply IH, Hf.
  - apply floats_ok_obj. apply floats_ok_obj in Hf. unfold dict_sort. rewrite sort_by_perm, Forall_fmap.
    rewrite Forall_forall in IH, Hf. apply Forall_forall. intros x Hx. by apply IH, Hf.
Qed.
End JsonText.
