(* ===== verification/OperationJournal.v ===== *)
(** * The operation journal (operation_journal.py)

    The journal file is the state: [None] when it does not exist, else its
    bytes.  Every public method is one critical section (thread lock and
    [flock]) that reads and verifies the whole file and appends at most one
    line.  Parameters: [hmac_hex key payload] (hmac, hashlib), [isoformat] and
    [dump_stamp] (the texts [datetime.isoformat] and pydantic give a
    timestamp) and [parse_line] ([json.loads] and pydantic's validation of a
    line).  The file's permissions and identity checks are not modelled. *)

From Stdlib Require Import Ascii ZArith Lia.
From stdpp Require Import base decidable numbers list strings sets pretty.
From S2P Require Import Prelude PyData Regex JsonGraph HashChain.

Module Journal.
Import JsonGraph HashChain.

(** ** Data *)

Definition GENESIS_HASH : string := of_chars (repeat "0"%char 64).
Definition MAX_OPERATION_RECORD_BYTES : Z := 16 * 1024.

Definition op_char (extra : string) (c : ascii) : bool := is_alnum c || one_of extra c.
Definition name_char (extra : string) (c : ascii) : bool := is_lower c || is_digit c || one_of extra c.

Definition OPERATION_ID : re := Seq (Chr is_alnum) (Rep 7 127 (Chr (op_char "._:-"))).
Definition NAME : re := Seq (Chr is_lower) (Rep 1 127 (Chr (name_char "_.:-"))).
Definition TARGET : re := Seq (Chr is_alnum) (Rep 1 255 (Chr (op_char "._:/-"))).
Definition ERROR_CODE : re := Seq (Chr is_lower) (Rep 1 127 (Chr (name_char "_.-"))).

Inductive OperationStatus : Type := STARTED | SUCCEEDED | FAILED.

#[global] Instance OperationStatus_eq_dec : EqDecision OperationStatus.
Proof. solve_decision. Defined.

(** [status.value]. *)
Definition status_value (s : OperationStatus) : string :=
  match s with STARTED => "started" | SUCCEEDED => "succeeded" | FAILED => "failed" end.

Record OperationEvent : Type := {
  e_sequence : Z;
  e_operation_id : string;
  e_attempt : Z;
  e_action : string;
  e_target : string;
  e_status : OperationStatus;
  e_occurred_at : stamp;
  e_error_code : option string;
  e_previous_hash : string;
  e_event_hash : string;
}.

Record OperationState : Type := {
  o_operation_id : string;
  o_attempt : Z;
  o_action : string;
  o_target : string;
  o_status : OperationStatus;
  o_started_at : stamp;
  o_finished_at : option stamp;
  o_error_code : option string;
  o_last_sequence : Z;
}.

Record OperationJournalVerification : Type := {
  v_event_count : Z;
  v_operation_count : Z;
  v_pending_count : Z;
  v_head_hash : string;
}.

(** ** Field validation *)

Definition validate_operation_id (v : string) : result string :=
  if fullmatch OPERATION_ID v then Ok v else fail ValueErr "invalid operation ID".
Definition validate_name (v label : string) : result string :=
  if fullmatch NAME v then Ok v else fail ValueErr ("invalid operation " +:+ label).
Definition validate_target (v : string) : result string :=
  if fullmatch TARGET v then Ok v else fail ValueErr "invalid operation target".
Definition validate_error_code (v : string) : result string :=
  if fullmatch ERROR_CODE v then Ok v else fail ValueErr "invalid safe operation error code".

(** [_as_utc] of an argument, and of a timestamp read back. *)
Definition as_utc : datetime → result Z := as_utc_msg "operation timestamp must be timezone-aware".
Definition stamp_as_utc (t : stamp) : result Z :=
  as_utc (match st_offset t with Some _ => Aware (st_us t) | None => Naive (st_us t) end).
Definition timestamp_of (clock : Z) (now : option datetime) : result Z :=
  as_utc (or_default now (Aware clock)).

Definition integrity {A} (msg : string) : result A := fail OperationJournalIntegrityError msg.
Definition integrity_if (b : bool) (msg : string) : result unit :=
  fail_if b OperationJournalIntegrityError msg.

Definition validate_event_fields (e : OperationEvent) : result unit :=
  _ ← validate_operation_id (e_operation_id e);
  _ ← validate_name (e_action e) "action";
  _ ← validate_target (e_target e);
  _ ← integrity_if (e_attempt e <? 1)%Z "operation attempt must be positive";
  _ ← result_catch (stamp_as_utc (e_occurred_at e)) (λ x,
        if exn_in x [ValueErr] then Some (integrity "operation timestamp must be timezone-aware") else None);
  match e_status e with
  | FAILED =>
      match e_error_code e with
      | None => integrity "failed operation requires an error code"
      | Some code => _ ← validate_error_code code; Ok tt
      end
  | _ => integrity_if (bool_decide (e_error_code e ≠ None)) "only failed operations may contain an error code"
  end.

(** ** The state of an operation *)

Definition initial_state (e : OperationEvent) : OperationState :=
  {| o_operation_id := e_operation_id e; o_attempt := e_attempt e; o_action := e_action e;
     o_target := e_target e; o_status := STARTED; o_started_at := e_occurred_at e;
     o_finished_at := None; o_error_code := None; o_last_sequence := e_sequence e |}.

Definition terminal_state (s : OperationState) (e : OperationEvent) : OperationState :=
  {| o_operation_id := o_operation_id s; o_attempt := o_attempt s; o_action := o_action s;
     o_target := o_target s; o_status := e_status e; o_started_at := o_started_at s;
     o_finished_at := Some (e_occurred_at e); o_error_code := e_error_code e;
     o_last_sequence := e_sequence e |}.

(** [t < u] for aware timestamps. *)
Definition stamp_lt (t u : stamp) : bool := (st_us t <? st_us u)%Z.

(** [current.finished_at is None or t < current.finished_at]. *)
Definition before_finish (t : stamp) (s : OperationState) : bool :=
  match o_finished_at s with None => true | Some f => stamp_lt t f end.

Definition apply_event (current : option OperationState) (e : OperationEvent) : result OperationState :=
  _ ← validate_event_fields e;
  match current with
  | None =>
      _ ← integrity_if (bool_decide (e_status e ≠ STARTED) || negb (e_attempt e =? 1)%Z)
            "an operation must begin with started attempt 1";
      Ok (initial_state e)
  | Some s =>
      _ ← integrity_if (bool_decide (o_action s ≠ e_action e) || bool_decide (o_target s ≠ e_target e))
            "operation action and target must remain immutable";
      if decide (e_status e = STARTED) then
        _ ← integrity_if (bool_decide (o_status s ≠ FAILED)) "only a failed operation can begin another attempt";
        _ ← integrity_if (negb (e_attempt e =? o_attempt s + 1)%Z) "invalid operation retry attempt";
        _ ← integrity_if (before_finish (e_occurred_at e) s) "operation retry predates the previous attempt";
        Ok (initial_state e)
      else
        _ ← integrity_if (bool_decide (o_status s ≠ STARTED) || negb (e_attempt e =? o_attempt s)%Z)
              "invalid terminal operation transition";
        _ ← integrity_if (stamp_lt (e_occurred_at e) (o_started_at s)) "terminal operation event predates its attempt";
        Ok (terminal_state s e)
  end.

(** ** The file *)

Definition store : Type := option string.

Section journal.
Context (hmac_hex : string → string → string) (isoformat dump_stamp : stamp → string)
  (parse_line : string → result OperationEvent) (integrity_key : string).

Definition opt_str (o : option string) : json := match o with Some s => JStr s | None => JNull end.

(** [_event_body]. *)
Definition event_body (e : OperationEvent) : json :=
  JObj (dict_sort
    [("sequence", JInt (e_sequence e)); ("operation_id", JStr (e_operation_id e));
     ("attempt", JInt (e_attempt e)); ("action", JStr (e_action e)); ("target", JStr (e_target e));
     ("status", JStr (status_value (e_status e))); ("occurred_at", JStr (isoformat (e_occurred_at e)));
     ("error_code", opt_str (e_error_code e)); ("previous_hash", JStr (e_previous_hash e))]).

(** [_sign]. *)
Definition sign (body : json) : string := hmac_hex integrity_key (json_dumps body).

(** [event.model_dump(mode="json")]. *)
Definition event_dump (e : OperationEvent) : json :=
  JObj (dict_sort
    [("sequence", JInt (e_sequence e)); ("operation_id", JStr (e_operation_id e));
     ("attempt", JInt (e_attempt e)); ("action", JStr (e_action e)); ("target", JStr (e_target e));
     ("status", JStr (status_value (e_status e))); ("occurred_at", JStr (dump_stamp (e_occurred_at e)));
     ("error_code", opt_str (e_error_code e)); ("previous_hash", JStr (e_previous_hash e));
     ("event_hash", JStr (e_event_hash e))]).

(** The line [_append_line] writes. *)
Definition render (e : OperationEvent) : string := json_dumps (event_dump e) +:+ of_chars [newline].

Record scan : Type := Scan {
  sc_line : Z;
  sc_previous : string;
  sc_events : list OperationEvent;
  sc_states : dict string OperationState;
}.

Definition at_line (what : string) (n : Z) (rest : string) : string :=
  what +:+ " at line " +:+ pretty n +:+ rest.

(** The body of the reading loop, on the next line. *)
Definition read_step (s : scan) (line : string) : result scan :=
  let n := (sc_line s + 1)%Z in
  _ ← integrity_if (MAX_OPERATION_RECORD_BYTES <? Z.of_nat (utf8_len line))%Z
        ("operation journal line " +:+ pretty n +:+ " exceeds the size limit");
  _ ← integrity_if (negb (complete_line line))
        ("operation journal line " +:+ pretty n +:+ " is incomplete");
  event ← parse_line line;
  _ ← integrity_if (negb (e_sequence event =? n)%Z) (at_line "invalid operation sequence" n "");
  _ ← integrity_if (bool_decide (e_previous_hash event ≠ sc_previous s)) (at_line "broken operation chain" n "");
  same ← compare_digest (e_event_hash event) (sign (event_body event));
  _ ← integrity_if (negb same) (at_line "invalid operation signature" n "");
  st ← apply_event (dict_get (sc_states s) (e_operation_id event)) event;
  Ok (Scan n (e_event_hash event) (sc_events s ++ [event])
        (dict_set (sc_states s) (e_operation_id event) st)).

Definition empty_scan : scan := Scan 0 GENESIS_HASH [] [].

(** The loop, and its [except] clauses (an integrity error is a RuntimeError). *)
Definition scan_text (text : string) : result scan :=
  result_catch (fold_result read_step empty_scan (read_lines text)) (λ x,
    if exn_in x [OSErr; TypeErr; ValueErr] then Some (integrity "operation journal cannot be verified")
    else None).

(** [_read_and_verify]. *)
Definition read_and_verify (c : store) : result (list OperationEvent * dict string OperationState) :=
  match c with
  | None => Ok ([], [])
  | Some text => s ← scan_text text; Ok (sc_events s, sc_states s)
  end.

Definition read : M store (list OperationEvent * dict string OperationState) :=
  λ c, (read_and_verify c, c).

(** [_append_line]. *)
Definition append_line (e : OperationEvent) : M store unit :=
  _ ← raise_if (MAX_OPERATION_RECORD_BYTES <? Z.of_nat (utf8_len (render e)))%Z ValueErr
        "operation journal event exceeds the size limit";
  modify_st (λ c, Some (or_default c "" +:+ render e)).

(** [_new_event]. *)
Definition new_event (events : list OperationEvent) (id : string) (attempt : Z) (action target : string)
    (status : OperationStatus) (occurred_at : Z) (error_code : option string) : OperationEvent :=
  let unsigned h :=
    {| e_sequence := Z.of_nat (length events) + 1; e_operation_id := id; e_attempt := attempt;
       e_action := action; e_target := target; e_status := status;
       e_occurred_at := utc_stamp occurred_at; e_error_code := error_code;
       e_previous_hash := head_hash e_event_hash GENESIS_HASH events; e_event_hash := h |} in
  unsigned (sign (event_body (unsigned ""))).

Definition require_same_operation (s : OperationState) (action target : string) : result unit :=
  fail_if (bool_decide (o_action s ≠ action) || bool_decide (o_target s ≠ target)) OperationConflictError
    "operation ID is already bound to a different action or target".

Definition require_state (states : dict string OperationState) (id : string) : result OperationState :=
  match dict_get states id with
  | Some s => Ok s
  | None => fail OperationTransitionError ("unknown operation: " +:+ id)
  end.

Definition begin (clock : Z) (id action target : string) (now : option datetime) : M store OperationState :=
  id ← lift (validate_operation_id id);
  action ← lift (validate_name action "action");
  target ← lift (validate_target target);
  timestamp ← lift (timestamp_of clock now);
  es ← read;
  match dict_get es.2 id with
  | Some existing => _ ← lift (require_same_operation existing action target); mret existing
  | None =>
      let event := new_event es.1 id 1 action target STARTED timestamp None in
      _ ← append_line event;
      mret (initial_state event)
  end.

Definition retry (clock : Z) (id : string) (now : option datetime) : M store OperationState :=
  id ← lift (validate_operation_id id);
  timestamp ← lift (timestamp_of clock now);
  es ← read;
  current ← lift (require_state es.2 id);
  match o_status current with
  | STARTED => mret current
  | SUCCEEDED => raise OperationTransitionError "a succeeded operation cannot be retried"
  | FAILED =>
      _ ← raise_if (before_finish (utc_stamp timestamp) current) OperationTransitionError
            "operation retry predates the previous attempt";
      let event := new_event es.1 id (o_attempt current + 1) (o_action current) (o_target current)
                     STARTED timestamp None in
      _ ← append_line event;
      mret (initial_state event)
  end.

(** [_finish]. *)
Definition finish (clock : Z) (id : string) (status : OperationStatus) (error_code : option string)
    (now : option datetime) : M store OperationState :=
  id ← lift (validate_operation_id id);
  timestamp ← lift (timestamp_of clock now);
  es ← read;
  current ← lift (require_state es.2 id);
  if bool_decide (o_status current = status) &&
     (bool_decide (status ≠ FAILED) || bool_decide (o_error_code current = error_code))
  then mret current
  else
    _ ← raise_if (bool_decide (o_status current ≠ STARTED)) OperationTransitionError
          ("cannot mark " +:+ status_value (o_status current) +:+ " operation as " +:+ status_value status);
    _ ← lift (integrity_if (stamp_lt (utc_stamp timestamp) (o_started_at current))
          "terminal operation event predates its attempt");
    let event := new_event es.1 id (o_attempt current) (o_action current) (o_target current)
                   status timestamp error_code in
    _ ← append_line event;
    mret (terminal_state current event).

Definition succeed (clock : Z) (id : string) (now : option datetime) : M store OperationState :=
  finish clock id SUCCEEDED None now.

Definition fail_operation (clock : Z) (id error_code : string) (now : option datetime) : M store OperationState :=
  code ← lift (validate_error_code error_code);
  finish clock id FAILED (Some code) now.

Definition state (id : string) : M store (option OperationState) :=
  id ← lift (validate_operation_id id);
  es ← read;
  mret (dict_get es.2 id).

Definition states : M store (dict string OperationState) := es ← read; mret (dict_sort es.2).

Definition is_pending (s : OperationState) : bool := bool_decide (o_status s = STARTED).

Definition pending : M store (list OperationState) :=
  d ← states; mret (List.filter is_pending (dict_values d)).

Definition events : M store (list OperationEvent) := es ← read; mret es.1.

Definition verify (expected_head : option string) : M store OperationJournalVerification :=
  es ← read;
  let head := head_hash e_event_hash GENESIS_HASH es.1 in
  _ ← match expected_head with
      | None => mret tt
      | Some h =>
          same ← lift (compare_digest head h);
          lift (integrity_if (negb same) "operation journal head does not match the trusted checkpoint")
      end;
  mret {| v_event_count := Z.of_nat (length es.1); v_operation_count := Z.of_nat (length es.2);
          v_pending_count := Z.of_nat (length (List.filter is_pending (dict_values es.2)));
          v_head_hash := head |}.
End journal.

(** ** Histories *)

(** The life of one operation: attempts numbered from 1, each started, and
    each but the last failed before the next begins. *)
Inductive history : list OperationEvent → OperationState → Prop :=
  | history_start e :
      e_status e = STARTED → e_attempt e = 1%Z → history [e] (initial_state e)
  | history_finish es s e :
      history es s → o_status s = STARTED → e_status e ≠ STARTED → e_attempt e = o_attempt s →
      o_action s = e_action e → o_target s = e_target e →
      (st_us (o_started_at s) ≤ st_us (e_occurred_at e))%Z →
      history (es ++ [e]) (terminal_state s e)
  | history_retry es s e f :
      history es s → o_status s = FAILED → e_status e = STARTED → e_attempt e = (o_attempt s + 1)%Z →
      o_action s = e_action e → o_target s = e_target e →
      o_finished_at s = Some f → (st_us f ≤ st_us (e_occurred_at e))%Z →
      history (es ++ [e]) (initial_state e).

Definition of_operation (id : string) (e : OperationEvent) : bool := String.eqb (e_operation_id e) id.

Definition histories (es : list OperationEvent) (d : dict string OperationState) : Prop :=
  ∀ id, match dict_get d id with
        | Some s => history (List.filter (of_operation id) es) s
        | None => List.filter (of_operation id) es = []
        end.

(** Facts about a state that a verified journal gives. *)
Record state_ok (id : string) (s : OperationState) : Prop := {
  so_id : o_operation_id s = id;
  so_valid_id : fullmatch OPERATION_ID id = true;
  so_action : fullmatch NAME (o_action s) = true;
  so_target : fullmatch TARGET (o_target s) = true;
  so_attempt : (1 ≤ o_attempt s)%Z;
  so_finished : o_status s = STARTED ↔ o_finished_at s = None;
}.

Lemma validate_event_fields_ok e u :
  validate_event_fields e = Ok u →
  fullmatch OPERATION_ID (e_operation_id e) = true ∧ fullmatch NAME (e_action e) = true ∧
  fullmatch TARGET (e_target e) = true ∧ (1 ≤ e_attempt e)%Z.
Proof.
  unfold validate_event_fields, validate_operation_id, validate_name, validate_target.
  destruct (fullmatch OPERATION_ID _); [|done]. destruct (fullmatch NAME _); [|done].
  destruct (fullmatch TARGET _); [|done]. simpl. intros ([] & Ha & _)%bind_result_ok.
  apply fail_if_ok in Ha. bool_to_prop. split_and!; try done.
Qed.

Lemma apply_event_history es d e s :
  histories es d → (∀ id s, dict_get d id = Some s → state_ok id s) →
  apply_event (dict_get d (e_operation_id e)) e = Ok s →
  histories (es ++ [e]) (dict_set d (e_operation_id e) s) ∧ state_ok (e_operation_id e) s.
Proof.
  intros Hh Hok Ha. unfold apply_event in Ha.
  apply bind_result_ok in Ha as ([] & Hv & Ha). apply validate_event_fields_ok in Hv as (Hid & Hn & Ht & Hat).
  assert (Hrest : history (List.filter (of_operation (e_operation_id e)) (es ++ [e])) s →
    histories (es ++ [e]) (dict_set d (e_operation_id e) s)).
  { intros H id. rewrite dict_get_set. destruct (decide (e_operation_id e = id)) as [<-|Hne]; [done|].
    rewrite List.filter_app. simpl. unfold of_operation at 2 4.
    rewrite (proj2 (String.eqb_neq _ _)), app_nil_r by done. apply Hh. }
  specialize (Hh (e_operation_id e)). specialize (Hok (e_operation_id e)).
  rewrite List.filter_app in Hrest. simpl in Hrest. unfold of_operation at 2 in Hrest.
  rewrite String.eqb_refl in Hrest.
  destruct (dict_get d (e_operation_id e)) as [s0|].
  - specialize (Hok s0 eq_refl). destruct Hok as [Hi _ Hac Htg Hge Hfin].
    apply bind_result_ok in Ha as ([] & Hm & Ha). apply fail_if_ok in Hm. bool_to_prop.
    match goal with H : ¬ (o_action _ ≠ _), H' : ¬ (o_target _ ≠ _) |- _ => apply dec_stable in H, H' end.
    destruct (decide (e_status e = STARTED)) as [Hs|Hs].
    + apply bind_result_ok in Ha as ([] & H1%fail_if_ok & Ha).
      apply bind_result_ok in Ha as ([] & H2%fail_if_ok & Ha).
      apply bind_result_ok in Ha as ([] & H3%fail_if_ok & Ha). injection Ha as <-. bool_to_prop.
      apply dec_stable in H1. unfold before_finish in H3.
      destruct (o_finished_at s0) as [f|] eqn:Ef; [|done]. unfold stamp_lt in H3. bool_to_prop.
      split; [|by split].
      apply Hrest. by eapply history_retry.
    + apply bind_result_ok in Ha as ([] & H1%fail_if_ok & Ha).
      apply bind_result_ok in Ha as ([] & H2%fail_if_ok & Ha). injection Ha as <-. unfold stamp_lt in H2. bool_to_prop.
      match goal with H : ¬ (o_status _ ≠ _) |- _ => apply dec_stable in H end.
      split; [|split; simpl; try done].
      apply Hrest. by eapply history_finish.
  - apply bind_result_ok in Ha as ([] & H1%fail_if_ok & Ha). injection Ha as <-. bool_to_prop.
    match goal with H : ¬ (e_status _ ≠ _) |- _ => apply dec_stable in H end.
    split; [|by split].
    apply Hrest. rewrite Hh. simpl. by apply history_start.
Qed.

(** What a history implies: attempts are counted, and success is last. *)
Lemma history_counts es s :
  history es s →
  Z.of_nat (length (List.filter (λ e, bool_decide (e_status e = STARTED)) es)) = o_attempt s ∧
  length (List.filter (λ e, bool_decide (e_status e = SUCCEEDED)) es) =
    (if decide (o_status s = SUCCEEDED) then 1 else 0) ∧
  (∃ e, last es = Some e ∧ e_status e = o_status s).
Proof.
  induction 1 as [e Hs Ha|es s e _ (IHa & IHs & _) Hst Hne Hat _ _ _|es s e f _ (IHa & IHs & _) Hst Hs Hat _ _ _ _].
  - simpl. rewrite Hs. simpl. rewrite Ha. split_and!; [done|done|by exists e].
  - rewrite !List.filter_app, !length_app, last_snoc. simpl. rewrite Hst in IHs.
    split_and!; [| |by exists e].
    + rewrite bool_decide_eq_false_2 by done. simpl. lia.
    + destruct (decide (e_status e = SUCCEEDED)) as [E|E];
        [rewrite bool_decide_eq_true_2 by done | rewrite bool_decide_eq_false_2 by done]; simpl in *; lia.
  - rewrite !List.filter_app, !length_app, last_snoc. simpl. rewrite Hst in IHs. rewrite Hs.
    split_and!; [simpl; lia|simpl in *; lia|by exists e].
Qed.

(** ** Verified journals *)

Section verified.
Context (hmac_hex : string → string → string) (isoformat dump_stamp : stamp → string)
  (parse_line : string → result OperationEvent) (integrity_key : string).

Local Abbreviation signature := (sign hmac_hex integrity_key).
Local Abbreviation body := (event_body isoformat).
Local Abbreviation rd := (read_and_verify hmac_hex isoformat parse_line integrity_key).
Local Abbreviation rstep := (read_step hmac_hex isoformat parse_line integrity_key).
Local Abbreviation chained :=
  (chain_ok e_sequence e_previous_hash e_event_hash (λ e, json_dumps (body e)) (hmac_hex integrity_key)).

(** The states are those the events give one after another. *)
Definition replay (es : list OperationEvent) : result (dict string OperationState) :=
  fold_result (λ d e, st ← apply_event (dict_get d (e_operation_id e)) e;
                      Ok (dict_set d (e_operation_id e) st)) [] es.

(** What the verified events and states satisfy. *)
Record journal_ok (es : list OperationEvent) (d : dict string OperationState) : Prop := {
  jo_chain : chained 1 GENESIS_HASH es;
  jo_hist : histories es d;
  jo_states : ∀ id s, dict_get d id = Some s → state_ok id s;
  jo_keys : dict_wf d;
  jo_replay : replay es = Ok d;
}.

Record scan_ok (s : scan) : Prop := {
  sk_line : sc_line s = Z.of_nat (length (sc_events s));
  sk_prev : sc_previous s = head_hash e_event_hash GENESIS_HASH (sc_events s);
  sk_journal : journal_ok (sc_events s) (sc_states s);
}.

Lemma scan_ok_empty : scan_ok empty_scan.
Proof. repeat split; try done; apply dict_wf_nil. Qed.

Lemma read_step_ok s line s' :
  scan_ok s → rstep s line = Ok s' → scan_ok s' ∧ complete_line line = true.
Proof.
  intros [Hl Hp [Hc Hh Hs Hk Hr]] H. unfold read_step in H.
  apply bind_result_ok in H as ([] & _ & H). apply bind_result_ok in H as ([] & Hcl & H).
  apply fail_if_ok, negb_false_iff in Hcl. split; [|done].
  apply bind_result_ok in H as (e & _ & H). apply bind_result_ok in H as ([] & Hseq & H).
  apply bind_result_ok in H as ([] & Hprev & H). apply bind_result_ok in H as (same & Hsame & H).
  apply bind_result_ok in H as ([] & Hsig & H). apply bind_result_ok in H as (st & Hst & H).
  injection H as <-. apply fail_if_ok in Hseq, Hprev, Hsig. apply compare_digest_ok in Hsame. subst same.
  bool_to_prop. apply dec_stable in Hprev.
  destruct (apply_event_history _ _ _ _ Hh Hs Hst) as [Hh' Hs'].
  split; simpl.
  - rewrite length_app. simpl. lia.
  - by rewrite head_hash_snoc.
  - split.
    + apply chain_snoc. split_and!; [done|lia|congruence|done].
    + done.
    + intros id s0. rewrite dict_get_set. destruct (decide _) as [<-|]; [by intros [= <-]|apply Hs].
    + by apply dict_wf_set.
    + unfold replay in *. rewrite fold_result_app, Hr. simpl. by rewrite Hst.
Qed.

Lemma fold_read_ok lines s s' :
  scan_ok s → fold_result rstep s lines = Ok s' →
  scan_ok s' ∧ Forall (λ l, complete_line l = true) lines.
Proof.
  revert s. induction lines as [|l lines IH]; intros s Hs H; simpl in H.
  - injection H as <-. by split.
  - apply bind_result_ok in H as (s1 & H1 & H). destruct (read_step_ok _ _ _ Hs H1) as [Hs1 Hl].
    destruct (IH _ Hs1 H) as [? ?]. split; [done|by constructor].
Qed.

Lemma scan_text_ok t s :
  scan_text hmac_hex isoformat parse_line integrity_key t = Ok s ↔
  fold_result rstep empty_scan (read_lines t) = Ok s.
Proof.
  unfold scan_text, result_catch. destruct (fold_result _ _ _) as [x|e]; [done|].
  by destruct (exn_in _ _).
Qed.

Lemma verified_ok c es d : rd c = Ok (es, d) → journal_ok es d.
Proof.
  destruct c as [t|]; simpl.
  - intros (s & Hs & [= <- <-])%bind_result_ok. apply scan_text_ok in Hs.
    by apply fold_read_ok in Hs as [[] _]; [|apply scan_ok_empty].
  - intros [= <- <-]. split; [done| | |apply dict_wf_nil|done]; by intros id.
Qed.

(** ** Appending *)

Hypothesis hmac_ascii : ∀ k p, any_char non_ascii (hmac_hex k p) = false.
Hypothesis parse_render : ∀ e us,
  e_occurred_at e = utc_stamp us → dt_in_range us = true → parse_line (render dump_stamp e) = Ok e.

Lemma render_line e :
  ∃ w, render dump_stamp e = of_chars (w ++ [newline]) ∧ newline ∉ w.
Proof.
  exists (chars (json_dumps (event_dump dump_stamp e))). split.
  - apply chars_inj. unfold render. by rewrite chars_app, !chars_of_chars.
  - apply flat_no_newline, scalar_members. by destruct (e_error_code e).
Qed.

Lemma event_accepted es d id at_ action target status us code st :
  let e := new_event hmac_hex isoformat integrity_key es id at_ action target status us code in
  apply_event (dict_get d id) e = Ok st → dt_in_range us = true →
  (Z.of_nat (utf8_len (render dump_stamp e)) ≤ MAX_OPERATION_RECORD_BYTES)%Z →
  ∀ s, sc_events s = es → sc_states s = d → scan_ok s →
  ∃ s', rstep s (render dump_stamp e) = Ok s' ∧ sc_events s' = es ++ [e] ∧ sc_states s' = dict_set d id st.
Proof.
  intros e Hst Hus Hlen s <- <- [Hl Hp _]. destruct (render_line e) as (w & Hw & _).
  unfold read_step. rewrite (proj2 (Z.ltb_ge _ _)) by done. simpl integrity_if. cbn [mbind result_bind].
  replace (complete_line (render dump_stamp e)) with true.
  2:{ symmetry. rewrite Hw. apply complete_line_last. by rewrite last_snoc. }
  cbn [negb]. unfold integrity_if. cbn [fail_if mbind result_bind].
  rewrite (parse_render e us) by done. cbn [mbind result_bind].
  assert (He : e_sequence e = (sc_line s + 1)%Z) by (unfold e; simpl; lia).
  rewrite He, Z.eqb_refl. cbn [negb fail_if mbind result_bind].
  assert (Hpr : e_previous_hash e = sc_previous s) by (by rewrite Hp).
  rewrite bool_decide_eq_false_2 by (by intros []). cbn [fail_if mbind result_bind].
  assert (Hsig : e_event_hash e = signature (body e)) by done.
  assert (Hcmp : compare_digest (e_event_hash e) (signature (body e)) = Ok true).
  { unfold compare_digest. rewrite <-Hsig.
    assert (any_char non_ascii (e_event_hash e) = false) as -> by (rewrite Hsig; apply hmac_ascii).
    cbn [orb]. by rewrite bool_decide_eq_true_2. }
  rewrite Hcmp. cbn [negb fail_if mbind result_bind].
  assert (Hid : e_operation_id e = id) by done. rewrite Hid, Hst. cbn [mbind result_bind].
  eexists. split; [reflexivity|]. done.
Qed.

(** An accepted event is appended and verifies, unless its line is too long. *)
Lemma append_event c es d id at_ action target status us code st :
  let e := new_event hmac_hex isoformat integrity_key es id at_ action target status us code in
  rd c = Ok (es, d) → apply_event (dict_get d id) e = Ok st → dt_in_range us = true →
  append_line dump_stamp e c = (fail ValueErr "operation journal event exceeds the size limit", c) ∨
  ∃ c', append_line dump_stamp e c = (Ok tt, c') ∧ rd c' = Ok (es ++ [e], dict_set d id st).
Proof.
  intros e Hc Hst Hus. unfold append_line, raise_if.
  destruct (_ <? _)%Z eqn:Hlen; [by left|]. right. apply Z.ltb_ge in Hlen.
  rewrite run_bind_lift. simpl. eexists. split; [done|]. simpl.
  assert (∃ s, fold_result rstep empty_scan (read_lines (or_default c "")) = Ok s ∧
    sc_events s = es ∧ sc_states s = d) as (s & Hs & Hes & Hd).
  { destruct c as [t|]; simpl in Hc.
    - apply bind_result_ok in Hc as (s & Hs & [= <- <-]). exists s. by rewrite scan_text_ok in Hs.
    - injection Hc as <- <-. by exists empty_scan. }
  destruct (fold_read_ok _ _ _ scan_ok_empty Hs) as [Hok Hcl].
  destruct (render_line e) as (w & Hw & Hnl).
  destruct (event_accepted es d id at_ action target status us code st Hst Hus Hlen s Hes Hd Hok)
    as (s' & Hs' & Hes' & Hd').
  apply bind_result_ok. exists s'. split; [|by rewrite Hes', Hd'].
  apply scan_text_ok. fold e in Hs'. rewrite Hw in *.
  rewrite read_lines_snoc by done. rewrite fold_result_app, Hs. simpl. by rewrite Hs'.
Qed.
(** ** The abstract journal

    What the operations promise, without the file: the number of events so far
    and the state of each operation. *)

Record spec : Type := Spec { sp_count : Z; sp_states : dict string OperationState }.

Definition started (id : string) (attempt : Z) (action target : string) (us n : Z) : OperationState :=
  {| o_operation_id := id; o_attempt := attempt; o_action := action; o_target := target;
     o_status := STARTED; o_started_at := utc_stamp us; o_finished_at := None;
     o_error_code := None; o_last_sequence := n |}.

Definition finished (s : OperationState) (status : OperationStatus) (us : Z) (error_code : option string)
    (n : Z) : OperationState :=
  {| o_operation_id := o_operation_id s; o_attempt := o_attempt s; o_action := o_action s;
     o_target := o_target s; o_status := status; o_started_at := o_started_at s;
     o_finished_at := Some (utc_stamp us); o_error_code := error_code; o_last_sequence := n |}.

(** One more event, after which operation [id] is [f n]. *)
Definition commit (id : string) (f : Z → OperationState) : M spec OperationState := λ s,
  let n := (sp_count s + 1)%Z in (Ok (f n), Spec n (dict_set (sp_states s) id (f n))).

Definition spec_begin (clock : Z) (id action target : string) (now : option datetime) : M spec OperationState :=
  id ← lift (validate_operation_id id);
  action ← lift (validate_name action "action");
  target ← lift (validate_target target);
  us ← lift (timestamp_of clock now);
  s ← get_st;
  match dict_get (sp_states s) id with
  | Some existing => _ ← lift (require_same_operation existing action target); mret existing
  | None => commit id (started id 1 action target us)
  end.

Definition spec_retry (clock : Z) (id : string) (now : option datetime) : M spec OperationState :=
  id ← lift (validate_operation_id id);
  us ← lift (timestamp_of clock now);
  s ← get_st;
  cur ← lift (require_state (sp_states s) id);
  match o_status cur with
  | STARTED => mret cur
  | SUCCEEDED => raise OperationTransitionError "a succeeded operation cannot be retried"
  | FAILED =>
      _ ← raise_if (before_finish (utc_stamp us) cur) OperationTransitionError
            "operation retry predates the previous attempt";
      commit id (started id (o_attempt cur + 1) (o_action cur) (o_target cur) us)
  end.

Definition spec_finish (clock : Z) (id : string) (status : OperationStatus) (error_code : option string)
    (now : option datetime) : M spec OperationState :=
  id ← lift (validate_operation_id id);
  us ← lift (timestamp_of clock now);
  s ← get_st;
  cur ← lift (require_state (sp_states s) id);
  if bool_decide (o_status cur = status) &&
     (bool_decide (status ≠ FAILED) || bool_decide (o_error_code cur = error_code))
  then mret cur
  else
    _ ← raise_if (bool_decide (o_status cur ≠ STARTED)) OperationTransitionError
          ("cannot mark " +:+ status_value (o_status cur) +:+ " operation as " +:+ status_value status);
    _ ← lift (integrity_if (stamp_lt (utc_stamp us) (o_started_at cur))
          "terminal operation event predates its attempt");
    commit id (finished cur status us error_code).

Inductive op : Type :=
  | OpBegin (clock : Z) (id action target : string) (now : option datetime)
  | OpRetry (clock : Z) (id : string) (now : option datetime)
  | OpSucceed (clock : Z) (id : string) (now : option datetime)
  | OpFail (clock : Z) (id error_code : string) (now : option datetime).

Definition run (o : op) : M store OperationState :=
  match o with
  | OpBegin c i a t n => begin hmac_hex isoformat dump_stamp parse_line integrity_key c i a t n
  | OpRetry c i n => retry hmac_hex isoformat dump_stamp parse_line integrity_key c i n
  | OpSucceed c i n => succeed hmac_hex isoformat dump_stamp parse_line integrity_key c i n
  | OpFail c i e n => fail_operation hmac_hex isoformat dump_stamp parse_line integrity_key c i e n
  end.

Definition spec_run (o : op) : M spec OperationState :=
  match o with
  | OpBegin c i a t n => spec_begin c i a t n
  | OpRetry c i n => spec_retry c i n
  | OpSucceed c i n => spec_finish c i SUCCEEDED None n
  | OpFail c i e n => e ← lift (validate_error_code e); spec_finish c i FAILED (Some e) n
  end.

(** The file verifies, with as many events and the same states. *)
Definition represents (c : store) (s : spec) : Prop :=
  ∃ es, rd c = Ok (es, sp_states s) ∧ sp_count s = Z.of_nat (length es).

(** The concrete outcome is the abstract one, or the event did not fit a line. *)
Definition refines (c : store) (m : M store OperationState) (s : spec) (n : M spec OperationState) : Prop :=
  m c = (fail ValueErr "operation journal event exceeds the size limit", c) ∨
  (m c).1 = (n s).1 ∧ represents (m c).2 (n s).2.

Lemma new_fields_ok es id at_ action target status us code :
  fullmatch OPERATION_ID id = true → fullmatch NAME action = true → fullmatch TARGET target = true →
  (1 ≤ at_)%Z → dt_in_range us = true →
  (match status, code with FAILED, Some x => fullmatch ERROR_CODE x = true
   | FAILED, None => False | _, Some _ => False | _, None => True end) →
  validate_event_fields (new_event hmac_hex isoformat integrity_key es id at_ action target status us code) = Ok tt.
Proof.
  intros Hi Ha Ht Hat Hus Hcode. unfold validate_event_fields, validate_operation_id, validate_name, validate_target.
  simpl. rewrite Hi, Ha, Ht. simpl. rewrite (proj2 (Z.ltb_ge _ _)) by lia. simpl.
  unfold stamp_as_utc. simpl. unfold astimezone_utc. rewrite Hus. simpl.
  destruct status, code; try done. simpl. unfold validate_error_code. by rewrite Hcode.
Qed.

Lemma commit_refines c es d id at_ action target status us code st f :
  let e := new_event hmac_hex isoformat integrity_key es id at_ action target status us code in
  rd c = Ok (es, d) → apply_event (dict_get d id) e = Ok st → dt_in_range us = true →
  f (Z.of_nat (length es) + 1)%Z = st →
  refines c (_ ← append_line dump_stamp e; mret st) (Spec (Z.of_nat (length es)) d) (commit id f).
Proof.
  intros e Hc Hst Hus <-. destruct (append_event c es d id at_ action target status us code _ Hc Hst Hus)
    as [H|(c' & H & Hc')]; fold e in H; unfold refines; rewrite !run_bind, H; [by left|].
  right. split; [done|]. exists (es ++ [e]). split; [done|].
  rewrite length_app. simpl. lia.
Qed.

Lemma timestamp_range clock now us : timestamp_of clock now = Ok us → dt_in_range us = true.
Proof. unfold timestamp_of. by intros (_ & ?)%as_utc_ok. Qed.

Lemma apply_retry x e :
  validate_event_fields e = Ok tt → o_action x = e_action e → o_target x = e_target e →
  e_status e = STARTED → o_status x = FAILED → e_attempt e = (o_attempt x + 1)%Z →
  before_finish (e_occurred_at e) x = false → apply_event (Some x) e = Ok (initial_state e).
Proof.
  intros Hv Ha Ht Hs Hx Hat Hb. unfold apply_event, integrity_if. rewrite Hv, Ha, Ht, Hs, Hx, Hat, Hb, Z.eqb_refl.
  rewrite !neq_self. done.
Qed.

Lemma apply_finish x e :
  validate_event_fields e = Ok tt → o_action x = e_action e → o_target x = e_target e →
  e_status e ≠ STARTED → o_status x = STARTED → e_attempt e = o_attempt x →
  stamp_lt (e_occurred_at e) (o_started_at x) = false → apply_event (Some x) e = Ok (terminal_state x e).
Proof.
  intros Hv Ha Ht Hs Hx Hat Hb. unfold apply_event, integrity_if. rewrite Hv, Ha, Ht, Hx, Hat, Hb, Z.eqb_refl.
  rewrite decide_False by done. rewrite !neq_self. done.
Qed.

Lemma run_read {A} c x (k : _ → M store A) :
  rd c = Ok x → (read hmac_hex isoformat parse_line integrity_key ≫= k) c = k x c.
Proof. intros Hc. rewrite run_bind. unfold read. by rewrite Hc. Qed.

Lemma begin_refines c s clock id action target now :
  represents c s → refines c (run (OpBegin clock id action target now)) s (spec_run (OpBegin clock id action target now)).
Proof.
  intros Hrep. pose proof Hrep as (es & Hc & Hn). simpl. unfold begin, spec_begin, refines.
  unfold validate_operation_id, validate_name, validate_target.
  destruct (fullmatch OPERATION_ID id) eqn:Hi; [|by right].
  destruct (fullmatch NAME action) eqn:Ha; [|by right].
  destruct (fullmatch TARGET target) eqn:Ht; [|by right].
  rewrite !run_bind_lift. destruct (timestamp_of clock now) as [us|err] eqn:Hus; [|by right].
  rewrite (run_read _ _ _ Hc), run_bind_get. cbn [snd fst].
  destruct (dict_get (sp_states s) id) as [x|] eqn:Hg.
  - right. by destruct (require_same_operation x action target).
  - destruct s as [n d]. cbn [sp_count sp_states] in Hc, Hn, Hg |- *. subst n. apply commit_refines; [done| |by eapply timestamp_range|done].
    rewrite Hg. unfold apply_event. rewrite new_fields_ok by (done || by eapply timestamp_range). done.
Qed.

Lemma retry_refines c s clock id now :
  represents c s → refines c (run (OpRetry clock id now)) s (spec_run (OpRetry clock id now)).
Proof.
  intros Hrep. pose proof Hrep as (es & Hc & Hn). simpl. unfold retry, spec_retry, refines.
  unfold validate_operation_id.
  destruct (fullmatch OPERATION_ID id) eqn:Hi; [|by right].
  destruct (timestamp_of clock now) as [us|err] eqn:Hus; [|by right].
  rewrite !run_bind_lift, (run_read _ _ _ Hc), run_bind_get. cbn [snd fst]. unfold require_state.
  destruct (dict_get (sp_states s) id) as [x|] eqn:Hg; [|by right].
  rewrite !run_bind_lift. destruct (o_status x) eqn:Hx; [by right|by right|].
  unfold raise_if. rewrite !run_bind_lift. destruct (before_finish (utc_stamp us) x) eqn:Hb; [by right|]. cbn [fail_if].
  destruct s as [n d]. cbn [sp_count sp_states] in Hc, Hn, Hg |- *. subst n.
  destruct (jo_states _ _ (verified_ok _ _ _ Hc) id x Hg) as [_ _ Ha Ht Hat Hfin].
  pose proof (timestamp_range _ _ _ Hus) as Hr. apply commit_refines; [assumption| |assumption|reflexivity].
  rewrite Hg. apply apply_retry; try assumption; try reflexivity.
  apply new_fields_ok; (assumption || lia || exact I).
Qed.

Lemma finish_refines c s clock id status code now :
  represents c s → status ≠ STARTED →
  (match status, code with FAILED, Some x => fullmatch ERROR_CODE x = true
   | FAILED, None => False | _, Some _ => False | _, None => True end) →
  refines c (finish hmac_hex isoformat dump_stamp parse_line integrity_key clock id status code now) s
    (spec_finish clock id status code now).
Proof.
  intros Hrep Hst Hcode. pose proof Hrep as (es & Hc & Hn). unfold finish, spec_finish, refines.
  unfold validate_operation_id.
  destruct (fullmatch OPERATION_ID id) eqn:Hi; [|by right].
  destruct (timestamp_of clock now) as [us|err] eqn:Hus; [|by right].
  rewrite !run_bind_lift, (run_read _ _ _ Hc), run_bind_get. cbn [snd fst]. unfold require_state.
  destruct (dict_get (sp_states s) id) as [x|] eqn:Hg; [|by right].
  rewrite !run_bind_lift. destruct (_ && _); [by right|].
  unfold raise_if. rewrite !run_bind_lift.
  destruct (bool_decide (o_status x ≠ STARTED)) eqn:Hx; [by right|]. cbn [fail_if]. bool_to_prop. apply dec_stable in Hx.
  unfold integrity_if.
  destruct (stamp_lt (utc_stamp us) (o_started_at x)) eqn:Hlt; [by right|]. cbn [fail_if].
  destruct s as [n d]. cbn [sp_count sp_states] in Hc, Hn, Hg |- *. subst n.
  destruct (jo_states _ _ (verified_ok _ _ _ Hc) id x Hg) as [_ _ Ha Ht Hat Hfin].
  pose proof (timestamp_range _ _ _ Hus) as Hr. apply commit_refines; [assumption| |assumption|reflexivity].
  rewrite Hg. apply apply_finish; try assumption; try reflexivity.
  apply new_fields_ok; (assumption || lia || exact I).
Qed.

(** Every writing operation does what the abstract journal does. *)
Lemma run_refines o c s : represents c s → refines c (run o) s (spec_run o).
Proof.
  intros Hrep. destruct o as [clock id a t now|clock id now|clock id now|clock id code now].
  - by apply begin_refines.
  - by apply retry_refines.
  - by apply finish_refines.
  - simpl. unfold fail_operation, refines. rewrite !run_bind_lift.
    unfold validate_error_code. destruct (fullmatch ERROR_CODE code) eqn:Hcode; [|by right].
    by apply finish_refines.
Qed.

(** ** Operations over time *)

(** Run the operations in order, raised or not. *)
Fixpoint execs (os : list op) (c : store) : store :=
  match os with [] => c | o :: os => execs os (post (run o) c) end.

(** A state may only move forward, and success is for good. *)
Record grows (x y : OperationState) : Prop := {
  gr_action : o_action y = o_action x;
  gr_target : o_target y = o_target x;
  gr_attempt : (o_attempt x ≤ o_attempt y)%Z;
  gr_success : o_status x = SUCCEEDED → y = x;
}.

Lemma grows_refl x : grows x x.
Proof. by split. Qed.

Lemma grows_trans x y z : grows x y → grows y z → grows x z.
Proof.
  intros [] []. split; try congruence; [lia|]. intros H. rewrite <-gr_success0 by done.
  apply gr_success1. by rewrite gr_success0.
Qed.

Definition grows_at (id : string) (d d' : dict string OperationState) : Prop :=
  ∀ x, dict_get d id = Some x → ∃ y, dict_get d' id = Some y ∧ grows x y.

Lemma grows_at_refl id d : grows_at id d d.
Proof. intros x Hx. exists x. split; [done|apply grows_refl]. Qed.

Lemma grows_at_set id id' d y :
  (∀ x, dict_get d id' = Some x → grows x y) → grows_at id d (dict_set d id' y).
Proof.
  intros Hy x Hx. rewrite dict_get_set. destruct (decide (id' = id)) as [<-|].
  - exists y. auto.
  - exists x. split; [done|apply grows_refl].
Qed.

Lemma spec_run_grows o s id : grows_at id (sp_states s) (sp_states (post (spec_run o) s)).
Proof.
  assert (Hfin : ∀ clock id' status code now, status ≠ STARTED →
    grows_at id (sp_states s) (sp_states (post (spec_finish clock id' status code now) s))).
  { intros clock id' status code now Hst. unfold spec_finish, validate_operation_id, post.
    destruct (fullmatch _ _); [|apply grows_at_refl]. rewrite run_bind_lift.
    destruct (timestamp_of clock now) as [us|]; [|apply grows_at_refl]. rewrite run_bind_lift, run_bind_get.
    unfold require_state. destruct (dict_get (sp_states s) id') as [x|] eqn:Hx; [|apply grows_at_refl].
    rewrite run_bind_lift. destruct (_ && _) eqn:Hsame; [apply grows_at_refl|].
    unfold raise_if. rewrite run_bind_lift. destruct (bool_decide (o_status x ≠ STARTED)) eqn:Hs; [apply grows_at_refl|].
    cbn [fail_if]. unfold integrity_if. rewrite run_bind_lift. destruct (stamp_lt _ _); [apply grows_at_refl|].
    apply grows_at_set. intros x' Hx'. replace x' with x in * by congruence.
    bool_to_prop. apply dec_stable in Hs. split; simpl; try done; congruence. }
  destruct o as [clock id' a t now|clock id' now|clock id' now|clock id' code now]; simpl.
  - unfold spec_begin, validate_operation_id, validate_name, validate_target, post.
    destruct (fullmatch OPERATION_ID _); [|apply grows_at_refl]. rewrite run_bind_lift.
    destruct (fullmatch NAME _); [|apply grows_at_refl]. rewrite run_bind_lift.
    destruct (fullmatch TARGET _); [|apply grows_at_refl]. rewrite run_bind_lift.
    destruct (timestamp_of clock now) as [us|]; [|apply grows_at_refl]. rewrite run_bind_lift, run_bind_get.
    destruct (dict_get (sp_states s) id') as [x|] eqn:Hx.
    + rewrite run_bind_lift. destruct (require_same_operation _ _ _); apply grows_at_refl.
    + apply grows_at_set. congruence.
  - unfold spec_retry, validate_operation_id, post.
    destruct (fullmatch OPERATION_ID _); [|apply grows_at_refl]. rewrite run_bind_lift.
    destruct (timestamp_of clock now) as [us|]; [|apply grows_at_refl]. rewrite run_bind_lift, run_bind_get.
    unfold require_state. destruct (dict_get (sp_states s) id') as [x|] eqn:Hx; [|apply grows_at_refl].
    rewrite run_bind_lift. destruct (o_status x) eqn:Hs; [apply grows_at_refl..|].
    unfold raise_if. rewrite run_bind_lift. destruct (before_finish _ _); [apply grows_at_refl|].
    apply grows_at_set. intros x' Hx'. replace x' with x in * by congruence.
    split; simpl; try done; [lia|congruence].
  - by apply Hfin.
  - unfold post. rewrite run_bind_lift. destruct (validate_error_code code); [by apply Hfin|apply grows_at_refl].
Qed.

Lemma execs_represent os c s id :
  represents c s → ∃ s', represents (execs os c) s' ∧ grows_at id (sp_states s) (sp_states s').
Proof.
  revert c s. induction os as [|o os IH]; intros c s Hrep; simpl.
  - exists s. split; [done|apply grows_at_refl].
  - destruct (run_refines o c s Hrep) as [H|[_ H]].
    + unfold post. rewrite H. by apply IH.
    + destruct (IH _ _ H) as (s' & Hs' & Hg). exists s'. split; [done|].
      intros x Hx. destruct (spec_run_grows o s id x Hx) as (y & Hy & Hxy).
      destruct (Hg y Hy) as (z & Hz & Hyz). exists z. split; [done|by eapply grows_trans].
Qed.

Lemma begin_existing c s clock id action target now us x :
  represents c s → fullmatch OPERATION_ID id = true → fullmatch NAME action = true →
  fullmatch TARGET target = true → timestamp_of clock now = Ok us → dict_get (sp_states s) id = Some x →
  run (OpBegin clock id action target now) c =
    (if decide (o_action x = action ∧ o_target x = target) then Ok x
     else fail OperationConflictError "operation ID is already bound to a different action or target", c).
Proof.
  intros (es & Hc & Hn) Hi Ha Ht Hus Hx. simpl. unfold begin, validate_operation_id, validate_name, validate_target.
  rewrite Hi, run_bind_lift, Ha, run_bind_lift, Ht, run_bind_lift, Hus, run_bind_lift, (run_read _ _ _ Hc).
  cbn [snd fst]. rewrite Hx, run_bind_lift. unfold require_same_operation.
  destruct (decide _) as [[-> ->]|Hne]; [by rewrite !neq_self|].
  destruct (bool_decide (o_action x ≠ action) || bool_decide (o_target x ≠ target)) eqn:E; [done|].
  bool_to_prop. destruct Hne. split; by apply dec_stable.
Qed.

(** A begin that answers leaves the operation on record. *)
Lemma begin_recorded c s clock id action target now x c1 :
  represents c s → run (OpBegin clock id action target now) c = (Ok x, c1) →
  fullmatch OPERATION_ID id = true ∧ fullmatch NAME action = true ∧ fullmatch TARGET target = true ∧
  o_action x = action ∧ o_target x = target ∧
  ∃ s1, represents c1 s1 ∧ dict_get (sp_states s1) id = Some x.
Proof.
  intros Hrep H. destruct (run_refines (OpBegin clock id action target now) c s Hrep) as [H'|[Hr Hrep1]];
    [by rewrite H in H'|]. rewrite H in Hr, Hrep1. simpl in Hr, Hrep1. unfold spec_begin in Hr, Hrep1.
  unfold validate_operation_id, validate_name, validate_target in Hr, Hrep1.
  destruct (fullmatch OPERATION_ID id); [|done]. rewrite run_bind_lift in Hr, Hrep1.
  destruct (fullmatch NAME action); [|done]. rewrite run_bind_lift in Hr, Hrep1.
  destruct (fullmatch TARGET target); [|done]. rewrite run_bind_lift in Hr, Hrep1.
  destruct (timestamp_of clock now) as [us|]; [|done]. rewrite run_bind_lift, run_bind_get in Hr, Hrep1.
  destruct (dict_get (sp_states s) id) as [y|] eqn:Hy.
  - rewrite run_bind_lift in Hr, Hrep1. destruct (require_same_operation y action target) as [[]|] eqn:Es; [|done].
    injection Hr as ->. apply fail_if_ok in Es. bool_to_prop.
    match goal with H1 : ¬ (o_action _ ≠ _), H2 : ¬ (o_target _ ≠ _) |- _ => apply dec_stable in H1, H2 end.
    split_and!; try done. by exists s.
  - injection Hr as ->. split_and!; try done. eexists. split; [exact Hrep1|]. simpl. by rewrite dict_get_set_eq.
Qed.

Lemma verify_head h c es d v :
  rd c = Ok (es, d) → (verify hmac_hex isoformat parse_line integrity_key (Some h) c).1 = Ok v →
  head_hash e_event_hash GENESIS_HASH es = h ∧
  v = {| v_event_count := Z.of_nat (length es); v_operation_count := Z.of_nat (length d);
         v_pending_count := Z.of_nat (length (List.filter is_pending (dict_values d)));
         v_head_hash := head_hash e_event_hash GENESIS_HASH es |}.
Proof.
  intros Hc. unfold verify. rewrite (run_read _ _ _ Hc). cbn [fst snd].
  set (hd := head_hash _ _ _). rewrite run_bind, run_bind_lift.
  destruct (compare_digest hd h) as [same|] eqn:Hs; [|done]. apply compare_digest_ok in Hs. subst same.
  destruct (bool_decide (hd = h)) eqn:E; [|done]. bool_to_prop. by intros [= <-].
Qed.

Lemma opt_str_inj a b : opt_str a = opt_str b → a = b.
Proof. destruct a, b; by intros [=]; subst. Qed.

Lemma status_value_inj a b : status_value a = status_value b → a = b.
Proof. by destruct a, b. Qed.

(** The signed text determines every field but the hash. *)
Lemma body_determines : (∀ t u, isoformat t = isoformat u → t = u) →
  ∀ a b, json_dumps (body a) = json_dumps (body b) →
  e_sequence a = e_sequence b ∧ e_previous_hash a = e_previous_hash b ∧
  (e_event_hash a = e_event_hash b → a = b).
Proof.
  intros Hiso a b E. unfold event_body in E. apply flat_dumps_inj in E; [|reflexivity|..].
  2: apply scalar_members; by destruct (e_error_code a).
  2: apply scalar_members; by destruct (e_error_code b).
  destruct a as [sa ia aa ca ta xa oa ea pa ha], b as [sb ib ab cb tb xb ob eb pb hb]. simpl in *.
  injection E as E1 E2 E3 E4 E5 E6 E7 E8 E9.
  apply opt_str_inj in E3. apply Hiso in E4. apply status_value_inj in E8. subst.
  split_and!; try done. by intros ->.
Qed.
End verified.

(** ** Properties *)

Section properties.
Context (hmac_hex : string → string → string) (isoformat dump_stamp : stamp → string)
  (parse_line : string → result OperationEvent) (integrity_key : string).

Local Abbreviation rd := (read_and_verify hmac_hex isoformat parse_line integrity_key).
Local Abbreviation run_op := (run hmac_hex isoformat dump_stamp parse_line integrity_key).

(** A hexadecimal digest is ASCII, and a line reads back as the event it was
    written from. *)
Definition hex_digest : Prop := ∀ k p, any_char non_ascii (hmac_hex k p) = false.
Definition lines_read_back : Prop := ∀ e us,
  e_occurred_at e = utc_stamp us → dt_in_range us = true → parse_line (render dump_stamp e) = Ok e.

(** C14: the journal implements its abstract specification.  When the file
    verifies and represents an abstract journal, each of begin, retry, succeed
    and fail answers exactly as the abstract operation does (state or error)
    and leaves a file that verifies again and represents the abstract result;
    the only other outcome is an event too long for a line, which raises and
    writes nothing.  The absent file represents the empty journal. *)
Theorem journal_refines (Hhex : hex_digest) (Hread : lines_read_back) o c s :
  represents hmac_hex isoformat parse_line integrity_key None (Spec 0 []) ∧
  (represents hmac_hex isoformat parse_line integrity_key c s →
   run_op o c = (fail ValueErr "operation journal event exceeds the size limit", c) ∨
   (run_op o c).1 = (spec_run o s).1 ∧
   represents hmac_hex isoformat parse_line integrity_key (run_op o c).2 (spec_run o s).2).
Proof. split; [by exists []|]. intros Hrep. by apply run_refines. Qed.

(** A file that verifies tells a consistent story of every operation: its
    events are attempts numbered from 1, each started once, every attempt but
    the last failed before the next began, at most one success and nothing
    after it; the state of an operation is the one its last event leaves. *)
Theorem verified_history c es d id :
  rd c = Ok (es, d) →
  match dict_get d id with
  | None => List.filter (of_operation id) es = []
  | Some x =>
      let mine := List.filter (of_operation id) es in
      history mine x ∧ o_operation_id x = id ∧
      Z.of_nat (length (List.filter (λ e, bool_decide (e_status e = STARTED)) mine)) = o_attempt x ∧
      length (List.filter (λ e, bool_decide (e_status e = SUCCEEDED)) mine) =
        (if decide (o_status x = SUCCEEDED) then 1 else 0) ∧
      ∃ e, last mine = Some e ∧ e_status e = o_status x
  end.
Proof.
  intros H. destruct (verified_ok _ _ _ _ _ _ _ H) as [_ Hh Hs _ _].
  specialize (Hh id). destruct (dict_get d id) as [x|] eqn:Hx; [|done].
  destruct (history_counts _ _ Hh) as (? & ? & ?). split_and!; try done. by apply (so_id id x), Hs.
Qed.

(** C15: tampering is evident.  With a collision-free keyed hash that never
    gives the genesis value, two files that verify against the same trusted
    head hold the same events in the same order and give the same states: no
    event can be changed, removed, inserted or reordered without the key. *)
Theorem tamper_evident (Hinj : ∀ p q, hmac_hex integrity_key p = hmac_hex integrity_key q → p = q)
    (Hgen : ∀ p, hmac_hex integrity_key p ≠ GENESIS_HASH)
    (Hiso : ∀ t u, isoformat t = isoformat u → t = u) h c1 c2 es1 d1 es2 d2 v1 v2 :
  rd c1 = Ok (es1, d1) → rd c2 = Ok (es2, d2) →
  (verify hmac_hex isoformat parse_line integrity_key (Some h) c1).1 = Ok v1 →
  (verify hmac_hex isoformat parse_line integrity_key (Some h) c2).1 = Ok v2 →
  es1 = es2 ∧ d1 = d2 ∧ v1 = v2.
Proof.
  intros H1 H2 Hv1 Hv2.
  destruct (verify_head _ _ _ _ h c1 es1 d1 v1 H1 Hv1) as [Hh1 ->].
  destruct (verify_head _ _ _ _ h c2 es2 d2 v2 H2 Hv2) as [Hh2 ->].
  destruct (verified_ok _ _ _ _ _ _ _ H1) as [Hc1 _ _ _ Hr1].
  destruct (verified_ok _ _ _ _ _ _ _ H2) as [Hc2 _ _ _ Hr2].
  assert (es1 = es2) as <-.
  { eapply (chain_determined _ _ _ _ _ GENESIS_HASH); [exact Hinj|exact Hgen| |exact Hc1|exact Hc2|congruence].
    by apply body_determines. }
  assert (d1 = d2) as <- by congruence. done.
Qed.

(** An operation id is an idempotency key.  Once begin has answered for
    (id, action, target), whatever operations follow, begin with the same
    arguments answers with the operation's current state and writes nothing,
    and begin with another action or target is refused and writes nothing;
    attempts never decrease and a success is never left. *)
Theorem begin_idempotent (Hhex : hex_digest) (Hread : lines_read_back)
    c es d clock id action target now x c1 os clock' now' us :
  rd c = Ok (es, d) → run_op (OpBegin clock id action target now) c = (Ok x, c1) →
  timestamp_of clock' now' = Ok us →
  let c2 := execs hmac_hex isoformat dump_stamp parse_line integrity_key os c1 in
  ∃ y, run_op (OpBegin clock' id action target now') c2 = (Ok y, c2) ∧
    (o_attempt x ≤ o_attempt y)%Z ∧ (o_status x = SUCCEEDED → y = x) ∧
    ∀ action' target', fullmatch NAME action' = true → fullmatch TARGET target' = true →
      (action', target') ≠ (action, target) →
      ∃ m, run_op (OpBegin clock' id action' target' now') c2 = (fail OperationConflictError m, c2).
Proof.
  intros Hc Hb Hus c2.
  destruct (begin_recorded _ _ _ _ _ Hhex Hread c (Spec (Z.of_nat (length es)) d) _ _ _ _ _ _ _ ltac:(by exists es) Hb)
    as (Hi & Ha & Ht & Hax & Htx & s1 & Hs1 & Hx).
  destruct (execs_represent _ _ _ _ _ Hhex Hread os c1 s1 id Hs1) as (s2 & Hs2 & Hg).
  destruct (Hg x Hx) as (y & Hy & [Hya Hyt Hyn Hys]). exists y.
  split_and!; [|done|done|].
  - erewrite begin_existing by done. rewrite decide_True; [done|]. split; congruence.
  - intros action' target' Ha' Ht' Hne. eexists. erewrite begin_existing by done.
    rewrite decide_False; [done|]. intros [E1 E2]. apply Hne. congruence.
Qed.
End properties.

(** ** Concrete parameters, for the witnesses *)

Definition demo_text (t : stamp) : string := demo_stamp_text (st_us t, st_offset t).

Definition demo_status (s : string) : option OperationStatus :=
  if String.eqb s "started" then Some STARTED
  else if String.eqb s "succeeded" then Some SUCCEEDED
  else if String.eqb s "failed" then Some FAILED else None.

Definition demo_code (j : json) : option string := match j with JStr s => Some s | _ => None end.

(** The fields of a line in key order. *)
Definition demo_parse (line : string) : result OperationEvent :=
  match parse_flat (of_chars (removelast (chars line))) with
  | Some [(_, JStr action); (_, JInt attempt); (_, code); (_, JStr hash); (_, JStr at_);
          (_, JStr id); (_, JStr prev); (_, JInt seq); (_, JStr status); (_, JStr target)] =>
      match demo_stamp_read (A := Z * option Z) at_, demo_status status with
      | Some (us, off), Some st =>
          Ok {| e_sequence := seq; e_operation_id := id; e_attempt := attempt; e_action := action;
                e_target := target; e_status := st; e_occurred_at := Stamp us off;
                e_error_code := demo_code code; e_previous_hash := prev; e_event_hash := hash |}
      | _, _ => fail ValueErr "malformed event"
      end
  | _ => fail ValueErr "malformed event"
  end.

Lemma demo_hex : hex_digest demo_mac.
Proof. exact demo_mac_ascii. Qed.

Lemma demo_text_inj t u : demo_text t = demo_text u → t = u.
Proof. intros E%demo_stamp_text_inj. destruct t, u. simpl in E. congruence. Qed.

Lemma demo_read_back : lines_read_back demo_text demo_parse.
Proof.
  intros e us _ _. unfold demo_parse, render.
  rewrite chars_app, chars_of_chars, removelast_last, of_chars_chars.
  unfold event_dump. rewrite parse_flat_ok; [|discriminate|apply scalar_members; by destruct (e_error_code e)].
  destruct e as [s i at_ ac tg st [us' off] ec pv hs].
  cbn [e_sequence e_operation_id e_attempt e_action e_target e_status e_occurred_at e_error_code
       e_previous_hash e_event_hash].
  change (dict_sort _) with
    [("action", JStr ac); ("attempt", JInt at_); ("error_code", opt_str ec); ("event_hash", JStr hs);
     ("occurred_at", JStr (demo_text (Stamp us' off))); ("operation_id", JStr i);
     ("previous_hash", JStr pv); ("sequence", JInt s); ("status", JStr (status_value st)); ("target", JStr tg)].
  cbv beta iota. unfold demo_text. cbn [st_us st_offset]. rewrite demo_stamp_read_text.
  by destruct st, ec.
Qed.

Definition demo_run : op → M store OperationState := run demo_mac demo_text demo_text demo_parse "key".
Definition demo_begin : op := OpBegin 5 "install-shop-0001" "package.install" "shop" None.
Definition demo_file : store := post (demo_run demo_begin) None.

Lemma demo_verified :
  ∃ es d, read_and_verify demo_mac demo_text demo_parse "key" demo_file = Ok (es, d) ∧
    length es = 1 ∧ dict_get d "install-shop-0001" =
      Some (started "install-shop-0001" 1 "package.install" "shop" 5 1).
Proof.
  destruct (read_and_verify demo_mac demo_text demo_parse "key" demo_file) as [[es d]|e] eqn:E;
    [|vm_compute in E; discriminate].
  exists es, d. split; [done|]. vm_compute in E. injection E as <- <-. split; reflexivity.
Qed.

Lemma journal_refines_witness :
  ∃ d, dict_get d "install-shop-0001" = Some (started "install-shop-0001" 1 "package.install" "shop" 5 1) ∧
    (demo_run (OpFail 9 "install-shop-0001" "package.timeout" None) demo_file).1 =
    (spec_run (OpFail 9 "install-shop-0001" "package.timeout" None) (Spec 1 d)).1.
Proof.
  destruct demo_verified as (es & d & H & Hl & Hd).
  destruct (journal_refines demo_mac demo_text demo_text demo_parse "key" demo_hex demo_read_back
    (OpFail 9 "install-shop-0001" "package.timeout" None) demo_file (Spec 1 d)) as [_ Hr].
  destruct Hr as [Hr|[Hr _]].
  - exists es. split; [exact H|]. by rewrite Hl.
  - apply (f_equal (is_ok ∘ fst)) in Hr. vm_compute in Hr. discriminate.
  - exists d. split; [exact Hd|exact Hr].
Defined.

Lemma verified_history_witness :
  ∃ es d x, dict_get d "install-shop-0001" = Some x ∧
    history (List.filter (of_operation "install-shop-0001") es) x.
Proof.
  destruct demo_verified as (es & d & H & _ & Hd).
  pose proof (verified_history demo_mac demo_text demo_parse "key" demo_file es d "install-shop-0001" H) as Hv.
  rewrite Hd in Hv. destruct Hv as [Hv _]. eexists es, d, _. split; [exact Hd|exact Hv].
Defined.

Lemma tamper_evident_witness :
  ∃ es d, es = es ∧ read_and_verify demo_mac demo_text demo_parse "key" demo_file = Ok (es, d).
Proof.
  destruct demo_verified as (es & d & H & _ & _).
  destruct ((verify demo_mac demo_text demo_parse "key" None) demo_file).1 as [v|e] eqn:Ev;
    [|vm_compute in Ev; discriminate].
  assert ((verify demo_mac demo_text demo_parse "key" (Some (v_head_hash v)) demo_file).1 = Ok v) as Hv.
  { vm_compute in Ev. injection Ev as <-. vm_compute. reflexivity. }
  destruct (tamper_evident demo_mac demo_text demo_parse "key" (demo_mac_inj "key") ltac:(discriminate)
    demo_text_inj (v_head_hash v) demo_file demo_file es d es d v v H H Hv Hv) as (He & _ & _).
  exists es, d. split; [exact He|exact H].
Defined.

Lemma begin_idempotent_witness :
  ∃ y c2, demo_run demo_begin c2 = (Ok y, c2) ∧ (1 ≤ o_attempt y)%Z.
Proof.
  destruct (begin_idempotent demo_mac demo_text demo_text demo_parse "key" demo_hex demo_read_back
    None [] [] 5 "install-shop-0001" "package.install" "shop" None
    (started "install-shop-0001" 1 "package.install" "shop" 5 1) demo_file
    [OpFail 9 "install-shop-0001" "package.timeout" None] 5 None 5)
    as (y & Hy & Hle & _).
  - reflexivity.
  - vm_compute. reflexivity.
  - vm_compute. reflexivity.
  - eexists y, _. split; [exact Hy|exact Hle].
Defined.
End Journal.
