(* ===== verification/Integrity.v ===== *)
(** * Trusted checkpoints of journal heads (integrity.py: [FileCheckpointStore];
    checkpoint_anchor.py)

    The checkpoint file is the state, as in OperationJournal.v: [None] or its
    bytes, every method one section of [exclusive_file_lock].  The file is a
    signed chain of records; a recovery appends a pair of them in one write.
    Parameters: [hmac_hex], [isoformat], [dump_stamp], [parse_line] (json and
    pydantic's validation of a line).  Permissions and file identity checks
    are not modelled. *)

From Stdlib Require Import Ascii ZArith Lia.
From stdpp Require Import base decidable numbers list relations strings sets pretty.
From S2P Require Import Prelude PyData Regex JsonGraph HashChain.

Module Integrity.
Import JsonGraph HashChain.

(** ** Data *)

Definition GENESIS_HASH : string := of_chars (repeat "0"%char 64).
Definition MAX_CHECKPOINT_RECORD_BYTES : Z := 16 * 1024.

Definition id_char (extra : string) (c : ascii) : bool := is_alnum c || one_of extra c.
Definition low_char (c : ascii) : bool := is_lower c || is_digit c.

Definition INSTALLATION_ID : re := Seq (Chr low_char) (Rep 1 63 (Chr (λ c, low_char c || one_of "-" c))).
Definition OPERATION_ID : re := Seq (Chr is_alnum) (Rep 7 127 (Chr (id_char "._:-"))).
Definition ACTOR_ID : re := Seq (Chr is_alnum) (Rep 1 127 (Chr (id_char "@._:-"))).
Definition HEX64 : re := Rep 64 64 (Chr is_hex).

Inductive JournalKind : Type := AUDIT | OPERATIONS.

#[global] Instance JournalKind_eq_dec : EqDecision JournalKind.
Proof. solve_decision. Defined.

Definition kind_value (k : JournalKind) : string :=
  match k with AUDIT => "audit" | OPERATIONS => "operations" end.

Record IntegrityCheckpoint : Type := {
  c_format_version : Z;
  c_sequence : Z;
  c_installation_id : string;
  c_journal : JournalKind;
  c_event_count : Z;
  c_head_hash : string;
  c_recorded_at : stamp;
  c_previous_hash : string;
  c_checkpoint_hash : string;
  c_recovery_epoch : Z;
  c_recovery_operation_id : option string;
  c_recovery_actor_id : option string;
  c_recovery_manifest_sha256 : option string;
}.

#[global] Instance IntegrityCheckpoint_eq_dec : EqDecision IntegrityCheckpoint.
Proof. solve_decision. Defined.

(** ** Validation *)

Definition validate_installation_id (v : string) : result string :=
  if fullmatch INSTALLATION_ID v then Ok v else fail ValueErr "invalid checkpoint installation id".
Definition validate_operation_id (v : string) : result string :=
  if fullmatch OPERATION_ID v then Ok v else fail ValueErr "invalid recovery operation id".
Definition validate_actor_id (v : string) : result string :=
  if fullmatch ACTOR_ID v then Ok v else fail ValueErr "invalid recovery actor id".
Definition validate_head (count : Z) (head : string) : result (Z * string) :=
  _ ← fail_if (count <? 0)%Z ValueErr "checkpoint event count must be non-negative";
  _ ← fail_if (negb (fullmatch HEX64 head)) ValueErr "invalid checkpoint head hash";
  Ok (count, head).
Definition validate_expected_recovery_epoch (v : option Z) : result (option Z) :=
  match v with
  | None => Ok None
  | Some e => _ ← fail_if (e <? 0)%Z ValueErr "expected recovery epoch must be a non-negative integer"; Ok (Some e)
  end.

Definition as_utc : datetime → result Z := as_utc_msg "checkpoint timestamp must be timezone-aware".
Definition stamp_as_utc (t : stamp) : result Z :=
  as_utc (match st_offset t with Some _ => Aware (st_us t) | None => Naive (st_us t) end).
Definition timestamp_of (clock : Z) (now : option datetime) : result Z :=
  as_utc (or_default now (Aware clock)).

Definition refuse {A} (msg : string) : result A := fail IntegrityCheckpointError msg.
Definition refuse_if (b : bool) (msg : string) : result unit := fail_if b IntegrityCheckpointError msg.

(** ** Queries over the records *)

Definition is_head_of (inst : string) (journal : JournalKind) (r : IntegrityCheckpoint) : bool :=
  bool_decide (c_installation_id r = inst) && bool_decide (c_journal r = journal).

(** [_latest]. *)
Definition latest_of (rs : list IntegrityCheckpoint) (inst : string) (journal : JournalKind) :
    option IntegrityCheckpoint := List.find (is_head_of inst journal) (reverse rs).

Definition relevant (rs : list IntegrityCheckpoint) (inst : string) : list IntegrityCheckpoint :=
  List.filter (λ r, bool_decide (c_installation_id r = inst)) rs.

(** [_current_recovery_epoch]; the epochs are non-negative. *)
Definition current_epoch (rs : list IntegrityCheckpoint) (inst : string) : result Z :=
  match relevant rs inst with
  | [] => Ok 0%Z
  | rel =>
      _ ← refuse_if (match latest_of rs inst AUDIT, latest_of rs inst OPERATIONS with
                     | Some a, Some o => negb (c_recovery_epoch a =? c_recovery_epoch o)%Z
                     | _, _ => false
                     end) "journal recovery epochs disagree";
      Ok (zmax (c_recovery_epoch <$> rel))
  end.

(** ** [_validate_checkpoint_records] *)

Record check_state : Type := CheckState {
  ck_groups : dict (string * string) (list IntegrityCheckpoint);
  ck_epoch : dict string Z;
  ck_operations : dict (string * Z) string;
}.

Definition get_default {K V} `{EqDecision K} (d : dict K V) (k : K) (v : V) : V := or_default (dict_get d k) v.

Definition metadata_invalid {A} (m : result A) (msg : string) : result A :=
  result_catch m (λ e, if exn_in e [ValueErr] then Some (refuse msg) else None).

(** The body of the first loop. *)
Definition check_record (s : check_state) (r : IntegrityCheckpoint) : result check_state :=
  _ ← metadata_invalid (_ ← validate_installation_id (c_installation_id r); stamp_as_utc (c_recorded_at r))
        "integrity checkpoint metadata is invalid";
  _ ← refuse_if (c_recovery_epoch r <? get_default (ck_epoch s) (c_installation_id r) 0)%Z
        "integrity checkpoint recovery epoch moved backward";
  let epoch := dict_set (ck_epoch s) (c_installation_id r) (c_recovery_epoch r) in
  if (c_format_version r =? 1)%Z then
    _ ← refuse_if (negb (c_recovery_epoch r =? 0)%Z || bool_decide (c_recovery_operation_id r ≠ None)
                   || bool_decide (c_recovery_actor_id r ≠ None)
                   || bool_decide (c_recovery_manifest_sha256 r ≠ None))
          "format version 1 checkpoint contains unsigned recovery metadata";
    Ok (CheckState (ck_groups s) epoch (ck_operations s))
  else
    match c_recovery_operation_id r with
    | None =>
        _ ← refuse_if (bool_decide (c_recovery_actor_id r ≠ None)
                       || bool_decide (c_recovery_manifest_sha256 r ≠ None))
              "recovery checkpoint metadata is incomplete";
        Ok (CheckState (ck_groups s) epoch (ck_operations s))
    | Some op =>
        match c_recovery_actor_id r, c_recovery_manifest_sha256 r with
        | Some actor, Some _ =>
            _ ← refuse_if (c_recovery_epoch r <? 1)%Z "recovery checkpoint metadata is incomplete";
            _ ← metadata_invalid (_ ← validate_operation_id op; validate_actor_id actor)
                  "recovery checkpoint metadata is invalid";
            let ekey := (c_installation_id r, c_recovery_epoch r) in
            _ ← refuse_if (bool_decide (get_default (ck_operations s) ekey op ≠ op))
                  "recovery epoch is bound to multiple operations";
            let gkey := (c_installation_id r, op) in
            Ok (CheckState (dict_set (ck_groups s) gkey (get_default (ck_groups s) gkey [] ++ [r])) epoch
                  (match dict_get (ck_operations s) ekey with
                   | Some _ => ck_operations s
                   | None => dict_set (ck_operations s) ekey op
                   end))
        | _, _ => refuse "recovery checkpoint metadata is incomplete"
        end
    end.

Definition both_kinds (g : list IntegrityCheckpoint) : bool :=
  existsb (λ r, bool_decide (c_journal r = AUDIT)) g && existsb (λ r, bool_decide (c_journal r = OPERATIONS)) g.

(** The body of the second loop: a recovery is one contiguous pair. *)
Definition check_group (g : list IntegrityCheckpoint) : result unit :=
  _ ← refuse_if (negb (length g =? 2)) "recovery checkpoint set is incomplete";
  _ ← refuse_if (negb (both_kinds g)) "recovery checkpoint set is invalid";
  match g with
  | first :: rest =>
      _ ← refuse_if (existsb (λ r, negb (c_recovery_epoch r =? c_recovery_epoch first)%Z
                                  || bool_decide (c_recovery_actor_id r ≠ c_recovery_actor_id first)
                                  || bool_decide (c_recovery_manifest_sha256 r ≠ c_recovery_manifest_sha256 first)) rest)
            "recovery checkpoint evidence is inconsistent";
      let sequences := sort_by id (c_sequence <$> g) in
      refuse_if (negb (or_default (last sequences) 0 =? or_default (head sequences) 0 + 1)%Z)
        "recovery checkpoint set is not contiguous"
  | [] => Ok tt
  end.

Definition check_records (rs : list IntegrityCheckpoint) : result unit :=
  s ← fold_result check_record (CheckState [] [] []) rs;
  fold_result (λ _ g, check_group g) tt (dict_values (ck_groups s)).

(** ** The file *)

Definition store : Type := option string.

Section store.
Context (hmac_hex : string → string → string) (isoformat dump_stamp : stamp → string)
  (parse_line : string → result IntegrityCheckpoint) (integrity_key : string).

Definition opt_str (o : option string) : json := match o with Some s => JStr s | None => JNull end.

(** [_checkpoint_body]. *)
Definition checkpoint_body (r : IntegrityCheckpoint) : json :=
  JObj (dict_sort (
    [("sequence", JInt (c_sequence r)); ("installation_id", JStr (c_installation_id r));
     ("journal", JStr (kind_value (c_journal r))); ("event_count", JInt (c_event_count r));
     ("head_hash", JStr (c_head_hash r)); ("recorded_at", JStr (isoformat (c_recorded_at r)));
     ("previous_hash", JStr (c_previous_hash r))] ++
    (if (2 <=? c_format_version r)%Z then
       [("format_version", JInt (c_format_version r)); ("recovery_epoch", JInt (c_recovery_epoch r));
        ("recovery_operation_id", opt_str (c_recovery_operation_id r));
        ("recovery_actor_id", opt_str (c_recovery_actor_id r));
        ("recovery_manifest_sha256", opt_str (c_recovery_manifest_sha256 r))]
     else []))).

(** [sign_integrity_checkpoint]. *)
Definition sign (body : json) : string := hmac_hex integrity_key (json_dumps body).

(** [record.model_dump(mode="json")]. *)
Definition checkpoint_dump (r : IntegrityCheckpoint) : json :=
  JObj (dict_sort
    [("format_version", JInt (c_format_version r)); ("sequence", JInt (c_sequence r));
     ("installation_id", JStr (c_installation_id r)); ("journal", JStr (kind_value (c_journal r)));
     ("event_count", JInt (c_event_count r)); ("head_hash", JStr (c_head_hash r));
     ("recorded_at", JStr (dump_stamp (c_recorded_at r))); ("previous_hash", JStr (c_previous_hash r));
     ("checkpoint_hash", JStr (c_checkpoint_hash r)); ("recovery_epoch", JInt (c_recovery_epoch r));
     ("recovery_operation_id", opt_str (c_recovery_operation_id r));
     ("recovery_actor_id", opt_str (c_recovery_actor_id r));
     ("recovery_manifest_sha256", opt_str (c_recovery_manifest_sha256 r))]).

Definition render (r : IntegrityCheckpoint) : string :=
  json_dumps (checkpoint_dump r) +:+ of_chars [newline].

Record scan : Type := Scan { sc_line : Z; sc_previous : string; sc_records : list IntegrityCheckpoint }.

(** The body of the reading loop. *)
Definition read_step (s : scan) (line : string) : result scan :=
  let n := (sc_line s + 1)%Z in
  _ ← refuse_if (MAX_CHECKPOINT_RECORD_BYTES <? Z.of_nat (utf8_len line))%Z
        "integrity checkpoint record exceeds the size limit";
  _ ← refuse_if (negb (complete_line line)) "integrity checkpoint has an incomplete record";
  record ← parse_line line;
  _ ← refuse_if (negb (c_sequence record =? n)%Z) "integrity checkpoint sequence is invalid";
  linked ← compare_digest (c_previous_hash record) (sc_previous s);
  _ ← refuse_if (negb linked) "integrity checkpoint chain is broken";
  signed ← compare_digest (c_checkpoint_hash record) (sign (checkpoint_body record));
  _ ← refuse_if (negb signed) "integrity checkpoint signature is invalid";
  Ok (Scan n (c_checkpoint_hash record) (sc_records s ++ [record])).

Definition empty_scan : scan := Scan 0 GENESIS_HASH [].

(** [_read_and_verify]: any other exception is reported as one error. *)
Definition read_and_verify (c : store) : result (list IntegrityCheckpoint) :=
  match c with
  | None => Ok []
  | Some text =>
      result_catch (s ← fold_result read_step empty_scan (read_lines text);
                    _ ← check_records (sc_records s);
                    Ok (sc_records s))
        (λ e, if exn_in e [IntegrityCheckpointError] then None
              else Some (refuse "integrity checkpoint could not be verified"))
  end.

Definition read : M store (list IntegrityCheckpoint) := λ c, (read_and_verify c, c).

(** [_append_many]: one write for all the lines. *)
Definition append_many (rs : list IntegrityCheckpoint) : M store unit :=
  modify_st (λ c, Some (or_default c "" +:+ str_join "" (render <$> rs))).

Definition seal (r : string → IntegrityCheckpoint) : IntegrityCheckpoint := r (sign (checkpoint_body (r ""))).

(** The record [checkpoint] and [recover] build. *)
Definition new_record (rs : list IntegrityCheckpoint) (inst : string) (journal : JournalKind) (count : Z)
    (head : string) (us epoch : Z) (op actor manifest : option string) : IntegrityCheckpoint :=
  seal (λ h,
    {| c_format_version := 2; c_sequence := Z.of_nat (length rs) + 1; c_installation_id := inst;
       c_journal := journal; c_event_count := count; c_head_hash := head; c_recorded_at := utc_stamp us;
       c_previous_hash := head_hash c_checkpoint_hash GENESIS_HASH rs; c_checkpoint_hash := h;
       c_recovery_epoch := epoch; c_recovery_operation_id := op; c_recovery_actor_id := actor;
       c_recovery_manifest_sha256 := manifest |}).

Definition checkpoint (clock : Z) (inst : string) (journal : JournalKind) (count : Z) (head : string)
    (now : option datetime) (expected_epoch : option Z) : M store IntegrityCheckpoint :=
  inst ← lift (validate_installation_id inst);
  ch ← lift (validate_head count head);
  let '(count, head) := ch in
  expected ← lift (validate_expected_recovery_epoch expected_epoch);
  us ← lift (timestamp_of clock now);
  rs ← read;
  epoch ← lift (current_epoch rs inst);
  _ ← lift (refuse_if (match expected with Some e => negb (epoch =? e)%Z | None => false end)
        "recovery epoch changed while checkpointing");
  same ← lift (match latest_of rs inst journal with
               | None => Ok None
               | Some existing =>
                   same ← (if (c_event_count existing =? count)%Z
                           then compare_digest (c_head_hash existing) head else Ok false);
                   if (same : bool) then Ok (Some existing)
                   else
                     _ ← refuse_if (count <=? c_event_count existing)%Z
                           "integrity checkpoint cannot move backward";
                     Ok None
               end);
  match same with
  | Some existing => mret existing
  | None =>
      let record := new_record rs inst journal count head us epoch None None None in
      _ ← append_many [record];
      mret record
  end.

Definition current_recovery_epoch (inst : string) : M store Z :=
  inst ← lift (validate_installation_id inst);
  rs ← read;
  lift (current_epoch rs inst).

(** The heads of both journals; the mapping's keys are the kinds' values. *)
Definition head_for (heads : dict string (Z * string)) (journal : JournalKind) : result (Z * string) :=
  match dict_get heads (kind_value journal) with
  | Some (count, head) => validate_head count head
  | None => fail ValueErr "recovery requires both journal heads"
  end.

(** Re-entry: the pair recorded under the same operation, still current. *)
Definition recovered_pair (rs prior : list IntegrityCheckpoint) (inst : string)
    (heads : JournalKind → Z * string) (actor manifest : string) :
    result (IntegrityCheckpoint * IntegrityCheckpoint) :=
  _ ← refuse_if (negb (length prior =? 2)) "recovery checkpoint set is incomplete";
  match List.find (λ r, bool_decide (c_journal r = AUDIT)) (reverse prior),
        List.find (λ r, bool_decide (c_journal r = OPERATIONS)) (reverse prior) with
  | Some a, Some o =>
      _ ← fold_result (λ _ r,
            refuse_if (match latest_of rs inst (c_journal r) with
                       | Some l => negb (c_sequence l =? c_sequence r)%Z
                       | None => true
                       end) "recovery operation is no longer current") tt prior;
      _ ← fold_result (λ _ jr,
            let '(journal, r) := jr in
            let '(count, head) := heads journal in
            same ← (if (c_event_count r =? count)%Z then compare_digest (c_head_hash r) head else Ok false);
            refuse_if (negb same || bool_decide (c_recovery_actor_id r ≠ Some actor)
                       || bool_decide (c_recovery_manifest_sha256 r ≠ Some manifest))
              "recovery operation ID is bound to different evidence") tt [(AUDIT, a); (OPERATIONS, o)];
      Ok (a, o)
  | _, _ => refuse "recovery checkpoint set is invalid"
  end.

Definition recover (clock : Z) (inst : string) (heads : dict string (Z * string)) (op actor manifest : string)
    (now : option datetime) : M store (IntegrityCheckpoint * IntegrityCheckpoint) :=
  inst ← lift (validate_installation_id inst);
  op ← lift (validate_operation_id op);
  actor ← lift (validate_actor_id actor);
  _ ← raise_if (negb (fullmatch HEX64 manifest)) ValueErr "invalid recovery manifest digest";
  audit ← lift (head_for heads AUDIT);
  operations ← lift (head_for heads OPERATIONS);
  _ ← raise_if (negb (length heads =? 2)) ValueErr "recovery contains an unknown journal head";
  us ← lift (timestamp_of clock now);
  rs ← read;
  match List.filter (λ r, bool_decide (c_installation_id r = inst)
                          && bool_decide (c_recovery_operation_id r = Some op)) rs with
  | [] =>
      epoch ← lift (current_epoch rs inst);
      let record rs journal (h : Z * string) :=
        new_record rs inst journal h.1 h.2 us (epoch + 1) (Some op) (Some actor) (Some manifest) in
      let a := record rs AUDIT audit in
      let o := record (rs ++ [a]) OPERATIONS operations in
      _ ← append_many [a; o];
      mret (a, o)
  | prior =>
      lift (recovered_pair rs prior inst
              (λ k, match k with AUDIT => audit | OPERATIONS => operations end) actor manifest)
  end.

Definition latest (inst : string) (journal : JournalKind) : M store (option IntegrityCheckpoint) :=
  inst ← lift (validate_installation_id inst);
  rs ← read;
  mret (latest_of rs inst journal).

Definition verify_current (inst : string) (journal : JournalKind) (count : Z) (head : string) :
    M store IntegrityCheckpoint :=
  ch ← lift (validate_head count head);
  let '(count, head) := ch in
  record ← latest inst journal;
  match record with
  | None => lift (refuse "trusted integrity checkpoint is missing")
  | Some r =>
      same ← lift (if (c_event_count r =? count)%Z then compare_digest (c_head_hash r) head else Ok false);
      _ ← lift (refuse_if (negb same) "journal head does not match the trusted integrity checkpoint");
      mret r
  end.

Definition verify : M store (list IntegrityCheckpoint) := read.
End store.

(** ** Queries after an append *)

Lemma latest_of_snoc rs r inst j :
  latest_of (rs ++ [r]) inst j = if is_head_of inst j r then Some r else latest_of rs inst j.
Proof. unfold latest_of. by rewrite reverse_snoc. Qed.

Lemma relevant_snoc rs r inst :
  relevant (rs ++ [r]) inst = relevant rs inst ++ (if decide (c_installation_id r = inst) then [r] else []).
Proof.
  unfold relevant. rewrite List.filter_app. simpl.
  destruct (decide _); [rewrite bool_decide_eq_true_2 by done|rewrite bool_decide_eq_false_2 by done]; done.
Qed.

Lemma is_head_of_true inst j r : is_head_of inst j r = true ↔ c_installation_id r = inst ∧ c_journal r = j.
Proof. unfold is_head_of. by rewrite andb_true_iff, !bool_decide_eq_true. Qed.

Lemma latest_of_in rs inst j x :
  latest_of rs inst j = Some x → x ∈ rs ∧ c_installation_id x = inst ∧ c_journal x = j.
Proof.
  unfold latest_of. intros [Hin Hx]%find_some. apply is_head_of_true in Hx.
  apply list_elem_of_In in Hin. by rewrite elem_of_reverse in Hin.
Qed.

(** ** What the record check establishes *)

(** The latest record of an installation, of either journal. *)
Definition frontier (rs : list IntegrityCheckpoint) (inst : string) (epochs : dict string Z) : Prop :=
  match relevant rs inst with
  | [] => dict_get epochs inst = None
  | rel => ∃ l, latest_of rs inst (c_journal l) = Some l ∧ dict_get epochs inst = Some (c_recovery_epoch l) ∧
                (0 ≤ c_recovery_epoch l)%Z ∧
                ∀ r, r ∈ rel → (c_recovery_epoch r ≤ c_recovery_epoch l)%Z
  end.

Record check_ok (rs : list IntegrityCheckpoint) (s : check_state) : Prop := {
  co_front : ∀ inst, frontier rs inst (ck_epoch s);
  co_ops : ∀ inst e op, dict_get (ck_operations s) (inst, e) = Some op →
    ∃ r, r ∈ rs ∧ c_installation_id r = inst ∧ c_recovery_epoch r = e;
  co_groups : ∀ inst op g, dict_get (ck_groups s) (inst, op) = Some g →
    ∃ r, r ∈ rs ∧ c_installation_id r = inst ∧ c_recovery_operation_id r = Some op;
}.

(** A record advances the check: its epoch becomes the installation's, and
    nothing but its own keys is added. *)
Lemma check_record_inv s r s' :
  check_record s r = Ok s' →
  (get_default (ck_epoch s) (c_installation_id r) 0 ≤ c_recovery_epoch r)%Z ∧
  ck_epoch s' = dict_set (ck_epoch s) (c_installation_id r) (c_recovery_epoch r) ∧
  (∀ k op, dict_get (ck_operations s') k = Some op →
     dict_get (ck_operations s) k = Some op ∨ k = (c_installation_id r, c_recovery_epoch r)) ∧
  (∀ k g, dict_get (ck_groups s') k = Some g →
     is_Some (dict_get (ck_groups s) k) ∨ ∃ op, c_recovery_operation_id r = Some op ∧ k = (c_installation_id r, op)).
Proof.
  unfold check_record. intros (? & _ & H)%bind_result_ok.
  apply bind_result_ok in H as ([] & He%fail_if_ok & H). bool_to_prop. split; [done|].
  destruct (c_format_version r =? 1)%Z.
  { apply bind_result_ok in H as ([] & _ & H). injection H as <-. simpl. split_and!; [done|auto|].
    intros k g ->. left. by eexists. }
  destruct (c_recovery_operation_id r) as [op|].
  2:{ apply bind_result_ok in H as ([] & _ & H). injection H as <-. simpl. split_and!; [done|auto|].
      intros k g ->. left. by eexists. }
  destruct (c_recovery_actor_id r), (c_recovery_manifest_sha256 r); try done.
  apply bind_result_ok in H as ([] & _ & H). apply bind_result_ok in H as (? & _ & H).
  apply bind_result_ok in H as ([] & _ & H). injection H as <-. simpl. split_and!; [done|..].
  - intros k op'. destruct (dict_get (ck_operations s) _) eqn:E; [auto|].
    rewrite dict_get_set. destruct (decide _) as [<-|]; auto.
  - intros k g. rewrite dict_get_set. destruct (decide _) as [<-|]; [eauto|]. intros ->. left. by eexists.
Qed.

Lemma check_ok_snoc rs s r s' : check_ok rs s → check_record s r = Ok s' → check_ok (rs ++ [r]) s'.
Proof.
  intros [Hf Ho Hg] H. apply check_record_inv in H as (Hle & He & Hops & Hgr). split.
  - intros inst. unfold frontier. rewrite relevant_snoc, He, dict_get_set. specialize (Hf inst). unfold frontier in Hf.
    destruct (decide (c_installation_id r = inst)) as [<-|Hne].
    + assert (∀ x, x ∈ relevant rs (c_installation_id r) → (c_recovery_epoch x ≤ c_recovery_epoch r)%Z) as Hmax.
      { intros x Hx. unfold get_default in Hle. destruct (relevant rs _) as [|y l]; [by apply not_elem_of_nil in Hx|].
        destruct Hf as (l0 & _ & Hd & _ & Hl). rewrite Hd in Hle. simpl in Hle. specialize (Hl x Hx). lia. }
      destruct (relevant rs (c_installation_id r) ++ [r]) as [|y l] eqn:E; [by destruct (relevant rs _)|].
      assert (0 ≤ c_recovery_epoch r)%Z as Hpos.
      { unfold get_default in Hle. destruct (relevant rs _) as [|z l1]; [by rewrite Hf in Hle|].
        destruct Hf as (l0 & _ & Hd & Hp & _). rewrite Hd in Hle. simpl in Hle. lia. }
      rewrite <-E. exists r. rewrite latest_of_snoc. split_and!; [|done|done|].
      * by rewrite (proj2 (is_head_of_true _ _ _)).
      * intros x [Hx| ->%list_elem_of_singleton]%elem_of_app; [by apply Hmax|lia].
    + rewrite app_nil_r. destruct (relevant rs inst) as [|y l]; [done|].
      destruct Hf as (l0 & Hl & Hd & Hp & Hmax). exists l0. split_and!; [|done|done|done].
      rewrite latest_of_snoc. destruct (is_head_of _ _ r) eqn:Eh; [|done]. by apply is_head_of_true in Eh as [].
  - intros inst e op H. apply Hops in H as [H|[= -> ->]].
    + destruct (Ho _ _ _ H) as (x & ? & ? & ?). exists x. set_solver.
    + exists r. set_solver.
  - intros inst op g H. apply Hgr in H as [[g' H]|(op' & Hop & [= -> ->])].
    + destruct (Hg _ _ _ H) as (x & ? & ? & ?). exists x. set_solver.
    + exists r. set_solver.
Qed.

Lemma check_fold_ok rs s : fold_result check_record (CheckState [] [] []) rs = Ok s → check_ok rs s.
Proof.
  revert s. induction rs as [|r rs IH] using rev_ind; intros s H.
  - injection H as <-. by split.
  - rewrite fold_result_app in H. apply bind_result_ok in H as (s1 & H1 & H). simpl in H.
    apply bind_result_ok in H as (s2 & H2 & [= <-]). eapply check_ok_snoc; [by apply IH|done].
Qed.

(** The epoch of the latest record of each journal is the current one. *)
Lemma latest_epoch rs s inst j x e :
  check_ok rs s → current_epoch rs inst = Ok e → latest_of rs inst j = Some x → c_recovery_epoch x = e.
Proof.
  intros [Hf _ _] He Hx. specialize (Hf inst). unfold frontier in Hf. unfold current_epoch in He.
  assert (x ∈ relevant rs inst) as Hin.
  { apply latest_of_in in Hx as (Hin & Hi & _). apply list_elem_of_In, filter_In.
    split; [by apply list_elem_of_In|by apply bool_decide_eq_true_2]. }
  destruct (relevant rs inst) as [|y rel] eqn:E; [by apply not_elem_of_nil in Hin|].
  destruct Hf as (l & Hl & _ & Hp & Hmax).
  apply bind_result_ok in He as ([] & Hag%fail_if_ok & [= <-]).
  assert (c_recovery_epoch x = c_recovery_epoch l) as ->.
  { destruct j, (c_journal l) eqn:Ej; try congruence; rewrite Hx, Hl in Hag; bool_to_prop; congruence. }
  assert (l ∈ y :: rel) as Hlin.
  { rewrite <-E. apply latest_of_in in Hl as (Hlin & Hi & _). apply list_elem_of_In, filter_In.
    split; [by apply list_elem_of_In|by apply bool_decide_eq_true_2]. }
  apply Z.le_antisymm.
  - apply zmax_ge. by apply (list_elem_of_fmap_2 c_recovery_epoch (y :: rel)).
  - apply zmax_le; [done|]. apply (Forall_fmap c_recovery_epoch _ (y :: rel)), Forall_forall.
    intros z Hz. by apply Hmax.
Qed.

(** ** Appending keeps the check *)

Definition start : check_state := CheckState [] [] [].

Definition groups_ok (s : check_state) : Prop :=
  fold_result (λ _ g, check_group g) tt (dict_values (ck_groups s)) = Ok tt.

Lemma check_records_ok rs :
  check_records rs = Ok tt ↔ ∃ s, fold_result check_record start rs = Ok s ∧ groups_ok s.
Proof. apply bind_result_ok. Qed.

(** The epoch of the last check is at most the current one. *)
Lemma epoch_le_current rs s inst e :
  check_ok rs s → current_epoch rs inst = Ok e → (get_default (ck_epoch s) inst 0 ≤ e)%Z.
Proof.
  intros [Hf _ _] He. specialize (Hf inst). unfold frontier in Hf. unfold current_epoch in He.
  unfold get_default. destruct (relevant rs inst) as [|y rel] eqn:E.
  - rewrite Hf. injection He as <-. done.
  - destruct Hf as (l & Hl & -> & _). simpl. apply bind_result_ok in He as (_ & _ & [= <-]).
    apply zmax_ge. apply (list_elem_of_fmap_2 c_recovery_epoch (y :: rel)). rewrite <-E.
    apply latest_of_in in Hl as (Hlin & Hi & _). apply list_elem_of_In, filter_In.
    split; [by apply list_elem_of_In|by apply bool_decide_eq_true_2].
Qed.

Lemma current_epoch_bound rs inst e r :
  current_epoch rs inst = Ok e → r ∈ rs → c_installation_id r = inst → (c_recovery_epoch r ≤ e)%Z.
Proof.
  intros He Hin Hi. assert (Hrel : r ∈ relevant rs inst).
  { apply list_elem_of_In, filter_In. split; [by apply list_elem_of_In|by apply bool_decide_eq_true_2]. }
  unfold current_epoch in He. destruct (relevant rs inst) as [|y rel]; [by apply not_elem_of_nil in Hrel|].
  apply bind_result_ok in He as (_ & _ & [= <-]). apply zmax_ge.
  by apply (list_elem_of_fmap_2 c_recovery_epoch (y :: rel)).
Qed.

Lemma metadata_ok inst us :
  fullmatch INSTALLATION_ID inst = true → dt_in_range us = true →
  metadata_invalid (_ ← validate_installation_id inst; stamp_as_utc (utc_stamp us))
    "integrity checkpoint metadata is invalid" = Ok us.
Proof.
  intros Hi Hu. unfold metadata_invalid, validate_installation_id, stamp_as_utc. rewrite Hi. simpl.
  unfold astimezone_utc. by rewrite Hu.
Qed.

(** A checkpoint at the current epoch. *)
Lemma check_plain rs r us :
  check_records rs = Ok tt → current_epoch rs (c_installation_id r) = Ok (c_recovery_epoch r) →
  fullmatch INSTALLATION_ID (c_installation_id r) = true → c_recorded_at r = utc_stamp us →
  dt_in_range us = true → c_format_version r = 2%Z → c_recovery_operation_id r = None →
  c_recovery_actor_id r = None → c_recovery_manifest_sha256 r = None →
  check_records (rs ++ [r]) = Ok tt.
Proof.
  intros (s & Hs & Hg)%check_records_ok He Hi Hr Hu Hv Ho Ha Hm. apply check_records_ok.
  pose proof (epoch_le_current _ _ _ _ (check_fold_ok _ _ Hs) He) as Hle.
  eexists (CheckState (ck_groups s) _ (ck_operations s)). split; [|exact Hg].
  rewrite fold_result_app, Hs. simpl. unfold check_record. rewrite Hr, metadata_ok by done.
  cbn [mbind result_bind]. rewrite (proj2 (Z.ltb_ge _ (get_default _ _ _))) by done. by rewrite Hv, Ho, Ha, Hm.
Qed.

(** The pair of a recovery, in the next epoch, under a new operation. *)
Lemma check_pair rs a b us e inst op actor manifest :
  check_records rs = Ok tt → current_epoch rs inst = Ok e → (0 ≤ e)%Z →
  (∀ r, r ∈ rs → c_installation_id r = inst → c_recovery_operation_id r ≠ Some op) →
  fullmatch INSTALLATION_ID inst = true → fullmatch OPERATION_ID op = true → fullmatch ACTOR_ID actor = true →
  dt_in_range us = true →
  (∀ r, r = a ∨ r = b → c_installation_id r = inst ∧ c_recorded_at r = utc_stamp us ∧
     c_format_version r = 2%Z ∧ c_recovery_epoch r = (e + 1)%Z ∧ c_recovery_operation_id r = Some op ∧
     c_recovery_actor_id r = Some actor ∧ c_recovery_manifest_sha256 r = Some manifest) →
  c_journal a = AUDIT → c_journal b = OPERATIONS → c_sequence b = (c_sequence a + 1)%Z →
  check_records (rs ++ [a; b]) = Ok tt.
Proof.
  intros (s & Hs & Hg)%check_records_ok He Hpos Hnew Hi Hop Hact Hu Hr Hja Hjb Hseq. apply check_records_ok.
  pose proof (check_fold_ok _ _ Hs) as Hok.
  pose proof (epoch_le_current _ _ _ _ Hok He) as Hle. destruct Hok as [_ Hops Hgroups].
  assert (Hno : dict_get (ck_operations s) (inst, (e + 1)%Z) = None).
  { destruct (dict_get (ck_operations s) _) as [o|] eqn:E; [|done].
    apply Hops in E as (r & Hin & Hri & Hre). pose proof (current_epoch_bound _ _ _ _ He Hin Hri). lia. }
  assert (Hng : dict_get (ck_groups s) (inst, op) = None).
  { destruct (dict_get (ck_groups s) _) as [g|] eqn:E; [|done].
    apply Hgroups in E as (r & Hin & Hri & Hro). by destruct (Hnew r). }
  assert (Hmeta2 : metadata_invalid (_ ← validate_operation_id op; validate_actor_id actor)
    "recovery checkpoint metadata is invalid" = Ok actor).
  { unfold metadata_invalid, validate_operation_id, validate_actor_id. by rewrite Hop, Hact. }
  assert (Hstep : ∀ st r, r = a ∨ r = b → (get_default (ck_epoch st) inst 0 ≤ e + 1)%Z →
    get_default (ck_operations st) (inst, (e + 1)%Z) op = op →
    check_record st r = Ok (CheckState
      (dict_set (ck_groups st) (inst, op) (get_default (ck_groups st) (inst, op) [] ++ [r]))
      (dict_set (ck_epoch st) inst (e + 1)%Z)
      (match dict_get (ck_operations st) (inst, (e + 1)%Z) with
       | Some _ => ck_operations st | None => dict_set (ck_operations st) (inst, (e + 1)%Z) op end))).
  { intros st r Hra Hst Hgo. destruct (Hr r Hra) as (H1 & H2 & H3 & H4 & H5 & H6 & H7).
    unfold check_record. rewrite H1, H2, H3, H4, H5, H6, H7, metadata_ok by done.
    cbn [mbind result_bind]. rewrite (proj2 (Z.ltb_ge _ (get_default _ _ _))) by done. cbn [refuse_if fail_if mbind result_bind Z.eqb].
    rewrite (proj2 (Z.ltb_ge _ _)) by lia. cbn [mbind result_bind refuse_if fail_if].
    rewrite Hmeta2. cbn [mbind result_bind]. rewrite Hgo, neq_self. done. }
  eexists. split.
  - rewrite fold_result_app, Hs. simpl. rewrite (Hstep s a); [|by left|lia|by unfold get_default; rewrite Hno].
    simpl. rewrite (Hstep _ b); [reflexivity|by right|..]; simpl.
    + unfold get_default. rewrite dict_get_set_eq. simpl. lia.
    + rewrite Hno. unfold get_default. by rewrite dict_get_set_eq.
  - unfold groups_ok. simpl. unfold get_default. rewrite Hng. simpl. rewrite dict_get_set_eq. simpl.
    rewrite (dict_set_new _ _ _ Hng), dict_set_app_r by by apply dict_get_None.
    unfold dict_values. rewrite fmap_app. unfold groups_ok, dict_values in Hg.
    simpl. rewrite decide_True by done. simpl. rewrite fold_result_app, Hg. simpl.
    destruct (Hr a) as (_ & _ & _ & A4 & _ & A6 & A7); [by left|].
    destruct (Hr b) as (_ & _ & _ & B4 & _ & B6 & B7); [by right|].
    unfold check_group, both_kinds. simpl. rewrite Hja, Hjb, A4, A6, A7, B4, B6, B7, Z.eqb_refl, !neq_self, Hseq.
    simpl. unfold ord_leb. simpl. rewrite (proj2 (Z.leb_le _ _)) by lia. simpl. by rewrite Z.eqb_refl.
Qed.

(** ** The file after an append *)

(** What pydantic's [IntegrityCheckpoint] asks of a record. *)
Record fields_ok (r : IntegrityCheckpoint) : Prop := {
  fo_version : c_format_version r = 1%Z ∨ c_format_version r = 2%Z;
  fo_sequence : (1 ≤ c_sequence r)%Z;
  fo_count : (0 ≤ c_event_count r)%Z;
  fo_head : fullmatch HEX64 (c_head_hash r) = true;
  fo_previous : fullmatch HEX64 (c_previous_hash r) = true;
  fo_hash : fullmatch HEX64 (c_checkpoint_hash r) = true;
  fo_epoch : (0 ≤ c_recovery_epoch r)%Z;
  fo_manifest : ∀ m, c_recovery_manifest_sha256 r = Some m → fullmatch HEX64 m = true;
}.

Lemma hex_ascii x : fullmatch HEX64 x = true → any_char non_ascii x = false.
Proof.
  intros H%fullmatch_correct. apply lang_chr_rep in H as [_ H]. apply any_char_false. intros c Hc.
  specialize (H c Hc). destruct c as [[] [] [] [] [] [] [] []]; vm_compute in H |- *; done.
Qed.

Lemma compare_digest_hex a b :
  fullmatch HEX64 a = true → fullmatch HEX64 b = true → compare_digest a b = Ok (bool_decide (a = b)).
Proof. intros Ha%hex_ascii Hb%hex_ascii. unfold compare_digest. by rewrite Ha, Hb. Qed.

Section appending.
Context (hmac_hex : string → string → string) (isoformat dump_stamp : stamp → string)
  (parse_line : string → result IntegrityCheckpoint) (integrity_key : string).

Local Abbreviation rd := (read_and_verify hmac_hex isoformat parse_line integrity_key).
Local Abbreviation rstep := (read_step hmac_hex isoformat parse_line integrity_key).
Local Abbreviation record := (new_record hmac_hex isoformat integrity_key).

Local Abbreviation chained := (chain_ok c_sequence c_previous_hash c_checkpoint_hash
  (λ r, json_dumps (checkpoint_body isoformat r)) (hmac_hex integrity_key)).

(** The record's line is within the reader's limit. *)
Definition fits (r : IntegrityCheckpoint) : Prop :=
  (Z.of_nat (utf8_len (render dump_stamp r)) ≤ MAX_CHECKPOINT_RECORD_BYTES)%Z.

Hypothesis hex_digest : ∀ k p, fullmatch HEX64 (hmac_hex k p) = true.
Hypothesis lines_read_back : ∀ r us,
  fields_ok r → c_recorded_at r = utc_stamp us → dt_in_range us = true →
  parse_line (render dump_stamp r) = Ok r.

Record scan_ok (s : scan) : Prop := {
  sk_line : sc_line s = Z.of_nat (length (sc_records s));
  sk_previous : sc_previous s = head_hash c_checkpoint_hash GENESIS_HASH (sc_records s);
  sk_chain : chained 1 GENESIS_HASH (sc_records s);
}.

Lemma record_step_ok s line s' :
  scan_ok s → rstep s line = Ok s' → scan_ok s' ∧ complete_line line = true.
Proof.
  intros [Hl Hp Hc] H. unfold read_step in H.
  apply bind_result_ok in H as ([] & _ & H). apply bind_result_ok in H as ([] & Hcl & H).
  apply fail_if_ok, negb_false_iff in Hcl. split; [|done].
  apply bind_result_ok in H as (r & _ & H). apply bind_result_ok in H as ([] & Hseq & H).
  apply bind_result_ok in H as (linked & Hlk & H). apply bind_result_ok in H as ([] & Hprev & H).
  apply bind_result_ok in H as (signed & Hsg & H). apply bind_result_ok in H as ([] & Hsig & H).
  injection H as <-. apply fail_if_ok in Hseq, Hprev, Hsig.
  apply compare_digest_ok in Hlk, Hsg. subst linked signed. bool_to_prop.
  split; simpl.
  - rewrite length_app. simpl. lia.
  - by rewrite head_hash_snoc.
  - apply chain_snoc. split_and!; [done|lia|congruence|done].
Qed.

Lemma fold_records_ok lines s s' : scan_ok s → fold_result rstep s lines = Ok s' → scan_ok s'.
Proof.
  revert s. induction lines as [|l lines IH]; intros s Hs H; simpl in H; [by injection H as <-|].
  apply bind_result_ok in H as (s1 & H1 & H). eapply IH; [|done]. by eapply record_step_ok.
Qed.

Lemma rd_ok c rs :
  rd c = Ok rs ↔ ∃ s, fold_result rstep empty_scan (read_lines (or_default c "")) = Ok s ∧
    sc_records s = rs ∧ check_records rs = Ok tt.
Proof.
  destruct c as [t|]; simpl.
  - unfold result_catch. split.
    + destruct (fold_result _ _ _) as [s|e]; simpl; [|by destruct (exn_isa (exn_cls e) IntegrityCheckpointError)].
      destruct (check_records (sc_records s)) as [[]|e] eqn:E; simpl; [|by destruct (exn_isa (exn_cls e) IntegrityCheckpointError)].
      intros [= <-]. by exists s.
    + intros (s & -> & <- & Hc). simpl. by rewrite Hc.
  - split; [intros [= <-]; by exists empty_scan | by intros (s & [= <-] & <- & _)].
Qed.

Lemma scanned c s : fold_result rstep empty_scan (read_lines c) = Ok s → scan_ok s.
Proof. apply fold_records_ok. split; [done|done|exact I]. Qed.

Lemma head_hex rs : chained 1 GENESIS_HASH rs →
  fullmatch HEX64 (head_hash c_checkpoint_hash GENESIS_HASH rs) = true.
Proof.
  destruct rs as [|r rs _] using rev_ind; [intros _; by vm_compute|].
  intros (_ & _ & _ & H)%chain_snoc. rewrite head_hash_snoc, H. apply hex_digest.
Qed.

Lemma record_line r :
  ∃ w, render dump_stamp r = of_chars (w ++ [newline]) ∧ newline ∉ w.
Proof.
  exists (chars (json_dumps (checkpoint_dump dump_stamp r))). split.
  - apply chars_inj. unfold render. by rewrite chars_app, !chars_of_chars.
  - apply flat_no_newline, scalar_members.
    by destruct (c_recovery_operation_id r), (c_recovery_actor_id r), (c_recovery_manifest_sha256 r).
Qed.

(** The arguments of a record that [checkpoint] or [recover] writes. *)
Definition args_ok (count : Z) (head : string) (us epoch : Z) (manifest : option string) : Prop :=
  (0 ≤ count)%Z ∧ fullmatch HEX64 head = true ∧ dt_in_range us = true ∧ (0 ≤ epoch)%Z ∧
  ∀ m, manifest = Some m → fullmatch HEX64 m = true.

Lemma new_record_ok rs inst j count head us epoch op actor manifest :
  chained 1 GENESIS_HASH rs → args_ok count head us epoch manifest →
  fields_ok (record rs inst j count head us epoch op actor manifest).
Proof.
  intros Hc (Hn & Hh & _ & He & Hm). split; simpl; try done; [by right|lia|by apply head_hex|apply hex_digest].
Qed.

Lemma step_accepts s inst j count head us epoch op actor manifest :
  let r := record (sc_records s) inst j count head us epoch op actor manifest in
  scan_ok s → args_ok count head us epoch manifest → fits r →
  ∃ s', rstep s (render dump_stamp r) = Ok s' ∧ sc_records s' = sc_records s ++ [r].
Proof.
  intros r [Hl Hp Hc] Ha Hfit. destruct (record_line r) as (w & Hw & _).
  pose proof (new_record_ok _ inst j _ _ _ _ op actor _ Hc Ha) as Hf. fold r in Hf.
  unfold read_step, refuse_if. rewrite (proj2 (Z.ltb_ge _ _)) by done. cbn [fail_if mbind result_bind].
  replace (complete_line (render dump_stamp r)) with true.
  2:{ symmetry. rewrite Hw. apply complete_line_last. by rewrite last_snoc. }
  cbn [negb fail_if mbind result_bind]. rewrite (lines_read_back r us) by (done || apply Ha).
  cbn [mbind result_bind].
  assert (c_sequence r = (sc_line s + 1)%Z) as -> by (unfold r; simpl; lia).
  rewrite Z.eqb_refl. cbn [negb fail_if mbind result_bind].
  assert (c_previous_hash r = sc_previous s) as -> by by rewrite Hp.
  rewrite (compare_digest_hex (sc_previous s)) by (rewrite Hp; by apply head_hex).
  rewrite bool_decide_eq_true_2 by done. cbn [negb fail_if mbind result_bind].
  assert (sign hmac_hex integrity_key (checkpoint_body isoformat r) = c_checkpoint_hash r) as -> by done.
  rewrite compare_digest_hex by apply Hf.
  rewrite bool_decide_eq_true_2 by done. cbn [negb fail_if mbind result_bind].
  eexists. split; [reflexivity|done].
Qed.

Lemma append_one c rs inst j count head us epoch op actor manifest :
  let r := record rs inst j count head us epoch op actor manifest in
  rd c = Ok rs → args_ok count head us epoch manifest → fits r → check_records (rs ++ [r]) = Ok tt →
  rd (Some (or_default c "" +:+ str_join "" [render dump_stamp r])) = Ok (rs ++ [r]).
Proof.
  intros r (s & Hs & Hrs & _)%rd_ok Ha Hfit Hck. subst rs.
  destruct (step_accepts s inst j count head us epoch op actor manifest (scanned _ _ Hs) Ha Hfit) as (s' & Hs' & Hrs').
  destruct (record_line r) as (w & Hw & Hnl).
  apply rd_ok. exists s'. split_and!; [|done|done]. simpl. fold r in Hs'. rewrite Hw in *.
  rewrite (fold_lines_snoc rstep empty_scan s); [done| |done|done].
  intros s0 l s1 H0. unfold read_step in H0. apply bind_result_ok in H0 as (_ & _ & H0).
  apply bind_result_ok in H0 as ([] & Hcl & _). by apply fail_if_ok, negb_false_iff in Hcl.
Qed.

Lemma append_two c rs inst j1 j2 count1 count2 head1 head2 us epoch op actor manifest :
  let a := record rs inst j1 count1 head1 us epoch op actor manifest in
  let b := record (rs ++ [a]) inst j2 count2 head2 us epoch op actor manifest in
  rd c = Ok rs → args_ok count1 head1 us epoch manifest → args_ok count2 head2 us epoch manifest →
  fits a → fits b → check_records (rs ++ [a; b]) = Ok tt →
  rd (Some (or_default c "" +:+ str_join "" [render dump_stamp a; render dump_stamp b])) = Ok (rs ++ [a; b]).
Proof.
  intros a b (s & Hs & Hrs & _)%rd_ok Ha Hb Hfa Hfb Hck. subst rs.
  destruct (step_accepts s inst j1 count1 head1 us epoch op actor manifest (scanned _ _ Hs) Ha Hfa) as (s1 & Hs1 & Hr1).
  fold a in Hs1, Hr1.
  assert (Hok1 : scan_ok s1) by (eapply record_step_ok; [by eapply scanned|done]).
  destruct (step_accepts s1 inst j2 count2 head2 us epoch op actor manifest Hok1 Hb) as (s2 & Hs2 & Hr2).
  { rewrite Hr1. exact Hfb. }
  rewrite Hr1 in Hs2, Hr2. fold b in Hs2, Hr2.
  destruct (record_line a) as (wa & Hwa & Hna), (record_line b) as (wb & Hwb & Hnb).
  assert (Hcl : ∀ s l s', rstep s l = Ok s' → complete_line l = true).
  { intros s0 l s3 H0. unfold read_step in H0. apply bind_result_ok in H0 as (_ & _ & H0).
    apply bind_result_ok in H0 as ([] & Hcl & _). by apply fail_if_ok, negb_false_iff in Hcl. }
  apply rd_ok. exists s2. rewrite <-(assoc_L (++)) in Hr2. split_and!; [|done|done].
  change (str_join "" [render dump_stamp a; render dump_stamp b]) with (render dump_stamp a +:+ render dump_stamp b).
  cbn [or_default]. rewrite str_app_assoc. rewrite Hwa, Hwb in *.
  erewrite (fold_lines_snoc rstep empty_scan s1); [done|done| |done].
  by rewrite (fold_lines_snoc rstep empty_scan s).
Qed.

(** ** What each operation does *)

Lemma run_records {A} c rs (k : _ → M store A) :
  rd c = Ok rs → (read hmac_hex isoformat parse_line integrity_key ≫= k) c = k rs c.
Proof. intros Hc. rewrite run_bind. unfold read. by rewrite Hc. Qed.

Local Abbreviation do_checkpoint := (checkpoint hmac_hex isoformat dump_stamp parse_line integrity_key).
Local Abbreviation do_recover := (recover hmac_hex isoformat dump_stamp parse_line integrity_key).

(** The file with records added. *)
Definition added (c : store) (ns : list IntegrityCheckpoint) : store :=
  Some (or_default c "" +:+ str_join "" (render dump_stamp <$> ns)).

Lemma timestamp_of_range clock now us : timestamp_of clock now = Ok us → dt_in_range us = true.
Proof. unfold timestamp_of. by intros (_ & ?)%as_utc_ok. Qed.

Lemma validate_head_ok n h p :
  validate_head n h = Ok p → p = (n, h) ∧ (0 ≤ n)%Z ∧ fullmatch HEX64 h = true.
Proof.
  unfold validate_head. intros ([] & H1%fail_if_ok & H)%bind_result_ok.
  apply bind_result_ok in H as ([] & H2%fail_if_ok & [= <-]). bool_to_prop. done.
Qed.

Lemma current_epoch_nonneg rs inst e : current_epoch rs inst = Ok e → (0 ≤ e)%Z.
Proof.
  unfold current_epoch. destruct (relevant rs inst) as [|y l]; [by intros [= <-]|].
  intros (_ & _ & [= <-])%bind_result_ok. apply zmax_nonneg.
Qed.

Lemma checkpoint_cases c rs clock inst j count head now expected :
  rd c = Ok rs →
  (∃ e, do_checkpoint clock inst j count head now expected c = (Err e, c)) ∨
  (∃ x, do_checkpoint clock inst j count head now expected c = (Ok x, c) ∧ latest_of rs inst j = Some x ∧
     c_event_count x = count ∧ c_head_hash x = head) ∨
  (∃ us e, let r := record rs inst j count head us e None None None in
     current_epoch rs inst = Ok e ∧ fullmatch INSTALLATION_ID inst = true ∧ args_ok count head us e None ∧
     (∀ x, latest_of rs inst j = Some x → (c_event_count x < count)%Z) ∧
     do_checkpoint clock inst j count head now expected c = (Ok r, added c [r])).
Proof.
  intros Hc. unfold checkpoint, validate_installation_id.
  destruct (fullmatch INSTALLATION_ID inst) eqn:Hi; [|left; by eexists]. rewrite run_bind_lift.
  destruct (validate_head count head) as [p|] eqn:Hh; [|left; by eexists].
  apply validate_head_ok in Hh as (-> & Hn & Hx). rewrite run_bind_lift.
  destruct (validate_expected_recovery_epoch expected) as [ex|]; [|left; by eexists]. rewrite run_bind_lift.
  destruct (timestamp_of clock now) as [us|] eqn:Hus; [|left; by eexists].
  rewrite run_bind_lift, (run_records _ _ _ Hc).
  destruct (current_epoch rs inst) as [e|] eqn:He; [|left; by eexists]. rewrite run_bind_lift.
  rewrite run_bind_lift. destruct (refuse_if _ _) as [[]|]; [|left; by eexists].
  rewrite run_bind_lift.
  assert (args_ok count head us e None) as Hargs.
  { split_and!; [done|done|by eapply timestamp_of_range|by eapply current_epoch_nonneg|done]. }
  destruct (latest_of rs inst j) as [x|] eqn:Hl.
  - destruct (if (c_event_count x =? count)%Z then _ else _) as [[]|] eqn:Hs; cbn [mbind result_bind].
    + right. left. exists x. destruct (_ =? _)%Z eqn:Hcnt; [|done]. apply compare_digest_ok in Hs.
      symmetry in Hs. bool_to_prop. done.
    + destruct (count <=? c_event_count x)%Z eqn:Hle; [left; by eexists|].
      right. right. exists us, e. bool_to_prop. split_and!; [done|done|done|by intros ? [= <-]|done].
    + left; by eexists.
  - right. right. exists us, e. by split_and!.
Qed.

Lemma recover_cases c rs clock inst heads op actor manifest now :
  rd c = Ok rs →
  let prior := List.filter (λ r, bool_decide (c_installation_id r = inst)
                                 && bool_decide (c_recovery_operation_id r = Some op)) rs in
  (∃ e, do_recover clock inst heads op actor manifest now c = (Err e, c)) ∨
  (∃ a b ha hb, do_recover clock inst heads op actor manifest now c = (Ok (a, b), c) ∧ prior ≠ [] ∧
     head_for heads AUDIT = Ok ha ∧ head_for heads OPERATIONS = Ok hb ∧
     recovered_pair rs prior inst (λ k, match k with AUDIT => ha | OPERATIONS => hb end) actor manifest = Ok (a, b)) ∨
  (∃ us e na ha nb hb,
     let a := record rs inst AUDIT na ha us (e + 1) (Some op) (Some actor) (Some manifest) in
     let b := record (rs ++ [a]) inst OPERATIONS nb hb us (e + 1) (Some op) (Some actor) (Some manifest) in
     current_epoch rs inst = Ok e ∧ prior = [] ∧ fullmatch INSTALLATION_ID inst = true ∧
     fullmatch OPERATION_ID op = true ∧ fullmatch ACTOR_ID actor = true ∧
     args_ok na ha us (e + 1) (Some manifest) ∧ args_ok nb hb us (e + 1) (Some manifest) ∧
     head_for heads AUDIT = Ok (na, ha) ∧ head_for heads OPERATIONS = Ok (nb, hb) ∧
     do_recover clock inst heads op actor manifest now c = (Ok (a, b), added c [a; b])).
Proof.
  intros Hc prior. unfold recover, validate_installation_id, validate_operation_id, validate_actor_id, raise_if.
  destruct (fullmatch INSTALLATION_ID inst) eqn:Hi; [|left; by eexists]. rewrite run_bind_lift.
  destruct (fullmatch OPERATION_ID op) eqn:Hop; [|left; by eexists]. rewrite run_bind_lift.
  destruct (fullmatch ACTOR_ID actor) eqn:Hac; [|left; by eexists]. rewrite run_bind_lift.
  rewrite run_bind_lift. destruct (fullmatch HEX64 manifest) eqn:Hm; [|left; by eexists]. cbn [negb fail_if].
  rewrite run_bind_lift. destruct (head_for heads AUDIT) as [[na ha]|] eqn:Ha; [|left; by eexists].
  rewrite run_bind_lift. destruct (head_for heads OPERATIONS) as [[nb hb]|] eqn:Hb; [|left; by eexists].
  rewrite run_bind_lift. destruct (fail_if _ _ _) as [[]|]; [|left; by eexists].
  rewrite run_bind_lift. destruct (timestamp_of clock now) as [us|] eqn:Hus; [|left; by eexists].
  rewrite (run_records _ _ _ Hc). fold prior. destruct prior as [|p ps] eqn:Hp.
  - rewrite run_bind_lift. destruct (current_epoch rs inst) as [e|] eqn:He; [|left; by eexists].
    right. right. exists us, e, na, ha, nb, hb.
    assert (∀ n h k, head_for heads k = Ok (n, h) → args_ok n h us (e + 1) (Some manifest)) as Hargs.
    { intros n h k Hk. unfold head_for in Hk. destruct (dict_get heads _) as [[n' h']|]; [|done].
      apply validate_head_ok in Hk as ([= <- <-] & ? & ?). apply current_epoch_nonneg in He.
      split_and!; [done|done|by eapply timestamp_of_range|lia|by intros ? [= <-]]. }
    split_and!; try done; by eapply Hargs.
  - unfold lift. destruct (recovered_pair _ _ _ _ _ _) as [[a b]|err] eqn:E; [|left; by eexists].
    right. left. exists a, b, (na, ha), (nb, hb). by split_and!.
Qed.

(** ** The provider over time *)

Inductive op : Type :=
  | OpCheckpoint (clock : Z) (inst : string) (j : JournalKind) (count : Z) (head : string)
      (now : option datetime) (expected : option Z)
  | OpRecover (clock : Z) (inst : string) (heads : dict string (Z * string)) (op actor manifest : string)
      (now : option datetime).

(** The records an operation answers with, and the file it leaves. *)
Definition outcome (o : op) (c : store) : result (list IntegrityCheckpoint) * store :=
  match o with
  | OpCheckpoint k i j n h t x => let '(r, c') := do_checkpoint k i j n h t x c in (x ← r; Ok [x], c')
  | OpRecover k i hs p a m t => let '(r, c') := do_recover k i hs p a m t c in (x ← r; Ok [x.1; x.2], c')
  end.

(** A run of operations, raised or not, whose records fit a line. *)
Inductive steps : store → store → Prop :=
  | steps_refl c : steps c c
  | steps_step c o c' :
      (∀ rs, (outcome o c).1 = Ok rs → Forall fits rs) → steps (outcome o c).2 c' → steps c c'.

Definition agree (rs : list IntegrityCheckpoint) : Prop := ∀ inst, is_ok (current_epoch rs inst) = true.

(** The file verifies and its epochs agree. *)
Definition good (c : store) (rs : list IntegrityCheckpoint) : Prop := rd c = Ok rs ∧ agree rs.

(** What a step may add: nothing, a checkpoint, or a recovery pair. *)
Inductive extends (rs : list IntegrityCheckpoint) : list IntegrityCheckpoint → Prop :=
  | ext_none : extends rs rs
  | ext_checkpoint inst j count head us e :
      let r := record rs inst j count head us e None None None in
      current_epoch rs inst = Ok e → (∀ x, latest_of rs inst j = Some x → (c_event_count x < count)%Z) →
      extends rs (rs ++ [r])
  | ext_recover inst us e na ha nb hb op actor manifest :
      let a := record rs inst AUDIT na ha us (e + 1) (Some op) (Some actor) (Some manifest) in
      let b := record (rs ++ [a]) inst OPERATIONS nb hb us (e + 1) (Some op) (Some actor) (Some manifest) in
      current_epoch rs inst = Ok e →
      (∀ r, r ∈ rs → c_installation_id r = inst → c_recovery_operation_id r ≠ Some op) →
      extends rs (rs ++ [a; b]).

Lemma prior_nil rs inst op :
  List.filter (λ r, bool_decide (c_installation_id r = inst) && bool_decide (c_recovery_operation_id r = Some op)) rs = [] →
  ∀ r, r ∈ rs → c_installation_id r = inst → c_recovery_operation_id r ≠ Some op.
Proof.
  intros H r Hin Hi Ho. cut (r ∈ @nil IntegrityCheckpoint); [apply not_elem_of_nil|]. rewrite <-H.
  apply list_elem_of_In, filter_In. split; [by apply list_elem_of_In|]. by rewrite Hi, Ho, !bool_decide_eq_true_2.
Qed.

Lemma pair_reads c rs inst us e na ha nb hb op actor manifest :
  let a := record rs inst AUDIT na ha us (e + 1) (Some op) (Some actor) (Some manifest) in
  let b := record (rs ++ [a]) inst OPERATIONS nb hb us (e + 1) (Some op) (Some actor) (Some manifest) in
  rd c = Ok rs → current_epoch rs inst = Ok e →
  (∀ r, r ∈ rs → c_installation_id r = inst → c_recovery_operation_id r ≠ Some op) →
  fullmatch INSTALLATION_ID inst = true → fullmatch OPERATION_ID op = true → fullmatch ACTOR_ID actor = true →
  args_ok na ha us (e + 1) (Some manifest) → args_ok nb hb us (e + 1) (Some manifest) →
  fits a → fits b → rd (added c [a; b]) = Ok (rs ++ [a; b]).
Proof.
  intros a b Hc He Hnew Hi Hop Hac Ha Hb Hf1 Hf2. pose proof Hc as (s & _ & _ & Hck)%rd_ok.
  apply append_two; [done..|]. eapply (check_pair rs _ _ us e inst op actor manifest); try done.
  - by eapply current_epoch_nonneg.
  - apply Ha.
  - intros r [-> | ->]; done.
  - simpl. rewrite length_app. simpl. lia.
Qed.

Lemma step_extends c rs o :
  rd c = Ok rs → (∀ l, (outcome o c).1 = Ok l → Forall fits l) →
  ∃ rs', rd (outcome o c).2 = Ok rs' ∧ extends rs rs'.
Proof.
  intros Hc Hfit. pose proof Hc as (s & _ & _ & Hck)%rd_ok. destruct o as [k i j n h t x|k i hs p a m t]; simpl in *.
  - destruct (checkpoint_cases c rs k i j n h t x Hc) as [(e & E)|[(y & E & _)|(us & e & He & Hi & Ha & Hlt & E)]];
      rewrite E in *; simpl in *; [exists rs; split; [done|constructor]..|].
    eexists. split; [|by eapply ext_checkpoint].
    specialize (Hfit _ eq_refl). apply Forall_cons in Hfit as [Hf _].
    apply append_one; [done|done|done|]. eapply check_plain; try done. apply Ha.
  - destruct (recover_cases c rs k i hs p a m t Hc)
      as [(e & E)|[(y & z & ha & hb & E & _)|(us & e & na & ha & nb & hb & He & Hp & Hi & Hop & Hac & Ha & Hb & _ & _ & E)]];
      rewrite E in *; simpl in *; [exists rs; split; [done|constructor]..|].
    pose proof (prior_nil _ _ _ Hp) as Hnew.
    eexists. split; [|by eapply (ext_recover rs i us e na ha nb hb p a m)].
    specialize (Hfit _ eq_refl). apply Forall_cons in Hfit as [Hf1 [Hf2 _]%Forall_cons].
    by apply pair_reads.
Qed.

(** Whether two journals' latest epochs agree depends on the latest records. *)
Lemma current_epoch_agree rs inst :
  is_ok (current_epoch rs inst) = true ↔
  ∀ a o, latest_of rs inst AUDIT = Some a → latest_of rs inst OPERATIONS = Some o →
    c_recovery_epoch a = c_recovery_epoch o.
Proof.
  unfold current_epoch. destruct (relevant rs inst) as [|y l] eqn:E.
  - split; [|done]. intros _ a o Ha. apply latest_of_in in Ha as (Hin & Hi & _).
    assert (a ∈ relevant rs inst) as Hr; [|by rewrite E in Hr; apply not_elem_of_nil in Hr].
    apply list_elem_of_In, filter_In. split; [by apply list_elem_of_In|by apply bool_decide_eq_true_2].
  - unfold refuse_if, fail_if. destruct (latest_of rs inst AUDIT) as [a|]; [|done].
    destruct (latest_of rs inst OPERATIONS) as [o|]; [|done].
    destruct (c_recovery_epoch a =? c_recovery_epoch o)%Z eqn:Ee; bool_to_prop; simpl; split; try done.
    + by intros _ ? ? [= <-] [= <-].
    + intros H. by rewrite (H a o) in Ee.
Qed.

Lemma extends_agree rs rs' : check_records rs = Ok tt → agree rs → extends rs rs' → agree rs'.
Proof.
  intros (s & Hs & _)%check_records_ok Hag Hx inst. pose proof (check_fold_ok _ _ Hs) as Hok.
  apply current_epoch_agree. specialize (Hag inst). rewrite current_epoch_agree in Hag.
  destruct Hx as [|i j count head us e r He _|i us e na ha nb hb op actor manifest a b He _]; [done|..].
  - intros x y. rewrite !latest_of_snoc.
    destruct (is_head_of inst AUDIT r) eqn:E1, (is_head_of inst OPERATIONS r) eqn:E2; try (by apply Hag).
    + by intros [= <-] [= <-].
    + intros [= <-] Hy. apply is_head_of_true in E1 as [<- _]. by rewrite (latest_epoch _ _ _ _ _ _ Hok He Hy).
    + intros Hy [= <-]. apply is_head_of_true in E2 as [<- _]. by rewrite (latest_epoch _ _ _ _ _ _ Hok He Hy).
  - intros x y. change [a; b] with ([a] ++ [b]). rewrite (assoc_L (++)), !latest_of_snoc.
    destruct (decide (i = inst)) as [<-|Hne].
    + rewrite (proj2 (is_head_of_true _ OPERATIONS b)) by done.
      destruct (is_head_of i AUDIT b) eqn:E; [by apply is_head_of_true in E as []|].
      rewrite (proj2 (is_head_of_true _ AUDIT a)) by done. by intros [= <-] [= <-].
    + assert (∀ k r, r = a ∨ r = b → is_head_of inst k r = false) as Hno.
      { intros k r Hr. destruct (is_head_of inst k r) eqn:E; [|done]. apply is_head_of_true in E as [E _].
        by destruct Hr as [-> | ->]. }
      rewrite !Hno by auto. apply Hag.
Qed.

Lemma steps_good c c' rs : good c rs → steps c c' → ∃ rs', good c' rs' ∧ rtc extends rs rs'.
Proof.
  intros Hg H. revert rs Hg. induction H as [c|c o c' Hfit _ IH]; intros rs [Hc Hag].
  - exists rs. split; [done|apply rtc_refl].
  - destruct (step_extends c rs o Hc Hfit) as (rs1 & Hc1 & Hx).
    pose proof Hc as (s & _ & _ & Hck)%rd_ok.
    destruct (IH rs1) as (rs2 & Hg2 & Hrtc); [split; [done|by eapply extends_agree]|].
    exists rs2. split; [done|by eapply rtc_l].
Qed.

(** ** Nothing moves backward *)

(** [y] is [x] or a later head: of a later epoch, or of the same one with more events. *)
Definition advances (x y : IntegrityCheckpoint) : Prop :=
  y = x ∨ (c_recovery_epoch x < c_recovery_epoch y)%Z ∨
  (c_recovery_epoch x = c_recovery_epoch y ∧ (c_event_count x < c_event_count y)%Z).

Lemma advances_trans x y z : advances x y → advances y z → advances x z.
Proof.
  unfold advances.
  intros [->|[?|[? ?]]] [->|[?|[? ?]]]; auto; right; [left|left|left|right]; lia.
Qed.

Lemma extends_advances rs rs' inst j x :
  extends rs rs' → latest_of rs inst j = Some x →
  ∃ y, latest_of rs' inst j = Some y ∧ advances x y.
Proof.
  intros Hx Hl. destruct Hx as [|i k count head us e r He Hlt|i us e na ha nb hb op actor manifest a b He _].
  - exists x. split; [done|by left].
  - rewrite latest_of_snoc. destruct (is_head_of inst j r) eqn:E; [|exists x; split; [done|by left]].
    apply is_head_of_true in E as [<- <-]. exists r. split; [done|]. right.
    specialize (Hlt x Hl). apply latest_of_in in Hl as (Hin & Hi & _).
    pose proof (current_epoch_bound _ _ _ _ He Hin Hi). simpl in *.
    destruct (decide (c_recovery_epoch x = e)); [right; done|left; lia].
  - change [a; b] with ([a] ++ [b]). rewrite (assoc_L (++)), !latest_of_snoc.
    assert (∀ r, r = a ∨ r = b → is_head_of inst j r = true → advances x r) as Hadv.
    { intros r Hr E. right. left. apply is_head_of_true in E as [E _].
      assert (i = inst) as <- by by destruct Hr as [-> | ->].
      apply latest_of_in in Hl as (Hin & Hi & _).
      pose proof (current_epoch_bound _ _ _ _ He Hin Hi). destruct Hr as [-> | ->]; simpl; lia. }
    destruct (is_head_of inst j b) eqn:Eb; [exists b; split; [done|by apply Hadv; auto]|].
    destruct (is_head_of inst j a) eqn:Ea; [exists a; split; [done|by apply Hadv; auto]|].
    exists x. split; [done|by left].
Qed.

Lemma rtc_advances rs rs' inst j x :
  rtc extends rs rs' → latest_of rs inst j = Some x → ∃ y, latest_of rs' inst j = Some y ∧ advances x y.
Proof.
  intros H. revert x. induction H as [rs|rs rs1 rs2 Hx _ IH]; intros x Hl.
  - exists x. split; [done|by left].
  - destruct (extends_advances _ _ _ _ _ Hx Hl) as (y & Hy & Hxy).
    destruct (IH y Hy) as (z & Hz & Hyz). exists z. split; [done|by eapply advances_trans].
Qed.

(** ** A recovery is written once *)

Definition priors (inst op : string) (rs : list IntegrityCheckpoint) : list IntegrityCheckpoint :=
  List.filter (λ r, bool_decide (c_installation_id r = inst) && bool_decide (c_recovery_operation_id r = Some op)) rs.

Lemma priors_other inst op rs :
  (∀ r, r ∈ rs → c_installation_id r ≠ inst ∨ c_recovery_operation_id r ≠ Some op) → priors inst op rs = [].
Proof.
  unfold priors. induction rs as [|r rs IH]; [done|]. intros H. simpl.
  assert (bool_decide (c_installation_id r = inst) && bool_decide (c_recovery_operation_id r = Some op) = false) as ->.
  { apply andb_false_iff. rewrite !bool_decide_eq_false. apply H. by left. }
  apply IH. intros x Hx. apply H. by right.
Qed.

Lemma priors_extend rs rs' inst op : extends rs rs' → priors inst op rs ≠ [] → priors inst op rs' = priors inst op rs.
Proof.
  intros Hx Hne. unfold priors in *.
  destruct Hx as [|i k count head us e r He Hlt|i us e na ha nb hb op' actor manifest a b He Hnew];
    [done|rewrite List.filter_app..].
  - fold (priors inst op [r]). rewrite (priors_other inst op [r]); [apply app_nil_r|].
    intros x ->%list_elem_of_singleton. by right.
  - assert (i ≠ inst ∨ op' ≠ op) as Hd.
    { destruct (decide (i = inst)) as [->|]; [|by left]. right. intros ->. destruct (List.filter _ rs) as [|r l] eqn:E; [done|].
      assert (r ∈ r :: l) as Hr by by left. rewrite <-E in Hr. apply list_elem_of_In, filter_In in Hr as [Hr Hb].
      bool_to_prop. apply list_elem_of_In in Hr. by apply (Hnew r). }
    fold (priors inst op [a; b]). rewrite (priors_other inst op [a; b]); [apply app_nil_r|].
    intros x [->| ->%list_elem_of_singleton]%elem_of_cons; (destruct Hd as [Hd|Hd]; [by left|right; simpl; congruence]).
Qed.

Lemma priors_rtc rs rs' inst op : rtc extends rs rs' → priors inst op rs ≠ [] → priors inst op rs' = priors inst op rs.
Proof.
  induction 1 as [|rs rs1 rs2 Hx _ IH]; [done|]. intros Hne.
  pose proof (priors_extend _ _ _ _ Hx Hne) as E. rewrite IH; [done|congruence].
Qed.

Definition prior_of (k : JournalKind) (ps : list IntegrityCheckpoint) : option IntegrityCheckpoint :=
  List.find (λ r, bool_decide (c_journal r = k)) (reverse ps).

Lemma recovered_pair_inv rs ps inst heads actor manifest a b :
  recovered_pair rs ps inst heads actor manifest = Ok (a, b) →
  prior_of AUDIT ps = Some a ∧ prior_of OPERATIONS ps = Some b ∧
  (∀ r, r ∈ ps → ∃ l, latest_of rs inst (c_journal r) = Some l ∧ c_sequence l = c_sequence r) ∧
  (∀ k r, (k, r) ∈ [(AUDIT, a); (OPERATIONS, b)] → heads k = (c_event_count r, c_head_hash r) ∧
     c_recovery_actor_id r = Some actor ∧ c_recovery_manifest_sha256 r = Some manifest).
Proof.
  unfold recovered_pair, prior_of. intros ([] & _ & H)%bind_result_ok.
  destruct (List.find _ _) as [x|] eqn:Ea; [|done]. destruct (List.find (λ r, bool_decide (_ = OPERATIONS)) _) as [y|] eqn:Eb; [|done].
  apply bind_result_ok in H as ([] & Hl & H). apply bind_result_ok in H as ([] & He & H). injection H as -> ->.
  split_and!; [done|done|..].
  - clear -Hl. induction ps as [|p ps IH]; [by intros r ?%not_elem_of_nil|]. simpl in Hl.
    apply bind_result_ok in Hl as ([] & Hp%fail_if_ok & Hl). intros r [->|Hr]%elem_of_cons; [|by apply IH].
    destruct (latest_of rs inst (c_journal p)) as [l|]; [|done]. bool_to_prop. by exists l.
  - intros k r Hin. revert He. generalize [(AUDIT, a); (OPERATIONS, b)] Hin. clear.
    intros l Hin. induction l as [|[k' r'] l IH]; [by apply not_elem_of_nil in Hin|]. simpl.
    intros ([] & Hr & Hl)%bind_result_ok. apply elem_of_cons in Hin as [[= <- <-]|Hin]; [|by apply IH].
    destruct (heads k) as [n h]. apply bind_result_ok in Hr as (same & Hs & Hr%fail_if_ok). bool_to_prop.
    match goal with H1 : ¬ (c_recovery_actor_id _ ≠ _), H2 : ¬ (c_recovery_manifest_sha256 _ ≠ _) |- _ =>
      apply dec_stable in H1, H2 end. subst same.
    destruct (_ =? _)%Z eqn:En; [|done]. apply compare_digest_ok in Hs. symmetry in Hs. bool_to_prop. by subst.
Qed.

(** After a recovery that answered, its pair is what the file has under its operation. *)
Lemma recover_prior c rs clock inst heads op actor manifest now a b c1 :
  good c rs → do_recover clock inst heads op actor manifest now c = (Ok (a, b), c1) → fits a → fits b →
  ∃ rs1, good c1 rs1 ∧ priors inst op rs1 ≠ [] ∧
    prior_of AUDIT (priors inst op rs1) = Some a ∧ prior_of OPERATIONS (priors inst op rs1) = Some b.
Proof.
  intros [Hc Hag] H Ha Hb.
  destruct (step_extends c rs (OpRecover clock inst heads op actor manifest now) Hc) as (rs1 & Hc1 & Hx).
  { simpl. rewrite H. simpl. intros l [= <-]. by repeat constructor. }
  simpl in Hc1. rewrite H in Hc1. simpl in Hc1. pose proof Hc as (s & _ & _ & Hck)%rd_ok.
  assert (good c1 rs1) as Hg1 by (split; [done|by eapply extends_agree]).
  destruct (recover_cases c rs clock inst heads op actor manifest now Hc)
    as [(e & E)|[(y & z & ha & hb & E & Hp & _ & _ & Hr)|(us & e & na & ha & nb & hb & He & Hp & Hi & Hop & Hac & Hna & Hnb & _ & _ & E)]];
    rewrite H in E; [done|..].
  - injection E as -> -> ->. exists rs. split; [done|]. split; [done|].
    by apply recovered_pair_inv in Hr as (? & ? & _).
  - injection E as -> -> Ec. pose proof (prior_nil _ _ _ Hp) as Hnew. eexists. split; [split; [rewrite Ec; by eapply pair_reads|]|].
    + eapply extends_agree; [exact Hck|exact Hag|]. by eapply ext_recover.
    + unfold priors. rewrite List.filter_app. rewrite Hp. simpl. rewrite !bool_decide_eq_true_2 by done. simpl.
      split; [done|]. by split.
Qed.

Lemma prior_of_in k ps r : prior_of k ps = Some r → r ∈ ps ∧ c_journal r = k.
Proof.
  unfold prior_of. intros [Hin Hk]%find_some. apply bool_decide_eq_true in Hk.
  apply list_elem_of_In in Hin. by rewrite elem_of_reverse in Hin.
Qed.

(** The head a checkpoint answers with is the one it was given. *)
Lemma checkpoint_head clock inst j count head now expected c r c' :
  do_checkpoint clock inst j count head now expected c = (Ok r, c') →
  c_event_count r = count ∧ c_head_hash r = head.
Proof.
  intros H. destruct (rd c) as [rs|e] eqn:Hc.
  - destruct (checkpoint_cases c rs clock inst j count head now expected Hc)
      as [(e & E)|[(y & E & _ & ? & ?)|(us & e & _ & _ & _ & _ & E)]]; rewrite H in E; [done|..].
    + injection E as -> _. done.
    + injection E as -> _. done.
  - exfalso. unfold checkpoint in H. rewrite run_bind_lift in H.
    destruct (validate_installation_id inst); [|done]. rewrite run_bind_lift in H.
    destruct (validate_head count head) as [[]|]; [|done]. rewrite run_bind_lift in H.
    destruct (validate_expected_recovery_epoch expected); [|done]. rewrite run_bind_lift in H.
    destruct (timestamp_of clock now); [|done]. rewrite run_bind in H. unfold read in H. by rewrite Hc in H.
Qed.

Lemma checkpoint_recorded c rs clock inst j count head now expected r c1 :
  good c rs → do_checkpoint clock inst j count head now expected c = (Ok r, c1) → fits r →
  ∃ rs1, good c1 rs1 ∧ latest_of rs1 inst j = Some r ∧ fullmatch INSTALLATION_ID inst = true ∧
    c_event_count r = count ∧ c_head_hash r = head.
Proof.
  intros [Hc Hag] H Hf. pose proof Hc as (s & _ & _ & Hck)%rd_ok.
  assert (fullmatch INSTALLATION_ID inst = true) as Hi.
  { unfold checkpoint, validate_installation_id in H. by destruct (fullmatch INSTALLATION_ID inst). }
  destruct (checkpoint_head _ _ _ _ _ _ _ _ _ _ H) as [Hn Hh].
  destruct (checkpoint_cases c rs clock inst j count head now expected Hc)
    as [(e & E)|[(y & E & Hl & _)|(us & e & He & _ & Ha & Hlt & E)]]; rewrite H in E; [done|..].
  - injection E as -> ->. exists rs. by split_and!.
  - injection E as E1 E2. eexists. split; [split|].
    + rewrite E2. apply append_one; [exact Hc|exact Ha|by rewrite <-E1|].
      eapply check_plain; try done. apply Ha.
    + eapply extends_agree; [exact Hck|exact Hag|by eapply ext_checkpoint].
    + rewrite latest_of_snoc, (proj2 (is_head_of_true _ _ _)) by done. by rewrite E1.
Qed.
End appending.

(** ** Anchoring a verified head (checkpoint_anchor.py)

    [CheckpointProvider] is a type class over a world; the file store is an
    instance.  [verify] is an action, so it may also stand for what other
    workers did to the checkpoints before it returned. *)

Class CheckpointProvider (W P : Type) := {
  cp_checkpoint : P → string → JournalKind → Z → string → option Z → M W IntegrityCheckpoint;
  cp_current_recovery_epoch : P → string → M W Z;
  cp_latest : P → string → JournalKind → M W (option IntegrityCheckpoint);
  cp_verify_current : P → string → JournalKind → Z → string → M W IntegrityCheckpoint;
}.

(** [VerifiedJournalHead]. *)
Record journal_head : Type := Head { h_event_count : Z; h_head_hash : string }.

Definition MAX_ANCHOR_ATTEMPTS : nat := 3.

Section anchor.
Context {W P : Type} `{CheckpointProvider W P}.

(** The loop with [n] attempts left. *)
Fixpoint anchor_loop (n : nat) (checkpoints : P) (inst : string) (journal : JournalKind)
    (verify : M W journal_head) (expected_epoch : Z) (last_error : option exn) : M W IntegrityCheckpoint :=
  match n with
  | O => match last_error with
         | Some e => lift (Err e)
         | None => raise AssertionErr "last_error is not None"
         end
  | S n =>
      head ← verify;
      try_except
        (cp_checkpoint checkpoints inst journal (h_event_count head) (h_head_hash head) (Some expected_epoch))
        (λ error,
           if exn_in error [IntegrityCheckpointError] then
             Some (latest ← cp_latest checkpoints inst journal;
                   let again := match latest with
                                | Some l => (c_recovery_epoch l =? expected_epoch)%Z
                                            && (h_event_count head <? c_event_count l)%Z
                                | None => false
                                end in
                   if again then anchor_loop n checkpoints inst journal verify expected_epoch (Some error)
                   else lift (Err error))
           else None)
  end.

Definition checkpoint_verified_journal (checkpoints : P) (inst : string) (journal : JournalKind)
    (verify : M W journal_head) (expected_epoch : Z) : M W IntegrityCheckpoint :=
  anchor_loop MAX_ANCHOR_ATTEMPTS checkpoints inst journal verify expected_epoch None.
End anchor.

(** The file store with its clock. *)
Record file_store : Type := FileStore { fs_key : string; fs_clock : Z }.

Section provider.
Context (hmac_hex : string → string → string) (isoformat dump_stamp : stamp → string)
  (parse_line : string → result IntegrityCheckpoint).

#[export] Instance file_provider : CheckpointProvider store file_store := {|
  cp_checkpoint p i j n h x := checkpoint hmac_hex isoformat dump_stamp parse_line (fs_key p) (fs_clock p) i j n h None x;
  cp_current_recovery_epoch p i := current_recovery_epoch hmac_hex isoformat parse_line (fs_key p) i;
  cp_latest p i j := latest hmac_hex isoformat parse_line (fs_key p) i j;
  cp_verify_current p i j n h := verify_current hmac_hex isoformat parse_line (fs_key p) i j n h;
|}.
End provider.

Section anchoring.
Context (hmac_hex : string → string → string) (isoformat dump_stamp : stamp → string)
  (parse_line : string → result IntegrityCheckpoint) (p : file_store).

#[local] Instance anchoring_provider : CheckpointProvider store file_store :=
  file_provider hmac_hex isoformat dump_stamp parse_line.

Local Abbreviation rd := (read_and_verify hmac_hex isoformat parse_line (fs_key p)).

(** A successful loop ends with a verified head that was checkpointed. *)
Lemma anchor_loop_ok n inst j (v : M store journal_head) x last r c c' :
  anchor_loop n p inst j v x last c = (Ok r, c') →
  ∃ c0 h c1, v c0 = (Ok h, c1) ∧
    cp_checkpoint p inst j (h_event_count h) (h_head_hash h) (Some x) c1 = (Ok r, c').
Proof.
  revert last c. induction n as [|n IH]; intros last c; cbn [anchor_loop]; [by destruct last|].
  rewrite run_bind. destruct (v c) as [[h|e] c1] eqn:Ev; [|done]. unfold try_except.
  destruct (cp_checkpoint _ _ _ _ _ _ c1) as [[y|e] c2] eqn:Ec.
  - intros [= -> ->]. by exists c, h, c1.
  - destruct (exn_in e [IntegrityCheckpointError]); [|done]. rewrite run_bind.
    destruct (cp_latest p inst j c2) as [[l|e'] c3]; [|done].
    destruct (match l with Some _ => _ | None => _ end); [apply IH|done].
Qed.

(** Against a head that stays behind the trusted one the loop always fails. *)
Lemma anchor_loop_behind n inst j (v : M store journal_head) x last c rs l h :
  rd c = Ok rs → latest_of rs inst j = Some l → v c = (Ok h, c) →
  fullmatch INSTALLATION_ID inst = true →
  (h_event_count h ≤ c_event_count l)%Z →
  (h_event_count h = c_event_count l → h_head_hash h ≠ c_head_hash l) →
  ∃ e, anchor_loop n p inst j v x last c = (Err e, c).
Proof.
  intros Hc Hl Hv Hi Hle Hne. revert last. induction n as [|n IH]; intros last; cbn [anchor_loop].
  - destruct last; by eexists.
  - rewrite run_bind, Hv. unfold try_except.
    destruct (checkpoint_cases hmac_hex isoformat dump_stamp parse_line (fs_key p) c rs (fs_clock p) inst j
      (h_event_count h) (h_head_hash h) None (Some x) Hc)
      as [(e & E)|[(y & _ & Hy & Hn & Hh)|(us & e & _ & _ & _ & Hlt & _)]].
    + cbn [cp_checkpoint anchoring_provider file_provider]. rewrite E.
      destruct (exn_in e [IntegrityCheckpointError]); [|by eexists]. rewrite run_bind.
      cbn [cp_latest anchoring_provider file_provider]. unfold latest, validate_installation_id. rewrite Hi, run_bind_lift.
      rewrite (run_records _ _ _ _ _ _ _ Hc), run_ret, Hl. destruct (_ && _); [apply IH|by eexists].
    + rewrite Hl in Hy. injection Hy as <-. by destruct Hne.
    + specialize (Hlt l Hl). lia.
Qed.
End anchoring.

(** ** Properties *)

Section properties.
Context (hmac_hex : string → string → string) (isoformat dump_stamp : stamp → string)
  (parse_line : string → result IntegrityCheckpoint) (integrity_key : string).

Definition hex_digests : Prop := ∀ k p, fullmatch HEX64 (hmac_hex k p) = true.
Definition records_read_back : Prop := ∀ r us,
  fields_ok r → c_recorded_at r = utc_stamp us → dt_in_range us = true →
  parse_line (render dump_stamp r) = Ok r.

Local Abbreviation run_steps := (steps hmac_hex isoformat dump_stamp parse_line integrity_key).
Local Abbreviation rd := (read_and_verify hmac_hex isoformat parse_line integrity_key).
Local Abbreviation good_store := (good hmac_hex isoformat parse_line integrity_key).

(** The checkpoint store never locks itself out.  From an absent file,
    after any checkpoints and recoveries of any installations (raised or not),
    the file verifies, record check included, and the current recovery epoch
    of every installation can be read. *)
Theorem store_stays_readable (Hhex : hex_digests) (Hread : records_read_back) c inst :
  run_steps None c → fullmatch INSTALLATION_ID inst = true →
  ∃ rs e, rd c = Ok rs ∧
    current_recovery_epoch hmac_hex isoformat parse_line integrity_key inst c = (Ok e, c).
Proof.
  intros H Hi. destruct (steps_good hmac_hex isoformat dump_stamp parse_line integrity_key Hhex Hread None c []) as (rs & [Hc Hag] & _); [by split|done|].
  specialize (Hag inst). destruct (current_epoch rs inst) as [e|] eqn:He; [|done].
  exists rs, e. split; [done|]. unfold current_recovery_epoch, validate_installation_id.
  rewrite Hi, run_bind_lift, (run_records _ _ _ _ _ _ _ Hc). unfold lift. by rewrite He.
Qed.

(** C16: a trusted head is never rolled back.  Once a checkpoint [r] was
    answered, after any further operations there is a trusted head [y] that is
    [r] or a later one (of a later recovery epoch, or of the same epoch with
    more events), and [verify_current] accepts the head of [y] and nothing
    else: an older or different journal head fails it. *)
Theorem no_rollback (Hhex : hex_digests) (Hread : records_read_back) c rs clock inst j count head now expected r c1 c2 :
  good_store c rs →
  checkpoint hmac_hex isoformat dump_stamp parse_line integrity_key clock inst j count head now expected c = (Ok r, c1) →
  fits dump_stamp r → run_steps c1 c2 →
  ∃ y, latest hmac_hex isoformat parse_line integrity_key inst j c2 = (Ok (Some y), c2) ∧ advances r y ∧
    c_event_count r = count ∧ c_head_hash r = head ∧
    ∀ count' head' z,
      (verify_current hmac_hex isoformat parse_line integrity_key inst j count' head' c2).1 = Ok z →
      z = y ∧ count' = c_event_count y ∧ head' = c_head_hash y.
Proof.
  intros [Hc Hag] H Hfit Hsteps.
  destruct (checkpoint_recorded hmac_hex isoformat dump_stamp parse_line integrity_key Hhex Hread c rs clock inst j count head now expected r c1 (conj Hc Hag) H Hfit)
    as (rs1 & Hg1 & Hl1 & Hi & Hcount & Hhead).
  destruct (steps_good hmac_hex isoformat dump_stamp parse_line integrity_key Hhex Hread c1 c2 rs1 Hg1 Hsteps) as (rs2 & [Hc2 _] & Hrtc).
  destruct (rtc_advances hmac_hex isoformat integrity_key _ _ inst j r Hrtc Hl1) as (y & Hy & Hadv).
  assert (Hlat : latest hmac_hex isoformat parse_line integrity_key inst j c2 = (Ok (Some y), c2)).
  { unfold latest, validate_installation_id. rewrite Hi, run_bind_lift, (run_records _ _ _ _ _ _ _ Hc2), run_ret. by rewrite Hy. }
  exists y. split_and!; [done..|]. intros count' head' z. unfold verify_current. rewrite run_bind_lift.
  destruct (validate_head count' head') as [q|] eqn:Hq; [|done]. apply validate_head_ok in Hq as (-> & _).
  rewrite run_bind, Hlat, run_bind_lift.
  destruct (if (c_event_count y =? count')%Z then _ else _) as [[]|] eqn:Es; [| |done]; rewrite run_bind_lift; [|done].
  intros [= <-]. destruct (_ =? _)%Z eqn:En; [|done]. apply compare_digest_ok in Es. symmetry in Es. bool_to_prop. done.
Qed.

(** A recovery happens at most once per operation id.  After a recovery
    answered with the pair (a, b), whatever follows, a recovery of the same
    installation under the same operation id never writes: it raises, or it
    answers with (a, b) again, and then both are still the current heads and
    the heads, actor and manifest it was given are those of the pair. *)
Theorem recover_at_most_once (Hhex : hex_digests) (Hread : records_read_back)
    c rs clock inst heads op actor manifest now a b c1 c2 clock' heads' actor' manifest' now' :
  good_store c rs →
  recover hmac_hex isoformat dump_stamp parse_line integrity_key clock inst heads op actor manifest now c = (Ok (a, b), c1) →
  fits dump_stamp a → fits dump_stamp b → run_steps c1 c2 →
  match recover hmac_hex isoformat dump_stamp parse_line integrity_key clock' inst heads' op actor' manifest' now' c2 with
  | (Err _, c3) => c3 = c2
  | (Ok (a', b'), c3) => c3 = c2 ∧ a' = a ∧ b' = b ∧
      head_for heads' AUDIT = Ok (c_event_count a, c_head_hash a) ∧
      head_for heads' OPERATIONS = Ok (c_event_count b, c_head_hash b) ∧
      (∀ r, r = a ∨ r = b → c_recovery_actor_id r = Some actor' ∧ c_recovery_manifest_sha256 r = Some manifest') ∧
      ∃ rs2 x y, rd c2 = Ok rs2 ∧
        latest_of rs2 inst AUDIT = Some x ∧ c_sequence x = c_sequence a ∧
        latest_of rs2 inst OPERATIONS = Some y ∧ c_sequence y = c_sequence b
  end.
Proof.
  intros Hg H Hfa Hfb Hsteps.
  destruct (recover_prior hmac_hex isoformat dump_stamp parse_line integrity_key Hhex Hread c rs _ _ _ _ _ _ _ a b c1 Hg H Hfa Hfb) as (rs1 & Hg1 & Hne & Ha & Hb).
  destruct (steps_good hmac_hex isoformat dump_stamp parse_line integrity_key Hhex Hread c1 c2 rs1 Hg1 Hsteps) as (rs2 & [Hc2 _] & Hrtc).
  pose proof (priors_rtc hmac_hex isoformat integrity_key _ _ inst op Hrtc Hne) as Hp.
  destruct (recover_cases hmac_hex isoformat dump_stamp parse_line integrity_key c2 rs2 clock' inst heads' op actor' manifest' now' Hc2)
    as [(e & ->)|[(a' & b' & ha & hb & -> & _ & Hha & Hhb & Hr)|(us & e & na & ha & nb & hb & _ & Hn & _)]]; [done| |].
  - fold (priors inst op rs2) in Hr. rewrite Hp in Hr. apply recovered_pair_inv in Hr as (Ha' & Hb' & Hlat & Hev).
    assert (a' = a) as -> by congruence. assert (b' = b) as -> by congruence.
    destruct (Hev AUDIT a ltac:(set_solver)) as (Ea & Aa & Am). destruct (Hev OPERATIONS b ltac:(set_solver)) as (Eb & Ba & Bm).
    subst ha hb. split_and!; try done; [by intros r [-> | ->]|].
    destruct (prior_of_in _ _ _ Ha) as [Hia Hka], (prior_of_in _ _ _ Hb) as [Hib Hkb].
    destruct (Hlat a Hia) as (x & Hx & Hxs). destruct (Hlat b Hib) as (y & Hy & Hys).
    rewrite Hka in Hx. rewrite Hkb in Hy. by exists rs2, x, y.
  - fold (priors inst op rs2) in Hn. congruence.
Qed.

(** Anchoring never hides a rollback.  When
    [checkpoint_verified_journal] answers, the answer is the checkpoint of a
    head that [verify] had just returned; and against a journal that keeps
    verifying at a head behind the trusted one (or at its count with another
    hash) it raises after its bounded attempts and writes nothing. *)
Theorem anchor_sound clock inst j v x c :
  let p := FileStore integrity_key clock in
  let anchor := checkpoint_verified_journal (H := file_provider hmac_hex isoformat dump_stamp parse_line) p inst j v x in
  (∀ r c', anchor c = (Ok r, c') →
     ∃ c0 h c1, v c0 = (Ok h, c1) ∧ c_event_count r = h_event_count h ∧ c_head_hash r = h_head_hash h ∧
       checkpoint hmac_hex isoformat dump_stamp parse_line integrity_key clock inst j
         (h_event_count h) (h_head_hash h) None (Some x) c1 = (Ok r, c')) ∧
  (∀ rs l h, rd c = Ok rs → latest_of rs inst j = Some l → v c = (Ok h, c) →
     fullmatch INSTALLATION_ID inst = true → (h_event_count h ≤ c_event_count l)%Z →
     (h_event_count h = c_event_count l → h_head_hash h ≠ c_head_hash l) →
     ∃ e, anchor c = (Err e, c)).
Proof.
  intros p anchor. split.
  - intros r c' Ha. apply anchor_loop_ok in Ha as (c0 & h & c1 & Hv & Hk).
    exists c0, h, c1. split; [done|]. simpl in Hk.
    destruct (checkpoint_head _ _ _ _ _ _ _ _ _ _ _ _ _ _ _ Hk) as [? ?]. done.
  - intros rs l h Hc Hl Hv Hi Hle Hne.
    exact (anchor_loop_behind hmac_hex isoformat dump_stamp parse_line p _ inst j v x None c rs l h Hc Hl Hv Hi Hle Hne).
Qed.
End properties.

(** ** Concrete parameters, for the witnesses *)

Definition demo_hmac (key payload : string) : string :=
  of_chars (repeat (nth (String.length payload `mod` 16) (chars "0123456789abcdef") "0"%char) 64).

Lemma demo_hmac_hex : hex_digests demo_hmac.
Proof.
  intros k p. unfold demo_hmac. generalize (String.length p `mod` 16). intros n.
  do 16 (destruct n as [|n]; [by vm_compute|]). destruct n; by vm_compute.
Qed.

Definition demo_text (t : stamp) : string := demo_stamp_text (st_us t, st_offset t).
Definition demo_opt (j : json) : option string := match j with JStr s => Some s | _ => None end.

(** The fields of a line in key order. *)
Definition demo_parse (line : string) : result IntegrityCheckpoint :=
  match parse_flat (of_chars (removelast (chars line))) with
  | Some [(_, JStr hash); (_, JInt count); (_, JInt version); (_, JStr head); (_, JStr inst); (_, JStr journal);
          (_, JStr prev); (_, JStr at_); (_, actor); (_, JInt epoch); (_, manifest); (_, op); (_, JInt seq)] =>
      match demo_stamp_read (A := Z * option Z) at_ with
      | Some (us, off) =>
          Ok {| c_format_version := version; c_sequence := seq; c_installation_id := inst;
                c_journal := if String.eqb journal "audit" then AUDIT else OPERATIONS;
                c_event_count := count; c_head_hash := head; c_recorded_at := Stamp us off;
                c_previous_hash := prev; c_checkpoint_hash := hash; c_recovery_epoch := epoch;
                c_recovery_operation_id := demo_opt op; c_recovery_actor_id := demo_opt actor;
                c_recovery_manifest_sha256 := demo_opt manifest |}
      | None => fail ValueErr "malformed checkpoint"
      end
  | _ => fail ValueErr "malformed checkpoint"
  end.

Lemma demo_records_read_back : records_read_back demo_text demo_parse.
Proof.
  intros r us _ _ _. unfold demo_parse, render.
  rewrite chars_app, chars_of_chars, removelast_last, of_chars_chars.
  destruct r as [v s i j n h [us' off] p k e o a m]. unfold checkpoint_dump. cbn [c_format_version].
  rewrite parse_flat_ok; [|done|by apply scalar_members; destruct o, a, m].
  change (dict_sort _) with
    [("checkpoint_hash", JStr k); ("event_count", JInt n); ("format_version", JInt v); ("head_hash", JStr h);
     ("installation_id", JStr i); ("journal", JStr (kind_value j)); ("previous_hash", JStr p);
     ("recorded_at", JStr (demo_text (Stamp us' off))); ("recovery_actor_id", opt_str a);
     ("recovery_epoch", JInt e); ("recovery_manifest_sha256", opt_str m);
     ("recovery_operation_id", opt_str o); ("sequence", JInt s)].
  cbv beta iota. unfold demo_text. cbn [st_us st_offset]. rewrite demo_stamp_read_text.
  by destruct j, o, a, m.
Qed.

Definition demo_checkpoint (inst : string) (j : JournalKind) (count : Z) : M store IntegrityCheckpoint :=
  checkpoint demo_hmac demo_text demo_text demo_parse "key" 5 inst j count GENESIS_HASH None None.
Definition demo_heads : dict string (Z * string) :=
  [("audit", (2%Z, GENESIS_HASH)); ("operations", (0%Z, GENESIS_HASH))].
Local Abbreviation demo_recover heads :=
  (recover demo_hmac demo_text demo_text demo_parse "key" 6 "shop" heads "recovery-0001" "operator" GENESIS_HASH None).

(** One checkpoint; then a recovery. *)
Definition demo_one : store := (demo_checkpoint "shop" AUDIT 1 None).2.
Definition demo_two : store := (demo_recover demo_heads demo_one).2.

Lemma demo_none_good : good demo_hmac demo_text demo_parse "key" None [].
Proof. split; [reflexivity|]. intros i. reflexivity. Qed.

Lemma demo_one_good : ∃ r, demo_checkpoint "shop" AUDIT 1 None = (Ok r, demo_one) ∧ fits demo_text r ∧
  good demo_hmac demo_text demo_parse "key" demo_one [r].
Proof.
  destruct (demo_checkpoint "shop" AUDIT 1 None) as [[r|e] c] eqn:E; [|vm_compute in E; discriminate].
  exists r. unfold demo_one. rewrite E. split; [reflexivity|].
  vm_compute in E. injection E as <- <-. split; [|split; [vm_compute; reflexivity|]].
  - vm_compute. discriminate.
  - intros i. unfold current_epoch, relevant. simpl. unfold latest_of, reverse. simpl.
    unfold is_head_of. simpl. by destruct (bool_decide _).
Qed.

Lemma demo_two_steps : steps demo_hmac demo_text demo_text demo_parse "key" demo_one demo_two.
Proof.
  eapply (steps_step _ _ _ _ _ _ (OpRecover 6 "shop" demo_heads "recovery-0001" "operator" GENESIS_HASH None)).
  - intros rs H. vm_compute in H. injection H as <-. repeat constructor; vm_compute; discriminate.
  - match goal with |- steps _ _ _ _ _ ?c _ => assert (c = demo_two) as -> by (vm_compute; reflexivity) end.
    apply steps_refl.
Qed.

Lemma store_stays_readable_witness :
  ∃ rs e, read_and_verify demo_hmac demo_text demo_parse "key" demo_two = Ok rs ∧ is_ok (Ok (A:=Z) e) = true.
Proof.
  destruct demo_one_good as (r & Hr & Hf & _).
  destruct (store_stays_readable demo_hmac demo_text demo_text demo_parse "key" demo_hmac_hex demo_records_read_back demo_two "shop")
    as (rs & e & H & _).
  - eapply (steps_step _ _ _ _ _ _ (OpCheckpoint 5 "shop" AUDIT 1 GENESIS_HASH None None)).
    + intros rs H. vm_compute in H. injection H as <-. repeat constructor; vm_compute; discriminate.
    + apply demo_two_steps.
  - reflexivity.
  - exists rs, e. split; [exact H|reflexivity].
Defined.

Lemma no_rollback_witness :
  ∃ r y, advances r y ∧ c_event_count r = 1%Z ∧
    latest demo_hmac demo_text demo_parse "key" "shop" AUDIT demo_two = (Ok (Some y), demo_two).
Proof.
  destruct demo_one_good as (r & Hr & Hf & _).
  destruct (no_rollback demo_hmac demo_text demo_text demo_parse "key" demo_hmac_hex demo_records_read_back
    None [] 5 "shop" AUDIT 1 GENESIS_HASH None None r demo_one demo_two demo_none_good Hr Hf demo_two_steps)
    as (y & Hy & Ha & Hn & _).
  exists r, y. split; [exact Ha|]. split; [exact Hn|exact Hy].
Defined.

Lemma recover_at_most_once_witness :
  ∃ a b, demo_recover demo_heads demo_two = (Ok (a, b), demo_two).
Proof.
  destruct demo_one_good as (r & Hr & Hf & Hg).
  destruct (demo_recover demo_heads demo_one) as [[[a b]|e] c] eqn:E; [|vm_compute in E; discriminate].
  assert (c = demo_two) as -> by (unfold demo_two; by rewrite E).
  assert (fits demo_text a ∧ fits demo_text b) as [Ha Hb].
  { vm_compute in E. injection E as <- <-. split; vm_compute; discriminate. }
  pose proof (recover_at_most_once demo_hmac demo_text demo_text demo_parse "key" demo_hmac_hex demo_records_read_back
    demo_one [r] 6 "shop" demo_heads "recovery-0001" "operator" GENESIS_HASH None a b demo_two demo_two
    6 demo_heads "operator" GENESIS_HASH None Hg E Ha Hb (steps_refl _ _ _ _ _ _)) as H.
  exists a, b.
  match type of H with match ?m with _ => _ end => assert (is_ok m.1 = true) as K by (vm_compute; reflexivity) end.
  revert H K. generalize (demo_recover demo_heads demo_two). intros [[[a' b']|e] c]; [|discriminate].
  intros (-> & -> & -> & _) _. reflexivity.
Defined.

Lemma anchor_sound_witness :
  ∃ e, (checkpoint_verified_journal (H := file_provider demo_hmac demo_text demo_text demo_parse)
    (FileStore "key" 7) "shop" AUDIT (mret (Head 0 GENESIS_HASH)) 0) demo_one = (Err e, demo_one).
Proof.
  destruct demo_one_good as (r & Hr & Hf & [Hg _]).
  destruct (anchor_sound demo_hmac demo_text demo_text demo_parse "key" 7 "shop" AUDIT
    (mret (Head 0 GENESIS_HASH)) 0 demo_one) as [_ H].
  assert (c_event_count r = 1%Z) as Hn by exact (proj1 (checkpoint_head _ _ _ _ _ _ _ _ _ _ _ _ _ _ _ Hr)).
  eapply (H [r] r (Head 0 GENESIS_HASH) Hg); [|reflexivity|reflexivity|rewrite Hn; discriminate|].
  - vm_compute in Hr. injection Hr as <-. reflexivity.
  - rewrite Hn. discriminate.
Defined.
End Integrity.
