(* ===== verification/Cache.v ===== *)
(** * The namespaced TTL cache (cache.py: [NamespacedTTLCache])

    The cache's fields are a record; a section under its lock is one step on
    it.  [get_or_set] takes several such sections, so it is a thread with a
    program counter, and [sys_step] interleaves threads with the other
    operations.  Clock readings are arguments of the steps (microseconds; the
    code's floats round).  A value's type is a parameter, and so are the
    producers: a producer's outcome is an argument of its step. *)

From Stdlib Require Import Ascii ZArith Lia.
From stdpp Require Import base decidable numbers list relations strings gmap.
From S2P Require Import Prelude PyData Regex.

Module Cache.

(** ** Data *)

Definition NAMESPACE : re :=
  Seq (Chr is_lower) (Rep 1 127 (Chr (λ c, is_lower c || is_digit c || one_of ".-" c))).
Definition KEY : re :=
  Seq (Chr is_alnum) (Rep 0 255 (Chr (λ c, is_alnum c || one_of "._:/-" c))).

Definition ckey : Type := string * string.

(** [_InflightProducer]; its event is an index into the events. *)
Record producer : Type := Producer { ip_event : nat; ip_generation : Z }.

Record CacheStats : Type := Stats { s_hits : Z; s_misses : Z; s_writes : Z; s_evictions : Z; s_entries : Z }.

Section cache.
Context {V : Type}.

Record entry : Type := Entry { en_value : V; en_expires_at : Z }.

Record cache : Type := Cache {
  maximum_entries : Z;
  entries : dict ckey entry;
  inflight : dict ckey producer;
  generations : dict ckey Z;
  events : list bool;          (* the events made so far: set or not *)
  hits : Z; misses : Z; writes : Z; evictions : Z;
}.

Definition with_entries (s : cache) (e : dict ckey entry) : cache :=
  Cache (maximum_entries s) e (inflight s) (generations s) (events s) (hits s) (misses s) (writes s) (evictions s).
Definition with_generations (s : cache) (g : dict ckey Z) : cache :=
  Cache (maximum_entries s) (entries s) (inflight s) g (events s) (hits s) (misses s) (writes s) (evictions s).
Definition with_inflight (s : cache) (i : dict ckey producer) (ev : list bool) : cache :=
  Cache (maximum_entries s) (entries s) i (generations s) ev (hits s) (misses s) (writes s) (evictions s).
Definition count (s : cache) (h m w e : Z) : cache :=
  Cache (maximum_entries s) (entries s) (inflight s) (generations s) (events s)
    (hits s + h) (misses s + m) (writes s + w) (evictions s + e).

(** [__init__]; the timeout is only read by the waiting threads. *)
Definition new_cache (coalescing_wait_timeout maximum : Z) : result cache :=
  _ ← fail_if (negb ((0 <? coalescing_wait_timeout)%Z && (coalescing_wait_timeout <=? 300 * second)%Z)) ValueErr
        "cache coalescing wait timeout must be between 0 and 300 seconds";
  _ ← fail_if (negb ((1 <=? maximum)%Z && (maximum <=? 1000000)%Z)) ValueErr
        "cache maximum entries must be between 1 and 1000000";
  Ok (Cache maximum [] [] [] [] 0 0 0 0).

Definition validate_namespace (ns : string) : result string :=
  if fullmatch NAMESPACE ns then Ok ns else fail ValueErr "invalid cache namespace".
Definition validate_key (k : string) : result string :=
  if fullmatch KEY k then Ok k else fail ValueErr "invalid cache key".
Definition validated_key (ns k : string) : result ckey :=
  ns ← validate_namespace ns; k ← validate_key k; Ok (ns, k).
Definition validate_ttl (ttl : Z) : result unit :=
  fail_if (negb ((0 <? ttl)%Z && (ttl <=? 31536000 * second)%Z)) ValueErr
    "cache ttl must be between 0 and 31536000 seconds".

(** ** Under the lock *)

(** [self._generations.get(cache_key, 0)]. *)
Definition generation (s : cache) (k : ckey) : Z := or_default (dict_get (generations s) k) 0%Z.

Definition bump_generation (k : ckey) (s : cache) : cache :=
  with_generations s (dict_set (generations s) k (generation s k + 1)%Z).

Definition del_entry (k : ckey) (s : cache) : cache := with_entries s (dict_del (entries s) k).

Definition pop_generation (k : ckey) (s : cache) : cache := with_generations s (dict_del (generations s) k).

(** [if cache_key not in self._inflight: self._generations.pop(cache_key, None)]. *)
Definition release (k : ckey) (s : cache) : cache :=
  if dict_mem (inflight s) k then s else pop_generation k s.

(** The same, with the generation of a key in flight bumped. *)
Definition forget (k : ckey) (s : cache) : cache :=
  if dict_mem (inflight s) k then bump_generation k s else pop_generation k s.

Definition expired (now : Z) (e : entry) : bool := (en_expires_at e <=? now)%Z.

Definition purge_expired (now : Z) (s : cache) : cache :=
  let gone := dict_keys (List.filter (λ ke, expired now ke.2) (entries s)) in
  count (foldl (λ s k, release k (del_entry k s)) s gone) 0 0 0 (Z.of_nat (length gone)).

Definition get_locked (now : Z) (k : ckey) (s : cache) : option V * cache :=
  match dict_get (entries s) k with
  | None => (None, s)
  | Some e => if expired now e then (None, count (release k (del_entry k s)) 0 0 0 1)
              else (Some (en_value e), s)
  end.

(** The two readings: for the purge and for the expiry. *)
Definition store_locked (t1 t2 : Z) (k : ckey) (v : V) (ttl : Z) (s : cache) : cache :=
  let s := purge_expired t1 s in
  let s := if negb (dict_mem (entries s) k) && (maximum_entries s <=? Z.of_nat (length (entries s)))%Z then
             match entries s with
             | (oldest, _) :: _ => count (forget oldest (del_entry oldest s)) 0 0 0 1
             | [] => s
             end
           else s in
  count (with_entries s (dict_set (entries s) k (Entry v (t2 + ttl)))) 0 0 1 0.

(** ** The operations of one section *)

Definition get (now : Z) (ns k : string) (default : V) : M cache V :=
  key ← lift (validated_key ns k);
  (λ s, match get_locked now key s with
        | (None, s) => (Ok default, count s 0 1 0 0)
        | (Some v, s) => (Ok v, count s 1 0 0 0)
        end) : M cache V.

Definition set (t1 t2 : Z) (ns k : string) (v : V) (ttl : Z) : M cache unit :=
  key ← lift (validated_key ns k);
  _ ← lift (validate_ttl ttl);
  modify_st (λ s, store_locked t1 t2 key v ttl (if dict_mem (inflight s) key then bump_generation key s else s)).

Definition delete (ns k : string) : M cache bool :=
  key ← lift (validated_key ns k);
  (λ s, let removed := dict_mem (entries s) key in
        let s := forget key (del_entry key s) in
        (Ok removed, if removed then count s 0 0 0 1 else s)) : M cache bool.

Definition covers (ns : string) (prefix : option string) (k : ckey) : bool :=
  bool_decide (k.1 = ns) && match prefix with None => true | Some p => startswith k.2 p end.

(** The targets are sets; the order of the loops does not matter. *)
Definition invalidate_namespace (ns : string) (prefix : option string) : M cache Z :=
  ns ← lift (validate_namespace ns);
  _ ← raise_if (match prefix with Some p => bool_decide (p = "") || (256 <? str_len p) | None => false end)
        ValueErr "cache prefix must contain 1..256 characters";
  (λ s, let entry_targets := List.filter (covers ns prefix) (dict_keys (entries s)) in
        let inflight_targets := List.filter (covers ns prefix) (dict_keys (inflight s)) in
        let targets := entry_targets ++ List.filter (λ k, negb (bool_decide (k ∈ entry_targets))) inflight_targets in
        let n := Z.of_nat (length entry_targets) in
        (Ok n, count (foldl (λ s k, forget k s) (foldl (λ s k, del_entry k s) s entry_targets) targets) 0 0 0 n)) : M cache Z.

Definition stats (now : Z) : M cache CacheStats := λ s,
  let s := purge_expired now s in
  (Ok (Stats (hits s) (misses s) (writes s) (evictions s) (Z.of_nat (length (entries s)))), s).

(** ** [get_or_set] as a thread *)

Inductive pc : Type :=
  | Entering (k : ckey) (ttl : Z)
  | Waiting (k : ckey) (ttl : Z) (ev : nat)
  | Producing (k : ckey) (ttl : Z) (p : producer)
  | Finishing (k : ckey) (p : producer) (r : result V)   (* in the [finally] clause *)
  | Returned (r : result V).

(** The section at the head of the loop. *)
Definition enter (now : Z) (k : ckey) (ttl : Z) (s : cache) : pc * cache :=
  match get_locked now k s with
  | (Some v, s) => (Returned (Ok v), count s 1 0 0 0)
  | (None, s) =>
      match dict_get (inflight s) k with
      | Some p => (Waiting k ttl (ip_event p), s)
      | None =>
          let p := Producer (length (events s)) (generation s k) in
          (Producing k ttl p, count (with_inflight s (dict_set (inflight s) k p) (events s ++ [false])) 0 1 0 0)
      end
  end.

(** The section after the producer returned. *)
Definition store_produced (t1 t2 : Z) (k : ckey) (ttl : Z) (p : producer) (r : result V) (s : cache) : cache :=
  match r with
  | Ok v => if (generation s k =? ip_generation p)%Z then store_locked t1 t2 k v ttl s else s
  | Err _ => s
  end.

(** The [finally] section. *)
Definition finish (k : ckey) (s : cache) : cache :=
  let s' := with_inflight s (dict_del (inflight s) k)
              (match dict_get (inflight s) k with Some p => <[ip_event p := true]> (events s) | None => events s end) in
  if dict_mem (entries s') k then s' else pop_generation k s'.

(** ** The cache with its threads *)

Record sys : Type := Sys { cell : cache; threads : gmap nat pc }.

Inductive action : Type :=
  | Call (t : nat) (ns k : string) (ttl : Z)
  | Enter (t : nat) (now : Z)
  | Wake (t : nat)
  | TimeOut (t : nat)
  | Produce (t : nat) (t1 t2 : Z) (r : result V)
  | Finish (t : nat)
  | Return (t : nat)
  | Get (now : Z) (ns k : string) (default : V)
  | Set_ (t1 t2 : Z) (ns k : string) (v : V) (ttl : Z)
  | Delete (ns k : string)
  | Invalidate (ns : string) (under : option string)
  | ReadStats (now : Z).

Definition sys_step (a : action) (s : sys) : option sys :=
  match a with
  | Call t ns k ttl =>
      match threads s !! t with
      | Some _ => None
      | None => Some (Sys (cell s) (<[t := match (key ← validated_key ns k; _ ← validate_ttl ttl; Ok key) with
                                           | Ok key => Entering key ttl
                                           | Err e => Returned (Err e)
                                           end]> (threads s)))
      end
  | Enter t now =>
      match threads s !! t with
      | Some (Entering k ttl) => let '(pc', c) := enter now k ttl (cell s) in Some (Sys c (<[t := pc']> (threads s)))
      | _ => None
      end
  | Wake t =>
      match threads s !! t with
      | Some (Waiting k ttl ev) =>
          if default false (events (cell s) !! ev) then Some (Sys (cell s) (<[t := Entering k ttl]> (threads s))) else None
      | _ => None
      end
  | TimeOut t =>
      match threads s !! t with
      | Some (Waiting _ _ _) =>
          Some (Sys (cell s) (<[t := Returned (fail TimeoutErr "cache producer wait timed out")]> (threads s)))
      | _ => None
      end
  | Produce t t1 t2 r =>
      match threads s !! t with
      | Some (Producing k ttl p) =>
          Some (Sys (store_produced t1 t2 k ttl p r (cell s)) (<[t := Finishing k p r]> (threads s)))
      | _ => None
      end
  | Finish t =>
      match threads s !! t with
      | Some (Finishing k p r) => Some (Sys (finish k (cell s)) (<[t := Returned r]> (threads s)))
      | _ => None
      end
  | Return t =>
      match threads s !! t with
      | Some (Returned _) => Some (Sys (cell s) (stdpp.base.delete t (threads s)))
      | _ => None
      end
  | Get now ns k d => Some (Sys (post (get now ns k d) (cell s)) (threads s))
  | Set_ t1 t2 ns k v ttl => Some (Sys (post (set t1 t2 ns k v ttl) (cell s)) (threads s))
  | Delete ns k => Some (Sys (post (delete ns k) (cell s)) (threads s))
  | Invalidate ns prefix => Some (Sys (post (invalidate_namespace ns prefix) (cell s)) (threads s))
  | ReadStats now => Some (Sys (post (stats now) (cell s)) (threads s))
  end.

Fixpoint sys_run (l : list action) (s : sys) : option sys :=
  match l with
  | [] => Some s
  | a :: l => match sys_step a s with Some s' => sys_run l s' | None => None end
  end.
End cache.
Arguments entry : clear implicits.
Arguments cache : clear implicits.
Arguments pc : clear implicits.
Arguments sys : clear implicits.
Arguments action : clear implicits.

(** ** Sections that leave the producers in flight *)

Section sections.
Context {V : Type}.
Implicit Types (s : cache V) (k : ckey).

Lemma generation_bump k k' s :
  generation (bump_generation k s) k' = (generation s k' + if decide (k = k') then 1 else 0)%Z.
Proof.
  unfold bump_generation, generation at 1. simpl. rewrite dict_get_set.
  destruct (decide (k = k')) as [<-|]; [done|]. unfold generation. lia.
Qed.

(** A consistent cache; the keys of [X] may still have a generation to drop. *)
Record cache_ok (X : list ckey) s : Prop := {
  ok_entries : dict_wf (entries s);
  ok_inflight : dict_wf (inflight s);
  ok_generations : dict_wf (generations s);
  ok_keys : ∀ k, k ∈ dict_keys (generations s) → k ∈ dict_keys (entries s) ∨ k ∈ dict_keys (inflight s) ∨ k ∈ X;
  ok_capacity : (Z.of_nat (length (entries s)) ≤ maximum_entries s)%Z;
  ok_producer : ∀ k p, dict_get (inflight s) k = Some p →
    ip_event p < length (events s) ∧ (ip_generation p ≤ generation s k)%Z;
}.

(** The producers stay and no generation of theirs goes down. *)
Record mono s s' : Prop := {
  mo_inflight : inflight s' = inflight s;
  mo_events : events s' = events s;
  mo_maximum : maximum_entries s' = maximum_entries s;
  mo_generation : ∀ k, dict_mem (inflight s) k = true → (generation s k ≤ generation s' k)%Z;
}.

Lemma mono_refl s : mono s s.
Proof. by split. Qed.

Lemma mono_trans s1 s2 s3 : mono s1 s2 → mono s2 s3 → mono s1 s3.
Proof.
  intros [A1 B1 C1 D1] [A2 B2 C2 D2]. split; [congruence..|].
  intros k Hk. specialize (D1 k Hk). rewrite <-A1 in Hk. specialize (D2 k Hk). lia.
Qed.

Definition safe (X X' : list ckey) (f : cache V → cache V) : Prop :=
  ∀ s, cache_ok X s → cache_ok X' (f s) ∧ mono s (f s).

Lemma safe_id X : safe X X id.
Proof. intros s H. split; [done|apply mono_refl]. Qed.

Lemma safe_compose X Y Z f g : safe X Y f → safe Y Z g → safe X Z (λ s, g (f s)).
Proof.
  intros Hf Hg s Hs. destruct (Hf s Hs) as [H1 M1]. destruct (Hg _ H1) as [H2 M2].
  split; [done|by eapply mono_trans].
Qed.

Lemma safe_foldl {A} X (f : cache V → A → cache V) l : (∀ a, safe X X (λ s, f s a)) → safe X X (λ s, foldl f s l).
Proof.
  intros Hf. induction l as [|a l IH]; [apply safe_id|]. intros s Hs. simpl.
  destruct (Hf a s Hs) as [H1 M1]. destruct (IH _ H1) as [H2 M2]. split; [done|by eapply mono_trans].
Qed.

Lemma safe_count X h m w e : safe X X (λ s, count s h m w e).
Proof. intros s []. by split; [split|split]. Qed.

Lemma safe_bump X k s : cache_ok X s → dict_mem (inflight s) k = true →
  cache_ok X (bump_generation k s) ∧ mono s (bump_generation k s).
Proof.
  intros [H1 H2 H3 H4 H5 H6] Hk. split; split; simpl; auto with pydata.
  - intros k' [->|H]%dict_keys_set; [|by apply H4]. right. left. by apply dict_mem_true.
  - intros k' p Hp. rewrite generation_bump. destruct (H6 _ _ Hp). split; [done|]. destruct (decide _); lia.
  - intros k' _. rewrite generation_bump. destruct (decide _); lia.
Qed.

Lemma safe_del_entry X k : safe X (k :: X) (del_entry k).
Proof.
  intros s [H1 H2 H3 H4 H5 H6]. split; [split; simpl; auto with pydata|by split].
  - intros k' Hk'. destruct (decide (k' = k)) as [->|Hne]; [set_solver|].
    destruct (H4 k' Hk') as [H|[H|H]]; [|set_solver..]. left.
    apply dict_mem_true. apply dict_mem_true in H. unfold dict_mem in *. by rewrite dict_get_del_ne.
  - unfold dict in *. rewrite length_dict_del. destruct (dict_mem _ _); lia.
Qed.

Lemma safe_pop X k s : cache_ok (k :: X) s → dict_mem (inflight s) k = false →
  cache_ok X (pop_generation k s) ∧ mono s (pop_generation k s).
Proof.
  intros [H1 H2 H3 H4 H5 H6] Hk.
  assert (∀ k', dict_mem (inflight s) k' = true → generation (pop_generation k s) k' = generation s k') as Hg.
  { intros k' Hk'. unfold generation. simpl. rewrite dict_get_del_ne; [done|]. intros ->. congruence. }
  split; split; simpl; auto with pydata.
  - intros k' Hk'. assert (k' ≠ k) as Hne.
    { intros ->. apply dict_mem_true in Hk'. unfold dict_mem in Hk'. by rewrite dict_get_del_eq in Hk'. }
    destruct (H4 k') as [?|[?|?]]; [by eapply dict_del_keys|auto..]. set_solver.
  - intros k' p Hp. rewrite Hg; [by apply H6|]. unfold dict_mem. by rewrite Hp.
  - intros k' Hk'. by rewrite Hg.
Qed.

Lemma ok_inflight_key X k s : cache_ok (k :: X) s → dict_mem (inflight s) k = true → cache_ok X s.
Proof.
  intros [H1 H2 H3 H4 H5 H6] Hk%dict_mem_true. split; auto. intros k' Hk'. destruct (H4 k' Hk') as [?|[?|?]]; set_solver.
Qed.

Lemma safe_release X k : safe (k :: X) X (release k).
Proof.
  intros s Hs. unfold release. destruct (dict_mem (inflight s) k) eqn:E.
  - split; [by eapply ok_inflight_key|apply mono_refl].
  - by apply safe_pop.
Qed.

Lemma safe_forget X k : safe (k :: X) X (forget k).
Proof.
  intros s Hs. unfold forget. destruct (dict_mem (inflight s) k) eqn:E.
  - apply safe_bump; [by eapply ok_inflight_key|done].
  - by apply safe_pop.
Qed.

Lemma safe_drop X k : safe X X (λ s, release k (del_entry k s)).
Proof. eapply safe_compose; [apply safe_del_entry|apply safe_release]. Qed.

Lemma safe_purge X now : safe X X (purge_expired now).
Proof.
  intros s Hs. unfold purge_expired.
  destruct (safe_foldl X (λ s k, release k (del_entry k s))
    (dict_keys (List.filter (λ ke, expired now ke.2) (entries s))) (safe_drop X) s Hs) as [H1 M1].
  destruct (safe_count X 0 0 0 (Z.of_nat (length (dict_keys (List.filter (λ ke, expired now ke.2) (entries s))))) _ H1).
  split; [done|by eapply mono_trans].
Qed.

Lemma safe_get_locked X now k : safe X X (λ s, (get_locked now k s).2).
Proof.
  intros s Hs. unfold get_locked. destruct (dict_get (entries s) k) as [e|]; [|by apply safe_id].
  destruct (expired now e); [|by apply safe_id].
  apply (safe_compose _ _ _ _ _ (safe_drop X k) (safe_count X 0 0 0 1) s Hs).
Qed.

(** A store needs room for at least one entry. *)
Lemma safe_store X t1 t2 k v ttl s : cache_ok X s → (1 ≤ maximum_entries s)%Z →
  cache_ok X (store_locked t1 t2 k v ttl s) ∧ mono s (store_locked t1 t2 k v ttl s).
Proof.
  intros Hs Hmax. destruct (safe_purge X t1 s Hs) as [Hp Mp]. unfold store_locked.
  set (s1 := purge_expired t1 s) in *. rewrite <-(mo_maximum _ _ Mp) in Hmax. clearbody s1.
  match goal with |- context [count (with_entries ?x _) 0 0 1 0] => set (s2 := x) end.
  assert (cache_ok X s2 ∧ mono s1 s2 ∧
    (dict_mem (entries s2) k = true ∨ (Z.of_nat (length (entries s2)) < maximum_entries s2)%Z)) as (Hs2 & M2 & Hroom).
  { unfold s2. destruct (dict_mem (entries s1) k) eqn:Ek; [split_and!; [done|apply mono_refl|by left]|]. cbn [negb andb].
    destruct (Z.leb_spec (maximum_entries s1) (Z.of_nat (length (entries s1)))) as [Hle|Hlt];
      [|split_and!; [done|apply mono_refl|by right]].
    destruct (entries s1) as [|[old eo] rest] eqn:Ee; [simpl in Hle; lia|].
    destruct (safe_compose _ _ _ _ _ (safe_del_entry X old) (safe_forget X old) s1 Hp) as [H1 M1].
    destruct (safe_count X 0 0 0 1 _ H1) as [H2 M2]. split_and!; [done|by eapply mono_trans|]. right.
    rewrite (mo_maximum _ _ M2), (mo_maximum _ _ M1).
    assert (entries (count (forget old (del_entry old s1)) 0 0 0 1) = rest) as ->.
    { assert (entries (forget old (del_entry old s1)) = dict_del (entries s1) old) as E.
      { unfold forget. by destruct (dict_mem (inflight (del_entry old s1)) old). }
      simpl. rewrite E, Ee. simpl. by rewrite decide_True. }
    pose proof (ok_capacity _ _ Hp) as Hc. rewrite Ee in Hc. simpl in Hc. lia. }
  clearbody s2. destruct Hs2 as [H1 H2 H3 H4 H5 H6]. split.
  - split; simpl; auto with pydata.
    + intros k' Hk'. rewrite dict_keys_set. destruct (H4 k' Hk') as [?|[?|?]]; auto.
    + unfold dict in *. rewrite length_dict_set. destruct Hroom as [->|Hr]; [lia|]. destruct (dict_mem _ _); lia.
  - eapply mono_trans; [exact Mp|]. eapply mono_trans; [exact M2|]. by split.
Qed.

(** ** The operations *)

Lemma safe_get X now ns ky (d : V) : safe X X (post (get now ns ky d)).
Proof.
  intros s Hs. unfold get, post. destruct (validated_key ns ky) as [key|]; [|by apply safe_id].
  rewrite run_bind_lift. pose proof (safe_get_locked X now key s Hs) as [H1 M1].
  destruct (get_locked now key s) as [[v|] s1]; simpl in *.
  - destruct (safe_count X 1 0 0 0 s1 H1). split; [done|by eapply mono_trans].
  - destruct (safe_count X 0 1 0 0 s1 H1). split; [done|by eapply mono_trans].
Qed.

Lemma safe_set X t1 t2 ns ky (v : V) ttl s : cache_ok X s → (1 ≤ maximum_entries s)%Z →
  cache_ok X (post (set t1 t2 ns ky v ttl) s) ∧ mono s (post (set t1 t2 ns ky v ttl) s).
Proof.
  intros Hs Hmax. unfold set, post. destruct (validated_key ns ky) as [key|]; [|by apply safe_id].
  rewrite run_bind_lift. destruct (validate_ttl ttl); [|by apply safe_id]. rewrite run_bind_lift.
  cbn [modify_st snd]. destruct (dict_mem (inflight s) key) eqn:E.
  - destruct (safe_bump X key s Hs E) as [H1 M1].
    destruct (safe_store X t1 t2 key v ttl _ H1) as [H2 M2]; [by rewrite (mo_maximum _ _ M1)|].
    split; [done|by eapply mono_trans].
  - by apply safe_store.
Qed.

Lemma safe_delete X ns ky : safe X X (post (delete ns ky)).
Proof.
  intros s Hs. unfold delete, post. destruct (validated_key ns ky) as [key|]; [|by apply safe_id].
  rewrite run_bind_lift.
  destruct (safe_compose _ _ _ _ _ (safe_del_entry X key) (safe_forget X key) s Hs) as [H1 M1]. simpl in *.
  destruct (dict_mem (entries s) key); [|done].
  destruct (safe_count X 0 0 0 1 _ H1). split; [done|by eapply mono_trans].
Qed.

Lemma safe_del_entries X ks : safe X (ks ++ X) (λ s, foldl (λ s k, del_entry k s) s ks).
Proof.
  revert X. induction ks as [|k ks IH]; intros X; [apply safe_id|].
  intros s Hs. simpl. destruct (safe_del_entry X k s Hs) as [H1 M1]. destruct (IH _ _ H1) as [H2 M2].
  split; [|by eapply mono_trans]. destruct H2 as [A B C D E F]. split; auto.
  intros k' Hk'. destruct (D k' Hk') as [?|[?|?]]; [auto..|]. right. right. set_solver.
Qed.

Lemma cache_ok_weaken X Y s : X ⊆ Y → cache_ok X s → cache_ok Y s.
Proof. intros HXY [A B C D E F]. split; auto. intros k Hk. destruct (D k Hk) as [?|[?|?]]; auto. Qed.

Lemma safe_forgets X ks : safe (ks ++ X) X (λ s, foldl (λ s k, forget k s) s ks).
Proof.
  revert X. induction ks as [|k ks IH]; intros X; [apply safe_id|].
  intros s Hs. simpl. destruct (safe_forget (ks ++ X) k s Hs) as [H1 M1]. destruct (IH _ _ H1) as [H2 M2].
  split; [done|by eapply mono_trans].
Qed.

Lemma safe_invalidate X ns prefix : safe X X (post (invalidate_namespace ns prefix)).
Proof.
  intros s Hs. unfold invalidate_namespace, post. destruct (validate_namespace ns) as [ns'|]; [|by apply safe_id].
  rewrite run_bind_lift. unfold raise_if. rewrite run_bind_lift.
  destruct (fail_if _ _ _) as [[]|]; [|by apply safe_id]. cbv beta iota. cbn [snd].
  set (es := List.filter (covers ns' prefix) (dict_keys (entries s))).
  set (fs := List.filter _ (List.filter _ _)).
  destruct (safe_del_entries X es s Hs) as [H1 M1].
  apply (cache_ok_weaken _ ((es ++ fs) ++ X)) in H1; [|set_solver].
  destruct (safe_forgets X (es ++ fs) _ H1) as [H2 M2].
  destruct (safe_count X 0 0 0 (Z.of_nat (length es)) _ H2) as [H3 M3].
  split; [done|]. eapply mono_trans; [exact M1|]. by eapply mono_trans.
Qed.

Lemma safe_stats X now : safe X X (post (stats (V := V) now)).
Proof. intros s Hs. unfold stats, post. by apply safe_purge. Qed.
End sections.

(** ** Every interleaving *)

Section interleavings.
Context {V : Type}.
Implicit Types (s : sys V) (t : nat) (k : ckey).

(** The key and producer a thread is the owner of. *)
Definition owner_of (c : pc V) : option (ckey * producer) :=
  match c with Producing k _ p | Finishing k p _ => Some (k, p) | _ => None end.

Definition owns s t : option (ckey * producer) := threads s !! t ≫= owner_of.

Record sys_inv s : Prop := {
  si_ok : cache_ok [] (cell s);
  si_max : (1 ≤ maximum_entries (cell s))%Z;
  si_owner : ∀ t k p, owns s t = Some (k, p) → dict_get (inflight (cell s)) k = Some p;
  si_owned : ∀ k p, dict_get (inflight (cell s)) k = Some p → ∃ t, owns s t = Some (k, p);
  si_unique : ∀ t t' k p p', owns s t = Some (k, p) → owns s t' = Some (k, p') → t = t';
  si_waiting : ∀ t k ttl ev, threads s !! t = Some (Waiting k ttl ev) →
    events (cell s) !! ev = Some true ∨ ∃ p, dict_get (inflight (cell s)) k = Some p ∧ ip_event p = ev;
}.

(** A step that leaves the producers and their owners. *)
Lemma inv_mono s s' :
  sys_inv s → cache_ok [] (cell s') → mono (cell s) (cell s') → (∀ t, owns s' t = owns s t) →
  (∀ t k ttl ev, threads s' !! t = Some (Waiting k ttl ev) → threads s !! t = Some (Waiting k ttl ev) ∨
     ∃ p, dict_get (inflight (cell s)) k = Some p ∧ ip_event p = ev) →
  sys_inv s'.
Proof.
  intros [H1 H2 H3 H4 H5 H6] Hok [Mi Me Mm _] Ho Hw. split; [done|by rewrite Mm|..].
  - intros t k p. rewrite Ho, Mi. apply H3.
  - intros k p. rewrite Mi. intros (t & Ht)%H4. exists t. by rewrite Ho.
  - intros t t' k p p'. rewrite !Ho. apply H5.
  - intros t k ttl ev Ht. rewrite Mi, Me. destruct (Hw t k ttl ev Ht) as [H|H]; [by eapply H6|by right].
Qed.

Lemma inv_cell s c' : sys_inv s → cache_ok [] c' → mono (cell s) c' → sys_inv (Sys c' (threads s)).
Proof. intros Hs Hok Hm. eapply inv_mono; simpl; eauto. Qed.

(** The same with one thread's counter moved. *)
Lemma inv_thread s c' t c0 c1 :
  sys_inv s → cache_ok [] c' → mono (cell s) c' → threads s !! t = c0 → c0 ≫= owner_of = owner_of c1 →
  (∀ k ttl ev, c1 = Waiting k ttl ev → ∃ p, dict_get (inflight (cell s)) k = Some p ∧ ip_event p = ev) →
  sys_inv (Sys c' (<[t := c1]> (threads s))).
Proof.
  intros Hs Hok Hm Ht Ho Hw. eapply inv_mono; simpl; eauto.
  - intros t'. unfold owns. simpl. destruct (decide (t = t')) as [<-|Hne].
    + rewrite lookup_insert_eq, Ht. simpl. by rewrite Ho.
    + by rewrite lookup_insert_ne.
  - intros t' k ttl ev. destruct (decide (t = t')) as [<-|Hne]; [|rewrite lookup_insert_ne by done; by left].
    rewrite lookup_insert_eq. intros [= ->]. right. by eapply Hw.
Qed.

Lemma inv_own s now t k ttl :
  sys_inv s → threads s !! t = Some (Entering k ttl) →
  let '(pc', c') := enter now k ttl (cell s) in sys_inv (Sys c' (<[t := pc']> (threads s))).
Proof.
  intros Hs Ht. destruct (safe_get_locked [] now k (cell s) (si_ok _ Hs)) as [H1 M1]. unfold enter.
  destruct (get_locked now k (cell s)) as [[v|] c1]; cbn [snd] in *.
  { destruct (safe_count [] 1 0 0 0 c1 H1). eapply inv_thread; [done|done|by eapply mono_trans|done|done|done]. }
  destruct (dict_get (inflight c1) k) as [p|] eqn:Ep.
  { eapply inv_thread; [done|done|done|done|done|]. intros ? ? ? [= <- <- <-]. exists p.
    by rewrite <-(mo_inflight _ _ M1). }
  pose proof (inv_cell s c1 Hs H1 M1) as [[A B C D E F] G1 G2 G3 G4 G5]. simpl in *.
  assert (∀ t' q, owns s t' = Some (k, q) → False) as Hno.
  { intros t' q Hq. specialize (G2 t' k q Hq). congruence. }
  set (p := Producer _ _).
  assert (∀ t', owns (Sys c1 (<[t:=Producing k ttl p]> (threads s))) t' = if decide (t = t') then Some (k, p) else owns s t') as Ho.
  { intros t'. unfold owns. simpl. destruct (decide (t = t')) as [<-|]; [by rewrite lookup_insert_eq|by rewrite lookup_insert_ne]. }
  split; simpl; [|done|..].
  - split; simpl; auto with pydata.
    + intros k' Hk'. rewrite dict_keys_set. destruct (D k' Hk') as [?|[?|?]]; auto.
    + intros k' q. rewrite dict_get_set, length_app. simpl. destruct (decide (k = k')) as [<-|].
      * intros [= <-]. simpl. unfold generation. simpl. lia.
      * intros [? ?]%F. unfold generation in *. simpl. lia.
  - intros t' k' q. change (owns _ t') with (owns (Sys c1 (<[t:=Producing k ttl p]> (threads s))) t'). rewrite Ho, dict_get_set.
    destruct (decide (t = t')) as [<-|]; [intros [= <- <-]; by rewrite decide_True|].
    intros Hq. destruct (decide (k = k')) as [<-|]; [by apply Hno in Hq|by apply (G2 t')].
  - intros k' q. rewrite dict_get_set. destruct (decide (k = k')) as [<-|Hne].
    + intros [= <-]. exists t. change (owns _ t) with (owns (Sys c1 (<[t:=Producing k ttl p]> (threads s))) t).
      by rewrite Ho, decide_True.
    + intros (t' & Ht')%G3. change (owns s t' = Some (k', q)) in Ht'. exists t'.
      change (owns _ t') with (owns (Sys c1 (<[t:=Producing k ttl p]> (threads s))) t'). rewrite Ho, decide_False; [done|].
      intros <-. unfold owns in Ht'. by rewrite Ht in Ht'.
  - intros t1 t2 k' q1 q2.
    change (owns _ t1) with (owns (Sys c1 (<[t:=Producing k ttl p]> (threads s))) t1).
    change (owns _ t2) with (owns (Sys c1 (<[t:=Producing k ttl p]> (threads s))) t2). rewrite !Ho.
    destruct (decide (t = t1)) as [<-|], (decide (t = t2)) as [<-|]; [done|..|by apply G4].
    + intros [= <- <-] Hq. by apply Hno in Hq.
    + intros Hq [= <- <-]. by apply Hno in Hq.
  - intros t' k' ttl' ev. destruct (decide (t = t')) as [<-|]; [by rewrite lookup_insert_eq|].
    rewrite lookup_insert_ne by done. intros [He|(q & Hq & He)]%G5.
    + left. by apply lookup_app_l_Some.
    + right. exists q. rewrite dict_get_set_ne; [done|]. intros <-. congruence.
Qed.

Lemma inv_finish s t k p r :
  sys_inv s → threads s !! t = Some (Finishing k p r) →
  sys_inv (Sys (finish k (cell s)) (<[t := Returned r]> (threads s))).
Proof.
  intros [[A B C D E F] G1 G2 G3 G4 G5] Ht.
  assert (owns s t = Some (k, p)) as Hown by (unfold owns; by rewrite Ht).
  pose proof (G2 _ _ _ Hown) as Hp.
  assert (∀ t', owns (Sys (finish k (cell s)) (<[t:=Returned r]> (threads s))) t' = if decide (t = t') then None else owns s t') as Ho.
  { intros t'. unfold owns. simpl. destruct (decide (t = t')) as [<-|]; [by rewrite lookup_insert_eq|by rewrite lookup_insert_ne]. }
  assert (inflight (finish k (cell s)) = dict_del (inflight (cell s)) k ∧
    events (finish k (cell s)) = <[ip_event p := true]> (events (cell s)) ∧
    entries (finish k (cell s)) = entries (cell s) ∧ maximum_entries (finish k (cell s)) = maximum_entries (cell s) ∧
    generations (finish k (cell s)) =
      if dict_mem (entries (cell s)) k then generations (cell s) else dict_del (generations (cell s)) k) as (Fi & Fe & Fn & Fm & Fg).
  { unfold finish. rewrite Hp. simpl. by destruct (dict_mem (entries (cell s)) k). }
  split; cbn [cell threads].
  - split; rewrite ?Fi, ?Fe, ?Fn, ?Fm, ?Fg; auto with pydata.
    + destruct (dict_mem _ _); auto with pydata.
    + intros k' Hk'. destruct (decide (k = k')) as [<-|Hne].
      * left. apply dict_mem_true. destruct (dict_mem _ _) eqn:Ek; [done|]. apply dict_mem_true in Hk'.
        unfold dict_mem in Hk'. by rewrite dict_get_del_eq in Hk'.
      * assert (k' ∈ dict_keys (generations (cell s))) as Hin by (destruct (dict_mem _ _); [done|by eapply dict_del_keys]).
        destruct (D k' Hin) as [?|[?|?]]; auto. right. left. apply dict_mem_true. unfold dict_mem.
        rewrite dict_get_del_ne by done. by apply dict_mem_true.
    + intros k' q. rewrite length_insert. destruct (decide (k = k')) as [<-|Hne]; [by rewrite dict_get_del_eq|].
      rewrite dict_get_del_ne by done. intros [? Hle]%F. split; [done|]. unfold generation in *. rewrite Fg.
      destruct (dict_mem _ _); [done|by rewrite dict_get_del_ne].
  - by rewrite Fm.
  - intros t' k' q. rewrite Ho, Fi. destruct (decide (t = t')) as [|Hne]; [done|]. intros Hq.
    rewrite dict_get_del_ne; [by eapply G2|]. intros <-. by specialize (G4 _ _ _ _ _ Hown Hq).
  - intros k' q. rewrite Fi. destruct (decide (k = k')) as [<-|Hne]; [by rewrite dict_get_del_eq|].
    rewrite dict_get_del_ne by done. intros (t' & Ht')%G3. exists t'. rewrite Ho, decide_False; [done|].
    intros <-. congruence.
  - intros t1 t2 k' q1 q2. rewrite !Ho. destruct (decide (t = t1)), (decide (t = t2)); try done. apply G4.
  - intros t' k' ttl ev. rewrite Fi, Fe. destruct (decide (t = t')) as [<-|]; [by rewrite lookup_insert_eq|].
    rewrite lookup_insert_ne by done. intros [He|(q & Hq & He)]%G5.
    + left. destruct (decide (ip_event p = ev)) as [<-|]; [|by rewrite list_lookup_insert_ne].
      rewrite list_lookup_insert_eq; [done|]. by apply (F k p).
    + destruct (decide (k = k')) as [<-|Hne].
      * left. assert (q = p) as -> by congruence. subst ev. rewrite list_lookup_insert_eq; [done|]. by apply (F k p).
      * right. exists q. by rewrite dict_get_del_ne.
Qed.

Lemma sys_step_inv a s s' : sys_inv s → sys_step a s = Some s' → sys_inv s'.
Proof.
  intros Hs H. pose proof (si_ok _ Hs) as Hok. pose proof (si_max _ Hs) as Hmax.
  destruct a; simpl in H.
  - destruct (threads s !! t) eqn:Et; [done|]. injection H as <-.
    eapply inv_thread; [done|done|apply mono_refl|exact Et|..].
    + by destruct (validated_key ns k ≫= _).
    + by destruct (validated_key ns k ≫= _).
  - destruct (threads s !! t) as [[k ttl| | | |]|] eqn:Et; try done. pose proof (inv_own s now t k ttl Hs Et) as Hi.
    destruct (enter now k ttl (cell s)). by injection H as <-.
  - destruct (threads s !! t) as [[|k ttl ev| | |]|] eqn:Et; try done. destruct (default _ _); [|done].
    injection H as <-. by eapply inv_thread; [done|done|apply mono_refl|exact Et|..].
  - destruct (threads s !! t) as [[|k ttl ev| | |]|] eqn:Et; try done.
    injection H as <-. by eapply inv_thread; [done|done|apply mono_refl|exact Et|..].
  - destruct (threads s !! t) as [[| |k ttl p| |]|] eqn:Et; try done. injection H as <-.
    assert (cache_ok [] (store_produced t1 t2 k ttl p r (cell s)) ∧ mono (cell s) (store_produced t1 t2 k ttl p r (cell s))) as [H1 M1].
    { unfold store_produced. destruct r as [v|]; [|by apply safe_id]. destruct (_ =? _)%Z; [by apply safe_store|by apply safe_id]. }
    by eapply inv_thread; [done|done|done|exact Et|..].
  - destruct (threads s !! t) as [[| | |k p r|]|] eqn:Et; try done. injection H as <-. by eapply inv_finish.
  - destruct (threads s !! t) as [[| | | |r]|] eqn:Et; try done. injection H as <-.
    eapply inv_mono; [done|done|apply mono_refl|..]; simpl.
    + intros t'. unfold owns. simpl. destruct (decide (t = t')) as [<-|]; [by rewrite lookup_delete_eq, Et|by rewrite lookup_delete_ne].
    + intros t' k ttl ev. destruct (decide (t = t')) as [<-|]; [by rewrite lookup_delete_eq|rewrite lookup_delete_ne by done; by left].
  - injection H as <-. destruct (safe_get [] now ns k default (cell s) Hok). by apply inv_cell.
  - injection H as <-. destruct (safe_set [] t1 t2 ns k v ttl (cell s) Hok Hmax). by apply inv_cell.
  - injection H as <-. destruct (safe_delete [] ns k (cell s) Hok). by apply inv_cell.
  - injection H as <-. destruct (safe_invalidate [] ns under (cell s) Hok). by apply inv_cell.
  - injection H as <-. destruct (safe_stats [] now (cell s) Hok). by apply inv_cell.
Qed.

Lemma sys_run_inv l s s' : sys_inv s → sys_run l s = Some s' → sys_inv s'.
Proof.
  revert s. induction l as [|a l IH]; intros s Hs H; simpl in H; [by injection H as <-|].
  destruct (sys_step a s) as [s1|] eqn:E; [|done]. eapply IH; [by eapply sys_step_inv|done].
Qed.

Lemma new_cache_inv wait maximum c : new_cache (V := V) wait maximum = Ok c → sys_inv (Sys c ∅) ∧ maximum_entries c = maximum.
Proof.
  unfold new_cache. intros ([] & _ & H)%bind_result_ok. apply bind_result_ok in H as ([] & Hm%fail_if_ok & [= <-]).
  bool_to_prop. split; [|done]. split; simpl; try done; try lia.
  - split; simpl; try done; try lia; try apply dict_wf_nil. intros k Hk. by apply not_elem_of_nil in Hk.
Qed.

(** ** Generations while a producer runs *)

(** Every step keeps the producers, adds one or removes one. *)
Lemma step_kinds a s s' :
  sys_inv s → sys_step a s = Some s' →
  mono (cell s) (cell s') ∨
  (∃ k c, mono (cell s) c ∧ dict_get (inflight c) k = None ∧
     cell s' = count (with_inflight c (dict_set (inflight c) k (Producer (length (events c)) (generation c k)))
                        (events c ++ [false])) 0 1 0 0) ∨
  (∃ k, cell s' = finish k (cell s)).
Proof.
  intros Hs H. pose proof (si_ok _ Hs) as Hok. pose proof (si_max _ Hs) as Hmax.
  destruct a; simpl in H.
  - destruct (threads s !! t); [done|]. injection H as <-. left. apply mono_refl.
  - destruct (threads s !! t) as [[k0 ttl| | | |]|]; try done.
    destruct (safe_get_locked [] now k0 (cell s) Hok) as [_ M]. unfold enter in H.
    destruct (get_locked now k0 (cell s)) as [[v|] c1]; cbn [snd] in *.
    { injection H as <-. left. by destruct M; split. }
    destruct (dict_get (inflight c1) k0) as [q|] eqn:Eq; injection H as <-; [by left|].
    right. left. by exists k0, c1.
  - destruct (threads s !! t) as [[|k0 ttl ev| | |]|]; try done. destruct (default _ _); [|done].
    injection H as <-. left. apply mono_refl.
  - destruct (threads s !! t) as [[|k0 ttl ev| | |]|]; try done. injection H as <-. left. apply mono_refl.
  - destruct (threads s !! t) as [[| |k0 ttl q| |]|]; try done. injection H as <-. left. simpl.
    unfold store_produced. destruct r as [v|]; [|apply mono_refl]. destruct (_ =? _)%Z; [by eapply safe_store|apply mono_refl].
  - destruct (threads s !! t) as [[| | |k0 q r|]|] eqn:Et; try done. injection H as <-. right. right. by exists k0.
  - destruct (threads s !! t) as [[| | | |r]|]; try done. injection H as <-. left. apply mono_refl.
  - injection H as <-. left. by apply (safe_get []).
  - injection H as <-. left. by apply (safe_set []).
  - injection H as <-. left. by apply (safe_delete []).
  - injection H as <-. left. by apply (safe_invalidate []).
  - injection H as <-. left. by apply (safe_stats []).
Qed.

Lemma finish_events k (c : cache V) : length (events (finish k c)) = length (events c).
Proof. unfold finish. destruct (dict_mem _ _); simpl; by destruct (dict_get _ k); rewrite ?length_insert. Qed.

Lemma step_keeps a s s' k p :
  sys_inv s → sys_step a s = Some s' → ip_event p < length (events (cell s)) →
  length (events (cell s)) ≤ length (events (cell s')) ∧
  (dict_get (inflight (cell s')) k = Some p →
   dict_get (inflight (cell s)) k = Some p ∧ (generation (cell s) k ≤ generation (cell s') k)%Z).
Proof.
  intros Hs H Hlt. destruct (step_kinds a s s' Hs H) as [[Mi Me _ Mg]|[(k0 & c & [Mi Me _ Mg] & Hno & ->)|[k0 ->]]].
  - rewrite Mi, Me. split; [done|]. intros Hp. split; [done|]. apply Mg. unfold dict_mem. by rewrite Hp.
  - simpl. rewrite length_app, Me. split; [lia|]. rewrite dict_get_set. destruct (decide (k0 = k)) as [<-|Hne].
    + intros [= <-]. simpl in Hlt. lia.
    + intros Hp. rewrite Mi in Hp. split; [done|]. unfold generation at 2. simpl. apply Mg.
      unfold dict_mem. by rewrite Hp.
  - rewrite finish_events. split; [done|]. pose proof (ok_inflight _ _ (si_ok _ Hs)) as Hwf.
    assert (inflight (finish k0 (cell s)) = dict_del (inflight (cell s)) k0) as -> by (unfold finish; by destruct (dict_mem _ _)).
    intros Hp. destruct (decide (k0 = k)) as [<-|Hne]; [by rewrite dict_get_del_eq in Hp|].
    rewrite dict_get_del_ne in Hp by done. split; [done|].
    unfold finish, generation. simpl. destruct (dict_mem _ _); [done|]. simpl. by rewrite dict_get_del_ne.
Qed.

Lemma run_keeps l s s' k p :
  sys_inv s → sys_run l s = Some s' → dict_get (inflight (cell s')) k = Some p →
  ip_event p < length (events (cell s)) →
  dict_get (inflight (cell s)) k = Some p ∧ (generation (cell s) k ≤ generation (cell s') k)%Z.
Proof.
  revert s. induction l as [|a l IH]; intros s Hs H Hp Hlt; simpl in H; [by injection H as <-|].
  destruct (sys_step a s) as [s1|] eqn:E; [|done].
  destruct (step_keeps a s s1 k p Hs E Hlt) as [Hle Hk].
  destruct (IH s1) as [Hp1 Hg1]; [by eapply sys_step_inv|done|done|lia|].
  destruct (Hk Hp1). split; [done|lia].
Qed.

(** The calls that make the value being produced for a key stale. *)
Definition makes_stale (k : ckey) (a : action V) : bool :=
  match a with
  | Set_ _ _ ns ky _ ttl =>
      is_ok (validated_key ns ky) && is_ok (validate_ttl ttl) && bool_decide ((ns, ky) = k)
  | Delete ns ky => is_ok (validated_key ns ky) && bool_decide ((ns, ky) = k)
  | Invalidate ns under => is_ok (invalidate_namespace ns under (Cache 1 ([] : dict ckey (entry V)) [] [] [] 0 0 0 0)).1
                           && covers ns under k
  | _ => false
  end.

Lemma dict_del_filter {A} (d : dict ckey A) k :
  dict_wf d → dict_del d k = List.filter (λ ke, negb (bool_decide (ke.1 = k))) d.
Proof.
  unfold dict_wf. induction d as [|[k' a] d IH]; [done|]. intros [Hnot Hnd]%NoDup_cons. simpl.
  destruct (decide (k' = k)) as [->|Hne].
  - rewrite bool_decide_eq_true_2 by done. simpl. symmetry. clear IH Hnd. induction d as [|[k' b] d IH]; [done|].
    simpl in *. rewrite bool_decide_eq_false_2 by set_solver. simpl. f_equal. apply IH. set_solver.
  - rewrite bool_decide_eq_false_2 by done. simpl. by rewrite IH.
Qed.

Lemma del_entries_filter (ks : list ckey) (c : cache V) :
  dict_wf (entries c) →
  foldl (λ c k, del_entry k c) c ks =
    with_entries c (List.filter (λ ke, negb (bool_decide (ke.1 ∈ ks))) (entries c)).
Proof.
  revert c. induction ks as [|k ks IH]; intros c Hwf; simpl.
  - replace (List.filter _ _) with (entries c); [by destruct c|]. symmetry. clear. induction (entries c) as [|ke l IH]; [done|].
    simpl. by f_equal.
  - rewrite IH by (simpl; auto with pydata). unfold del_entry, with_entries. simpl. rewrite dict_del_filter by done. f_equal.
    clear. induction (entries c) as [|[k' e] l IH]; [done|]. simpl.
    destruct (decide (k' = k)) as [->|Hne].
    + rewrite bool_decide_eq_true_2 by done. simpl. by rewrite (bool_decide_eq_true_2 (k ∈ _)) by by left.
    + rewrite bool_decide_eq_false_2 by done. simpl. destruct (decide (k' ∈ ks)).
      * rewrite !bool_decide_eq_true_2 by (done || by right). simpl. done.
      * rewrite !bool_decide_eq_false_2 by set_solver. simpl. by f_equal.
Qed.

Lemma forgets_generation (ks : list ckey) (c : cache V) k :
  NoDup ks → dict_mem (inflight c) k = true →
  generation (foldl (λ c k, forget k c) c ks) k = (generation c k + if decide (k ∈ ks) then 1 else 0)%Z ∧
  inflight (foldl (λ c k, forget k c) c ks) = inflight c.
Proof.
  revert c. induction ks as [|k0 ks IH]; intros c Hnd Hk; simpl.
  - split; [lia|done].
  - apply NoDup_cons in Hnd as [Hnot Hnd].
    assert (inflight (forget k0 c) = inflight c) as Hi by (unfold forget; by destruct (dict_mem (inflight c) k0)).
    destruct (IH (forget k0 c) Hnd) as [Hg ->]; [by rewrite Hi|]. split; [|done]. rewrite Hg.
    destruct (decide (k0 = k)) as [->|Hne].
    + rewrite decide_False by done. rewrite decide_True by by left. unfold forget. rewrite Hk, generation_bump, decide_True by done. lia.
    + assert (generation (forget k0 c) k = generation c k) as ->.
      { unfold forget. destruct (dict_mem (inflight c) k0).
        - rewrite generation_bump, decide_False by done. lia.
        - unfold generation, pop_generation. simpl. by rewrite dict_get_del_ne. }
      destruct (decide (k ∈ ks)); [rewrite decide_True by by right|rewrite decide_False by set_solver]; lia.
Qed.

Lemma forgets_fields (ks : list ckey) (c : cache V) :
  entries (foldl (λ c k, forget k c) c ks) = entries c ∧
  evictions (foldl (λ c k, forget k c) c ks) = evictions c ∧
  inflight (foldl (λ c k, forget k c) c ks) = inflight c.
Proof.
  revert c. induction ks as [|k ks IH]; intros c; simpl; [done|].
  destruct (IH (forget k c)) as (-> & -> & ->). unfold forget. by destruct (dict_mem (inflight c) k).
Qed.

Lemma length_filter_keys {A} (P : ckey → bool) (d : dict ckey A) :
  length (List.filter P (dict_keys d)) = length (List.filter (λ ke, P ke.1) d).
Proof. unfold dict_keys. induction d as [|[k e] l IH]; [done|]. simpl. destruct (P k); simpl; [by f_equal|done]. Qed.

Lemma filter_not_in_keys {A} (P : ckey → bool) (d : dict ckey A) :
  List.filter (λ ke, negb (bool_decide (ke.1 ∈ List.filter P (dict_keys d)))) d = List.filter (λ ke, negb (P ke.1)) d.
Proof.
  apply filter_ext_in. intros [k e] Hin%list_elem_of_In. cbn [fst]. f_equal.
  assert (k ∈ dict_keys d) as Hk%list_elem_of_In by (apply list_elem_of_fmap; by exists (k, e)).
  destruct (P k) eqn:Ek.
  - apply bool_decide_eq_true_2, list_elem_of_In, filter_In. done.
  - apply bool_decide_eq_false_2. intros H%list_elem_of_In%filter_In. destruct H. congruence.
Qed.

(** What an accepted invalidation does to a consistent cache. *)
Lemma invalidate_spec ns under (c : cache V) n :
  cache_ok [] c → (invalidate_namespace ns under c).1 = Ok n →
  let c' := post (invalidate_namespace ns under) c in
  n = Z.of_nat (length (List.filter (λ ke, covers ns under ke.1) (entries c))) ∧
  entries c' = List.filter (λ ke, negb (covers ns under ke.1)) (entries c) ∧
  evictions c' = (evictions c + n)%Z ∧ inflight c' = inflight c ∧
  ∀ k, dict_mem (inflight c) k = true →
    generation c' k = (generation c k + if covers ns under k then 1 else 0)%Z.
Proof.
  intros Hok. unfold post, invalidate_namespace, validate_namespace.
  destruct (fullmatch NAMESPACE ns); [|done]. rewrite run_bind_lift. unfold raise_if. rewrite run_bind_lift.
  destruct (fail_if _ _ _) as [[]|]; [|done]. cbv beta iota. cbn [fst snd].
  set (es := List.filter (covers ns under) (dict_keys (entries c))).
  set (fs := List.filter _ (List.filter _ (dict_keys (inflight c)))). intros [= <-].
  rewrite del_entries_filter by apply Hok.
  match goal with |- context [foldl _ (with_entries c ?d) _] => set (d1 := d) end.
  assert (∀ k, k ∈ es ↔ k ∈ dict_keys (entries c) ∧ covers ns under k = true) as Hes.
  { intros k. unfold es. by rewrite list_elem_of_In, filter_In, <-list_elem_of_In. }
  assert (∀ k, k ∈ fs ↔ (k ∈ dict_keys (inflight c) ∧ covers ns under k = true) ∧ k ∉ es) as Hfs.
  { intros k. unfold fs. rewrite list_elem_of_In, !filter_In, <-list_elem_of_In, negb_true_iff, bool_decide_eq_false. done. }
  assert (NoDup (es ++ fs)) as Hnd.
  { apply NoDup_app. split_and!; [|set_solver|]; apply NoDup_ListNoDup; repeat apply List.NoDup_filter; apply NoDup_ListNoDup, Hok. }
  destruct (forgets_fields (es ++ fs) (with_entries c d1)) as (He & Hv & Hi).
  simpl. rewrite He, Hv, Hi. split_and!.
  - f_equal. apply length_filter_keys.
  - apply filter_not_in_keys.
  - done.
  - done.
  - intros k Hk. unfold generation at 1. simpl.
    fold (generation (foldl (λ c k, forget k c) (with_entries c d1) (es ++ fs)) k).
    destruct (forgets_generation (es ++ fs) (with_entries c d1) k Hnd Hk) as [-> _].
    change (generation (with_entries c d1) k) with (generation c k). f_equal.
    apply dict_mem_true in Hk.
    destruct (covers ns under k) eqn:Ek; [rewrite decide_True; [done|]|rewrite decide_False; [done|]]; rewrite elem_of_app.
    + destruct (decide (k ∈ es)); [by left|right]. by apply Hfs.
    + intros [H%Hes|H%Hfs]; [destruct H as [_ H]|destruct H as [[_ H] _]]; by rewrite Ek in H.
Qed.

(** A call that makes a value stale bumps the generation of its key. *)
Lemma stale_bumps a s s' k :
  sys_inv s → makes_stale k a = true → sys_step a s = Some s' → dict_mem (inflight (cell s)) k = true →
  (generation (cell s) k < generation (cell s') k)%Z ∧ threads s' = threads s ∧
  inflight (cell s') = inflight (cell s) ∧ events (cell s') = events (cell s).
Proof.
  intros Hs Ha H Hk. pose proof (si_ok _ Hs) as Hok. pose proof (si_max _ Hs) as Hmax.
  destruct a; simpl in Ha; try done; simpl in H; injection H as <-; simpl.
  - destruct (safe_set [] t1 t2 ns k0 v ttl (cell s) Hok Hmax) as [_ [-> -> _ _]]. split; [|done].
    unfold post, set. destruct (validated_key ns k0) as [key|] eqn:Ek; [|done]. rewrite run_bind_lift.
    destruct (validate_ttl ttl); [|done]. rewrite run_bind_lift. simpl in Ha. apply bool_decide_eq_true in Ha.
    assert (key = k) as ->.
    { unfold validated_key, validate_namespace, validate_key in Ek. destruct (fullmatch _ ns); [|done]. simpl in Ek.
      destruct (fullmatch _ k0); [|done]. simpl in Ek. congruence. }
    unfold modify_st. cbn [snd]. rewrite Hk. destruct (safe_bump [] k (cell s) Hok Hk) as [Hb Mb].
    destruct (safe_store [] t1 t2 k v ttl _ Hb) as [_ Ms]; [by rewrite (mo_maximum _ _ Mb)|].
    pose proof (mo_generation _ _ Ms k Hk) as Hle. rewrite generation_bump, decide_True in Hle by done. lia.
  - destruct (safe_delete [] ns k0 (cell s) Hok) as [_ [-> -> _ _]]. split; [|done].
    unfold post, delete. destruct (validated_key ns k0) as [key|] eqn:Ek; [|done]. rewrite run_bind_lift.
    simpl in Ha. apply bool_decide_eq_true in Ha.
    assert (key = k) as ->.
    { unfold validated_key, validate_namespace, validate_key in Ek. destruct (fullmatch _ ns); [|done]. simpl in Ek.
      destruct (fullmatch _ k0); [|done]. simpl in Ek. congruence. }
    cbn [snd]. assert (generation (forget k (del_entry k (cell s))) k = (generation (cell s) k + 1)%Z) as Hg.
    { unfold forget. cbn [del_entry with_entries inflight]. rewrite Hk, generation_bump, decide_True by done. done. }
    destruct (dict_mem (entries (cell s)) k); [unfold generation in *; simpl in *|]; lia.
  - apply andb_true_iff in Ha as [Ha Hcov].
    assert (∃ n, (invalidate_namespace ns under (cell s)).1 = Ok n) as [n Hn].
    { revert Ha. unfold invalidate_namespace. destruct (validate_namespace ns); [|done]. rewrite !run_bind_lift.
      unfold raise_if. rewrite !run_bind_lift. destruct (fail_if _ _ _) as [[]|]; [|done]. intros _. by eexists. }
    destruct (invalidate_spec ns under (cell s) n Hok Hn) as (_ & _ & _ & Hi & Hg).
    destruct (safe_invalidate [] ns under (cell s) Hok) as [_ [_ He _ _]]. rewrite He.
    split; [|done]. rewrite (Hg k Hk), Hcov. lia.
Qed.

(** The steps that let the owner of a key complete. *)
Definition completion t (c : pc V) (t1 t2 : Z) (r : result V) : list (action V) :=
  match c with Producing _ _ _ => [Produce t t1 t2 r; Finish t] | _ => [Finish t] end.

Lemma completion_wakes s t c k p (t1 t2 : Z) r :
  sys_inv s → threads s !! t = Some c → owner_of c = Some (k, p) →
  ∃ s', sys_run (completion t c t1 t2 r) s = Some s' ∧ events (cell s') !! ip_event p = Some true ∧
    (∀ t', t' ≠ t → threads s' !! t' = threads s !! t').
Proof.
  intros Hs Ht Ho.
  assert (∀ s0 q, sys_inv s0 → threads s0 !! t = Some (Finishing k p q) →
    ∃ s', sys_run [Finish t] s0 = Some s' ∧ events (cell s') !! ip_event p = Some true ∧
      (∀ t', t' ≠ t → threads s' !! t' = threads s0 !! t')) as Hfin.
  { intros s0 q Hs0 Ht0. simpl. rewrite Ht0. eexists. split; [done|]. simpl. split; [|by intros; rewrite lookup_insert_ne].
    assert (dict_get (inflight (cell s0)) k = Some p) as Hp by (apply (si_owner _ Hs0 t); unfold owns; by rewrite Ht0).
    unfold finish. rewrite Hp. assert (<[ip_event p:=true]> (events (cell s0)) !! ip_event p = Some true) as E.
    { apply list_lookup_insert_eq. by apply (ok_producer _ _ (si_ok _ Hs0) k). }
    by destruct (dict_mem _ _). }
  destruct c as [| |k' ttl p'|k' p' q|]; try done; injection Ho as -> ->; [|by eapply Hfin].
  unfold completion. cbn [sys_run]. destruct (sys_step (Produce t t1 t2 r) s) as [s1|] eqn:E.
  - pose proof (sys_step_inv _ _ _ Hs E) as Hs1. simpl in E. rewrite Ht in E. injection E as <-.
    destruct (Hfin _ r Hs1) as (s' & Hrun & He & Hth); [simpl; by rewrite lookup_insert_eq|].
    exists s'. split_and!; [exact Hrun|done|]. intros t' Hne. rewrite Hth by done. simpl. by rewrite lookup_insert_ne.
  - simpl in E. by rewrite Ht in E.
Qed.

(** ** Properties *)

(** C18: the cache stays bounded, whatever the interleaving of calls: at most
    [maximum_entries] resident entries, a generation number only for a key
    that is resident or being produced, and at most one running producer per
    key (one owner thread for each key in flight, and no other). *)
Theorem cache_bounded_and_coalesced wait maximum c l s :
  new_cache wait maximum = Ok c → sys_run l (Sys c ∅) = Some s →
  (Z.of_nat (length (entries (cell s))) ≤ maximum)%Z ∧
  (∀ k, k ∈ dict_keys (generations (cell s)) →
     k ∈ dict_keys (entries (cell s)) ∨ k ∈ dict_keys (inflight (cell s))) ∧
  (∀ t t' k p p', owns s t = Some (k, p) → owns s t' = Some (k, p') → t = t' ∧ p = p') ∧
  (∀ k, k ∈ dict_keys (inflight (cell s)) ↔ ∃ t p, owns s t = Some (k, p)).
Proof.
  intros Hc H. destruct (new_cache_inv _ _ _ Hc) as [Hi Hm].
  pose proof (sys_run_inv _ _ _ Hi H) as [Hok _ Hown Hd Hu _].
  assert (maximum_entries (cell s) = maximum) as <-.
  { rewrite <-Hm. change c with (cell (Sys c ∅)). clear -H Hi. revert H Hi. generalize (Sys c ∅). induction l as [|a l IH]; intros s0 H Hi; simpl in H; [by injection H as <-|].
    destruct (sys_step a s0) as [s1|] eqn:E; [|done]. rewrite (IH s1 H) by by eapply sys_step_inv.
    destruct (step_kinds _ _ _ Hi E) as [[_ _ -> _]|[(k & c0 & [_ _ Hmx _] & _ & ->)|[k ->]]]; [done|done|].
    unfold finish. by destruct (dict_mem _ _). }
  split_and!.
  - apply Hok.
  - intros k [?|[?|Hk]]%(ok_keys _ _ Hok); [by left|by right|by apply not_elem_of_nil in Hk].
  - intros t t' k p p' Ht Ht'. split; [by eapply Hu|]. apply Hown in Ht, Ht'. congruence.
  - intros k. rewrite <-dict_mem_true. unfold dict_mem. split.
    + destruct (dict_get _ k) as [p|] eqn:E; [|done]. intros _. destruct (Hd k p E) as [t Ht]. by exists t, p.
    + intros (t & p & Ht%Hown). by rewrite Ht.
Qed.

(** C17: a value that was being produced when its key was set, deleted or
    invalidated is never stored.  After any interleaving that follows such a
    call, the producer's thread leaves the cache exactly as it finds it (and
    still answers its own caller). *)
Theorem stale_producer_discarded wait maximum c l0 s t k ttl p a s1 l s2 (t1 t2 : Z) r s3 :
  new_cache wait maximum = Ok c → sys_run l0 (Sys c ∅) = Some s →
  threads s !! t = Some (Producing k ttl p) → makes_stale k a = true → sys_step a s = Some s1 →
  sys_run l s1 = Some s2 → threads s2 !! t = Some (Producing k ttl p) →
  sys_step (Produce t t1 t2 r) s2 = Some s3 →
  cell s3 = cell s2 ∧ threads s3 !! t = Some (Finishing k p r).
Proof.
  intros Hc H0 Ht Ha H1 H2 Ht2 H3. destruct (new_cache_inv _ _ _ Hc) as [Hi _].
  pose proof (sys_run_inv _ _ _ Hi H0) as Hs. pose proof (sys_step_inv _ _ _ Hs H1) as Hs1.
  pose proof (sys_run_inv _ _ _ Hs1 H2) as Hs2.
  assert (dict_get (inflight (cell s)) k = Some p) as Hp by (apply (si_owner _ Hs t); unfold owns; by rewrite Ht).
  assert (dict_get (inflight (cell s2)) k = Some p) as Hp2 by (apply (si_owner _ Hs2 t); unfold owns; by rewrite Ht2).
  destruct (stale_bumps _ _ _ _ Hs Ha H1) as (Hlt & _ & _ & Hev); [unfold dict_mem; by rewrite Hp|].
  destruct (ok_producer _ _ (si_ok _ Hs) _ _ Hp) as [He Hg].
  destruct (run_keeps _ _ _ _ _ Hs1 H2 Hp2) as [_ Hle]; [by rewrite Hev|].
  simpl in H3. rewrite Ht2 in H3. injection H3 as <-. simpl. rewrite lookup_insert_eq. split; [|done].
  unfold store_produced. destruct r; [|done]. rewrite (proj2 (Z.eqb_neq _ _)); [done|]. lia.
Qed.

(** A waiting caller is never stranded.  In every reachable state a thread
    that waits for a producer either can wake up now, or there is an owner
    whose remaining steps, with any outcome of its producer, end in a state
    where it can. *)
Theorem waiter_wakes wait maximum c l s t k ttl ev :
  new_cache wait maximum = Ok c → sys_run l (Sys c ∅) = Some s →
  threads s !! t = Some (Waiting k ttl ev) →
  is_Some (sys_step (Wake t) s) ∨
  ∃ t' pc', threads s !! t' = Some pc' ∧ (∃ p, owner_of pc' = Some (k, p)) ∧
    ∀ (t1 t2 : Z) r, ∃ s', sys_run (completion t' pc' t1 t2 r) s = Some s' ∧ is_Some (sys_step (Wake t) s').
Proof.
  intros Hc H Ht. destruct (new_cache_inv _ _ _ Hc) as [Hi _]. pose proof (sys_run_inv _ _ _ Hi H) as Hs.
  destruct (si_waiting _ Hs t k ttl ev Ht) as [He|(p & Hp & <-)].
  - left. simpl. rewrite Ht, He. by eexists.
  - right. destruct (si_owned _ Hs k p Hp) as [t' Ho]. unfold owns in Ho.
    destruct (threads s !! t') as [pc'|] eqn:Et; [|done]. simpl in Ho. exists t', pc'. split; [done|]. split; [by exists p|].
    intros t1 t2 r. destruct (completion_wakes s t' pc' k p t1 t2 r Hs Et Ho) as (s' & Hrun & Hev & Hth).
    exists s'. split; [done|]. simpl. rewrite Hth by (intros ->; rewrite Ht in Et; injection Et as <-; done).
    rewrite Ht, Hev. by eexists.
Qed.

(** an invalidation is exact.  In every reachable state an accepted
    [invalidate_namespace] removes the entries of its namespace (with the
    prefix, when one is given) and no other, answers with their number and
    counts them as evictions; it supersedes the producers in flight of
    exactly the same keys. *)
Theorem invalidate_exact wait maximum c l s ns under n :
  new_cache wait maximum = Ok c → sys_run l (Sys c ∅) = Some s →
  (invalidate_namespace ns under (cell s)).1 = Ok n →
  let c' := post (invalidate_namespace ns under) (cell s) in
  n = Z.of_nat (length (List.filter (λ ke, covers ns under ke.1) (entries (cell s)))) ∧
  entries c' = List.filter (λ ke, negb (covers ns under ke.1)) (entries (cell s)) ∧
  evictions c' = (evictions (cell s) + n)%Z ∧ inflight c' = inflight (cell s) ∧
  ∀ k, k ∈ dict_keys (inflight (cell s)) →
    generation c' k = (generation (cell s) k + if covers ns under k then 1 else 0)%Z.
Proof.
  intros Hc H Hn. destruct (new_cache_inv _ _ _ Hc) as [Hi _]. pose proof (sys_run_inv _ _ _ Hi H) as Hs.
  destruct (invalidate_spec ns under (cell s) n (si_ok _ Hs) Hn) as (? & ? & ? & ? & Hg).
  split_and!; [done..|]. intros k Hk. by apply Hg, dict_mem_true.
Qed.
End interleavings.

(** ** Witnesses *)

Definition demo_start : sys Z := Sys (Cache 2 [] [] [] [] 0 0 0 0) ∅.
Definition demo_calls : list (action Z) :=
  [Set_ 0 0 "plaik.theme" "a" 7%Z 100; Call 1 "plaik.theme" "b" 100; Call 2 "plaik.theme" "b" 100; Enter 1 1; Enter 2 2].
Definition demo_state : sys Z := default demo_start (sys_run demo_calls demo_start).
Definition demo_producer : producer := Producer 0 0.

Lemma cache_bounded_and_coalesced_witness :
  (Z.of_nat (length (entries (cell demo_state))) ≤ 2)%Z ∧ 1 = 1.
Proof.
  destruct (cache_bounded_and_coalesced (V := Z) (30 * second) 2 (cell demo_start) demo_calls demo_state)
    as (H & _ & Hu & _); [reflexivity|vm_compute; reflexivity|].
  split; [exact H|].
  destruct (Hu 1 1 ("plaik.theme", "b") demo_producer demo_producer) as [E _]; [vm_compute; reflexivity..|exact E].
Defined.

Lemma stale_producer_discarded_witness : ∃ s2 s3,
  sys_step (Produce 1 5 5 (Ok 9%Z)) s2 = Some s3 ∧ cell s3 = cell s2.
Proof.
  pose (s1 := default demo_start (sys_step (Delete "plaik.theme" "b") demo_state)).
  pose (s3 := default demo_start (sys_step (Produce 1 5 5 (Ok 9%Z)) s1)).
  exists s1, s3. split; [vm_compute; reflexivity|].
  refine (proj1 (stale_producer_discarded (30 * second) 2 (cell demo_start) demo_calls demo_state 1
    ("plaik.theme", "b") 100 demo_producer (Delete "plaik.theme" "b") s1 [] s1 5 5 (Ok 9%Z) s3 _ _ _ _ _ _ _ _));
    vm_compute; reflexivity.
Defined.

Lemma waiter_wakes_witness : ∃ t' pc', threads demo_state !! t' = Some pc'.
Proof.
  destruct (waiter_wakes (V := Z) (30 * second) 2 (cell demo_start) demo_calls demo_state 2 ("plaik.theme", "b") 100 0)
    as [[s' H]|(t' & pc' & H & _)]; [reflexivity|vm_compute; reflexivity|vm_compute; reflexivity|vm_compute in H; discriminate|].
  exists t', pc'. exact H.
Defined.

Lemma invalidate_exact_witness : entries (post (invalidate_namespace "plaik.theme" None) (cell demo_state)) = [].
Proof.
  destruct (invalidate_exact (V := Z) (30 * second) 2 (cell demo_start) demo_calls demo_state "plaik.theme" None 1)
    as (_ & H & _); [reflexivity|vm_compute; reflexivity|vm_compute; reflexivity|].
  rewrite H. vm_compute. reflexivity.
Defined.
End Cache.
