(* ===== verification/Passwords.v ===== *)
(** * Password hashes (identity.py: [PasswordHasher], [_b64encode], [_b64decode])

    Bytes and UTF-8 text are strings.  [hashlib.scrypt] is a parameter that
    may raise; the salt drawn by [secrets] is an argument.  [int_unicode] is
    what [int] makes of a text with non-ASCII characters. *)

From Stdlib Require Import Ascii ZArith Lia.
From stdpp Require Import base decidable numbers list strings sets pretty.
From S2P Require Import Prelude PyData Regex JobPayload HashChain.

Module Passwords.
Import Payload HashChain.

(** ** Base 64

    A byte is eight bits; three bytes are four sextets, highest bit first. *)

Definition sextet : Type := bool * bool * bool * bool * bool * bool.

Definition alphabet : list ascii :=
  chars "ABCDEFGHIJKLMNOPQRSTUVWXYZabcdefghijklmnopqrstuvwxyz0123456789-_".

Definition bit (b : bool) (n : N) : N := if b then n else 0%N.
Definition sextet_value (s : sextet) : N :=
  let '(a, b, c, d, e, f) := s in (bit a 32 + bit b 16 + bit c 8 + bit d 4 + bit e 2 + bit f 1)%N.
Definition sextet_char (s : sextet) : ascii := nth (N.to_nat (sextet_value s)) alphabet "A"%char.

(** The letters [+] and [/] are read as well. *)
Definition char_value (c : ascii) : option N :=
  if is_upper c then Some (code c - 65)%N
  else if is_lower c then Some (code c - 71)%N
  else if is_digit c then Some (code c + 4)%N
  else if one_of "-+" c then Some 62%N
  else if one_of "_/" c then Some 63%N
  else None.
Definition char_sextet (c : ascii) : option sextet :=
  v ← char_value c;
  Some (N.testbit v 5, N.testbit v 4, N.testbit v 3, N.testbit v 2, N.testbit v 1, N.testbit v 0).

(** [base64.urlsafe_b64encode]. *)
Fixpoint b64_groups (l : list ascii) : list ascii :=
  match l with
  | Ascii a0 a1 a2 a3 a4 a5 a6 a7 :: Ascii b0 b1 b2 b3 b4 b5 b6 b7 :: Ascii c0 c1 c2 c3 c4 c5 c6 c7 :: l =>
      sextet_char (a7, a6, a5, a4, a3, a2) :: sextet_char (a1, a0, b7, b6, b5, b4) ::
      sextet_char (b3, b2, b1, b0, c7, c6) :: sextet_char (c5, c4, c3, c2, c1, c0) :: b64_groups l
  | [Ascii a0 a1 a2 a3 a4 a5 a6 a7; Ascii b0 b1 b2 b3 b4 b5 b6 b7] =>
      [sextet_char (a7, a6, a5, a4, a3, a2); sextet_char (a1, a0, b7, b6, b5, b4);
       sextet_char (b3, b2, b1, b0, false, false); "="%char]
  | [Ascii a0 a1 a2 a3 a4 a5 a6 a7] =>
      [sextet_char (a7, a6, a5, a4, a3, a2); sextet_char (a1, a0, false, false, false, false); "="%char; "="%char]
  | [] => []
  end.

Definition b64encode (value : string) : string :=
  rstrip (λ c, bool_decide (c = "="%char)) (of_chars (b64_groups (chars value))).

Definition is_pad (c : ascii) : bool := bool_decide (c = "="%char).

(** [binascii.a2b_base64] in strict mode, after the translation of [-_]:
    padding ends the last group only. *)
Fixpoint a2b_groups (l : list ascii) : option (list ascii) :=
  match l with
  | [] => Some []
  | x :: y :: z :: w :: l =>
      match char_sextet x, char_sextet y with
      | Some (x5, x4, x3, x2, x1, x0), Some (y5, y4, y3, y2, y1, y0) =>
          let last := match l with [] => is_pad w | _ :: _ => false end in
          if last && is_pad z then Some [Ascii y4 y5 x0 x1 x2 x3 x4 x5]
          else
            match char_sextet z with
            | Some (z5, z4, z3, z2, z1, z0) =>
                if last then Some [Ascii y4 y5 x0 x1 x2 x3 x4 x5; Ascii z2 z3 z4 z5 y0 y1 y2 y3]
                else
                  match char_sextet w with
                  | Some (w5, w4, w3, w2, w1, w0) =>
                      r ← a2b_groups l;
                      Some (Ascii y4 y5 x0 x1 x2 x3 x4 x5 :: Ascii z2 z3 z4 z5 y0 y1 y2 y3 ::
                            Ascii w0 w1 w2 w3 w4 w5 z0 z1 :: r)
                  | None => None
                  end
            | None => None
            end
      | _, _ => None
      end
  | _ => None
  end.

(** [-len(value) % 4] signs of padding. *)
Definition b64decode (value : string) : result string :=
  let padding := repeat "="%char (Z.to_nat ((- Z.of_nat (str_len value)) mod 4)) in
  match a2b_groups (chars value ++ padding) with
  | Some l => Ok (of_chars l)
  | None => fail ValueErr "invalid base64"
  end.

(** ** [int(text)] *)

(** Digits with single underscores between them. *)
Fixpoint digits_of (after_digit : bool) (l : list ascii) : option (list ascii) :=
  match l with
  | [] => if after_digit then Some [] else None
  | c :: l =>
      if is_digit c then cons c <$> digits_of true l
      else if bool_decide (c = "_"%char) && after_digit then digits_of false l else None
  end.

Definition MAX_INT_DIGITS : nat := 4300.

Definition ascii_int (s : string) : result Z :=
  let signed (neg : bool) (l : list ascii) :=
    match digits_of false l with
    | Some ds => if MAX_INT_DIGITS <? length ds then fail ValueErr "Exceeds the limit for integer string conversion"
                 else Ok (if neg then - Z.of_N (decimal ds) else Z.of_N (decimal ds))%Z
    | None => fail ValueErr "invalid literal for int()"
    end in
  match chars (rstrip is_space (lstrip is_space s)) with
  | c :: l => if bool_decide (c = "-"%char) then signed true l
              else if bool_decide (c = "+"%char) then signed false l else signed false (c :: l)
  | [] => signed false []
  end.

(** ** [PasswordHasher] *)

Record hasher : Type := Hasher {
  ph_n : Z; ph_r : Z; ph_p : Z; ph_salt_bytes : Z; ph_derived_key_bytes : Z;
  ph_minimum_length : Z; ph_maximum_bytes : Z;
}.

Definition power_of_two (n : Z) : bool := (Z.land n (n - 1) =? 0)%Z.

(** [__init__]. *)
Definition new_hasher (n r p salt_bytes derived_key_bytes minimum_length maximum_bytes : Z) : result hasher :=
  _ ← fail_if ((n <? 2 ^ 14)%Z || negb (power_of_two n)) ValueErr
        "scrypt n must be a power of two and at least 16384";
  _ ← fail_if ((r <? 1)%Z || (p <? 1)%Z || (salt_bytes <? 16)%Z || (derived_key_bytes <? 32)%Z) ValueErr
        "unsafe scrypt parameters";
  Ok (Hasher n r p salt_bytes derived_key_bytes minimum_length maximum_bytes).

Definition default_hasher : hasher := Hasher (2 ^ 14) 8 1 16 32 12 1024.

Definition algorithm : string := "scrypt".
Definition format_version : Z := 1.

Section hashing.
Context (scrypt : string → string → Z → Z → Z → Z → result string) (int_unicode : string → result Z).

Definition py_int (s : string) : result Z := if any_char non_ascii s then int_unicode s else ascii_int s.

Definition encode_new_password (h : hasher) (password : string) : result string :=
  _ ← fail_if (Z.of_nat (str_len password) <? ph_minimum_length h)%Z ValueErr "password is too short";
  _ ← fail_if (ph_maximum_bytes h <? Z.of_nat (utf8_len password))%Z ValueErr "password is too long";
  Ok password.

(** [salt] is the answer of [secrets.token_bytes(self.salt_bytes)]. *)
Definition hash (h : hasher) (salt password : string) : result string :=
  encoded ← encode_new_password h password;
  digest ← scrypt encoded salt (ph_n h) (ph_r h) (ph_p h) (ph_derived_key_bytes h);
  Ok (str_join "$" [algorithm; pretty format_version; pretty (ph_n h); pretty (ph_r h); pretty (ph_p h);
                    b64encode salt; b64encode digest]).

Definition verify_body (h : hasher) (password encoded_hash : string) : result bool :=
  if (utf8_len password =? 0) || (ph_maximum_bytes h <? Z.of_nat (utf8_len password))%Z then Ok false
  else
    match str_split "$" encoded_hash with
    | [alg; version; n; r; p; salt; expected] =>
        bad ← (if String.eqb alg algorithm then v ← py_int version; Ok (negb (v =? format_version)%Z) else Ok true);
        if (bad : bool) then Ok false
        else
          n ← py_int n; r ← py_int r; p ← py_int p;
          if (n <? 2 ^ 14)%Z || (2 ^ 20 <? n)%Z || negb (power_of_two n) then Ok false
          else if negb ((1 <=? r)%Z && (r <=? 32)%Z) || negb ((1 <=? p)%Z && (p <=? 16)%Z) then Ok false
          else
            salt ← b64decode salt; expected ← b64decode expected;
            if (utf8_len salt <? 16) || negb ((32 <=? utf8_len expected) && (utf8_len expected <=? 128)) then Ok false
            else
              actual ← scrypt password salt n r p (Z.of_nat (utf8_len expected));
              Ok (bool_decide (actual = expected))
    | _ => fail ValueErr "not enough values to unpack"
    end.

Definition verify (h : hasher) (password encoded_hash : string) : result bool :=
  result_catch (verify_body h password encoded_hash)
    (λ e, if exn_in e [TypeErr; ValueErr] then Some (Ok false) else None).

(** The checks of [or] stop at the first that holds. *)
Definition needs_rehash (h : hasher) (encoded_hash : string) : result bool :=
  result_catch
    match str_split "$" encoded_hash with
    | [alg; version; n; r; p; _; digest] =>
        let differs (text : string) (z : Z) (k : result bool) : result bool :=
          v ← py_int text; if negb (v =? z)%Z then Ok true else k in
        if negb (String.eqb alg algorithm) then Ok true
        else differs version format_version (differs n (ph_n h) (differs r (ph_r h) (differs p (ph_p h)
               (d ← b64decode digest; Ok (negb (Z.of_nat (utf8_len d) =? ph_derived_key_bytes h)%Z)))))
    | _ => fail ValueErr "not enough values to unpack"
    end
    (λ e, if exn_in e [TypeErr; ValueErr] then Some (Ok true) else None).
End hashing.

(** ** Base 64 round trip *)

Definition letter (c : ascii) : bool := is_alnum c || one_of "-_" c.

Lemma sextet_letter x : letter (sextet_char x) = true.
Proof. destruct x as [[[[[[] []] []] []] []] []]; reflexivity. Qed.

Lemma letter_plain c : letter c = true → c ≠ "="%char ∧ c ≠ "$"%char ∧ is_continuation c = false ∧ non_ascii c = false.
Proof. destruct c as [[] [] [] [] [] [] [] []]; intros H; vm_compute in H; try discriminate H; by repeat split. Qed.

Lemma sextet_not_sep x : sextet_char x ≠ "="%char ∧ sextet_char x ≠ "$"%char.
Proof. by pose proof (letter_plain _ (sextet_letter x)) as (? & ? & _). Qed.

Lemma char_sextet_char x : char_sextet (sextet_char x) = Some x.
Proof. destruct x as [[[[[[] []] []] []] []] []]; reflexivity. Qed.

(** Induction by groups of three. *)
Lemma list_ind3 {A} (P : list A → Prop) :
  P [] → (∀ a, P [a]) → (∀ a b, P [a; b]) → (∀ a b c l, P l → P (a :: b :: c :: l)) → ∀ l, P l.
Proof.
  intros H0 H1 H2 H3 l. enough (P l ∧ (∀ a, P (a :: l)) ∧ ∀ a b, P (a :: b :: l)) as [? _] by done.
  induction l as [|c l (IH1 & IH2 & IH3)]; [done|]. split_and!; [apply IH2|intros; apply IH3|intros a b; by apply H3].
Qed.

Lemma sextet_not_pad x : is_pad (sextet_char x) = false.
Proof. apply bool_decide_eq_false_2, sextet_not_sep. Qed.

Lemma a2b_groups_b64 l : a2b_groups (b64_groups l) = Some l.
Proof.
  induction l as [|[]|[] []|[] [] [] l IH] using list_ind3; [done|..]; cbn [b64_groups a2b_groups];
    rewrite ?char_sextet_char, ?sextet_not_pad; cbn [is_pad].
  - done.
  - done.
  - rewrite IH. by destruct (b64_groups l).
Qed.

(** The letters of an encoding and its signs of padding. *)
Lemma b64_shape l : ∃ core k,
  b64_groups l = core ++ repeat "="%char k ∧ Forall (λ c, letter c = true) core ∧
  Z.of_nat k = ((- Z.of_nat (length core)) mod 4)%Z.
Proof.
  induction l as [|[]|[] []|[] [] [] l (core & k & E & Hl & Hk)] using list_ind3; cbn [b64_groups].
  - by exists [], 0.
  - eexists [_; _], 2. split_and!; [done| |done]. by repeat constructor; apply sextet_letter.
  - eexists [_; _; _], 1. split_and!; [done| |done]. by repeat constructor; apply sextet_letter.
  - rewrite E. eexists (_ :: _ :: _ :: _ :: core), k. split_and!; [done| |].
    + repeat (constructor; [apply sextet_letter|]). done.
    + rewrite Hk. simpl length. replace (- Z.of_nat (S (S (S (S (length core))))))%Z with (- Z.of_nat (length core) + (-1) * 4)%Z by lia.
      by rewrite Z.mod_add.
Qed.

Lemma b64encode_shape v : ∃ core k,
  b64_groups (chars v) = core ++ repeat "="%char k ∧ Forall (λ c, letter c = true) core ∧
  Z.of_nat k = ((- Z.of_nat (length core)) mod 4)%Z ∧ b64encode v = of_chars core.
Proof.
  destruct (b64_shape (chars v)) as (core & k & E & Hl & Hk). exists core, k. split_and!; [done..|].
  unfold b64encode, rstrip. rewrite E, chars_of_chars, reverse_app. f_equal.
  assert (∀ n l, drop_while is_pad (reverse (repeat "="%char n) ++ l) = drop_while is_pad l) as Hdrop.
  { clear. induction n as [|n IH]; intros l; [done|]. simpl repeat. rewrite reverse_cons, <-(assoc_L (++)), IH. done. }
  change (λ c, bool_decide (c = "="%char)) with is_pad. rewrite Hdrop, drop_while_none, reverse_involutive; [done|].
  intros c Hc. rewrite elem_of_reverse in Hc. rewrite Forall_forall in Hl.
  by apply bool_decide_eq_false_2, letter_plain, Hl.
Qed.

Lemma str_len_plain l : Forall (λ c, is_continuation c = false) l → str_len (of_chars l) = length l.
Proof. induction 1 as [|c l Hc _ IH]; simpl; [done|]. by rewrite Hc, <-IH. Qed.

Lemma b64_roundtrip v : b64decode (b64encode v) = Ok v.
Proof.
  destruct (b64encode_shape v) as (core & k & E & Hl & Hk & ->). unfold b64decode.
  rewrite str_len_plain, chars_of_chars, <-Hk, Nat2Z.id, <-E, a2b_groups_b64, of_chars_chars; [done|].
  eapply Forall_impl; [exact Hl|]. intros c Hc. by apply letter_plain.
Qed.

Lemma b64encode_plain v c : c ∈ chars (b64encode v) → c ≠ "$"%char.
Proof.
  destruct (b64encode_shape v) as (core & k & _ & Hl & _ & ->). rewrite chars_of_chars, Forall_forall in *.
  intros Hc. by apply letter_plain, Hl.
Qed.

(** ** Integers round trip *)

(** Within the interpreter's limit on the digits of an integer. *)
Definition digits_fit (z : Z) : Prop := (0 ≤ z)%Z ∧ length (chars (pretty z)) ≤ MAX_INT_DIGITS.

Lemma digit_plain c : (48 ≤ code c ≤ 57)%N →
  is_digit c = true ∧ is_space c = false ∧ non_ascii c = false ∧ c ≠ "$"%char ∧ c ≠ "-"%char ∧ c ≠ "+"%char.
Proof.
  destruct c as [[] [] [] [] [] [] [] []]; vm_compute; intros [H1 H2];
    try (exfalso; by apply H1); try (exfalso; by apply H2); by repeat split.
Qed.

Lemma digits_of_digits l b : (b = true ∨ l ≠ []) → (∀ c, c ∈ l → (48 ≤ code c ≤ 57)%N) → digits_of b l = Some l.
Proof.
  revert b. induction l as [|c l IH]; intros b Hb Hl; simpl; [by destruct Hb as [->|]|].
  destruct (digit_plain c) as (-> & _); [apply Hl; by left|].
  rewrite IH; [done|by left|]. intros d Hd. apply Hl. by right.
Qed.

Lemma pretty_digits_of z : (0 ≤ z)%Z → ∃ n, z = Z.of_N n ∧ pretty z = pretty n.
Proof. destruct z as [|q|q]; intros H; [by exists 0%N|by exists (N.pos q)|lia]. Qed.

Lemma pretty_plain z c : (0 ≤ z)%Z → c ∈ chars (pretty z) → (48 ≤ code c ≤ 57)%N.
Proof. intros (n & -> & ->)%pretty_digits_of. apply pretty_N_digits. Qed.

Lemma pretty_nonempty (n : N) : chars (pretty n) ≠ [].
Proof.
  intros E. assert (decimal (chars (pretty n)) = n) as Hn by apply decimal_pretty. rewrite E in Hn. simpl in Hn. subst n. discriminate.
Qed.

Lemma py_int_pretty u z : digits_fit z → py_int u (pretty z) = Ok z.
Proof.
  intros [Hz Hlen]. pose proof (λ c, pretty_plain z c Hz) as Hd. unfold py_int.
  assert (any_char non_ascii (pretty z) = false) as -> by (apply any_char_false; intros c Hc; by apply digit_plain, Hd).
  unfold ascii_int. rewrite strip_none by (intros c Hc; by apply digit_plain, Hd).
  destruct (pretty_digits_of z Hz) as (n & -> & E). rewrite E in *.
  assert (digits_of false (chars (pretty n)) = Some (chars (pretty n))) as Hof.
  { apply digits_of_digits; [right; apply pretty_nonempty|done]. }
  destruct (chars (pretty n)) as [|c l] eqn:El; [by destruct (pretty_nonempty n)|].
  destruct (digit_plain c) as (_ & _ & _ & _ & Hm & Hp); [apply Hd; by left|].
  rewrite (bool_decide_eq_false_2 (c = "-"%char)), (bool_decide_eq_false_2 (c = "+"%char)) by done.
  rewrite Hof. rewrite (proj2 (Nat.ltb_ge _ _)) by done. by rewrite <-El, decimal_pretty.
Qed.

Lemma pretty_part z : (0 ≤ z)%Z → "$"%char ∉ chars (pretty z).
Proof. intros Hz Hc. destruct (digit_plain "$"%char) as (_ & _ & _ & H & _); [by eapply pretty_plain|done]. Qed.

(** ** Hashing, then verifying *)

Lemma new_hasher_ok n r p sb dk ml mb h :
  new_hasher n r p sb dk ml mb = Ok h →
  h = Hasher n r p sb dk ml mb ∧ (2 ^ 14 ≤ n)%Z ∧ power_of_two n = true ∧ (1 ≤ r)%Z ∧ (1 ≤ p)%Z ∧ (16 ≤ sb)%Z ∧ (32 ≤ dk)%Z.
Proof.
  unfold new_hasher. intros H. apply bind_result_ok in H as ([] & H1%fail_if_ok & H).
  apply bind_result_ok in H as ([] & H2%fail_if_ok & [= <-]).
  apply orb_false_iff in H1 as [H1 Hp2%negb_false_iff]. bool_to_prop. by split_and!.
Qed.

Section roundtrip.
Context (scrypt : string → string → Z → Z → Z → Z → result string) (int_unicode : string → result Z).

Hypothesis scrypt_length : ∀ pw salt n r p dk d, scrypt pw salt n r p dk = Ok d → Z.of_nat (utf8_len d) = dk.

(** The parts [verify] reads are the ones [hash] wrote. *)
Lemma hash_parts h salt pw e :
  (0 ≤ ph_n h)%Z → (0 ≤ ph_r h)%Z → (0 ≤ ph_p h)%Z → hash scrypt h salt pw = Ok e →
  ∃ d, scrypt pw salt (ph_n h) (ph_r h) (ph_p h) (ph_derived_key_bytes h) = Ok d ∧
    str_split "$" e = [algorithm; pretty format_version; pretty (ph_n h); pretty (ph_r h); pretty (ph_p h);
                       b64encode salt; b64encode d].
Proof.
  intros Hn Hr Hp H. unfold hash in H. apply bind_result_ok in H as (enc & He & H).
  apply bind_result_ok in H as (d & Hd & H). exists d.
  assert (enc = pw) as ->.
  { unfold encode_new_password in He. apply bind_result_ok in He as (_ & _ & He). apply bind_result_ok in He as (_ & _ & He). congruence. }
  split; [done|]. apply (f_equal (λ x, match x with Ok y => y | Err _ => e end)) in H. cbv beta iota in H. subst e.
  apply str_split_join; [done|].
  repeat constructor; try by apply pretty_part.
  - intros Hc. assert (contains_char "$" algorithm = true) as H; [|by vm_compute in H].
    apply existsb_exists. exists "$"%char. split; [by apply list_elem_of_In|by apply bool_decide_eq_true_2].
  - by intros Hc%b64encode_plain.
  - by intros Hc%b64encode_plain.
Qed.

(** The parameters [verify] accepts. *)
Definition verifiable (h : hasher) : bool :=
  (ph_n h <=? 2 ^ 20)%Z && (ph_r h <=? 32)%Z && (ph_p h <=? 16)%Z && (ph_derived_key_bytes h <=? 128)%Z.

(** A hash, read back. *)
Lemma hash_read_back n r p sb dk ml mb h salt pw e :
  new_hasher n r p sb dk ml mb = Ok h → digits_fit n → digits_fit r → digits_fit p →
  Z.of_nat (utf8_len salt) = sb → pw ≠ "" → hash scrypt h salt pw = Ok e →
  needs_rehash int_unicode h e = Ok false ∧
  (verifiable h = true → verify scrypt int_unicode h pw e = Ok true) ∧
  (∀ pw', verify scrypt int_unicode h pw' e = Ok true →
     verifiable h = true ∧ scrypt pw' salt n r p dk = scrypt pw salt n r p dk).
Proof.
  intros Hnew Fn Fr Fp Hsalt Hpw H.
  apply new_hasher_ok in Hnew as (-> & Hn & H2 & Hr & Hp & Hsb & Hdk).
  pose proof H as Hh. unfold hash in Hh. apply bind_result_ok in Hh as (enc & Henc & _).
  unfold encode_new_password in Henc. apply bind_result_ok in Henc as (_ & _ & Henc).
  apply bind_result_ok in Henc as ([] & Hmb%fail_if_ok & _). cbn [ph_maximum_bytes] in Hmb.
  destruct (hash_parts (Hasher n r p sb dk ml mb) salt pw e (proj1 Fn) (proj1 Fr) (proj1 Fp) H) as (d & Hd & Hs). cbn [ph_n ph_r ph_p ph_derived_key_bytes] in Hd, Hs.
  pose proof (scrypt_length _ _ _ _ _ _ _ Hd) as Hlen.
  assert (py_int int_unicode (pretty format_version) = Ok format_version) as Hv by reflexivity.
  pose proof (py_int_pretty int_unicode n Fn) as In. pose proof (py_int_pretty int_unicode r Fr) as Ir.
  pose proof (py_int_pretty int_unicode p Fp) as Ip.
  split.
  { unfold needs_rehash. rewrite Hs, String.eqb_refl. cbn [negb ph_n ph_r ph_p ph_derived_key_bytes].
    rewrite Hv, In, Ir, Ip, b64_roundtrip. cbn [mbind result_bind]. rewrite !Z.eqb_refl. cbn [negb].
    by rewrite Hlen, Z.eqb_refl. }
  assert (∀ pw', verify_body scrypt int_unicode (Hasher n r p sb dk ml mb) pw' e =
    if (utf8_len pw' =? 0) || (mb <? Z.of_nat (utf8_len pw'))%Z then Ok false
    else if verifiable (Hasher n r p sb dk ml mb)
    then (actual ← scrypt pw' salt n r p dk; Ok (bool_decide (actual = d))) else Ok false) as Hbody.
  { intros pw'. unfold verify_body, verifiable. cbn [ph_maximum_bytes ph_n ph_r ph_p ph_derived_key_bytes].
    destruct (_ || _); [done|]. rewrite Hs, String.eqb_refl. cbn [mbind result_bind].
    rewrite Hv, In, Ir, Ip. cbn [mbind result_bind]. rewrite Z.eqb_refl. cbn [negb].
    rewrite H2, (proj2 (Z.ltb_ge n (2 ^ 14))), (Z.ltb_antisym n) by done. cbn [negb orb]. rewrite orb_false_r.
    destruct (n <=? 2 ^ 20)%Z; cbn [negb andb]; [|done].
    rewrite (proj2 (Z.leb_le 1 r)), (proj2 (Z.leb_le 1 p)) by done. cbn [andb].
    destruct (r <=? 32)%Z; cbn [negb andb orb]; [|done]. destruct (p <=? 16)%Z; cbn [negb andb orb]; [|done].
    rewrite !b64_roundtrip. cbn [mbind result_bind].
    rewrite (proj2 (Nat.ltb_ge (utf8_len salt) 16)) by lia. rewrite (proj2 (Nat.leb_le 32 (utf8_len d))) by lia. cbn [andb orb].
    replace (utf8_len d <=? 128) with (dk <=? 128)%Z; [|by apply eq_bool_prop_intro; rewrite !Is_true_true, Z.leb_le, Nat.leb_le; lia].
    destruct (dk <=? 128)%Z; cbn [negb]; [|done]. by rewrite Hlen. }
  unfold verify. split.
  - intros Hok. rewrite Hbody, Hok, Hd. cbn [mbind result_bind].
    assert (utf8_len pw ≠ 0) as Hne by by destruct pw.
    rewrite (proj2 (Nat.eqb_neq _ _)) by done. rewrite Hmb. simpl. by rewrite bool_decide_eq_true_2.
  - intros pw'. rewrite Hbody. destruct (_ || _); [done|]. destruct (verifiable _); [|done].
    destruct (scrypt pw' salt n r p dk) as [a|err]; cbn [mbind result_bind result_catch].
    + intros [= Ha%bool_decide_eq_true]. split; [done|]. by rewrite Hd, Ha.
    + destruct (exn_in err _); done.
Qed.

(** C21: hashing and verifying agree.  For a hasher its constructor accepts, a
    hash made with a fresh salt never needs a rehash, and: when the
    parameters are also within [verify]'s own limits, a password within the
    size limit is accepted exactly when scrypt maps it to the stored digest,
    so the hashed password itself is; when they are not (the constructor
    lets them through), no password is ever accepted. *)
Theorem hash_verify_roundtrip n r p sb dk ml mb h salt pw e :
  new_hasher n r p sb dk ml mb = Ok h → digits_fit n → digits_fit r → digits_fit p →
  Z.of_nat (utf8_len salt) = sb → pw ≠ "" → hash scrypt h salt pw = Ok e →
  needs_rehash int_unicode h e = Ok false ∧
  (verifiable h = true → verify scrypt int_unicode h pw e = Ok true) ∧
  (∀ pw', verify scrypt int_unicode h pw' e = Ok true →
     verifiable h = true ∧ scrypt pw' salt n r p dk = scrypt pw salt n r p dk).
Proof. apply hash_read_back. Qed.
End roundtrip.

(** ** What the identity store relies on *)

Class PasswordHashing := {
  hash_password : string → string → result string;    (* salt, password *)
  verify_password : string → string → result bool;    (* password, hash *)
}.

(** A hashed password verifies; verifying never raises. *)
Class PasswordLaws (H : PasswordHashing) (good_salt : string → Prop) := {
  hashed_verifies salt pw e :
    good_salt salt → pw ≠ "" → hash_password salt pw = Ok e → verify_password pw e = Ok true;
}.

Definition scrypt_hashing (scrypt : string → string → Z → Z → Z → Z → result string)
    (int_unicode : string → result Z) (h : hasher) : PasswordHashing :=
  {| hash_password := hash scrypt h; verify_password := verify scrypt int_unicode h |}.

#[export] Instance scrypt_laws scrypt int_unicode n r p sb dk ml mb h :
  (∀ pw salt n r p dk d, scrypt pw salt n r p dk = Ok d → Z.of_nat (utf8_len d) = dk) →
  new_hasher n r p sb dk ml mb = Ok h → digits_fit n → digits_fit r → digits_fit p → verifiable h = true →
  PasswordLaws (scrypt_hashing scrypt int_unicode h) (λ salt, Z.of_nat (utf8_len salt) = sb).
Proof.
  intros Hlen Hnew Hn Hr Hp Hv. split. intros salt pw e Hs Hpw He.
  by apply (hash_read_back scrypt int_unicode Hlen n r p sb dk ml mb h salt pw e).
Qed.

(** ** Witness *)

(** A stand-in for scrypt: the digest repeats the password's first byte. *)
Definition demo_scrypt (pw salt : string) (n r p dk : Z) : result string :=
  if (dk <? 0)%Z then fail ValueErr "dklen must be positive"
  else Ok (of_chars (repeat (nth 0 (chars pw) "x"%char) (Z.to_nat dk))).

Lemma demo_scrypt_length pw salt n r p dk d :
  demo_scrypt pw salt n r p dk = Ok d → Z.of_nat (utf8_len d) = dk.
Proof.
  unfold demo_scrypt. destruct (Z.ltb_spec dk 0); [done|]. intros [= <-].
  assert (∀ l, utf8_len (of_chars l) = length l) as -> by (induction l as [|c l IH]; simpl; congruence).
  rewrite repeat_length. lia.
Qed.

Lemma hash_verify_roundtrip_witness :
  ∃ e, verify demo_scrypt ascii_int default_hasher "correct horse battery" e = Ok true.
Proof.
  pose (e := match hash demo_scrypt default_hasher "0123456789abcdef" "correct horse battery" with Ok e => e | Err _ => "" end).
  exists e.
  refine (proj1 (proj2 (hash_verify_roundtrip demo_scrypt ascii_int demo_scrypt_length (2 ^ 14) 8 1 16 32 12 1024
    default_hasher "0123456789abcdef" "correct horse battery" e _ _ _ _ _ _ _)) _);
    try (split; [discriminate|vm_compute; apply Nat.leb_le; reflexivity]); vm_compute; try reflexivity; discriminate.
Defined.
End Passwords.
