(* ===== verification/Identity.v ===== *)
(** * Users, roles and permissions (identity.py: [IdentityStore])

    The store's file is the state: [None] when it is missing, otherwise the
    roles and users it holds, as pydantic reads them back.  A method that
    takes the file lock is one step.  The identifiers, the salts and the clock
    are arguments; the password hasher is the class [PasswordHashing];
    [unicode_fold] is [strip] and [casefold] of a text with non-ASCII
    characters.  Error messages leave out the values they quote. *)

From Stdlib Require Import Ascii ZArith Lia.
From stdpp Require Import base decidable numbers list strings gmap sets.
From S2P Require Import Prelude PyData Regex JobPayload HashChain Passwords.

Module Identity.
Import HashChain Passwords.

Definition SUPER_ADMIN_ROLE : string := "super_admin".
Definition SUPER_ADMIN_PERMISSION : string := "*".

Definition name_char (extra : string) (c : ascii) : bool := is_lower c || is_digit c || one_of extra c.
Definition ROLE_PATTERN : re := Seq (Chr is_lower) (Rep 1 63 (Chr (name_char "_.-"))).
Definition PERMISSION_PATTERN : re :=
  Seq (Chr is_lower) (Seq (Rep 1 127 (Chr (name_char "_.:-"))) (Opt (Lit ".*"))).

Record RoleRecord : Type := Role { ro_id : string; ro_permissions : gset string; ro_protected : bool }.

Record UserRecord : Type := User {
  u_id : string; u_email : string; u_password_hash : string;
  u_roles : gset string; u_active : bool; u_created_at : Z;
}.

#[global] Instance UserRecord_eq_dec : EqDecision UserRecord.
Proof. solve_decision. Defined.

Definition roles_map : Type := dict string RoleRecord.
Definition users_map : Type := dict string UserRecord.
Definition store : Type := option (roles_map * users_map).

(** ** Validation *)

Definition validate_role_id (v : string) : result string :=
  if fullmatch ROLE_PATTERN v then Ok v else fail ValueErr "invalid role id".
Definition validate_permission (v : string) : result string :=
  if String.eqb v SUPER_ADMIN_PERMISSION then Ok v
  else if fullmatch PERMISSION_PATTERN v then Ok v else fail ValueErr "invalid permission".

Definition require_user (users : users_map) (uid : string) : result UserRecord :=
  match dict_get users uid with Some u => Ok u | None => fail IdentityError "unknown user" end.

Definition utc : datetime → result Z := as_utc_msg "datetime must be timezone-aware".

(** ** Reading and writing *)

Definition active_super_admins (users : users_map) : list UserRecord :=
  List.filter (λ u, u_active u && bool_decide (SUPER_ADMIN_ROLE ∈ u_roles u)) (dict_values users).

Definition require_active_super_admin (users : users_map) : result unit :=
  fail_if (bool_decide (active_super_admins users = [])) IdentityInvariantError
    "at least one active super administrator is required".

Definition super_role : RoleRecord := Role SUPER_ADMIN_ROLE {[ SUPER_ADMIN_PERMISSION ]} true.

Definition setdefault {V} (d : dict string V) (k : string) (v : V) : dict string V :=
  if dict_mem d k then d else dict_set d k v.

Definition read_store (s : store) : result (roles_map * users_map) :=
  let '(roles, users) := or_default s ([], []) in
  let roles := setdefault roles SUPER_ADMIN_ROLE super_role in
  _ ← (match dict_get roles SUPER_ADMIN_ROLE with
       | Some r => fail_if (negb (ro_protected r) || bool_decide (ro_permissions r ≠ {[ SUPER_ADMIN_PERMISSION ]}))
                     IdentityInvariantError "the persisted super-admin role is invalid"
       | None => fail KeyErr SUPER_ADMIN_ROLE
       end);
  _ ← (match users with [] => Ok tt | _ => require_active_super_admin users end);
  Ok (roles, users).

Definition read : M store (roles_map * users_map) := λ s, (read_store s, s).

Definition write (roles : roles_map) (users : users_map) : M store unit :=
  _ ← lift (match users with [] => Ok tt | _ => require_active_super_admin users end);
  put_st (Some (dict_sort roles, dict_sort users)).

Section store.
Context `{PasswordHashing} (unicode_fold : string → string) (dummy_password_hash : string).

(** [email.strip().casefold()]. *)
Definition strip_casefold (email : string) : string :=
  if any_char non_ascii email then unicode_fold email
  else of_chars (lower_char <$> chars (rstrip is_space (lstrip is_space email))).

Definition normalize_email (email : string) : result string :=
  let normalized := strip_casefold email in
  match str_split "@" normalized with
  | [local; domain] =>
      if (254 <? str_len normalized) || String.eqb local "" || String.eqb domain ""
         || negb (contains_char "." domain)
      then fail ValueErr "invalid email address" else Ok normalized
  | _ => fail ValueErr "invalid email address"
  end.

(** ** The operations *)

Definition roles : M store roles_map := r ← read; mret r.1.
Definition users : M store users_map := r ← read; mret r.2.
Definition get_user (uid : string) : M store (option UserRecord) := r ← read; mret (dict_get r.2 uid).
Definition has_active_super_admin : M store bool :=
  r ← read; mret (negb (bool_decide (active_super_admins r.2 = []))).

Definition define_role (role : string) (permissions : list string) : M store RoleRecord :=
  role ← lift (validate_role_id role);
  _ ← raise_if (String.eqb role SUPER_ADMIN_ROLE) IdentityInvariantError "the super-admin role is protected";
  ps ← lift (map_result validate_permission permissions);
  let ps := list_to_set ps : gset string in
  _ ← raise_if (bool_decide (ps = ∅)) ValueErr "a role must contain at least one permission";
  ru ← read;
  let record := Role role ps false in
  _ ← write (dict_set ru.1 role record) ru.2;
  mret record.

Definition new_user (uid salt : string) (clock : Z) (email password : string) (rs : gset string)
    (now : option datetime) : result UserRecord :=
  email ← normalize_email email;
  h ← hash_password salt password;
  at_ ← utc (or_default now (Aware clock));
  Ok (User uid email h rs true at_).

Definition create_first_super_admin (uid salt : string) (clock : Z) (email password : string)
    (now : option datetime) : M store UserRecord :=
  ru ← read;
  _ ← raise_if (negb (bool_decide (ru.2 = []))) IdentityInvariantError
        "the first super administrator already exists";
  user ← lift (new_user uid salt clock email password {[ SUPER_ADMIN_ROLE ]} now);
  _ ← write ru.1 (dict_set ru.2 uid user);
  mret user.

Definition validate_roles (rs : list string) : result (gset string) :=
  l ← map_result validate_role_id rs; Ok (list_to_set l).

Definition unknown_roles (known : roles_map) (rs : gset string) : bool :=
  bool_decide (rs ∖ list_to_set (dict_keys known) ≠ ∅).

Definition create_user (uid salt : string) (clock : Z) (email password : string) (rs : list string)
    (now : option datetime) : M store UserRecord :=
  rs ← lift (validate_roles rs);
  email ← lift (normalize_email email);
  ru ← read;
  _ ← raise_if (bool_decide (active_super_admins ru.2 = [])) IdentityInvariantError
        "create the first super administrator before other users";
  _ ← raise_if (unknown_roles ru.1 rs) ValueErr "unknown roles";
  _ ← raise_if (existsb (λ u, String.eqb (u_email u) email) (dict_values ru.2)) IdentityInvariantError
        "an identity with this email already exists";
  user ← lift (new_user uid salt clock email password rs now);
  _ ← write ru.1 (dict_set ru.2 uid user);
  mret user.

Definition update_user (uid : string) (f : UserRecord → UserRecord) (check : roles_map → result unit) :
    M store UserRecord :=
  ru ← read;
  user ← lift (require_user ru.2 uid);
  _ ← lift (check ru.1);
  let updated := f user in
  let users := dict_set ru.2 uid updated in
  _ ← lift (require_active_super_admin users);
  _ ← write ru.1 users;
  mret updated.

Definition with_roles (rs : gset string) (u : UserRecord) : UserRecord :=
  User (u_id u) (u_email u) (u_password_hash u) rs (u_active u) (u_created_at u).
Definition with_active (active : bool) (u : UserRecord) : UserRecord :=
  User (u_id u) (u_email u) (u_password_hash u) (u_roles u) active (u_created_at u).

Definition set_roles (uid : string) (rs : list string) : M store UserRecord :=
  rs ← lift (validate_roles rs);
  update_user uid (with_roles rs) (λ known, fail_if (unknown_roles known rs) ValueErr "unknown roles").

Definition set_active (uid : string) (active : bool) : M store UserRecord :=
  update_user uid (with_active active) (λ _, Ok tt).

(** One hash is verified whether or not the user exists and is active. *)
Definition authenticate (email password : string) : M store UserRecord :=
  email ← lift (normalize_email email);
  ru ← read;
  let user := List.find (λ u, String.eqb (u_email u) email) (dict_values ru.2) in
  let candidate := match user with
                   | Some u => if u_active u then u_password_hash u else dummy_password_hash
                   | None => dummy_password_hash
                   end in
  verified ← lift (verify_password password candidate);
  match user with
  | Some u => if u_active u && verified then mret u else raise AuthenticationError "invalid credentials"
  | None => raise AuthenticationError "invalid credentials"
  end.

Definition permissions_for (uid : string) : M store (gset string) :=
  ru ← read;
  user ← lift (require_user ru.2 uid);
  if negb (u_active user) then mret (∅ : gset string)
  else lift (fold_result (λ (ps : gset string) role,
               match dict_get ru.1 role with
               | Some r => Ok (ps ∪ ro_permissions r)
               | None => fail IdentityInvariantError "user references unknown role"
               end) ∅ (elements (u_roles user))).

(** [permission], or one of its wildcards [parts[:index] + ".*"], is granted. *)
Definition granted_by (granted : gset string) (permission : string) : bool :=
  bool_decide (SUPER_ADMIN_PERMISSION ∈ granted) || bool_decide (permission ∈ granted) ||
  (let parts := str_split "." permission in
   existsb (λ i, bool_decide (str_join "." (take i parts) +:+ ".*" ∈ granted)) (seq 1 (length parts - 1))).

Definition has_permission (uid permission : string) : M store bool :=
  permission ← lift (validate_permission permission);
  granted ← permissions_for uid;
  mret (granted_by granted permission).

Definition require_permission (uid permission : string) : M store unit :=
  ok ← has_permission uid permission;
  raise_if (negb ok) AuthorizationError "permission denied".
End store.

(** ** What a store holds *)

Record good (roles : roles_map) (users : users_map) : Prop := {
  g_roles_wf : dict_wf roles;
  g_users_wf : dict_wf users;
  g_super : dict_get roles SUPER_ADMIN_ROLE = Some super_role;
  g_admin : users ≠ [] → ∃ uid u, dict_get users uid = Some u ∧ u_active u = true ∧ SUPER_ADMIN_ROLE ∈ u_roles u;
  g_known : ∀ uid u r, dict_get users uid = Some u → r ∈ u_roles u → is_Some (dict_get roles r);
  g_email : ∀ i j u v, dict_get users i = Some u → dict_get users j = Some v → u_email u = u_email v → i = j;
}.

(** The file verifies, and what it holds is good. *)
Definition store_ok (s : store) : Prop := ∃ roles users, read_store s = Ok (roles, users) ∧ good roles users.

Lemma active_super_admins_nil users :
  dict_wf users →
  active_super_admins users ≠ [] ↔ ∃ uid u, dict_get users uid = Some u ∧ u_active u = true ∧ SUPER_ADMIN_ROLE ∈ u_roles u.
Proof.
  intros Hwf. unfold active_super_admins. split.
  - destruct (List.filter _ _) as [|u l] eqn:E; [done|]. intros _.
    assert (u ∈ u :: l) as Hu by by left. rewrite <-E in Hu. apply list_elem_of_In, filter_In in Hu as [Hu Hb].
    apply list_elem_of_In, list_elem_of_fmap in Hu as ([uid u'] & -> & Hin). bool_to_prop.
    exists uid, u'. split; [by apply dict_get_in|]. done.
  - intros (uid & u & Hu & Ha & Hr) Hnil. cut (u ∈ @nil UserRecord); [apply not_elem_of_nil|]. rewrite <-Hnil.
    apply list_elem_of_In, filter_In. split; [|by rewrite Ha, bool_decide_eq_true_2].
    apply list_elem_of_In, list_elem_of_fmap. exists (uid, u). split; [done|by apply dict_get_Some_in].
Qed.

Lemma require_admin_ok users u : dict_wf users →
  require_active_super_admin users = Ok u ↔
  ∃ uid u, dict_get users uid = Some u ∧ u_active u = true ∧ SUPER_ADMIN_ROLE ∈ u_roles u.
Proof.
  intros Hwf. unfold require_active_super_admin. rewrite fail_if_ok, bool_decide_eq_false.
  by apply active_super_admins_nil.
Qed.

Lemma require_admin_good roles users : good roles users →
  (match users with [] => Ok tt | _ => require_active_super_admin users end) = Ok tt.
Proof.
  intros Hg. destruct users as [|x l] eqn:E; [done|]. rewrite <-E in *. apply require_admin_ok; [apply Hg|].
  apply Hg. by rewrite E.
Qed.

Lemma good_sort roles users : good roles users → good (dict_sort roles) (dict_sort users).
Proof.
  intros [H1 H2 H3 H4 H5 H6]. split; rewrite ?dict_get_sort; auto with pydata.
  - intros Hne. destruct H4 as (uid & u & Hu); [by intros ->|]. exists uid, u. by rewrite dict_get_sort.
  - intros uid u r. rewrite !dict_get_sort by done. apply H5.
  - intros i j u v. rewrite !dict_get_sort by done. apply H6.
Qed.

Lemma read_write roles users : good roles users → read_store (Some (dict_sort roles, dict_sort users)) = Ok (dict_sort roles, dict_sort users).
Proof.
  intros Hg. unfold read_store. cbn [or_default].
  pose proof (good_sort _ _ Hg) as Hs.
  unfold setdefault, dict_mem. rewrite (g_super _ _ Hs). rewrite (g_super _ _ Hs). simpl negb.
  rewrite neq_self. cbn [orb fail_if mbind result_bind]. by rewrite (require_admin_good _ _ Hs).
Qed.

Lemma store_ok_none : store_ok None.
Proof.
  exists [(SUPER_ADMIN_ROLE, super_role)], []. split; [by vm_compute|].
  split; [repeat constructor; apply not_elem_of_nil|apply dict_wf_nil|done..].
Qed.

Lemma run_write_store roles users s : good roles users →
  write roles users s = (Ok tt, Some (dict_sort roles, dict_sort users)).
Proof. intros Hg. unfold write. by rewrite (require_admin_good _ _ Hg). Qed.

Lemma write_err roles users s e s' : write roles users s = (Err e, s') → s' = s.
Proof. unfold write. destruct (match users with [] => _ | _ => _ end); by intros [= _ <-]. Qed.

Lemma dict_set_nonempty {V} (d : dict string V) k v : dict_set d k v ≠ [].
Proof. destruct d as [|[k' v'] d]; simpl; [done|]. by destruct (decide _). Qed.

Lemma write_ok roles users s s' : users ≠ [] → dict_wf users → write roles users s = (Ok tt, s') →
  (∃ uid u, dict_get users uid = Some u ∧ u_active u = true ∧ SUPER_ADMIN_ROLE ∈ u_roles u) ∧
  s' = Some (dict_sort roles, dict_sort users).
Proof.
  intros Hne Hwf. unfold write. rewrite run_bind_lift. destruct users as [|x l] eqn:Eu; [done|]. rewrite <-Eu in *.
  destruct (require_active_super_admin users) as [u|] eqn:E; [|done]. intros [= <-]. by apply require_admin_ok in E.
Qed.

Lemma store_ok_write roles users : good roles users → store_ok (Some (dict_sort roles, dict_sort users)).
Proof. intros Hg. exists (dict_sort roles), (dict_sort users). split; [by apply read_write|by apply good_sort]. Qed.

Lemma run_read_store {A} s roles users (k : roles_map * users_map → M store A) :
  read_store s = Ok (roles, users) → (read ≫= k) s = k (roles, users) s.
Proof. intros H. rewrite run_bind. unfold read. by rewrite H. Qed.

(** Adding or changing a user. *)
Lemma good_set_user roles users uid u :
  good roles users → (∀ r, r ∈ u_roles u → is_Some (dict_get roles r)) →
  (∀ j v, dict_get users j = Some v → u_email v = u_email u → j = uid) →
  (∃ j v, dict_get (dict_set users uid u) j = Some v ∧ u_active v = true ∧ SUPER_ADMIN_ROLE ∈ u_roles v) →
  good roles (dict_set users uid u).
Proof.
  intros [H1 H2 H3 H4 H5 H6] Hr He Ha. split; auto with pydata.
  - intros j v r. rewrite dict_get_set. destruct (decide _) as [<-|]; [intros [= <-]; apply Hr|apply H5].
  - intros i j v w. rewrite !dict_get_set.
    destruct (decide (uid = i)) as [<-|Hi], (decide (uid = j)) as [<-|Hj]; [done|..|apply H6].
    + intros [= <-] Hw E. symmetry. by eapply He.
    + intros Hv [= <-] E. by eapply He.
Qed.

Lemma good_set_role roles users r record :
  good roles users → r ≠ SUPER_ADMIN_ROLE → good (dict_set roles r record) users.
Proof.
  intros [H1 H2 H3 H4 H5 H6] Hne. split; auto with pydata.
  - by rewrite dict_get_set_ne.
  - intros uid u r' Hu Hr. rewrite dict_get_set. destruct (decide _); [by eexists|by eapply H5].
Qed.

Lemma unknown_roles_false known rs : unknown_roles known rs = false → ∀ r, r ∈ rs → is_Some (dict_get known r).
Proof.
  unfold unknown_roles. rewrite bool_decide_eq_false. intros H%dec_stable r Hr.
  destruct (dict_get known r) eqn:E; [by eexists|]. apply dict_get_None in E.
  assert (r ∈ (∅ : gset string)) as Hin; [|set_solver]. rewrite <-H. apply elem_of_difference. split; [done|].
  by rewrite elem_of_list_to_set.
Qed.

(** ** Every operation keeps the store good *)

Section operations.
Context `{Hashing : PasswordHashing} (unicode_fold : string → string) (dummy_password_hash : string).

Hypothesis fold_idempotent : ∀ s, any_char non_ascii s = true →
  strip_casefold unicode_fold (unicode_fold s) = unicode_fold s.

Lemma lower_space c : non_ascii c = false → is_space (lower_char c) = is_space c ∧ non_ascii (lower_char c) = false ∧
  lower_char (lower_char c) = lower_char c.
Proof. destruct c as [[] [] [] [] [] [] [] []]; intros H; vm_compute in H; try discriminate H; by repeat split. Qed.

Lemma drop_while_suffix {A} (p : A → bool) l : ∃ l1, l = l1 ++ drop_while p l.
Proof.
  induction l as [|x l [l1 IH]]; [by exists []|]. simpl. destruct (p x); [|by exists []].
  exists (x :: l1). simpl. by rewrite <-IH.
Qed.

Lemma drop_while_head {A} (p : A → bool) l x l' : drop_while p l = x :: l' → p x = false.
Proof. induction l as [|y l IH]; [done|]. simpl. destruct (p y) eqn:E; [done|]. by intros [= <- <-]. Qed.

(** What is left by [strip] has no space at its ends. *)
Lemma strip_ends s : let l := chars (rstrip is_space (lstrip is_space s)) in
  (∀ c, c ∈ l → c ∈ chars s) ∧ drop_while is_space l = l ∧ drop_while is_space (reverse l) = reverse l.
Proof.
  unfold rstrip, lstrip. cbv zeta. rewrite !chars_of_chars.
  set (m := drop_while is_space (chars s)). set (d := drop_while is_space (reverse m)).
  destruct (drop_while_suffix is_space (chars s)) as [l1 E1]. fold m in E1.
  destruct (drop_while_suffix is_space (reverse m)) as [l2 E2]. fold d in E2.
  assert (m = reverse d ++ reverse l2) as Em by by rewrite <-reverse_app, <-E2, reverse_involutive.
  split_and!.
  - intros c Hc. rewrite E1, Em. set_solver.
  - destruct (reverse d) as [|c l] eqn:Ed; [done|]. simpl.
    assert (is_space c = false) as ->; [|done]. apply (drop_while_head is_space (chars s) c (l ++ reverse l2)).
    fold m. by rewrite Em.
  - rewrite reverse_involutive. destruct d as [|c l] eqn:Ed; [done|]. simpl.
    assert (is_space c = false) as ->; [|done]. by eapply drop_while_head.
Qed.

Lemma drop_while_fmap {A} (p : A → bool) (f : A → A) l :
  (∀ c, c ∈ l → p (f c) = p c) → drop_while p (f <$> l) = f <$> drop_while p l.
Proof.
  induction l as [|c l IH]; intros H; [done|]. csimpl. rewrite H by by left.
  destruct (p c); [|done]. apply IH. intros d Hd. apply H. by right.
Qed.

Lemma strip_casefold_idempotent s : strip_casefold unicode_fold (strip_casefold unicode_fold s) = strip_casefold unicode_fold s.
Proof.
  unfold strip_casefold at 2 3. destruct (any_char non_ascii s) eqn:E; [by apply fold_idempotent|].
  rewrite any_char_false in E. destruct (strip_ends s) as (Hin & Hl & Hr). cbv zeta in *.
  set (l := chars (rstrip is_space (lstrip is_space s))) in *.
  assert (∀ c, c ∈ l → non_ascii c = false) as Ha by (intros c Hc; by apply E, Hin).
  unfold strip_casefold. assert (any_char non_ascii (of_chars (lower_char <$> l)) = false) as ->.
  { apply any_char_false. rewrite chars_of_chars. intros c (d & -> & Hd)%list_elem_of_fmap. by apply lower_space, Ha. }
  unfold rstrip, lstrip. rewrite !chars_of_chars.
  rewrite drop_while_fmap by (intros c Hc; by apply lower_space, Ha). rewrite Hl, <-fmap_reverse.
  rewrite drop_while_fmap by (intros c Hc; apply lower_space, Ha; by rewrite elem_of_reverse in Hc).
  rewrite Hr, <-fmap_reverse, reverse_involutive. f_equal. rewrite <-list_fmap_compose. apply list_fmap_ext.
  intros i c Hc. by apply lower_space, Ha, list_elem_of_lookup_2 with i.
Qed.

Lemma normalize_email_ok e m :
  normalize_email unicode_fold e = Ok m → m = strip_casefold unicode_fold e ∧ normalize_email unicode_fold m = Ok m.
Proof.
  unfold normalize_email. intros H.
  assert (m = strip_casefold unicode_fold e) as ->.
  { destruct (str_split "@" _) as [|local [|domain [|]]]; try done. destruct (_ || _ || _ || _); [done|congruence]. }
  split; [done|]. by rewrite strip_casefold_idempotent.
Qed.

Lemma new_user_ok uid salt clock e p rs now u :
  new_user unicode_fold uid salt clock e p rs now = Ok u →
  u_id u = uid ∧ normalize_email unicode_fold e = Ok (u_email u) ∧ hash_password salt p = Ok (u_password_hash u) ∧
  u_roles u = rs ∧ u_active u = true.
Proof.
  unfold new_user. intros (m & Hm & H)%bind_result_ok. apply bind_result_ok in H as (h & Hh & H).
  apply bind_result_ok in H as (t & _ & [= <-]). done.
Qed.

(** Some user is stored. *)
Definition inhabited (s : store) : Prop := ∃ roles users, read_store s = Ok (roles, users) ∧ users ≠ [].

(** Each operation raises and writes nothing, or writes a good store that
    loses no last user. *)
Definition writes_good {A} (m : M store A) : Prop := ∀ s, store_ok s →
  (∃ e, m s = (Err e, s)) ∨ ∃ a s', m s = (Ok a, s') ∧ store_ok s' ∧ (inhabited s → inhabited s').

Lemma inhabited_write roles users : good roles users → users ≠ [] → inhabited (Some (dict_sort roles, dict_sort users)).
Proof.
  intros Hg Hne. eexists _, _. split; [by apply read_write|]. by intros E%sort_by_nil_inv.
Qed.

Lemma define_role_good role ps : writes_good (define_role role ps).
Proof.
  intros s (roles & users & Hr & Hg). unfold define_role.
  destruct (validate_role_id role) as [r|e]; [|left; by eexists]. rewrite run_bind_lift.
  unfold raise_if. rewrite run_bind_lift. destruct (String.eqb r SUPER_ADMIN_ROLE) eqn:En; [left; by eexists|].
  cbn [fail_if]. rewrite run_bind_lift. destruct (map_result validate_permission ps) as [l|e]; [|left; by eexists].
  rewrite run_bind_lift. destruct (fail_if _ _ _) as [[]|e]; [|left; by eexists].
  rewrite (run_read_store _ _ _ _ Hr). cbn [fst snd]. right.
  apply String.eqb_neq in En. pose proof (good_set_role roles users r (Role r (list_to_set l) false) Hg En) as Hg'.
  rewrite run_bind, (run_write_store _ _ _ Hg'). do 2 eexists. split_and!; [done|by apply store_ok_write|].
  intros (ro & us & Hr' & Hne). rewrite Hr in Hr'. injection Hr' as <- <-. by apply inhabited_write.
Qed.

Lemma create_first_good uid salt clock e p now :
  writes_good (create_first_super_admin unicode_fold uid salt clock e p now).
Proof.
  intros s (roles & users & Hr & Hg). unfold create_first_super_admin.
  rewrite (run_read_store _ _ _ _ Hr). cbn [fst snd]. unfold raise_if. rewrite run_bind_lift.
  destruct (bool_decide _) eqn:En; [|left; by eexists]. apply bool_decide_eq_true in En. subst users.
  cbn [negb fail_if]. rewrite run_bind_lift.
  destruct (new_user _ _ _ _ _ _ _ _) as [u|err] eqn:Eu; [|left; by eexists]. right.
  apply new_user_ok in Eu as (_ & _ & _ & Hro & Hac).
  assert (good roles (dict_set [] uid u)) as Hg'.
  { apply good_set_user; [done|..].
    - rewrite Hro. intros r ->%elem_of_singleton. eexists. apply Hg.
    - done.
    - exists uid, u. rewrite dict_get_set_eq, Hro. split_and!; [done|done|by apply elem_of_singleton]. }
  rewrite run_bind, (run_write_store _ _ _ Hg'). do 2 eexists. split_and!; [done|by apply store_ok_write|].
  intros _. apply inhabited_write; [done|apply dict_set_nonempty].
Qed.

Lemma create_user_run uid salt clock e p rs now s roles users :
  read_store s = Ok (roles, users) → good roles users →
  (∃ err, create_user unicode_fold uid salt clock e p rs now s = (Err err, s)) ∨
  ∃ u, create_user unicode_fold uid salt clock e p rs now s = (Ok u, Some (dict_sort roles, dict_sort (dict_set users uid u))) ∧
    good roles (dict_set users uid u) ∧ u_active u = true ∧
    normalize_email unicode_fold e = Ok (u_email u) ∧ hash_password salt p = Ok (u_password_hash u) ∧
    ∀ j v, dict_get users j = Some v → u_email v ≠ u_email u.
Proof.
  intros Hr Hg. unfold create_user.
  destruct (validate_roles rs) as [l|err]; [|left; by eexists]. rewrite run_bind_lift.
  destruct (normalize_email unicode_fold e) as [m|err] eqn:Em; [|left; by eexists]. rewrite run_bind_lift.
  rewrite (run_read_store _ _ _ _ Hr). cbn [fst snd]. unfold raise_if. rewrite run_bind_lift.
  destruct (bool_decide _) eqn:Ea; [left; by eexists|]. cbn [fail_if].
  rewrite run_bind_lift. destruct (unknown_roles roles l) eqn:Ek; [left; by eexists|]. cbn [fail_if].
  rewrite run_bind_lift. destruct (existsb _ _) eqn:Ex; [left; by eexists|]. cbn [fail_if].
  rewrite run_bind_lift.
  destruct (new_user _ _ _ _ _ _ _ _) as [u|err] eqn:Eu; [|left; by eexists].
  apply new_user_ok in Eu as (_ & Hu & Hh & Hro & Hac). apply normalize_email_ok in Em as [_ Em].
  assert (m = u_email u) as -> by congruence.
  assert (∀ j v, dict_get users j = Some v → u_email v ≠ u_email u) as Hfresh.
  { intros j v Hv E. assert (existsb (λ u0, String.eqb (u_email u0) (u_email u)) (dict_values users) = true) as H; [|congruence].
    apply existsb_exists. exists v. split; [|by apply String.eqb_eq].
    apply list_elem_of_In, list_elem_of_fmap. exists (j, v). split; [done|by apply dict_get_Some_in]. }
  destruct (write roles (dict_set users uid u) s) as [[[]|err] s'] eqn:Ew.
  - right. apply write_ok in Ew as (Hadm & ->); [|apply dict_set_nonempty|by apply dict_wf_set, Hg].
    assert (good roles (dict_set users uid u)) as Hg'.
    { apply good_set_user; [done| |by intros j v Hv E; destruct (Hfresh j v)|done].
      rewrite Hro. by apply unknown_roles_false. }
    exists u. rewrite run_bind. unfold write. rewrite (require_admin_good _ _ Hg'). by split_and!.
  - left. exists err. rewrite run_bind, Ew. apply write_err in Ew. by subst s'.
Qed.

Lemma update_user_run uid f check s roles users :
  read_store s = Ok (roles, users) → good roles users →
  (∀ u, u_email (f u) = u_email u) →
  (∀ u r, check roles = Ok tt → dict_get users uid = Some u → r ∈ u_roles (f u) → is_Some (dict_get roles r)) →
  (∃ err, update_user uid f check s = (Err err, s)) ∨
  ∃ u, dict_get users uid = Some u ∧
    update_user uid f check s = (Ok (f u), Some (dict_sort roles, dict_sort (dict_set users uid (f u)))) ∧
    good roles (dict_set users uid (f u)).
Proof.
  intros Hr Hg He Hk. unfold update_user. rewrite (run_read_store _ _ _ _ Hr). cbn [fst snd]. rewrite run_bind_lift.
  unfold require_user. destruct (dict_get users uid) as [u|] eqn:Eu; [|left; by eexists].
  rewrite run_bind_lift. destruct (check roles) as [[]|] eqn:Ec; [|left; by eexists]. rewrite run_bind_lift.
  destruct (require_active_super_admin _) as [[]|] eqn:Ea; [|left; by eexists].
  apply require_admin_ok in Ea; [|by apply dict_wf_set, Hg]. right. exists u. split; [done|].
  assert (good roles (dict_set users uid (f u))) as Hg'.
  { apply good_set_user; [done|by intros r; apply Hk| |done].
    intros j v Hv E. rewrite He in E. by eapply (g_email _ _ Hg). }
  rewrite run_bind, (run_write_store _ _ _ Hg'). done.
Qed.

Lemma set_roles_good uid rs : writes_good (set_roles uid rs).
Proof.
  intros s (roles & users & Hr & Hg). unfold set_roles.
  destruct (validate_roles rs) as [l|err]; [|left; by eexists]. rewrite run_bind_lift.
  destruct (update_user_run uid (with_roles l) (λ known, fail_if (unknown_roles known l) ValueErr "unknown roles")
    s roles users Hr Hg) as [H|(u & _ & E & Hg')]; [done| |by left|].
  - intros u r H%fail_if_ok _. by apply unknown_roles_false.
  - right. rewrite E. do 2 eexists. split_and!; [done|by apply store_ok_write|].
  intros _. apply inhabited_write; [done|apply dict_set_nonempty].
Qed.

Lemma set_active_good uid active : writes_good (set_active uid active).
Proof.
  intros s (roles & users & Hr & Hg). unfold set_active.
  destruct (update_user_run uid (with_active active) (λ _, Ok tt) s roles users Hr Hg)
    as [H|(u & _ & E & Hg')]; [done| |by left|].
  - intros u r _ Hu. by apply (g_known _ _ Hg _ _ _ Hu).
  - right. rewrite E. do 2 eexists. split_and!; [done|by apply store_ok_write|].
  intros _. apply inhabited_write; [done|apply dict_set_nonempty].
Qed.

Lemma create_user_good uid salt clock e p rs now : writes_good (create_user unicode_fold uid salt clock e p rs now).
Proof.
  intros s (roles & users & Hr & Hg).
  destruct (create_user_run uid salt clock e p rs now s roles users Hr Hg) as [H|(u & E & Hg' & _)]; [by left|].
  right. rewrite E. do 2 eexists. split_and!; [done|by apply store_ok_write|].
  intros _. apply inhabited_write; [done|apply dict_set_nonempty].
Qed.

(** ** Runs *)

Inductive op : Type :=
  | OpDefineRole (role : string) (permissions : list string)
  | OpCreateFirst (uid salt : string) (clock : Z) (email password : string) (now : option datetime)
  | OpCreateUser (uid salt : string) (clock : Z) (email password : string) (rs : list string) (now : option datetime)
  | OpSetRoles (uid : string) (rs : list string)
  | OpSetActive (uid : string) (active : bool).

Definition apply_op (o : op) : store → store :=
  match o with
  | OpDefineRole r ps => post (define_role r ps)
  | OpCreateFirst i t c e p n => post (create_first_super_admin unicode_fold i t c e p n)
  | OpCreateUser i t c e p r n => post (create_user unicode_fold i t c e p r n)
  | OpSetRoles i r => post (set_roles i r)
  | OpSetActive i a => post (set_active i a)
  end.

Definition run (ops : list op) (s : store) : store := foldl (λ s o, apply_op o s) s ops.

Lemma writes_good_post {A} (m : M store A) s :
  writes_good m → store_ok s → store_ok (post m s) ∧ (inhabited s → inhabited (post m s)).
Proof. intros Hm Hs. unfold post. destruct (Hm s Hs) as [[e ->]|(a & s' & -> & H)]; done. Qed.

Lemma run_ok ops s : store_ok s → store_ok (run ops s) ∧ (inhabited s → inhabited (run ops s)).
Proof.
  revert s. induction ops as [|o ops IH]; intros s Hs; [done|].
  assert (store_ok (apply_op o s) ∧ (inhabited s → inhabited (apply_op o s))) as [H1 H2].
  { destruct o; apply writes_good_post; auto using define_role_good, create_first_good, create_user_good, set_roles_good, set_active_good. }
  destruct (IH _ H1) as [H3 H4]. split; [done|]. auto.
Qed.

(** ** Permissions *)

Lemma run_permissions s roles users uid u :
  read_store s = Ok (roles, users) → good roles users → dict_get users uid = Some u →
  ∃ ps, permissions_for uid s = (Ok ps, s) ∧
    ∀ g, g ∈ ps ↔ u_active u = true ∧ ∃ r record, r ∈ u_roles u ∧ dict_get roles r = Some record ∧ g ∈ ro_permissions record.
Proof.
  intros Hr Hg Hu. unfold permissions_for. rewrite (run_read_store _ _ _ _ Hr). cbn [fst snd]. rewrite run_bind_lift.
  unfold require_user. rewrite Hu. destruct (u_active u); cbn [negb].
  2:{ exists ∅. split; [done|]. set_solver. }
  assert (∀ l ps, (∀ r, r ∈ l → r ∈ u_roles u) → ∃ qs, fold_result (λ (ps : gset string) role,
      match dict_get roles role with
      | Some r => Ok (ps ∪ ro_permissions r)
      | None => fail IdentityInvariantError "user references unknown role"
      end) ps l = Ok qs ∧
    ∀ g, g ∈ qs ↔ g ∈ ps ∨ ∃ r record, r ∈ l ∧ dict_get roles r = Some record ∧ g ∈ ro_permissions record) as H.
  { induction l as [|r l IH]; intros ps Hl; simpl; [exists ps; set_solver|].
    destruct (g_known _ _ Hg uid u r Hu) as [record Hrec]; [apply Hl; by left|]. rewrite Hrec. simpl.
    destruct (IH (ps ∪ ro_permissions record)) as (qs & -> & Hqs); [set_solver|]. exists qs. split; [done|].
    intros g. rewrite Hqs, elem_of_union. split.
    - intros [[?|?]|(r' & rec' & ? & ? & ?)]; [by left|right..]; [exists r, record|exists r', rec']; split_and!; try done; [by left|by right].
    - intros [?|(r' & rec' & [->|?]%elem_of_cons & Hrec' & ?)]; [by left; left| |].
      + left. right. by rewrite Hrec in Hrec'; injection Hrec' as <-.
      + right. by exists r', rec'. }
  destruct (H (elements (u_roles u)) ∅) as (qs & E & Hqs); [by intros r ?%elem_of_elements|].
  exists qs. unfold lift. rewrite E. split; [done|]. intros g. rewrite Hqs. split.
  - intros [?%not_elem_of_empty|(r & record & ?%elem_of_elements & ?)]; [done|]. split; [done|by exists r, record].
  - intros (_ & r & record & ? & ?). right. exists r, record. by rewrite elem_of_elements.
Qed.

(** The reference: a granted permission covers a requested one. *)
Definition covers (g permission : string) : Prop :=
  g = SUPER_ADMIN_PERMISSION ∨ g = permission ∨
  ∃ p rest, permission = p +:+ "." +:+ rest ∧ g = p +:+ ".*".

Lemma split_app sep p r : str_split sep (p +:+ String sep r) = str_split sep p ++ str_split sep r.
Proof.
  unfold str_split. rewrite chars_app. change (chars (String sep r)) with (sep :: chars r). rewrite <-fmap_app. f_equal.
  generalize (@nil ascii) at 1 2. induction (chars p) as [|c l IH]; intros cur; simpl; [by rewrite decide_True|].
  destruct (decide (c = sep)); simpl; [by rewrite IH|apply IH].
Qed.

Lemma split_nonempty sep p : str_split sep p ≠ [].
Proof.
  unfold str_split. intros E%fmap_nil_inv. revert E. generalize (@nil ascii). induction (chars p) as [|c l IH]; intros cur; simpl; [done|].
  destruct (decide _); [done|apply IH].
Qed.

Lemma join_app sep a b : a ≠ [] → b ≠ [] →
  str_join (String sep "") (a ++ b) = str_join (String sep "") a +:+ String sep (str_join (String sep "") b).
Proof.
  unfold str_join. induction a as [|x a IH]; intros Ha Hb; [done|]. destruct a as [|y a].
  - destruct b as [|z b]; [done|]. done.
  - change (String.concat (String sep "") ((x :: y :: a) ++ b)) with (x +:+ String sep (String.concat (String sep "") ((y :: a) ++ b))).
    rewrite IH by done. change (String.concat (String sep "") (x :: y :: a)) with (x +:+ String sep (String.concat (String sep "") (y :: a))).
    exact (str_app_assoc x (String sep (String.concat (String sep "") (y :: a))) (String sep (String.concat (String sep "") b))).
Qed.

Lemma granted_by_covers granted permission :
  granted_by granted permission = true ↔ ∃ g, g ∈ granted ∧ covers g permission.
Proof.
  unfold granted_by, covers. rewrite !orb_true_iff, !bool_decide_eq_true. split.
  - intros [[H|H]|H]; [by eexists; eauto..|]. apply existsb_exists in H as (i & Hi & H%bool_decide_eq_true).
    apply in_seq in Hi. exists (str_join "." (take i (str_split "." permission)) +:+ ".*"). split; [done|]. right. right.
    exists (str_join "." (take i (str_split "." permission))), (str_join "." (drop i (str_split "." permission))).
    split; [|done]. rewrite <-(str_join_split "." permission) at 1.
    rewrite <-(take_drop i (str_split "." permission)) at 1. apply join_app; intros E%(f_equal length);
      rewrite ?length_take, ?length_drop in E; simpl in E; lia.
  - intros (g & Hg & [->|[->|(p & rest & -> & ->)]]); [by left; left|by left; right|]. right.
    apply existsb_exists. exists (length (str_split "." p)).
    change (p +:+ "." +:+ rest) with (p +:+ String "." rest). rewrite split_app, length_app.
    assert (0 < length (str_split "." p) ∧ 0 < length (str_split "." rest)) as [H1 H2].
    { pose proof (split_nonempty "." p). pose proof (split_nonempty "." rest). by destruct (str_split "." p), (str_split "." rest); simpl; try lia. }
    split; [apply in_seq; lia|]. apply bool_decide_eq_true_2. by rewrite take_app_length, str_join_split.
Qed.

(** ** Logging in *)

Lemma find_email roles users m u :
  good roles users →
  List.find (λ u, String.eqb (u_email u) m) (dict_values users) = Some u ↔
  u_email u = m ∧ ∃ uid, dict_get users uid = Some u.
Proof.
  intros Hg. split.
  - intros [Hin Hm%String.eqb_eq]%find_some. split; [done|].
    apply list_elem_of_In, list_elem_of_fmap in Hin as ([uid u'] & -> & Hin). exists uid. by apply dict_get_in; [apply Hg|].
  - intros (Hm & uid & Hu). destruct (List.find _ _) as [v|] eqn:E.
    + apply find_some in E as [Hin Hv%String.eqb_eq].
      apply list_elem_of_In, list_elem_of_fmap in Hin as ([j v'] & -> & Hin). apply dict_get_in in Hin; [|apply Hg].
      simpl in *. assert (j = uid) as -> by (apply (g_email _ _ Hg j uid v' u Hin Hu); congruence). congruence.
    + apply (find_none _ _) with (x := u) in E; [by rewrite Hm, String.eqb_refl in E|].
      apply list_elem_of_In, list_elem_of_fmap. exists (uid, u). split; [done|by apply dict_get_Some_in].
Qed.

Lemma authenticate_cases s roles users email m password :
  read_store s = Ok (roles, users) → good roles users → normalize_email unicode_fold email = Ok m →
  (∀ h, is_ok (verify_password password h) = true) →
  let accepted u := u_email u = m ∧ (∃ uid, dict_get users uid = Some u) ∧ u_active u = true ∧
                    verify_password password (u_password_hash u) = Ok true in
  (∃ u, accepted u ∧ authenticate unicode_fold dummy_password_hash email password s = (Ok u, s)) ∨
  ((∀ u, ¬ accepted u) ∧ authenticate unicode_fold dummy_password_hash email password s =
     (fail AuthenticationError "invalid credentials", s)).
Proof.
  intros Hr Hg Hm Hv accepted. unfold authenticate. rewrite Hm, run_bind_lift, (run_read_store _ _ _ _ Hr).
  cbn [fst snd]. destruct (List.find _ _) as [u|] eqn:E.
  - rewrite run_bind_lift. pose proof (Hv (if u_active u then u_password_hash u else dummy_password_hash)) as Hok.
    destruct (verify_password password (if u_active u then _ else _)) as [b|] eqn:Eb; [|done].
    assert (∀ v, accepted v → v = u) as Hu.
    { intros v (He & Hv' & _). assert (List.find (λ u, String.eqb (u_email u) m) (dict_values users) = Some v) by (apply (find_email roles); done).
      congruence. }
    apply (find_email roles) in E; [|done]. destruct E as (He & Hget).
    destruct (u_active u) eqn:Ea; [destruct b|]; cbn [andb]; [left; by exists u|right; split; [|done]..];
      intros v Hacc; pose proof (Hu v Hacc) as ->; destruct Hacc as (_ & _ & Hav & Hpv); congruence.
  - rewrite run_bind_lift. pose proof (Hv dummy_password_hash) as Hok. destruct (verify_password _ _); [|done].
    right. split; [|done]. intros u (He & Hget & _).
    assert (List.find (λ u, String.eqb (u_email u) m) (dict_values users) = Some u) by (apply (find_email roles); done). congruence.
Qed.

(** ** Properties *)

(** C19: administration is never lost and the store never locks itself out.
    After any operations from a missing file (raised or not), the file reads
    back; the super-admin role is intact; emails are unique; as soon as there
    is a user, some user is an active super administrator, now and after any
    further operations; and the permissions of every user can be computed. *)
Theorem super_admin_kept ops :
  ∃ roles users, read_store (run ops None) = Ok (roles, users) ∧
    dict_get roles SUPER_ADMIN_ROLE = Some super_role ∧
    (∀ i j u v, dict_get users i = Some u → dict_get users j = Some v → u_email u = u_email v → i = j) ∧
    (∀ uid u, dict_get users uid = Some u → is_ok (permissions_for uid (run ops None)).1 = true) ∧
    (users ≠ [] → ∀ ops', ∃ roles' users' uid u, read_store (run ops' (run ops None)) = Ok (roles', users') ∧
       dict_get users' uid = Some u ∧ u_active u = true ∧ SUPER_ADMIN_ROLE ∈ u_roles u).
Proof.
  destruct (run_ok ops None store_ok_none) as [Hok _]. pose proof Hok as (roles & users & Hr & Hg).
  exists roles, users. split_and!; [done|apply Hg|apply Hg|..].
  - intros uid u Hu. destruct (run_permissions _ _ _ _ _ Hr Hg Hu) as (ps & -> & _). done.
  - intros Hne ops'. destruct (run_ok ops' _ Hok) as [(roles' & users' & Hr' & Hg') Hin].
    destruct Hin as (ro & us & Hr2 & Hne'); [by exists roles, users|].
    rewrite Hr' in Hr2. injection Hr2 as <- <-. destruct (g_admin _ _ Hg' Hne') as (uid & u & ?). by exists roles', users', uid, u.
Qed.

(** The permission check is the intended relation.  On every reachable
    store, for a stored user and a valid permission, [has_permission] answers
    and writes nothing, and it answers true exactly when the user is active
    and one of its roles grants ["*"], the permission itself, or ["p.*"] for
    a proper dotted prefix [p] of the permission. *)
Theorem has_permission_spec ops roles users uid u permission :
  read_store (run ops None) = Ok (roles, users) → dict_get users uid = Some u →
  is_ok (validate_permission permission) = true →
  ∃ b, has_permission uid permission (run ops None) = (Ok b, run ops None) ∧
    (b = true ↔ u_active u = true ∧ ∃ r record g, r ∈ u_roles u ∧ dict_get roles r = Some record ∧
       g ∈ ro_permissions record ∧ covers g permission).
Proof.
  intros Hr Hu Hp. destruct (run_ok ops None store_ok_none) as [(ro & us & Hr' & Hg) _].
  rewrite Hr in Hr'. injection Hr' as <- <-. unfold has_permission.
  assert (validate_permission permission = Ok permission) as ->.
  { unfold validate_permission in *. destruct (String.eqb _ _); [done|]. by destruct (fullmatch _ _). }
  rewrite run_bind_lift. destruct (run_permissions _ _ _ _ _ Hr Hg Hu) as (ps & E & Hps). rewrite run_bind, E.
  eexists. split; [done|]. rewrite granted_by_covers. split.
  - intros (g & (Ha & r & record & ?)%Hps & Hc). split; [done|]. exists r, record, g. naive_solver.
  - intros (Ha & r & record & g & Hr1 & Hr2 & Hgr & Hc). exists g. split; [|done]. apply Hps. split; [done|]. by exists r, record.
Qed.

(** C20: logging in has exactly two outcomes.  On every reachable store, when
    the hasher answers for this password, [authenticate] of a well-formed
    email never writes and either returns the active user with that email
    whose stored hash verifies, or, when there is none, raises the one error
    ["invalid credentials"]: an unknown email, an inactive user and a wrong
    password are not told apart. *)
Theorem authenticate_exact ops roles users email m password :
  read_store (run ops None) = Ok (roles, users) → normalize_email unicode_fold email = Ok m →
  (∀ h, is_ok (verify_password password h) = true) →
  let accepted u := u_email u = m ∧ (∃ uid, dict_get users uid = Some u) ∧ u_active u = true ∧
                    verify_password password (u_password_hash u) = Ok true in
  let login := authenticate unicode_fold dummy_password_hash email password (run ops None) in
  (∃ u, accepted u ∧ login = (Ok u, run ops None)) ∨
  ((∀ u, ¬ accepted u) ∧ login = (fail AuthenticationError "invalid credentials", run ops None)).
Proof.
  intros Hr Hm Hv. destruct (run_ok ops None store_ok_none) as [(ro & us & Hr' & Hg) _].
  rewrite Hr in Hr'. injection Hr' as <- <-. by apply authenticate_cases with roles.
Qed.

(** A created user can log in.  When [create_user] answers on a reachable
    store, its email in any spelling that normalizes alike and its password
    authenticate as that user; a second user with the email is refused. *)
Theorem created_user_logs_in (good_salt : string → Prop) `{!PasswordLaws Hashing good_salt} ops uid salt clock email password rs now u s' email' :
  create_user unicode_fold uid salt clock email password rs now (run ops None) = (Ok u, s') →
  good_salt salt → password ≠ "" → (∀ h, is_ok (verify_password password h) = true) →
  normalize_email unicode_fold email' = normalize_email unicode_fold email →
  authenticate unicode_fold dummy_password_hash email' password s' = (Ok u, s') ∧
  ∀ uid2 salt2 clock2 password2 rs2 now2,
    ∃ e, create_user unicode_fold uid2 salt2 clock2 email' password2 rs2 now2 s' = (Err e, s').
Proof.
  intros Hc Hsalt Hpw Hv He. destruct (run_ok ops None store_ok_none) as [(roles & users & Hr & Hg) _].
  destruct (create_user_run uid salt clock email password rs now _ _ _ Hr Hg) as [[err E]|(v & E & Hg' & Ha & Hm & Hh & _)];
    rewrite Hc in E; [done|]. injection E as <- ->. rewrite <-He in Hm.
  pose proof (read_write _ _ Hg') as Hr'. pose proof (good_sort _ _ Hg') as Hgs.
  assert (dict_get (dict_sort (dict_set users uid u)) uid = Some u) as Hu.
  { rewrite dict_get_sort by apply Hg'. apply dict_get_set_eq. }
  split.
  - destruct (authenticate_cases _ _ _ email' (u_email u) password Hr' Hgs Hm Hv) as [(w & (Hw & [j Hj] & _) & ->)|[Hno _]].
    + assert (j = uid) as -> by by eapply (g_email _ _ Hgs). congruence.
    + exfalso. apply (Hno u). split_and!; [done|by exists uid|done|]. by eapply hashed_verifies.
  - intros uid2 salt2 clock2 password2 rs2 now2.
    destruct (create_user_run uid2 salt2 clock2 email' password2 rs2 now2 _ _ _ Hr' Hgs) as [?|(w & E & _ & _ & Hm2 & _ & Hfresh)]; [done|].
    exfalso. assert (u_email u = u_email w) as Hew by congruence.
    by apply (Hfresh uid u Hu).
Qed.
End operations.

(** ** Witnesses *)

#[local] Instance demo_hashing : PasswordHashing :=
  {| hash_password salt pw := Ok (salt +:+ pw); verify_password pw h := Ok (String.eqb h ("salt" +:+ pw)) |}.

#[local] Instance demo_hashing_laws : PasswordLaws demo_hashing (λ salt, salt = "salt").
Proof. split. intros salt pw e -> _ [= <-]. cbn. by rewrite String.eqb_refl. Defined.

Lemma demo_fold s : any_char non_ascii s = true → strip_casefold id (id s) = id s.
Proof. intros H. unfold strip_casefold, id. by rewrite H. Qed.

Definition demo_ops : list op :=
  [OpCreateFirst "1" "salt" 5 "root@example.org" "root password" None;
   OpDefineRole "editor" ["plaik.theme.*"; "plaik.audit"];
   OpCreateUser "2" "salt" 6 "Ann@example.org" "ann password" ["editor"] None].
Definition demo_store : store := run id demo_ops None.
Definition demo_roles : roles_map := match read_store demo_store with Ok (r, _) => r | Err _ => [] end.
Definition demo_users : users_map := match read_store demo_store with Ok (_, u) => u | Err _ => [] end.
Definition demo_ann : UserRecord := User "2" "ann@example.org" "saltann password" {[ "editor" ]} true 6.

Lemma demo_reads : read_store demo_store = Ok (demo_roles, demo_users).
Proof. vm_compute. reflexivity. Qed.

Lemma super_admin_kept_witness :
  ∃ roles' users' uid u, read_store (run id [OpSetActive "1" false] demo_store) = Ok (roles', users') ∧
    dict_get users' uid = Some u ∧ u_active u = true ∧ SUPER_ADMIN_ROLE ∈ u_roles u.
Proof.
  destruct (super_admin_kept id demo_fold demo_ops) as (roles & users & Hr & _ & _ & _ & H).
  apply H. intros ->. vm_compute in Hr. discriminate.
Defined.

Lemma has_permission_spec_witness :
  ∃ b, has_permission "2" "plaik.theme.edit" demo_store = (Ok b, demo_store).
Proof.
  destruct (has_permission_spec id demo_fold demo_ops demo_roles demo_users "2" demo_ann "plaik.theme.edit" demo_reads)
    as (b & H & _); [vm_compute; reflexivity|vm_compute; reflexivity|].
  exists b. exact H.
Defined.

Lemma authenticate_exact_witness :
  ∃ u, u_email u = "ann@example.org" ∧ authenticate id "dummy" "ANN@example.org " "ann password" demo_store = (Ok u, demo_store).
Proof.
  destruct (authenticate_exact id "dummy" demo_fold demo_ops demo_roles demo_users "ANN@example.org " "ann@example.org"
    "ann password" demo_reads) as [(u & (Hu & _) & E)|[H _]].
  - vm_compute. reflexivity.
  - intros h. reflexivity.
  - exists u. split; [exact Hu|exact E].
  - exfalso. apply (H demo_ann). split; [reflexivity|]. split; [exists "2"; vm_compute; reflexivity|]. split; reflexivity.
Defined.

Lemma created_user_logs_in_witness :
  ∃ u s', authenticate id "dummy" "Bob@example.org" "bob password" s' = (Ok u, s') ∧ u_email u = "bob@example.org".
Proof.
  destruct (create_user id "3" "salt" 7 " bob@example.org" "bob password" [] None demo_store) as [[u|e] s'] eqn:E;
    [|vm_compute in E; discriminate].
  exists u, s'. split.
  - refine (proj1 (created_user_logs_in id "dummy" demo_fold (λ salt, salt = "salt") demo_ops "3" "salt" 7
      " bob@example.org" "bob password" [] None u s' "Bob@example.org" E eq_refl _ _ _)).
    + discriminate.
    + intros h. reflexivity.
    + vm_compute. reflexivity.
  - vm_compute in E. injection E as <- _. reflexivity.
Defined.
End Identity.
