(* ===== verification/Sessions.v ===== *)
(** * Sessions (identity.py: [SessionStore])

    The session file is the state: [None] when it is missing, otherwise its
    records.  Tokens are ASCII texts of the form [id.secret]; the identifier
    and the secret drawn by [create] are arguments, as is the clock.  The
    keyed digest is a parameter; the user directory is the class [Directory],
    an instance of which reads the identity store. *)

From Stdlib Require Import Ascii ZArith Lia.
From stdpp Require Import base decidable numbers list strings gmap sets.
From S2P Require Import Prelude PyData Regex JobPayload HashChain Passwords Identity.

Module Sessions.
Import HashChain Identity.

Definition lower_hex (c : ascii) : bool := is_digit c || in_range "a" "f" c.
Definition hex_group (n : nat) : re := Rep n n (Chr lower_hex).
Definition SESSION_ID_PATTERN : re :=
  Seq (hex_group 8) (Seq (Lit "-") (Seq (hex_group 4) (Seq (Lit "-") (Seq (hex_group 4) (Seq (Lit "-")
    (Seq (hex_group 4) (Seq (Lit "-") (hex_group 12)))))))).
Definition SESSION_SECRET_PATTERN : re := Rep 32 128 (Chr (λ c, is_alnum c || one_of "_-" c)).
Definition MAX_SESSION_TOKEN_CHARS : nat := 36 + 1 + 128.
Definition MAX_SESSION_CLEANUP_BATCH : Z := 10000.

Record SessionRecord : Type := Session {
  s_id : string; s_user_id : string; s_token_digest : string;
  s_issued_at : Z; s_expires_at : Z; s_revoked_at : option Z;
}.

#[global] Instance SessionRecord_eq_dec : EqDecision SessionRecord.
Proof. solve_decision. Defined.

Record SessionToken : Type := Token { t_session_id : string; t_value : string; t_expires_at : Z }.

Definition sessions : Type := dict string SessionRecord.
Definition store : Type := option sessions.

(** What the sessions ask of the user directory: [get_user], active or not. *)
Class Directory (D : Type) := { user_active : D → string → result (option bool) }.

#[export] Instance identity_directory : Directory Identity.store :=
  {| user_active d uid := match (get_user uid d).1 with Ok u => Ok (option_map u_active u) | Err e => Err e end |}.

Record config : Type := Config {
  cf_default_ttl : Z; cf_maximum_ttl : Z; cf_cleanup_batch_size : Z;
}.

Definition validate_cleanup_batch_size (value : Z) : result Z :=
  _ ← fail_if (negb ((1 <=? value)%Z && (value <=? MAX_SESSION_CLEANUP_BATCH)%Z)) ValueErr
        "session cleanup batch size is out of range";
  Ok value.

(** [__init__]. *)
Definition new_config (pepper : string) (default_ttl maximum_ttl cleanup : Z) : result config :=
  _ ← fail_if (utf8_len pepper <? 32) ValueErr "session token pepper must contain at least 32 bytes";
  _ ← fail_if ((default_ttl <=? 0)%Z || (maximum_ttl <? default_ttl)%Z) ValueErr "invalid default session lifetime";
  cleanup ← validate_cleanup_batch_size cleanup;
  Ok (Config default_ttl maximum_ttl cleanup).

(** [raw_token.split(".", 1)]. *)
Fixpoint split_once (sep : ascii) (l : list ascii) : option (list ascii * list ascii) :=
  match l with
  | [] => None
  | c :: l => if decide (c = sep) then Some ([], l)
              else match split_once sep l with Some (a, b) => Some (c :: a, b) | None => None end
  end.

Definition parse_session_token (raw_token : string) : result (string * string) :=
  _ ← fail_if (any_char non_ascii raw_token || (MAX_SESSION_TOKEN_CHARS <? str_len raw_token)) SessionError "invalid session";
  match split_once "." (chars raw_token) with
  | Some (session_id, secret) =>
      _ ← fail_if (negb (fullmatch SESSION_ID_PATTERN (of_chars session_id))
                   || negb (fullmatch SESSION_SECRET_PATTERN (of_chars secret))) SessionError "invalid session";
      Ok (raw_token, of_chars session_id)
  | None => fail SessionError "invalid session"
  end.

(** ** Purging *)

(** The instant a record became terminal, if it is. *)
Definition terminal_at (checked_at : Z) (r : SessionRecord) : option Z :=
  match s_revoked_at r with
  | Some t => Some t
  | None => if (s_expires_at r <=? checked_at)%Z then Some (s_expires_at r) else None
  end.

Definition terminal_list (checked_at : Z) (records : sessions) : list (Z * string) :=
  omap (λ kr, t ← terminal_at checked_at kr.2; Some (t, kr.1)) records.

(** [_purge_records]: the oldest terminal records, at most [limit]. *)
Definition purge_records (records : sessions) (checked_at limit : Z) : sessions * Z :=
  let selected := take (Z.to_nat limit) (sort_by id (terminal_list checked_at records)) in
  (foldl (λ rs tk, dict_del rs tk.2) records selected, Z.of_nat (length selected)).

Definition records : M store sessions := λ s, (Ok (or_default s []), s).
Definition write (rs : sessions) : M store unit := put_st (Some (dict_sort rs)).

Section sessions.
Context {D : Type} `{Directory D} (digest : string → string → string) (token_pepper : string) (cf : config).

(** [None]: no identity store is configured. *)
Definition require_active_user (directory : option D) (uid : string) : result unit :=
  match directory with
  | None => Ok tt
  | Some d =>
      u ← user_active d uid;
      fail_if (negb (or_default u false)) SessionError "invalid session identity"
  end.

Definition create (directory : option D) (session_id secret : string) (clock : Z) (uid : string)
    (now : option datetime) (ttl : option Z) : M store SessionToken :=
  _ ← lift (require_active_user directory uid);
  issued_at ← lift (utc (or_default now (Aware clock)));
  (* [ttl or self.default_ttl]: a zero lifetime is the default one *)
  let lifetime := match ttl with Some t => if (t =? 0)%Z then cf_default_ttl cf else t | None => cf_default_ttl cf end in
  _ ← raise_if ((lifetime <=? 0)%Z || (cf_maximum_ttl cf <? lifetime)%Z) ValueErr "invalid session lifetime";
  let value := session_id +:+ "." +:+ secret in
  expires_at ← lift (dt_add issued_at lifetime);
  let record := Session session_id uid (digest token_pepper value) issued_at expires_at None in
  rs ← records;
  let rs := (purge_records rs issued_at (cf_cleanup_batch_size cf)).1 in
  _ ← write (dict_set rs session_id record);
  mret (Token session_id value expires_at).

Definition validate (directory : option D) (clock : Z) (token : string) (now : option datetime) :
    M store SessionRecord :=
  checked_at ← lift (utc (or_default now (Aware clock)));
  parsed ← lift (parse_session_token token);
  let '(raw_token, session_id) := parsed in
  rs ← records;
  match dict_get rs session_id with
  | Some record =>
      if bool_decide (s_revoked_at record ≠ None) || (s_expires_at record <=? checked_at)%Z
      then raise SessionError "invalid session"
      else
        same ← lift (compare_digest (s_token_digest record) (digest token_pepper raw_token));
        _ ← raise_if (negb same) SessionError "invalid session";
        _ ← lift (require_active_user directory (s_user_id record));
        mret record
  | None => raise SessionError "invalid session"
  end.

Definition with_revoked (at_ : Z) (r : SessionRecord) : SessionRecord :=
  Session (s_id r) (s_user_id r) (s_token_digest r) (s_issued_at r) (s_expires_at r) (Some at_).

Definition revoke (clock : Z) (session_id : string) (now : option datetime) : M store SessionRecord :=
  rs ← records;
  match dict_get rs session_id with
  | None => raise SessionError "session does not exist"
  | Some record =>
      match s_revoked_at record with
      | Some _ => mret record
      | None =>
          at_ ← lift (utc (or_default now (Aware clock)));
          let record := with_revoked at_ record in
          _ ← write (dict_set rs session_id record);
          mret record
      end
  end.

Definition live_of (uid : string) (r : SessionRecord) : bool :=
  bool_decide (s_user_id r = uid) && bool_decide (s_revoked_at r = None).

(** The values under their keys are replaced in place. *)
Definition revoke_user (clock : Z) (uid : string) (now : option datetime) : M store Z :=
  at_ ← lift (utc (or_default now (Aware clock)));
  rs ← records;
  let changed := Z.of_nat (length (List.filter (live_of uid) (dict_values rs))) in
  let rs := (λ kr : string * SessionRecord, (kr.1, if live_of uid kr.2 then with_revoked at_ kr.2 else kr.2)) <$> rs in
  _ ← (if (changed =? 0)%Z then mret tt else write rs);
  mret changed.

Definition purge_terminal (clock : Z) (now : option datetime) (limit : option Z) : M store Z :=
  checked_at ← lift (utc (or_default now (Aware clock)));
  limit ← lift (validate_cleanup_batch_size (or_default limit (cf_cleanup_batch_size cf)));
  rs ← records;
  let '(rs, removed) := purge_records rs checked_at limit in
  _ ← (if (removed =? 0)%Z then mret tt else write rs);
  mret removed.
End sessions.

(** ** What purging removes *)

Lemma dels_get (l : list (Z * string)) (rs : sessions) i :
  dict_wf rs → dict_wf (foldl (λ rs tk, dict_del rs tk.2) rs l) ∧
  dict_get (foldl (λ rs tk, dict_del rs tk.2) rs l) i = if decide (i ∈ l.*2) then None else dict_get rs i.
Proof.
  revert rs. induction l as [|[t k] l IH]; intros rs Hwf; [done|].
  cbn [foldl snd]. destruct (IH (dict_del rs k)) as [H1 H2]; [by apply dict_wf_del|]. split; [done|]. rewrite H2.
  destruct (decide (i ∈ l.*2)) as [Hin|Hin]; [by rewrite decide_True by by right|].
  rewrite dict_get_del by done. destruct (decide (k = i)) as [->|Hne].
  - by rewrite decide_True by by left.
  - rewrite decide_False; [done|]. csimpl. intros [->|?]%elem_of_cons; done.
Qed.

Lemma terminal_list_in checked rs k :
  k ∈ (terminal_list checked rs).*2 → ∃ r, (k, r) ∈ rs ∧ is_Some (terminal_at checked r).
Proof.
  unfold terminal_list. intros ([t k'] & -> & Hin)%list_elem_of_fmap. apply list_elem_of_omap in Hin as ([k r] & Hin & E).
  simpl in *. destruct (terminal_at checked r) as [t'|] eqn:Et; [|done]. injection E as <- <-. exists r. rewrite Et. by split.
Qed.

(** A purge keeps or drops a record; what it drops is terminal. *)
Lemma purge_get rs checked limit i :
  dict_wf rs →
  dict_wf (purge_records rs checked limit).1 ∧
  (dict_get (purge_records rs checked limit).1 i = dict_get rs i ∨
   dict_get (purge_records rs checked limit).1 i = None ∧
   ∃ r, dict_get rs i = Some r ∧ is_Some (terminal_at checked r)).
Proof.
  intros Hwf. unfold purge_records. cbn [fst].
  set (l := take _ _). destruct (dels_get l rs i Hwf) as [H1 H2]. split; [done|]. rewrite H2.
  destruct (decide (i ∈ l.*2)) as [Hin|]; [right|by left]. split; [done|].
  assert (i ∈ (terminal_list checked rs).*2) as Hi.
  { apply list_elem_of_fmap in Hin as (x & -> & Hx). apply list_elem_of_fmap. exists x. split; [done|].
    apply elem_of_take in Hx as (j & Hj & _). apply (elem_of_sort_by id). by eapply list_elem_of_lookup_2. }
  apply terminal_list_in in Hi as (r & Hr & Ht). exists r. split; [by apply dict_get_in|done].
Qed.

(** ** Operations over time *)

Section history.
Context {D : Type} `{Directory D} (digest : string → string → string) (token_pepper : string) (cf : config).

Inductive op : Type :=
  | OpCreate (directory : option D) (session_id secret : string) (clock : Z) (uid : string)
      (now : option datetime) (ttl : option Z)
  | OpRevoke (clock : Z) (session_id : string) (now : option datetime)
  | OpRevokeUser (clock : Z) (uid : string) (now : option datetime)
  | OpPurge (clock : Z) (now : option datetime) (limit : option Z).

Definition apply_op (o : op) : store → store :=
  match o with
  | OpCreate d i x c u n t => post (create digest token_pepper cf d i x c u n t)
  | OpRevoke c i n => post (revoke c i n)
  | OpRevokeUser c u n => post (revoke_user c u n)
  | OpPurge c n l => post (purge_terminal cf c n l)
  end.

Definition run (ops : list op) (s : store) : store := foldl (λ s o, apply_op o s) s ops.

Definition instant (clock : Z) (now : option datetime) : result Z := utc (or_default now (Aware clock)).

Definition op_instant (o : op) : result Z :=
  match o with
  | OpCreate _ _ _ c _ n _ | OpRevoke c _ n | OpRevokeUser c _ n | OpPurge c n _ => instant c n
  end.

(** The operation revokes the session [i] of user [uid]. *)
Definition revokes (i uid : string) (o : op) : bool :=
  match o with
  | OpRevoke c j n => bool_decide (j = i) && is_ok (instant c n)
  | OpRevokeUser c u n => bool_decide (u = uid) && is_ok (instant c n)
  | _ => false
  end.

Definition creates (i : string) (o : op) : bool :=
  match o with OpCreate _ j _ _ _ _ _ => bool_decide (j = i) | _ => false end.

Definition recs (s : store) : sessions := or_default s [].

Lemma dict_get_fmap {V} (f : V → V) (d : dict string V) k :
  dict_get ((λ kr : string * V, (kr.1, f kr.2)) <$> d) k = f <$> dict_get d k.
Proof. induction d as [|[k' v] d IH]; [done|]. csimpl. by destruct (decide (k' = k)). Qed.

Lemma dict_keys_map {V} (f : string * V → V) (d : dict string V) :
  dict_keys ((λ kr : string * V, (kr.1, f kr)) <$> d) = dict_keys d.
Proof. unfold dict_keys. induction d as [|[k v] d IH]; [done|]. csimpl. by f_equal. Qed.

(** A [create] that answers. *)
Lemma create_run d i x c u n t s tk s' :
  create digest token_pepper cf d i x c u n t s = (Ok tk, s') →
  ∃ issued, instant c n = Ok issued ∧ require_active_user d u = Ok tt ∧
    t_session_id tk = i ∧ t_value tk = i +:+ "." +:+ x ∧ (issued < t_expires_at tk)%Z ∧ dt_in_range (t_expires_at tk) = true ∧
    s' = Some (dict_sort (dict_set (purge_records (recs s) issued (cf_cleanup_batch_size cf)).1 i
      (Session i u (digest token_pepper (t_value tk)) issued (t_expires_at tk) None))).
Proof.
  unfold create. destruct (require_active_user d u) as [[]|]; [|done]. rewrite run_bind_lift. fold (instant c n).
  destruct (instant c n) as [issued|]; [|done]. rewrite run_bind_lift.
  set (life := match t with Some _ => _ | None => _ end).
  unfold raise_if. rewrite run_bind_lift. destruct (_ || _) eqn:El; [done|]. cbn [fail_if]. rewrite run_bind_lift.
  destruct (dt_add issued life) as [e|] eqn:Ee; [|done]. cbn. intros [= <- <-]. cbn.
  apply dt_add_ok in Ee as [-> He]. bool_to_prop. exists issued. split_and!; try done. lia.
Qed.

Lemma create_err d i x c u n t s e s' : create digest token_pepper cf d i x c u n t s = (Err e, s') → s' = s.
Proof.
  unfold create. destruct (require_active_user d u) as [[]|]; [|by intros [= _ <-]]. rewrite run_bind_lift. fold (instant c n).
  destruct (instant c n) as [issued|]; [|by intros [= _ <-]]. rewrite run_bind_lift.
  set (life := match t with Some _ => _ | None => _ end).
  unfold raise_if. rewrite run_bind_lift. destruct (_ || _) eqn:El; [by intros [= _ <-]|]. cbn [fail_if]. rewrite run_bind_lift.
  destruct (dt_add issued life) as [e1|] eqn:Ee; [|by intros [= _ <-]]. done.
Qed.

(** The same record, revoked or not. *)
Definition same_session (r r' : SessionRecord) : Prop :=
  s_user_id r' = s_user_id r ∧ s_token_digest r' = s_token_digest r ∧ s_expires_at r' = s_expires_at r.

(** Where the record under [i] comes from. *)
Definition step_back (o : op) (s s' : store) (i : string) : Prop := ∀ r', dict_get (recs s') i = Some r' →
  (∃ d x c u n t tk, o = OpCreate d i x c u n t ∧ (create digest token_pepper cf d i x c u n t s).1 = Ok tk ∧
     s_user_id r' = u ∧ s_token_digest r' = digest token_pepper (t_value tk) ∧ s_expires_at r' = t_expires_at tk) ∨
  ∃ r, dict_get (recs s) i = Some r ∧ same_session r r' ∧
    (s_revoked_at r' = None → s_revoked_at r = None ∧ revokes i (s_user_id r) o = false).

(** What becomes of a live record under [i]. *)
Definition step_forth (o : op) (s s' : store) (i : string) : Prop := ∀ r, dict_get (recs s) i = Some r →
  s_revoked_at r = None → creates i o = false → revokes i (s_user_id r) o = false →
  (∀ t, op_instant o = Ok t → (t < s_expires_at r)%Z) → dict_get (recs s') i = Some r.

Definition step_ok (o : op) (s s' : store) : Prop :=
  dict_wf (recs s') ∧ ∀ i, step_back o s s' i ∧ step_forth o s s' i.

Lemma same_refl r : same_session r r.
Proof. done. Qed.

(** A step that keeps the file. *)
Lemma step_ok_same o s : dict_wf (recs s) → (∀ i uid, dict_get (recs s) i ≠ None → revokes i uid o = false ∨
    ∀ r, dict_get (recs s) i = Some r → s_user_id r = uid → s_revoked_at r ≠ None) → step_ok o s s.
Proof.
  intros Hwf Hno. split; [done|]. intros i. split.
  - intros r Hr. right. exists r. split_and!; [done..|]. intros Hrv. split; [done|].
    destruct (Hno i (s_user_id r)) as [?|Hx]; [congruence|done|]. by destruct (Hx r Hr).
  - intros r Hr _ _ _ _. done.
Qed.

Lemma not_terminal t r : s_revoked_at r = None → (t < s_expires_at r)%Z → ¬ is_Some (terminal_at t r).
Proof. unfold terminal_at. intros -> Hlt. rewrite (proj2 (Z.leb_gt _ _)) by done. by intros [? ?]. Qed.

(** A step that purges, and perhaps adds a record. *)
Lemma create_step d j x c u n t s :
  dict_wf (recs s) → step_ok (OpCreate d j x c u n t) s (apply_op (OpCreate d j x c u n t) s).
Proof.
  intros Hwf. simpl. unfold post. destruct (create _ _ _ _ _ _ _ _ _ _ s) as [[tk|e] s'] eqn:E.
  2:{ apply create_err in E. subst s'. apply step_ok_same; [done|]. by left. }
  pose proof E as (issued & Hi & _ & _ & _ & _ & _ & ->)%create_run. cbn [snd].
  set (new := Session _ _ _ _ _ _).
  assert (∀ i, dict_get (dict_sort (dict_set (purge_records (recs s) issued (cf_cleanup_batch_size cf)).1 j new)) i =
    if decide (j = i) then Some new else dict_get (purge_records (recs s) issued (cf_cleanup_batch_size cf)).1 i) as Hget.
  { intros i. rewrite dict_get_sort, dict_get_set; [done|]. by apply dict_wf_set, purge_get. }
  split; [apply dict_wf_sort, dict_wf_set; by apply (purge_get _ _ _ j)|]. intros i.
  destruct (purge_get (recs s) issued (cf_cleanup_batch_size cf) i Hwf) as [_ Hp].
  split; cbn [recs or_default].
  - intros r'. unfold recs at 1. cbn [or_default]. rewrite Hget. destruct (decide (j = i)) as [<-|Hne].
    + intros [= <-]. left. exists d, x, c, u, n, t, tk. split; [done|]. by rewrite E.
    + intros Hr. right. exists r'. destruct Hp as [Hp|[Hp _]]; [|congruence]. split; [congruence|]. by split_and!.
  - intros r Hr Hrv Hc _ Ht. unfold recs. cbn [or_default]. rewrite Hget. simpl in Hc. apply bool_decide_eq_false in Hc.
    rewrite decide_False by done. destruct Hp as [->|(_ & r2 & Hr2 & Hterm)]; [done|].
    rewrite Hr in Hr2. injection Hr2 as <-. destruct (not_terminal issued r Hrv); [by apply Ht|done].
Qed.

Lemma revoke_step c j n s : dict_wf (recs s) → step_ok (OpRevoke c j n) s (apply_op (OpRevoke c j n) s).
Proof.
  intros Hwf. simpl. unfold post, revoke. rewrite run_bind. cbn [records]. fold (recs s).
  destruct (dict_get (recs s) j) as [r0|] eqn:E0.
  2:{ apply step_ok_same; [done|]. intros i uid Hi. left. simpl. rewrite bool_decide_eq_false_2; [done|]. intros ->. by destruct Hi. }
  destruct (s_revoked_at r0) as [t0|] eqn:Er.
  { apply step_ok_same; [done|]. intros i uid Hi. simpl. destruct (decide (j = i)) as [->|Hne].
    - right. intros r Hr _. congruence.
    - left. by rewrite bool_decide_eq_false_2. }
  fold (instant c n). destruct (instant c n) as [t|e] eqn:Et; rewrite run_bind_lift.
  2:{ apply step_ok_same; [done|]. intros i uid _. left. simpl. rewrite Et. by rewrite andb_false_r. }
  cbn [write put_st mbind M_bind mret M_ret snd].
  assert (∀ i, dict_get (recs (Some (dict_sort (dict_set (recs s) j (with_revoked t r0))))) i =
    if decide (j = i) then Some (with_revoked t r0) else dict_get (recs s) i) as Hget.
  { intros i. unfold recs at 1. cbn [or_default]. rewrite dict_get_sort, dict_get_set; [done|by apply dict_wf_set]. }
  split; [by apply dict_wf_sort, dict_wf_set|]. intros i. split.
  - intros r'. rewrite Hget. destruct (decide (j = i)) as [<-|Hne].
    + intros [= <-]. right. exists r0. by split_and!.
    + intros Hr. right. exists r'. split_and!; try done. intros Hrv. split; [done|]. simpl. by rewrite bool_decide_eq_false_2.
  - intros r Hr Hrv _ Hno _. rewrite Hget. destruct (decide (j = i)) as [->|Hne]; [|done].
    simpl in Hno. rewrite bool_decide_eq_true_2, Et in Hno by done. done.
Qed.

Lemma revoke_user_step c u n s : dict_wf (recs s) → step_ok (OpRevokeUser c u n) s (apply_op (OpRevokeUser c u n) s).
Proof.
  intros Hwf. simpl. unfold post, revoke_user. fold (instant c n). destruct (instant c n) as [t|e] eqn:Et; rewrite run_bind_lift.
  2:{ apply step_ok_same; [done|]. intros i uid _. left. simpl. rewrite Et. by rewrite andb_false_r. }
  rewrite run_bind. cbn [records]. fold (recs s).
  set (f := λ r, if live_of u r then with_revoked t r else r).
  assert (step_ok (OpRevokeUser c u n) s (Some (dict_sort ((λ kr : string * SessionRecord, (kr.1, f kr.2)) <$> recs s)))) as Hmap.
  { assert (dict_wf ((λ kr : string * SessionRecord, (kr.1, f kr.2)) <$> recs s)) as Hwf'.
    { unfold dict_wf. by rewrite (dict_keys_map (λ kr, f kr.2)). }
    assert (∀ i, dict_get (recs (Some (dict_sort ((λ kr : string * SessionRecord, (kr.1, f kr.2)) <$> recs s)))) i = f <$> dict_get (recs s) i) as Hget.
    { intros i. unfold recs at 1. cbn [or_default]. by rewrite dict_get_sort, dict_get_fmap. }
    split; [by apply dict_wf_sort|]. intros i. split.
    - intros r'. rewrite Hget. destruct (dict_get (recs s) i) as [r|]; [|done]. intros [= <-]. right. exists r.
      unfold f, live_of. simpl. rewrite Et.
      destruct (bool_decide (s_user_id r = u)) eqn:Eu; cbn [andb].
      + destruct (bool_decide (s_revoked_at r = None)) eqn:Er; [by split_and!|]. split_and!; try done.
        intros Hrv. by apply bool_decide_eq_false in Er.
      + split_and!; try done. intros Hrv. split; [done|]. apply bool_decide_eq_false in Eu. rewrite bool_decide_eq_false_2; [done|congruence].
    - intros r Hr Hrv _ Hno _. rewrite Hget, Hr. simpl. simpl in Hno. rewrite Et, andb_true_r in Hno.
      apply bool_decide_eq_false in Hno. unfold f, live_of. rewrite bool_decide_eq_false_2; [done|congruence]. }
  destruct (Z.of_nat (length (List.filter (live_of u) (dict_values (recs s)))) =? 0)%Z eqn:Ec; [|exact Hmap].
  cbn. apply step_ok_same; [done|]. intros i uid _. simpl. rewrite Et, andb_true_r.
  destruct (decide (u = uid)) as [<-|]; [|left; by rewrite bool_decide_eq_false_2]. right. intros r Hr Hu Hrv.
  apply Z.eqb_eq in Ec. destruct (List.filter (live_of u) (dict_values (recs s))) as [|y l] eqn:Ef; [|simpl in Ec; lia].
  cut (r ∈ @nil SessionRecord); [apply not_elem_of_nil|]. rewrite <-Ef. apply list_elem_of_In, filter_In. split.
  - apply list_elem_of_In, list_elem_of_fmap. exists (i, r). split; [done|by apply dict_get_Some_in].
  - unfold live_of. by rewrite !bool_decide_eq_true_2.
Qed.

Lemma purge_step c n l s : dict_wf (recs s) → step_ok (OpPurge c n l) s (apply_op (OpPurge c n l) s).
Proof.
  intros Hwf. simpl. unfold post, purge_terminal. fold (instant c n).
  assert (step_ok (OpPurge c n l) s s) as Hsame by (apply step_ok_same; [done|by left]).
  destruct (instant c n) as [t|] eqn:Et; rewrite run_bind_lift; [|done].
  destruct (validate_cleanup_batch_size _) as [limit|]; rewrite run_bind_lift; [|done].
  rewrite run_bind. cbn [records]. fold (recs s). pose proof (purge_get (recs s) t limit) as Hp.
  destruct (purge_records (recs s) t limit) as [rs removed] eqn:E. cbn [fst] in Hp.
  destruct (removed =? 0)%Z; [done|]. cbn.
  assert (dict_wf rs) as Hwf' by by apply (Hp EmptyString).
  assert (∀ i, dict_get (recs (Some (dict_sort rs))) i = dict_get rs i) as Hget by (intros i; by apply dict_get_sort).
  split; [by apply dict_wf_sort|]. intros i. destruct (Hp i Hwf) as [_ Hg]. split.
  - intros r'. rewrite Hget. intros Hr. right. exists r'.
    destruct Hg as [Hg|[Hg _]]; [|congruence]. split; [congruence|]. by split_and!.
  - intros r Hr Hrv _ _ Ht. rewrite Hget. destruct Hg as [->|(_ & r2 & Hr2 & Hterm)]; [done|]. rewrite Hr in Hr2. injection Hr2 as <-.
    destruct (not_terminal t r Hrv); [by apply Ht|done].
Qed.

Lemma apply_step o s : dict_wf (recs s) → step_ok o s (apply_op o s).
Proof. destruct o; [apply create_step|apply revoke_step|apply revoke_user_step|apply purge_step]. Qed.

Lemma run_snoc ops o s : run (ops ++ [o]) s = apply_op o (run ops s).
Proof. unfold run. by rewrite foldl_app. Qed.

Lemma run_wf ops : dict_wf (recs (run ops None)).
Proof.
  induction ops as [|o ops IH] using rev_ind; [apply dict_wf_nil|]. rewrite run_snoc. by apply apply_step.
Qed.

(** ** The history of a record *)

Lemma record_history ops i r :
  dict_get (recs (run ops None)) i = Some r →
  ∃ l1 l2 d x c u n t tk, ops = l1 ++ OpCreate d i x c u n t :: l2 ∧
    (create digest token_pepper cf d i x c u n t (run l1 None)).1 = Ok tk ∧
    s_user_id r = u ∧ s_token_digest r = digest token_pepper (t_value tk) ∧ s_expires_at r = t_expires_at tk ∧
    (s_revoked_at r = None → Forall (λ o, revokes i u o = false) l2).
Proof.
  revert r. induction ops as [|o ops IH] using rev_ind; intros r Hr; [done|]. rewrite run_snoc in Hr.
  destruct (apply_step o (run ops None) (run_wf ops)) as [_ Hs]. destruct (Hs i) as [Hb _].
  destruct (Hb r Hr) as [(d & x & c & u & n & t & tk & -> & Hc & Hu & Hd & He)|(r0 & Hr0 & (Hu & Hd & He) & Hrv)].
  - exists ops, [], d, x, c, u, n, t, tk. by split_and!.
  - destruct (IH r0 Hr0) as (l1 & l2 & d & x & c & u & n & t & tk & -> & Hc & Hu0 & Hd0 & He0 & Hl).
    exists l1, (l2 ++ [o]), d, x, c, u, n, t, tk. split; [by rewrite <-(assoc_L (++))|]. split_and!; try congruence.
    intros Hrn. destruct (Hrv Hrn) as [H0 H1]. rewrite Forall_app. split; [by apply Hl|].
    constructor; [by rewrite <-Hu0|done].
Qed.

(** A live record through operations that spare it. *)
Lemma record_survives ops s i r :
  dict_wf (recs s) → dict_get (recs s) i = Some r → s_revoked_at r = None →
  Forall (λ o, creates i o = false ∧ revokes i (s_user_id r) o = false ∧
    ∀ t, op_instant o = Ok t → (t < s_expires_at r)%Z) ops →
  dict_get (recs (run ops s)) i = Some r.
Proof.
  intros Hwf Hr Hrv Hops. revert s Hwf Hr. induction Hops as [|o ops (H1 & H2 & H3) _ IH]; intros s Hwf Hr; [done|].
  destruct (apply_step o s Hwf) as [Hwf' Hs]. apply IH; [done|]. by apply Hs.
Qed.

(** ** Tokens *)

Lemma parse_ok raw raw' i : parse_session_token raw = Ok (raw', i) → raw' = raw.
Proof.
  unfold parse_session_token. intros ([] & _ & Hp)%bind_result_ok. destruct (split_once _ _) as [[a b]|]; [|done].
  apply bind_result_ok in Hp as ([] & _ & Hp). congruence.
Qed.

Definition id_plain (c : ascii) : bool := negb (bool_decide (c = "."%char)) && negb (non_ascii c) && negb (is_continuation c).
Definition secret_plain (c : ascii) : bool := negb (non_ascii c) && negb (is_continuation c).

Lemma split_once_at sep a b : sep ∉ a → split_once sep (a ++ sep :: b) = Some (a, b).
Proof.
  induction a as [|c a IH]; intros Hn; simpl; [by rewrite decide_True|].
  rewrite decide_False by set_solver. rewrite IH; [done|set_solver].
Qed.

(** An issued token is well formed. *)
Lemma parse_issued i secret :
  fullmatch SESSION_ID_PATTERN i = true → fullmatch SESSION_SECRET_PATTERN secret = true →
  parse_session_token (i +:+ "." +:+ secret) = Ok (i +:+ "." +:+ secret, i).
Proof.
  intros Hi Hs. unfold parse_session_token.
  assert (re_all id_plain SESSION_ID_PATTERN = true ∧ re_all secret_plain SESSION_SECRET_PATTERN = true ∧
    re_max_len SESSION_ID_PATTERN = Some 36 ∧ re_max_len SESSION_SECRET_PATTERN = Some 128) as (A1 & A2 & A3 & A4).
  { split_and!; vm_compute; reflexivity. }
  pose proof (fullmatch_all _ _ _ A1 Hi) as Hic. pose proof (fullmatch_all _ _ _ A2 Hs) as Hsc.
  pose proof (fullmatch_max_len _ _ _ A3 Hi) as Hil. pose proof (fullmatch_max_len _ _ _ A4 Hs) as Hsl.
  assert (chars (i +:+ "." +:+ secret) = chars i ++ "."%char :: chars secret) as Ec by apply chars_app.
  assert (any_char non_ascii (i +:+ "." +:+ secret) = false) as ->.
  { apply any_char_false. rewrite Ec. intros c [Hc|[->|Hc]%elem_of_cons]%elem_of_app; [|done|].
    - specialize (Hic c Hc). unfold id_plain in Hic. bool_to_prop. done.
    - specialize (Hsc c Hc). unfold secret_plain in Hsc. bool_to_prop. done. }
  assert (str_len (i +:+ "." +:+ secret) = length (chars i ++ "."%char :: chars secret)) as ->.
  { rewrite <-Ec, <-(of_chars_chars (i +:+ "." +:+ secret)) at 1. apply Passwords.str_len_plain, Forall_forall.
    rewrite Ec. intros c [Hc|[->|Hc]%elem_of_cons]%elem_of_app; [|done|].
    - specialize (Hic c Hc). unfold id_plain in Hic. bool_to_prop. done.
    - specialize (Hsc c Hc). unfold secret_plain in Hsc. bool_to_prop. done. }
  rewrite length_app. cbn [length]. rewrite (proj2 (Nat.ltb_ge _ _)) by (unfold MAX_SESSION_TOKEN_CHARS; lia).
  cbn [orb fail_if mbind result_bind]. rewrite Ec, split_once_at.
  - by rewrite !of_chars_chars, Hi, Hs.
  - intros Hc. specialize (Hic "."%char Hc). done.
Qed.

(** ** Properties *)

(** C22: only issued, live tokens are accepted.  When a token validates after
    any operations from a missing file, the file is unchanged and the token
    is, letter for letter, the one a [create] in the history answered with,
    for that user; no later operation revoked the session or the user's
    sessions; it has not expired; and the user is active now. *)
Theorem validate_sound directory ops clock token now r s' :
  (∀ x y, digest token_pepper x = digest token_pepper y → x = y) →
  validate digest token_pepper directory clock token now (run ops None) = (Ok r, s') →
  s' = run ops None ∧ require_active_user directory (s_user_id r) = Ok tt ∧
  (∃ t, instant clock now = Ok t ∧ (t < s_expires_at r)%Z) ∧
  ∃ l1 l2 d i x c u n t tk, ops = l1 ++ OpCreate d i x c u n t :: l2 ∧
    (create digest token_pepper cf d i x c u n t (run l1 None)).1 = Ok tk ∧
    t_value tk = token ∧ s_user_id r = u ∧ s_expires_at r = t_expires_at tk ∧
    Forall (λ o, revokes i u o = false) l2.
Proof.
  intros Hinj. unfold validate. fold (instant clock now). destruct (instant clock now) as [t0|]; [|done]. rewrite run_bind_lift.
  destruct (parse_session_token token) as [[raw i]|] eqn:Ep; [|done]. rewrite run_bind_lift. apply parse_ok in Ep as ->.
  rewrite run_bind. cbn [records]. fold (recs (run ops None)).
  destruct (dict_get (recs (run ops None)) i) as [r0|] eqn:Er; [|done].
  destruct (bool_decide _ || _) eqn:El; [done|]. apply orb_false_iff in El as [Hrv He].
  apply bool_decide_eq_false in Hrv. apply dec_stable in Hrv. apply Z.leb_gt in He.
  rewrite run_bind_lift. destruct (compare_digest _ _) as [same|] eqn:Ec; [|done]. apply compare_digest_ok in Ec.
  unfold raise_if. rewrite run_bind_lift. destruct (fail_if (negb same) _ _) as [[]|] eqn:Es; [|done].
  apply fail_if_ok, negb_false_iff in Es. rewrite Es in Ec. symmetry in Ec. apply bool_decide_eq_true in Ec.
  rewrite run_bind_lift. destruct (require_active_user directory (s_user_id r0)) as [[]|] eqn:Ea; [|done].
  intros [= <- <-]. split; [done|]. split; [done|]. split; [by exists t0|].
  destruct (record_history ops i r0 Er) as (l1 & l2 & d & x & c & u & n & t & tk & -> & Hc & Hu & Hd & Hx & Hl).
  exists l1, l2, d, i, x, c, u, n, t, tk. split_and!; try done; [|by apply Hl].
  apply Hinj. congruence.
Qed.

(** C23: an issued token stays usable.  After [create] answered with a token
    (of the forms uuid4 and token_urlsafe give), any further operations that
    neither reuse its identifier nor revoke it, all before its expiry, leave
    it valid: at any instant before the expiry, with its user active,
    [validate] accepts it for that user.  In particular no purge, by
    [purge_terminal] or inside another [create], ever removes it early. *)
Theorem issued_token_valid directory ops0 d i x c u n t tk s ops clock now t1 :
  (∀ k v, any_char non_ascii (digest k v) = false) →
  fullmatch SESSION_ID_PATTERN i = true → fullmatch SESSION_SECRET_PATTERN x = true →
  create digest token_pepper cf d i x c u n t (run ops0 None) = (Ok tk, s) →
  Forall (λ o, creates i o = false ∧ revokes i u o = false ∧ ∀ t, op_instant o = Ok t → (t < t_expires_at tk)%Z) ops →
  instant clock now = Ok t1 → (t1 < t_expires_at tk)%Z → require_active_user directory u = Ok tt →
  ∃ r, validate digest token_pepper directory clock (t_value tk) now (run ops s) = (Ok r, run ops s) ∧ s_user_id r = u.
Proof.
  intros Hasc Hi Hx Hc Hops Ht Hlt Hu.
  pose proof Hc as (issued & _ & _ & _ & Hv & _ & _ & Hs)%create_run.
  assert (s = apply_op (OpCreate d i x c u n t) (run ops0 None)) as Hs0 by (simpl; unfold post; by rewrite Hc).
  assert (dict_wf (recs s)) as Hwf by (rewrite Hs0; apply apply_step, run_wf).
  set (r := Session i u (digest token_pepper (t_value tk)) issued (t_expires_at tk) None) in Hs.
  assert (dict_get (recs s) i = Some r) as Hr.
  { rewrite Hs. unfold recs at 1. cbn [or_default]. rewrite dict_get_sort, dict_get_set_eq; [done|].
    apply dict_wf_set. by apply (purge_get _ _ _ i (run_wf ops0)). }
  exists r. split; [|done]. pose proof (record_survives ops s i r Hwf Hr eq_refl Hops) as Hr'.
  unfold validate. fold (instant clock now). rewrite Ht, run_bind_lift, Hv, parse_issued by done. rewrite run_bind_lift, run_bind.
  cbn [records]. fold (recs (run ops s)). rewrite Hr'. cbn [s_revoked_at s_expires_at r]. rewrite (proj2 (Z.leb_gt _ _)) by done.
  rewrite bool_decide_eq_false_2 by (intros Hn; by apply Hn). cbn [orb]. rewrite run_bind_lift.
  unfold compare_digest. cbn [s_token_digest r]. rewrite Hv, !Hasc. cbn [orb]. rewrite bool_decide_eq_true_2 by done.
  unfold raise_if. rewrite run_bind_lift. cbn [negb fail_if]. rewrite run_bind_lift. cbn [s_user_id r]. by rewrite Hu.
Qed.
End history.

(** ** Witnesses *)

Definition demo_config : config := Config (8 * hour) (30 * day) 256.
Definition demo_id : string := "00000000-0000-4000-8000-000000000001".
Definition demo_secret : string := "abcdefghijklmnopqrstuvwxyz0123456789_-ABCDE".
Definition demo_create : op (D := Identity.store) := OpCreate None demo_id demo_secret 5 "ann" None None.
Definition demo_other : op (D := Identity.store) :=
  OpCreate None "00000000-0000-4000-8000-000000000002" demo_secret 6 "bob" None None.
Definition demo_store : store := run demo_mac "pepper" demo_config [demo_create; demo_other] None.
Definition demo_token : string := demo_id +:+ "." +:+ demo_secret.

Lemma validate_sound_witness :
  ∃ r, (validate (D := Identity.store) demo_mac "pepper" None 7 demo_token None demo_store).1 = Ok r ∧ (7 < s_expires_at r)%Z.
Proof.
  destruct (validate (D := Identity.store) demo_mac "pepper" None 7 demo_token None demo_store) as [[r|e] s'] eqn:E;
    [|vm_compute in E; discriminate].
  destruct (validate_sound demo_mac "pepper" demo_config None [demo_create; demo_other] 7 demo_token None r s'
    (demo_mac_inj "pepper") E) as (_ & _ & (t & Ht & Hlt) & _).
  exists r. split; [reflexivity|]. vm_compute in Ht. injection Ht as <-. exact Hlt.
Defined.

Lemma issued_token_valid_witness :
  ∃ r, s_user_id r = "ann" ∧ (validate (D := Identity.store) demo_mac "pepper" None 7 demo_token None demo_store).1 = Ok r.
Proof.
  destruct (create (D := Identity.store) demo_mac "pepper" demo_config None demo_id demo_secret 5 "ann" None None None)
    as [[tk|e] s] eqn:E; [|vm_compute in E; discriminate].
  assert (t_value tk = demo_token ∧ (7 <? t_expires_at tk)%Z = true ∧ run demo_mac "pepper" demo_config [demo_other] s = demo_store)
    as (Hv & Hlt & Hs).
  { vm_compute in E. injection E as <- <-. repeat split; vm_compute; reflexivity. }
  apply Z.ltb_lt in Hlt.
  destruct (issued_token_valid demo_mac "pepper" demo_config (None : option Identity.store) [] None demo_id demo_secret 5 "ann" None None
    tk s [demo_other] 7 None 7 demo_mac_ascii) as (r & Hr & Hu).
  - vm_compute. reflexivity.
  - vm_compute. reflexivity.
  - exact E.
  - constructor; [|constructor]. split; [reflexivity|]. split; [reflexivity|]. intros t Ht. vm_compute in Ht. injection Ht as <-. lia.
  - reflexivity.
  - exact Hlt.
  - reflexivity.
  - exists r. split; [exact Hu|]. rewrite Hv, Hs in Hr. rewrite Hr. reflexivity.
Defined.
End Sessions.
