(* ===== verification/Installer.v ===== *)
(** * The installer's state machine (installer.py)

    The state is the file: [None] when it is missing, otherwise its JSON
    object, whose ["state"] entry names the state.  [advance] takes the file
    lock and is one step. *)

From Stdlib Require Import ZArith Lia.
From stdpp Require Import base decidable numbers list strings.
From S2P Require Import Prelude PyData.

Module Installer.

Inductive InstallState : Type :=
  | NOT_STARTED | REQUIREMENTS_CHECKED | CONFIGURED | DATABASE_READY
  | ADMIN_READY | THEME_READY | COMPLETED.

#[global] Instance InstallState_eq_dec : EqDecision InstallState.
Proof. solve_decision. Defined.

Definition state_value (s : InstallState) : string :=
  match s with
  | NOT_STARTED => "not_started"
  | REQUIREMENTS_CHECKED => "requirements_checked"
  | CONFIGURED => "configured"
  | DATABASE_READY => "database_ready"
  | ADMIN_READY => "admin_ready"
  | THEME_READY => "theme_ready"
  | COMPLETED => "completed"
  end.

Definition INSTALL_SEQUENCE : list InstallState :=
  [NOT_STARTED; REQUIREMENTS_CHECKED; CONFIGURED; DATABASE_READY; ADMIN_READY; THEME_READY; COMPLETED].

Definition store : Type := option (dict string string).

(** [InstallState(value)]. *)
Definition state_of (v : string) : result InstallState :=
  match List.find (λ s, String.eqb (state_value s) v) INSTALL_SEQUENCE with
  | Some s => Ok s
  | None => fail ValueErr "not a valid InstallState"
  end.

Definition read_store (st : store) : result InstallState :=
  let data := or_default st [("state", state_value NOT_STARTED)] in
  match dict_get data "state" with
  | Some v => state_of v
  | None => fail KeyErr "state"
  end.

Definition read : M store InstallState := λ st, (read_store st, st).

(** [INSTALL_SEQUENCE.index(s)]. *)
Fixpoint index_of (s : InstallState) (l : list InstallState) : nat :=
  match l with
  | [] => 0
  | x :: l => if decide (x = s) then 0 else S (index_of s l)
  end.

(** The state expected after [current]. *)
Definition expected_after (current : InstallState) : option InstallState :=
  INSTALL_SEQUENCE !! S (index_of current INSTALL_SEQUENCE).

Definition validate_transition (target : InstallState) : M store InstallState :=
  current ← read;
  if bool_decide (target = current) then mret current
  else if bool_decide (Some target = expected_after current) then mret current
  else raise InvalidInstallTransition "cannot transition".

Definition write_unlocked (s : InstallState) : M store unit :=
  put_st (Some [("state", state_value s)]).

Definition advance (target : InstallState) : M store InstallState :=
  current ← validate_transition target;
  if bool_decide (target = current) then mret current
  else _ ← write_unlocked target; mret target.

(** ** Properties *)

Abbreviation rank s := (index_of s INSTALL_SEQUENCE).

Lemma state_of_value s : state_of (state_value s) = Ok s.
Proof. by destruct s. Qed.

Lemma read_written s : read_store (Some [("state", state_value s)]) = Ok s.
Proof. apply state_of_value. Qed.

Lemma rank_inj s t : rank s = rank t → s = t.
Proof. by destruct s, t. Qed.

Lemma expected_rank s t : expected_after s = Some t ↔ rank t = S (rank s).
Proof. destruct s, t; split; done. Qed.

(** What [advance] does from a readable state, on its three branches. *)
Lemma advance_spec st s t :
  read_store st = Ok s →
  advance t st =
    if decide (t = s) then (Ok t, st)
    else if decide (rank t = S (rank s)) then (Ok t, Some [("state", state_value t)])
    else (fail InvalidInstallTransition "cannot transition", st).
Proof.
  intros Hs. unfold advance. rewrite run_bind.
  assert (validate_transition t st =
    if decide (t = s) then (Ok s, st)
    else if decide (rank t = S (rank s)) then (Ok s, st)
    else (fail InvalidInstallTransition "cannot transition", st)) as ->.
  { unfold validate_transition, read. rewrite run_bind, Hs.
    destruct (decide (t = s)) as [->|Hne]; [by rewrite bool_decide_true by done|].
    rewrite (bool_decide_false (t = s)) by done.
    destruct (decide (rank t = S (rank s))) as [E|E].
    - rewrite bool_decide_true; [done|]. symmetry. by apply expected_rank.
    - rewrite bool_decide_false; [done|]. intros Hx. by apply E, expected_rank. }
  destruct (decide (t = s)) as [->|Hne]; [by rewrite bool_decide_true by done|].
  destruct (decide (rank t = S (rank s))); [|done]. by rewrite (bool_decide_false (t = s)) by done.
Qed.

Definition run (ts : list InstallState) (st : store) : store :=
  foldl (λ st t, post (advance t) st) st ts.

Lemma advance_rank st s t :
  read_store st = Ok s →
  ∃ s', read_store (post (advance t) st) = Ok s' ∧
        (s' = s ∨ (s' = t ∧ rank t = S (rank s))).
Proof.
  intros Hs. unfold post. rewrite (advance_spec st s t Hs).
  destruct (decide (t = s)); [by exists s; auto|].
  destruct (decide _); cbn [snd]; [exists t; split; [apply read_written | auto]|].
  by exists s; auto.
Qed.

(** Every state between the old one and the new one was a target. *)
Lemma run_rank st s ts :
  read_store st = Ok s →
  ∃ s', read_store (run ts st) = Ok s' ∧ rank s ≤ rank s' ∧
        ∀ r, rank s < rank r ≤ rank s' → r ∈ ts.
Proof.
  revert st s. induction ts as [|t ts IH]; intros st s Hs; cbn [run foldl].
  - exists s. split; [done|]. split; [done|]. intros r Hr. lia.
  - destruct (advance_rank st s t Hs) as (s1 & H1 & Hor).
    destruct (IH _ _ H1) as (s' & H' & Hle & Hall).
    exists s'. split; [exact H'|]. destruct Hor as [->|[-> Hr]].
    + split; [done|]. intros r Hrk. right. by apply Hall.
    + split; [lia|]. intros r Hrk. destruct (decide (rank r = rank t)) as [E|E].
      * apply rank_inj in E as ->. left.
      * right. apply Hall. lia.
Qed.

(** The installer only moves forward, one step at a time: after any
    sequence of [advance] calls from a missing file the state can be read, and
    every state of the sequence up to it was the target of one of the calls;
    once COMPLETED, no call changes the file. *)
Theorem install_forward_only (ts us : list InstallState) :
  ∃ s, read_store (run ts None) = Ok s ∧
       (∀ r, 0 < rank r ≤ rank s → r ∈ ts) ∧
       (s = COMPLETED → run us (run ts None) = run ts None).
Proof.
  destruct (run_rank None NOT_STARTED ts) as (s & Hs & _ & Hall); [done|].
  exists s. split; [done|]. split; [done|]. intros ->. revert Hs. generalize (run ts None).
  intros st Hs. induction us as [|u us IH]; [done|].
  assert (post (advance u) st = st) as E.
  { unfold post. rewrite (advance_spec st COMPLETED u Hs). destruct (decide _); [done|].
    destruct (decide (rank u = S (rank COMPLETED))) as [E|]; [|done]. by destruct u. }
  change (run (u :: us) st) with (run us (post (advance u) st)). by rewrite E.
Qed.
End Installer.
