(* ===== verification/RemoteControl.v ===== *)
(** * Remote Control Center (remote_control.py)

    The hostname and record contracts, the gateway plan and the operations of
    [RemoteControlStore].  The state is the file: [None] when it is missing,
    otherwise the record it holds.  A method takes the file lock after it
    checked its arguments, and is one step.  The pydantic models are records
    with their validators as functions; [pydantic] turns the [ValueError] of a
    validator into a [ValidationError] (with the first message: the code
    reports all of them).  [model_dump] and [model_validate] of a record are
    its validation, and two canonical records are equal when the records are. *)

From Stdlib Require Import Ascii ZArith Lia.
From stdpp Require Import base decidable numbers list strings sets.
From S2P Require Import Prelude PyData Regex Installer.

Module RemoteControl.
Import Installer(InstallState, COMPLETED, InstallState_eq_dec).

Definition WEB_LOOPBACK : string * Z := ("127.0.0.1", 8080%Z).
Definition CONTROL_LOOPBACK : string * Z := ("127.0.0.1", 8081%Z).
Definition FORBIDDEN_WAN_BIND_ADDRESSES : list string := ["0.0.0.0"; "::"; "[::]"].

(** ** Hostnames *)

Definition host_char (c : ascii) : bool := is_lower c || is_digit c || one_of ".-" c.

(** The pattern after its look-ahead [(?=.{1,253}$)]. *)
Definition label_edge (c : ascii) : bool := is_lower c || is_digit c.
Definition label_inner (c : ascii) : bool := label_edge c || one_of "-" c.
Definition LABEL : re :=
  Seq (Chr label_edge) (Seq (Opt (Seq (Rep 0 61 (Chr label_inner)) (Chr label_edge))) (Lit ".")).
Definition HOSTNAME : re := Seq (Plus LABEL) (Rep 2 63 (Chr is_lower)).
Definition ERROR_CODE : re :=
  Seq (Chr is_lower) (Rep 0 127 (Chr (λ c, is_lower c || is_digit c || one_of "._-" c))).

(** [ipaddress.ip_address] on a text of [host_char]s: four decimal octets
    without leading zeros. *)
Definition octet_value (l : list ascii) : N := foldl (λ n c, 10 * n + (code c - 48))%N 0%N l.
Definition is_octet (s : string) : bool :=
  let l := chars s in
  negb (bool_decide (l = [])) && forallb is_digit l && (length l <=? 3)
  && (String.eqb s "0" || negb (startswith s "0")) && (octet_value l <=? 255)%N.
Definition is_ipv4 (s : string) : bool :=
  let parts := str_split "." s in (length parts =? 4) && forallb is_octet parts.

Definition is_forbidden_wan_bind (host : string) : bool :=
  bool_decide (casefold (str_strip host) ∈ casefold <$> FORBIDDEN_WAN_BIND_ADDRESSES).

Definition host_candidate (value : string) : string :=
  casefold (rstrip (λ c, bool_decide (c = "."%char)) (str_strip value)).

Definition check_candidate (label candidate : string) : result string :=
  let refuse b msg := fail_if b InvalidRemoteHostname (label +:+ msg) in
  _ ← refuse (String.eqb candidate "") " is required";
  _ ← refuse (any_char (λ c, negb (host_char c)) candidate) " contains forbidden characters";
  _ ← refuse (bool_decide (candidate ∈ ["localhost"; "localhost.localdomain"])) " must not be a loopback name";
  _ ← refuse (is_ipv4 candidate) " must not be an IP address";
  _ ← refuse (endswith candidate ".localhost" || endswith candidate ".local")
        " must not be a local resolver name";
  _ ← refuse (negb ((1 <=? str_len candidate) && (str_len candidate <=? 253) && fullmatch HOSTNAME candidate))
        " must be a DNS hostname";
  Ok candidate.

Definition validate_dns_hostname (label value : string) : result string :=
  check_candidate label (host_candidate value).

(** ** The models *)

Inductive TlsMode : Type := ACME | EXISTING_CERTIFICATE | TLS_DISABLED.
Inductive GatewayProviderName : Type := NONE | NGINX | CADDY | TRAEFIK | EXTERNAL.
Inductive RemoteControlStatus : Type :=
  | DISABLED | PREFLIGHT | ENROLLMENT_PENDING | PUBLICATION_PENDING | ENABLED | ERROR.
Inductive WanSurface : Type := CLOSED | ACTIVATE_ONLY | CONTROL_CENTER.

#[global] Instance TlsMode_eq_dec : EqDecision TlsMode.
Proof. solve_decision. Defined.
#[global] Instance Provider_eq_dec : EqDecision GatewayProviderName.
Proof. solve_decision. Defined.
#[global] Instance Status_eq_dec : EqDecision RemoteControlStatus.
Proof. solve_decision. Defined.
#[global] Instance WanSurface_eq_dec : EqDecision WanSurface.
Proof. solve_decision. Defined.

Record RemoteControlIntent : Type := Intent {
  public_hostname : string; control_hostname : string; tls_mode : TlsMode;
  gateway_provider : GatewayProviderName; remote_access_requested : bool;
}.

Record RemoteControlRecord : Type := Rec {
  r_intent : option RemoteControlIntent; r_status : RemoteControlStatus;
  r_rp_id : option string; r_error : option string;
}.

#[global] Instance Intent_eq_dec : EqDecision RemoteControlIntent.
Proof. solve_decision. Defined.
#[global] Instance Rec_eq_dec : EqDecision RemoteControlRecord.
Proof. solve_decision. Defined.

Definition default_record : RemoteControlRecord := Rec None DISABLED None None.

Definition pydantic {A} (r : result A) : result A :=
  result_catch r (λ e, if exn_in e [ValueErr; AssertionErr] then Some (fail ValidationErr (exn_msg e)) else None).

Definition validate_intent_contract (i : RemoteControlIntent) : result RemoteControlIntent :=
  _ ← fail_if (String.eqb (public_hostname i) (control_hostname i)) ValueErr
        "control_hostname must differ from public_hostname";
  if negb (remote_access_requested i) then Ok i
  else
    _ ← fail_if (bool_decide (tls_mode i = TLS_DISABLED)) ValueErr
          "remote access cannot be requested without TLS";
    _ ← fail_if (bool_decide (gateway_provider i = NONE)) ValueErr
          "remote access requires an HTTPS gateway provider";
    Ok i.

Definition validate_intent (i : RemoteControlIntent) : result RemoteControlIntent :=
  pydantic (p ← validate_dns_hostname "public_hostname" (public_hostname i);
            c ← validate_dns_hostname "control_hostname" (control_hostname i);
            validate_intent_contract
              (Intent p c (tls_mode i) (gateway_provider i) (remote_access_requested i))).

(** A validator of [T | None]. *)
Definition validate_option {A} (f : A → result A) (o : option A) : result (option A) :=
  match o with None => Ok None | Some a => b ← f a; Ok (Some b) end.

Definition validate_enrolled_rp_id : option string → result (option string) :=
  validate_option (validate_dns_hostname "enrolled_admin_passkey_rp_id").

Definition validate_error_code : option string → result (option string) :=
  validate_option (λ v, if fullmatch ERROR_CODE v then Ok v
                        else fail ValueErr "invalid remote control error code").

Definition requested (o : option RemoteControlIntent) : bool :=
  match o with Some i => remote_access_requested i | None => false end.

Definition enrolled_admin_passkey (r : RemoteControlRecord) : bool :=
  match r_intent r with
  | Some i => bool_decide (r_rp_id r = Some (control_hostname i))
  | None => false
  end.

Definition status_in (r : RemoteControlRecord) (l : list RemoteControlStatus) : bool :=
  bool_decide (r_status r ∈ l).

Definition validate_observed_invariants (r : RemoteControlRecord) : result RemoteControlRecord :=
  _ ← fail_if (status_in r [PREFLIGHT; ENROLLMENT_PENDING; PUBLICATION_PENDING; ENABLED]
               && negb (requested (r_intent r)))
        ValueErr "active remote control requires requested intent";
  _ ← (if status_in r [PUBLICATION_PENDING; ENABLED] then
         match r_intent r with
         | None => fail ValueErr "requires a remote control intent"
         | Some i => fail_if (bool_decide (r_rp_id r ≠ Some (control_hostname i))) ValueErr
                       "requires an admin passkey enrolled for the exact control_hostname RP ID"
         end
       else Ok tt);
  _ ← fail_if (negb (status_in r [ERROR]) && bool_decide (r_error r ≠ None)) ValueErr
        "error_code is only valid while status is ERROR";
  _ ← fail_if (status_in r [ERROR] && bool_decide (r_error r = None)) ValueErr
        "ERROR requires an error_code";
  Ok r.

Definition validate_record (r : RemoteControlRecord) : result RemoteControlRecord :=
  pydantic (i ← validate_option validate_intent (r_intent r);
            rp ← validate_enrolled_rp_id (r_rp_id r);
            e ← validate_error_code (r_error r);
            validate_observed_invariants (Rec i (r_status r) rp e)).

Definition remote_control_enabled (s : RemoteControlStatus) : bool := bool_decide (s = ENABLED).

Definition wan_surface (r : RemoteControlRecord) : WanSurface :=
  if status_in r [ENABLED] && enrolled_admin_passkey r then CONTROL_CENTER
  else if status_in r [ENROLLMENT_PENDING; PUBLICATION_PENDING] then ACTIVATE_ONLY
  else CLOSED.

Definition publication_surface (r : RemoteControlRecord) : WanSurface :=
  if status_in r [PUBLICATION_PENDING] && enrolled_admin_passkey r then CONTROL_CENTER
  else wan_surface r.

Definition records_match (l r : RemoteControlRecord) : bool := bool_decide (l = r).

(** ** The gateway *)

Record GatewayPlan : Type := Plan {
  p_record : RemoteControlRecord; p_surface : WanSurface;
  p_web : string * Z; p_control : string * Z;
}.

Definition port_ok (b : string * Z) : bool := ((1 <=? b.2) && (b.2 <=? 65535))%Z.

Definition check_bind (bind expected : string * Z) : result unit :=
  _ ← fail_if (is_forbidden_wan_bind bind.1) ValueErr "gateway plan cannot bind PLAIK to a WAN address";
  fail_if (bool_decide (bind ≠ expected)) ValueErr "gateway plan must target the loopback PLAIK endpoints".

Definition validate_plan_matches_record (p : GatewayPlan) : result GatewayPlan :=
  record ← validate_record (p_record p);
  _ ← fail_if (bool_decide (p_surface p ≠ publication_surface record)) ValueErr
        "wan_surface must be derived from the validated remote control record";
  _ ← fail_if (bool_decide (p_surface p = ACTIVATE_ONLY) && negb (status_in record [ENROLLMENT_PENDING]))
        ValueErr "ACTIVATE_ONLY is only valid for ENROLLMENT_PENDING";
  _ ← (if bool_decide (p_surface p = CONTROL_CENTER) then
         _ ← fail_if (negb (status_in record [PUBLICATION_PENDING; ENABLED])) ValueErr
               "CONTROL_CENTER is only valid for PUBLICATION_PENDING or ENABLED";
         fail_if (negb (enrolled_admin_passkey record)) ValueErr
           "CONTROL_CENTER requires a passkey for the current control hostname"
       else Ok tt);
  _ ← check_bind (p_web p) WEB_LOOPBACK;
  _ ← check_bind (p_control p) CONTROL_LOOPBACK;
  Ok (Plan record (p_surface p) (p_web p) (p_control p)).

(** [GatewayPlan(...)]: the port bounds, then the model validator. *)
Definition gateway_plan (p : GatewayPlan) : result GatewayPlan :=
  pydantic (_ ← fail_if (negb (port_ok (p_web p) && port_ok (p_control p))) ValueErr
                  "port out of range";
            validate_plan_matches_record p).

Definition from_record (record : RemoteControlRecord) : result GatewayPlan :=
  record ← validate_record record;
  _ ← fail_if (bool_decide (r_intent record = None)) RemoteControlError
        "gateway plan requires a remote control intent";
  gateway_plan (Plan record (publication_surface record) WEB_LOOPBACK CONTROL_LOOPBACK).

Definition plan_for (record : RemoteControlRecord) : result GatewayPlan := from_record record.

Definition plan_intent (p : GatewayPlan) : result RemoteControlIntent :=
  match r_intent (p_record p) with
  | Some i => Ok i
  | None => fail RemoteControlError "gateway plan requires a remote control intent"
  end.

Record GatewayInspection : Type := Inspection {
  i_provider : GatewayProviderName; i_surface : WanSurface;
  i_control_port_public : bool; i_installer_open : bool;
}.

(** [GatewayInspection(...)]. *)
Definition gateway_inspection (i : GatewayInspection) : result GatewayInspection :=
  pydantic (_ ← fail_if (i_control_port_public i) ValueErr "Control Center port 8081 must not be public";
            _ ← fail_if (i_installer_open i) ValueErr "installer must stay closed after completed handoff";
            Ok i).

(** ** RemoteControlStore *)

Definition store : Type := option RemoteControlRecord.

Definition read_store (s : store) : result RemoteControlRecord :=
  match s with None => Ok default_record | Some r => validate_record r end.
Definition read : M store RemoteControlRecord := λ s, (read_store s, s).

Definition write_unlocked (record : RemoteControlRecord) : M store RemoteControlRecord :=
  record ← lift (validate_record record);
  _ ← put_st (Some record);
  mret record.

Definition require_completed (st : InstallState) : result unit :=
  fail_if (bool_decide (st ≠ COMPLETED)) InvalidRemoteControlTransition
    "remote control starts only after installation is COMPLETED".

(** [raise InvalidRemoteControlTransition(...)] under a condition. *)
Definition refuse_if (b : bool) (msg : string) : M store unit :=
  raise_if b InvalidRemoteControlTransition msg.

Definition passkey_rp_id_for_intent (current : RemoteControlRecord) (i : RemoteControlIntent) : option string :=
  if bool_decide (r_rp_id current = Some (control_hostname i)) then r_rp_id current else None.

(** [current.model_copy(update={"status": s, "error_code": e})]. *)
Definition with_status (r : RemoteControlRecord) (s : RemoteControlStatus) (e : option string) : RemoteControlRecord :=
  Rec (r_intent r) s (r_rp_id r) e.

Definition request_remote (i : RemoteControlIntent) (st : InstallState) : M store RemoteControlRecord :=
  _ ← lift (require_completed st);
  i ← lift (validate_intent i);
  _ ← refuse_if (negb (remote_access_requested i)) "remote access was not requested";
  current ← read;
  write_unlocked (Rec (Some i) PREFLIGHT (passkey_rp_id_for_intent current i) None).

Definition fail_unlocked (current : RemoteControlRecord) (code : string) : M store RemoteControlRecord :=
  write_unlocked (with_status current ERROR (Some code)).

Definition preflight_failed (code : string) (st : InstallState) : M store RemoteControlRecord :=
  _ ← lift (require_completed st);
  current ← read;
  _ ← refuse_if (negb (status_in current [PREFLIGHT; ENROLLMENT_PENDING; PUBLICATION_PENDING; ENABLED]))
        "cannot mark preflight failure";
  fail_unlocked current code.

Definition preflight_succeeded (st : InstallState) : M store RemoteControlRecord :=
  _ ← lift (require_completed st);
  current ← read;
  _ ← refuse_if (negb (status_in current [PREFLIGHT])) "preflight success is only valid from PREFLIGHT";
  write_unlocked (with_status current
    (if enrolled_admin_passkey current then PUBLICATION_PENDING else ENROLLMENT_PENDING) None).

Definition record_admin_passkey_enrolled (rp_id : string) (st : InstallState) : M store RemoteControlRecord :=
  _ ← lift (require_completed st);
  rp_id ← lift (validate_dns_hostname "rp_id" rp_id);
  current ← read;
  _ ← refuse_if (negb (status_in current [ENROLLMENT_PENDING]))
        "admin passkey enrollment is only valid during ENROLLMENT_PENDING";
  _ ← refuse_if (bool_decide (wan_surface current ≠ ACTIVATE_ONLY))
        "passkey enrollment requires the activate-only WAN surface";
  _ ← refuse_if (bool_decide (Some rp_id ≠ (control_hostname <$> r_intent current)))
        "passkey RP ID must match the current control_hostname";
  write_unlocked (Rec (r_intent current) PUBLICATION_PENDING (Some rp_id) None).

Definition observe_control_center (expected : RemoteControlRecord) (insp : GatewayInspection) (st : InstallState) :
    M store RemoteControlRecord :=
  _ ← lift (require_completed st);
  _ ← refuse_if (bool_decide (i_surface insp ≠ CONTROL_CENTER)) "ENABLED requires inspected CONTROL_CENTER";
  _ ← refuse_if (i_control_port_public insp || i_installer_open insp)
        "CONTROL_CENTER inspection is not fail-closed";
  current ← read;
  _ ← refuse_if (negb (records_match current expected))
        "remote control record drifted during gateway observation";
  _ ← refuse_if (bool_decide (Some (i_provider insp) ≠ (gateway_provider <$> r_intent current)))
        "CONTROL_CENTER inspection provider does not match intent";
  if status_in current [ENABLED] && enrolled_admin_passkey current then mret current
  else
    _ ← refuse_if (negb (status_in current [PUBLICATION_PENDING]))
          "CONTROL_CENTER observation is only valid during PUBLICATION_PENDING";
    _ ← refuse_if (negb (enrolled_admin_passkey current))
          "CONTROL_CENTER observation requires an enrolled admin passkey";
    write_unlocked (with_status current ENABLED None).

Definition fail_remote (code : string) (st : InstallState) : M store RemoteControlRecord :=
  _ ← lift (require_completed st);
  current ← read;
  _ ← refuse_if (status_in current [DISABLED]) "DISABLED has no WAN failure mode";
  fail_unlocked current code.

Definition fail_if_current (expected : RemoteControlRecord) (code : string) (st : InstallState) :
    M store RemoteControlRecord :=
  _ ← lift (require_completed st);
  current ← read;
  if negb (records_match current expected) then mret current
  else if status_in current [DISABLED] then mret current
  else fail_unlocked current code.

Definition retry_preflight (st : InstallState) : M store RemoteControlRecord :=
  _ ← lift (require_completed st);
  current ← read;
  _ ← refuse_if (negb (status_in current [ERROR])) "retry is only valid from ERROR";
  _ ← refuse_if (negb (requested (r_intent current))) "retry requires requested intent";
  write_unlocked (with_status current PREFLIGHT None).

Definition disable (st : InstallState) : M store RemoteControlRecord :=
  _ ← lift (require_completed st);
  current ← read;
  write_unlocked (Rec (r_intent current) DISABLED (r_rp_id current) None).

(** A call on the store. *)
Inductive op : Type :=
  | Request (i : RemoteControlIntent) (st : InstallState)
  | PreflightFailed (code : string) (st : InstallState)
  | PreflightSucceeded (st : InstallState)
  | PasskeyEnrolled (rp_id : string) (st : InstallState)
  | Observe (expected : RemoteControlRecord) (insp : GatewayInspection) (st : InstallState)
  | FailRemote (code : string) (st : InstallState)
  | FailIfCurrent (expected : RemoteControlRecord) (code : string) (st : InstallState)
  | RetryPreflight (st : InstallState)
  | Disable (st : InstallState).

Definition op_install (o : op) : InstallState :=
  match o with
  | Request _ st | PreflightFailed _ st | PreflightSucceeded st | PasskeyEnrolled _ st
  | Observe _ _ st | FailRemote _ st | FailIfCurrent _ _ st | RetryPreflight st | Disable st => st
  end.

Definition call (o : op) : M store RemoteControlRecord :=
  match o with
  | Request i st => request_remote i st
  | PreflightFailed code st => preflight_failed code st
  | PreflightSucceeded st => preflight_succeeded st
  | PasskeyEnrolled rp st => record_admin_passkey_enrolled rp st
  | Observe e i st => observe_control_center e i st
  | FailRemote code st => fail_remote code st
  | FailIfCurrent e code st => fail_if_current e code st
  | RetryPreflight st => retry_preflight st
  | Disable st => disable st
  end.

Definition run (ops : list op) (s : store) : store := foldl (λ s o, post (call o) s) s ops.

(** ** The abstract machine

    The edges between records, with the call that takes each one. *)

Inductive edge (cur : RemoteControlRecord) : op → RemoteControlRecord → Prop :=
  | edge_request i0 i :
      validate_intent i0 = Ok i → remote_access_requested i = true →
      edge cur (Request i0 COMPLETED) (Rec (Some i) PREFLIGHT (passkey_rp_id_for_intent cur i) None)
  | edge_preflight_failed code :
      r_status cur ≠ DISABLED → r_status cur ≠ ERROR → fullmatch ERROR_CODE code = true →
      edge cur (PreflightFailed code COMPLETED) (with_status cur ERROR (Some code))
  | edge_preflight_known :
      r_status cur = PREFLIGHT → enrolled_admin_passkey cur = true →
      edge cur (PreflightSucceeded COMPLETED) (with_status cur PUBLICATION_PENDING None)
  | edge_preflight_new :
      r_status cur = PREFLIGHT → enrolled_admin_passkey cur = false →
      edge cur (PreflightSucceeded COMPLETED) (with_status cur ENROLLMENT_PENDING None)
  | edge_enrolled rp i :
      r_status cur = ENROLLMENT_PENDING → r_intent cur = Some i →
      validate_dns_hostname "rp_id" rp = Ok (control_hostname i) →
      edge cur (PasskeyEnrolled rp COMPLETED) (Rec (Some i) PUBLICATION_PENDING (Some (control_hostname i)) None)
  | edge_observed insp i :
      r_status cur = PUBLICATION_PENDING → r_intent cur = Some i → r_rp_id cur = Some (control_hostname i) →
      i_surface insp = CONTROL_CENTER → i_provider insp = gateway_provider i →
      i_control_port_public insp = false → i_installer_open insp = false →
      edge cur (Observe cur insp COMPLETED) (with_status cur ENABLED None)
  | edge_failed code :
      r_status cur ≠ DISABLED → fullmatch ERROR_CODE code = true →
      edge cur (FailRemote code COMPLETED) (with_status cur ERROR (Some code))
  | edge_failed_current code :
      r_status cur ≠ DISABLED → fullmatch ERROR_CODE code = true →
      edge cur (FailIfCurrent cur code COMPLETED) (with_status cur ERROR (Some code))
  | edge_retry :
      r_status cur = ERROR → requested (r_intent cur) = true →
      edge cur (RetryPreflight COMPLETED) (with_status cur PREFLIGHT None)
  | edge_disable :
      edge cur (Disable COMPLETED) (Rec (r_intent cur) DISABLED (r_rp_id cur) None).

(** What the store holds. *)
Definition current_of (s : store) : RemoteControlRecord := or_default s default_record.
(** Every record the store can hold is valid: reading it changes nothing. *)
Definition valid (r : RemoteControlRecord) : Prop := validate_record r = Ok r.

(** ** Hostnames *)

Definition check_host (candidate : string) : bool :=
  negb (String.eqb candidate "") && negb (any_char (λ c, negb (host_char c)) candidate)
  && negb (bool_decide (candidate ∈ ["localhost"; "localhost.localdomain"])) && negb (is_ipv4 candidate)
  && negb (endswith candidate ".localhost" || endswith candidate ".local")
  && ((1 <=? str_len candidate) && (str_len candidate <=? 253) && fullmatch HOSTNAME candidate).

Lemma check_candidate_cases label c :
  if check_host c then check_candidate label c = Ok c
  else ∃ msg, check_candidate label c = fail InvalidRemoteHostname msg.
Proof.
  unfold check_candidate, check_host.
  destruct (String.eqb c ""); [by eexists|]. destruct (any_char _ c); [by eexists|].
  destruct (bool_decide (_ ∈ _)); [by eexists|]. destruct (is_ipv4 c); [by eexists|].
  destruct (endswith c ".localhost" || endswith c ".local"); [by eexists|].
  destruct (_ && fullmatch HOSTNAME c); [done | by eexists].
Qed.

Lemma check_candidate_ok label c r : check_candidate label c = Ok r ↔ r = c ∧ check_host c = true.
Proof.
  pose proof (check_candidate_cases label c) as H. destruct (check_host c).
  - rewrite H. naive_solver.
  - destruct H as [msg ->]. split; [done | by intros [_ ?]].
Qed.

Lemma check_host_match c : check_host c = true → fullmatch HOSTNAME c = true ∧ str_len c ≤ 253.
Proof.
  unfold check_host. intros [_ [[_ Hl]%andb_true_iff Hm]%andb_true_iff]%andb_true_iff.
  split; [done | by apply Nat.leb_le].
Qed.

Lemma host_plain c : fullmatch HOSTNAME c = true → ∀ a, a ∈ chars c → host_char a && plain_char a = true.
Proof. apply fullmatch_all. vm_compute. reflexivity. Qed.

(** The last label of a hostname is made of letters. *)
Lemma host_last c : fullmatch HOSTNAME c = true → ∃ l a, chars c = l ++ [a] ∧ is_lower a = true.
Proof.
  intros (x & y & E & _ & Hy)%fullmatch_correct. apply (lang_chr_rep is_lower 2 63) in Hy as [Hl Hy].
  destruct y as [|a y _] using rev_ind; [simpl in Hl; lia|].
  exists (x ++ y), a. split; [by rewrite E, (assoc_L (++))|]. apply Hy. set_solver.
Qed.

Lemma host_candidate_fixed c : fullmatch HOSTNAME c = true → host_candidate c = c.
Proof.
  intros H. assert (∀ a, a ∈ chars c → plain_char a = true) as Hp.
  { intros a Ha. by apply (host_plain c H) in Ha as [_ ?]%andb_true_iff. }
  unfold host_candidate. rewrite (str_strip_plain c) by done.
  assert (rstrip (λ c, bool_decide (c = "."%char)) c = c) as ->; [|by apply casefold_plain].
  destruct (host_last c H) as (l & a & E & Ha). unfold rstrip. rewrite E, reverse_app. simpl.
  rewrite bool_decide_false by (by intros ->). 
  rewrite reverse_cons, reverse_involutive, <-E. apply of_chars_chars.
Qed.

Lemma validate_host_ok label v c : validate_dns_hostname label v = Ok c ↔ c = host_candidate v ∧ check_host c = true.
Proof. unfold validate_dns_hostname. rewrite check_candidate_ok. naive_solver. Qed.

(** A validated hostname is its own canonical form, whatever the label. *)
Lemma validate_host_stable label label' v c :
  validate_dns_hostname label v = Ok c → validate_dns_hostname label' c = Ok c.
Proof.
  intros [-> H]%validate_host_ok. apply validate_host_ok. split; [|done].
  symmetry. apply host_candidate_fixed. by apply check_host_match in H as [? _].
Qed.

Lemma validate_host_err label v e : validate_dns_hostname label v = Err e → exn_cls e = InvalidRemoteHostname.
Proof.
  unfold validate_dns_hostname. pose proof (check_candidate_cases label (host_candidate v)) as H.
  destruct (check_host _); [by rewrite H|]. destruct H as [msg ->]. by intros [= <-].
Qed.

(** ** Records *)

Lemma pydantic_ok {A} (r : result A) a : pydantic r = Ok a ↔ r = Ok a.
Proof.
  destruct r as [b|e]; [done|]. unfold pydantic, result_catch. destruct (exn_in _ _); done.
Qed.

Lemma validate_option_ok {A} (f : A → result A) o o' :
  validate_option f o = Ok o' ↔ match o with None => o' = None | Some a => ∃ b, f a = Ok b ∧ o' = Some b end.
Proof.
  destruct o as [a|]; simpl; [|naive_solver]. rewrite bind_result_ok. naive_solver.
Qed.

(** A validator whose conditions are decided. *)
Ltac solve_validator := cbn; split; [try done; by intros [= <-] | intros [-> ?]; done].

Definition intent_contract (i : RemoteControlIntent) : bool :=
  negb (String.eqb (public_hostname i) (control_hostname i))
  && (negb (remote_access_requested i)
      || negb (bool_decide (tls_mode i = TLS_DISABLED)) && negb (bool_decide (gateway_provider i = NONE))).

Lemma intent_contract_ok i j : validate_intent_contract i = Ok j ↔ j = i ∧ intent_contract i = true.
Proof.
  unfold validate_intent_contract, intent_contract.
  destruct (String.eqb _ _), (remote_access_requested i), (bool_decide (tls_mode i = _)),
    (bool_decide (gateway_provider i = _)); solve_validator.
Qed.

Definition host_valid (h : string) : Prop := ∀ label, validate_dns_hostname label h = Ok h.

Definition intent_valid (i : RemoteControlIntent) : Prop :=
  host_valid (public_hostname i) ∧ host_valid (control_hostname i) ∧ intent_contract i = true.

Lemma validate_intent_valid i j : validate_intent i = Ok j → intent_valid j.
Proof.
  unfold validate_intent. rewrite pydantic_ok.
  intros (p & Hp & (c & Hc & [-> H]%intent_contract_ok)%bind_result_ok)%bind_result_ok.
  split_and!; simpl; [by intros label; eapply validate_host_stable..|done].
Qed.

Lemma intent_valid_iff i : validate_intent i = Ok i ↔ intent_valid i.
Proof.
  split; [apply validate_intent_valid|]. intros (Hp & Hc & H). unfold validate_intent. apply pydantic_ok.
  rewrite Hp, Hc. cbn [mbind result_bind]. apply intent_contract_ok. by destruct i.
Qed.

Definition invariants_ok (r : RemoteControlRecord) : bool :=
  (negb (status_in r [PREFLIGHT; ENROLLMENT_PENDING; PUBLICATION_PENDING; ENABLED]) || requested (r_intent r))
  && (negb (status_in r [PUBLICATION_PENDING; ENABLED]) || enrolled_admin_passkey r)
  && eqb (status_in r [ERROR]) (negb (bool_decide (r_error r = None))).

Lemma observed_invariants_ok r r' : validate_observed_invariants r = Ok r' ↔ r' = r ∧ invariants_ok r = true.
Proof.
  destruct r as [[i|] s rp [e|]]; unfold validate_observed_invariants, invariants_ok, enrolled_admin_passkey;
    destruct s; cbn; try (destruct (remote_access_requested i); cbn);
    try (rewrite bool_decide_not; destruct (bool_decide (rp = _))); solve_validator.
Qed.

(** The declarative reading of a valid record. *)
Definition rec_ok (r : RemoteControlRecord) : Prop :=
  (∀ i, r_intent r = Some i → intent_valid i) ∧ (∀ h, r_rp_id r = Some h → host_valid h) ∧
  (∀ e, r_error r = Some e → fullmatch ERROR_CODE e = true) ∧ invariants_ok r = true.

Lemma validate_rec_ok r r' : validate_record r = Ok r' → rec_ok r'.
Proof.
  unfold validate_record. rewrite pydantic_ok.
  intros (io & Hok & (ro & Hok0 & (eo & Hok1 & [-> H]%observed_invariants_ok)%bind_result_ok)%bind_result_ok)%bind_result_ok.
  split_and!; simpl; [..|done].
  - intros i ->. apply validate_option_ok in Hok. destruct (r_intent r); naive_solver eauto using validate_intent_valid.
  - intros h -> label. unfold validate_enrolled_rp_id in Hok0. apply validate_option_ok in Hok0.
    destruct (r_rp_id r); [|done]. destruct Hok0 as (b & Hb & [= ->]). by eapply validate_host_stable.
  - intros e ->. unfold validate_error_code in Hok1. apply validate_option_ok in Hok1. destruct (r_error r); [|done].
    destruct Hok1 as (b & Hb & [= ->]). destruct (fullmatch ERROR_CODE s) eqn:E; naive_solver.
Qed.

Lemma valid_iff r : valid r ↔ rec_ok r.
Proof.
  split; [apply validate_rec_ok|]. intros (Hi & Hh & He & H). unfold valid, validate_record. apply pydantic_ok.
  assert (validate_option validate_intent (r_intent r) = Ok (r_intent r)) as ->.
  { apply validate_option_ok. destruct (r_intent r) as [i|]; [|done]. exists i. split; [|done]. by apply intent_valid_iff, Hi. }
  assert (validate_enrolled_rp_id (r_rp_id r) = Ok (r_rp_id r)) as ->.
  { apply validate_option_ok. destruct (r_rp_id r) as [h|]; [|done]. exists h. split; [|done]. by apply Hh. }
  assert (validate_error_code (r_error r) = Ok (r_error r)) as ->.
  { apply validate_option_ok. destruct (r_error r) as [e|]; [|done]. exists e. by rewrite He. }
  cbn [mbind result_bind]. apply observed_invariants_ok. by destruct r.
Qed.

Lemma validate_record_valid r r' : validate_record r = Ok r' → valid r'.
Proof. intros H. by apply valid_iff, (validate_rec_ok r). Qed.

(** ** The store implements the machine *)

Definition store_ok (s : store) : Prop := match s with None => True | Some r => valid r end.

Lemma default_valid : valid default_record.
Proof. by vm_compute. Qed.

Lemma current_valid s : store_ok s → valid (current_of s).
Proof. destruct s; [done | intros _; apply default_valid]. Qed.

Lemma run_read_rec {A} (k : RemoteControlRecord → M store A) s :
  store_ok s → (read ≫= k) s = k (current_of s) s.
Proof. intros H. rewrite run_bind. unfold read. destruct s as [r|]; [|done]. simpl. by rewrite H. Qed.

Lemma run_refuse {A} b msg (k : unit → M store A) s :
  (refuse_if b msg ≫= k) s = if b then (fail InvalidRemoteControlTransition msg, s) else k tt s.
Proof. unfold refuse_if, raise_if. rewrite run_bind_lift. by destruct b. Qed.

Lemma run_completed {A} st (k : unit → M store A) s :
  (lift (require_completed st) ≫= k) s =
  if decide (st = COMPLETED) then k tt s
  else (fail InvalidRemoteControlTransition "remote control starts only after installation is COMPLETED", s).
Proof.
  rewrite run_bind_lift. unfold require_completed. rewrite bool_decide_not. by destruct (decide (st = COMPLETED));
    [rewrite bool_decide_true by done|rewrite bool_decide_false by done].
Qed.

Lemma run_write_rec r s :
  write_unlocked r s = match validate_record r with Ok r' => (Ok r', Some r') | Err e => (Err e, s) end.
Proof. unfold write_unlocked. rewrite run_bind_lift. by destruct (validate_record r). Qed.

Lemma status_in_iff r l : status_in r l = true ↔ r_status r ∈ l.
Proof. apply bool_decide_eq_true. Qed.

(** Validating a record made of validated parts changes nothing in it. *)
Lemma validate_canonical r r' :
  (∀ i, r_intent r = Some i → intent_valid i) → (∀ h, r_rp_id r = Some h → host_valid h) →
  validate_record r = Ok r' → r' = r ∧ rec_ok r.
Proof.
  intros Hi Hh H. pose proof (validate_rec_ok _ _ H) as Hok. enough (r' = r) as -> by done. revert H.
  unfold validate_record. rewrite pydantic_ok.
  intros (io & H1 & (ro & H2 & (eo & H3 & [-> _]%observed_invariants_ok)%bind_result_ok)%bind_result_ok)%bind_result_ok.
  assert (io = r_intent r) as ->.
  { apply validate_option_ok in H1. destruct (r_intent r) as [i|]; [|done]. destruct H1 as (b & Hb & ->).
    specialize (Hi i eq_refl). apply intent_valid_iff in Hi. congruence. }
  assert (ro = r_rp_id r) as ->.
  { apply validate_option_ok in H2. destruct (r_rp_id r) as [h|]; [|done]. destruct H2 as (b & Hb & ->).
    rewrite (Hh h eq_refl) in Hb. congruence. }
  assert (eo = r_error r) as ->; [|by destruct r].
  apply validate_option_ok in H3. destruct (r_error r) as [e|]; [|done]. destruct H3 as (b & Hb & ->).
  destruct (fullmatch _ _); naive_solver.
Qed.

(** Writing a record whose intent and passkey are the ones of a valid record,
    or validated ones. *)
Lemma run_write_rec_canonical r s :
  (∀ i, r_intent r = Some i → intent_valid i) → (∀ h, r_rp_id r = Some h → host_valid h) →
  (write_unlocked r s = (Ok r, Some r) ∧ rec_ok r) ∨ (∃ e, write_unlocked r s = (Err e, s)) .
Proof.
  intros Hi Hh. rewrite run_write_rec. destruct (validate_record r) as [r'|e] eqn:E; [|right; by exists e].
  destruct (validate_canonical r r' Hi Hh E) as [-> H]. by left.
Qed.

Lemma run_write_valid r s : valid r → write_unlocked r s = (Ok r, Some r).
Proof. intros H. rewrite run_write_rec. by rewrite H. Qed.

Definition parts_valid (r : RemoteControlRecord) : Prop :=
  (∀ i, r_intent r = Some i → intent_valid i) ∧ (∀ h, r_rp_id r = Some h → host_valid h).

Lemma valid_parts r : valid r → parts_valid r.
Proof. intros H%valid_iff. split; apply H. Qed.

Lemma invariants_iff r : invariants_ok r = true ↔
  (r_status r ∈ [PREFLIGHT; ENROLLMENT_PENDING; PUBLICATION_PENDING; ENABLED] → requested (r_intent r) = true) ∧
  (r_status r ∈ [PUBLICATION_PENDING; ENABLED] → enrolled_admin_passkey r = true) ∧
  (r_status r = ERROR ↔ r_error r ≠ None).
Proof.
  unfold invariants_ok. rewrite !andb_true_iff, !orb_true_iff, !negb_true_iff, eqb_true_iff.
  unfold status_in. rewrite !bool_decide_eq_false.
  assert (bool_decide (r_status r ∈ [ERROR]) = negb (bool_decide (r_error r = None)) ↔ (r_status r = ERROR ↔ r_error r ≠ None)) as ->.
  { destruct (decide (r_status r = ERROR)) as [E|E].
    - rewrite (bool_decide_true (_ ∈ _)) by (rewrite E; set_solver). destruct (r_error r); simpl; naive_solver.
    - rewrite (bool_decide_false (_ ∈ _)) by set_solver. destruct (r_error r); simpl; naive_solver. }
  destruct (decide (r_status r ∈ [PREFLIGHT; ENROLLMENT_PENDING; PUBLICATION_PENDING; ENABLED])),
    (decide (r_status r ∈ [PUBLICATION_PENDING; ENABLED])); tauto.
Qed.

(** The edges lead to valid records. *)
Lemma edge_valid cur o r : valid cur → edge cur o r → valid r.
Proof.
  intros Hv He. pose proof (valid_parts cur Hv) as [Hi Hh].
  apply valid_iff in Hv as (_ & _ & _ & (Hact & Hpub & Herr)%invariants_iff).
  apply valid_iff. destruct He; split_and!; simpl; try done; try (intros ? [= <-]; done).
  - intros ? [= <-]. by eapply validate_intent_valid.
  - intros h. unfold passkey_rp_id_for_intent. destruct (bool_decide _); [apply Hh|done].
  - apply invariants_iff. simpl. split_and!; try done; set_solver.
  all: try (apply invariants_iff; simpl; split_and!; try done; set_solver).
  - apply invariants_iff. simpl. split_and!; [intros _; apply Hact; set_solver | by intros _ | done].
  - apply invariants_iff. simpl. split_and!; [intros _; apply Hact; set_solver | set_solver | done].
  - intros ? [= <-]. by apply Hi.
  - intros ? [= <-]. by eapply Hi.
  - apply invariants_iff. simpl. split_and!; [|intros _; by apply bool_decide_true|done].
    intros _. change (requested (Some i) = true). rewrite <-H0. apply Hact. set_solver.
  - apply invariants_iff. simpl. split_and!; [intros _; apply Hact; set_solver | intros _; apply Hpub; set_solver | done].
  - apply invariants_iff. simpl. split_and!; [by intros _ | set_solver | done].
Qed.

(** The calls that return without writing. *)
Definition idle (cur : RemoteControlRecord) (o : op) : Prop :=
  match o with
  | Observe e _ _ => e = cur ∧ r_status cur = ENABLED
  | FailIfCurrent e _ _ => e ≠ cur ∨ r_status cur = DISABLED
  | _ => False
  end.

(** What a call may do: refuse and leave the file, return the record as it
    is, or take an edge of the machine. *)
Definition call_spec (o : op) (s : store) : Prop :=
  match call o s with
  | (Ok r, s') => (s' = s ∧ r = current_of s ∧ idle (current_of s) o)
                  ∨ (s' = Some r ∧ edge (current_of s) o r)
  | (Err _, s') => s' = s
  end.

Lemma fail_unlocked_spec cur code s :
  parts_valid cur →
  (fail_unlocked cur code s = (Ok (with_status cur ERROR (Some code)), Some (with_status cur ERROR (Some code)))
   ∧ fullmatch ERROR_CODE code = true) ∨ (∃ e, fail_unlocked cur code s = (Err e, s)).
Proof.
  intros [Hi Hh]. unfold fail_unlocked.
  destruct (run_write_rec_canonical (with_status cur ERROR (Some code)) s) as [(E & _ & _ & He & _)|H]; [done..| |by right].
  left. split; [done|]. by apply He.
Qed.

(** The guards of a method, one after the other. *)
Ltac guards Hs :=
  repeat first
    [ rewrite run_completed; destruct (decide (_ = COMPLETED)) as [->|]; [|reflexivity]
    | rewrite (run_read_rec _ _ Hs)
    | rewrite run_refuse; match goal with |- context [if ?b then (fail _ _, _) else _] => destruct b eqn:? end;
      [reflexivity|] ].

Lemma request_sound i0 st s : store_ok s → call_spec (Request i0 st) s.
Proof.
  intros Hs. unfold call_spec, call, request_remote. guards Hs. rewrite run_bind_lift.
  destruct (validate_intent i0) as [i|] eqn:Ei; [|reflexivity]. guards Hs. bool_to_prop.
  pose proof (current_valid s Hs) as Hv. pose proof (edge_valid _ _ _ Hv (edge_request (current_of s) i0 i Ei Heqb)) as Hr.
  rewrite run_write_valid by done. right. split; [done|]. by constructor.
Qed.

Lemma preflight_succeeded_sound st s : store_ok s → call_spec (PreflightSucceeded st) s.
Proof.
  intros Hs. unfold call_spec, call, preflight_succeeded. guards Hs. bool_to_prop. apply status_in_iff, list_elem_of_singleton in Heqb.
  assert (edge (current_of s) (PreflightSucceeded COMPLETED) (with_status (current_of s)
    (if enrolled_admin_passkey (current_of s) then PUBLICATION_PENDING else ENROLLMENT_PENDING) None)) as He.
  { destruct (enrolled_admin_passkey _) eqn:E; by constructor. }
  rewrite run_write_valid; [by right|]. eapply edge_valid; [by apply current_valid|exact He].
Qed.

Lemma enrolled_sound rp st s : store_ok s → call_spec (PasskeyEnrolled rp st) s.
Proof.
  intros Hs. unfold call_spec, call, record_admin_passkey_enrolled. guards Hs. rewrite run_bind_lift.
  destruct (validate_dns_hostname _ rp) as [h|] eqn:Eh; [|reflexivity]. guards Hs. bool_to_prop.
  apply status_in_iff, list_elem_of_singleton in Heqb.
  destruct (r_intent (current_of s)) as [i|] eqn:Ei; [|by destruct Heqb1]. 
  assert (h = control_hostname i) as -> by (apply dec_stable; intros Hne; apply Heqb1; simpl; congruence).
  pose proof (edge_enrolled (current_of s) rp i Heqb Ei Eh) as He.
  rewrite run_write_valid; [by right|]. eapply edge_valid; [by apply current_valid|exact He].
Qed.

Lemma observe_sound e insp st s : store_ok s → call_spec (Observe e insp st) s.
Proof.
  intros Hs. unfold call_spec, call, observe_control_center. guards Hs. unfold records_match in *. bool_to_prop. subst e.
  destruct (r_intent (current_of s)) as [i|] eqn:Ei; [|by destruct Heqb2].
  assert (i_provider insp = gateway_provider i) as Hp by (apply dec_stable; intros Hne; apply Heqb2; simpl; congruence).
  assert (i_surface insp = CONTROL_CENTER) as Hsf by by apply dec_stable.
  destruct (status_in (current_of s) [ENABLED] && _) eqn:E.
  - apply andb_true_iff in E as [E%status_in_iff%list_elem_of_singleton _]. by left.
  - guards Hs. bool_to_prop. apply status_in_iff, list_elem_of_singleton in Heqb0.
    unfold enrolled_admin_passkey in Heqb1. rewrite Ei in Heqb1. apply bool_decide_eq_true in Heqb1.
    pose proof (edge_observed (current_of s) insp i Heqb0 Ei Heqb1 Hsf Hp H H0) as He.
    rewrite run_write_valid; [by right|]. eapply edge_valid; [by apply current_valid|exact He].
Qed.

Lemma retry_sound st s : store_ok s → call_spec (RetryPreflight st) s.
Proof.
  intros Hs. unfold call_spec, call, retry_preflight. guards Hs. bool_to_prop. apply status_in_iff, list_elem_of_singleton in Heqb.
  pose proof (edge_retry (current_of s) Heqb Heqb0) as He.
  rewrite run_write_valid; [by right|]. eapply edge_valid; [by apply current_valid|exact He].
Qed.

Lemma disable_sound st s : store_ok s → call_spec (Disable st) s.
Proof.
  intros Hs. unfold call_spec, call, disable. guards Hs. pose proof (edge_disable (current_of s)) as He.
  rewrite run_write_valid; [by right|]. eapply edge_valid; [by apply current_valid|exact He].
Qed.

Lemma preflight_failed_sound code st s : store_ok s → call_spec (PreflightFailed code st) s.
Proof.
  intros Hs. pose proof (current_valid s Hs) as Hv.
  unfold call_spec, call, preflight_failed. guards Hs. apply negb_false_iff in Heqb.
  destruct (fail_unlocked_spec (current_of s) code s (valid_parts _ Hv)) as [[-> Hm]|[e ->]]; [|done].
  right. split; [done|]. unfold status_in in Heqb.
  apply edge_preflight_failed; [intros E; by rewrite E in Heqb..|done].
Qed.

Lemma fail_remote_sound code st s : store_ok s → call_spec (FailRemote code st) s.
Proof.
  intros Hs. pose proof (current_valid s Hs) as Hv. unfold call_spec, call, fail_remote. guards Hs.
  destruct (fail_unlocked_spec (current_of s) code s (valid_parts _ Hv)) as [[-> Hm]|[e ->]]; [|done].
  right. split; [done|]. apply edge_failed; [|done]. intros E.
  apply bool_decide_eq_false in Heqb. by apply Heqb, list_elem_of_singleton.
Qed.

Lemma fail_if_current_sound e code st s : store_ok s → call_spec (FailIfCurrent e code st) s.
Proof.
  intros Hs. pose proof (current_valid s Hs) as Hv. unfold call_spec, call, fail_if_current. guards Hs.
  unfold records_match. destruct (bool_decide (current_of s = e)) eqn:E; bool_to_prop; cbn [negb].
  2:{ left. split_and!; [done..|]. left. congruence. }
  subst e. destruct (status_in _ [DISABLED]) eqn:Ed.
  { left. split_and!; [done..|]. right. by apply status_in_iff, list_elem_of_singleton in Ed. }
  destruct (fail_unlocked_spec (current_of s) code s (valid_parts _ Hv)) as [[-> Hm]|[e ->]]; [|done].
  right. split; [done|]. apply edge_failed_current; [|done]. intros E.
  apply bool_decide_eq_false in Ed. by apply Ed, list_elem_of_singleton.
Qed.

Lemma call_sound o s : store_ok s → call_spec o s.
Proof.
  destruct o; auto using request_sound, preflight_failed_sound, preflight_succeeded_sound, enrolled_sound,
    observe_sound, fail_remote_sound, fail_if_current_sound, retry_sound, disable_sound.
Qed.

(** A guard that does not refuse. *)
Ltac pass := rewrite run_refuse; match goal with
  | |- context [if ?b then (fail _ _, _) else _] =>
      replace b with false by (symmetry; first [reflexivity | assumption | apply neq_self])
  end; cbv beta iota.

(** ... and every edge is taken by its call. *)
Lemma edge_taken s o r : store_ok s → edge (current_of s) o r → call o s = (Ok r, Some r).
Proof.
  intros Hs He. pose proof (edge_valid _ _ _ (current_valid s Hs) He) as Hr.
  remember (current_of s) as cur eqn:Ec. symmetry in Ec.
  destruct He as [i0 i Hi Hq|code H1 H2 Hm|H1 H2|H1 H2|rp i H1 H2 H3|insp i H1 H2 H3 H4 H5 H6 H7|code H1 Hm|code H1 Hm|H1 H2|];
    destruct cur as [io st rpo eo]; cbn [r_status r_intent r_rp_id] in *; subst;
    unfold call, request_remote, preflight_failed, preflight_succeeded, record_admin_passkey_enrolled,
      observe_control_center, fail_remote, fail_if_current, retry_preflight, disable, fail_unlocked;
    rewrite run_completed; rewrite decide_True by done.
  - rewrite run_bind_lift, Hi. cbv beta iota. rewrite run_refuse, Hq. cbn [negb]. rewrite (run_read_rec _ _ Hs), ?Ec. by apply run_write_valid.
  - rewrite (run_read_rec _ _ Hs), ?Ec. destruct st; try done; pass; by apply run_write_valid.
  - rewrite (run_read_rec _ _ Hs), ?Ec. pass. rewrite H2. by apply run_write_valid.
  - rewrite (run_read_rec _ _ Hs), ?Ec. pass. rewrite H2. by apply run_write_valid.
  - rewrite run_bind_lift, H3. cbv beta iota. rewrite (run_read_rec _ _ Hs), ?Ec. do 3 pass. by apply run_write_valid.
  - destruct insp as [pv sf cp io]. cbn in H4, H5, H6, H7. subst. do 2 pass. rewrite (run_read_rec _ _ Hs), ?Ec.
    rewrite run_refuse. unfold records_match. rewrite bool_decide_true by done. cbn [negb]. cbv iota. pass.
    
    assert (status_in (Rec (Some i) PUBLICATION_PENDING (Some (control_hostname i)) eo) [ENABLED] = false) as -> by reflexivity.
    cbn [andb]. cbv iota. pass. rewrite run_refuse. unfold enrolled_admin_passkey. cbn [r_intent r_rp_id].
    rewrite bool_decide_true by done. by apply run_write_valid.
  - rewrite (run_read_rec _ _ Hs), ?Ec. destruct st; try done; pass; by apply run_write_valid.
  - rewrite (run_read_rec _ _ Hs), ?Ec. unfold records_match. rewrite bool_decide_true by done. cbn [negb]. cbv iota.
    destruct st; try done; by apply run_write_valid.
  - rewrite (run_read_rec _ _ Hs), ?Ec. pass. rewrite run_refuse. cbn [r_intent]. rewrite H2. by apply run_write_valid.
  - rewrite (run_read_rec _ _ Hs), ?Ec. by apply run_write_valid.
Qed.

Lemma call_store_ok o s : store_ok s → store_ok (post (call o) s).
Proof.
  intros Hs. pose proof (call_sound o s Hs) as H. unfold call_spec in H. unfold post.
  destruct (call o s) as [[r|e] s']; cbn [snd]; [|by subst].
  destruct H as [[-> _]|[-> He]]; [done|]. eapply edge_valid; [by apply current_valid|exact He].
Qed.

Lemma run_store_ok ops s : store_ok s → store_ok (run ops s).
Proof. revert s. induction ops as [|o ops IH]; intros s Hs; [done|]. apply IH. by apply call_store_ok. Qed.

(** C28: RemoteControlStore implements the transition machine of the module's
    contract, in both directions: on any file it can hold, a call either
    raises and leaves the file, or returns the record as it is (a repeated
    observation, or a conditional failure of another record), or takes an edge
    of [edge] and stores the new record, which is valid again; and every call
    for which the machine has an edge takes it. *)
Theorem remote_control_refines (ops : list op) (o : op) :
  let s := run ops None in
  store_ok s ∧ call_spec o s ∧ ∀ r, edge (current_of s) o r → call o s = (Ok r, Some r).
Proof.
  intros s. assert (store_ok s) as Hs by by apply run_store_ok.
  split_and!; [done|by apply call_sound|]. intros r. by apply edge_taken.
Qed.

(** ** How a file became ENABLED *)

Lemma run_app ops ops' s : run (ops ++ ops') s = run ops' (run ops s).
Proof. apply foldl_app. Qed.

Lemma rc_run_snoc ops o s : run (ops ++ [o]) s = post (call o) (run ops s).
Proof. apply run_app. Qed.

Lemma call_cases o s :
  store_ok s → post (call o) s = s ∨ ∃ r, post (call o) s = Some r ∧ edge (current_of s) o r.
Proof.
  intros Hs. pose proof (call_sound o s Hs) as H. unfold call_spec in H. unfold post.
  destruct (call o s) as [[r|e] s']; cbn [snd]; [|by left].
  destruct H as [[-> _]|[-> He]]; [by left|right; eauto].
Qed.

(** An earlier call enrolled a passkey for [h], while the enrollment for the
    control hostname [h] was pending. *)
Definition enrolled_before (ops : list op) (h : string) : Prop :=
  ∃ pre rp mid i, ops = pre ++ PasskeyEnrolled rp COMPLETED :: mid ∧
    validate_dns_hostname "rp_id" rp = Ok h ∧
    r_status (current_of (run pre None)) = ENROLLMENT_PENDING ∧
    r_intent (current_of (run pre None)) = Some i ∧ control_hostname i = h.

Lemma enrolled_before_snoc ops o h : enrolled_before ops h → enrolled_before (ops ++ [o]) h.
Proof.
  intros (pre & rp & mid & i & -> & H). exists pre, rp, (mid ++ [o]), i. by rewrite <-(assoc_L (++)).
Qed.

Lemma passkey_history ops h : r_rp_id (current_of (run ops None)) = Some h → enrolled_before ops h.
Proof.
  induction ops as [|o ops IH] using rev_ind; [done|]. rewrite rc_run_snoc.
  destruct (call_cases o (run ops None)) as [->|(r & -> & He)]; [by apply run_store_ok|..].
  { intros H. by apply enrolled_before_snoc, IH. }
  cbn [current_of or_default]. inversion He; subst; cbn [r_rp_id with_status]; intros Hh;
    try by apply enrolled_before_snoc, IH.
  - apply enrolled_before_snoc, IH. unfold passkey_rp_id_for_intent in Hh. by destruct (bool_decide _).
  - injection Hh as <-. exists ops, rp, [], i. done.
Qed.

(** The last calls of [ops] after [pre] changed nothing. *)
Definition unchanged_since (pre : list op) (mid : list op) : Prop :=
  ∀ k, run (take k mid) (run pre None) = run pre None.

Record enabling (ops pre mid : list op) (e : RemoteControlRecord) (insp : GatewayInspection)
    (i : RemoteControlIntent) : Prop := {
  en_ops : ops = (pre ++ [Observe e insp COMPLETED]) ++ mid;
  en_before : run pre None = Some e;
  en_pending : r_status e = PUBLICATION_PENDING;
  en_intent : r_intent e = Some i;
  en_after : run ops None = Some (with_status e ENABLED None);
  en_surface : i_surface insp = CONTROL_CENTER;
  en_provider : i_provider insp = gateway_provider i;
  en_closed : i_control_port_public insp = false ∧ i_installer_open insp = false;
  en_unchanged : unchanged_since (pre ++ [Observe e insp COMPLETED]) mid;
  en_passkey : enrolled_before pre (control_hostname i);
}.

Lemma enabled_since ops :
  r_status (current_of (run ops None)) = ENABLED →
  ∃ pre mid e insp i, enabling ops pre mid e insp i.
Proof.
  induction ops as [|o ops IH] using rev_ind; [done|].
  destruct (call_cases o (run ops None)) as [E|(r & E & He)]; [by apply run_store_ok|..].
  - rewrite rc_run_snoc, E. intros H. destruct (IH H) as (pre & mid & e & insp & i & []).
    exists pre, (mid ++ [o]), e, insp, i. split; try done.
    + by rewrite en_ops0, <-(assoc_L (++)).
    + by rewrite rc_run_snoc, E.
    + intros k. destruct (decide (k ≤ length mid)) as [Hk|Hk].
      * rewrite take_app_le by done. apply en_unchanged0.
      * rewrite take_ge by (rewrite length_app; simpl; lia). rewrite rc_run_snoc.
        pose proof (en_unchanged0 (length mid)) as Hm. rewrite firstn_all in Hm. rewrite Hm.
        rewrite <-Hm at 1. rewrite <-run_app, <-en_ops0, E, en_ops0, run_app. exact Hm.
  - rewrite rc_run_snoc, E. intros H. inversion He; subst; try done.
    remember (current_of (run ops None)) as e eqn:Ee.
    exists ops, [], e, insp, i. assert (run ops None = Some e) as Er.
    { destruct (run ops None); [by rewrite Ee|]. by rewrite Ee in H0. }
    split; try done.
    + by rewrite app_nil_r.
    + by rewrite rc_run_snoc, E.
    + intros k. by rewrite take_nil.
    + apply passkey_history. by rewrite Er.
Qed.

(** C27: Control Center is published only through the whole protocol.  If after
    any calls from a missing file the record is ENABLED, one of the calls was
    [observe_control_center] on exactly the stored record, which was
    PUBLICATION_PENDING, with a fail-closed CONTROL_CENTER inspection by the
    provider of the intent; an earlier call had enrolled a passkey whose
    validated RP ID is the control hostname, while that enrollment was
    pending; and no call since the observation changed the file. *)
Theorem enabled_only_by_protocol (ops : list op) :
  remote_control_enabled (r_status (current_of (run ops None))) = true →
  ∃ pre mid e insp i, enabling ops pre mid e insp i.
Proof. unfold remote_control_enabled. rewrite bool_decide_eq_true. apply enabled_since. Qed.

(** ** Gateway plans *)

Lemma publication_surface_spec r :
  valid r →
  publication_surface r =
  match r_status r with
  | PUBLICATION_PENDING | ENABLED => CONTROL_CENTER
  | ENROLLMENT_PENDING => ACTIVATE_ONLY
  | _ => CLOSED
  end.
Proof.
  intros (_ & _ & _ & (_ & Hpub & _)%invariants_iff)%valid_iff.
  unfold publication_surface, wan_surface, status_in. destruct (r_status r) eqn:E; try done;
    rewrite Hpub by set_solver; done.
Qed.

Lemma check_bind_ok bind expected u :
  is_forbidden_wan_bind expected.1 = false → check_bind bind expected = Ok u ↔ bind = expected.
Proof.
  intros Hf. unfold check_bind. destruct u. split.
  - intros (_ & _ & H%fail_if_ok)%bind_result_ok. apply bool_decide_eq_false in H. by apply dec_stable.
  - intros ->. rewrite Hf. cbn [fail_if mbind result_bind]. by rewrite neq_self.
Qed.

Lemma loopback_not_wan :
  is_forbidden_wan_bind WEB_LOOPBACK.1 = false ∧ is_forbidden_wan_bind CONTROL_LOOPBACK.1 = false.
Proof. by vm_compute. Qed.

Definition derived_plan (r : RemoteControlRecord) : GatewayPlan :=
  Plan r (publication_surface r) WEB_LOOPBACK CONTROL_LOOPBACK.

Lemma plan_checks_pass r raw :
  validate_record raw = Ok r →
  validate_plan_matches_record (Plan raw (publication_surface r) WEB_LOOPBACK CONTROL_LOOPBACK) = Ok (derived_plan r).
Proof.
  intros Hr. pose proof (validate_record_valid _ _ Hr) as Hv. pose proof (publication_surface_spec r Hv) as Hs.
  apply valid_iff in Hv as (_ & _ & _ & (_ & Hpub & _)%invariants_iff).
  unfold validate_plan_matches_record. cbn [p_record p_surface p_web p_control]. rewrite Hr. cbn [mbind result_bind].
  rewrite neq_self. cbn [fail_if mbind result_bind].
  assert (∀ b e, is_forbidden_wan_bind e.1 = false → b = e → check_bind b e = Ok tt) as Hb.
  { intros b e He ->. by apply check_bind_ok. }
  rewrite !Hb by (try done; apply loopback_not_wan).
  rewrite Hs. unfold derived_plan. rewrite Hs. unfold status_in. destruct (r_status r) eqn:E; try reflexivity.
  all: rewrite Hpub by set_solver; reflexivity.
Qed.

Lemma gateway_plan_ok p q :
  gateway_plan p = Ok q ↔
  ∃ r, validate_record (p_record p) = Ok r ∧ q = derived_plan r ∧
       p = Plan (p_record p) (publication_surface r) WEB_LOOPBACK CONTROL_LOOPBACK.
Proof.
  unfold gateway_plan. rewrite pydantic_ok. split.
  - intros (_ & _ & H)%bind_result_ok. pose proof H as H'. unfold validate_plan_matches_record in H.
    apply bind_result_ok in H as (r & Hr & H). apply bind_result_ok in H as (_ & Hs%fail_if_ok & H).
    apply bind_result_ok in H as (_ & _ & H). apply bind_result_ok in H as (_ & _ & H).
    apply bind_result_ok in H as ([] & Hw & H). apply bind_result_ok in H as ([] & Hc & H).
    apply check_bind_ok in Hw; [|apply loopback_not_wan]. apply check_bind_ok in Hc; [|apply loopback_not_wan].
    apply bool_decide_eq_false, dec_stable in Hs. destruct p as [raw sf w c]. cbn in *. subst.
    exists r. split_and!; [done| |done]. injection H as <-. done.
  - intros (r & Hr & -> & Hp). rewrite Hp. cbn [p_web p_control].
    assert (port_ok WEB_LOOPBACK && port_ok CONTROL_LOOPBACK = true) as -> by done.
    by apply plan_checks_pass.
Qed.

Lemma from_record_ok r q :
  from_record r = Ok q ↔ ∃ r' i, validate_record r = Ok r' ∧ r_intent r' = Some i ∧ q = derived_plan r'.
Proof.
  unfold from_record. split.
  - intros (r' & Hr & (_ & Hi%fail_if_ok & (r2 & Hr2 & -> & _)%gateway_plan_ok)%bind_result_ok)%bind_result_ok.
    cbn [p_record] in Hr2. pose proof (validate_record_valid _ _ Hr) as Hv. unfold valid in Hv.
    rewrite Hv in Hr2. injection Hr2 as <-. destruct (r_intent r') as [i|] eqn:Ei; [|done]. by exists r', i.
  - intros (r' & i & Hr & Hi & ->). rewrite Hr. cbn [mbind result_bind]. rewrite Hi. cbn [fail_if mbind result_bind bool_decide].
    apply gateway_plan_ok. exists r'. cbn [p_record]. split_and!; [by eapply validate_record_valid|done..].
Qed.

(** C29: A gateway plan is exactly the one its record dictates.  Whatever raw
    plan is constructed, an accepted one holds a valid record, the two
    loopback endpoints, and the surface of the record's status: CONTROL_CENTER
    only for PUBLICATION_PENDING or ENABLED with the passkey of the control
    hostname, the activation page only for ENROLLMENT_PENDING, and CLOSED
    otherwise; and [plan_for] gives this plan for every record a store can
    hold that has an intent. *)
Theorem plans_are_derived (ops : list op) (p q : GatewayPlan) :
  (gateway_plan p = Ok q →
     valid (p_record q) ∧ p_web q = WEB_LOOPBACK ∧ p_control q = CONTROL_LOOPBACK ∧
     (p_surface q = CONTROL_CENTER ↔ r_status (p_record q) ∈ [PUBLICATION_PENDING; ENABLED]) ∧
     (p_surface q = CONTROL_CENTER → enrolled_admin_passkey (p_record q) = true) ∧
     (p_surface q = ACTIVATE_ONLY ↔ r_status (p_record q) = ENROLLMENT_PENDING)) ∧
  (let r := current_of (run ops None) in
   plan_for r = match r_intent r with
                | None => fail RemoteControlError "gateway plan requires a remote control intent"
                | Some _ => Ok (derived_plan r)
                end).
Proof.
  assert (valid (current_of (run ops None))) as Hv by by apply current_valid, run_store_ok.
  split.
  - intros (r & Hr & -> & _)%gateway_plan_ok. pose proof (validate_record_valid _ _ Hr) as Hvr.
    unfold derived_plan. cbn [p_record p_web p_control p_surface]. rewrite (publication_surface_spec r Hvr).
    split; [done|]. apply valid_iff in Hvr as (_ & _ & _ & (_ & Hpub & _)%invariants_iff).
    split_and!; try done; destruct (r_status r) eqn:E; try done; try set_solver.
    all: intros _; apply Hpub; set_solver.
  - cbv zeta. destruct (r_intent _) as [i|] eqn:Hi.
    + apply from_record_ok. by exists (current_of (run ops None)), i.
    + unfold plan_for, from_record. rewrite Hv. cbn [mbind result_bind]. by rewrite Hi.
Qed.

(** ** A run of the protocol *)

Definition demo_intent : RemoteControlIntent := Intent " WWW.Example.org." "Control.example.org" ACME NGINX true.
Definition demo_canonical : RemoteControlIntent := Intent "www.example.org" "control.example.org" ACME NGINX true.
Definition demo_inspection : GatewayInspection := Inspection NGINX CONTROL_CENTER false false.
Definition demo_pending : RemoteControlRecord :=
  Rec (Some demo_canonical) PUBLICATION_PENDING (Some "control.example.org") None.
Definition demo_start : list op :=
  [Request demo_intent COMPLETED; PreflightSucceeded COMPLETED; PasskeyEnrolled "control.example.org" COMPLETED].
Definition demo_ops : list op := demo_start ++ [Observe demo_pending demo_inspection COMPLETED].

Lemma demo_start_run : run demo_start None = Some demo_pending.
Proof. by vm_compute. Qed.

Lemma demo_refused : validate_dns_hostname "host" "127.0.0.1" = fail InvalidRemoteHostname "host must not be an IP address".
Proof. by vm_compute. Qed.

Lemma remote_control_refines_witness :
  edge (current_of (run demo_start None)) (Observe demo_pending demo_inspection COMPLETED)
    (with_status demo_pending ENABLED None) ∧
  call (Observe demo_pending demo_inspection COMPLETED) (run demo_start None)
    = (Ok (with_status demo_pending ENABLED None), Some (with_status demo_pending ENABLED None)).
Proof.
  assert (edge (current_of (run demo_start None)) (Observe demo_pending demo_inspection COMPLETED)
    (with_status demo_pending ENABLED None)) as He.
  { rewrite demo_start_run. by apply (edge_observed demo_pending demo_inspection demo_canonical). }
  split; [exact He|].
  exact (proj2 (proj2 (remote_control_refines demo_start (Observe demo_pending demo_inspection COMPLETED))) _ He).
Defined.

Lemma enabled_only_by_protocol_witness :
  remote_control_enabled (r_status (current_of (run demo_ops None))) = true ∧
  ∃ pre mid e insp i, enabling demo_ops pre mid e insp i.
Proof.
  assert (remote_control_enabled (r_status (current_of (run demo_ops None))) = true) as H by by vm_compute.
  split; [exact H|]. exact (enabled_only_by_protocol demo_ops H).
Defined.

Lemma plans_are_derived_witness :
  gateway_plan (derived_plan demo_pending) = Ok (derived_plan demo_pending) ∧
  valid (p_record (derived_plan demo_pending)).
Proof.
  assert (gateway_plan (derived_plan demo_pending) = Ok (derived_plan demo_pending)) as H by by vm_compute.
  split; [exact H|]. exact (proj1 (proj1 (plans_are_derived demo_start _ _) H)).
Defined.
End RemoteControl.
