(* ===== verification/Pairing.v ===== *)
(** * One-time pairing (pairing.py)

    The pairing store, with [consume] as a thread of several sections: the
    reservation of an attempt under the file lock, the key derivation outside
    it, the commit under the lock, and the clean-up of the [finally] clause.
    The store's file is [None] when it is missing or empty.  Sections are
    atomic: they hold the file lock.  scrypt and SHA-256 are parameters; the
    drawn characters, salts and tokens and the clock readings (aware UTC
    instants, as [utc_now] gives) are arguments.  Opening, permissions and
    symlink checks of the pairing home are not modelled: a failing section is
    a step of its own ([AFailure]). *)

From Stdlib Require Import Ascii ZArith Lia.
From stdpp Require Import base decidable numbers list strings gmap sets.
From S2P Require Import Prelude PyData Regex HashChain Installer RemoteControl.

Module Pairing.
Import HashChain.
Import Installer(InstallState, COMPLETED, InstallState_eq_dec).
Import RemoteControl(validate_dns_hostname, RemoteControlRecord, r_intent, r_status, ENROLLMENT_PENDING,
  requested, control_hostname, pydantic).

Definition PAIRING_TTL : Z := 10 * minute.
Definition ENROLLMENT_SESSION_TTL : Z := 15 * minute.
Definition IN_FLIGHT_LEASE : Z := 30 * second.
Definition MAX_FAILED_ATTEMPTS : Z := 8.
Definition PAIRING_CODE_LENGTH : nat := 8.
Definition PAIRING_ALPHABET : string := "23456789ABCDEFGHJKMNPQRSTVWXYZ".
Definition ACTIVATE_PATH : string := "/activate".
Definition CODE_GROUP : nat := 4.

Record IssuedPairing : Type := Issued {
  is_code : string; is_url : string; is_hostname : string; is_expires_at : Z;
}.

Record ConsumedPairing : Type := Consumed {
  cs_token : string; cs_expires_at : Z; cs_hostname : string;
}.

Record StoredPairing : Type := Stored {
  p_installation_id : string; p_hostname : string;
  p_salt_hex : option string; p_hash_hex : option string;
  p_issued_at : Z; p_expires_at : Z; p_consumed_at : option Z;
  p_failed : Z; p_in_flight : Z; p_in_flight_until : option Z; p_locked : bool;
  p_session_hash : option string; p_session_expires : option Z;
}.

#[global] Instance ConsumedPairing_eq_dec : EqDecision ConsumedPairing.
Proof. solve_decision. Defined.

(** The [StoredPairing] validators. *)
Definition validate_stored (r : StoredPairing) : result StoredPairing :=
  pydantic (h ← validate_dns_hostname "control_hostname" (p_hostname r);
            _ ← fail_if ((p_failed r <? 0)%Z || (p_in_flight r <? 0)%Z) ValueErr "greater than or equal to 0";
            Ok (Stored (p_installation_id r) h (p_salt_hex r) (p_hash_hex r) (p_issued_at r) (p_expires_at r)
                  (p_consumed_at r) (p_failed r) (p_in_flight r) (p_in_flight_until r) (p_locked r)
                  (p_session_hash r) (p_session_expires r))).

(** ** Codes and headers *)

Definition activate_url (hostname : string) : result string :=
  host ← validate_dns_hostname "control_hostname" hostname;
  Ok ("https://" +:+ host +:+ ACTIVATE_PATH).

Definition code_char (c : ascii) : bool := is_digit c || is_upper c.

Definition normalize_pairing_code (value : string) : result string :=
  let compact := List.filter code_char (chars (upper (str_strip value))) in
  if negb (length compact =? PAIRING_CODE_LENGTH) || existsb (λ c, negb (contains_char c PAIRING_ALPHABET)) compact
  then fail PairingRejected "invalid pairing" else Ok (of_chars compact).

Definition format_pairing_code (raw : string) : result string :=
  normalized ← normalize_pairing_code raw;
  Ok (of_chars (take CODE_GROUP (chars normalized)) +:+ "-" +:+ of_chars (drop CODE_GROUP (chars normalized))).

(** [raw]: the characters [secrets.choice] draws from the alphabet. *)
Definition generate_pairing_code (raw : string) : result string := format_pairing_code raw.

(** [s.partition(":")]: the text before the first colon, and the text after
    it when there is one. *)
Fixpoint partition_chars (sep : ascii) (l : list ascii) : list ascii * option (list ascii) :=
  match l with
  | [] => ([], None)
  | c :: l => if decide (c = sep) then ([], Some l)
              else let '(h, t) := partition_chars sep l in (c :: h, t)
  end.

Definition denied {A} : result A := fail PairingDenied "activate is unavailable".
Definition rejected {A} : result A := fail PairingRejected "invalid pairing".
Definition unavailable_exn : exn := Exn PairingStoreUnavailable "pairing store is unavailable".

Definition host_from_header (value : option string) : result string :=
  match value with
  | None => denied
  | Some value =>
      let candidate := casefold (str_strip value) in
      if String.eqb candidate "" || contains_char "/" candidate || contains_char "@" candidate
         || contains_char " " candidate || startswith candidate "[" || endswith candidate "."
      then denied
      else
        let '(host, port) := partition_chars ":" (chars candidate) in
        if match port with Some p => negb (String.eqb (of_chars p) "443") | None => false end then denied
        else
          canonical ← result_catch (validate_dns_hostname "host" (of_chars host))
                        (λ e, if exn_in e [ValueErr] then Some denied else None);
          if negb (String.eqb canonical (of_chars host)) then denied else Ok canonical
  end.

Definition origin_from_header (value : option string) (hostname : string) (required : bool) : result unit :=
  match value with
  | None | Some ""%string => if required then denied else Ok tt
  | Some value =>
      let expected := "https://" +:+ hostname in
      if negb (String.eqb value expected) && negb (String.eqb (casefold value) expected) then denied else Ok tt
  end.

Definition require_completed (st : InstallState) : result unit :=
  fail_if (bool_decide (st ≠ COMPLETED)) PairingDenied "activate is unavailable".

Definition enrollment_control_hostname (record : RemoteControlRecord) (unavailable : exn_class) : result string :=
  match r_intent record with
  | Some i => if bool_decide (r_status record = ENROLLMENT_PENDING) && requested (r_intent record)
              then Ok (control_hostname i) else fail unavailable "activate is unavailable"
  | None => fail unavailable "activate is unavailable"
  end.

(** ** Bytes as hexadecimal text *)

Definition hex_digit (n : N) : ascii := ascii_of_N (if (n <? 10)%N then 48 + n else 87 + n).
Definition hex (s : string) : string :=
  of_chars (concat ((λ c, [hex_digit (code c / 16); hex_digit (code c mod 16)]) <$> chars s)).

Definition hex_value (c : ascii) : option N :=
  if is_digit c then Some (code c - 48)%N
  else if in_range "a" "f" c then Some (code c - 87)%N
  else if in_range "A" "F" c then Some (code c - 55)%N else None.

(** [bytes.fromhex]: ASCII white space is skipped between bytes. *)
Definition hex_space (c : ascii) : bool := ((9 <=? code c)%N && (code c <=? 13)%N) || (code c =? 32)%N.
Fixpoint fromhex_chars (l : list ascii) : option (list ascii) :=
  match l with
  | [] => Some []
  | c :: l1 =>
      if hex_space c then fromhex_chars l1
      else match l1 with
           | [] => None
           | d :: l2 => match hex_value c, hex_value d, fromhex_chars l2 with
                        | Some a, Some b, Some r => Some (ascii_of_N (16 * a + b) :: r)
                        | _, _, _ => None
                        end
           end
  end.
Definition fromhex (s : string) : result string :=
  match fromhex_chars (chars s) with
  | Some l => Ok (of_chars l)
  | None => fail ValueErr "non-hexadecimal number found in fromhex() arg"
  end.

(** ** The verifier *)

Definition code_password (installation_id hostname code : string) : string :=
  installation_id +:+ String "000" (hostname +:+ String "000" code).

Definition effective_in_flight (r : StoredPairing) (now : Z) : Z :=
  if (p_in_flight r <=? 0)%Z then 0%Z
  else match p_in_flight_until r with
       | None => 0%Z
       | Some u => if (u <=? now)%Z then 0%Z else p_in_flight r
       end.

Definition live_code_verifier (o : option StoredPairing) (installation_id hostname : string) (now : Z) : bool :=
  match o with
  | None => false
  | Some r =>
      String.eqb (p_installation_id r) installation_id && String.eqb (p_hostname r) hostname
      && bool_decide (p_consumed_at r = None) && negb (p_locked r) && (now <? p_expires_at r)%Z
      && negb (bool_decide (p_salt_hex r = None)) && negb (bool_decide (p_hash_hex r = None))
  end.

Definition same_live_code_verifier (o : option StoredPairing) (salt_hex hash_hex installation_id hostname : string)
    (now : Z) : bool :=
  live_code_verifier o installation_id hostname now
  && match o with
     | None => false
     | Some r => bool_decide (p_salt_hex r = Some salt_hex) && bool_decide (p_hash_hex r = Some hash_hex)
     end.

(** ** The store *)

Definition store : Type := option StoredPairing.

Definition read : M store (option StoredPairing) := λ s,
  (match s with
   | None => Ok None
   | Some r => match validate_stored r with Ok r => Ok (Some r) | Err _ => Err unavailable_exn end
   end, s).

Definition write_unlocked (r : StoredPairing) : M store unit := put_st (Some r).

(** [_replace_pairing(record, in_flight=n, in_flight_until=u)]. *)
Definition with_in_flight (r : StoredPairing) (n : Z) (u : option Z) : result StoredPairing :=
  validate_stored (Stored (p_installation_id r) (p_hostname r) (p_salt_hex r) (p_hash_hex r) (p_issued_at r)
    (p_expires_at r) (p_consumed_at r) (p_failed r) n u (p_locked r) (p_session_hash r) (p_session_expires r)).

Definition release_inflight (o : option StoredPairing) (salt_hex hash_hex : string) : M store unit :=
  match o with
  | None => mret tt
  | Some r =>
      if negb (bool_decide (p_salt_hex r = Some salt_hex)) || negb (bool_decide (p_hash_hex r = Some hash_hex))
         || (p_in_flight r <=? 0)%Z
      then mret tt
      else
        let n := (p_in_flight r - 1)%Z in
        r' ← lift (with_in_flight r n (if (n <=? 0)%Z then None else p_in_flight_until r));
        write_unlocked r'
  end.

Definition register_failure (r : StoredPairing) : M store unit :=
  let attempts := (p_failed r + 1)%Z in
  let locked := (MAX_FAILED_ATTEMPTS <=? attempts)%Z in
  let n := if locked then 0%Z else Z.max 0 (p_in_flight r - 1) in
  r' ← lift (validate_stored
    (Stored (p_installation_id r) (p_hostname r)
       (if locked then None else p_salt_hex r) (if locked then None else p_hash_hex r)
       (p_issued_at r) (p_expires_at r) (p_consumed_at r) attempts n
       (if (n <=? 0)%Z then None else p_in_flight_until r) locked
       (p_session_hash r) (p_session_expires r)));
  write_unlocked r'.

Definition fail_if_same_verifier (salt_hex hash_hex installation_id hostname : string) (now : Z) : M store unit :=
  current ← read;
  match current with
  | Some r => if same_live_code_verifier current salt_hex hash_hex installation_id hostname now
              then register_failure r else release_inflight current salt_hex hash_hex
  | None => release_inflight current salt_hex hash_hex
  end.

Section pairing.
Context (scrypt : string → string → string) (sha256_hex : string → string).

(** [_hash_session]: [token.encode("ascii")]. *)
Definition hash_session (token : string) : result string :=
  if any_char non_ascii token then fail ValueErr "ordinal not in range(128)" else Ok (sha256_hex token).

(** [PairingStore.issue]: [now], the characters and the salt it draws are arguments. *)
Definition issue (remote : RemoteControlRecord) (installation_id : string) (st : InstallState)
    (now : Z) (raw salt : string) : M store IssuedPairing :=
  _ ← raise_if (bool_decide (st ≠ COMPLETED)) PairingIssueUnavailable
        "pairing can be issued only after installation is COMPLETED";
  host ← lift (result_catch (enrollment_control_hostname remote PairingIssueUnavailable)
                 (λ e, if exn_in e [PairingIssueUnavailable]
                       then Some (fail PairingIssueUnavailable
                              "pairing can be issued only while remote control is ENROLLMENT_PENDING")
                       else None));
  _ ← raise_if (String.eqb installation_id "") PairingIssueUnavailable "installation identity is unavailable";
  code ← lift (generate_pairing_code raw);
  normalized ← lift (normalize_pairing_code code);
  let digest := scrypt (code_password installation_id host normalized) salt in
  expires ← lift (dt_add now PAIRING_TTL);
  record ← lift (validate_stored (Stored installation_id host (Some (hex salt)) (Some (hex digest)) now expires
                                    None 0 0 None false None None));
  _ ← write_unlocked record;
  url ← lift (activate_url host);
  mret (Issued code url host (p_expires_at record)).

(** ** [consume], section by section *)

(** The arguments of a call, and what its reservation keeps. *)
Record consume_call : Type := Call {
  cl_code : string; cl_installation_id : string; cl_install : InstallState;
  cl_host : string; cl_origin : option string;
}.

Record reservation : Type := Reserved {
  rs_salt_hex : string; rs_hash_hex : string; rs_hostname : string; rs_moment : Z;
}.

(** Before the first section. *)
Definition presented_host (c : consume_call) : result string :=
  _ ← require_completed (cl_install c); host_from_header (Some (cl_host c)).

(** An expired lease gives its attempts back. *)
Definition reset_expired (o : option StoredPairing) (moment : Z) : M store (option StoredPairing) :=
  match o with
  | Some r => if (effective_in_flight r moment =? 0)%Z && negb (p_in_flight r =? 0)%Z
              then r' ← lift (with_in_flight r 0 None); _ ← write_unlocked r'; mret (Some r')
              else mret o
  | None => mret None
  end.

Definition reserve (remote : RemoteControl.store) (c : consume_call) (presented : string) (moment : Z) :
    M store reservation :=
  rc ← lift (RemoteControl.read_store remote);
  host ← lift (enrollment_control_hostname rc PairingDenied);
  _ ← lift (if negb (String.eqb presented host) then denied else Ok tt);
  _ ← lift (origin_from_header (cl_origin c) host true);
  _ ← lift (if String.eqb (cl_installation_id c) "" then rejected else Ok tt);
  record ← read;
  record ← reset_expired record moment;
  _ ← lift (if negb (live_code_verifier record (cl_installation_id c) host moment) then rejected else Ok tt);
  match record with
  | None => raise AssertionErr ""
  | Some r =>
      _ ← lift (if (MAX_FAILED_ATTEMPTS <=? p_failed r + effective_in_flight r moment)%Z then rejected else Ok tt);
      match p_salt_hex r, p_hash_hex r with
      | Some salt_hex, Some hash_hex =>
          until ← lift (dt_add moment IN_FLIGHT_LEASE);
          r' ← lift (with_in_flight r (p_in_flight r + 1) (Some until));
          _ ← write_unlocked r';
          mret (Reserved salt_hex hash_hex host moment)
      | _, _ => raise AssertionErr ""
      end
  end.

(** The control hostname when the guess is committed. *)
Definition commit_hostname (remote : RemoteControl.store) (presented : string) : result string :=
  rc ← RemoteControl.read_store remote;
  host ← enrollment_control_hostname rc PairingDenied;
  if negb (String.eqb presented host) then denied else Ok host.

(** The consumed record: the verifier is dropped. *)
Definition consumed_record (current : StoredPairing) (commit_now expires : Z) (session_hash : string) : StoredPairing :=
  Stored (p_installation_id current) (p_hostname current) None None (p_issued_at current) (p_expires_at current)
    (Some commit_now) (p_failed current) 0 None false (Some session_hash) (Some expires).

Definition accept (current : StoredPairing) (host : string) (commit_now : Z) (token : string) : M store ConsumedPairing :=
  session_hash ← lift (hash_session token);
  expires ← lift (dt_add commit_now ENROLLMENT_SESSION_TTL);
  record ← lift (validate_stored (consumed_record current commit_now expires session_hash));
  _ ← write_unlocked record;
  mret (Consumed token expires host).

Definition commit (remote : RemoteControl.store) (c : consume_call) (presented : string) (rs : reservation)
    (digest : string) (commit_now : Z) (token : string) : M store ConsumedPairing :=
  current ← read;
  host ← try_except (lift (commit_hostname remote presented))
           (λ e, if exn_in e [PairingDenied]
                 then Some (_ ← release_inflight current (rs_salt_hex rs) (rs_hash_hex rs); lift (Err e))
                 else None);
  match current with
  | Some r =>
      if negb (same_live_code_verifier current (rs_salt_hex rs) (rs_hash_hex rs) (cl_installation_id c) host commit_now)
      then _ ← release_inflight current (rs_salt_hex rs) (rs_hash_hex rs); lift rejected
      else
        matches ← lift (compare_digest (hex digest) (rs_hash_hex rs));
        if negb matches then _ ← register_failure r; lift rejected
        else accept r host commit_now token
  | None => _ ← release_inflight current (rs_salt_hex rs) (rs_hash_hex rs); lift rejected
  end.

(** The [finally] clause. *)
Definition release_section (rs : reservation) : M store unit :=
  current ← read; release_inflight current (rs_salt_hex rs) (rs_hash_hex rs).

(** The outer [except] clauses. *)
Definition outer (e : exn) : exn :=
  if exn_in e [PairingStoreUnavailable] then e
  else if exn_in e [OSErr; ValueErr] then unavailable_exn else e.

Inductive pc : Type :=
  | Reserving (c : consume_call) (presented : string)
  | Malformed (c : consume_call) (rs : reservation)
  | Committing (c : consume_call) (presented : string) (rs : reservation) (digest : string)
  | Releasing (rs : reservation) (e : exn)
  | Done (r : result ConsumedPairing).

(** Between the sections: the code is normalised and its key derived. *)
Definition after_reserve (c : consume_call) (presented : string) (rs : reservation) : pc :=
  match normalize_pairing_code (cl_code c) with
  | Err _ => Malformed c rs
  | Ok normalized =>
      match fromhex (rs_salt_hex rs) with
      | Err e => Releasing rs e
      | Ok salt => Committing c presented rs
                     (scrypt (code_password (cl_installation_id c) (rs_hostname rs) normalized) salt)
      end
  end.

(** Only [PairingDenied] and [PairingRejected] count as settled. *)
Definition unsettled (rs : reservation) (e : exn) : pc :=
  if exn_in e [PairingDenied; PairingRejected] then Done (Err (outer e)) else Releasing rs e.

Definition start (c : consume_call) : pc :=
  match presented_host c with Ok host => Reserving c host | Err e => Done (Err e) end.

(** The next section of a call. *)
Definition section (remote : RemoteControl.store) (clock : Z) (token : string) (p : pc) : M store pc := λ s,
  match p with
  | Reserving c presented =>
      match reserve remote c presented clock s with
      | (Ok rs, s') => (Ok (after_reserve c presented rs), s')
      | (Err e, s') => (Ok (Done (Err (outer e))), s')
      end
  | Malformed c rs =>
      match fail_if_same_verifier (rs_salt_hex rs) (rs_hash_hex rs) (cl_installation_id c) (rs_hostname rs) (rs_moment rs) s with
      | (Ok _, s') => (Ok (Done rejected), s')
      | (Err e, s') => (Ok (unsettled rs e), s')
      end
  | Committing c presented rs digest =>
      match commit remote c presented rs digest clock token s with
      | (Ok out, s') => (Ok (Done (Ok out)), s')
      | (Err e, s') => (Ok (unsettled rs e), s')
      end
  | Releasing rs e =>
      match release_section rs s with
      | (Ok _, s') => (Ok (Done (Err (outer e))), s')
      | (Err e', s') => (Ok (Done (Err (outer e'))), s')
      end
  | Done r => (Ok (Done r), s)
  end.

(** ** The enrollment session *)

Definition enrollment_session_valid (token : string) (remote : RemoteControlRecord) (installation_id : string)
    (moment : Z) : M store bool :=
  match r_intent remote with
  | None => mret false
  | Some i =>
      if negb (bool_decide (r_status remote = ENROLLMENT_PENDING)) || String.eqb token "" then mret false
      else
        record ← read;
        match record with
        | None => mret false
        | Some r =>
            match p_consumed_at r, p_session_hash r, p_session_expires r with
            | Some _, Some h, Some expires =>
                if negb (String.eqb (p_installation_id r) installation_id)
                   || negb (String.eqb (p_hostname r) (control_hostname i)) || (expires <=? moment)%Z
                then mret false
                else th ← lift (hash_session token); lift (compare_digest th h)
            | _, _, _ => mret false
            end
        end
  end.

Definition destroy_after_passkey (installation_id hostname token : string) : M store unit :=
  token_hash ← lift (hash_session token);
  record ← read;
  match record with
  | None => mret tt
  | Some r =>
      match p_session_hash r with
      | None => mret tt
      | Some h =>
          if negb (String.eqb (p_installation_id r) installation_id) || negb (String.eqb (p_hostname r) hostname)
          then mret tt
          else same ← lift (compare_digest h token_hash);
               if negb same then mret tt else put_st None
      end
  end.

(** ** The HTTP surface ([mount_pairing_activate])

    Status codes of the two routes; the body of a request is read to a code
    or an exception before [consume] starts. *)

Definition surface (st : InstallState) (remote : RemoteControl.store) : result string :=
  _ ← require_completed st;
  rc ← RemoteControl.read_store remote;
  enrollment_control_hostname rc PairingDenied.

Definition check_request (st : InstallState) (remote : RemoteControl.store) (host origin : option string)
    (required : bool) : result string :=
  hostname ← surface st remote;
  presented ← host_from_header host;
  _ ← (if negb (String.eqb presented hostname) then denied else Ok tt);
  _ ← origin_from_header origin hostname required;
  Ok hostname.

(** The form: 200, 404, or the exception of a corrupt record. *)
Definition activate_form (st : InstallState) (remote : RemoteControl.store) (host origin : option string) : result Z :=
  result_catch (_ ← check_request st remote host origin false; Ok 200%Z)
    (λ e, if exn_in e [PairingDenied] then Some (Ok 404%Z) else None).

(** What [activate_submit] passes to [consume]. *)
Definition submit_call (st : InstallState) (remote : RemoteControl.store) (host origin : option string)
    (code : result string) (installation_id : option string) : result consume_call :=
  _ ← check_request st remote host origin true;
  code ← code;
  Ok (Call code (or_default installation_id "") st (or_default host "") origin).

(** The status and the session cookie of the response. *)
Definition respond (r : result ConsumedPairing) : result (Z * option string) :=
  match r with
  | Ok out => Ok (200%Z, Some (cs_token out))
  | Err e =>
      if exn_in e [PairingDenied] then Ok (404%Z, None)
      else if exn_in e [PairingRejected] then Ok (401%Z, None)
      else if exn_in e [PairingStoreUnavailable; OSErr; ValueErr] then Ok (503%Z, None)
      else Err e
  end.

(** ** The system

    The pairing file, the remote control file and the calls of [consume] in
    progress.  A call may also crash between two sections, or fail to open
    the store. *)

Record sys : Type := Sys {
  y_pair : store; y_remote : RemoteControl.store; y_calls : gmap nat pc;
}.

Inductive action : Type :=
  | AIssue (remote : RemoteControlRecord) (installation_id : string) (st : InstallState) (now : Z) (raw salt : string)
  | AStart (tid : nat) (c : consume_call)
  | AStep (tid : nat) (clock : Z) (token : string)
  | AFailure (tid : nat)
  | ACrash (tid : nat)
  | ADestroy (installation_id hostname token : string)
  | ARemote (remote : RemoteControl.store).

Definition set_call (s : sys) (tid : nat) (p : pc) : sys := Sys (y_pair s) (y_remote s) (<[tid := p]> (y_calls s)).

(** A section that could not open the store. *)
Definition store_failure (p : pc) : pc :=
  match p with
  | Reserving _ _ => Done (Err unavailable_exn)
  | Malformed _ rs | Committing _ _ rs _ => Releasing rs unavailable_exn
  | Releasing _ _ => Done (Err unavailable_exn)
  | Done r => Done r
  end.

Definition sys_step (a : action) (s : sys) : sys :=
  match a with
  | AIssue remote iid st now raw salt => Sys (post (issue remote iid st now raw salt) (y_pair s)) (y_remote s) (y_calls s)
  | AStart tid c => match y_calls s !! tid with None => set_call s tid (start c) | Some _ => s end
  | AStep tid clock token =>
      match y_calls s !! tid with
      | Some p => match section (y_remote s) clock token p (y_pair s) with
                  | (Ok p', s') => Sys s' (y_remote s) (<[tid := p']> (y_calls s))
                  | (Err _, s') => Sys s' (y_remote s) (y_calls s)
                  end
      | None => s
      end
  | AFailure tid => match y_calls s !! tid with Some p => set_call s tid (store_failure p) | None => s end
  | ACrash tid => Sys (y_pair s) (y_remote s) (delete tid (y_calls s))
  | ADestroy iid host token => Sys (post (destroy_after_passkey iid host token) (y_pair s)) (y_remote s) (y_calls s)
  | ARemote remote => Sys (y_pair s) remote (y_calls s)
  end.

Definition sys_run (acts : list action) (s : sys) : sys := foldl (λ s a, sys_step a s) s acts.

(** The verdict of a step that tests a guess against the verifier: a malformed
    code is a wrong guess. *)
Definition verdict (s : sys) (a : action) : option bool :=
  match a with
  | AStep tid clock token =>
      match y_calls s !! tid with
      | Some (Malformed c rs) =>
          match (read (y_pair s)).1 with
          | Ok o => if same_live_code_verifier o (rs_salt_hex rs) (rs_hash_hex rs) (cl_installation_id c)
                         (rs_hostname rs) (rs_moment rs) then Some false else None
          | Err _ => None
          end
      | Some (Committing c presented rs digest) =>
          match (read (y_pair s)).1, commit_hostname (y_remote s) presented with
          | Ok o, Ok host => if same_live_code_verifier o (rs_salt_hex rs) (rs_hash_hex rs) (cl_installation_id c) host clock
                             then Some (String.eqb (hex digest) (rs_hash_hex rs)) else None
          | _, _ => None
          end
      | _ => None
      end
  | _ => None
  end.

(** The verdicts of a run, in order. *)
Fixpoint verdicts (acts : list action) (s : sys) : list bool :=
  match acts with
  | [] => []
  | a :: acts => option_list (verdict s a) ++ verdicts acts (sys_step a s)
  end.
End pairing.

(** ** Stored records *)

Definition stored_ok (r : StoredPairing) : Prop :=
  RemoteControl.host_valid (p_hostname r) ∧ (0 ≤ p_failed r)%Z ∧ (0 ≤ p_in_flight r)%Z.

Lemma validate_stored_id r : stored_ok r → validate_stored r = Ok r.
Proof.
  intros (Hh & Hf & Hi). unfold validate_stored. apply RemoteControl.pydantic_ok. rewrite Hh. cbn [mbind result_bind].
  rewrite (proj2 (Z.ltb_ge (p_failed r) 0)), (proj2 (Z.ltb_ge (p_in_flight r) 0)) by done. by destruct r.
Qed.

Lemma validate_stored_ok r r' : validate_stored r = Ok r' → stored_ok r' ∧ p_salt_hex r' = p_salt_hex r ∧
  p_hash_hex r' = p_hash_hex r ∧ p_failed r' = p_failed r ∧ p_in_flight r' = p_in_flight r.
Proof.
  unfold validate_stored. rewrite RemoteControl.pydantic_ok.
  intros (h & Hh & (_ & Hb%fail_if_ok & [= <-])%bind_result_ok)%bind_result_ok. bool_to_prop.
  split; [|done]. split; [|done]. simpl. intros label. by eapply RemoteControl.validate_host_stable.
Qed.

(** The invariant of a pairing file between an issue and the next one. *)
Definition rec_inv (r : StoredPairing) : Prop :=
  stored_ok r ∧ (∀ h, p_hash_hex r = Some h → any_char non_ascii h = false) ∧
  (p_failed r + p_in_flight r ≤ MAX_FAILED_ATTEMPTS)%Z ∧
  (is_Some (p_hash_hex r) → p_failed r < MAX_FAILED_ATTEMPTS)%Z.

Definition inv (s : store) : Prop := match s with None => True | Some r => rec_inv r end.

(** The guesses the stored verifier can still be tested against. *)
Definition budget (s : store) : nat :=
  match s with
  | Some r => if bool_decide (p_hash_hex r = None) then 0 else Z.to_nat (MAX_FAILED_ATTEMPTS - p_failed r)
  | None => 0
  end.

Lemma read_inv s : inv s → read s = (Ok s, s).
Proof. destruct s as [r|]; [|done]. intros [H _]. unfold read. by rewrite validate_stored_id. Qed.

(** What identifies an issue. *)
Definition issue_key (r : StoredPairing) : string * string * option string * option string * Z :=
  (p_installation_id r, p_hostname r, p_salt_hex r, p_hash_hex r, p_expires_at r).

(** [s'] is of the invariant, and a verifier it holds is the one of [s]. *)
Definition evolves (s s' : store) : Prop :=
  inv s' ∧ ∀ r', s' = Some r' → is_Some (p_hash_hex r') → ∃ r, s = Some r ∧ issue_key r' = issue_key r.

Lemma evolves_stay s : inv s → evolves s s.
Proof. intros Hs. split; [done|]. intros r -> _. by exists r. Qed.

Lemma evolves_step s1 s2 s3 : evolves s1 s2 → evolves s2 s3 → evolves s1 s3.
Proof.
  intros [_ H1] [Hi H2]. split; [done|]. intros r Hr Hh. destruct (H2 r Hr Hh) as (r2 & E2 & K2).
  destruct (H1 r2 E2) as (r1 & E1 & K1); [|exists r1; split; [done|congruence]].
  unfold issue_key in K2. injection K2 as _ _ _ E _. by rewrite <-E.
Qed.

Lemma evolves_rec r r' : rec_inv r' → issue_key r' = issue_key r → evolves (Some r) (Some r').
Proof. intros Hr K. split; [done|]. intros ? [= <-] _. by exists r. Qed.

Lemma evolves_gone s s' : inv s' → (∀ r, s' = Some r → p_hash_hex r = None) → evolves s s'.
Proof. intros Hi H. split; [done|]. intros r Hr [h Hh]. rewrite (H r Hr) in Hh. done. Qed.

(** [m] leaves as many guesses of the same verifier. *)
Definition quiet {A} (m : M store A) (s : store) : Prop := evolves s (post m s) ∧ budget (post m s) = budget s.

Lemma quiet_stay {A} (m : M store A) s : inv s → post m s = s → quiet m s.
Proof. intros Hs E. unfold quiet. rewrite E. split; [by apply evolves_stay|done]. Qed.

Definition set_in_flight (r : StoredPairing) (n : Z) (u : option Z) : StoredPairing :=
  Stored (p_installation_id r) (p_hostname r) (p_salt_hex r) (p_hash_hex r) (p_issued_at r)
    (p_expires_at r) (p_consumed_at r) (p_failed r) n u (p_locked r) (p_session_hash r) (p_session_expires r).

Lemma with_in_flight_ok r n u : stored_ok r → (0 ≤ n)%Z → with_in_flight r n u = Ok (set_in_flight r n u).
Proof. intros (Hh & Hf & _) Hn. unfold with_in_flight. rewrite validate_stored_id; [done|]. by split_and!. Qed.

Lemma rec_inv_in_flight r n u :
  rec_inv r → (0 ≤ n)%Z → (p_failed r + n ≤ MAX_FAILED_ATTEMPTS)%Z → rec_inv (set_in_flight r n u).
Proof. intros ((Hh & Hf & _) & Ha & _ & Hv) Hn Hs. split_and!; done. Qed.

Lemma release_quiet s salt_hex hash_hex : inv s → quiet (release_inflight s salt_hex hash_hex) s ∧
  (release_inflight s salt_hex hash_hex s).1 = Ok tt.
Proof.
  intros Hs. destruct s as [r|]; [|split; [by apply quiet_stay|done]]. unfold release_inflight.
  destruct (_ || _ || _) eqn:E; [split; [by apply quiet_stay|done]|]. bool_to_prop.
  unfold quiet, post. rewrite run_bind_lift, with_in_flight_ok by (try apply Hs; lia). cbn [write_unlocked put_st snd fst].
  split; [|done]. split; [|done]. apply evolves_rec; [|done]. apply rec_inv_in_flight; [done|lia|]. destruct Hs as (_ & _ & Hsum & _). lia.
Qed.

Definition failed_record (r : StoredPairing) : StoredPairing :=
  let locked := (MAX_FAILED_ATTEMPTS <=? p_failed r + 1)%Z in
  let n := if locked then 0%Z else Z.max 0 (p_in_flight r - 1) in
  Stored (p_installation_id r) (p_hostname r) (if locked then None else p_salt_hex r) (if locked then None else p_hash_hex r)
    (p_issued_at r) (p_expires_at r) (p_consumed_at r) (p_failed r + 1) n
    (if (n <=? 0)%Z then None else p_in_flight_until r) locked (p_session_hash r) (p_session_expires r).

Lemma failed_record_inv r : rec_inv r → is_Some (p_hash_hex r) → rec_inv (failed_record r).
Proof.
  intros ((Hhost & Hf & Hi) & Ha & Hs & Hv) Hh. specialize (Hv Hh).
  unfold rec_inv, stored_ok, failed_record, MAX_FAILED_ATTEMPTS in *. simpl.
  destruct (8 <=? p_failed r + 1)%Z eqn:E; bool_to_prop.
  - split_and!; first [done|lia].
  - split_and!; try done; lia.
Qed.

Lemma register_failure_spec r :
  rec_inv r → is_Some (p_hash_hex r) → evolves (Some r) (post (register_failure r) (Some r)) ∧
  S (budget (post (register_failure r) (Some r))) = budget (Some r) ∧ (register_failure r (Some r)).1 = Ok tt.
Proof.
  intros Hr Hh. pose proof (failed_record_inv r Hr Hh) as Hr'. pose proof Hr as (_ & _ & _ & Hv). specialize (Hv Hh).
  assert (register_failure r (Some r) = (Ok tt, Some (failed_record r))) as E.
  { unfold register_failure. rewrite run_bind_lift. change (Stored _ _ _ _ _ _ _ _ _ _ _ _ _) with (failed_record r).
    rewrite validate_stored_id; [done|]. apply Hr'. }
  unfold post. rewrite E. cbn [fst snd]. destruct Hh as [h Hh]. cbn [budget].
  rewrite (bool_decide_false (p_hash_hex r = None)) by by rewrite Hh.
  change (p_hash_hex (failed_record r)) with (if (MAX_FAILED_ATTEMPTS <=? p_failed r + 1)%Z then None else p_hash_hex r).
  change (p_failed (failed_record r)) with (p_failed r + 1)%Z. unfold MAX_FAILED_ATTEMPTS in *.
  destruct (8 <=? p_failed r + 1)%Z eqn:El; bool_to_prop.
  - rewrite bool_decide_true by done. split; [|split; [|done]].
    2:{ lia. }
    apply evolves_gone; [done|]. intros ? [= <-]. unfold failed_record, MAX_FAILED_ATTEMPTS.
    cbn [p_hash_hex]. by rewrite (proj2 (Z.leb_le 8 (p_failed r + 1)) El).
  - rewrite bool_decide_false by by rewrite Hh. split; [|split; [lia|done]].
    apply evolves_rec; [done|]. unfold issue_key, failed_record, MAX_FAILED_ATTEMPTS.
    cbn [p_installation_id p_hostname p_salt_hex p_hash_hex p_expires_at]. by rewrite (proj2 (Z.leb_gt 8 (p_failed r + 1)) El).
Qed.

(** ** The sections keep the invariant *)

Section keeps.
Context (scrypt : string → string → string) (sha256_hex : string → string).

Lemma reset_expired_quiet s moment :
  inv s → ∃ s', reset_expired s moment s = (Ok s', s') ∧ evolves s s' ∧ budget s' = budget s ∧
    (∀ r, s' = Some r → effective_in_flight r moment = p_in_flight r).
Proof.
  intros Hs. destruct s as [r|]; [|by exists None; split_and!; try done; apply evolves_stay]. unfold reset_expired.
  destruct ((effective_in_flight r moment =? 0)%Z && _) eqn:E.
  - rewrite run_bind_lift, with_in_flight_ok by (try apply Hs; lia). eexists. split; [reflexivity|].
    split_and!; [|done|].
    + apply evolves_rec; [|done]. apply rec_inv_in_flight; [done|lia|]. destruct Hs as ((_ & Hf & Hi) & _ & Hsum & _). lia.
    + by intros ? [= <-].
  - exists (Some r). split_and!; try done; [by apply evolves_stay|]. intros ? [= <-]. destruct Hs as ((_ & _ & Hi) & _).
    unfold effective_in_flight in *. destruct (p_in_flight r <=? 0)%Z eqn:E0; bool_to_prop; [lia|].
    destruct (p_in_flight_until r) as [u|]; [destruct (u <=? moment)%Z|]; try done; lia.
Qed.

Lemma reserve_quiet remote c presented moment s : inv s → quiet (reserve remote c presented moment) s.
Proof.
  intros Hs. pose proof (evolves_stay s Hs) as Hrefl. unfold reserve, quiet, post.
  rewrite run_bind_lift. destruct (RemoteControl.read_store remote); [|done].
  rewrite run_bind_lift. destruct (enrollment_control_hostname _ _) as [host|]; [|done].
  rewrite run_bind_lift. destruct (negb (String.eqb presented host)); [done|].
  rewrite run_bind_lift. destruct (origin_from_header _ _ _); [|done].
  rewrite run_bind_lift. destruct (String.eqb _ ""); [done|].
  rewrite run_bind, (read_inv s Hs). destruct (reset_expired_quiet s moment Hs) as (s' & E & Hs' & Hb & Heff).
  rewrite run_bind, E. rewrite run_bind_lift. destruct (negb (live_code_verifier _ _ _ _)); [done|].
  destruct s' as [r|]; [|done]. rewrite run_bind_lift, (Heff r eq_refl).
  destruct (MAX_FAILED_ATTEMPTS <=? _)%Z eqn:Em; [done|]. bool_to_prop.
  destruct (p_salt_hex r); [|done]. destruct (p_hash_hex r) eqn:Eh; [|done].
  rewrite run_bind_lift. destruct (dt_add _ _) as [until|]; [|done].
  destruct Hs' as [Hr Hev]. pose proof Hr as (Hok & _).
  rewrite run_bind_lift, with_in_flight_ok by (try done; destruct Hok as (_ & _ & ?); lia).
  cbn [write_unlocked put_st snd]. rewrite <-Hb. split; [|done].
  apply (evolves_step s (Some r)); [done|]. apply evolves_rec; [|done].
  apply rec_inv_in_flight; [done| |lia]. destruct Hok as (_ & _ & ?). lia.
Qed.

Lemma same_live_hash r salt_hex hash_hex iid host now :
  same_live_code_verifier (Some r) salt_hex hash_hex iid host now = true →
  p_hash_hex r = Some hash_hex ∧ p_salt_hex r = Some salt_hex ∧ p_installation_id r = iid ∧ p_hostname r = host ∧
  (now < p_expires_at r)%Z ∧ p_consumed_at r = None.
Proof.
  unfold same_live_code_verifier, live_code_verifier. rewrite !andb_true_iff, !bool_decide_eq_true, !String.eqb_eq, Z.ltb_lt.
  naive_solver.
Qed.

Lemma fail_if_same_spec s salt_hex hash_hex iid host now :
  inv s →
  let m := fail_if_same_verifier salt_hex hash_hex iid host now in
  (m s).1 = Ok tt ∧ evolves s (post m s) ∧
  budget (post m s) + (if same_live_code_verifier s salt_hex hash_hex iid host now then 1 else 0) = budget s.
Proof.
  intros Hs m. unfold m, fail_if_same_verifier. unfold post. rewrite run_bind, (read_inv s Hs).
  destruct s as [r|]; [|split_and!; try done; by apply evolves_stay].
  destruct (same_live_code_verifier _ _ _ _ _ _) eqn:E.
  - apply same_live_hash in E as (Hh & _). destruct (register_failure_spec r Hs) as (Hi & Hb & Hr); [by rewrite Hh|].
    unfold post in *. split_and!; [done..|lia].
  - destruct (release_quiet (Some r) salt_hex hash_hex Hs) as [[Hi Hb] Hr]. unfold post in *. split_and!; [done..|lia].
Qed.

Lemma release_section_quiet rs s : inv s → quiet (release_section rs) s ∧ (release_section rs s).1 = Ok tt.
Proof.
  intros Hs. unfold release_section, quiet, post. rewrite run_bind, (read_inv s Hs).
  apply (release_quiet s (rs_salt_hex rs) (rs_hash_hex rs) Hs).
Qed.

(** The last part of a commit: the guess is tested. *)
Lemma accept_spec r host now token :
  rec_inv r → any_char non_ascii token = false → dt_in_range (now + ENROLLMENT_SESSION_TTL) = true →
  accept sha256_hex r host now token (Some r) =
    (Ok (Consumed token (now + ENROLLMENT_SESSION_TTL) host),
     Some (consumed_record r now (now + ENROLLMENT_SESSION_TTL) (sha256_hex token))) ∧
  rec_inv (consumed_record r now (now + ENROLLMENT_SESSION_TTL) (sha256_hex token)).
Proof.
  intros ((Hh & Hf & Hi) & Ha & Hs & Hv) Ht Hn. unfold accept, hash_session. rewrite Ht, run_bind_lift.
  unfold dt_add. rewrite Hn, run_bind_lift, run_bind_lift.
  assert (stored_ok (consumed_record r now (now + ENROLLMENT_SESSION_TTL) (sha256_hex token))) as Hc by by split_and!.
  rewrite validate_stored_id by done. split; [done|]. split; [done|]. split_and!; simpl; [done|lia|by intros []].
Qed.

Lemma hex_digit_ascii n : (n < 16)%N → non_ascii (hex_digit n) = false.
Proof.
  intros Hn. unfold non_ascii, hex_digit, code. apply N.leb_gt.
  destruct (n <? 10)%N eqn:E; [apply N.ltb_lt in E|apply N.ltb_ge in E]; rewrite N_ascii_embedding; lia.
Qed.

Lemma code_bound c : (code c < 256)%N.
Proof. apply N_ascii_bounded. Qed.

Lemma hex_text_ascii s : any_char non_ascii (hex s) = false.
Proof.
  apply any_char_false. intros c. unfold hex. rewrite chars_of_chars.
  rewrite list_elem_of_In, in_concat. setoid_rewrite <-list_elem_of_In.
  intros (l & (d & -> & Hd)%list_elem_of_fmap & Hc).
  pose proof (code_bound d). apply elem_of_cons in Hc as [->|Hc%list_elem_of_singleton]; [|subst c]; apply hex_digit_ascii.
  - apply N.Div0.div_lt_upper_bound. lia.
  - apply N.mod_lt. lia.
Qed.

Lemma commit_spec remote c presented rs digest now token s :
  inv s → any_char non_ascii token = false → dt_in_range (now + ENROLLMENT_SESSION_TTL) = true →
  let m := commit sha256_hex remote c presented rs digest now token in
  evolves s (post m s) ∧
  match commit_hostname remote presented with
  | Ok host =>
      if same_live_code_verifier s (rs_salt_hex rs) (rs_hash_hex rs) (cl_installation_id c) host now
      then if String.eqb (hex digest) (rs_hash_hex rs)
           then (∃ r, s = Some r ∧ m s = (Ok (Consumed token (now + ENROLLMENT_SESSION_TTL) host),
                    Some (consumed_record r now (now + ENROLLMENT_SESSION_TTL) (sha256_hex token))))
                ∧ budget (post m s) = 0 ∧ 0 < budget s
           else (m s).1 = rejected ∧ S (budget (post m s)) = budget s
      else (m s).1 = rejected ∧ budget (post m s) = budget s
  | Err e => (m s).1 = Err e ∧ budget (post m s) = budget s
  end.
Proof.
  intros Hs Ht Hn m.
  assert (m s = match commit_hostname remote presented with
    | Ok host => match s with
        | Some r => if negb (same_live_code_verifier s (rs_salt_hex rs) (rs_hash_hex rs) (cl_installation_id c) host now)
            then (rejected, post (release_inflight s (rs_salt_hex rs) (rs_hash_hex rs)) s)
            else if negb (String.eqb (hex digest) (rs_hash_hex rs)) then (rejected, post (register_failure r) s)
            else accept sha256_hex r host now token s
        | None => (rejected, s) end
    | Err e => (Err e, if exn_in e [PairingDenied] then post (release_inflight s (rs_salt_hex rs) (rs_hash_hex rs)) s else s)
    end) as E.
  { unfold m, commit. rewrite run_bind, (read_inv s Hs), run_bind. unfold try_except, lift at 1.
    pose proof (release_quiet s (rs_salt_hex rs) (rs_hash_hex rs) Hs) as [_ Hr]. unfold post.
    destruct (commit_hostname remote presented) as [host|e].
    2:{ destruct (exn_in e _); [|done]. rewrite run_bind. destruct (release_inflight _ _ _ s) as [? s']. cbn [fst] in Hr. by subst. }
    destruct s as [r|].
    2:{ rewrite run_bind. by destruct (release_inflight _ _ _ None) as [? s'] eqn:Er; cbn [fst] in Hr; subst; injection Er as <-. }
    destruct (same_live_code_verifier _ _ _ _ _ _) eqn:El; cbn [negb].
    2:{ rewrite run_bind. destruct (release_inflight _ _ _ _) as [? s']. cbn [fst] in Hr. by subst. }
    apply same_live_hash in El as (Hh & _). rewrite run_bind_lift.
    pose proof Hs as (_ & Ha & _). unfold compare_digest. rewrite hex_text_ascii, (Ha _ Hh). cbn [orb].
    destruct (String.eqb (hex digest) (rs_hash_hex rs)) eqn:Eq.
    - apply String.eqb_eq in Eq. by rewrite bool_decide_true by done.
    - apply String.eqb_neq in Eq. rewrite bool_decide_false by done. cbn [negb]. rewrite run_bind.
      destruct (register_failure_spec r Hs) as (_ & _ & Hf); [by rewrite Hh|].
      destruct (register_failure r _) as [? s']. cbn [fst] in Hf. by subst. }
  unfold post. rewrite E. clear E. pose proof (release_quiet s (rs_salt_hex rs) (rs_hash_hex rs) Hs) as [[Hi Hb] _].
  pose proof (evolves_stay s Hs) as Hrefl.
  destruct (commit_hostname remote presented) as [host|e]; [|by destruct (exn_in e _)].
  destruct s as [r|]; [|done]. destruct (same_live_code_verifier _ _ _ _ _ _) eqn:El; cbn [negb]; [|done].
  apply same_live_hash in El as (Hh & _).
  destruct (String.eqb (hex digest) (rs_hash_hex rs)); cbn [negb].
  - destruct (accept_spec r host now token Hs Ht Hn) as [Ea Hc]. rewrite Ea. cbn [snd fst].
    split; [apply evolves_gone; [done|by intros ? [= <-]]|].
    split; [by exists r|]. split; [done|]. cbn [budget]. rewrite Hh. destruct Hs as (_ & _ & _ & Hv).
    rewrite bool_decide_false by done. rewrite Hh in Hv. specialize (Hv (mk_is_Some _ _ eq_refl)). lia.
  - destruct (register_failure_spec r Hs) as (Hi' & Hb' & _); [by rewrite Hh|].
    cbn [fst snd]. split; [exact Hi'|]. split; [reflexivity|exact Hb'].
Qed.

(** ** Issuing *)

Definition issued_record (iid host : string) (now : Z) (normalized salt : string) : StoredPairing :=
  Stored iid host (Some (hex salt)) (Some (hex (scrypt (code_password iid host normalized) salt))) now
    (now + PAIRING_TTL) None 0 0 None false None None.

Lemma enrollment_host_valid remote unavailable host :
  RemoteControl.valid remote → enrollment_control_hostname remote unavailable = Ok host → RemoteControl.host_valid host.
Proof.
  intros [Hi _]%RemoteControl.valid_parts. unfold enrollment_control_hostname.
  destruct (r_intent remote) as [i|]; [|done]. destruct (_ && _); [|done]. intros [= <-]. by apply (Hi i).
Qed.

Lemma issue_ok remote iid st now raw salt s out s' :
  RemoteControl.valid remote → issue scrypt remote iid st now raw salt s = (Ok out, s') →
  ∃ host normalized, st = COMPLETED ∧ enrollment_control_hostname remote PairingIssueUnavailable = Ok host ∧
    generate_pairing_code raw = Ok (is_code out) ∧ normalize_pairing_code (is_code out) = Ok normalized ∧
    is_hostname out = host ∧ is_expires_at out = (now + PAIRING_TTL)%Z ∧ iid ≠ "" ∧ activate_url host = Ok (is_url out) ∧
    s' = Some (issued_record iid host now normalized salt) ∧ stored_ok (issued_record iid host now normalized salt).
Proof.
  intros Hv. unfold issue, raise_if. rewrite run_bind_lift. destruct (bool_decide (st ≠ _)) eqn:Est; [done|]. bool_to_prop.
  cbn [fail_if]. rewrite run_bind_lift. destruct (enrollment_control_hostname remote _) as [host|e] eqn:Eh.
  2:{ cbn [result_catch]. by destruct (exn_in e _). }
  cbn [result_catch]. rewrite run_bind_lift. destruct (String.eqb iid "") eqn:Ei; [done|]. cbn [fail_if].
  rewrite run_bind_lift. destruct (generate_pairing_code raw) as [code|] eqn:Ec; [|done].
  rewrite run_bind_lift. destruct (normalize_pairing_code code) as [n|] eqn:En; [|done].
  cbv zeta. rewrite run_bind_lift. destruct (dt_add now PAIRING_TTL) as [expires|] eqn:Ed; [|done].
  apply dt_add_ok in Ed as [-> _]. rewrite run_bind_lift.
  destruct (validate_stored _) as [record|] eqn:Ev; [|done]. rewrite run_bind. cbn [write_unlocked put_st].
  rewrite run_bind_lift. destruct (activate_url host) as [url|] eqn:Eu; [|done]. intros [= <- <-].
  assert (RemoteControl.host_valid host) as Hh by by eapply enrollment_host_valid.
  assert (stored_ok (issued_record iid host now n salt)) as Hok by by split_and!.
  assert (Ok record = Ok (issued_record iid host now n salt)) as Er by (rewrite <-Ev; exact (validate_stored_id _ Hok)).
  assert (record = issued_record iid host now n salt) as -> by congruence. clear Er Ev.
  exists host, n. apply String.eqb_neq in Ei. split_and!; try done. by apply dec_stable.
Qed.

Lemma issued_inv iid host now normalized salt :
  stored_ok (issued_record iid host now normalized salt) →
  inv (Some (issued_record iid host now normalized salt)) ∧ budget (Some (issued_record iid host now normalized salt)) = 8.
Proof.
  intros H. split; [|done]. split; [done|]. split_and!; simpl; try done. intros h [= <-]. apply hex_text_ascii.
Qed.

(** ** Every step keeps the invariant and pays for its guesses *)

(** What the environment provides: the session tokens are URL-safe texts and
    the clock is not within a quarter of an hour of the year 10000. *)
Definition sane (a : action) : Prop :=
  match a with
  | AStep _ clock token => any_char non_ascii token = false ∧ dt_in_range (clock + ENROLLMENT_SESSION_TTL) = true
  | AIssue remote _ _ _ _ _ => RemoteControl.valid remote
  | _ => True
  end.

Definition no_issue (a : action) : Prop := match a with AIssue _ _ _ _ _ _ => False | _ => True end.

Abbreviation step := (sys_step scrypt sha256_hex).

Lemma destroy_spec iid host token s : inv s →
  post (destroy_after_passkey sha256_hex iid host token) s = s ∨ post (destroy_after_passkey sha256_hex iid host token) s = None.
Proof.
  intros Hs. unfold destroy_after_passkey, post. rewrite run_bind_lift. destruct (hash_session _ _); [|by left].
  rewrite run_bind, (read_inv s Hs). destruct s as [r|]; [|by left]. destruct (p_session_hash r); [|by left].
  destruct (_ || _); [by left|]. rewrite run_bind_lift. destruct (compare_digest _ _) as [[]|]; auto.
Qed.

(** The price of a step. *)
Definition cost (v : option bool) : nat := if v is Some _ then 1 else 0.

Definition pays (s : sys) (a : action) : Prop :=
  evolves (y_pair s) (y_pair (step a s)) ∧ budget (y_pair (step a s)) + cost (verdict s a) ≤ budget (y_pair s) ∧
  (verdict s a = Some true → budget (y_pair (step a s)) = 0).

Lemma stay_pays s a : inv (y_pair s) → verdict s a = None → y_pair (step a s) = y_pair s → pays s a.
Proof. intros Hs Hv E. unfold pays. rewrite E, Hv. simpl. split_and!; [by apply evolves_stay|lia|done]. Qed.

Lemma section_ok remote clock token p s : ∃ p', (section scrypt sha256_hex remote clock token p s).1 = Ok p'.
Proof. destruct p; simpl; repeat case_match; eauto. Qed.

Lemma step_pair s tid clock token p :
  y_calls s !! tid = Some p →
  y_pair (step (AStep tid clock token) s) = post (section scrypt sha256_hex (y_remote s) clock token p) (y_pair s).
Proof.
  intros Hp. cbn [sys_step]. rewrite Hp. unfold post. by destruct (section _ _ _ _ _ _ _) as [[p'|e] s'].
Qed.

Lemma post_section {A} (m : M store A) (k1 : A → pc) (k2 : exn → pc) (s : store) :
  (match m s with (Ok a, s') => (Ok (k1 a), s') | (Err e, s') => (Ok (k2 e), s') end).2 = post m s.
Proof. unfold post. by destruct (m s) as [[a|e] s']. Qed.

Lemma step_pays s a : inv (y_pair s) → sane a → no_issue a → pays s a.
Proof.
  intros Hs Ha Hn. destruct a as [| tid c | tid clock token | tid | tid | iid host token | remote]; try done.
  - apply stay_pays; [exact Hs|reflexivity|]. cbn [sys_step]. by destruct (y_calls s !! tid).
  - destruct (y_calls s !! tid) as [p|] eqn:Hp.
    2:{ apply stay_pays; [exact Hs|unfold verdict|cbn [sys_step]]; by rewrite Hp. }
    unfold pays. rewrite (step_pair s tid clock token p Hp). unfold verdict. rewrite Hp, (read_inv _ Hs). cbn [fst].
    destruct Ha as [Ht Hc]. destruct p as [c presented|c rs|c presented rs digest|rs e|r]; unfold section; cbn [post].
    + unfold post at 1 2 3. rewrite post_section. destruct (reserve_quiet (y_remote s) c presented clock _ Hs) as [Hi ->].
      simpl. split_and!; [done|lia|done].
    + unfold post at 1 2 3. rewrite post_section.
      destruct (fail_if_same_spec _ (rs_salt_hex rs) (rs_hash_hex rs) (cl_installation_id c) (rs_hostname rs) (rs_moment rs) Hs)
        as (_ & Hi & Hb). destruct (same_live_code_verifier _ _ _ _ _ _); simpl; split_and!; try done; lia.
    + unfold post at 1 2 3. rewrite post_section.
      pose proof (commit_spec (y_remote s) c presented rs digest clock token _ Hs Ht Hc) as [Hi H].
      destruct (commit_hostname _ _) as [host|e]; [|destruct H as [_ ->]; simpl; split_and!; try done; lia].
      destruct (same_live_code_verifier _ _ _ _ _ _); [|destruct H as [_ ->]; simpl; split_and!; try done; lia].
      destruct (String.eqb _ _); [destruct H as (_ & -> & Hb)|destruct H as (_ & Hb)]; simpl; split_and!; try done; lia.
    + unfold post at 1 2 3. rewrite post_section. destruct (release_section_quiet rs _ Hs) as [[Hi ->] _].
      simpl. split_and!; [done|lia|done].
    + unfold post. cbn [snd cost]. split_and!; [by apply evolves_stay|lia|done].
  - apply stay_pays; [exact Hs|reflexivity|]. cbn [sys_step]. by destruct (y_calls s !! tid).
  - apply stay_pays; [exact Hs|reflexivity..].
  - unfold pays. cbn [sys_step y_pair verdict cost]. destruct (destroy_spec iid host token _ Hs) as [->| ->];
      split_and!; try done; simpl; try lia; first [by apply evolves_stay|by apply evolves_gone].
  - apply stay_pays; [exact Hs|reflexivity..].
Qed.

Abbreviation run_all := (sys_run scrypt sha256_hex).
Abbreviation all_verdicts := (verdicts scrypt sha256_hex).

Lemma verdicts_bounded acts s :
  inv (y_pair s) → Forall sane acts → Forall no_issue acts →
  length (all_verdicts acts s) ≤ budget (y_pair s) ∧
  (∀ l r, all_verdicts acts s = l ++ true :: r → r = []) ∧ inv (y_pair (run_all acts s)).
Proof.
  intros Hs Ha Hn. revert s Hs. induction Ha as [|a acts Ha _ IH]; intros s Hs; cbn [verdicts].
  { split_and!; [simpl; lia|by intros []|done]. }
  inversion Hn as [|?? Hna Hn']; subst. destruct (step_pays s a Hs Ha Hna) as ([Hi _] & Hc & Ht).
  destruct (IH Hn' _ Hi) as (Hl & Hr & Hinv). rewrite length_app.
  assert (length (option_list (verdict s a)) = cost (verdict s a)) as -> by by destruct (verdict s a).
  split_and!; [lia| |exact Hinv]. intros l r. destruct (verdict s a) as [[]|]; cbn [option_list app].
  - specialize (Ht eq_refl). rewrite Ht in Hl. destruct (all_verdicts acts _); [|simpl in Hl; lia].
    destruct l as [|? [|]]; simpl; naive_solver.
  - destruct l as [|b l]; [done|]. intros [= _ E]. by eapply Hr.
  - apply Hr.
Qed.

(** A section that completes a call tested its guess, and the guess was right. *)
Lemma completed_by s clock token p out :
  inv (y_pair s) → any_char non_ascii token = false → dt_in_range (clock + ENROLLMENT_SESSION_TTL) = true →
  (section scrypt sha256_hex (y_remote s) clock token p (y_pair s)).1 = Ok (Done (Ok out)) → p ≠ Done (Ok out) →
  ∃ c presented rs digest host, p = Committing c presented rs digest ∧
    commit_hostname (y_remote s) presented = Ok host ∧
    same_live_code_verifier (y_pair s) (rs_salt_hex rs) (rs_hash_hex rs) (cl_installation_id c) host clock = true ∧
    hex digest = rs_hash_hex rs ∧ out = Consumed token (clock + ENROLLMENT_SESSION_TTL) host.
Proof.
  intros Hs Ht Hc H Hne. destruct p as [c presented|c rs|c presented rs digest|rs e|r]; cbn [section] in H.
  - destruct (reserve _ _ _ _ _) as [[rs|e] s']; cbn [fst] in H; [|done]. injection H as H. unfold after_reserve in H.
    destruct (normalize_pairing_code _); [|done]. by destruct (fromhex _).
  - destruct (fail_if_same_verifier _ _ _ _ _ _) as [[u|e] s']; cbn [fst] in H; [done|]. injection H as H.
    unfold unsettled in H. by destruct (exn_in _ _).
  - pose proof (commit_spec (y_remote s) c presented rs digest clock token _ Hs Ht Hc) as [_ Hm].
    assert ((commit sha256_hex (y_remote s) c presented rs digest clock token (y_pair s)).1 = Ok out) as Ho.
    { destruct (commit _ _ _ _ _ _ _ _ _) as [[o|e] s']; cbn [fst] in H |- *; [congruence|].
      injection H as H. unfold unsettled in H. by destruct (exn_in _ _). }
    destruct (commit_hostname _ presented) as [host|e] eqn:Eh; [|destruct Hm as [Hm _]; rewrite Hm in Ho; done].
    destruct (same_live_code_verifier _ _ _ _ _ _) eqn:El; [|destruct Hm as [Hm _]; rewrite Hm in Ho; done].
    destruct (String.eqb _ _) eqn:Eq; [|destruct Hm as [Hm _]; rewrite Hm in Ho; done].
    destruct Hm as [(r & _ & Hm) _]. rewrite Hm in Ho. injection Ho as <-. apply String.eqb_eq in Eq.
    by exists c, presented, rs, digest, host.
  - destruct (release_section _ _) as [[u|e'] s']; cbn [fst] in H; done.
  - cbn [fst] in H. congruence.
Qed.

(** A call completes at this step. *)
Definition completes (s : sys) (a : action) (out : ConsumedPairing) : Prop :=
  ∃ tid clock token, a = AStep tid clock token ∧ y_calls s !! tid ≠ Some (Done (Ok out)) ∧
    y_calls (step a s) !! tid = Some (Done (Ok out)).

Lemma completes_section s a out :
  inv (y_pair s) → sane a → completes s a out →
  ∃ tid clock token c presented rs digest host,
    a = AStep tid clock token ∧ y_calls s !! tid = Some (Committing c presented rs digest) ∧
    commit_hostname (y_remote s) presented = Ok host ∧
    same_live_code_verifier (y_pair s) (rs_salt_hex rs) (rs_hash_hex rs) (cl_installation_id c) host clock = true ∧
    hex digest = rs_hash_hex rs ∧ out = Consumed token (clock + ENROLLMENT_SESSION_TTL) host.
Proof.
  intros Hs Ha (tid & clock & token & -> & Hne & Hd). destruct Ha as [Ht Hc]. cbn [sys_step] in Hd.
  destruct (y_calls s !! tid) as [p|] eqn:Hp; [|congruence].
  destruct (section_ok (y_remote s) clock token p (y_pair s)) as [p' Hp'].
  assert ((section scrypt sha256_hex (y_remote s) clock token p (y_pair s)).1 = Ok (Done (Ok out))) as H.
  { destruct (section _ _ _ _ _ _ _) as [[q|e] s']; cbn [fst] in Hp' |- *; [|done].
    cbn [y_calls] in Hd. rewrite lookup_insert_eq in Hd. congruence. }
  destruct (completed_by s clock token p out Hs Ht Hc H) as (c & presented & rs & digest & host & -> & H'); [congruence|].
  exists tid, clock, token, c, presented, rs, digest, host. split; [done|]. split; [exact Hp|]. exact H'.
Qed.

Lemma completes_verdict s a out :
  inv (y_pair s) → sane a → completes s a out → verdict s a = Some true.
Proof.
  intros Hs Ha Hc.
  pose proof (completes_section s a out Hs Ha Hc) as H. destruct H
    as (tid & clock & token & c & presented & rs & digest & host & -> & Hp & Hh & Hl & He & _).
  unfold verdict. rewrite Hp, (read_inv _ Hs). cbn [fst]. rewrite Hh, Hl, He. by rewrite String.eqb_refl.
Qed.

(** C25: An issued code can be guessed at most eight times.  After an
    issue, and until the next one, in every interleaving of the calls with each
    other, with failing and crashing ones, with changes of the remote control
    record and with the end of the enrollment, at most eight guesses are
    tested against the code (malformed ones included), nothing is tested after
    a right one, only a step that tested a right guess completes a call (so at
    most one call completes), and the failed attempts with the reserved ones
    never exceed the limit. *)
Theorem guesses_bounded s0 remote iid st now raw salt out s' acts :
  RemoteControl.valid remote → issue scrypt remote iid st now raw salt (y_pair s0) = (Ok out, s') →
  Forall sane acts → Forall no_issue acts →
  let s1 := step (AIssue remote iid st now raw salt) s0 in
  length (all_verdicts acts s1) ≤ Z.to_nat MAX_FAILED_ATTEMPTS ∧
  (∀ l r, all_verdicts acts s1 = l ++ true :: r → r = []) ∧
  (∀ pre a suf o, acts = pre ++ a :: suf → completes (run_all pre s1) a o → verdict (run_all pre s1) a = Some true) ∧
  (∀ r, y_pair (run_all acts s1) = Some r →
     0 ≤ p_failed r ∧ 0 ≤ p_in_flight r ∧ p_failed r + p_in_flight r ≤ MAX_FAILED_ATTEMPTS)%Z.
Proof.
  intros Hv Hi Ha Hn s1.
  assert (y_pair s1 = s') as E1 by (unfold s1; cbn [sys_step y_pair]; unfold post; by rewrite Hi).
  destruct (issue_ok _ _ _ _ _ _ _ _ _ Hv Hi) as (host & n & _ & _ & _ & _ & _ & _ & _ & _ & -> & Hok).
  destruct (issued_inv _ _ _ _ _ Hok) as [Hinv Hb]. rewrite <-E1 in Hinv, Hb.
  destruct (verdicts_bounded acts s1 Hinv Ha Hn) as (Hl & Hr & Hf). split_and!.
  - by rewrite Hb in Hl.
  - exact Hr.
  - intros pre a suf o -> Hc. apply Forall_app in Ha as [Hpre [Ha _]%Forall_cons]. apply Forall_app in Hn as [Hnpre _].
    apply (completes_verdict _ _ o); [|done..]. by apply verdicts_bounded.
  - intros r Hr'. rewrite Hr' in Hf. destruct Hf as ((_ & ? & ?) & _ & ? & _). by split_and!.
Qed.

(** ** Where an accepted verifier comes from *)

Lemma hex_digit_roundtrip n : (n < 16)%N → hex_value (hex_digit n) = Some n ∧ hex_space (hex_digit n) = false.
Proof.
  intros Hn. unfold hex_value, hex_space, hex_digit, is_digit, in_range, code.
  assert (n ∈ (N.of_nat <$> seq 0 16)) as Hin.
  { apply list_elem_of_fmap. exists (N.to_nat n). split; [lia|]. apply elem_of_seq. lia. }
  clear Hn. revert n Hin. apply Forall_forall. repeat constructor.
Qed.

Lemma fromhex_hex s : fromhex (hex s) = Ok s.
Proof.
  unfold fromhex, hex. rewrite chars_of_chars.
  enough (fromhex_chars (concat ((λ c, [hex_digit (code c / 16); hex_digit (code c mod 16)]) <$> chars s)) = Some (chars s))
    as -> by by rewrite of_chars_chars.
  induction (chars s) as [|c l IH]; [done|]. rewrite fmap_cons. cbn [concat app fromhex_chars].
  pose proof (code_bound c).
  destruct (hex_digit_roundtrip (code c / 16)) as [-> ->]; [apply N.Div0.div_lt_upper_bound; lia|].
  destruct (hex_digit_roundtrip (code c mod 16)) as [-> _]; [apply N.mod_lt; lia|].
  rewrite IH. do 2 f_equal. rewrite <-(N.div_mod (code c) 16) by lia. apply ascii_N_embedding.
Qed.

Lemma hex_inj s t : hex s = hex t → s = t.
Proof. intros E. pose proof (fromhex_hex s) as Hs. rewrite E, fromhex_hex in Hs. by injection Hs. Qed.

Lemma issue_err remote iid st now raw salt s e :
  RemoteControl.valid remote → (issue scrypt remote iid st now raw salt s).1 = Err e →
  post (issue scrypt remote iid st now raw salt) s = s.
Proof.
  intros Hv. unfold issue, raise_if, post. rewrite run_bind_lift. destruct (bool_decide (st ≠ _)); [done|].
  cbn [fail_if]. rewrite run_bind_lift. destruct (enrollment_control_hostname remote _) as [host|e'] eqn:Eh.
  2:{ cbn [result_catch]. by destruct (exn_in e' _). }
  cbn [result_catch]. rewrite run_bind_lift. destruct (String.eqb iid ""); [done|]. cbn [fail_if].
  rewrite run_bind_lift. destruct (generate_pairing_code raw) as [code|]; [|done].
  rewrite run_bind_lift. destruct (normalize_pairing_code code); [|done].
  cbv zeta. rewrite run_bind_lift. destruct (dt_add now PAIRING_TTL); [|done]. rewrite run_bind_lift.
  destruct (validate_stored _); [|done]. rewrite run_bind. cbn [write_unlocked put_st]. rewrite run_bind_lift.
  assert (RemoteControl.host_valid host) as Hh by by eapply enrollment_host_valid.
  unfold activate_url. by rewrite Hh.
Qed.

(** An [issue] of [acts] drew the code [n] and the salt for the host. *)
Definition issued_in (acts : list action) (s0 : sys) (iid host n salt : string) (now : Z) : Prop :=
  ∃ pre remote st raw suf out s', acts = pre ++ AIssue remote iid st now raw salt :: suf ∧
    issue scrypt remote iid st now raw salt (y_pair (run_all pre s0)) = (Ok out, s') ∧
    enrollment_control_hostname remote PairingIssueUnavailable = Ok host ∧
    generate_pairing_code raw = Ok (is_code out) ∧ normalize_pairing_code (is_code out) = Ok n.

Lemma issued_in_snoc acts a s0 iid host n salt now :
  issued_in acts s0 iid host n salt now → issued_in (acts ++ [a]) s0 iid host n salt now.
Proof.
  intros (pre & remote & st & raw & suf & out & s' & -> & H).
  exists pre, remote, st, raw, (suf ++ [a]), out, s'. by rewrite <-(assoc_L (++)).
Qed.

Definition derived_key (c : consume_call) (rs : reservation) (digest : string) : Prop :=
  ∃ n salt, normalize_pairing_code (cl_code c) = Ok n ∧ fromhex (rs_salt_hex rs) = Ok salt ∧
    digest = scrypt (code_password (cl_installation_id c) (rs_hostname rs) n) salt.

Definition call_ok (p : pc) : Prop :=
  match p with
  | Reserving c h => presented_host c = Ok h
  | Committing c h rs digest => presented_host c = Ok h ∧ rs_hostname rs = h ∧ derived_key c rs digest
  | _ => True
  end.

Record hist (acts : list action) (s0 s : sys) : Prop := {
  hi_inv : inv (y_pair s);
  hi_issue : ∀ r, y_pair s = Some r → is_Some (p_hash_hex r) →
    ∃ n salt now, issued_in acts s0 (p_installation_id r) (p_hostname r) n salt now ∧
      issue_key r = issue_key (issued_record (p_installation_id r) (p_hostname r) now n salt);
  hi_calls : ∀ tid p, y_calls s !! tid = Some p → call_ok p;
}.

Lemma reserve_host remote c presented moment s rs s' :
  reserve remote c presented moment s = (Ok rs, s') → rs_hostname rs = presented.
Proof.
  unfold reserve. rewrite run_bind_lift. destruct (RemoteControl.read_store remote); [|done].
  rewrite run_bind_lift. destruct (enrollment_control_hostname _ _) as [host|]; [|done].
  rewrite run_bind_lift. destruct (String.eqb presented host) eqn:E; [|done]. apply String.eqb_eq in E as ->. cbn [negb].
  rewrite run_bind_lift. destruct (origin_from_header _ _ _); [|done].
  rewrite run_bind_lift. destruct (String.eqb _ ""); [done|].
  rewrite run_bind. destruct (read s) as [[o|] s1]; [|done].
  rewrite run_bind. destruct (reset_expired o moment s1) as [[o'|] s2]; [|done].
  rewrite run_bind_lift. destruct (negb _); [done|]. destruct o' as [r|]; [|done].
  rewrite run_bind_lift. destruct (_ <=? _)%Z; [done|]. destruct (p_salt_hex r); [|done]. destruct (p_hash_hex r); [|done].
  rewrite run_bind_lift. destruct (dt_add _ _); [|done]. rewrite run_bind_lift. destruct (with_in_flight _ _ _); [|done].
  by intros [= <- _].
Qed.

Lemma section_calls remote clock token p s p' s' :
  call_ok p → section scrypt sha256_hex remote clock token p s = (Ok p', s') → call_ok p'.
Proof.
  intros Hp. destruct p as [c h|c rs|c h rs digest|rs e|r]; cbn [section].
  - destruct (reserve _ _ _ _ _) as [[rs|e] s1] eqn:E; [|by intros [= <- _]]. intros [= <- _].
    apply reserve_host in E. unfold after_reserve. destruct (normalize_pairing_code _) as [n|] eqn:En; [|done].
    destruct (fromhex _) as [salt|] eqn:Es; [|done]. split; [exact Hp|]. split; [done|]. by exists n, salt.
  - destruct (fail_if_same_verifier _ _ _ _ _ _) as [[u|e] s1]; intros [= <- _]; [done|].
    unfold unsettled. by destruct (exn_in _ _).
  - destruct (commit _ _ _ _ _ _ _ _ _) as [[u|e] s1]; intros [= <- _]; [done|].
    unfold unsettled. by destruct (exn_in _ _).
  - destruct (release_section _ _) as [[u|e'] s1]; by intros [= <- _].
  - by intros [= <- _].
Qed.

Lemma start_ok c : call_ok (start c).
Proof. unfold start. by destruct (presented_host c) eqn:E. Qed.

Lemma hist_calls_insert (m : gmap nat pc) tid p :
  (∀ t q, m !! t = Some q → call_ok q) → call_ok p → ∀ t q, <[tid := p]> m !! t = Some q → call_ok q.
Proof. intros Hm Hp t q [[<- <-]|[_ H]]%lookup_insert_Some; [done|by eapply Hm]. Qed.

Lemma step_calls a s : (∀ t q, y_calls s !! t = Some q → call_ok q) → ∀ t q, y_calls (step a s) !! t = Some q → call_ok q.
Proof.
  intros Hc. destruct a as [| tid c | tid clock token | tid | tid | |]; cbn [sys_step y_calls]; try exact Hc.
  - destruct (y_calls s !! tid); [exact Hc|]. apply hist_calls_insert; [exact Hc|apply start_ok].
  - destruct (y_calls s !! tid) as [p|] eqn:Hp; [|exact Hc].
    destruct (section _ _ _ _ _ _ _) as [[p'|e] s'] eqn:E; [|exact Hc].
    apply hist_calls_insert; [exact Hc|]. eapply section_calls; [|exact E]. by eapply Hc.
  - destruct (y_calls s !! tid) as [p|] eqn:Hp; [|exact Hc].
    apply hist_calls_insert; [exact Hc|]. specialize (Hc tid p Hp). by destruct p.
  - intros t q [_ H]%lookup_delete_Some. by eapply Hc.
Qed.

(** Steps other than an issue keep or drop the verifier. *)
Lemma hist_evolves acts a s0 s :
  hist acts s0 s → evolves (y_pair s) (y_pair (step a s)) → hist (acts ++ [a]) s0 (step a s).
Proof.
  intros [Hi Hr Hc] [Hi' He]. split; [exact Hi'| |by apply step_calls].
  intros r' Hr' Hh. destruct (He r' Hr' Hh) as (r & E & K).
  assert (p_hash_hex r' = p_hash_hex r ∧ p_installation_id r' = p_installation_id r ∧ p_hostname r' = p_hostname r)
    as (Ek1 & Ek2 & Ek3) by (unfold issue_key in K; by injection K).
  rewrite Ek1 in Hh. destruct (Hr r E Hh) as (n & salt & now & Hin & K'). exists n, salt, now.
  rewrite Ek2, Ek3, K. split; [by apply issued_in_snoc|done].
Qed.

Lemma hist_issue acts s0 remote iid st now raw salt :
  hist acts s0 (run_all acts s0) → RemoteControl.valid remote →
  hist (acts ++ [AIssue remote iid st now raw salt]) s0 (step (AIssue remote iid st now raw salt) (run_all acts s0)).
Proof.
  intros H Hv. destruct (issue scrypt remote iid st now raw salt (y_pair (run_all acts s0))) as [[out|e] s'] eqn:E.
  - pose proof (issue_ok _ _ _ _ _ _ _ _ _ Hv E) as (host & n & _ & Hh & Hg & Hn & _ & _ & _ & _ & Es & Hok).
    assert (y_pair (step (AIssue remote iid st now raw salt) (run_all acts s0)) = s') as Ey
      by (cbn [sys_step y_pair]; unfold post; by rewrite E).
    split.
    + rewrite Ey, Es. by apply issued_inv.
    + intros r Hr _. rewrite Ey, Es in Hr. injection Hr as <-. exists n, salt, now. split; [|done].
      exists acts, remote, st, raw, [], out, s'. by split_and!.
    + apply step_calls. apply H.
  - apply hist_evolves; [exact H|]. cbn [sys_step y_pair].
    rewrite (issue_err remote iid st now raw salt _ e Hv) by by rewrite E. apply evolves_stay, H.
Qed.

Lemma run_all_snoc acts a s : run_all (acts ++ [a]) s = step a (run_all acts s).
Proof. unfold sys_run. by rewrite foldl_app. Qed.

Definition fresh (remote : RemoteControl.store) : sys := Sys None remote ∅.

Lemma run_hist acts remote : Forall sane acts → hist acts (fresh remote) (run_all acts (fresh remote)).
Proof.
  induction acts as [|a acts IH] using rev_ind; intros Ha.
  { split; [done..|]. intros tid p H. change ((∅ : gmap nat pc) !! tid = Some p) in H. by rewrite lookup_empty in H. }
  apply Forall_app in Ha as [Ha [Hs _]%Forall_cons]. specialize (IH Ha). rewrite run_all_snoc.
  destruct a eqn:Ea; [apply hist_issue; [exact IH|exact Hs]|rewrite <-Ea in *; apply hist_evolves; [exact IH|]..].
  all: apply step_pays; [apply IH|exact Hs|by rewrite Ea].
Qed.

(** C26: A pairing is accepted only for an issued code.  In every interleaving
    from an empty store, a call completes only if the installation is
    completed, its host header names the control hostname, the remote control
    record is still waiting for the enrollment of that hostname at the commit,
    and an earlier [issue] for the same installation and hostname, less than
    ten minutes before, drew a code and a salt with the very key that the
    presented code derives; the session is bound to that hostname and ends a
    quarter of an hour later. *)
Theorem accepted_only_issued remote0 acts pre a suf out :
  Forall sane acts → acts = pre ++ a :: suf → completes (run_all pre (fresh remote0)) a out →
  ∃ tid clock token c host n n0 salt now,
    a = AStep tid clock token ∧ out = Consumed token (clock + ENROLLMENT_SESSION_TTL) host ∧
    cl_install c = COMPLETED ∧ host_from_header (Some (cl_host c)) = Ok host ∧
    commit_hostname (y_remote (run_all pre (fresh remote0))) host = Ok host ∧
    issued_in pre (fresh remote0) (cl_installation_id c) host n0 salt now ∧ (clock < now + PAIRING_TTL)%Z ∧
    normalize_pairing_code (cl_code c) = Ok n ∧
    scrypt (code_password (cl_installation_id c) host n) salt = scrypt (code_password (cl_installation_id c) host n0) salt.
Proof.
  intros Hs -> Hc. apply Forall_app in Hs as [Hpre [Ha _]%Forall_cons]. pose proof (run_hist pre remote0 Hpre) as [Hi Hr Hk].
  destruct (completes_section _ a out Hi Ha Hc)
    as (tid & clock & token & c & presented & rs & digest & host & -> & Hp & Hh & Hl & He & ->).
  destruct (Hk tid _ Hp) as (Hpr & Hrs & (n & salt & Hn & Hsalt & Hd)).
  assert (host = presented) as ->.
  { unfold commit_hostname in Hh. apply bind_result_ok in Hh as (rc & _ & Hh). apply bind_result_ok in Hh as (h & _ & Hh).
    destruct (String.eqb presented h) eqn:E; [|done]. apply String.eqb_eq in E. injection Hh as <-. done. }
  destruct (y_pair (run_all pre (fresh remote0))) as [r|] eqn:Er; [|done].
  destruct (same_live_hash _ _ _ _ _ _ Hl) as (H1 & H2 & H3 & H4 & H5 & _).
  destruct (Hr r eq_refl) as (n0 & salt0 & now & Hin & K); [by rewrite H1|].
  unfold issue_key, issued_record in K. cbn in K. injection K as K1 K2 K3.
  rewrite H3, H4 in *. assert (salt0 = salt) as ->.
  { apply hex_inj. rewrite H2 in K1. injection K1 as E. rewrite E, fromhex_hex in Hsalt. by injection Hsalt as ->. }
  unfold presented_host, require_completed in Hpr. apply bind_result_ok in Hpr as ([] & Hst%fail_if_ok & Hpr).
  apply bool_decide_eq_false in Hst. exists tid, clock, token, c, presented, n, n0, salt, now.
  split_and!; try done; [by apply dec_stable|by rewrite <-K3|]. rewrite Hrs in Hd.
  apply hex_inj. rewrite <-Hd, He. rewrite H1 in K2. by injection K2.
Qed.

(** ** The whole way of a code *)

Section roundtrip.
Context (rc : RemoteControlRecord) (iid : string) (now : Z) (raw salt : string) (out : IssuedPairing).
Context (n host : string) (c : consume_call).
Hypothesis rc_valid : RemoteControl.valid rc.
Hypothesis rc_pending : ∀ cls, enrollment_control_hostname rc cls = Ok host.
Hypothesis c_code : normalize_pairing_code (cl_code c) = Ok n.
Hypothesis c_iid : cl_installation_id c = iid.
Hypothesis iid_given : iid ≠ "".
Hypothesis c_origin : cl_origin c = Some ("https://" +:+ host).

Let r0 := issued_record iid host now n salt.
Let digest := scrypt (code_password iid host n) salt.

Lemma origin_accepted : origin_from_header (Some ("https://" +:+ host)) host true = Ok tt.
Proof.
  unfold origin_from_header. change ("https://" +:+ host) with (String "h" ("ttps://" +:+ host)).
  cbv zeta. change (String "h" ("ttps://" +:+ host)) with ("https://" +:+ host). by rewrite String.eqb_refl.
Qed.

Lemma reserve_issued t1 :
  stored_ok r0 → (t1 < now + PAIRING_TTL)%Z → dt_in_range (t1 + IN_FLIGHT_LEASE) = true →
  reserve (Some rc) c host t1 (Some r0) =
    (Ok (Reserved (hex salt) (hex digest) host t1), Some (set_in_flight r0 1 (Some (t1 + IN_FLIGHT_LEASE)%Z))).
Proof.
  intros Hok Ht Hr. unfold reserve. rewrite run_bind_lift. cbn [RemoteControl.read_store]. rewrite rc_valid.
  rewrite run_bind_lift, rc_pending, run_bind_lift, String.eqb_refl. cbn [negb]. rewrite run_bind_lift, c_origin, origin_accepted.
  rewrite run_bind_lift, c_iid, (proj2 (String.eqb_neq iid "")) by done.
  rewrite run_bind, read_inv by by apply issued_inv. rewrite run_bind. cbn [reset_expired].
  assert (effective_in_flight r0 t1 = 0%Z) as He by done. rewrite He. change (0 =? 0)%Z with true. change (p_in_flight r0 =? 0)%Z with true.
  cbn [negb andb]. rewrite run_ret, run_bind_lift.
  assert (live_code_verifier (Some r0) iid host t1 = true) as ->.
  { unfold live_code_verifier, r0, issued_record. cbn. rewrite !String.eqb_refl, (proj2 (Z.ltb_lt _ _) Ht). done. }
  cbn [negb]. rewrite run_bind_lift, He. unfold r0 at 1. cbn [issued_record p_failed].
  change (MAX_FAILED_ATTEMPTS <=? 0 + 0)%Z with false. cbn [p_salt_hex p_hash_hex r0 issued_record].
  rewrite run_bind_lift. unfold dt_add. rewrite Hr. rewrite run_bind_lift, with_in_flight_ok by done.
  by rewrite run_bind.
Qed.

Lemma issued_live u t : (t < now + PAIRING_TTL)%Z →
  same_live_code_verifier (Some (set_in_flight r0 1 u)) (hex salt) (hex digest) iid host t = true.
Proof.
  intros Ht. unfold same_live_code_verifier, live_code_verifier, r0, issued_record, set_in_flight. cbn.
  rewrite !String.eqb_refl, (proj2 (Z.ltb_lt _ _) Ht). unfold digest. by rewrite !bool_decide_true by done.
Qed.

(** The record after the two sections of a call with the right code. *)
Lemma two_sections t1 tok1 t2 token s :
  stored_ok r0 → y_pair s = Some r0 → y_remote s = Some rc → y_calls s !! 0 = Some (Reserving c host) →
  (t1 < now + PAIRING_TTL)%Z → (t2 < now + PAIRING_TTL)%Z → dt_in_range (t1 + IN_FLIGHT_LEASE) = true →
  any_char non_ascii token = false → dt_in_range (t2 + ENROLLMENT_SESSION_TTL) = true →
  let r1 := set_in_flight r0 1 (Some (t1 + IN_FLIGHT_LEASE)%Z) in
  run_all [AStep 0 t1 tok1; AStep 0 t2 token] s =
  Sys (Some (consumed_record r1 t2 (t2 + ENROLLMENT_SESSION_TTL) (sha256_hex token))) (Some rc)
      (<[0 := Done (Ok (Consumed token (t2 + ENROLLMENT_SESSION_TTL) host))]> (y_calls s)).
Proof.
  intros Hok Hp Hr Hc H1 H2 Hd1 Hta Hd2 r1. destruct s as [sp sr sc]. cbn [y_pair y_remote y_calls] in *. subst sp sr.
  set (rs := Reserved (hex salt) (hex digest) host t1).
  assert (step (AStep 0 t1 tok1) (Sys (Some r0) (Some rc) sc) =
          Sys (Some r1) (Some rc) (<[0 := Committing c host rs digest]> sc)) as E1.
  { cbn [sys_step y_calls y_pair y_remote]. rewrite Hc. cbn [section]. rewrite reserve_issued by done.
    unfold after_reserve. rewrite c_code. cbn [rs_salt_hex rs_hostname]. rewrite fromhex_hex, c_iid. done. }
  assert (inv (Some r1)) as Hi1.
  { pose proof (reserve_quiet (Some rc) c host t1 (Some r0)) as Q.
    unfold quiet, post in Q. rewrite reserve_issued in Q by done. apply Q. by apply issued_inv. }
  assert (∃ cls, commit_hostname (Some rc) host = cls ∧ cls = Ok host) as (? & Ech & ->).
  { eexists. split; [reflexivity|]. unfold commit_hostname. cbn [RemoteControl.read_store]. rewrite rc_valid.
    cbn [mbind result_bind]. rewrite rc_pending. cbn [mbind result_bind]. by rewrite String.eqb_refl. }
  unfold sys_run. cbn [foldl]. rewrite E1. cbn [sys_step y_calls y_pair y_remote]. rewrite lookup_insert_eq. cbn [section].
  pose proof (commit_spec (Some rc) c host rs digest t2 token (Some r1) Hi1 Hta Hd2) as [_ Hm].
  rewrite Ech in Hm. cbn [rs_salt_hex rs_hash_hex rs] in Hm. rewrite c_iid in Hm.
  unfold r1 in Hm at 1. rewrite issued_live in Hm by done. rewrite String.eqb_refl in Hm.
  destruct Hm as [(r & [= <-] & Hm) _]. rewrite Hm. by rewrite insert_insert_eq.
Qed.
End roundtrip.

Hypothesis sha_ascii : ∀ t, any_char non_ascii (sha256_hex t) = false.

(** The tokens of a consumed record. *)
Lemma session_spec r t2 expires token rc i moment t iid :
  stored_ok (consumed_record r t2 expires (sha256_hex token)) → r_status rc = ENROLLMENT_PENDING → r_intent rc = Some i →
  p_hostname r = control_hostname i → p_installation_id r = iid → any_char non_ascii t = false →
  (enrollment_session_valid sha256_hex t rc iid moment (Some (consumed_record r t2 expires (sha256_hex token)))).1 =
  Ok (negb (String.eqb t "") && (moment <? expires)%Z && bool_decide (sha256_hex t = sha256_hex token)).
Proof.
  intros Hok Hst Hi Hh Hiid Ht. unfold enrollment_session_valid. rewrite Hi, Hst. rewrite bool_decide_true by done.
  cbn [negb orb]. destruct (String.eqb t ""); [done|]. rewrite run_bind. unfold read. rewrite validate_stored_id by done.
  cbn [consumed_record p_consumed_at p_session_hash p_session_expires p_installation_id p_hostname].
  rewrite Hiid, Hh, !String.eqb_refl. cbn [negb orb andb].
  destruct (moment <? expires)%Z eqn:E.
  - apply Z.ltb_lt in E. rewrite (proj2 (Z.leb_gt _ _) E). rewrite run_bind_lift. unfold hash_session. rewrite Ht.
    unfold lift, compare_digest. by rewrite !sha_ascii.
  - apply Z.ltb_ge in E. by rewrite (proj2 (Z.leb_le _ _) E).
Qed.

Lemma destroy_consumed r t2 expires token iid host :
  stored_ok (consumed_record r t2 expires (sha256_hex token)) → p_hostname r = host → p_installation_id r = iid →
  any_char non_ascii token = false →
  destroy_after_passkey sha256_hex iid host token (Some (consumed_record r t2 expires (sha256_hex token))) = (Ok tt, None).
Proof.
  intros Hok Hh Hiid Ht. unfold destroy_after_passkey. rewrite run_bind_lift. unfold hash_session. rewrite Ht.
  rewrite run_bind. unfold read. rewrite validate_stored_id by done.
  cbn [consumed_record p_session_hash p_installation_id p_hostname]. rewrite Hiid, Hh, !String.eqb_refl. cbn [negb orb].
  rewrite run_bind_lift. unfold compare_digest. rewrite !sha_ascii. cbn [orb]. by rewrite bool_decide_true.
Qed.

(** Nothing can be reserved without a verifier. *)
Lemma reserve_gone remote c presented moment r :
  p_hash_hex r = None → stored_ok r → ∃ e, (reserve remote c presented moment (Some r)).1 = Err e.
Proof.
  intros Hh Hok. unfold reserve. rewrite run_bind_lift. destruct (RemoteControl.read_store remote) as [rc|]; [|by eexists].
  rewrite run_bind_lift. destruct (enrollment_control_hostname _ _); [|by eexists].
  rewrite run_bind_lift. destruct (negb _); [by eexists|].
  rewrite run_bind_lift. destruct (origin_from_header _ _ _); [|by eexists].
  rewrite run_bind_lift. destruct (String.eqb _ ""); [by eexists|].
  rewrite run_bind. unfold read. rewrite validate_stored_id by done. rewrite run_bind.
  assert (∀ r', p_hash_hex r' = None → ∀ iid h, live_code_verifier (Some r') iid h moment = false) as Hl.
  { intros r' Hr' iid h. unfold live_code_verifier. rewrite Hr'. rewrite (bool_decide_true (None = None)) by done. by rewrite !andb_false_r. }
  unfold reset_expired. destruct (_ && _).
  - rewrite run_bind_lift. destruct (with_in_flight r 0 None) as [r'|] eqn:Ew; [|by eexists].
    unfold write_unlocked. rewrite run_bind_put, run_ret, run_bind_lift. rewrite Hl; [by eexists|].
    unfold with_in_flight in Ew. apply validate_stored_ok in Ew as (_ & _ & E & _). by rewrite E.
  - rewrite run_ret, run_bind_lift. rewrite Hl by done. by eexists.
Qed.

(** The way of a code.  From any state in which the remote control record
    waits for the enrollment of a hostname, the code that [issue] returned
    completes a call that presents it on that host within ten minutes; the
    returned token, and no other unless their SHA-256 digests agree, is a
    valid enrollment session for exactly a quarter of an hour; no call can
    reserve another attempt; and finishing the enrollment with the token
    deletes the pairing. *)
Theorem pairing_roundtrip s0 rc i iid now raw salt out s' c t1 tok1 t2 token :
  RemoteControl.valid rc → r_status rc = ENROLLMENT_PENDING → r_intent rc = Some i →
  y_remote s0 = Some rc → y_calls s0 !! 0 = None →
  issue scrypt rc iid COMPLETED now raw salt (y_pair s0) = (Ok out, s') →
  cl_code c = is_code out → cl_installation_id c = iid → cl_install c = COMPLETED →
  host_from_header (Some (cl_host c)) = Ok (is_hostname out) → cl_origin c = Some ("https://" +:+ is_hostname out) →
  (t1 < now + PAIRING_TTL)%Z → (t2 < now + PAIRING_TTL)%Z → dt_in_range (t1 + IN_FLIGHT_LEASE) = true →
  any_char non_ascii token = false → dt_in_range (t2 + ENROLLMENT_SESSION_TTL) = true →
  let s := run_all [AIssue rc iid COMPLETED now raw salt; AStart 0 c; AStep 0 t1 tok1; AStep 0 t2 token] s0 in
  let expires := (t2 + ENROLLMENT_SESSION_TTL)%Z in
  is_hostname out = control_hostname i ∧
  y_calls s !! 0 = Some (Done (Ok (Consumed token expires (control_hostname i)))) ∧
  (∀ t moment, any_char non_ascii t = false →
     (enrollment_session_valid sha256_hex t rc iid moment (y_pair s)).1 =
     Ok (negb (String.eqb t "") && (moment <? expires)%Z && bool_decide (sha256_hex t = sha256_hex token))) ∧
  (∀ remote c' presented moment, ∃ e, (reserve remote c' presented moment (y_pair s)).1 = Err e) ∧
  destroy_after_passkey sha256_hex iid (control_hostname i) token (y_pair s) = (Ok tt, None).
Proof.
  intros Hv Hst Hri Hr0 Hc0 Hi Hcode Hiid Hcst Hhost Horig Ht1 Ht2 Hd1 Htok Hd2 s expires.
  destruct (issue_ok _ _ _ _ _ _ _ _ _ Hv Hi) as (host & n & _ & Hh & _ & Hn & Hout & _ & Hne & _ & -> & Hok).
  assert (host = control_hostname i) as ->.
  { unfold enrollment_control_hostname in Hh. rewrite Hri in Hh. destruct (_ && _); [by injection Hh|done]. }
  rewrite Hout in Hhost, Horig.
  assert (∀ cls, enrollment_control_hostname rc cls = Ok (control_hostname i)) as Hp.
  { intros cls. unfold enrollment_control_hostname in Hh |- *. rewrite Hri in Hh |- *. by destruct (_ && _). }
  assert (s = Sys (Some (consumed_record (set_in_flight (issued_record iid (control_hostname i) now n salt) 1
                          (Some (t1 + IN_FLIGHT_LEASE)%Z)) t2 expires (sha256_hex token))) (Some rc)
                  (<[0 := Done (Ok (Consumed token expires (control_hostname i)))]>
                     (<[0 := Reserving c (control_hostname i)]> (y_calls s0)))) as ->.
  { unfold s. change [?a; ?b; ?x; ?y] with ([a; b] ++ [x; y]). unfold sys_run. rewrite foldl_app.
    assert (foldl (λ s a, step a s) s0 [AIssue rc iid COMPLETED now raw salt; AStart 0 c] =
      Sys (Some (issued_record iid (control_hostname i) now n salt)) (Some rc)
          (<[0 := Reserving c (control_hostname i)]> (y_calls s0))) as ->.
    { cbn [foldl sys_step y_calls]. rewrite Hc0. unfold post. rewrite Hi. unfold set_call, start, presented_host, require_completed.
      rewrite Hcst, Hhost. cbn [snd y_pair y_remote y_calls]. by rewrite Hr0. }
    apply (two_sections rc iid now salt n (control_hostname i) c); try done; [by rewrite Hcode|apply lookup_insert_eq]. }
  cbn [y_calls y_pair]. assert (∀ u, stored_ok (consumed_record (set_in_flight (issued_record iid (control_hostname i) now n salt) 1 u)
    t2 expires (sha256_hex token))) as Hsc by (intros u; split_and!; try done; apply Hok).
  split_and!; [exact Hout|apply lookup_insert_eq| | |].
  - intros t moment Ht. by apply (session_spec _ t2 expires token rc i).
  - intros remote c' presented moment. by apply reserve_gone.
  - by apply destroy_consumed.
Qed.
End keeps.

(** ** An enrollment *)

Definition demo_scrypt (password salt : string) : string := password +:+ salt.
Definition demo_rc : RemoteControlRecord :=
  RemoteControl.Rec (Some RemoteControl.demo_canonical) ENROLLMENT_PENDING None None.
Definition demo_now : Z := 1000 * day.
Definition demo_call (code : string) : consume_call :=
  Call code "site-1" COMPLETED " Control.Example.org:443" (Some "https://control.example.org").
Definition demo_out : IssuedPairing :=
  Issued "ABCD-2345" "https://control.example.org/activate" "control.example.org" (demo_now + PAIRING_TTL).
Abbreviation demo_issue := (issue demo_scrypt demo_rc "site-1" COMPLETED demo_now "ABCD2345" "salt").
Abbreviation demo_run := (sys_run demo_scrypt hex).
Definition demo_issued : action := AIssue demo_rc "site-1" COMPLETED demo_now "ABCD2345" "salt".
Definition demo_start : sys := fresh (Some demo_rc).
Definition demo_guesses : list action :=
  [AStart 0 (demo_call "ABCD-2346"); AStart 1 (demo_call "abc"); AStart 2 (demo_call " abcd-2345 ");
   AStep 0 (demo_now + second) ""; AStep 1 (demo_now + second) ""; AStep 2 (demo_now + second) "";
   AStep 1 (demo_now + second) ""; AStep 0 (demo_now + second) "";
   AStep 2 (demo_now + second) "token"; AStep 0 (demo_now + second) ""].

Lemma demo_issue_ok : demo_issue None = (Ok demo_out, post demo_issue None).
Proof. by vm_compute. Qed.

Lemma demo_sane : Forall sane demo_guesses.
Proof. repeat constructor. Qed.

Lemma demo_verdicts :
  verdicts demo_scrypt hex demo_guesses (sys_step demo_scrypt hex demo_issued demo_start) = [false; false; true].
Proof. by vm_compute. Qed.

Lemma guesses_bounded_witness :
  RemoteControl.valid demo_rc ∧ Forall sane demo_guesses ∧
  length (verdicts demo_scrypt hex demo_guesses (sys_step demo_scrypt hex demo_issued demo_start)) ≤ Z.to_nat MAX_FAILED_ATTEMPTS.
Proof.
  assert (RemoteControl.valid demo_rc) as Hv by by vm_compute.
  split; [exact Hv|]. split; [exact demo_sane|].
  exact (proj1 (guesses_bounded demo_scrypt hex demo_start demo_rc "site-1" COMPLETED demo_now "ABCD2345" "salt" demo_out
    (post demo_issue None) demo_guesses Hv demo_issue_ok demo_sane ltac:(repeat constructor))).
Defined.

Definition demo_prefix : list action := [demo_issued; AStart 0 (demo_call "abcd 2345"); AStep 0 (demo_now + second) ""].
Definition demo_last : action := AStep 0 (demo_now + minute) "token".
Definition demo_session : ConsumedPairing := Consumed "token" (demo_now + minute + ENROLLMENT_SESSION_TTL) "control.example.org".

Lemma demo_completes : completes demo_scrypt hex (demo_run demo_prefix demo_start) demo_last demo_session.
Proof.
  exists 0, (demo_now + minute)%Z, "token". split; [done|]. split; [vm_compute; discriminate|]. by vm_compute.
Qed.

Lemma demo_prefix_sane : Forall sane (demo_prefix ++ demo_last :: []).
Proof. repeat constructor. Qed.

Lemma accepted_only_issued_witness :
  Forall sane (demo_prefix ++ demo_last :: []) ∧
  completes demo_scrypt hex (demo_run demo_prefix demo_start) demo_last demo_session ∧
  ∃ tid clock token, demo_last = AStep tid clock token.
Proof.
  split; [exact demo_prefix_sane|]. split; [exact demo_completes|].
  destruct (accepted_only_issued demo_scrypt hex (Some demo_rc) (demo_prefix ++ demo_last :: []) demo_prefix demo_last []
    demo_session demo_prefix_sane eq_refl demo_completes) as (tid & clock & token & _ & _ & _ & _ & _ & _ & E & _).
  by exists tid, clock, token.
Defined.

Lemma pairing_roundtrip_witness :
  demo_issue None = (Ok demo_out, post demo_issue None) ∧
  y_calls (demo_run [demo_issued; AStart 0 (demo_call "ABCD-2345"); AStep 0 (demo_now + second) "";
                     AStep 0 (demo_now + minute) "token"] demo_start) !! 0 = Some (Done (Ok demo_session)).
Proof.
  split; [exact demo_issue_ok|].
  assert (RemoteControl.valid demo_rc) as Hv by by vm_compute.
  assert (host_from_header (Some (cl_host (demo_call "ABCD-2345"))) = Ok "control.example.org") as Hh by by vm_compute.
  exact (proj1 (proj2 (pairing_roundtrip demo_scrypt hex hex_text_ascii demo_start demo_rc RemoteControl.demo_canonical "site-1" demo_now
    "ABCD2345" "salt" demo_out (post demo_issue None) (demo_call "ABCD-2345") (demo_now + second) "" (demo_now + minute) "token"
    Hv eq_refl eq_refl eq_refl eq_refl demo_issue_ok eq_refl eq_refl eq_refl Hh eq_refl eq_refl eq_refl eq_refl eq_refl eq_refl))).
Defined.
End Pairing.
