(* ===== verification/Dependencies.v ===== *)
(** * Package dependency resolution (dependencies.py)

    [resolve_install_order] and [resolve_capabilities].  The manifests are
    objects of the contracts package: the class [PackageManifest] lists the
    fields the code reads.  Version specifiers are those of the packaging
    library: [specifier_contains v s] is [Version(v) in SpecifierSet(s)], which
    may raise.  A dict of packages is a [dict]; error messages leave out the
    values they quote. *)

From Stdlib Require Import ZArith Lia Sorting.Sorted.
From stdpp Require Import base decidable numbers list strings gmap sets relations sorting.
From S2P Require Import Prelude PyData.

Module Dependencies.

Record Conflict : Type := { cf_package_id : string; cf_version : string }.
Record Dependency : Type := { dp_package_id : string; dp_version : string; dp_optional : bool }.
Record Capability : Type := { ca_id : string; ca_version : string }.
Record Requirement : Type := { rq_id : string; rq_version : string; rq_optional : bool }.

Class PackageManifest (T : Type) := {
  m_id : T → string;
  m_version : T → string;
  m_core : T → string;
  m_conflicts : T → list Conflict;
  m_dependencies : T → list Dependency;
  m_provides : T → list Capability;
  m_requires : T → list Requirement;
}.

Section resolution.
Context {T : Type} `{PackageManifest T} (specifier_contains : string → string → result bool).

Definition version_matches (version specifier : string) : result bool :=
  if String.eqb specifier "*" then Ok true else specifier_contains version specifier.

(** [any(f(x) for x in l)], where [f] may raise. *)
Fixpoint any_result {A} (f : A → result bool) (l : list A) : result bool :=
  match l with
  | [] => Ok false
  | x :: l => b ← f x; if (b : bool) then Ok true else any_result f l
  end.

(** [for x in l: f(x)], where [f] may raise. *)
Definition each {A} (f : A → result unit) (l : list A) : result unit := fold_result (λ _, f) tt l.

Definition refuse {A} (msg : string) : result A := fail DependencyResolutionError msg.

(** ** [resolve_capabilities] *)

Definition add_provider (m : T) (provided : dict string (list (string * string))) (c : Capability) :
    dict string (list (string * string)) :=
  dict_set provided (ca_id c) (or_default (dict_get provided (ca_id c)) [] ++ [(m_id m, ca_version c)]).

Definition provided_by (packages : list T) : dict string (list (string * string)) :=
  foldl (λ provided m, foldl (add_provider m) provided (m_provides m)) [] packages.

Definition check_requirement (provided : dict string (list (string * string))) (r : Requirement) : result unit :=
  let providers := or_default (dict_get provided (rq_id r)) [] in
  found ← any_result (λ p, version_matches p.2 (rq_version r)) providers;
  if (found : bool) then Ok tt
  else if rq_optional r then Ok tt
  else match providers with
       | [] => refuse "requires missing capability"
       | _ => refuse "requires capability; found"
       end.

Definition resolve_capabilities (packages : dict string T) : result unit :=
  let provided := provided_by (dict_values packages) in
  each (λ m, each (check_requirement provided) (m_requires m)) (dict_values packages).

(** ** [resolve_install_order] *)

Definition add_candidate (candidates : dict string T) (m : T) : result (dict string T) :=
  if dict_mem candidates (m_id m) then refuse "duplicate package" else Ok (dict_set candidates (m_id m) m).

Definition check_identity (e : string * T) : result unit :=
  if negb (String.eqb e.1 (m_id e.2)) then refuse "installed package identity mismatch" else Ok tt.

(** [{**d, **e}]. *)
Definition merge {V} (d e : dict string V) : dict string V := foldl (λ d kv, dict_set d kv.1 kv.2) d e.

Definition check_conflict (all : dict string T) (c : Conflict) : result unit :=
  match dict_get all (cf_package_id c) with
  | None => Ok tt
  | Some other =>
      hit ← version_matches (m_version other) (cf_version c);
      if (hit : bool) then refuse "conflicts with" else Ok tt
  end.

Definition check_dependency (all : dict string T) (d : Dependency) : result unit :=
  match dict_get all (dp_package_id d) with
  | None => if dp_optional d then Ok tt else refuse "requires missing package"
  | Some target =>
      ok ← version_matches (m_version target) (dp_version d);
      if negb ok then refuse "requires; found" else Ok tt
  end.

Definition check_manifest (core_version : string) (all : dict string T) (m : T) : result unit :=
  core ← version_matches core_version (m_core m);
  _ ← (if negb core then refuse "requires Core" else Ok tt);
  _ ← each (check_conflict all) (m_conflicts m);
  each (check_dependency all) (m_dependencies m).

(** The sets and the list [visit] shares. *)
Record walk : Type := Walk { w_visiting : gset string; w_visited : gset string; w_ordered : list T }.

(** [visit]: the fuel is the depth of the recursion ([resolve_fuel_enough]). *)
Fixpoint visit (all candidates : dict string T) (fuel : nat) (trail : list string) (package_id : string) (w : walk) :
    result walk :=
  match fuel with
  | O => fail RuntimeErr "maximum recursion depth exceeded"
  | S fuel =>
      if bool_decide (package_id ∈ w_visited w) then Ok w
      else if bool_decide (package_id ∈ w_visiting w)
      then refuse ("dependency cycle: " +:+ str_join " -> " (trail ++ [package_id]))
      else
        match dict_get all package_id with
        | None => fail KeyErr package_id
        | Some manifest =>
            w ← fold_result
                  (λ w d, if dict_mem all (dp_package_id d)
                          then visit all candidates fuel (trail ++ [package_id]) (dp_package_id d) w
                          else Ok w)
                  (Walk ({[package_id]} ∪ w_visiting w) (w_visited w) (w_ordered w))
                  (m_dependencies manifest);
            Ok (Walk (w_visiting w ∖ {[package_id]}) ({[package_id]} ∪ w_visited w)
                     (w_ordered w ++ option_list (dict_get candidates package_id)))
        end
  end.

Definition resolve_install_order (manifests : list T) (core_version : string) (installed : dict string T) :
    result (list T) :=
  candidates ← fold_result add_candidate [] manifests;
  _ ← each check_identity installed;
  let all := merge installed candidates in
  _ ← each (check_manifest core_version all) (dict_values all);
  _ ← resolve_capabilities all;
  w ← fold_result (λ w package_id, visit all candidates (S (length all)) [] package_id w)
        (Walk ∅ ∅ []) (sort_by (λ s, s) (dict_keys candidates));
  Ok (w_ordered w).
End resolution.

(** ** Walking the dependency graph *)

Section walks.
Context {T : Type} `{PackageManifest T} (all candidates : dict string T).

(** [p] declares a dependency on [q], and [q] is there. *)
Definition edge (p q : string) : Prop :=
  ∃ m d, dict_get all p = Some m ∧ d ∈ m_dependencies m ∧ dp_package_id d = q ∧ is_Some (dict_get all q).

(** Every package comes after its dependencies. *)
Definition topological (l : list string) : Prop :=
  ∀ l1 p l2, l = l1 ++ p :: l2 → ∀ q, edge p q → q ∈ l1.

Lemma topological_nil : topological [].
Proof. intros l1 p l2 E. by destruct l1. Qed.

Lemma topological_snoc l p : topological l → (∀ q, edge p q → q ∈ l) → topological (l ++ [p]).
Proof.
  intros Hl Hp l1 x l2 E q Hq. destruct l2 as [|y l2 _] using rev_ind.
  - apply app_inj_tail in E as [-> ->]. by apply Hp.
  - rewrite app_comm_cons, (assoc_L (++)) in E. apply app_inj_tail in E as [E _]. by eapply Hl.
Qed.

(** [l] is the order in which the walk finished its packages. *)
Record finished (w : walk) (l : list string) : Prop := {
  fi_visited : ∀ p, p ∈ w_visited w ↔ p ∈ l;
  fi_nodup : NoDup l;
  fi_topological : topological l;
  fi_ordered : w_ordered w = omap (dict_get candidates) l;
}.

(** [l'] continues [l] with packages reachable from one of [ps], off the trail. *)
Definition continues (ps : list string) (trail l' : list string) : Prop :=
  (∀ p, p ∈ l' → ∃ q, q ∈ ps ∧ rtc edge q p) ∧ (∀ p, p ∈ trail → p ∉ l').

(** A cycle that can be reached from [p]. *)
Definition cycle_from (p : string) : Prop := ∃ q, rtc edge p q ∧ tc edge q q.

Definition walk_ok (w : walk) (trail l : list string) : Prop :=
  finished w l ∧ w_visiting w = list_to_set trail ∧ ∀ p, p ∈ trail → p ∉ l.

Definition visit_spec (ps : list string) (trail l : list string) (r : result (walk (T := T))) : Prop :=
  match r with
  | Ok w => ∃ l', walk_ok w trail (l ++ l') ∧ (∀ p, p ∈ ps → p ∈ l ++ l') ∧ ∀ p, p ∈ l' → ∃ q, q ∈ ps ∧ rtc edge q p
  | Err e => exn_cls e = DependencyResolutionError ∧ ∃ p, p ∈ ps ∧ cycle_from p
  end.

(** A loop of visits. *)
Lemma visits_spec (f : string → walk → result walk) trail ps :
  (∀ p w l, p ∈ ps → walk_ok w trail l → visit_spec [p] trail l (f p w)) →
  ∀ w l, walk_ok w trail l → visit_spec ps trail l (fold_result (λ w p, f p w) w ps).
Proof.
  induction ps as [|p ps IH]; intros Hf w l Hw; simpl.
  { exists []. rewrite app_nil_r. split; [done|]. split; intros ? Hin; by apply not_elem_of_nil in Hin. }
  pose proof (Hf p w l (list_elem_of_here _ _) Hw) as Hp. destruct (f p w) as [w1|e]; simpl.
  2:{ destruct Hp as [He (q & ->%list_elem_of_singleton & Hc)]. split; [done|]. exists p. split; [by left|done]. }
  destruct Hp as (l1 & Hw1 & Hin & Hr). assert (∀ p w l, p ∈ ps → walk_ok w trail l → visit_spec [p] trail l (f p w)) as Hf'.
  { intros q v k Hq. apply Hf. by right. }
  specialize (IH Hf' w1 (l ++ l1) Hw1). unfold visit_spec in IH |- *. destruct (fold_result _ w1 ps) as [w2|e].
  - destruct IH as (l2 & Hw2 & Hin2 & Hr2). exists (l1 ++ l2). rewrite (assoc_L (++)). split; [done|]. split.
    + intros q [->|Hq]%elem_of_cons; [|by apply Hin2]. apply elem_of_app. left. apply Hin. by left.
    + intros q [Hq|Hq]%elem_of_app.
      * destruct (Hr q Hq) as (x & ->%list_elem_of_singleton & Hx). exists p. split; [by left|done].
      * destruct (Hr2 q Hq) as (x & Hx & Hxq). exists x. split; [by right|done].
  - destruct IH as [He (q & Hq & Hc)]. split; [done|]. exists q. split; [by right|done].
Qed.

(** The loop over the dependencies visits the ones that are there. *)
Definition present (m : T) : list string :=
  List.filter (dict_mem all) (dp_package_id <$> m_dependencies m).

Lemma fold_dependencies f (w : walk (T := T)) deps :
  fold_result (λ w d, if dict_mem all (dp_package_id d) then f (dp_package_id d) w else Ok w) w deps =
  fold_result (λ w p, f p w) w (List.filter (dict_mem all) (dp_package_id <$> deps)).
Proof.
  revert w. induction deps as [|d deps IH]; intros w; simpl; [done|].
  destruct (dict_mem all (dp_package_id d)); simpl; [|apply IH]. destruct (f (dp_package_id d) w); simpl; [apply IH|done].
Qed.

Lemma present_edge p m q : dict_get all p = Some m → q ∈ present m ↔ edge p q.
Proof.
  intros Hp. unfold present. rewrite list_elem_of_In, filter_In, <-list_elem_of_In, list_elem_of_fmap. unfold dict_mem. split.
  - intros [(d & -> & Hd) Hq]. exists m, d. split_and!; try done. by destruct (dict_get all (dp_package_id d)).
  - intros (m' & d & Hm & Hd & <- & [x Hx]). rewrite Hp in Hm. injection Hm as <-. rewrite Hx. split; [by exists d|done].
Qed.

Lemma walk_enter w trail l p :
  walk_ok w trail l → p ∉ trail → p ∉ l →
  walk_ok (Walk ({[p]} ∪ w_visiting w) (w_visited w) (w_ordered w)) (trail ++ [p]) l.
Proof.
  intros ([] & Hv & Ht) Hp Hl. split; [by split|]. split.
  - cbn [w_visiting]. rewrite Hv. apply leibniz_equiv. set_solver.
  - intros q [Hq| ->%list_elem_of_singleton]%elem_of_app; [by apply Ht|done].
Qed.

Lemma walk_leave w trail l p :
  walk_ok w (trail ++ [p]) l → p ∉ trail → (∀ q, edge p q → q ∈ l) →
  walk_ok (Walk (w_visiting w ∖ {[p]}) ({[p]} ∪ w_visited w) (w_ordered w ++ option_list (dict_get candidates p))) trail (l ++ [p]).
Proof.
  intros ([Hvis Hn Ht Ho] & Hv & Hoff) Hp He. assert (p ∉ l) as Hpl by (apply Hoff; set_solver).
  split; [split|split]; cbn [w_visiting w_visited w_ordered].
  - intros q. rewrite elem_of_union, elem_of_singleton, elem_of_app, list_elem_of_singleton, Hvis. tauto.
  - apply NoDup_app. split; [done|]. split; [|apply NoDup_singleton]. by intros q Hq ->%list_elem_of_singleton.
  - by apply topological_snoc.
  - rewrite omap_app, Ho. simpl. by destruct (dict_get candidates p).
  - rewrite Hv. apply leibniz_equiv. set_solver.
  - intros q Hq [Hql| ->%list_elem_of_singleton]%elem_of_app; [|done]. eapply Hoff; [|exact Hql]. set_solver.
Qed.

Lemma visit_ok fuel trail p w l :
  NoDup trail → (∀ q, q ∈ trail → is_Some (dict_get all q) ∧ tc edge q p) → is_Some (dict_get all p) →
  length all < length trail + fuel → walk_ok w trail l → visit_spec [p] trail l (visit all candidates fuel trail p w).
Proof.
  revert trail p w l. induction fuel as [|fuel IH]; intros trail p w l Hn Ht [m Hm] Hlen Hw.
  { exfalso. assert (length trail ≤ length (dict_keys all)) as Hle.
    { apply NoDup_incl_length; [by apply NoDup_ListNoDup|]. intros q Hq%list_elem_of_In. destruct (Ht q Hq) as [[x Hx] _].
      apply list_elem_of_In, dict_mem_true. unfold dict_mem. by rewrite Hx. }
    unfold dict_keys in Hle. rewrite length_fmap in Hle. lia. }
  cbn [visit]. destruct Hw as (Hf & Hv & Hoff). destruct (bool_decide (p ∈ w_visited w)) eqn:Evis; bool_to_prop.
  { exists []. rewrite app_nil_r. split; [done|]. split; [|by intros ? []%not_elem_of_nil].
    intros q ->%list_elem_of_singleton. by apply (fi_visited w l Hf). }
  assert (p ∉ l) as Hpl by by rewrite <-(fi_visited w l Hf).
  rewrite Hv. destruct (bool_decide (p ∈ (list_to_set trail : gset string))) eqn:Etr; bool_to_prop.
  { split; [done|]. exists p. split; [by left|]. exists p. split; [done|]. apply Ht. set_solver. }
  assert (p ∉ trail) as Hpt by set_solver. rewrite <-Hv. rewrite Hm.
  rewrite (fold_dependencies (λ q w, visit all candidates fuel (trail ++ [p]) q w)). fold (present m).
  assert (∀ q w l, q ∈ present m → walk_ok w (trail ++ [p]) l →
    visit_spec [q] (trail ++ [p]) l (visit all candidates fuel (trail ++ [p]) q w)) as Hstep.
  { intros q v k Hq Hw. apply (present_edge p m q Hm) in Hq. apply IH; [..|exact Hw].
    - apply NoDup_app. split; [done|]. split; [|apply NoDup_singleton]. by intros x Hx ->%list_elem_of_singleton.
    - intros x [Hx| ->%list_elem_of_singleton]%elem_of_app.
      + destruct (Ht x Hx) as [? Htc]. split; [done|]. eapply tc_r; [exact Htc|exact Hq].
      + split; [by exists m|by apply tc_once].
    - by destruct Hq as (? & ? & _ & _ & _ & ?).
    - rewrite length_app. simpl. lia. }
  pose proof (visits_spec _ (trail ++ [p]) (present m) Hstep _ l (walk_enter w trail l p (conj Hf (conj Hv Hoff)) Hpt Hpl)) as Hl.
  destruct (fold_result _ _ (present m)) as [w'|e]; cbn [mbind result_bind visit_spec].
  - destruct Hl as (l' & Hw' & Hin & Hr). exists (l' ++ [p]). rewrite (assoc_L (++)).
    split; [apply walk_leave; [done..|]; intros q Hq; by apply Hin, (present_edge p m q Hm)|].
    split; [intros q ->%list_elem_of_singleton; set_solver|].
    intros q [Hq| ->%list_elem_of_singleton]%elem_of_app; exists p; (split; [by left|]); [|done].
    destruct (Hr q Hq) as (x & Hx & Hxq). eapply rtc_l; [by apply (present_edge p m x Hm)|done].
  - destruct Hl as [He (q & Hq & x & Hqx & Hx)]. split; [done|]. exists p. split; [by left|].
    exists x. split; [|done]. eapply rtc_l; [by apply (present_edge p m q Hm)|done].
Qed.
End walks.

(** ** What is accepted *)

Section acceptance.
Context {T : Type} `{PackageManifest T} (specifier_contains : string → string → result bool).

(** A version is in a specifier, or not; that it cannot be read is neither. *)
Definition matches (v s : string) : Prop := version_matches specifier_contains v s = Ok true.
Definition differs (v s : string) : Prop := version_matches specifier_contains v s = Ok false.

Lemma matches_error v s e : version_matches specifier_contains v s = Err e → specifier_contains v s = Err e.
Proof. unfold version_matches. by destruct (String.eqb s "*"). Qed.

Lemma each_ok {A} (f : A → result unit) l : each f l = Ok tt ↔ ∀ x, x ∈ l → f x = Ok tt.
Proof.
  unfold each. induction l as [|x l IH]; simpl; [split; [by intros _ ? ?%not_elem_of_nil|done]|].
  split.
  - intros ([] & Hx & Hl)%bind_result_ok y [->|Hy]%elem_of_cons; [done|]. by apply IH.
  - intros Hf. rewrite (Hf x) by by left. cbn [mbind result_bind]. apply IH. intros y Hy. apply Hf. by right.
Qed.

Lemma any_result_true {A} (f : A → result bool) l :
  any_result f l = Ok true ↔ ∃ l1 x l2, l = l1 ++ x :: l2 ∧ f x = Ok true ∧ ∀ y, y ∈ l1 → f y = Ok false.
Proof.
  induction l as [|x l IH]; simpl.
  - split; [done|]. intros (l1 & x & l2 & E & _). by destruct l1.
  - split.
    + intros (b & Hx & Hl)%bind_result_ok. destruct b; [exists [], x, l; split; [done|]; split; [done|]; by intros y ?%not_elem_of_nil|].
      apply IH in Hl as (l1 & y & l2 & -> & Hy & Hl1). exists (x :: l1), y, l2. split; [done|]. split; [done|].
      intros z [->|Hz]%elem_of_cons; [done|by apply Hl1].
    + intros (l1 & y & l2 & E & Hy & Hl1). destruct l1 as [|z l1]; injection E as -> ->; [by rewrite Hy|].
      rewrite (Hl1 z) by by left. cbn [mbind result_bind]. apply IH. exists l1, y, l2. split; [done|]. split; [done|]. intros u Hu. apply Hl1. by right.
Qed.

Lemma any_result_false {A} (f : A → result bool) l : any_result f l = Ok false ↔ ∀ x, x ∈ l → f x = Ok false.
Proof.
  induction l as [|x l IH]; simpl; [split; [by intros _ ? ?%not_elem_of_nil|done]|]. split.
  - intros (b & Hx & Hl)%bind_result_ok. destruct b; [done|]. intros y [->|Hy]%elem_of_cons; [done|by apply IH].
  - intros Hf. rewrite (Hf x) by by left. cbn [mbind result_bind]. apply IH. intros y Hy. apply Hf. by right.
Qed.

Lemma any_result_err {A} (f : A → result bool) l e : any_result f l = Err e → ∃ x, x ∈ l ∧ f x = Err e.
Proof.
  induction l as [|x l IH]; simpl; [done|]. destruct (f x) as [[]|e'] eqn:Ex; cbn [mbind result_bind]; [done| |].
  - intros (y & Hy & He)%IH. exists y. split; [by right|done].
  - intros [= ->]. exists x. split; [by left|done].
Qed.

Lemma any_result_fmap {A B} (g : A → B) (f : B → result bool) l : any_result (λ x, f (g x)) l = any_result f (g <$> l).
Proof. induction l as [|x l IH]; [done|]. cbn [any_result fmap list_fmap]. by rewrite IH. Qed.

(** The versions of a capability that packages provide, in their order. *)
Definition offered (m : T) (id : string) : list string :=
  omap (λ c, if decide (ca_id c = id) then Some (ca_version c) else None) (m_provides m).
Definition offers (packages : list T) (id : string) : list string := flat_map (λ m, offered m id) packages.

Lemma offers_provided (packages : list T) id : (or_default (dict_get (provided_by packages) id) []).*2 = offers packages id.
Proof.
  unfold provided_by, offers.
  assert (∀ m (cs : list Capability) d, (or_default (dict_get (foldl (add_provider m) d cs) id) []).*2 =
    (or_default (dict_get d id) []).*2 ++ omap (λ c, if decide (ca_id c = id) then Some (ca_version c) else None) cs) as Hcs.
  { intros m cs. induction cs as [|c cs IH]; intros d; csimpl; [by rewrite app_nil_r|]. rewrite IH. unfold add_provider at 1. rewrite dict_get_set.
    destruct (decide (ca_id c = id)) as [<-|Hne]; [|done]. csimpl. by rewrite fmap_app, <-(assoc_L (++)). }
  assert (∀ d, (or_default (dict_get (foldl (λ p m, foldl (add_provider m) p (m_provides m)) d packages) id) []).*2 =
    (or_default (dict_get d id) []).*2 ++ flat_map (λ m, offered m id) packages) as Hall; [|by rewrite Hall].
  induction packages as [|m packages IH]; intros d; csimpl; [by rewrite app_nil_r|]. by rewrite IH, Hcs, <-(assoc_L (++)).
Qed.

Lemma offers_elem packages id v : v ∈ offers packages id ↔ ∃ m c, m ∈ packages ∧ c ∈ m_provides m ∧ ca_id c = id ∧ ca_version c = v.
Proof.
  unfold offers. rewrite list_elem_of_In, in_flat_map. setoid_rewrite <-list_elem_of_In. unfold offered. setoid_rewrite list_elem_of_omap. split.
  - intros (m & Hm & c & Hc & Hv). exists m, c. destruct (decide (ca_id c = id)); [|done]. by injection Hv.
  - intros (m & c & Hm & Hc & <- & <-). exists m. split; [done|]. exists c. by rewrite decide_True.
Qed.

(** A requirement is met: reading the versions that are offered in their order, one matches before one cannot be read; or all can be
    read, none matches, and it is optional. *)
Definition satisfied (packages : list T) (r : Requirement) : Prop :=
  (∃ vs1 v vs2, offers packages (rq_id r) = vs1 ++ v :: vs2 ∧ matches v (rq_version r) ∧ ∀ u, u ∈ vs1 → differs u (rq_version r)) ∨
  (rq_optional r = true ∧ ∀ u, u ∈ offers packages (rq_id r) → differs u (rq_version r)).

(** A required capability is provided. *)
Definition provided (packages : list T) (r : Requirement) : Prop :=
  rq_optional r = true ∨
  ∃ m c, m ∈ packages ∧ c ∈ m_provides m ∧ ca_id c = rq_id r ∧ matches (ca_version c) (rq_version r).

Lemma satisfied_provided packages r : satisfied packages r → provided packages r.
Proof.
  intros [(vs1 & v & vs2 & E & Hv & _)|[Ho _]]; [right|by left]. assert (v ∈ offers packages (rq_id r)) as Hin by (rewrite E; set_solver).
  apply offers_elem in Hin as (m & c & Hm & Hc & Hid & <-). by exists m, c.
Qed.

(** Every version that is offered for a requirement can be compared with it. *)
Definition comparable (packages : list T) (r : Requirement) : Prop :=
  ∀ v, v ∈ offers packages (rq_id r) → ∃ b, version_matches specifier_contains v (rq_version r) = Ok b.

Lemma provided_satisfied packages r : comparable packages r → provided packages r → satisfied packages r.
Proof.
  intros Hc Hp. unfold satisfied. destruct (any_result (λ v, version_matches specifier_contains v (rq_version r)) (offers packages (rq_id r))) as [[]|e] eqn:E.
  - left. by apply any_result_true in E.
  - right. rewrite any_result_false in E. destruct Hp as [?|(m & c & Hm & Hcm & Hid & Hv)]; [done|]. exfalso.
    assert (ca_version c ∈ offers packages (rq_id r)) as Hin by (apply offers_elem; by exists m, c). specialize (E _ Hin). unfold matches in Hv. congruence.
  - apply any_result_err in E as (v & Hv & E). destruct (Hc v Hv) as [b Hb]. congruence.
Qed.

Lemma check_requirement_ok packages r :
  check_requirement specifier_contains (provided_by packages) r = Ok tt ↔ satisfied packages r.
Proof.
  unfold check_requirement, satisfied, matches, differs. rewrite (any_result_fmap snd (λ v, version_matches specifier_contains v (rq_version r))), offers_provided.
  rewrite <-any_result_true, <-any_result_false.
  destruct (any_result _ (offers packages (rq_id r))) as [[]|e]; cbn [mbind result_bind]; [by split; [left|]| |by split; [|intros [?|[_ ?]]]].
  destruct (rq_optional r); [by split; [right|]|]. split; [by destruct (or_default _ _)|by intros [?|[? _]]].
Qed.

Lemma resolve_capabilities_ok (packages : dict string T) :
  resolve_capabilities specifier_contains packages = Ok tt ↔
  ∀ m r, m ∈ dict_values packages → r ∈ m_requires m → satisfied (dict_values packages) r.
Proof.
  unfold resolve_capabilities. rewrite each_ok. setoid_rewrite each_ok. setoid_rewrite check_requirement_ok.
  split; [intros Hp m r Hm; by apply Hp|intros Hp m Hm r; by apply Hp].
Qed.

(** What a manifest asks of the packages around it. *)
Definition manifest_ok (core_version : string) (all : dict string T) (m : T) : Prop :=
  matches core_version (m_core m) ∧
  (∀ c other, c ∈ m_conflicts m → dict_get all (cf_package_id c) = Some other → differs (m_version other) (cf_version c)) ∧
  (∀ d, d ∈ m_dependencies m →
     match dict_get all (dp_package_id d) with
     | Some target => matches (m_version target) (dp_version d)
     | None => dp_optional d = true
     end).

Lemma check_manifest_ok core_version all m :
  check_manifest specifier_contains core_version all m = Ok tt ↔ manifest_ok core_version all m.
Proof.
  unfold check_manifest, manifest_ok, matches, differs. destruct (version_matches specifier_contains core_version (m_core m)) as [[]|e];
    cbn [mbind result_bind negb]; [|by split; [|intros [? _]]..].
  split.
  - intros ([] & Hc & Hd)%bind_result_ok. cbv beta in Hd. rewrite each_ok in Hc. rewrite each_ok in Hd. split; [done|]. split.
    + intros c other Hin Ho. specialize (Hc c Hin). unfold check_conflict in Hc. rewrite Ho in Hc.
      by destruct (version_matches _ _ _) as [[]|].
    + intros d Hin. specialize (Hd d Hin). unfold check_dependency in Hd. destruct (dict_get all (dp_package_id d)) as [t|].
      * by destruct (version_matches _ _ _) as [[]|].
      * by destruct (dp_optional d).
  - intros (_ & Hc & Hd). rewrite (proj2 (each_ok (check_conflict specifier_contains all) (m_conflicts m))).
    + cbn [mbind result_bind]. apply each_ok. intros d Hin. specialize (Hd d Hin). unfold check_dependency.
      destruct (dict_get all (dp_package_id d)) as [t|]; by rewrite Hd.
    + intros c Hin. unfold check_conflict. destruct (dict_get all (cf_package_id c)) as [t|] eqn:Et; [|done].
      by rewrite (Hc c t Hin Et).
Qed.

(** ** Candidates and the merged graph *)

Definition by_id (manifests : list T) : dict string T := (λ m, (m_id m, m)) <$> manifests.

Lemma keys_by_id manifests : dict_keys (by_id manifests) = m_id <$> manifests.
Proof. unfold dict_keys, by_id. by rewrite <-list_fmap_compose. Qed.

Lemma values_by_id manifests : dict_values (by_id manifests) = manifests.
Proof. unfold dict_values, by_id. rewrite <-list_fmap_compose. apply list_fmap_id. Qed.

Lemma candidates_from (d : dict string T) manifests c :
  NoDup (dict_keys d) →
  fold_result add_candidate d manifests = Ok c ↔ NoDup (dict_keys d ++ (m_id <$> manifests)) ∧ c = d ++ by_id manifests.
Proof.
  revert d. induction manifests as [|m manifests IH]; intros d Hd; csimpl.
  { rewrite !app_nil_r. naive_solver. }
  assert (add_candidate d m = if dict_mem d (m_id m) then refuse "duplicate package" else Ok (dict_set d (m_id m) m)) as -> by done.
  destruct (dict_mem d (m_id m)) eqn:Em; cbn [mbind result_bind refuse fail].
  - apply dict_mem_true in Em. split; [done|]. intros [Hn _]. apply NoDup_app in Hn as (_ & Hn & _). exfalso.
    apply (Hn (m_id m) Em). by left.
  - assert (dict_get d (m_id m) = None) as Hg by (unfold dict_mem in Em; by destruct (dict_get d (m_id m))).
    rewrite (dict_set_new d (m_id m) m Hg).
    assert (dict_keys (d ++ [(m_id m, m)]) = dict_keys d ++ [m_id m]) as Hk by (unfold dict_keys; by rewrite fmap_app).
    apply dict_get_None in Hg. rewrite IH; rewrite Hk.
    + rewrite <-!(assoc_L (++)). done.
    + apply NoDup_app. split; [done|]. split; [|apply NoDup_singleton]. intros x Hx ->%list_elem_of_singleton. by apply Hg.
Qed.

Lemma candidates_ok manifests c :
  fold_result add_candidate [] manifests = Ok c ↔ NoDup (m_id <$> manifests) ∧ c = by_id manifests.
Proof. apply (candidates_from []). constructor. Qed.

Lemma merge_get {V} (d e : dict string V) k :
  dict_wf e → dict_get (merge d e) k = match dict_get e k with Some v => Some v | None => dict_get d k end.
Proof.
  unfold merge. revert d. induction e as [|[k' v] e IH]; intros d He; simpl; [done|].
  apply NoDup_cons in He as [Hk He]. rewrite IH by done. rewrite dict_get_set.
  destruct (dict_get e k) as [w|] eqn:E; destruct (decide (k' = k)) as [->|]; try done.
  destruct Hk. apply dict_get_Some_in in E. apply list_elem_of_fmap. by exists (k, w).
Qed.

Lemma merge_wf {V} (d e : dict string V) : dict_wf d → dict_wf (merge d e).
Proof. unfold merge. revert d. induction e as [|kv e IH]; intros d Hd; simpl; [done|]. apply IH. by apply dict_wf_set. Qed.

Definition merged (installed : dict string T) (manifests : list T) : dict string T := merge installed (by_id manifests).

Lemma by_id_get manifests m : NoDup (m_id <$> manifests) → m ∈ manifests → dict_get (by_id manifests) (m_id m) = Some m.
Proof.
  intros Hn Hm. apply dict_get_in; [unfold dict_wf; by rewrite keys_by_id|]. apply list_elem_of_fmap. by exists m.
Qed.

Lemma by_id_inv manifests k m : dict_get (by_id manifests) k = Some m → m ∈ manifests ∧ k = m_id m.
Proof. intros (m' & [= -> ->] & Hm)%dict_get_Some_in%list_elem_of_fmap. done. Qed.

(** The candidates in the order in which the walk finished them. *)
Lemma omap_by_id manifests l :
  NoDup (m_id <$> manifests) → NoDup l → (∀ m, m ∈ manifests → m_id m ∈ l) →
  omap (dict_get (by_id manifests)) l ≡ₚ manifests.
Proof.
  intros Hn Hl Hin. apply NoDup_Permutation.
  - clear Hin. induction Hl as [|k l Hk Hl IH]; simpl; [constructor|].
    destruct (dict_get (by_id manifests) k) as [m|] eqn:E; [|done]. constructor; [|done].
    intros (k' & Hk' & E')%list_elem_of_omap. apply by_id_inv in E as [_ ->]. by apply by_id_inv in E' as [_ ->].
  - by eapply NoDup_fmap_1.
  - intros m. rewrite list_elem_of_omap. split.
    + intros (k & _ & E). by apply by_id_inv in E as [? _].
    + intros Hm. exists (m_id m). split; [by apply Hin|by apply by_id_get].
Qed.

Lemma omap_split {A B} (f : A → option B) l l1 x l2 :
  omap f l = l1 ++ x :: l2 → ∃ k1 a k2, l = k1 ++ a :: k2 ∧ omap f k1 = l1 ∧ f a = Some x.
Proof.
  revert l1. induction l as [|a l IH]; intros l1; simpl; [by destruct l1|].
  destruct (f a) as [y|] eqn:E.
  - destruct l1 as [|z l1]; simpl.
    + intros [= -> _]. by exists [], a, l.
    + intros [= -> Hl]. destruct (IH l1 Hl) as (k1 & b & k2 & -> & <- & Hb). exists (a :: k1), b, k2. simpl. by rewrite E.
  - intros Hl. destruct (IH l1 Hl) as (k1 & b & k2 & -> & <- & Hb). exists (a :: k1), b, k2. simpl. by rewrite E.
Qed.

(** ** The result *)

(** The packages that may be installed together. *)
Record acceptable (manifests : list T) (core_version : string) (installed : dict string T) : Prop := {
  acc_unique : NoDup (m_id <$> manifests);
  acc_identity : ∀ k m, (k, m) ∈ installed → k = m_id m;
  acc_manifests : ∀ m, m ∈ dict_values (merged installed manifests) → manifest_ok core_version (merged installed manifests) m;
  acc_capabilities : ∀ m r, m ∈ dict_values (merged installed manifests) → r ∈ m_requires m →
    satisfied (dict_values (merged installed manifests)) r;
  acc_acyclic : ∀ m, m ∈ manifests → ¬ cycle_from (merged installed manifests) (m_id m);
}.

(** Every candidate comes after the candidates it depends on. *)
Definition install_order (manifests order : list T) : Prop :=
  ∀ l1 m l2, order = l1 ++ m :: l2 →
  ∀ d m', d ∈ m_dependencies m → m' ∈ manifests → m_id m' = dp_package_id d → m' ∈ l1.

Definition start_walk : walk (T := T) := Walk ∅ ∅ [].

Lemma start_walk_ok all candidates : walk_ok all candidates start_walk [] [].
Proof.
  split; [split|split].
  - intros p. cbn. set_solver.
  - constructor.
  - apply topological_nil.
  - done.
  - done.
  - by intros ? ?%not_elem_of_nil.
Qed.

Lemma sorted_keys manifests p : p ∈ sort_by (λ s : string, s) (dict_keys (by_id manifests)) ↔ p ∈ m_id <$> manifests.
Proof. by rewrite elem_of_sort_by, keys_by_id. Qed.

Definition walk_all (all candidates : dict string T) : result (walk (T := T)) :=
  fold_result (λ w p, visit all candidates (S (length all)) [] p w) start_walk (sort_by (λ s, s) (dict_keys candidates)).

Lemma walk_all_spec installed manifests :
  NoDup (m_id <$> manifests) →
  visit_spec (merged installed manifests) (by_id manifests) (m_id <$> manifests) [] []
    (walk_all (merged installed manifests) (by_id manifests)).
Proof.
  intros Hn. set (all := merged installed manifests). set (c := by_id manifests).
  assert (∀ ps, (∀ p, p ∈ ps → p ∈ m_id <$> manifests) → visit_spec all c ps [] []
    (fold_result (λ w p, visit all c (S (length all)) [] p w) start_walk ps)) as Hps.
  { intros ps Hps. apply visits_spec; [|apply start_walk_ok]. intros p w l Hp Hw. apply visit_ok; [constructor| | |simpl; lia|done].
    - by intros ? ?%not_elem_of_nil.
    - apply Hps, list_elem_of_fmap in Hp as (m & -> & Hm). unfold all, merged. rewrite merge_get.
      + by rewrite (by_id_get manifests m).
      + unfold dict_wf. by rewrite keys_by_id. }
  pose proof (sorted_keys manifests) as Hs. fold c in Hs.
  pose proof (Hps _ (λ p Hp, proj1 (Hs p) Hp)) as Hk. fold (walk_all all c) in Hk. unfold visit_spec in Hk |- *.
  destruct (walk_all all c) as [w|e].
  - destruct Hk as (l' & Hw & Hin & Hr). exists l'. split; [done|]. split; [intros p Hp; by apply Hin, Hs|].
    intros p Hp. destruct (Hr p Hp) as (q & Hq & Hqp). exists q. by rewrite <-Hs.
  - destruct Hk as (He & p & Hp & Hc). split; [done|]. exists p. by rewrite <-Hs.
Qed.

(** A topological order has no cycles. *)
Lemma topological_tc all l p q :
  topological all l → tc (edge all) p q → ∀ l1 l2, l = l1 ++ p :: l2 → q ∈ l1.
Proof.
  intros Ht Hpq. induction Hpq as [p q Hpq|p r q Hpr Hrq IH]; intros l1 l2 E; [by eapply Ht|].
  assert (r ∈ l1) as Hr by by eapply Ht. apply list_elem_of_split in Hr as (k1 & k2 & ->).
  apply elem_of_app. left. eapply IH. rewrite E, <-(assoc_L (++)). done.
Qed.

Lemma topological_acyclic all l p : topological all l → NoDup l → p ∈ l → ¬ tc (edge all) p p.
Proof.
  intros Ht Hn (l1 & l2 & ->)%list_elem_of_split Hp. pose proof (topological_tc _ _ _ _ Ht Hp l1 l2 eq_refl) as Hin.
  apply NoDup_app in Hn as (_ & Hd & _). apply (Hd p Hin). by left.
Qed.

Lemma topological_rtc all l p q : topological all l → p ∈ l → rtc (edge all) p q → q ∈ l.
Proof.
  intros Ht Hp Hpq. induction Hpq as [|p r q Hpr _ IH]; [done|]. apply IH.
  apply list_elem_of_split in Hp as (l1 & l2 & ->). apply elem_of_app. left. by eapply Ht.
Qed.

Lemma fold_result_ext {A B} (f g : B → A → result B) b l :
  (∀ b x, f b x = g b x) → fold_result f b l = fold_result g b l.
Proof. intros E. revert b. induction l as [|x l IH]; intros b; simpl; [done|]. rewrite E. by destruct (g b x); simpl. Qed.

(** The walk depends on the mappings only. *)
Lemma visit_ext (all all' c c' : dict string T) fuel trail p w :
  (∀ k, dict_get all k = dict_get all' k) → (∀ k, dict_get c k = dict_get c' k) →
  visit all c fuel trail p w = visit all' c' fuel trail p w.
Proof.
  intros Ha Hc. revert trail p w. induction fuel as [|fuel IH]; intros trail p w; cbn [visit]; [done|].
  destruct (bool_decide _); [done|]. destruct (bool_decide _); [done|]. rewrite Ha, Hc.
  destruct (dict_get all' p) as [m|]; [|done]. f_equal. apply fold_result_ext. intros v d.
  unfold dict_mem. rewrite Ha. destruct (dict_get all' (dp_package_id d)); [apply IH|done].
Qed.

Lemma dict_ext_perm {V} (d e : dict string V) : dict_wf d → dict_wf e → (∀ k, dict_get d k = dict_get e k) → d ≡ₚ e.
Proof.
  intros Hd He E. apply NoDup_Permutation; [by eapply NoDup_fmap_1|by eapply NoDup_fmap_1|].
  intros [k v]. rewrite <-!dict_get_iff by done. by rewrite E.
Qed.

Lemma sort_id_perm (l l' : list string) : l ≡ₚ l' → sort_by (λ s, s) l = sort_by (λ s, s) l'.
Proof.
  intros Hp. apply (StronglySorted_unique_strong (key_le (λ s : string, s))).
  - intros x y _ _. unfold key_le, key_leb. apply ord_antisym.
  - apply sort_by_sorted.
  - apply sort_by_sorted.
  - by rewrite !sort_by_perm.
Qed.

Section permuted.
Context (installed : dict string T) (manifests manifests' : list T).
Hypothesis installed_wf : dict_wf installed.
Hypothesis unique : NoDup (m_id <$> manifests).
Hypothesis permuted : manifests' ≡ₚ manifests.

Lemma by_id_wf : dict_wf (by_id manifests).
Proof. unfold dict_wf. by rewrite keys_by_id. Qed.

Lemma by_id_permuted k : dict_get (by_id manifests) k = dict_get (by_id manifests') k.
Proof. apply dict_get_perm; [apply by_id_wf|]. unfold by_id. by rewrite permuted. Qed.

Lemma by_id_wf' : dict_wf (by_id manifests').
Proof. unfold dict_wf. rewrite keys_by_id. by rewrite permuted. Qed.

Lemma merged_permuted k : dict_get (merged installed manifests) k = dict_get (merged installed manifests') k.
Proof. unfold merged. rewrite !merge_get by (apply by_id_wf || apply by_id_wf'). by rewrite by_id_permuted. Qed.

Lemma merged_perm : merged installed manifests ≡ₚ merged installed manifests'.
Proof. apply dict_ext_perm; [by apply merge_wf..|apply merged_permuted]. Qed.

Lemma walk_permuted :
  walk_all (merged installed manifests) (by_id manifests) = walk_all (merged installed manifests') (by_id manifests').
Proof.
  unfold walk_all. rewrite (sort_id_perm (dict_keys (by_id manifests)) (dict_keys (by_id manifests'))).
  2:{ rewrite !keys_by_id. by rewrite permuted. }
  rewrite (Permutation_length merged_perm). apply fold_result_ext. intros w p. apply visit_ext; [apply merged_permuted|apply by_id_permuted].
Qed.

Lemma edge_permuted p q : edge (merged installed manifests) p q ↔ edge (merged installed manifests') p q.
Proof. unfold edge. setoid_rewrite merged_permuted. done. Qed.

(** The capabilities of the batch and of what is installed can be compared with what is required of them. *)
Definition capabilities_readable (ms : list T) : Prop :=
  ∀ m r, m ∈ dict_values (merged installed ms) → r ∈ m_requires m → comparable (dict_values (merged installed ms)) r.

Lemma acceptable_permuted core_version : capabilities_readable manifests →
  acceptable manifests core_version installed → acceptable manifests' core_version installed.
Proof.
  pose proof merged_perm as Hp. assert (∀ m, m ∈ dict_values (merged installed manifests) ↔
    m ∈ dict_values (merged installed manifests')) as Hv by (intros m; unfold dict_values; by rewrite Hp).
  assert (∀ id v, v ∈ offers (dict_values (merged installed manifests)) id ↔ v ∈ offers (dict_values (merged installed manifests')) id) as Ho.
  { intros id v. rewrite !offers_elem. by setoid_rewrite Hv. }
  intros Hread [H1 H2 H3 H4 H5]. split; [by rewrite permuted|done| | |].
  - intros m Hm%Hv. destruct (H3 m Hm) as (Hc & Hk & Hd). split; [done|]. setoid_rewrite <-merged_permuted. done.
  - intros m r Hm%Hv Hr. apply provided_satisfied; [intros v Hv'%Ho; by apply (Hread m r)|].
    destruct (satisfied_provided _ _ (H4 m r Hm Hr)) as [?|(m' & c & Hm' & ?)]; [by left|]. right. exists m', c. by rewrite <-Hv.
  - intros m Hm (q & Hq & Hc). rewrite permuted in Hm. apply (H5 m Hm). exists q. split.
    + apply (rtc_congruence id (R := edge (merged installed manifests'))); [|exact Hq]. intros x y. apply edge_permuted.
    + apply (tc_congruence id (R := edge (merged installed manifests'))); [|exact Hc]. intros x y. apply edge_permuted.
Qed.
End permuted.

Lemma resolve_steps manifests core_version installed order :
  resolve_install_order specifier_contains manifests core_version installed = Ok order ↔
  NoDup (m_id <$> manifests) ∧ (∀ k m, (k, m) ∈ installed → k = m_id m) ∧
  (∀ m, m ∈ dict_values (merged installed manifests) → manifest_ok core_version (merged installed manifests) m) ∧
  (∀ m r, m ∈ dict_values (merged installed manifests) → r ∈ m_requires m → satisfied (dict_values (merged installed manifests)) r) ∧
  ∃ w, walk_all (merged installed manifests) (by_id manifests) = Ok w ∧ w_ordered w = order.
Proof.
  unfold resolve_install_order.
  assert (each check_identity installed = Ok tt ↔ ∀ k m, (k, m) ∈ installed → k = m_id m) as Hid.
  { rewrite each_ok. unfold check_identity. split.
    - intros Hc k m Hin. specialize (Hc _ Hin). simpl in Hc. destruct (String.eqb k (m_id m)) eqn:E; [|done].
      by apply String.eqb_eq in E.
    - intros Hc [k m] Hin. simpl. rewrite (Hc k m Hin). by rewrite String.eqb_refl. }
  split.
  - intros (c & [Hn ->]%candidates_ok & Hk)%bind_result_ok. apply bind_result_ok in Hk as ([] & Hi & Hk).
    apply bind_result_ok in Hk as ([] & Hm & Hk). apply bind_result_ok in Hk as ([] & Hr & Hk).
    apply bind_result_ok in Hk as (w & Hw & [= <-]). fold (merged installed manifests) in Hm, Hr, Hw.
    rewrite each_ok in Hm. setoid_rewrite check_manifest_ok in Hm. rewrite resolve_capabilities_ok in Hr.
    split_and!; [done|by apply Hid|done..|]. by exists w.
  - intros (Hn & Hi & Hm & Hr & w & Hw & <-). rewrite (proj2 (candidates_ok manifests (by_id manifests))) by done.
    cbn [mbind result_bind]. rewrite (proj2 Hid Hi). cbn [mbind result_bind]. fold (merged installed manifests).
    rewrite (proj2 (each_ok (check_manifest specifier_contains core_version (merged installed manifests)) _))
      by (intros m Hin; by apply check_manifest_ok, Hm).
    cbn [mbind result_bind]. rewrite (proj2 (resolve_capabilities_ok _) Hr). cbn [mbind result_bind].
    fold start_walk. fold (walk_all (merged installed manifests) (by_id manifests)). by rewrite Hw.
Qed.

Lemma resolve_acceptable manifests core_version installed :
  (∃ order, resolve_install_order specifier_contains manifests core_version installed = Ok order) ↔
  acceptable manifests core_version installed.
Proof.
  setoid_rewrite resolve_steps. split.
  - intros (order & Hn & Hi & Hm & Hr & w & Hw & _). split; try done. intros m Hin (q & Hq & Hc).
    pose proof (walk_all_spec installed manifests Hn) as Hs. rewrite Hw in Hs.
    destruct Hs as (l & ([_ Hnd Ht _] & _) & Hin' & _). cbn [app] in *.
    assert (m_id m ∈ l) as Hml by (apply Hin', list_elem_of_fmap; by exists m).
    eapply topological_acyclic; [exact Ht|exact Hnd| |exact Hc]. by eapply topological_rtc.
  - intros [Hn Hi Hm Hr Ha]. pose proof (walk_all_spec installed manifests Hn) as Hs.
    destruct (walk_all _ _) as [w|e] eqn:Hw; [exists (w_ordered w); split_and!; try done; by exists w|].
    exfalso. destruct Hs as (_ & p & (m & -> & Hin)%list_elem_of_fmap & Hc). by apply (Ha m Hin).
Qed.

Lemma resolve_order manifests core_version installed order :
  resolve_install_order specifier_contains manifests core_version installed = Ok order →
  order ≡ₚ manifests ∧ install_order manifests order.
Proof.
  intros (Hn & _ & _ & _ & w & Hw & <-)%resolve_steps. pose proof (walk_all_spec installed manifests Hn) as Hs. rewrite Hw in Hs.
  destruct Hs as (l & ([_ Hnd Ht ->] & _) & Hin & _). cbn [app] in *.
  assert (∀ m, m ∈ manifests → m_id m ∈ l) as Hml by (intros m Hm; apply Hin, list_elem_of_fmap; by exists m).
  split; [by apply omap_by_id|]. intros l1 m l2 E d m' Hd Hm' Hid.
  apply omap_split in E as (k1 & p & k2 & -> & <- & Hp). pose proof (by_id_inv _ _ _ Hp) as [Hm ->].
  assert (dict_wf (by_id manifests)) as Hwf by (unfold dict_wf; by rewrite keys_by_id).
  apply list_elem_of_omap. exists (m_id m'). split; [|by apply by_id_get].
  apply (Ht k1 (m_id m) k2 eq_refl). exists m, d. unfold merged. rewrite !merge_get by done.
  rewrite Hp, (by_id_get manifests m' Hn Hm'). by split_and!.
Qed.

(** The errors of a resolution: its own, and those of the packaging library on a string that it cannot read. *)
Definition resolution_error (e : exn) : Prop := exn_cls e = DependencyResolutionError ∨ ∃ v s, specifier_contains v s = Err e.

Lemma each_err {A} (f : A → result unit) l e : each f l = Err e → ∃ x, f x = Err e.
Proof.
  unfold each. induction l as [|x l IH]; simpl; [done|]. destruct (f x) as [[]|e'] eqn:E; simpl; [done|].
  intros [= ->]. by exists x.
Qed.

Lemma check_manifest_err core_version all m e : check_manifest specifier_contains core_version all m = Err e → resolution_error e.
Proof.
  assert (∀ v s e, version_matches specifier_contains v s = Err e → resolution_error e) as Hv by (intros v s e' He; right; exists v, s; by apply matches_error).
  unfold check_manifest. destruct (version_matches _ core_version (m_core m)) as [b|e0] eqn:E0; cbn [mbind result_bind]; [|intros [= ->]; by eapply Hv].
  destruct (negb b); cbn [mbind result_bind]; [intros [= <-]; by left|].
  destruct (each (check_conflict _ _) _) as [[]|e1] eqn:E1; cbn [mbind result_bind].
  - intros (d & Hd)%each_err. unfold check_dependency in Hd. destruct (dict_get _ _) as [t|].
    + destruct (version_matches _ _ (dp_version d)) as [[]|e2] eqn:E2; cbn [mbind result_bind negb] in Hd; [done|injection Hd as <-; by left|]. injection Hd as ->. by eapply Hv.
    + destruct (dp_optional d); [done|]. injection Hd as <-. by left.
  - intros [= ->]. apply each_err in E1 as (k & Hk). unfold check_conflict in Hk. destruct (dict_get _ _) as [t|]; [|done].
    destruct (version_matches _ _ (cf_version k)) as [[]|e2] eqn:E2; cbn [mbind result_bind negb] in Hk; [injection Hk as <-; by left|done|]. injection Hk as ->. by eapply Hv.
Qed.

Lemma resolve_capabilities_err (packages : dict string T) e : resolve_capabilities specifier_contains packages = Err e → resolution_error e.
Proof.
  intros (m & Hm)%each_err. apply each_err in Hm as (r & Hr). unfold check_requirement in Hr.
  destruct (any_result _ _) as [b|e'] eqn:Eb; cbn [mbind result_bind] in Hr.
  - destruct b; [done|]. destruct (rq_optional r); [done|]. left. destruct (or_default _ _); by injection Hr as <-.
  - injection Hr as ->. apply any_result_err in Eb as (p & _ & Hp). right. exists p.2, (rq_version r). by apply matches_error.
Qed.

Lemma resolve_error manifests core_version installed e :
  resolve_install_order specifier_contains manifests core_version installed = Err e → resolution_error e.
Proof.
  assert (∀ ms (d : dict string T) e, fold_result add_candidate d ms = Err e → exn_cls e = DependencyResolutionError) as Hc.
  { induction ms as [|m ms IH]; intros d e'; simpl; [done|].
    assert (add_candidate d m = if dict_mem d (m_id m) then refuse "duplicate package" else Ok (dict_set d (m_id m) m)) as -> by done.
    destruct (dict_mem d (m_id m)); simpl; [by intros [= <-]|apply IH]. }
  unfold resolve_install_order. destruct (fold_result add_candidate [] manifests) as [c|e'] eqn:Ec; [|intros [= <-]; left; by eapply Hc].
  apply candidates_ok in Ec as [Hn ->]. cbn [mbind result_bind].
  destruct (each check_identity installed) as [[]|e'] eqn:Ei; cbn [mbind result_bind].
  2:{ intros [= <-]. apply each_err in Ei as (x & Hx). left. unfold check_identity in Hx. destruct (negb _); [by injection Hx as <-|done]. }
  fold (merged installed manifests). destruct (each (check_manifest _ _ _) _) as [[]|e'] eqn:Em; cbn [mbind result_bind].
  2:{ intros [= <-]. apply each_err in Em as (m & Hm). by eapply check_manifest_err. }
  destruct (resolve_capabilities _ _) as [[]|e'] eqn:Er; cbn [mbind result_bind]; [|intros [= <-]; by eapply resolve_capabilities_err].
  pose proof (walk_all_spec installed manifests Hn) as Hs. fold start_walk. fold (walk_all (merged installed manifests) (by_id manifests)).
  destruct (walk_all _ _) as [w|e']; cbn [mbind result_bind]; [done|]. intros [= <-]. left. by destruct Hs.
Qed.

(** C30: Dependency resolution accepts exactly the batches that can be
    installed, and orders them.  A batch is accepted if and
    only if its identifiers are distinct and, with the installed packages it
    does not replace, every core version, conflict, dependency and capability
    is satisfied and no cycle can be reached from it; satisfied is what the packaging library answers to the version
    and the specifier, and a string that it cannot read, when it is compared, is never satisfied, not even as the specifier of a conflict.  The order is then a
    permutation of the batch in which every package follows the candidates it
    depends on. Where the offered capabilities can all be compared with their requirements, it does not depend on the order of the batch, nor does acceptance; otherwise
    it may, since the comparison stops at the first match. Every error is a [DependencyResolutionError] or one that
    the packaging library raised on a version and a specifier, which no caller in this module catches (the recursion never runs out of its fuel, one more than the packages there are; a
    chain of dependencies beyond the recursion limit of the interpreter is not considered). *)
Theorem resolve_exact (manifests : list T) (core_version : string) (installed : dict string T) :
  dict_wf installed →
  let resolve ms := resolve_install_order specifier_contains ms core_version installed in
  ((∃ order, resolve manifests = Ok order) ↔ acceptable manifests core_version installed) ∧
  (∀ order, resolve manifests = Ok order → order ≡ₚ manifests ∧ install_order manifests order) ∧
  (∀ order, resolve manifests = Ok order → capabilities_readable installed manifests → ∀ ms, ms ≡ₚ manifests → resolve ms = Ok order) ∧
  (∀ e, resolve manifests = Err e → exn_cls e = DependencyResolutionError ∨ ∃ v s, specifier_contains v s = Err e).
Proof.
  intros Hwf resolve. split_and!; [apply resolve_acceptable|intros order; apply resolve_order| |intros e; apply resolve_error].
  intros order Ho Hread ms Hms.
  pose proof (proj1 (resolve_acceptable manifests core_version installed) (ex_intro _ order Ho)) as Ha.
  apply (acceptable_permuted installed manifests ms Hwf) in Ha; [|by apply resolve_steps in Ho as [? _]|exact Hms|exact Hread].
  apply resolve_acceptable in Ha as [order' Ho']. unfold resolve. rewrite Ho'. f_equal.
  apply resolve_steps in Ho as (Hn & _ & _ & _ & w & Hw & <-). apply resolve_steps in Ho' as (_ & _ & _ & _ & w' & Hw' & <-).
  rewrite <-(walk_permuted installed manifests ms Hwf Hn Hms), Hw in Hw'. by injection Hw' as <-.
Qed.
End acceptance.

(** ** A batch of three packages *)

Record demo_manifest : Type := Demo {
  dm_id : string; dm_dependencies : list Dependency; dm_provides : list Capability; dm_requires : list Requirement;
}.

#[export] Instance demo_package : PackageManifest demo_manifest := {|
  m_id := dm_id; m_version _ := "1"; m_core _ := "*"; m_conflicts _ := [];
  m_dependencies := dm_dependencies; m_provides := dm_provides; m_requires := dm_requires |}.

Definition demo_contains (v s : string) : result bool := Ok (String.eqb v s).

Definition demo_shop : demo_manifest := Demo "shop" [Build_Dependency "store" "1" false] [] [Build_Requirement "pay" "*" false].
Definition demo_pay : demo_manifest := Demo "pay" [] [Build_Capability "pay" "1"] [].
Definition demo_store : demo_manifest := Demo "store" [] [] [].

Example demo_order :
  resolve_install_order demo_contains [demo_shop; demo_store] "1" [("pay", demo_pay)] = Ok [demo_store; demo_shop].
Proof. by vm_compute. Qed.

Example demo_cycle :
  resolve_install_order demo_contains [Demo "a" [Build_Dependency "b" "*" false] [] []; Demo "b" [Build_Dependency "a" "*" true] [] []]
    "1" [] = fail DependencyResolutionError "dependency cycle: a -> b -> a".
Proof. by vm_compute. Qed.

Lemma resolve_exact_witness :
  dict_wf [("pay", demo_pay)] ∧ acceptable demo_contains [demo_shop; demo_store] "1" [("pay", demo_pay)] ∧
  resolve_install_order demo_contains [demo_store; demo_shop] "1" [("pay", demo_pay)] = Ok [demo_store; demo_shop].
Proof.
  assert (dict_wf [("pay", demo_pay)]) as Hwf by apply NoDup_singleton.
  destruct (resolve_exact demo_contains [demo_shop; demo_store] "1" [("pay", demo_pay)] Hwf) as (Hiff & _ & Hord & _).
  split; [exact Hwf|]. split; [apply Hiff; by exists [demo_store; demo_shop]; apply demo_order|].
  apply (Hord _ demo_order); [|apply Permutation_swap]. intros m r _ _ v _. unfold version_matches. destruct (String.eqb _ _); by eexists.
Defined.

(** A version that cannot be read escapes as the error of the packaging library, or not, as the order of the batch has it. *)
Definition strict_contains (v s : string) : result bool := if String.eqb v "?" then fail ValueErr "Invalid version: '?'" else Ok (String.eqb v s).
Definition demo_offer (id version : string) : demo_manifest := Demo id [] [Build_Capability "pay" version] [].
Definition demo_asks : demo_manifest := Demo "shop" [] [] [Build_Requirement "pay" "1" false].

Example unreadable_version :
  resolve_install_order strict_contains [demo_offer "a" "1"; demo_offer "b" "?"; demo_asks] "1" [] =
    Ok [demo_offer "a" "1"; demo_offer "b" "?"; demo_asks] ∧
  resolve_install_order strict_contains [demo_offer "b" "?"; demo_offer "a" "1"; demo_asks] "1" [] = fail ValueErr "Invalid version: '?'".
Proof. by vm_compute. Qed.
End Dependencies.
