(* ===== verification/Packages.v ===== *)
(** * The package registry (packages.py)

    The registry file is the state: [None] when it is missing, otherwise its
    JSON document.  A method holds the registry lock and is one step.  Reading
    and dumping one record are pydantic's, over the manifests of the contracts
    package: [parse_record] and [dump_record].  Error messages leave out the
    values they quote. *)

From Stdlib Require Import ZArith Lia.
From stdpp Require Import base decidable numbers list strings gmap sets.
From S2P Require Import Prelude PyData JsonGraph Dependencies.

Module Packages.
Import JsonGraph(json, JObj, JStr).
Import Dependencies.

Definition RESERVED_PACKAGE_IDS : gset string := {[ "system-fallback" ]}.
Definition LEGACY_MANIFEST_KEYS : gset string := {[ "capabilities" ]}.

Inductive PackageStatus : Type := INSTALLED | ENABLED | DISABLED.

#[global] Instance PackageStatus_eq_dec : EqDecision PackageStatus.
Proof. solve_decision. Defined.

Record PackageRecord (T : Type) : Type := Rec { pr_manifest : T; pr_status : PackageStatus }.
Arguments Rec {T} _ _.
Arguments pr_manifest {T} _.
Arguments pr_status {T} _.

(** ** Documents of earlier versions *)

Definition legacy_entry (e : string * json) : bool := bool_decide (e.1 ∈ LEGACY_MANIFEST_KEYS).

(** [None] is the record itself: nothing was removed. *)
Definition legacy_record_payload (record : json) : option json :=
  match record with
  | JObj m =>
      match dict_get m "manifest" with
      | Some (JObj manifest) =>
          let cleaned := List.filter (λ e, negb (legacy_entry e)) manifest in
          if existsb legacy_entry manifest then Some (JObj (dict_set m "manifest" (JObj cleaned))) else None
      | _ => None
      end
  | _ => None
  end.

Definition registry_payload_has_legacy_keys (data : json) : bool :=
  match data with
  | JObj m =>
      match dict_get m "packages" with
      | Some (JObj packages) => existsb (λ r, bool_decide (is_Some (legacy_record_payload r))) (dict_values packages)
      | _ => false
      end
  | _ => false
  end.

Definition lifecycle {A} (msg : string) : result A := fail PackageLifecycleError msg.

Section registry.
Context {T : Type} `{PackageManifest T} (specifier_contains : string → string → result bool).
Context (parse_record : json → result (PackageRecord T)) (dump_record : PackageRecord T → json).
Context (core_version : string) (protected_ids : gset string).

Definition records_map : Type := dict string (PackageRecord T).
Definition store : Type := option json.

Definition parse_entry (e : string * json) : result (string * PackageRecord T) :=
  r ← parse_record (or_default (legacy_record_payload e.2) e.2); Ok (e.1, r).

Definition parse_registry_document (data : json) : result records_map :=
  match data with
  | JObj [("packages"%string, raw)] =>
      match raw with
      | JObj raw_records =>
          records ← map_result parse_entry raw_records;
          if existsb (λ e : string * PackageRecord T, negb (String.eqb e.1 (m_id (pr_manifest e.2)))) records
          then lifecycle "package registry identity is invalid" else Ok records
      | _ => lifecycle "package registry is invalid"
      end
  | _ => lifecycle "package registry is invalid"
  end.

Definition canonical_registry_document (records : records_map) : json :=
  JObj [("packages", JObj ((λ e : string * PackageRecord T, (e.1, dump_record e.2)) <$> dict_sort records))].

Definition document (s : store) : json := or_default s (JObj [("packages", JObj [])]).

Definition records : M store records_map := λ s, (parse_registry_document (document s), s).

Definition write (rs : records_map) : M store unit := put_st (Some (canonical_registry_document rs)).

Definition persist_legacy_cleanup : M store bool :=
  data ← gets document;
  rs ← lift (parse_registry_document data);
  if negb (registry_payload_has_legacy_keys data) then mret false
  else _ ← write rs; mret true.

Definition require (rs : records_map) (id : string) : result (PackageRecord T) :=
  match dict_get rs id with Some r => Ok r | None => lifecycle "package is not installed" end.

Definition requires_package (id : string) (r : PackageRecord T) : bool :=
  existsb (λ d, String.eqb (dp_package_id d) id && negb (dp_optional d)) (m_dependencies (pr_manifest r)).

Definition is_enabled (r : PackageRecord T) : bool := bool_decide (pr_status r = ENABLED).

Definition required_dependents (rs : records_map) (id : string) (enabled_only : bool) : list string :=
  (List.filter (λ e, (negb enabled_only || is_enabled e.2) && requires_package id e.2) rs).*1.

Definition manifests_of (rs : records_map) : dict string T := (λ e, (e.1, pr_manifest e.2)) <$> rs.

(** [created]: one INSTALLED record per manifest, in order. *)
Definition add_installed (rs : records_map) (m : T) : records_map := dict_set rs (m_id m) (Rec m INSTALLED).

Definition install_many (manifests : list T) : M store (list (PackageRecord T)) :=
  rs ← records;
  _ ← lift (if existsb (λ m, bool_decide (m_id m ∈ RESERVED_PACKAGE_IDS)) manifests
            then lifecycle "package id is reserved" else Ok tt);
  _ ← lift (if existsb (λ m, dict_mem rs (m_id m)) manifests
            then lifecycle "packages already installed" else Ok tt);
  order ← lift (resolve_install_order specifier_contains manifests core_version (manifests_of rs));
  _ ← write (foldl add_installed rs order);
  mret ((λ m, Rec m INSTALLED) <$> order).

Definition check_enabled_dependency (rs : records_map) (d : Dependency) : result unit :=
  if dp_optional d then Ok tt
  else match dict_get rs (dp_package_id d) with
       | Some target =>
           if negb (is_enabled target) then lifecycle "cannot enable: dependency is not enabled"
           else ok ← version_matches specifier_contains (m_version (pr_manifest target)) (dp_version d);
                if negb ok then lifecycle "cannot enable: dependency has incompatible version" else Ok tt
       | None => lifecycle "cannot enable: dependency is not enabled"
       end.

(** [resolve_capabilities] of some of the records, as the lifecycle reports it. *)
Definition check_capabilities (rs : records_map) (keep : string * PackageRecord T → bool) (msg : string) : result unit :=
  result_catch (resolve_capabilities specifier_contains (manifests_of (List.filter keep rs)))
    (λ e, if exn_in e [DependencyResolutionError] then Some (lifecycle msg) else None).

Definition with_status (r : PackageRecord T) (s : PackageStatus) : PackageRecord T := Rec (pr_manifest r) s.

Definition enable (id : string) : M store (PackageRecord T) :=
  rs ← records;
  r ← lift (require rs id);
  _ ← lift (each (check_enabled_dependency rs) (m_dependencies (pr_manifest r)));
  _ ← lift (check_capabilities rs (λ e, is_enabled e.2 || String.eqb e.1 id) "cannot enable");
  _ ← write (dict_set rs id (with_status r ENABLED));
  mret (with_status r ENABLED).

Definition disable (id : string) : M store (PackageRecord T) :=
  rs ← records;
  r ← lift (require rs id);
  _ ← lift (match required_dependents rs id true with
            | [] => Ok tt | _ => lifecycle "cannot disable: enabled dependents" end);
  _ ← lift (check_capabilities rs (λ e, is_enabled e.2 && negb (String.eqb e.1 id)) "cannot disable");
  _ ← write (dict_set rs id (with_status r DISABLED));
  mret (with_status r DISABLED).

Definition quarantine (id : string) : M store (PackageRecord T) :=
  rs ← records;
  r ← lift (require rs id);
  _ ← lift (if bool_decide (id ∈ protected_ids) then lifecycle "package is protected" else Ok tt);
  _ ← write (dict_set rs id (with_status r DISABLED));
  mret (with_status r DISABLED).

Definition uninstall (id : string) : M store (PackageRecord T) :=
  rs ← records;
  r ← lift (require rs id);
  _ ← lift (if bool_decide (id ∈ protected_ids) then lifecycle "package is protected" else Ok tt);
  _ ← lift (if is_enabled r then lifecycle "disable package before uninstall" else Ok tt);
  _ ← lift (match required_dependents rs id false with
            | [] => Ok tt | _ => lifecycle "cannot uninstall: installed dependents" end);
  _ ← write (dict_del rs id);
  mret r.

(** A call on the registry. *)
Inductive op : Type :=
  | OpCleanup
  | OpInstall (manifests : list T)
  | OpEnable (id : string)
  | OpDisable (id : string)
  | OpQuarantine (id : string)
  | OpUninstall (id : string).

(** Whether the call succeeded is all a run looks at. *)
Definition call (o : op) : M store unit :=
  match o with
  | OpCleanup => _ ← persist_legacy_cleanup; mret tt
  | OpInstall ms => _ ← install_many ms; mret tt
  | OpEnable id => _ ← enable id; mret tt
  | OpDisable id => _ ← disable id; mret tt
  | OpQuarantine id => _ ← quarantine id; mret tt
  | OpUninstall id => _ ← uninstall id; mret tt
  end.

Definition run (ops : list op) (s : store) : store := foldl (λ s o, post (call o) s) s ops.
End registry.

(** ** Registries *)

Section laws.
Context {T : Type} `{PackageManifest T} (specifier_contains : string → string → result bool).
Context (parse_record : json → result (PackageRecord T)) (dump_record : PackageRecord T → json).
Context (core_version : string) (protected_ids : gset string).
(** pydantic reads back what it dumped, which has no key of earlier versions. *)
Hypothesis parse_dump : ∀ r, parse_record (dump_record r) = Ok r.
Hypothesis dump_current : ∀ r, legacy_record_payload (dump_record r) = None.

Abbreviation parse := (parse_registry_document parse_record).
Abbreviation canonical := (canonical_registry_document dump_record).
Abbreviation callp := (call specifier_contains parse_record dump_record core_version protected_ids).
Abbreviation runp := (run specifier_contains parse_record dump_record core_version protected_ids).
Abbreviation matches := (matches specifier_contains).
Implicit Types (rs : dict string (PackageRecord T)) (r : PackageRecord T).

Definition ids_ok rs : Prop := ∀ k r, dict_get rs k = Some r → k = m_id (pr_manifest r).

(** Core, conflicts and dependencies hold between the installed packages. *)
Definition installed_ok rs : Prop :=
  ∀ k r, dict_get rs k = Some r → manifest_ok specifier_contains core_version (manifests_of rs) (pr_manifest r).

(** The dependencies of an enabled package are enabled, and its required
    capabilities are provided by enabled packages. *)
Definition enabled_ok rs : Prop :=
  ∀ k r, dict_get rs k = Some r → pr_status r = ENABLED →
  (∀ d, d ∈ m_dependencies (pr_manifest r) → dp_optional d = false →
     ∃ t, dict_get rs (dp_package_id d) = Some t ∧ pr_status t = ENABLED) ∧
  (∀ q, q ∈ m_requires (pr_manifest r) → rq_optional q = true ∨
     ∃ k' p c, dict_get rs k' = Some p ∧ pr_status p = ENABLED ∧ c ∈ m_provides (pr_manifest p) ∧
       ca_id c = rq_id q ∧ matches (ca_version c) (rq_version q)).

Definition registry_ok rs : Prop := dict_wf rs ∧ ids_ok rs ∧ installed_ok rs.

Lemma manifests_get rs k : dict_get (manifests_of rs) k = pr_manifest <$> dict_get rs k.
Proof.
  unfold manifests_of. induction rs as [|[k' r] rs IH]; simpl; [done|]. by destruct (decide (k' = k)).
Qed.

Lemma manifests_keys rs : dict_keys (manifests_of rs) = dict_keys rs.
Proof. unfold dict_keys, manifests_of. by rewrite <-list_fmap_compose. Qed.

Lemma manifests_wf rs : dict_wf rs → dict_wf (manifests_of rs).
Proof. unfold dict_wf. by rewrite manifests_keys. Qed.

Lemma manifest_ok_ext all all' (m : T) :
  (∀ k, dict_get all k = dict_get all' k) → manifest_ok specifier_contains core_version all m →
  manifest_ok specifier_contains core_version all' m.
Proof. intros E (Hc & Hk & Hd). split; [done|]. split; [intros c other; rewrite <-E; apply Hk|intros d; rewrite <-E; apply Hd]. Qed.

(** The invariants speak of the mapping, not of its order. *)
Lemma registry_ok_ext rs rs' :
  dict_wf rs' → (∀ k, dict_get rs k = dict_get rs' k) → registry_ok rs → registry_ok rs'.
Proof.
  intros Hwf E (_ & Hi & Hm). split; [done|]. split.
  - intros k r. rewrite <-E. apply Hi.
  - intros k r. rewrite <-E. intros Hr. eapply manifest_ok_ext; [|by eapply Hm]. intros k'. by rewrite !manifests_get, E.
Qed.

Lemma enabled_ok_ext rs rs' : (∀ k, dict_get rs k = dict_get rs' k) → enabled_ok rs → enabled_ok rs'.
Proof.
  intros E He k r. rewrite <-E. intros Hr Hs. destruct (He k r Hr Hs) as [Hd Hc]. split.
  - intros d. rewrite <-E. apply Hd.
  - intros q Hq. destruct (Hc q Hq) as [?|(k' & p & c & Hp & ?)]; [by left|]. right. exists k', p, c. by rewrite <-E.
Qed.

Lemma parse_canonical rs : dict_wf rs → ids_ok rs → parse (canonical rs) = Ok (dict_sort rs).
Proof.
  intros Hwf Hi. unfold canonical_registry_document, parse_registry_document.
  assert (map_result (parse_entry parse_record) ((λ e : string * PackageRecord T, (e.1, dump_record e.2)) <$> dict_sort rs) = Ok (dict_sort rs)) as ->.
  { apply map_result_ok. apply Forall2_fmap_l, Forall_Forall2_diag, Forall_forall. intros [k r] _. unfold parse_entry. simpl.
    rewrite dump_current. simpl. by rewrite parse_dump. }
  cbn [mbind result_bind]. destruct (existsb _ _) eqn:E; [|done]. exfalso. apply existsb_exists in E as ([k r] & Hin & Hb).
  apply list_elem_of_In, elem_of_dict_sort, (dict_get_in rs k r Hwf), Hi in Hin. simpl in Hb. by rewrite Hin, String.eqb_refl in Hb.
Qed.

(** A file that holds the registry [rs]. *)
Definition holds (s : store) rs : Prop := parse (document s) = Ok rs ∧ registry_ok rs.

Lemma holds_written rs : registry_ok rs → holds (Some (canonical rs)) (dict_sort rs).
Proof.
  intros Hr. pose proof Hr as (Hwf & Hi & _). split; [by apply parse_canonical|].
  eapply registry_ok_ext; [by apply dict_wf_sort| |exact Hr]. intros k. by rewrite dict_get_sort.
Qed.

(** ** What the calls write *)

Inductive effect rs : @op T → dict string (PackageRecord T) → Prop :=
  | eff_cleanup : effect rs OpCleanup rs
  | eff_install ms order :
      (∀ m, m ∈ ms → (m_id m ∉ RESERVED_PACKAGE_IDS) ∧ m_id m ∉ dict_keys rs) →
      resolve_install_order specifier_contains ms core_version (manifests_of rs) = Ok order →
      effect rs (OpInstall ms) (foldl add_installed rs order)
  | eff_enable id r :
      dict_get rs id = Some r → each (check_enabled_dependency specifier_contains rs) (m_dependencies (pr_manifest r)) = Ok tt →
      check_capabilities specifier_contains rs (λ e, is_enabled e.2 || String.eqb e.1 id) "cannot enable" = Ok tt →
      effect rs (OpEnable id) (dict_set rs id (with_status r ENABLED))
  | eff_disable id r :
      dict_get rs id = Some r → required_dependents rs id true = [] →
      check_capabilities specifier_contains rs (λ e, is_enabled e.2 && negb (String.eqb e.1 id)) "cannot disable" = Ok tt →
      effect rs (OpDisable id) (dict_set rs id (with_status r DISABLED))
  | eff_quarantine id r :
      dict_get rs id = Some r → id ∉ protected_ids →
      effect rs (OpQuarantine id) (dict_set rs id (with_status r DISABLED))
  | eff_uninstall id r :
      dict_get rs id = Some r → id ∉ protected_ids → pr_status r ≠ ENABLED → required_dependents rs id false = [] →
      effect rs (OpUninstall id) (dict_del rs id).

Lemma existsb_false_forall {A} (p : A → bool) l : existsb p l = false → ∀ x, x ∈ l → p x = false.
Proof.
  intros E x Hx. apply not_true_iff_false. intros Hp. apply not_true_iff_false in E. apply E, existsb_exists.
  exists x. by rewrite <-list_elem_of_In.
Qed.

Lemma guard_false (b : bool) msg (u : unit) : (if b then lifecycle msg else Ok tt) = Ok u → b = false.
Proof. by destruct b. Qed.

Lemma require_ok rs id r : require rs id = Ok r → dict_get rs id = Some r.
Proof. unfold require. destruct (dict_get rs id); [by intros [= ->]|done]. Qed.

(** Run the guards of a method up to the write. *)
Ltac guards Hs :=
  rewrite run_bind; unfold records; rewrite Hs;
  repeat (rewrite run_bind_lift; match goal with
    | |- context [match ?r with Ok _ => _ | Err _ => _ end] => destruct r as [?|?] eqn:?; [|by left]
    end);
  repeat match goal with
    | Hr : (if _ then lifecycle _ else Ok tt) = Ok _ |- _ => apply guard_false in Hr
    | Hr : require _ _ = Ok _ |- _ => apply require_ok in Hr
    | u : unit |- _ => destruct u
    end;
  right; eexists; (split; [reflexivity|]).

Lemma call_effect o s rs :
  parse (document s) = Ok rs →
  post (callp o) s = s ∨ ∃ rs', post (callp o) s = Some (canonical rs') ∧ effect rs o rs'.
Proof.
  intros Hs. unfold post. destruct o as [|ms|id|id|id|id]; cbn [call]; rewrite run_bind.
  - unfold persist_legacy_cleanup, gets. rewrite run_bind, run_bind_lift, Hs. destruct (negb _); [by left|].
    right. exists rs. split; [done|constructor].
  - unfold install_many. guards Hs. apply eff_install; [|done]. intros m Hm. split.
    + eapply existsb_false_forall in Hm; [|exact Heqr]. by apply bool_decide_eq_false in Hm.
    + eapply existsb_false_forall in Hm; [|exact Heqr0]. intros Hin. apply dict_mem_true in Hin. congruence.
  - unfold enable. guards Hs. by eapply eff_enable.
  - unfold disable. guards Hs. eapply eff_disable; try done. by destruct (required_dependents _ _ _).
  - unfold quarantine. guards Hs. eapply eff_quarantine; [done|]. by apply bool_decide_eq_false in Heqr0.
  - unfold uninstall. guards Hs. eapply eff_uninstall; [done| | |].
    + by apply bool_decide_eq_false in Heqr0.
    + by apply bool_decide_eq_false in Heqr1.
    + by destruct (required_dependents _ _ _).
Qed.

(** ** The invariants *)

Lemma manifests_value rs m : m ∈ dict_values (manifests_of rs) ↔ ∃ k r, (k, r) ∈ rs ∧ pr_manifest r = m.
Proof.
  unfold dict_values, manifests_of. rewrite <-list_fmap_compose, list_elem_of_fmap. split.
  - intros ([k r] & -> & Hin). by exists k, r.
  - intros (k & r & Hin & <-). by exists (k, r).
Qed.

Lemma required_dependents_nil rs id enabled_only k r d :
  dict_wf rs → required_dependents rs id enabled_only = [] → dict_get rs k = Some r →
  (enabled_only = true → pr_status r = ENABLED) →
  d ∈ m_dependencies (pr_manifest r) → dp_optional d = false → dp_package_id d ≠ id.
Proof.
  unfold required_dependents. intros Hwf Hn%fmap_nil_inv Hr He Hd Ho Hid.
  assert ((k, r) ∈ List.filter (λ e : string * PackageRecord T, (negb enabled_only || is_enabled e.2) && requires_package id e.2) rs) as Hin.
  { apply list_elem_of_In, filter_In. split; [by apply list_elem_of_In, dict_get_Some_in|]. cbn [snd]. apply andb_true_iff. split.
    - destruct enabled_only; [|done]. apply bool_decide_eq_true. by apply He.
    - apply existsb_exists. exists d. split; [by apply list_elem_of_In|]. by rewrite Hid, String.eqb_refl, Ho. }
  rewrite Hn in Hin. by apply not_elem_of_nil in Hin.
Qed.

(** A record replaced by one of the same manifest. *)
Lemma registry_ok_status rs id r st :
  registry_ok rs → dict_get rs id = Some r → registry_ok (dict_set rs id (with_status r st)).
Proof.
  intros (Hwf & Hi & Hm) Hr.
  assert (∀ k, dict_get (manifests_of rs) k = dict_get (manifests_of (dict_set rs id (with_status r st))) k) as Hk.
  { intros k. rewrite !manifests_get, dict_get_set. destruct (decide (id = k)) as [<-|]; [by rewrite Hr|done]. }
  split; [by apply dict_wf_set|]. split; intros k r'; rewrite dict_get_set; (destruct (decide (id = k)) as [<-|]).
  - intros [= <-]. exact (Hi id r Hr).
  - by apply Hi.
  - intros [= <-]. eapply manifest_ok_ext; [exact Hk|]. exact (Hm id r Hr).
  - intros Hr'. eapply manifest_ok_ext; [exact Hk|]. by eapply Hm.
Qed.

Lemma registry_ok_del rs id :
  registry_ok rs → required_dependents rs id false = [] → registry_ok (dict_del rs id).
Proof.
  intros (Hwf & Hi & Hm) Hn. split; [by apply dict_wf_del|]. split; intros k r; rewrite dict_get_del by done;
    (destruct (decide (id = k)) as [<-|]; [done|]); intros Hr; [by apply Hi|].
  destruct (Hm k r Hr) as (Hc & Hk & Hd). split; [done|]. split.
  - intros c other Hin. rewrite manifests_get, dict_get_del by done. destruct (decide _); [done|].
    rewrite <-manifests_get. by apply Hk.
  - intros d Hin. specialize (Hd d Hin). rewrite manifests_get in Hd |- *. rewrite dict_get_del by done.
    destruct (decide (id = dp_package_id d)) as [E|]; [|done]. destruct (dp_optional d) eqn:Eo; [done|].
    by destruct (required_dependents_nil rs id false k r d Hwf Hn Hr ltac:(done) Hin Eo).
Qed.

(** Records added for new packages. *)
Lemma added_get order rs k :
  NoDup (m_id <$> order) →
  dict_get (foldl add_installed rs order) k =
  match dict_get (by_id order) k with Some m => Some (Rec m INSTALLED) | None => dict_get rs k end.
Proof.
  revert rs. induction order as [|m order IH]; intros rs; csimpl; [done|]. intros [Hm Hn]%NoDup_cons.
  rewrite IH by done. unfold add_installed at 1. rewrite dict_get_set.
  destruct (dict_get (by_id order) k) as [m'|] eqn:E; destruct (decide (m_id m = k)) as [<-|]; try done.
  apply by_id_inv in E as [Hin E]. destruct Hm. rewrite E. apply list_elem_of_fmap. by exists m'.
Qed.

Lemma added_wf order rs : dict_wf rs → dict_wf (foldl add_installed rs order).
Proof. revert rs. induction order as [|m order IH]; intros rs Hwf; [done|]. simpl. apply IH. by apply dict_wf_set. Qed.

Lemma registry_ok_added rs ms order :
  registry_ok rs → (∀ m, m ∈ ms → m_id m ∉ dict_keys rs) →
  resolve_install_order specifier_contains ms core_version (manifests_of rs) = Ok order →
  registry_ok (foldl add_installed rs order) ∧ (∀ k r, dict_get rs k = Some r → dict_get (foldl add_installed rs order) k = Some r) ∧
  ∀ k r, dict_get (foldl add_installed rs order) k = Some r → dict_get rs k = Some r ∨ pr_status r = INSTALLED.
Proof.
  intros (Hwf & Hi & Hm) Hnew Hres. destruct (resolve_order specifier_contains _ _ _ _ Hres) as [Hp _].
  apply (resolve_steps specifier_contains) in Hres as (Hn & _ & Hok & _ & _).
  assert (NoDup (m_id <$> order)) as Ho by by rewrite Hp.
  assert (∀ k, dict_get (by_id order) k = dict_get (by_id ms) k) as Hby.
  { intros k. apply dict_get_perm; [unfold dict_wf; by rewrite keys_by_id|]. unfold by_id. by rewrite Hp. }
  assert (∀ k, dict_get (manifests_of (foldl add_installed rs order)) k = dict_get (merged (manifests_of rs) ms) k) as Hget.
  { intros k. rewrite manifests_get, added_get, Hby by done. unfold merged. rewrite merge_get by (unfold dict_wf; by rewrite keys_by_id).
    destruct (dict_get (by_id ms) k); [done|]. by rewrite manifests_get. }
  split; [split; [by apply added_wf|split]|split]; intros k r.
  - rewrite added_get by done. destruct (dict_get (by_id order) k) eqn:E; [|apply Hi].
    intros [= <-]. by apply by_id_inv in E as [_ ->].
  - intros Hr. eapply manifest_ok_ext; [intros k'; symmetry; apply Hget|]. apply Hok.
    pose proof (Hget k) as Hk. rewrite manifests_get, Hr in Hk. symmetry in Hk. apply dict_get_Some_in in Hk.
    apply list_elem_of_fmap. by exists (k, pr_manifest r).
  - intros Hr. rewrite added_get, Hby by done. destruct (dict_get (by_id ms) k) as [m|] eqn:E; [|done].
    apply by_id_inv in E as [Hin ->]. destruct (Hnew m Hin). apply dict_mem_true. unfold dict_mem. by rewrite Hr.
  - rewrite added_get by done. destruct (dict_get (by_id order) k); [intros [= <-]; by right|by left].
Qed.

(** What the capability check of the packages to be enabled says. *)
Lemma check_capabilities_ok rs keep msg k r q :
  dict_wf rs → check_capabilities specifier_contains rs keep msg = Ok tt →
  dict_get rs k = Some r → keep (k, r) = true → q ∈ m_requires (pr_manifest r) →
  rq_optional q = true ∨
  ∃ k' p c, dict_get rs k' = Some p ∧ keep (k', p) = true ∧ c ∈ m_provides (pr_manifest p) ∧
    ca_id c = rq_id q ∧ matches (ca_version c) (rq_version q).
Proof.
  intros Hwf Hc Hr Hk Hq. unfold check_capabilities in Hc.
  destruct (resolve_capabilities specifier_contains (manifests_of (List.filter keep rs))) as [[]|e] eqn:E.
  2:{ unfold result_catch in Hc. destruct (exn_in _ _); done. }
  rewrite (resolve_capabilities_ok specifier_contains) in E.
  assert (∀ x, x ∈ List.filter keep rs ↔ x ∈ rs ∧ keep x = true) as Hf by (intros x; by rewrite !list_elem_of_In, filter_In).
  assert (provided specifier_contains (dict_values (manifests_of (List.filter keep rs))) q) as [?|(m & c & (k' & p & [Hin Hkp]%Hf & <-)%manifests_value & ?)];
    [|by left|].
  - apply satisfied_provided, (E (pr_manifest r)); [|exact Hq]. apply manifests_value. exists k, r. split; [|done]. apply Hf. split; [by apply dict_get_Some_in|done].
  - right. exists k', p, c. split; [by apply dict_get_in|done].
Qed.

Lemma enabled_ok_enable rs id r :
  dict_wf rs → enabled_ok rs → dict_get rs id = Some r →
  each (check_enabled_dependency specifier_contains rs) (m_dependencies (pr_manifest r)) = Ok tt →
  check_capabilities specifier_contains rs (λ e, is_enabled e.2 || String.eqb e.1 id) "cannot enable" = Ok tt →
  enabled_ok (dict_set rs id (with_status r ENABLED)).
Proof.
  intros Hwf He Hr Hd Hc.
  assert (∀ k t, dict_get rs k = Some t → pr_status t = ENABLED ∨ k = id → ∃ t', dict_get (dict_set rs id (with_status r ENABLED)) k = Some t' ∧
    pr_status t' = ENABLED ∧ pr_manifest t' = pr_manifest t) as Hup.
  { intros k t Ht Hs. rewrite dict_get_set. destruct (decide (id = k)) as [<-|]; [|exists t; naive_solver].
    eexists. split; [reflexivity|]. split; [done|]. by rewrite Hr in Ht; injection Ht as <-. }
  assert (∀ k t, dict_get (dict_set rs id (with_status r ENABLED)) k = Some t → pr_status t = ENABLED →
    ∃ t', dict_get rs k = Some t' ∧ pr_manifest t' = pr_manifest t ∧ (pr_status t' = ENABLED ∨ k = id)) as Hdown.
  { intros k t. rewrite dict_get_set. destruct (decide (id = k)) as [<-|]; [|intros; exists t; naive_solver].
    intros [= <-] _. exists r. split; [done|]. split; [done|by right]. }
  intros k t Ht Hs. destruct (Hdown k t Ht Hs) as (t' & Ht' & <- & Hor). split.
  - intros d Hin Ho. assert (∃ x, dict_get rs (dp_package_id d) = Some x ∧ pr_status x = ENABLED) as (x & Hx & Hxs).
    { destruct Hor as [Hen| ->]; [by eapply (proj1 (He k t' Ht' Hen))|]. rewrite Hr in Ht'. injection Ht' as <-.
      rewrite each_ok in Hd. specialize (Hd d Hin). unfold check_enabled_dependency in Hd. rewrite Ho in Hd.
      destruct (dict_get rs (dp_package_id d)) as [x|]; [|done]. exists x. split; [done|].
      destruct (is_enabled x) eqn:Ex; [|done]. by apply bool_decide_eq_true in Ex. }
    destruct (Hup _ _ Hx (or_introl Hxs)) as (x' & ? & ? & _). by exists x'.
  - intros q Hq. eapply (check_capabilities_ok rs _ _ k t' q Hwf Hc Ht') in Hq as [?|(k' & p & c & Hp & Hkeep & Hin & Hv)].
    + by left.
    + destruct (Hup k' p Hp) as (p' & Hp' & Hps & Em).
      { cbn [fst snd] in Hkeep. apply orb_true_iff in Hkeep as [E|E]; [left; by apply bool_decide_eq_true in E|right; by apply String.eqb_eq]. }
      right. exists k', p', c. by rewrite Em.
    + cbn [fst snd]. apply orb_true_iff. destruct Hor as [?| ->]; [left; by apply bool_decide_eq_true|right; apply String.eqb_refl].
Qed.

Lemma enabled_ok_disable rs id r :
  dict_wf rs → enabled_ok rs → required_dependents rs id true = [] →
  check_capabilities specifier_contains rs (λ e, is_enabled e.2 && negb (String.eqb e.1 id)) "cannot disable" = Ok tt →
  enabled_ok (dict_set rs id (with_status r DISABLED)).
Proof.
  intros Hwf He Hn Hc k t. rewrite dict_get_set. destruct (decide (id = k)) as [<-|Hne]; [by intros [= <-]|]. intros Ht Hs. split.
  - intros d Hin Ho. destruct (proj1 (He k t Ht Hs) d Hin Ho) as (x & Hx & Hxs). exists x. split; [|done].
    rewrite dict_get_set_ne; [done|]. intros E. by eapply (required_dependents_nil rs id true k t d).
  - intros q Hq. eapply (check_capabilities_ok rs _ _ k t q Hwf Hc Ht) in Hq as [?|(k' & p & c & Hp & Hkeep & Hv)]; [by left| |].
    + cbn [fst snd] in Hkeep. apply andb_true_iff in Hkeep as [E%bool_decide_eq_true Hk'].
      right. exists k', p, c. rewrite dict_get_set_ne; [done|]. intros <-. by rewrite String.eqb_refl in Hk'.
    + cbn [fst snd]. apply andb_true_iff. split; [by apply bool_decide_eq_true|]. apply negb_true_iff, String.eqb_neq. congruence.
Qed.

Lemma enabled_ok_uninstall rs id r :
  dict_wf rs → enabled_ok rs → dict_get rs id = Some r → pr_status r ≠ ENABLED → required_dependents rs id false = [] →
  enabled_ok (dict_del rs id).
Proof.
  intros Hwf He Hr Hs Hn k t. rewrite dict_get_del by done. destruct (decide (id = k)) as [<-|]; [done|]. intros Ht Hts.
  destruct (He k t Ht Hts) as [Hd Hc].
  assert (∀ k x, dict_get rs k = Some x → pr_status x = ENABLED → dict_get (dict_del rs id) k = Some x) as Hkeep.
  { intros k' x Hx Hxs. rewrite dict_get_del by done. destruct (decide (id = k')) as [<-|]; [|done]. congruence. }
  split.
  - intros d Hin Ho. destruct (Hd d Hin Ho) as (x & Hx & Hxs). exists x. split; [by apply Hkeep|done].
  - intros q Hq. destruct (Hc q Hq) as [?|(k' & p & c & Hp & Hps & ?)]; [by left|]. right. exists k', p, c. by rewrite (Hkeep k' p Hp Hps).
Qed.

Definition is_quarantine (o : op (T := T)) : bool := match o with OpQuarantine _ => true | _ => false end.

Lemma effect_ok o rs rs' :
  registry_ok rs → effect rs o rs' →
  registry_ok rs' ∧ (is_quarantine o = false → enabled_ok rs → enabled_ok rs') ∧
  ∀ id r, id ∈ protected_ids → dict_get rs id = Some r → ∃ r', dict_get rs' id = Some r' ∧ pr_manifest r' = pr_manifest r.
Proof.
  intros Hok He. pose proof Hok as (Hwf & _ & _).
  assert (∀ id r st id' r', dict_get rs id = Some r → dict_get rs id' = Some r' →
    ∃ x, dict_get (dict_set rs id (with_status r st)) id' = Some x ∧ pr_manifest x = pr_manifest r') as Hset.
  { intros id r st id' r' Hr Hr'. rewrite dict_get_set. destruct (decide (id = id')) as [<-|]; [|by exists r'].
    eexists. split; [reflexivity|]. simpl. congruence. }
  destruct He as [|ms order Hms Hres|id r Hr Hd Hc|id r Hr Hn Hc|id r Hr Hp|id r Hr Hp Hs Hn].
  - split_and!; [done..|]. intros id r _ Hr. by exists r.
  - destruct (registry_ok_added rs ms order Hok (λ m Hm, proj2 (Hms m Hm)) Hres) as (Hok' & Hkeep & Hnew). split_and!; [done| |].
    + intros _ Hen k r Hr Hs. destruct (Hnew k r Hr) as [Hr'|?]; [|congruence]. destruct (Hen k r Hr' Hs) as [Hd Hc]. split.
      * intros d Hin Ho. destruct (Hd d Hin Ho) as (x & Hx & ?). exists x. split; [by apply Hkeep|done].
      * intros q Hq. destruct (Hc q Hq) as [?|(k' & p & c & Hp & ?)]; [by left|]. right. exists k', p, c. by rewrite (Hkeep k' p Hp).
    + intros id r _ Hr. exists r. split; [by apply Hkeep|done].
  - split_and!; [by apply registry_ok_status|intros _ ?; by apply enabled_ok_enable|]. intros id' r' _. by apply Hset.
  - split_and!; [by apply registry_ok_status|intros _ ?; by apply enabled_ok_disable|]. intros id' r' _. by apply Hset.
  - split_and!; [by apply registry_ok_status|done|]. intros id' r' _. by apply Hset.
  - split_and!; [by apply registry_ok_del|intros _ ?; by eapply enabled_ok_uninstall|].
    intros id' r' Hid Hr'. exists r'. split; [|done]. rewrite dict_get_del_ne; [done|]. by intros <-.
Qed.

Lemma call_ok o s rs :
  holds s rs → ∃ rs', holds (post (callp o) s) rs' ∧ (is_quarantine o = false → enabled_ok rs → enabled_ok rs') ∧
  ∀ id r, id ∈ protected_ids → dict_get rs id = Some r → ∃ r', dict_get rs' id = Some r' ∧ pr_manifest r' = pr_manifest r.
Proof.
  intros [Hs Hok]. destruct (call_effect o s rs Hs) as [->|(rs' & -> & He)].
  - exists rs. split; [by split|]. split; [done|]. intros id r _ Hr. by exists r.
  - destruct (effect_ok o rs rs' Hok He) as (Hok' & Hen & Hp). exists (dict_sort rs'). split; [by apply holds_written|]. split.
    + intros Hq He'. eapply enabled_ok_ext; [|by apply Hen]. intros k. by rewrite dict_get_sort by apply Hok'.
    + setoid_rewrite dict_get_sort; [exact Hp|apply Hok'].
Qed.

Lemma registry_run_ok ops s rs :
  holds s rs → ∃ rs', holds (runp ops s) rs' ∧ (existsb is_quarantine ops = false → enabled_ok rs → enabled_ok rs') ∧
  ∀ id r, id ∈ protected_ids → dict_get rs id = Some r → ∃ r', dict_get rs' id = Some r' ∧ pr_manifest r' = pr_manifest r.
Proof.
  revert s rs. induction ops as [|o ops IH]; intros s rs Hs.
  { exists rs. split; [done|]. split; [done|]. intros id r _ Hr. by exists r. }
  destruct (call_ok o s rs Hs) as (rs1 & Hs1 & He1 & Hp1). destruct (IH _ rs1 Hs1) as (rs2 & Hs2 & He2 & Hp2).
  exists rs2. split; [exact Hs2|]. split.
  - cbn [existsb]. intros [Hq Hqs]%orb_false_iff He. apply He2; [done|]. by apply He1.
  - intros id r Hid Hr. destruct (Hp1 id r Hid Hr) as (r1 & Hr1 & <-). by eapply Hp2.
Qed.

Lemma holds_empty : holds None [].
Proof. split; [done|]. split; [apply dict_wf_nil|]. by split. Qed.

(** C31: However the package registry is used, the file stays readable and the
    registry in it consistent: every record is filed under its manifest's
    identifier, and between the installed packages the core versions, the
    conflicts and the dependencies hold.  As long as nothing is quarantined,
    the required dependencies of an enabled package are enabled and its
    required capabilities are provided by enabled packages.  A protected
    package that is installed stays installed with its manifest. *)
Theorem registry_consistent (before after : list (@op T)) :
  ∃ rs rs', parse (document (runp before None)) = Ok rs ∧ parse (document (runp (before ++ after) None)) = Ok rs' ∧
  registry_ok rs' ∧
  (existsb is_quarantine (before ++ after) = false → enabled_ok rs') ∧
  ∀ id r, id ∈ protected_ids → dict_get rs id = Some r → ∃ r', dict_get rs' id = Some r' ∧ pr_manifest r' = pr_manifest r.
Proof.
  destruct (registry_run_ok before None [] holds_empty) as (rs & [Hs Hok] & He & _).
  destruct (registry_run_ok after _ rs (conj Hs Hok)) as (rs' & [Hs' Hok'] & He' & Hp).
  exists rs, rs'. unfold run in *. rewrite foldl_app. split_and!; [done..| |done].
  rewrite existsb_app. intros [Hq Hq']%orb_false_iff. apply He'; [done|]. by apply He.
Qed.
End laws.

(** ** A registry of three packages *)

Inductive shelf : Type := Shop | Pay | Store.

#[export] Instance shelf_package : PackageManifest shelf := {|
  m_id p := match p with Shop => "shop" | Pay => "pay" | Store => "store" end;
  m_version _ := "1"; m_core _ := "*"; m_conflicts _ := [];
  m_dependencies p := match p with Shop => [Build_Dependency "store" "1" false] | _ => [] end;
  m_provides p := match p with Pay => [Build_Capability "pay" "1"] | _ => [] end;
  m_requires p := match p with Shop => [Build_Requirement "pay" "*" false] | _ => [] end |}.

Definition demo_dump (r : PackageRecord shelf) : json :=
  JObj [("manifest", JStr (m_id (pr_manifest r)));
        ("status", JStr (match pr_status r with INSTALLED => "installed" | ENABLED => "enabled" | DISABLED => "disabled" end))].

Definition demo_parse (j : json) : result (PackageRecord shelf) :=
  match j with
  | JObj [("manifest"%string, JStr m); ("status"%string, JStr s)] =>
      Ok (Rec (if String.eqb m "shop" then Shop else if String.eqb m "pay" then Pay else Store)
              (if String.eqb s "installed" then INSTALLED else if String.eqb s "enabled" then ENABLED else DISABLED))
  | _ => fail ValueErr "invalid record"
  end.

Definition demo_run (ops : list (@op shelf)) : store :=
  run demo_contains demo_parse demo_dump "1" {[ "store" ]} ops None.

Definition demo_statuses (s : store) : result (list (string * PackageStatus)) :=
  match parse_registry_document demo_parse (document s) with
  | Ok rs => Ok (map (λ e, (e.1, pr_status e.2)) rs)
  | Err e => Err e
  end.

Definition demo_before : list (@op shelf) :=
  [OpInstall [Shop; Pay; Store]; OpEnable "shop"; OpEnable "store"; OpEnable "shop"; OpEnable "pay"; OpEnable "shop"].
Definition demo_after : list (@op shelf) := [OpDisable "store"; OpDisable "pay"; OpDisable "shop"; OpDisable "store"; OpUninstall "store"].

Example demo_enabled :
  demo_statuses (demo_run demo_before) = Ok [("pay", ENABLED); ("shop", ENABLED); ("store", ENABLED)].
Proof. by vm_compute. Qed.

Example demo_disabled :
  demo_statuses (demo_run (demo_before ++ demo_after)) = Ok [("pay", ENABLED); ("shop", DISABLED); ("store", DISABLED)].
Proof. by vm_compute. Qed.

(** Removing a disabled provider leaves an installed package without its
    required capability; until a provider is back nothing can be installed. *)
Example uninstall_ignores_capabilities :
  (install_many demo_contains demo_parse demo_dump "1" [] (demo_run [OpInstall [Shop; Pay; Store]; OpUninstall "pay"])).1 =
    fail DependencyResolutionError "requires missing capability".
Proof. by vm_compute. Qed.

Lemma registry_consistent_witness :
  ∃ rs rs', demo_statuses (demo_run demo_before) = Ok [("pay", ENABLED); ("shop", ENABLED); ("store", ENABLED)] ∧
  parse_registry_document demo_parse (document (demo_run (demo_before ++ demo_after))) = Ok rs' ∧ enabled_ok demo_contains rs' ∧
  parse_registry_document demo_parse (document (demo_run demo_before)) = Ok rs ∧
  ∀ r, dict_get rs "store" = Some r → ∃ r', dict_get rs' "store" = Some r' ∧ pr_manifest r' = pr_manifest r.
Proof.
  destruct (registry_consistent demo_contains demo_parse demo_dump "1" {[ "store" ]}
    ltac:(intros [[] []]; reflexivity) ltac:(intros r; reflexivity)
    demo_before demo_after) as (rs & rs' & H1 & H2 & _ & H4 & H5).
  exists rs, rs'. split; [vm_compute; reflexivity|]. split; [exact H2|]. split; [apply H4; reflexivity|]. split; [exact H1|].
  intros r. apply H5. set_solver.
Defined.
End Packages.
