(* ===== verification/Contracts.v ===== *)
(** * Versioned contracts between extensions (extension_runtime.py)

    The names and versions of contracts, which the registries of services,
    events and render slots share.  The packaging library is the class
    [Versioning]: versions up to equality, their order and text, and version
    ranges.  [SEMVER] is
    matched over ASCII digits; a version written with other decimal digits is
    refused by [Version], with the same class. *)

From Stdlib Require Import Ascii ZArith Lia.
From stdpp Require Import base decidable numbers list strings sets.
From S2P Require Import Prelude PyData Regex.

Module Contracts.

(** [Version(s)], [v.is_prerelease or v.is_devrelease or v.local is not None],
    [str(v)], [SpecifierSet(s)] and [v in s]. *)
Class Versioning (V Sp : Type) := {
  version_eq_dec :: EqDecision V;
  version_ord :: PyOrd V;
  parse_version : string → result V;
  version_unstable : V → bool;
  version_str : V → string;
  parse_specifier : string → result Sp;
  contained : V → Sp → bool;
}.

Definition OWNER : re :=
  Seq (Chr is_lower) (Seq (Star (Chr (λ c, is_lower c || is_digit c)))
    (Star (Seq (Chr (one_of "-")) (Plus (Chr (λ c, is_lower c || is_digit c)))))).
Definition CONTRACT : re :=
  Seq (Chr is_lower) (Seq (Star (Chr (λ c, is_lower c || is_digit c || one_of "-" c)))
    (Plus (Seq (Chr (one_of ".")) (Seq (Chr is_lower) (Star (Chr (λ c, is_alnum c || one_of "_-" c))))))).
Definition SEMVER : re :=
  Seq (Plus (Chr is_digit)) (Seq (Chr (one_of ".")) (Seq (Plus (Chr is_digit))
    (Seq (Chr (one_of ".")) (Plus (Chr is_digit))))).
Definition MAX_VERSION_RANGE_BYTES : nat := 512.

Definition validate_owner (value : string) : result string :=
  if fullmatch OWNER value then Ok value else fail ValueErr "invalid extension owner id".

Definition validate_contract_name (value : string) : result string :=
  if (192 <? str_len value)%nat || negb (fullmatch CONTRACT value)
  then fail ValueErr "invalid versioned contract name" else Ok value.

Definition validate_owned_contract (owner contract : string) : result (string * string) :=
  owner ← validate_owner owner;
  contract ← validate_contract_name contract;
  if String.eqb owner "core" || startswith contract "core."
  then fail ContractOwnershipError "core.* contracts are reserved for Platform Core"
  else if negb (startswith contract (owner +:+ "."))
  then fail ContractOwnershipError "contract name must use its package-owned namespace"
  else Ok (owner, contract).

Section versions.
Context {V Sp : Type} `{Versioning V Sp}.

Definition version (value : string) : result V :=
  if negb (fullmatch SEMVER value) then fail ValueErr "contract version must be semantic major.minor.patch"
  else
    parsed ← result_catch (parse_version value) (λ e,
      if exn_in e [InvalidVersion; TypeErr] then Some (fail ValueErr "invalid contract version") else None);
    if version_unstable parsed then fail ValueErr "contract versions must be stable public releases"
    else Ok parsed.

Definition specifier (value : string) : result Sp :=
  if (MAX_VERSION_RANGE_BYTES <? utf8_len value)%nat
  then fail ValueErr "contract version range exceeds the size limit"
  else result_catch (parse_specifier (if String.eqb value "*" then "" else value)) (λ e,
         if exn_in e [InvalidSpecifier; TypeErr] then Some (fail ValueErr "invalid contract version range")
         else None).

(** A list filtered by a test that may raise. *)
Fixpoint filter_result {A} (f : A → result bool) (l : list A) : result (list A) :=
  match l with
  | [] => Ok []
  | x :: l => b ← f x; rest ← filter_result f l; Ok (if (b : bool) then x :: rest else rest)
  end.

(** [max(l, key=key)] of a nonempty list: the first greatest element. *)
Definition max_by {A} (key : A → V) (x : A) (l : list A) : A :=
  foldl (λ best y, if ord_leb (key y) (key best) then best else y) x l.
End versions.

Definition owner_and_rest (owner contract : string) : Prop := ∃ rest, contract = owner +:+ "." +:+ rest.
End Contracts.

(** ** Names *)

Module ContractNames.
Import Contracts.

Lemma owner_no_dot o : fullmatch OWNER o = true → "."%char ∉ chars o.
Proof.
  intros Ho Hin. pose proof (fullmatch_all (λ c, is_lower c || is_digit c || one_of "-" c) OWNER o) as Hall.
  assert (is_lower "." || is_digit "." || one_of "-" "." = true) as Hd by (apply Hall; [by vm_compute|done|done]).
  by vm_compute in Hd.
Qed.

(** A contract name determines the owner whose namespace it is in. *)
Lemma owner_unique o1 o2 r1 r2 :
  fullmatch OWNER o1 = true → fullmatch OWNER o2 = true → o1 +:+ "." +:+ r1 = o2 +:+ "." +:+ r2 → o1 = o2.
Proof.
  intros H1%owner_no_dot H2%owner_no_dot E. apply (f_equal chars) in E. rewrite !chars_app in E. cbn in E.
  apply chars_inj. revert E H1 H2. generalize (chars r1), (chars r2). generalize (chars o2). induction (chars o1) as [|c l IH]; intros [|d k] t1 t2; simpl.
  - done.
  - intros [= <- _] _ Hd. set_solver.
  - intros [= -> _] Hd _. set_solver.
  - intros [= -> E] Hc Hd. f_equal. eapply IH; [exact E|set_solver|set_solver].
Qed.

Lemma validate_owner_ok v o : validate_owner v = Ok o ↔ o = v ∧ fullmatch OWNER v = true.
Proof. unfold validate_owner. destruct (fullmatch OWNER v); [|by split; [|intros []]]. split; [by intros [= ->]|by intros [-> _]]. Qed.

Lemma validate_contract_ok v c : validate_contract_name v = Ok c → c = v.
Proof. unfold validate_contract_name. destruct (_ || _); [done|]. by intros [= ->]. Qed.

(** What registration asks of a name. *)
Definition in_namespace (owner contract : string) : Prop :=
  fullmatch OWNER owner = true ∧ owner ≠ "core" ∧ ∃ rest, contract = owner +:+ "." +:+ rest.

Lemma in_namespace_unique o1 o2 c : in_namespace o1 c → in_namespace o2 c → o1 = o2.
Proof. intros (H1 & _ & r1 & ->) (H2 & _ & r2 & E). by eapply owner_unique. Qed.

Lemma validate_owned_ok o c oc : validate_owned_contract o c = Ok oc → oc = (o, c) ∧ in_namespace o c.
Proof.
  unfold validate_owned_contract. intros (o' & [-> Ho]%validate_owner_ok & H)%bind_result_ok.
  apply bind_result_ok in H as (c' & ->%validate_contract_ok & H).
  destruct (String.eqb o "core") eqn:E1; [done|]. destruct (startswith c "core."); [done|].
  destruct (startswith c (o +:+ ".")) eqn:E2; [|done]. injection H as <-. split; [done|]. split; [done|].
  split; [by apply String.eqb_neq|]. apply startswith_iff in E2 as [t ->]. exists t. by rewrite str_app_assoc.
Qed.

(** Dictionaries filtered and updated in place. *)
Lemma dict_filter_wf {K W} (p : K * W → bool) (d : dict K W) : dict_wf d → dict_wf (List.filter p d).
Proof.
  unfold dict_wf, dict_keys. induction d as [|e d IH]; simpl; [done|]. intros [Hn Hd]%NoDup_cons.
  destruct (p e); simpl; [|by apply IH]. apply NoDup_cons. split; [|by apply IH].
  intros (x & E & [Hx _]%list_elem_of_In%filter_In)%list_elem_of_fmap. apply Hn, list_elem_of_fmap. exists x.
  split; [done|]. by apply list_elem_of_In.
Qed.

Lemma filter_in {A} (p : A → bool) l x : x ∈ List.filter p l ↔ x ∈ l ∧ p x = true.
Proof. by rewrite !list_elem_of_In, filter_In. Qed.

Lemma keys_fmap_same {K W} (f : K * W → K * W) (d : dict K W) : (∀ e, (f e).1 = e.1) → dict_keys (f <$> d) = dict_keys d.
Proof. intros Hf. unfold dict_keys. rewrite <-list_fmap_compose. apply list_fmap_ext. intros _ e _. apply Hf. Qed.

Lemma dict_get_fmap_same {K W} `{EqDecision K} (f : K * W → K * W) (d : dict K W) k :
  (∀ e, (f e).1 = e.1) → dict_get (f <$> d) k = (λ w, (f (k, w)).2) <$> dict_get d k.
Proof.
  intros Hf. induction d as [|[k' w] d IH]; csimpl; [done|]. pose proof (Hf (k', w)) as E. destruct (f (k', w)) as [k'' w'] eqn:Ef.
  simpl in E. subst k''. destruct (decide (k' = k)) as [<-|]; [simpl; by rewrite Ef|done].
Qed.

Section max.
Context {V Sp A : Type} `{Versioning V Sp} (key : A → V).

Lemma max_by_spec x l :
  max_by key x l ∈ x :: l ∧ ∀ y, y ∈ x :: l → ord_leb (key y) (key (max_by key x l)) = true.
Proof.
  unfold max_by. revert x. induction l as [|y l IH]; intros x; simpl.
  - split; [by left|]. intros z ->%list_elem_of_singleton. apply ord_refl.
  - set (b := if ord_leb (key y) (key x) then x else y). destruct (IH b) as [Hin Hle].
    assert (ord_leb (key x) (key b) = true ∧ ord_leb (key y) (key b) = true ∧ b ∈ [x; y]) as (Hx & Hy & Hb).
    { unfold b. destruct (ord_leb (key y) (key x)) eqn:E.
      - split_and!; [apply ord_refl|done|by left].
      - split_and!; [|apply ord_refl|by right; left]. destruct (ord_total (key x) (key y)); congruence. }
    assert (ord_leb (key b) (key (foldl (λ best z, if ord_leb (key z) (key best) then best else z) b l)) = true) as Hbm by by apply Hle; left.
    split.
    + apply elem_of_cons in Hin as [Hin|Hin]; [rewrite Hin; set_solver|by right; right].
    + intros z [->|[->|Hz]%elem_of_cons]%elem_of_cons; [by eapply ord_trans|by eapply ord_trans|apply Hle; by right].
Qed.
End max.

(** A concrete packaging: versions are triples of digits, ranges are the lowest
    version they contain. *)
#[export] Instance demo_versioning : Versioning (Z * (Z * Z)) Z := {|
  version_eq_dec := _; version_ord := _;
  parse_version s :=
    match String.list_ascii_of_string s with
    | [a; _; b; _; c] => let d x := (Z.of_N (Ascii.N_of_ascii x) - 48)%Z in Ok (d a, (d b, d c))
    | _ => fail InvalidVersion "invalid version"
    end;
  version_unstable _ := false;
  version_str v := "1.0.0";
  parse_specifier s :=
    match String.list_ascii_of_string s with
    | [] => Ok 0%Z
    | [_; _; a] => Ok (Z.of_N (Ascii.N_of_ascii a) - 48)%Z
    | _ => fail InvalidSpecifier "invalid range"
    end;
  contained v r := (r <=? v.1)%Z |}.
End ContractNames.
