(* ===== verification/Services.v ===== *)
(** * Services (extension_runtime.py: [ServiceRegistry])

    Providers of versioned contracts.  A method runs under the registry's lock
    and is one step. *)

From Stdlib Require Import ZArith Lia.
From stdpp Require Import base decidable numbers list strings sets.
From S2P Require Import Prelude PyData Regex Contracts.

Module Services.
Import Contracts.

Record ServiceRegistration (P : Type) : Type := Service {
  sr_owner : string; sr_contract : string; sr_version : string; sr_provider : P; sr_active : bool;
}.
Arguments Service {P} _ _ _ _ _.
Arguments sr_owner {P} _.
Arguments sr_contract {P} _.
Arguments sr_version {P} _.
Arguments sr_provider {P} _.
Arguments sr_active {P} _.

Section services.
Context {V Sp P : Type} `{Versioning V Sp}.

(** [_registrations]; a provider is [None] or an object. *)
Definition services : Type := dict (string * V) (ServiceRegistration P).

Definition register (owner contract version : string) (provider : option P) : M services (ServiceRegistration P) :=
  oc ← lift (validate_owned_contract owner contract);
  parsed_version ← lift (Contracts.version version);
  provider ← lift (match provider with Some p => Ok p | None => fail ValueErr "service provider cannot be None" end);
  s ← get_st;
  if dict_mem s (oc.2, parsed_version)
  then raise ExtensionContractError "service contract version is already registered"
  else
    let registration := Service oc.1 oc.2 (version_str parsed_version) provider true in
    _ ← put_st (dict_set s (oc.2, parsed_version) registration);
    mret registration.

Definition candidate (contract : string) (range : Sp) (e : (string * V) * ServiceRegistration P) : bool :=
  String.eqb e.1.1 contract && sr_active e.2 && contained e.1.2 range.

Definition resolve (contract version : string) : M services P :=
  _ ← lift (validate_contract_name contract);
  range ← lift (specifier version);
  s ← get_st;
  match List.filter (candidate contract range) s with
  | [] => raise ContractCompatibilityError "no compatible active service provider"
  | e :: rest => mret (sr_provider (max_by (λ e, e.1.2) e rest).2)
  end.

Definition unregister (owner contract version : string) : M services unit :=
  _ ← lift (validate_owner owner);
  contract ← lift (validate_contract_name contract);
  parsed ← lift (Contracts.version version);
  s ← get_st;
  match dict_get s (contract, parsed) with
  | None => raise ExtensionContractError "service contract version is not registered"
  | Some registration =>
      if negb (String.eqb (sr_owner registration) owner)
      then raise ContractOwnershipError "only the service owner may unregister it"
      else put_st (dict_del s (contract, parsed))
  end.

Definition owned (owner : string) (e : (string * V) * ServiceRegistration P) : bool := String.eqb (sr_owner e.2) owner.

Definition drop_owner (owner : string) : M services Z :=
  _ ← lift (validate_owner owner);
  s ← get_st;
  _ ← put_st (List.filter (λ e, negb (owned owner e)) s);
  mret (Z.of_nat (length (List.filter (owned owner) s))).

Definition set_active (active : bool) (r : ServiceRegistration P) : ServiceRegistration P :=
  Service (sr_owner r) (sr_contract r) (sr_version r) (sr_provider r) active.

Definition to_change (owner : string) (active : bool) (e : (string * V) * ServiceRegistration P) : bool :=
  owned owner e && negb (Bool.eqb (sr_active e.2) active).

Definition set_owner_active (owner : string) (active : bool) : M services Z :=
  _ ← lift (validate_owner owner);
  s ← get_st;
  _ ← put_st ((λ e, if to_change owner active e then (e.1, set_active active e.2) else e) <$> s);
  mret (Z.of_nat (length (List.filter (to_change owner active) s))).

Definition deactivate_owner (owner : string) : M services Z := set_owner_active owner false.
Definition activate_owner (owner : string) : M services Z := set_owner_active owner true.
End services.
End Services.

(** ** Services: one owner per contract, the highest version first *)

Module ServiceLaws.
Import Contracts ContractNames Services.

Section laws.
Context {V Sp P : Type} `{Versioning V Sp}.
Implicit Types (s : dict (string * V) (ServiceRegistration P)) (r : ServiceRegistration P).

Inductive op : Type :=
  | OpRegister (owner contract version : string) (provider : option P)
  | OpUnregister (owner contract version : string)
  | OpDrop (owner : string)
  | OpActive (owner : string) (active : bool).

Definition call (o : op) : M (dict (string * V) (ServiceRegistration P)) unit :=
  match o with
  | OpRegister ow c v p => _ ← register (Sp := Sp) ow c v p; mret tt
  | OpUnregister ow c v => unregister (Sp := Sp) ow c v
  | OpDrop ow => _ ← drop_owner ow; mret tt
  | OpActive ow b => _ ← set_owner_active ow b; mret tt
  end.

Definition run (ops : list op) s : dict (string * V) (ServiceRegistration P) := foldl (λ s o, post (call o) s) s ops.

(** A registration is filed under its contract, in its owner's namespace. *)
Definition services_ok s : Prop :=
  dict_wf s ∧ ∀ k r, dict_get s k = Some r → in_namespace (sr_owner r) k.1.

Lemma services_call_ok o : preserves services_ok (call o).
Proof.
  destruct o as [ow c v p|ow c v|ow|ow b]; cbn [call].
  - apply preserves_bind; [|intros; apply preserves_ret]. unfold register.
    apply preserves_bind_lift. intros oc [-> Hns]%validate_owned_ok. cbn [fst snd].
    apply preserves_bind_lift. intros v' _. apply preserves_bind_lift. intros p' _. intros s [Hwf Hs].
    unfold post. rewrite run_bind_get. destruct (dict_mem s (c, v')); [by split|]. cbv zeta. rewrite run_bind_put, run_ret. cbn [snd].
    split; [by apply dict_wf_set|]. intros k r. rewrite dict_get_set. destruct (decide ((c, v') = k)) as [<-|]; [by intros [= <-]|apply Hs].
  - unfold unregister. apply preserves_bind_lift. intros ow' _. apply preserves_bind_lift. intros c' _.
    apply preserves_bind_lift. intros v' _. intros s [Hwf Hs]. unfold post. rewrite run_bind_get.
    destruct (dict_get s (c', v')) as [r|]; [|by split]. destruct (negb _); [by split|]. unfold put_st. cbn [snd].
    split; [by apply dict_wf_del|]. intros k r'. rewrite dict_get_del by done. destruct (decide _); [done|apply Hs].
  - apply preserves_bind; [|intros; apply preserves_ret]. unfold drop_owner. apply preserves_bind_lift. intros _ _ s [Hwf Hs].
    unfold post. rewrite run_bind_get, run_bind_put, run_ret. cbn [snd]. split; [by apply dict_filter_wf|].
    intros k r [Hin _]%dict_get_Some_in%filter_in. by apply Hs, dict_get_in.
  - apply preserves_bind; [|intros; apply preserves_ret]. unfold set_owner_active. apply preserves_bind_lift. intros _ _ s [Hwf Hs].
    unfold post. rewrite run_bind_get, run_bind_put, run_ret. cbn [snd]. split.
    + unfold dict_wf. rewrite keys_fmap_same; [done|]. intros e. by destruct (to_change ow b e).
    + intros k r (e & E & Hin)%dict_get_Some_in%list_elem_of_fmap.
      assert (in_namespace (sr_owner e.2) e.1.1) as He by (destruct e; by apply Hs, dict_get_in).
      destruct (to_change ow b e); [injection E as -> ->; exact He|by subst e].
Qed.

Lemma run_services_ok ops s : services_ok s → services_ok (run ops s).
Proof. revert s. induction ops as [|o ops IH]; intros s Hs; [done|]. apply IH. by apply services_call_ok. Qed.

Lemma services_empty : services_ok [].
Proof. split; [apply dict_wf_nil|done]. Qed.

(** Whatever packages register, withdraw or deactivate, a contract name
    belongs to one owner, the package in whose namespace it lies and never the
    kernel; and resolving a contract returns the provider of the highest
    active version in the requested range, or raises exactly when no active
    version is in it. *)
Theorem resolve_highest (ops : list op) (contract range : string) (spec : Sp) :
  let s := run ops [] in
  validate_contract_name contract = Ok contract → specifier range = Ok spec →
  (∀ k1 r1 k2 r2, dict_get s k1 = Some r1 → dict_get s k2 = Some r2 → k1.1 = k2.1 →
     sr_owner r1 = sr_owner r2 ∧ sr_owner r1 ≠ "core") ∧
  match resolve contract range s with
  | (Ok p, s') =>
      s' = s ∧ ∃ v r, dict_get s (contract, v) = Some r ∧ sr_active r = true ∧ contained v spec = true ∧ sr_provider r = p ∧
      ∀ w r', dict_get s (contract, w) = Some r' → sr_active r' = true → contained w spec = true → ord_leb w v = true
  | (Err e, s') =>
      s' = s ∧ exn_cls e = ContractCompatibilityError ∧
      ∀ w r', dict_get s (contract, w) = Some r' → sr_active r' = true → contained w spec = false
  end.
Proof.
  intros s Hc Hr. destruct (run_services_ok ops [] services_empty) as [Hwf Hs]. fold s in Hwf, Hs. split.
  { intros k1 r1 k2 r2 H1%Hs H2%Hs Ek. rewrite Ek in H1. pose proof (in_namespace_unique _ _ _ H1 H2). by destruct H1 as (_ & ? & _). }
  unfold resolve. rewrite Hc, Hr, !run_bind_lift, run_bind_get.
  assert (∀ w r, dict_get s (contract, w) = Some r → sr_active r = true → contained w spec = true →
    ((contract, w), r) ∈ List.filter (candidate contract spec) s) as Hin.
  { intros w r Hw Ha Hcon. apply filter_in. split; [by apply dict_get_Some_in|]. unfold candidate. simpl.
    by rewrite String.eqb_refl, Ha, Hcon. }
  destruct (List.filter (candidate contract spec) s) as [|e rest] eqn:E.
  - split; [done|]. split; [done|]. intros w r Hw Ha. apply not_true_iff_false. intros Hcon.
    by apply (Hin w r Hw Ha), not_elem_of_nil in Hcon.
  - split; [done|]. destruct (max_by_spec (λ e : (string * V) * ServiceRegistration P, e.1.2) e rest) as [Hmax Hle].
    set (m := max_by _ e rest) in *. assert (m ∈ s ∧ candidate contract spec m = true) as [Hms Hcand] by (rewrite <-E in Hmax; by apply filter_in in Hmax).
    unfold candidate in Hcand. apply andb_true_iff in Hcand as [Hcand Hcon]. apply andb_true_iff in Hcand as [Hname Hact].
    apply String.eqb_eq in Hname. destruct m as [[c v] r]. simpl in *. subst c. exists v, r.
    split_and!; try done; [by apply dict_get_in|]. intros w r' Hw Ha Hcw. exact (Hle _ (Hin w r' Hw Ha Hcw)).
Qed.
End laws.

Definition demo_ops : list (@op nat) :=
  [OpRegister "shop" "shop.pay" "1.0.0" (Some 1); OpRegister "shop" "shop.pay" "3.0.0" (Some 3);
   OpRegister "evil" "shop.pay" "9.0.0" (Some 9); OpRegister "shop" "shop.pay" "2.1.0" (Some 2);
   OpUnregister "evil" "shop.pay" "1.0.0"; OpUnregister "shop" "shop.pay" "3.0.0"].

Definition demo_services : dict (string * (Z * (Z * Z))) (ServiceRegistration nat) := run (Sp := Z) demo_ops [].
Definition demo_resolve (range : string) : result nat := (resolve (Sp := Z) "shop.pay" range demo_services).1.

Lemma resolve_highest_witness :
  validate_contract_name "shop.pay" = Ok "shop.pay" ∧ specifier (V := Z * (Z * Z)) (Sp := Z) ">=1" = Ok 1%Z ∧
  demo_resolve ">=1" = Ok 2 ∧ ∃ v r, dict_get demo_services ("shop.pay", v) = Some r ∧ sr_provider r = 2.
Proof.
  pose proof (resolve_highest (V := Z * (Z * Z)) (Sp := Z) demo_ops "shop.pay" ">=1" 1%Z eq_refl eq_refl) as [_ Hres].
  fold demo_services in Hres.
  assert (resolve (Sp := Z) "shop.pay" ">=1" demo_services = (Ok 2, demo_services)) as E by (vm_compute; reflexivity).
  rewrite E in Hres. destruct Hres as (_ & v & r & Hv & _ & _ & Hp & _).
  split; [reflexivity|]. split; [reflexivity|]. split; [unfold demo_resolve; by rewrite E|]. exists v, r. split; [exact Hv|exact Hp].
Defined.
End ServiceLaws.
