(* ===== verification/RenderSlots.v ===== *)
(** * Render slots (extension_runtime.py: [RenderSlotRegistry])

    Versioned render hooks and the templates bound to them.  A method runs
    under the registry's lock and is one step. *)

From Stdlib Require Import Ascii ZArith Lia Sorting.Sorted.
From stdpp Require Import base decidable numbers list strings sets.
From S2P Require Import Prelude PyData Regex Contracts.

Module RenderSlots.
Import Contracts.

Record RenderSlotDeclaration : Type := SlotDeclaration {
  rd_owner : string; rd_contract : string; rd_version : string; rd_active : bool;
}.

Record RenderBinding : Type := Binding {
  rb_contributor : string; rb_slot : string; rb_version : string; rb_template : string;
  rb_position : Z; rb_active : bool;
}.

(** [PurePosixPath(value).parts], the root aside. *)
Definition posix_parts (value : string) : list string :=
  List.filter (λ p, negb (String.eqb p "") && negb (String.eqb p ".")) (str_split "/" value).

(** [as_posix()] of a relative path. *)
Definition as_posix (value : string) : string :=
  match posix_parts value with [] => "." | parts => str_join "/" parts end.

Definition safe_template (value : string) : result string :=
  if String.eqb value "" || contains_char "\" value || contains_char "000" value
  then fail ValueErr "invalid render template path"
  else if startswith value "/" || existsb (λ p, bool_decide (p ∈ [""; "."; ".."])) (posix_parts value)
  then fail ValueErr "invalid render template path"
  else Ok (as_posix value).

Section render_slots.
Context {V Sp : Type} `{Versioning V Sp}.

Record registry : Type := Registry {
  rs_slots : dict (string * V) RenderSlotDeclaration;
  rs_bindings : list RenderBinding;
}.

Definition declare (owner slot version : string) : M registry RenderSlotDeclaration :=
  os ← lift (validate_owned_contract owner slot);
  parsed ← lift (Contracts.version version);
  s ← get_st;
  if dict_mem (rs_slots s) (os.2, parsed)
  then raise ExtensionContractError "render slot version is already declared"
  else
    let declaration := SlotDeclaration os.1 os.2 (version_str parsed) true in
    _ ← put_st (Registry (dict_set (rs_slots s) (os.2, parsed) declaration) (rs_bindings s));
    mret declaration.

(** An active declaration of [slot] in the range. *)
Definition compatible (slot : string) (range : Sp) (e : (string * V) * RenderSlotDeclaration) : bool :=
  String.eqb e.1.1 slot && contained e.1.2 range && rd_active e.2.

Definition same_binding (contributor slot version template : string) (b : RenderBinding) : bool :=
  String.eqb (rb_contributor b) contributor && String.eqb (rb_slot b) slot &&
  String.eqb (rb_version b) version && String.eqb (rb_template b) template.

Definition bind (contributor slot version template : string) (position : Z) : M registry RenderBinding :=
  contributor ← lift (validate_owner contributor);
  slot ← lift (validate_contract_name slot);
  range ← lift (specifier version);
  template ← lift (safe_template template);
  _ ← raise_if (negb ((-10000 <=? position)%Z && (position <=? 10000)%Z)) ValueErr
        "render position is outside the supported range";
  s ← get_st;
  _ ← raise_if (negb (existsb (compatible slot range) (rs_slots s))) ContractCompatibilityError
        "render binding has no compatible slot";
  _ ← raise_if (existsb (same_binding contributor slot version template) (rs_bindings s)) ExtensionContractError
        "render binding is already registered";
  let binding := Binding contributor slot version template position true in
  _ ← put_st (Registry (rs_slots s) (rs_bindings s ++ [binding]));
  mret binding.

(** [item.slot == slot and parsed in _specifier(item.version)]; the range is
    read for the bindings that pass the tests before it. *)
Definition binds (only_active : bool) (slot : string) (parsed : V) (b : RenderBinding) : result bool :=
  if negb only_active || rb_active b then
    if String.eqb (rb_slot b) slot then range ← specifier (rb_version b); Ok (contained parsed range)
    else Ok false
  else Ok false.

Definition binding_key (b : RenderBinding) : Z * (string * string) :=
  (rb_position b, (rb_contributor b, rb_template b)).

Definition bindings (slot version : string) : M registry (list RenderBinding) :=
  slot ← lift (validate_contract_name slot);
  parsed ← lift (Contracts.version version);
  s ← get_st;
  match dict_get (rs_slots s) (slot, parsed) with
  | Some declaration =>
      if rd_active declaration then
        found ← lift (filter_result (binds true slot parsed) (rs_bindings s));
        mret (sort_by binding_key found)
      else raise ContractCompatibilityError "render slot version is not active"
  | None => raise ContractCompatibilityError "render slot version is not active"
  end.

(** [any(...)] over the bindings, stopping at the first hit. *)
Fixpoint any_bound (slot : string) (parsed : V) (l : list RenderBinding) : result bool :=
  match l with
  | [] => Ok false
  | b :: l => hit ← binds false slot parsed b; if (hit : bool) then Ok true else any_bound slot parsed l
  end.

Definition remove_slot (owner slot version : string) : M registry unit :=
  owner ← lift (validate_owner owner);
  slot ← lift (validate_contract_name slot);
  parsed ← lift (Contracts.version version);
  s ← get_st;
  match dict_get (rs_slots s) (slot, parsed) with
  | None => raise ExtensionContractError "render slot version is not declared"
  | Some declaration =>
      _ ← raise_if (negb (String.eqb (rd_owner declaration) owner)) ContractOwnershipError
            "only the render slot owner may remove it";
      hit ← lift (any_bound slot parsed (rs_bindings s));
      _ ← raise_if hit ExtensionContractError "render slot still has registered bindings";
      put_st (Registry (dict_del (rs_slots s) (slot, parsed)) (rs_bindings s))
  end.

(** [del bindings[index]] of the first match; [None] without one. *)
Fixpoint delete_first {A} (p : A → bool) (l : list A) : option (list A) :=
  match l with
  | [] => None
  | x :: l => if p x then Some l else match delete_first p l with Some l' => Some (x :: l') | None => None end
  end.

Definition unbind (contributor slot version template : string) : M registry unit :=
  contributor ← lift (validate_owner contributor);
  slot ← lift (validate_contract_name slot);
  _ ← lift (specifier (Sp := Sp) version);
  template ← lift (safe_template template);
  s ← get_st;
  match delete_first (same_binding contributor slot version template) (rs_bindings s) with
  | Some kept => put_st (Registry (rs_slots s) kept)
  | None => raise ContractOwnershipError "render binding is not owned by the contributor"
  end.

Definition slot_owned (owner : string) (e : (string * V) * RenderSlotDeclaration) : bool := String.eqb (rd_owner e.2) owner.

Definition drop_owner (owner : string) : M registry Z :=
  owner ← lift (validate_owner owner);
  s ← get_st;
  let dropped := List.filter (slot_owned owner) (rs_slots s) in
  let dropped_slots := (λ e, e.1.1) <$> dropped in
  let goes b := String.eqb (rb_contributor b) owner || bool_decide (rb_slot b ∈ dropped_slots) in
  _ ← put_st (Registry (List.filter (λ e, negb (slot_owned owner e)) (rs_slots s))
                (List.filter (λ b, negb (goes b)) (rs_bindings s)));
  mret (Z.of_nat (length dropped + length (List.filter goes (rs_bindings s)))).

Definition slot_to_change (owner : string) (active : bool) (e : (string * V) * RenderSlotDeclaration) : bool :=
  slot_owned owner e && negb (Bool.eqb (rd_active e.2) active).
Definition binding_to_change (owner : string) (active : bool) (b : RenderBinding) : bool :=
  String.eqb (rb_contributor b) owner && negb (Bool.eqb (rb_active b) active).
Definition slot_set_active (active : bool) (d : RenderSlotDeclaration) : RenderSlotDeclaration :=
  SlotDeclaration (rd_owner d) (rd_contract d) (rd_version d) active.
Definition binding_set_active (active : bool) (b : RenderBinding) : RenderBinding :=
  Binding (rb_contributor b) (rb_slot b) (rb_version b) (rb_template b) (rb_position b) active.

Definition set_owner_active (owner : string) (active : bool) : M registry Z :=
  owner ← lift (validate_owner owner);
  s ← get_st;
  _ ← put_st (Registry
        ((λ e, if slot_to_change owner active e then (e.1, slot_set_active active e.2) else e) <$> rs_slots s)
        ((λ b, if binding_to_change owner active b then binding_set_active active b else b) <$> rs_bindings s));
  mret (Z.of_nat (length (List.filter (slot_to_change owner active) (rs_slots s)) +
                  length (List.filter (binding_to_change owner active) (rs_bindings s)))).

Definition deactivate_owner (owner : string) : M registry Z := set_owner_active owner false.
Definition activate_owner (owner : string) : M registry Z := set_owner_active owner true.
End render_slots.
End RenderSlots.

(** ** Render slots: no binding outlives its slot *)

Module SlotLaws.
Import Contracts ContractNames RenderSlots.

Section laws.
Context {V Sp : Type} `{Versioning V Sp}.
Implicit Types (s : registry (V := V)) (b : RenderBinding).

Inductive op : Type :=
  | OpDeclare (owner slot version : string)
  | OpBind (contributor slot version template : string) (position : Z)
  | OpRemove (owner slot version : string)
  | OpUnbind (contributor slot version template : string)
  | OpDrop (owner : string)
  | OpActive (owner : string) (active : bool).

Definition call (o : op) : M (registry (V := V)) unit :=
  match o with
  | OpDeclare ow sl v => _ ← declare (Sp := Sp) ow sl v; mret tt
  | OpBind c sl v t p => _ ← bind (Sp := Sp) c sl v t p; mret tt
  | OpRemove ow sl v => remove_slot (Sp := Sp) ow sl v
  | OpUnbind c sl v t => unbind (Sp := Sp) c sl v t
  | OpDrop ow => _ ← drop_owner ow; mret tt
  | OpActive ow a => _ ← set_owner_active ow a; mret tt
  end.

Definition run (ops : list op) s : registry (V := V) := foldl (λ s o, post (call o) s) s ops.

(** A declared version of the slot is in the range of the binding. *)
Definition bound (slots : dict (string * V) RenderSlotDeclaration) b : Prop :=
  ∃ v d range, dict_get slots (rb_slot b, v) = Some d ∧ specifier (rb_version b) = Ok range ∧ contained v range = true.

Definition slots_ok s : Prop :=
  dict_wf (rs_slots s) ∧
  (∀ k d, dict_get (rs_slots s) k = Some d → in_namespace (rd_owner d) k.1) ∧
  ∀ b, b ∈ rs_bindings s → bound (rs_slots s) b.

Lemma any_bound_false slot parsed l b :
  any_bound slot parsed l = Ok false → b ∈ l → binds false slot parsed b = Ok false.
Proof.
  induction l as [|x l IH]; simpl; [by intros _ ?%not_elem_of_nil|].
  intros (hit & Hx & Hl)%bind_result_ok. destruct hit; [done|]. intros [->|Hb]%elem_of_cons; [done|by apply IH].
Qed.

Lemma delete_first_in {A} (p : A → bool) l l' x : delete_first p l = Some l' → x ∈ l' → x ∈ l.
Proof.
  revert l'. induction l as [|y l IH]; intros l'; simpl; [done|]. destruct (p y).
  - intros [= ->] Hx. by right.
  - destruct (delete_first p l) as [k|]; [|done]. intros [= <-] [->|Hx]%elem_of_cons; [by left|]. right. by apply (IH k).
Qed.

Lemma bound_mono (slots slots' : dict (string * V) RenderSlotDeclaration) b :
  (∀ v d, dict_get slots (rb_slot b, v) = Some d → is_Some (dict_get slots' (rb_slot b, v))) → bound slots b → bound slots' b.
Proof. intros Hm (v & d & range & Hd & Hr & Hc). destruct (Hm v d Hd) as [d' Hd']. by exists v, d', range. Qed.

Lemma call_declare ow sl v : preserves slots_ok (call (OpDeclare ow sl v)).
Proof.
  cbn [call]. apply preserves_bind; [|intros; apply preserves_ret]. unfold declare.
  apply preserves_bind_lift. intros os [-> Hns]%validate_owned_ok. cbn [fst snd].
  apply preserves_bind_lift. intros v' _ s (Hwf & Hn & Hb). unfold post. rewrite run_bind_get.
  destruct (dict_mem (rs_slots s) (sl, v')); [by split|]. cbv zeta. rewrite run_bind_put, run_ret. cbn [snd].
  split; [by apply dict_wf_set|]. cbn [rs_slots rs_bindings]. split.
  - intros k d. rewrite dict_get_set. destruct (decide ((sl, v') = k)) as [<-|]; [by intros [= <-]|apply Hn].
  - intros b Hin. eapply bound_mono; [|by apply Hb]. intros w d Hd. rewrite dict_get_set. by destruct (decide _); rewrite ?Hd.
Qed.

Lemma call_bind c sl v t p : preserves slots_ok (call (OpBind c sl v t p)).
Proof.
  cbn [call]. apply preserves_bind; [|intros; apply preserves_ret]. unfold bind.
  apply preserves_bind_lift. intros c' _. apply preserves_bind_lift. intros sl' ->%validate_contract_ok.
  apply preserves_bind_lift. intros range Hrange. apply preserves_bind_lift. intros t' _. apply preserves_bind_lift. intros _ _ s Hs.
  pose proof Hs as (Hwf & Hn & Hb). unfold post. rewrite run_bind_get. unfold raise_if.
  rewrite run_bind_lift. destruct (existsb (compatible sl range) (rs_slots s)) eqn:E; [|done]. cbn [negb fail_if].
  rewrite run_bind_lift. destruct (existsb _ (rs_bindings s)); [done|]. cbn [fail_if]. cbv zeta. rewrite run_bind_put, run_ret.
  cbn [snd]. split; [done|]. split; [done|]. cbn [rs_slots rs_bindings].
  intros b [Hin| ->%list_elem_of_singleton]%elem_of_app; [by apply Hb|].
  apply existsb_exists in E as ([[sl' w] d] & Hin%list_elem_of_In & Hc). unfold compatible in Hc. simpl in Hc.
  apply andb_true_iff in Hc as [Hc _]. apply andb_true_iff in Hc as [->%String.eqb_eq Hcon].
  exists w, d, range. cbn [rb_slot rb_version]. split; [by apply dict_get_in|done].
Qed.

Lemma call_remove ow sl v : preserves slots_ok (call (OpRemove ow sl v)).
Proof.
  cbn [call]. unfold remove_slot. apply preserves_bind_lift. intros ow' _. apply preserves_bind_lift. intros sl' _.
  apply preserves_bind_lift. intros v' _ s Hs. pose proof Hs as (Hwf & Hn & Hb). unfold post. rewrite run_bind_get. unfold raise_if.
  destruct (dict_get (rs_slots s) (sl', v')) as [d|] eqn:Ed; [|done].
  rewrite run_bind_lift. destruct (fail_if (negb _) _ _); [|done]. rewrite run_bind_lift.
  destruct (any_bound sl' v' (rs_bindings s)) as [[]|] eqn:Ea; [done| |done]. rewrite run_bind_lift. cbn [fail_if]. unfold put_st. cbn [snd].
  split; [by apply dict_wf_del|]. cbn [rs_slots rs_bindings]. split.
  - intros k d'. rewrite dict_get_del by done. destruct (decide _); [done|apply Hn].
  - intros b Hin. destruct (Hb b Hin) as (w & d' & range & Hd & Hr & Hc). exists w, d', range. split; [|done].
    rewrite dict_get_del by done. destruct (decide ((sl', v') = (rb_slot b, w))) as [E|]; [|done]. injection E as -> ->.
    pose proof (any_bound_false _ _ _ b Ea Hin) as Hf. unfold binds in Hf. rewrite String.eqb_refl, Hr in Hf. cbn in Hf. congruence.
Qed.

Lemma call_unbind c sl v t : preserves slots_ok (call (OpUnbind c sl v t)).
Proof.
  cbn [call]. unfold unbind. repeat (apply preserves_bind_lift; intros ? _). intros s (Hwf & Hn & Hb). unfold post. rewrite run_bind_get.
  destruct (delete_first _ (rs_bindings s)) as [kept|] eqn:E; [|by split]. unfold put_st. cbn [snd].
  split; [done|]. split; [done|]. intros b Hin. apply Hb. by eapply delete_first_in.
Qed.

Lemma call_drop ow : preserves slots_ok (call (OpDrop ow)).
Proof.
  cbn [call]. apply preserves_bind; [|intros; apply preserves_ret]. unfold drop_owner. apply preserves_bind_lift. intros ow' _ s (Hwf & Hn & Hb).
  unfold post. rewrite run_bind_get. cbv zeta. rewrite run_bind_put, run_ret. cbn [snd].
  split; [by apply dict_filter_wf|]. cbn [rs_slots rs_bindings]. split.
  - intros k d [Hin _]%dict_get_Some_in%filter_in. by apply Hn, dict_get_in.
  - intros b [Hin Hgo]%filter_in. apply negb_true_iff, orb_false_iff in Hgo as [_ Hdr]. apply bool_decide_eq_false in Hdr.
    eapply bound_mono; [|by apply Hb]. intros v d Hd. exists d. apply dict_get_in; [by apply dict_filter_wf|].
    apply filter_in. split; [by apply dict_get_Some_in|]. apply negb_true_iff. destruct (slot_owned ow' _) eqn:E; [|done].
    destruct Hdr. apply list_elem_of_fmap. exists ((rb_slot b, v), d). split; [done|]. apply filter_in. by split; [apply dict_get_Some_in|].
Qed.

Lemma call_active ow a : preserves slots_ok (call (OpActive ow a)).
Proof.
  cbn [call]. apply preserves_bind; [|intros; apply preserves_ret]. unfold set_owner_active.
  apply preserves_bind_lift. intros ow' _ s (Hwf & Hn & Hb). unfold post. rewrite run_bind_get, run_bind_put, run_ret. cbn [snd].
  set (f := λ e : (string * V) * RenderSlotDeclaration, if slot_to_change ow' a e then (e.1, slot_set_active a e.2) else e).
  assert (∀ e, (f e).1 = e.1) as Hf by (intros e; unfold f; by destruct (slot_to_change ow' a e)).
  split; [unfold dict_wf; cbn [rs_slots]; by rewrite keys_fmap_same|]. cbn [rs_slots rs_bindings]. split.
  - intros k d. rewrite dict_get_fmap_same by done. destruct (dict_get (rs_slots s) k) as [d'|] eqn:Ed; [|done].
    intros [= <-]. apply Hn in Ed. unfold f. by destruct (slot_to_change ow' a (k, d')).
  - intros b (b' & -> & Hin)%list_elem_of_fmap.
    assert (bound (f <$> rs_slots s) b') as (v & d & range & Hd & Hr & Hc).
    { eapply bound_mono; [|by apply Hb]. intros v d Hd. rewrite dict_get_fmap_same, Hd by done. by eexists. }
    exists v, d, range. by destruct (binding_to_change ow' a b').
Qed.

Lemma call_slots_ok o : preserves slots_ok (call o).
Proof. destruct o; [apply call_declare|apply call_bind|apply call_remove|apply call_unbind|apply call_drop|apply call_active]. Qed.

Lemma run_slots_ok ops s : slots_ok s → slots_ok (run ops s).
Proof. revert s. induction ops as [|o ops IH]; intros s Hs; [done|]. apply IH. by apply call_slots_ok. Qed.

Lemma slots_empty : slots_ok (Registry [] []).
Proof. split; [apply dict_wf_nil|]. split; [done|]. by intros b ?%not_elem_of_nil. Qed.

Lemma filter_result_spec {A} (f : A → result bool) (g : A → bool) l :
  (∀ x, x ∈ l → f x = Ok (g x)) → filter_result f l = Ok (List.filter g l).
Proof.
  induction l as [|x l IH]; intros Hf; simpl; [done|]. rewrite (Hf x), IH; [|intros; apply Hf; by right|by left].
  cbn [mbind result_bind]. by destruct (g x).
Qed.

(** The bindings that a render of the slot shows. *)
Definition shown (slot : string) (parsed : V) b : bool :=
  rb_active b && String.eqb (rb_slot b) slot &&
  match specifier (rb_version b) with Ok range => contained parsed range | Err _ => false end.

(** C38: However packages declare, bind, remove, deactivate and uninstall,
    no template stays bound to a slot that no longer exists in its range,
    every slot is declared in its owner's namespace, and rendering an active
    slot shows exactly the active bindings whose range contains its version,
    ordered by position, contributor and template. *)
Theorem slots_consistent (ops : list op) (slot ver : string) (parsed : V) :
  let s := run ops (Registry [] []) in
  validate_contract_name slot = Ok slot → version ver = Ok parsed →
  slots_ok s ∧
  match dict_get (rs_slots s) (slot, parsed) with
  | Some d =>
      rd_active d = true →
      ∃ l, bindings slot ver s = (Ok l, s) ∧ l ≡ₚ List.filter (shown slot parsed) (rs_bindings s) ∧
        Sorted.StronglySorted (key_le binding_key) l
  | None => exn_cls <$> (match (bindings slot ver s).1 with Err e => Some e | Ok _ => None end) = Some ContractCompatibilityError
  end.
Proof.
  intros s Hc Hv. pose proof (run_slots_ok ops _ slots_empty) as Hok. fold s in Hok. split; [done|].
  pose proof Hok as (_ & _ & Hb). unfold bindings. rewrite Hc, Hv, !run_bind_lift, run_bind_get.
  destruct (dict_get (rs_slots s) (slot, parsed)) as [d|]; [|done]. intros Ha. rewrite Ha, run_bind_lift.
  rewrite (filter_result_spec _ (shown slot parsed)).
  - exists (sort_by binding_key (List.filter (shown slot parsed) (rs_bindings s))). split; [done|].
    split; [apply sort_by_perm|apply sort_by_sorted].
  - intros b (_ & _ & range & _ & Hr & _)%Hb. unfold binds, shown. cbn [negb orb]. rewrite Hr.
    destruct (rb_active b), (String.eqb (rb_slot b) slot); done.
Qed.
End laws.

Definition demo_slots : registry (V := Z * (Z * Z)) :=
  run (Sp := Z)
    [OpDeclare "shop" "shop.cart" "1.0.0"; OpBind "pay" "shop.cart" ">=1" "pay/b.html" 200;
     OpBind "gift" "shop.cart" ">=1" "gift//a.html" 100; OpBind "gift" "shop.cart" ">=2" "gift/b.html" 100;
     OpRemove "shop" "shop.cart" "1.0.0"] (Registry [] []).

Lemma slots_consistent_witness :
  ∃ l, bindings (Sp := Z) "shop.cart" "1.0.0" demo_slots = (Ok l, demo_slots) ∧
    rb_template <$> l = ["gift/a.html"; "pay/b.html"].
Proof.
  assert (version (Sp := Z) "1.0.0" = Ok (1, (0, 0))%Z) as Hv by (vm_compute; reflexivity).
  destruct (slots_consistent (Sp := Z)
    [OpDeclare "shop" "shop.cart" "1.0.0"; OpBind "pay" "shop.cart" ">=1" "pay/b.html" 200;
     OpBind "gift" "shop.cart" ">=1" "gift//a.html" 100; OpBind "gift" "shop.cart" ">=2" "gift/b.html" 100;
     OpRemove "shop" "shop.cart" "1.0.0"] "shop.cart" "1.0.0" (1, (0, 0))%Z eq_refl Hv) as [_ Hb].
  fold demo_slots in Hb. assert (dict_get (rs_slots demo_slots) ("shop.cart", (1, (0, 0))%Z) = Some (SlotDeclaration "shop" "shop.cart" "1.0.0" true)) as E by (vm_compute; reflexivity).
  rewrite E in Hb. destruct (Hb eq_refl) as (l & Hl & _). exists l. split; [exact Hl|].
  apply (f_equal fst) in Hl. cbn [fst] in Hl.
  assert (forall r, (bindings (Sp := Z) "shop.cart" "1.0.0" demo_slots).1 = Ok r -> rb_template <$> r = ["gift/a.html"; "pay/b.html"]) as Hr.
  { intros r. vm_compute. intros [= <-]. reflexivity. }
  by apply Hr.
Defined.
End SlotLaws.
