(* ===== verification/EventBus.v ===== *)
(** * The event bus (extension_runtime.py)

    Declarations, subscriptions, idempotency keys and synchronous delivery.
    [Module EventBus] holds the methods: those that only touch the registries are
    computations on the bus, [publish] and what it calls are programs ([prog]) that
    enter and leave the re-entrant lock, act on the bus and call validators and
    handlers.  [Module Threads] runs such programs in threads: the calls open in
    a thread form a stack, the lock has an owner and a depth, and the code of a
    callback, or of a thread in no call, does what it wants between two steps:
    declare, subscribe, drop, deactivate, publish again, return or raise.
    [Module EventBusLaws] proves which deliveries such runs make under one
    idempotency key. *)

From Stdlib Require Import Ascii ZArith Lia.
From stdpp Require Import base decidable numbers list strings sets gmap.
From S2P Require Import Prelude PyData Regex JsonGraph HashChain Contracts.

Module EventBus.
Import JsonGraph HashChain Contracts.

Definition MAX_EVENT_PAYLOAD_BYTES : Z := 1024 * 1024.
Definition MAX_EVENT_PAYLOAD_DEPTH : Z := 16.
Definition MAX_EVENT_PAYLOAD_KEYS : Z := 512.
Definition MAX_EVENT_PAYLOAD_ITEMS : Z := 4096.
Definition MAX_EVENT_PAYLOAD_KEY_BYTES : nat := 128.
Definition MAX_EVENT_IDEMPOTENCY_KEYS : Z := 4096.

(** ** Payloads *)

Definition event_payload_message (why : refusal) : string :=
  match why with
  | TooManyItems => "event payload exceeds the item limit"
  | TooDeep => "event payload exceeds the depth limit"
  | Cyclic => "event payload must be acyclic"
  | KeyNotStr => "event payload field names must be strings"
  | KeyNotUtf8 | KeyInvalid | KeySensitive => "event payload field name is invalid"
  | TooManyKeys => "event payload exceeds the key limit"
  end.

Definition event_payload_rules : rules := {|
  ru_items := MAX_EVENT_PAYLOAD_ITEMS; ru_depth := MAX_EVENT_PAYLOAD_DEPTH; ru_keys := MAX_EVENT_PAYLOAD_KEYS;
  ru_key_bytes := MAX_EVENT_PAYLOAD_KEY_BYTES; ru_bad_char _ := false; ru_sensitive _ := false;
  ru_class := ExtensionContractError; ru_message := event_payload_message |}.

Definition validate_event_payload_structure : pyobj → result unit := validate_structure event_payload_rules.

(** [_json_snapshot]: the walk of [dict(payload)] is that of the payload. *)
Definition json_snapshot (payload : pyobj) : result json :=
  match payload with
  | PMap oid _ items =>
      checked_copy event_payload_rules MAX_EVENT_PAYLOAD_BYTES
        (Exn ExtensionContractError "event payload exceeds the reference size limit")
        (Exn ExtensionContractError "event payload must be JSON-safe") (PMap oid true items)
  | _ => fail TypeErr "event payload must be a mapping"
  end.

(** The snapshot of a decoded payload. *)
Definition snapshot_again (j : json) : result json := json_snapshot (of_json 0 j).2.

(** ** Data *)

Record EventDeclaration (Vd : Type) : Type := Declaration {
  ed_owner : string; ed_contract : string; ed_version : string; ed_validator : option Vd; ed_active : bool;
}.
Arguments Declaration {Vd} _ _ _ _ _.
Arguments ed_owner {Vd} _.
Arguments ed_contract {Vd} _.
Arguments ed_version {Vd} _.
Arguments ed_validator {Vd} _.
Arguments ed_active {Vd} _.

Record EventSubscription (Hd : Type) : Type := Subscription {
  es_subscriber : string; es_contract : string; es_version : string; es_handler : Hd; es_priority : Z; es_active : bool;
}.
Arguments Subscription {Hd} _ _ _ _ _ _.
Arguments es_subscriber {Hd} _.
Arguments es_contract {Hd} _.
Arguments es_version {Hd} _.
Arguments es_handler {Hd} _.
Arguments es_priority {Hd} _.
Arguments es_active {Hd} _.

(** The envelope of the contracts package, over its scopes and resources. *)
Record EventEnvelope (Sc Re : Type) : Type := Envelope {
  ev_id : string; ev_owner : string; ev_contract : string; ev_version : string; ev_payload : json;
  ev_scope : Sc; ev_resource : option Re; ev_idempotency_key : option string;
  ev_correlation_id : option string; ev_created_at : stamp;
}.
Arguments Envelope {Sc Re} _ _ _ _ _ _ _ _ _ _.
Arguments ev_id {Sc Re} _.
Arguments ev_owner {Sc Re} _.
Arguments ev_contract {Sc Re} _.
Arguments ev_version {Sc Re} _.
Arguments ev_payload {Sc Re} _.
Arguments ev_scope {Sc Re} _.
Arguments ev_resource {Sc Re} _.
Arguments ev_idempotency_key {Sc Re} _.
Arguments ev_correlation_id {Sc Re} _.
Arguments ev_created_at {Sc Re} _.

(** The arguments of [publish], and the readings of [uuid4] and [now]. *)
Record publication (Sc Re : Type) : Type := Publication {
  pu_owner : string; pu_contract : string; pu_version : string; pu_payload : pyobj;
  pu_idempotency_key : option string; pu_scope : option Sc; pu_resource : option Re;
  pu_correlation_id : option string; pu_uuid : string; pu_now : Z;
}.
Arguments Publication {Sc Re} _ _ _ _ _ _ _ _ _ _.
Arguments pu_owner {Sc Re} _.
Arguments pu_contract {Sc Re} _.
Arguments pu_version {Sc Re} _.
Arguments pu_payload {Sc Re} _.
Arguments pu_idempotency_key {Sc Re} _.
Arguments pu_scope {Sc Re} _.
Arguments pu_resource {Sc Re} _.
Arguments pu_correlation_id {Sc Re} _.
Arguments pu_uuid {Sc Re} _.
Arguments pu_now {Sc Re} _.

(** [(owner, contract, idempotency_key)]. *)
Definition reservation : Type := string * string * string.

(** ** Programs

    What a method does, in the order in which it does it: [with self._lock] and
    its end, the code on the bus between the two, the calls of validators and
    handlers, and the value or exception it ends with. *)

Section progs.
Context {V Vd Hd Sc Re : Type}.

Record bus : Type := Bus {
  b_declarations : dict (string * V) (EventDeclaration Vd);
  b_subscriptions : list (EventSubscription Hd);
  b_idempotency : dict reservation unit;
  b_last_envelope : option (EventEnvelope Sc Re);
}.

Definition empty_bus : bus := Bus [] [] [] None.

(** [declaration.validator(...)] and [subscription.handler(...)]. *)
Inductive callback : Type :=
  | Validating (validator : Vd)
  | Handling (subscription : EventSubscription Hd).

Inductive prog (A : Type) : Type :=
  | Ret (r : result A)
  | Acquire (k : prog A)
  | Release (k : prog A)
  | OnBus (m : bus → bus) (k : bus → prog A)
  | Callback (c : callback) (j : json) (k : result pyobj → prog A).
Arguments Ret {A} _.
Arguments Acquire {A} _.
Arguments Release {A} _.
Arguments OnBus {A} _ _.
Arguments Callback {A} _ _ _.

(** [p], then what its value or exception leads to. *)
Fixpoint and_then {A B} (p : prog A) (f : result A → prog B) : prog B :=
  match p with
  | Ret r => f r
  | Acquire k => Acquire (and_then k f)
  | Release k => Release (and_then k f)
  | OnBus m k => OnBus m (λ b, and_then (k b) f)
  | Callback c j k => Callback c j (λ r, and_then (k r) f)
  end.

#[global] Instance prog_ret : MRet prog := λ A a, Ret (Ok a).
#[global] Instance prog_bind : MBind prog := λ A B f p,
  and_then p (λ r, match r with Ok a => f a | Err e => Ret (Err e) end).

Definition on_bus {A} (m : M bus A) : prog A := OnBus (post m) (λ b, Ret (m b).1).
(** [with self._lock: p]. *)
Definition locked {A} (p : prog A) : prog A := Acquire (and_then p (λ r, Release (Ret r))).
(** [try: p except Exception: h]. *)
Definition attempt {A} (p : prog A) (h : exn → prog A) : prog A :=
  and_then p (λ r, match r with Ok a => Ret (Ok a) | Err e => h e end).
Definition call_back (c : callback) (j : json) : prog pyobj := Callback c j Ret.
End progs.
Arguments Ret {V Vd Hd Sc Re A} _.
Arguments Acquire {V Vd Hd Sc Re A} _.
Arguments Release {V Vd Hd Sc Re A} _.
Arguments OnBus {V Vd Hd Sc Re A} _ _.
Arguments Callback {V Vd Hd Sc Re A} _ _ _.

Section bus.
Context {V Sp Vd Hd Sc Re : Type} `{Versioning V Sp}.
Abbreviation bus := (bus (V := V) (Vd := Vd) (Hd := Hd) (Sc := Sc) (Re := Re)).
Abbreviation prog := (prog (V := V) (Vd := Vd) (Hd := Hd) (Sc := Sc) (Re := Re)).

(** [validate_event_idempotency_key], [ScopeRef.installation()] and the
    validation of an envelope are those of the contracts package. *)
Context (check_idempotency_key : string → result string) (installation : Sc)
  (check_envelope : EventEnvelope Sc Re → result (EventEnvelope Sc Re)).

Definition get_bus : M bus bus := get_st.
Definition put_bus (b : bus) : M bus unit := put_st b.

Definition set_declarations (d : dict (string * V) (EventDeclaration Vd)) (b : bus) : bus :=
  Bus d (b_subscriptions b) (b_idempotency b) (b_last_envelope b).
Definition set_subscriptions (l : list (EventSubscription Hd)) (b : bus) : bus :=
  Bus (b_declarations b) l (b_idempotency b) (b_last_envelope b).
Definition set_idempotency (d : dict reservation unit) (b : bus) : bus :=
  Bus (b_declarations b) (b_subscriptions b) d (b_last_envelope b).
Definition set_last_envelope (e : EventEnvelope Sc Re) (b : bus) : bus :=
  Bus (b_declarations b) (b_subscriptions b) (b_idempotency b) (Some e).

(** ** Declarations and subscriptions *)

Definition declare (owner contract version : string) (validator : option Vd) : M bus (EventDeclaration Vd) :=
  oc ← lift (validate_owned_contract owner contract);
  parsed ← lift (Contracts.version version);
  b ← get_bus;
  if dict_mem (b_declarations b) (oc.2, parsed)
  then raise ExtensionContractError "event contract version is already declared"
  else
    let declaration := Declaration oc.1 oc.2 (version_str parsed) validator true in
    _ ← put_bus (set_declarations (dict_set (b_declarations b) (oc.2, parsed) declaration) b);
    mret declaration.

Definition get_declaration (contract version : string) : M bus (option (EventDeclaration Vd)) :=
  contract ← lift (validate_contract_name contract);
  parsed ← lift (Contracts.version version);
  b ← get_bus;
  mret (dict_get (b_declarations b) (contract, parsed)).

Definition compatible (contract : string) (range : Sp) (e : (string * V) * EventDeclaration Vd) : bool :=
  String.eqb e.1.1 contract && contained e.1.2 range && ed_active e.2.

Definition same_subscription (subscriber contract version : string) (s : EventSubscription Hd) : bool :=
  String.eqb (es_subscriber s) subscriber && String.eqb (es_contract s) contract && String.eqb (es_version s) version.

Definition subscribe (subscriber contract version : string) (handler : Hd) (priority : Z) :
    M bus (EventSubscription Hd) :=
  subscriber ← lift (validate_owner subscriber);
  contract ← lift (validate_contract_name contract);
  range ← lift (specifier version);
  _ ← raise_if (negb ((-10000 <=? priority)%Z && (priority <=? 10000)%Z)) ValueErr
        "event priority is outside the supported range";
  b ← get_bus;
  _ ← raise_if (negb (existsb (compatible contract range) (b_declarations b))) ContractCompatibilityError
        "event subscription has no compatible contract";
  _ ← raise_if (existsb (same_subscription subscriber contract version) (b_subscriptions b)) ExtensionContractError
        "event subscription is already registered";
  let subscription := Subscription subscriber contract version handler priority true in
  _ ← put_bus (set_subscriptions (b_subscriptions b ++ [subscription]) b);
  mret subscription.

Definition last_envelope : M bus (option (EventEnvelope Sc Re)) := b ← get_bus; mret (b_last_envelope b).

(** ** Publishing *)

(** [_deliver]: handlers in order, up to the first failure. *)
Fixpoint deliver (subscriptions : list (EventSubscription Hd)) (snapshot : json) (delivered : Z) : prog Z :=
  match subscriptions with
  | [] => mret delivered
  | s :: subscriptions =>
      _ ← attempt (payload ← Ret (snapshot_again snapshot); call_back (Handling s) payload)
            (λ _, Ret (fail EventDeliveryError ("event delivery failed for subscriber " +:+ es_subscriber s)));
      deliver subscriptions snapshot (delivered + 1)
  end.

Definition event_envelope (p : publication Sc Re) (version : string) (snapshot : json) (key : option string) :
    result (EventEnvelope Sc Re) :=
  result_catch
    (check_envelope (Envelope (pu_uuid p) (pu_owner p) (pu_contract p) version snapshot
       (or_default (pu_scope p) installation) (pu_resource p) key (pu_correlation_id p) (utc_stamp (pu_now p))))
    (λ _, Some (fail ExtensionContractError "event envelope is invalid")).

(** [item.active and item.contract == contract and parsed in _specifier(item.version)]. *)
Definition receives (contract : string) (parsed : V) (s : EventSubscription Hd) : result bool :=
  if es_active s && String.eqb (es_contract s) contract
  then range ← specifier (es_version s); Ok (contained parsed range) else Ok false.

Definition delivery_key (s : EventSubscription Hd) : Z * string := (es_priority s, es_subscriber s).

(** [_prepare_publish_locked]. *)
Definition prepare_publish_locked (owner contract : string) (parsed : V) (payload : pyobj) :
    prog (json * list (EventSubscription Hd)) :=
  b ← on_bus get_bus;
  match dict_get (b_declarations b) (contract, parsed) with
  | None => Ret (fail ContractCompatibilityError "event contract version is not active")
  | Some declaration =>
      _ ← Ret (fail_if (negb (ed_active declaration)) ContractCompatibilityError "event contract version is not active");
      _ ← Ret (fail_if (negb (String.eqb (ed_owner declaration) owner)) ContractOwnershipError
                 "only the event owner may publish it");
      snapshot ← Ret (json_snapshot payload);
      snapshot ← match ed_validator declaration with
                 | None => mret snapshot
                 | Some validator =>
                     attempt (checked ← call_back (Validating validator) snapshot; Ret (json_snapshot checked))
                       (λ _, Ret (fail ExtensionContractError "event payload validation failed"))
                 end;
      b ← on_bus get_bus;
      subscriptions ← Ret (filter_result (receives contract parsed) (b_subscriptions b));
      mret (snapshot, sort_by delivery_key subscriptions)
  end.

Definition prepare_publish (owner contract : string) (parsed : V) (payload : pyobj) :
    prog (json * list (EventSubscription Hd)) :=
  locked (prepare_publish_locked owner contract parsed payload).

Definition remember (envelope : EventEnvelope Sc Re) : M bus unit := modify_st (set_last_envelope envelope).
Definition reserve (reserved : reservation) : M bus unit :=
  modify_st (λ b, set_idempotency (dict_set (b_idempotency b) reserved tt) b).
Definition release (reserved : reservation) : M bus unit :=
  modify_st (λ b, set_idempotency (dict_del (b_idempotency b) reserved) b).

(** [publish] without a key, its arguments read. *)
Definition publish_unkeyed (p : publication Sc Re) (parsed : V) : prog Z :=
  prepared ← prepare_publish (pu_owner p) (pu_contract p) parsed (pu_payload p);
  envelope ← Ret (event_envelope p (version_str parsed) prepared.1 None);
  delivered ← deliver prepared.2 prepared.1 0;
  _ ← locked (on_bus (remember envelope));
  mret delivered.

(** The section of [publish] that reserves a key: [None] when it is taken. *)
Definition begin_keyed (p : publication Sc Re) (parsed : V) (reserved : reservation) :
    prog (option (json * list (EventSubscription Hd) * EventEnvelope Sc Re)) :=
  b ← on_bus get_bus;
  if dict_mem (b_idempotency b) reserved then mret None
  else if (MAX_EVENT_IDEMPOTENCY_KEYS <=? Z.of_nat (length (b_idempotency b)))%Z
  then Ret (fail ExtensionContractError "event idempotency capacity exceeded")
  else
    prepared ← prepare_publish_locked (pu_owner p) (pu_contract p) parsed (pu_payload p);
    envelope ← Ret (event_envelope p (version_str parsed) prepared.1 (Some reserved.2));
    _ ← on_bus (reserve reserved);
    mret (Some (prepared.1, prepared.2, envelope)).

(** [publish] with a key. *)
Definition publish_keyed (p : publication Sc Re) (parsed : V) (reserved : reservation) : prog Z :=
  begun ← locked (begin_keyed p parsed reserved);
  match begun with
  | None => mret 0%Z
  | Some (snapshot, subscriptions, envelope) =>
      delivered ← attempt (deliver subscriptions snapshot 0)
                    (λ e, _ ← locked (on_bus (release reserved)); Ret (Err e));
      _ ← locked (on_bus (remember envelope));
      mret delivered
  end.

Definition publish (p : publication Sc Re) : prog Z :=
  owner ← Ret (validate_owner (pu_owner p));
  contract ← Ret (validate_contract_name (pu_contract p));
  parsed ← Ret (Contracts.version (pu_version p));
  match pu_idempotency_key p with
  | None => publish_unkeyed p parsed
  | Some key => key ← Ret (check_idempotency_key key); publish_keyed p parsed (owner, contract, key)
  end.

(** ** Owners *)

Definition declared_by (owner : string) (e : (string * V) * EventDeclaration Vd) : bool := String.eqb (ed_owner e.2) owner.
Definition subscribed_by (owner : string) (s : EventSubscription Hd) : bool := String.eqb (es_subscriber s) owner.
Definition reserved_by (owner : string) (e : reservation * unit) : bool := String.eqb e.1.1.1 owner.

Definition drop_owner (owner : string) : M bus Z :=
  owner ← lift (validate_owner owner);
  b ← get_bus;
  _ ← put_bus (Bus (List.filter (λ e, negb (declared_by owner e)) (b_declarations b))
                (List.filter (λ s, negb (subscribed_by owner s)) (b_subscriptions b))
                (List.filter (λ e, negb (reserved_by owner e)) (b_idempotency b)) (b_last_envelope b));
  mret (Z.of_nat (length (List.filter (declared_by owner) (b_declarations b)) +
                  length (List.filter (subscribed_by owner) (b_subscriptions b)))).

Definition declaration_to_change (owner : string) (active : bool) (e : (string * V) * EventDeclaration Vd) : bool :=
  declared_by owner e && negb (Bool.eqb (ed_active e.2) active).
Definition subscription_to_change (owner : string) (active : bool) (s : EventSubscription Hd) : bool :=
  subscribed_by owner s && negb (Bool.eqb (es_active s) active).
Definition declaration_set_active (active : bool) (d : EventDeclaration Vd) : EventDeclaration Vd :=
  Declaration (ed_owner d) (ed_contract d) (ed_version d) (ed_validator d) active.
Definition subscription_set_active (active : bool) (s : EventSubscription Hd) : EventSubscription Hd :=
  Subscription (es_subscriber s) (es_contract s) (es_version s) (es_handler s) (es_priority s) active.

Definition set_owner_active (owner : string) (active : bool) : M bus Z :=
  owner ← lift (validate_owner owner);
  b ← get_bus;
  _ ← put_bus (Bus
        ((λ e, if declaration_to_change owner active e then (e.1, declaration_set_active active e.2) else e) <$> b_declarations b)
        ((λ s, if subscription_to_change owner active s then subscription_set_active active s else s) <$> b_subscriptions b)
        (b_idempotency b) (b_last_envelope b));
  mret (Z.of_nat (length (List.filter (declaration_to_change owner active) (b_declarations b)) +
                  length (List.filter (subscription_to_change owner active) (b_subscriptions b)))).

Definition deactivate_owner (owner : string) : M bus Z := set_owner_active owner false.
Definition activate_owner (owner : string) : M bus Z := set_owner_active owner true.
End bus.
End EventBus.

(** ** Threads

    The Python side of the model: threads that call the bus, and the re-entrant
    lock.  What callbacks and the packages' own code do is not restricted: a move
    of the machine is one step of a call in progress, or one thing the code
    outside the bus does. *)

Module Threads.
Import JsonGraph Contracts EventBus.

Section threads.
Context {V Sp Vd Hd Sc Re : Type} `{Versioning V Sp}.
Abbreviation bus := (bus (V := V) (Vd := Vd) (Hd := Hd) (Sc := Sc) (Re := Re)).
Abbreviation prog := (prog (V := V) (Vd := Vd) (Hd := Hd) (Sc := Sc) (Re := Re)).
Context (check_idempotency_key : string → result string) (installation : Sc)
  (check_envelope : EventEnvelope Sc Re → result (EventEnvelope Sc Re)).
Abbreviation publishp := (publish (V := V) (Vd := Vd) (Hd := Hd) (Sp := Sp) check_idempotency_key installation check_envelope).
Implicit Types (b : bus) (i j t : nat) (p q : publication Sc Re) (s : EventSubscription Hd).

(** The methods that call nothing back: one section under the lock each. *)
Inductive op : Type :=
  | OpDeclare (owner contract version : string) (validator : option Vd)
  | OpSubscribe (subscriber contract version : string) (handler : Hd) (priority : Z)
  | OpDrop (owner : string)
  | OpActive (owner : string) (active : bool).

Definition run_op (o : op) b : bus :=
  match o with
  | OpDeclare ow c v val => post (declare (Sp := Sp) ow c v val) b
  | OpSubscribe s c v hd pr => post (subscribe (Sp := Sp) s c v hd pr) b
  | OpDrop ow => post (drop_owner ow) b
  | OpActive ow act => post (set_owner_active ow act) b
  end.

(** A call of [publish]: what it has left to do, and whether it is inside the
    callback its code is at. *)
Record open_call : Type := OpenCall {
  oc_thread : nat; oc_publication : publication Sc Re; oc_code : prog Z; oc_inside : bool;
}.

(** What can be observed: calls of [publish] (numbered), handlers called and
    what they answered, and what the calls answered. *)
Inductive event : Type :=
  | Called (i : nat) p
  | Entered (i : nat) p s (payload : json)
  | Left (i : nat) p s (r : result pyobj)
  | Returned (i : nat) p (r : result Z).

Record machine : Type := Machine {
  m_bus : bus;
  m_lock : option (nat * nat);          (* the thread that has the lock, and how many times *)
  m_calls : gmap nat open_call;
  m_stacks : gmap nat (list nat);       (* the calls open in a thread, innermost first *)
  m_next : nat;
  m_log : list event;
}.
Implicit Types (σ : machine) (c : open_call).

Definition idle : machine := Machine empty_bus None ∅ ∅ 0 [].

Definition stack σ t : list nat := default [] (m_stacks σ !! t).
Definition lock_for σ t : bool := match m_lock σ with None => true | Some (t', _) => (t' =? t)%nat end.
Definition lock_depth σ : nat := match m_lock σ with None => 0 | Some (_, d) => d end.

(** The code outside the bus runs when the thread is in no call or in a callback. *)
Definition at_large σ t : bool :=
  match stack σ t with
  | [] => true
  | i :: _ => match m_calls σ !! i with Some c => oc_inside c | None => false end
  end.

Definition with_code (i : nat) c (code : prog Z) (inside : bool) σ : machine :=
  Machine (m_bus σ) (m_lock σ) (<[i := OpenCall (oc_thread c) (oc_publication c) code inside]> (m_calls σ)) (m_stacks σ)
    (m_next σ) (m_log σ).
Definition with_bus b σ : machine := Machine b (m_lock σ) (m_calls σ) (m_stacks σ) (m_next σ) (m_log σ).
Definition with_lock (l : option (nat * nat)) σ : machine := Machine (m_bus σ) l (m_calls σ) (m_stacks σ) (m_next σ) (m_log σ).
Definition with_event (e : event) σ : machine :=
  Machine (m_bus σ) (m_lock σ) (m_calls σ) (m_stacks σ) (m_next σ) (m_log σ ++ [e]).

(** One step of the code of call [i], innermost in thread [t]. *)
Definition step_code (t i : nat) c σ : option machine :=
  match oc_code c with
  | Ret r =>
      Some (with_event (Returned i (oc_publication c) r)
              (Machine (m_bus σ) (m_lock σ) (delete i (m_calls σ)) (<[t := tail (stack σ t)]> (m_stacks σ)) (m_next σ) (m_log σ)))
  | Acquire k =>
      if lock_for σ t then Some (with_lock (Some (t, S (lock_depth σ))) (with_code i c k false σ)) else None
  | Release k =>
      Some (with_lock (if (lock_depth σ <=? 1)%nat then None else Some (t, pred (lock_depth σ))) (with_code i c k false σ))
  | OnBus m k => Some (with_bus (m (m_bus σ)) (with_code i c (k (m_bus σ)) false σ))
  | Callback (Validating _) _ _ => Some (with_code i c (oc_code c) true σ)
  | Callback (Handling s) j _ => Some (with_event (Entered i (oc_publication c) s j) (with_code i c (oc_code c) true σ))
  end.

(** The callback that call [i] is inside returns or raises. *)
Definition answer (i : nat) c (r : result pyobj) σ : option machine :=
  match oc_code c with
  | Callback (Validating _) _ k => Some (with_code i c (k r) false σ)
  | Callback (Handling s) _ k => Some (with_event (Left i (oc_publication c) s r) (with_code i c (k r) false σ))
  | _ => None
  end.

Inductive move : Type :=
  | Run (t : nat)
  | Answer (t : nat) (r : result pyobj)
  | Do (t : nat) (o : op)
  | Publish (t : nat) p.

Definition step (mv : move) σ : option machine :=
  match mv with
  | Run t =>
      match stack σ t with
      | i :: _ => c ← m_calls σ !! i; if oc_inside c then None else step_code t i c σ
      | [] => None
      end
  | Answer t r =>
      match stack σ t with
      | i :: _ => c ← m_calls σ !! i; if oc_inside c then answer i c r σ else None
      | [] => None
      end
  | Do t o => if at_large σ t && lock_for σ t then Some (with_bus (run_op o (m_bus σ)) σ) else None
  | Publish t p =>
      if at_large σ t
      then Some (with_event (Called (m_next σ) p)
             (Machine (m_bus σ) (m_lock σ) (<[m_next σ := OpenCall t p (publishp p) false]> (m_calls σ))
                (<[t := m_next σ :: stack σ t]> (m_stacks σ)) (S (m_next σ)) (m_log σ)))
      else None
  end.

Fixpoint exec (moves : list move) σ : option machine :=
  match moves with
  | [] => Some σ
  | mv :: moves => σ' ← step mv σ; exec moves σ'
  end.
End threads.
End Threads.

(** ** Deliveries under one key *)

Module EventBusLaws.
Import JsonGraph Contracts ContractNames EventBus Threads.

(** A snapshot is copied again to itself. *)
Lemma event_limits_ok : (0 ≤ ru_items event_payload_rules)%Z ∧ (0 ≤ ru_keys event_payload_rules)%Z.
Proof. done. Qed.

Lemma snapshot_again_ok p j : json_snapshot p = Ok j → snapshot_again j = Ok j.
Proof.
  destruct p as [|b|z|f| |s| | |o l|o b m]; try done. cbn [json_snapshot]. intros Hc.
  destruct (checked_copy_obj _ _ _ _ _ _ _ _ Hc) as [js ->].
  apply (checked_copy_stable _ event_limits_ok) in Hc as (_ & _ & _ & Hback).
  unfold snapshot_again. destruct (of_json_obj 0 js) as [m' E]. by rewrite E in *.
Qed.

Lemma snoc_split {A} (l a b : list A) (e x : A) :
  l ++ [e] = a ++ x :: b → (a = l ∧ x = e ∧ b = []) ∨ ∃ b', b = b' ++ [e] ∧ l = a ++ x :: b'.
Proof.
  destruct (exists_last (l := x :: b)) as (b' & y & E); [done|]. rewrite E, app_assoc. intros [-> ->]%app_inj_tail.
  destruct b' as [|x' b']; injection E as -> ->; [left; by rewrite app_nil_r|right; by exists b'].
Qed.

Section laws.
Context {V Sp Vd Hd Sc Re : Type} `{Versioning V Sp}.
Abbreviation bus := (bus (V := V) (Vd := Vd) (Hd := Hd) (Sc := Sc) (Re := Re)).
Abbreviation prog := (prog (V := V) (Vd := Vd) (Hd := Hd) (Sc := Sc) (Re := Re)).
Abbreviation machine := (machine (V := V) (Vd := Vd) (Hd := Hd) (Sc := Sc) (Re := Re)).
Abbreviation event := (event (Hd := Hd) (Sc := Sc) (Re := Re)).
Abbreviation move := (move (Vd := Vd) (Hd := Hd) (Sc := Sc) (Re := Re)).
Context (check_idempotency_key : string → result string) (installation : Sc)
  (check_envelope : EventEnvelope Sc Re → result (EventEnvelope Sc Re)).
Abbreviation publishp := (publish (V := V) (Vd := Vd) (Hd := Hd) (Sp := Sp) check_idempotency_key installation check_envelope).
Abbreviation stepp := (step (V := V) (Vd := Vd) (Hd := Hd) (Sp := Sp) check_idempotency_key installation check_envelope).
Abbreviation execp := (exec (V := V) (Vd := Vd) (Hd := Hd) (Sp := Sp) check_idempotency_key installation check_envelope).
Implicit Types (b : bus) (i j t : nat) (p q : publication Sc Re) (s : EventSubscription Hd) (k : reservation).
Implicit Types (log : list event) (e : event) (σ : machine).

(** The key a publication reserves. *)
Definition reservation_of p : result reservation :=
  owner ← validate_owner (pu_owner p);
  contract ← validate_contract_name (pu_contract p);
  _ ← Contracts.version (pu_version p);
  match pu_idempotency_key p with
  | None => fail ValueErr "no key"
  | Some key => key ← check_idempotency_key key; Ok (owner, contract, key)
  end.

Definition is_under k p : bool := match reservation_of p with Ok k' => bool_decide (k' = k) | Err _ => false end.

Definition held k b : bool := dict_mem (b_idempotency b) k.

(** Who a subscription is of; no two subscriptions of a bus have one name. *)
Definition sub_name s : string * string * string := (es_subscriber s, es_contract s, es_version s).

(** *** What a log says *)

Definition event_call e : nat :=
  match e with Called i _ | Entered i _ _ _ | Left i _ _ _ | Returned i _ _ => i end.

(** Call [i] handed its event to a subscriber; a subscriber of call [i] raised. *)
Definition delivered k i log : Prop := ∃ p s x, Entered i p s x ∈ log ∧ is_under k p = true.
Definition failed i log : Prop := ∃ p s x, Left i p s (Err x) ∈ log.

(** The subscriptions that call [i] handed its event to, in order. *)
Definition entered i log : list (string * string * string) :=
  omap (λ e, match e with Entered j _ s _ => if (j =? i)%nat then Some (sub_name s) else None | _ => None end) log.

(** A call under the key answered that it delivered the event. *)
Definition settled k log : Prop := ∃ i p n, Returned i p (Ok n) ∈ log ∧ is_under k p = true ∧ (0 < n)%Z.
(** Call [j] came after such an answer. *)
Definition late k j log : Prop := ∃ before q after, log = before ++ Called j q :: after ∧ settled k before.

(** What may come after [past] under the key: a call hands its event to a
    subscriber it has not handed it to, none of its subscribers having raised,
    and only when every other call that delivered something has failed; a call
    answers the number of its deliveries, and zero if it came after the event
    was delivered. *)
Definition allowed k (past : list event) e : Prop :=
  match e with
  | Called _ _ | Left _ _ _ _ => True
  | Entered j q s _ =>
      is_under k q = true →
      (∀ i, i ≠ j → delivered k i past → failed i past) ∧ ¬ failed j past ∧ sub_name s ∉ entered j past
  | Returned j q r =>
      is_under k q = true →
      (∀ n, r = Ok n → n = Z.of_nat (length (entered j past))) ∧ (late k j past → r = Ok 0%Z)
  end.

Definition at_most_once k log : Prop := ∀ past e later, log = past ++ e :: later → allowed k past e.

(** *** Histories

    Where a call under the key stands. *)
Inductive phase : Type :=
  | PStart                                            (* it has not looked the key up *)
  | PDup                                              (* the key was taken *)
  | PFree                                             (* in the section, the key is free *)
  | POwn (all : list (EventSubscription Hd)) (n : nat)  (* it reserved the key and entered [n] handlers of [all] *)
  | PDoom                                             (* a handler raised, the key is to be released *)
  | PFail                                             (* it will raise *)
  | POther.                                           (* a call not under the key *)

Definition owns (ph : phase) : Prop := match ph with POwn _ _ | PDoom => True | _ => False end.

Inductive status : Type := Unborn | Open (ph : phase) | Gone.
Implicit Types (ph : phase) (st : nat → status) (cur : option nat).

(** What is known of a call in a phase; [cur] is the call that has the key. *)
Definition stands i ph log cur : Prop :=
  match ph with
  | PStart | PDup => entered i log = [] ∧ ¬ failed i log
  | PFree => cur = None ∧ entered i log = [] ∧ ¬ failed i log
  | POwn all n =>
      cur = Some i ∧ NoDup (sub_name <$> all) ∧ n ≤ length all ∧ entered i log = sub_name <$> take n all ∧ ¬ failed i log
  | PDoom => cur = Some i ∧ failed i log
  | PFail | POther => True
  end.

Record history k log st cur : Prop := {
  h_born : ∀ e, e ∈ log → st (event_call e) ≠ Unborn;
  h_once : at_most_once k log;
  h_mine : ∀ i, delivered k i log → failed i log ∨ cur = Some i;
  h_stands : ∀ i ph, st i = Open ph → stands i ph log cur;
  h_cur : ∀ i, cur = Some i →
    (∃ ph, st i = Open ph ∧ owns ph) ∨ (st i = Gone ∧ ∃ p n, Returned i p (Ok n) ∈ log ∧ is_under k p = true);
  h_settled : settled k log → ∃ i, cur = Some i ∧ st i = Gone;
  h_late : ∀ j ph, st j = Open ph → late k j log → ph = PStart ∨ ph = PDup ∨ ph = POther;
}.

Definition upd {A} (f : nat → A) (i : nat) (a : A) : nat → A := λ j, if (j =? i)%nat then a else f j.

Lemma upd_same {A} (f : nat → A) i a : upd f i a i = a.
Proof. unfold upd. by rewrite Nat.eqb_refl. Qed.
Lemma upd_other {A} (f : nat → A) i a j : j ≠ i → upd f i a j = f j.
Proof. intros Hne. unfold upd. by destruct (Nat.eqb_spec j i). Qed.
Lemma upd_cases {A} (f : nat → A) i a j (P : A → Prop) : (j = i → P a) → (j ≠ i → P (f j)) → P (upd f i a j).
Proof. intros H1 H2. unfold upd. destruct (Nat.eqb_spec j i); auto. Qed.

(** Logs with one more event. *)
Lemma entered_snoc i log e :
  entered i (log ++ [e]) = entered i log ++ match e with Entered j _ s _ => if (j =? i)%nat then [sub_name s] else [] | _ => [] end.
Proof.
  unfold entered. rewrite omap_app. f_equal. destruct e as [| j p s x | |]; try done. cbn. by destruct (j =? i)%nat.
Qed.

Lemma entered_snoc_other i log e : event_call e ≠ i → entered i (log ++ [e]) = entered i log.
Proof.
  rewrite entered_snoc. destruct e as [|j p s x| |]; cbn [event_call]; intros Hne; try by rewrite app_nil_r.
  destruct (Nat.eqb_spec j i); [done|]. by rewrite app_nil_r.
Qed.

Lemma failed_snoc i log e :
  failed i (log ++ [e]) ↔ failed i log ∨ ∃ p s x, e = Left i p s (Err x).
Proof.
  unfold failed. split.
  - intros (p & s & x & [Hin|Hin%list_elem_of_singleton]%elem_of_app); [left; eauto|right; eauto].
  - intros [(p & s & x & Hin)|(p & s & x & ->)]; exists p, s, x; apply elem_of_app; [by left|right; by left].
Qed.

Lemma failed_snoc_other i log e : event_call e ≠ i → failed i (log ++ [e]) ↔ failed i log.
Proof. intros Hne. rewrite failed_snoc. split; [|by left]. intros [Hf|(p & s & x & ->)]; [done|by cbn in Hne]. Qed.

Lemma delivered_snoc k i log e :
  delivered k i (log ++ [e]) → delivered k i log ∨ ∃ p s x, e = Entered i p s x ∧ is_under k p = true.
Proof. intros (p & s & x & [Hin|Hin%list_elem_of_singleton]%elem_of_app & Hu); [left; by exists p, s, x|right; by eauto 6]. Qed.

Lemma settled_snoc k log e :
  settled k (log ++ [e]) → settled k log ∨ ∃ i p n, e = Returned i p (Ok n) ∧ is_under k p = true ∧ (0 < n)%Z.
Proof. intros (i & p & n & [Hin|Hin%list_elem_of_singleton]%elem_of_app & Hu & Hn); [left; by exists i, p, n|right; by eauto 8]. Qed.

Lemma late_snoc k j log e :
  late k j (log ++ [e]) → late k j log ∨ ∃ q, e = Called j q ∧ settled k log.
Proof.
  intros (a & q & b & E & Hs). apply snoc_split in E as [(-> & <- & ->)|(b' & -> & ->)]; [right; eauto|left; by exists a, q, b'].
Qed.

Lemma at_most_once_snoc k log e : at_most_once k log → allowed k log e → at_most_once k (log ++ [e]).
Proof. intros Ho Ha past e' later [(-> & -> & ->)|(l' & -> & ->)]%snoc_split; [done|]. by eapply Ho. Qed.

Lemma entered_in i log nm : nm ∈ entered i log → ∃ p s x, Entered i p s x ∈ log.
Proof.
  unfold entered. intros (e & Hin & E)%list_elem_of_omap. destruct e as [|j p s x| |]; try done.
  destruct (Nat.eqb_spec j i) as [->|]; [|done]. eauto.
Qed.

(** *** Steps of a history *)

Lemma stands_other i ph log cur e : event_call e ≠ i → stands i ph log cur → stands i ph (log ++ [e]) cur.
Proof.
  intros Hne. destruct ph; cbn [stands]; rewrite ?(entered_snoc_other i log e Hne), ?(failed_snoc_other i log e Hne); done.
Qed.

Definition unserved ph : Prop := ph = PStart ∨ ph = PDup ∨ ph = POther.

(** One more event, of call [i], which moves to status [x]. *)
Lemma history_event k log st cur e i x :
  history k log st cur → event_call e = i → st i ≠ Gone → x ≠ Unborn → allowed k log e →
  (∀ p s y, e = Entered i p s y → is_under k p = true → cur = Some i) →
  (∀ ph, x = Open ph → stands i ph (log ++ [e]) cur) →
  (cur = Some i → (∃ ph, x = Open ph ∧ owns ph) ∨ (x = Gone ∧ ∃ p n, Returned i p (Ok n) ∈ log ++ [e] ∧ is_under k p = true)) →
  (∀ p n, e = Returned i p (Ok n) → is_under k p = true → (0 < n)%Z → cur = Some i ∧ x = Gone) →
  (∀ ph, x = Open ph → late k i (log ++ [e]) → unserved ph) →
  history k (log ++ [e]) (upd st i x) cur.
Proof.
  intros Hh He Hng Hx Ha Hen Hst Hcu Hse Hla. split.
  - intros e' Hin. apply upd_cases; [done|]. intros Hne. apply elem_of_app in Hin as [Hin|Hin%list_elem_of_singleton].
    + by apply (h_born _ _ _ _ Hh).
    + by subst e'.
  - apply at_most_once_snoc; [apply Hh|done].
  - intros j [Hdl|(p & s & y & Ej & Hu)]%delivered_snoc.
    + destruct (h_mine _ _ _ _ Hh j Hdl) as [Hf|Hc]; [left; apply failed_snoc; by left|by right].
    + assert (j = i) as -> by (rewrite <-He; by rewrite Ej). right. by eapply Hen.
  - intros j ph. apply (upd_cases st i x j (λ a, a = Open ph → stands j ph (log ++ [e]) cur)).
    + intros -> E. by apply Hst.
    + intros Hne E. apply stands_other; [by rewrite He|]. by apply (h_stands _ _ _ _ Hh).
  - intros j Ej. apply (upd_cases st i x j (λ a, (∃ ph, a = Open ph ∧ owns ph) ∨ (a = Gone ∧ _))).
    + intros ->. by apply Hcu.
    + intros Hne. destruct (h_cur _ _ _ _ Hh j Ej) as [Ho|(Eg & p & n & Hin & Hu)]; [by left|right].
      split; [done|]. exists p, n. split; [|done]. apply elem_of_app. by left.
  - intros [Hs|(j & p & n & Ej & Hu & Hn)]%settled_snoc.
    + destruct (h_settled _ _ _ _ Hh Hs) as (j & Ej & Eg). exists j. split; [done|]. rewrite upd_other; [done|]. by intros ->.
    + assert (j = i) as -> by (rewrite <-He; by rewrite Ej). destruct (Hse _ _ Ej Hu Hn) as [Ec ->]. exists i. by rewrite upd_same.
  - intros j ph. apply (upd_cases st i x j (λ a, a = Open ph → late k j (log ++ [e]) → unserved ph)).
    + intros -> E. by apply Hla.
    + intros Hne E [Hl|(q & Eq & _)]%late_snoc; [by eapply (h_late _ _ _ _ Hh)|]. by subst e.
Qed.

(** Call [i] changes its phase, and may thereby take or give up the key. *)
Lemma history_silent k log st cur cur' i ph ph' :
  history k log st cur → st i = Open ph → stands i ph' log cur' → (late k i log → unserved ph') →
  (cur' = cur ∧ (owns ph → owns ph')) ∨
  (cur = None ∧ cur' = Some i ∧ owns ph' ∧ ∀ j, j ≠ i → st j ≠ Open PFree) ∨
  (cur = Some i ∧ cur' = None ∧ failed i log ∧ owns ph) →
  history k log (upd st i (Open ph')) cur'.
Proof.
  intros Hh Ei Hst Hla Hc. split.
  - intros e Hin. apply upd_cases; [done|]. intros _. by apply (h_born _ _ _ _ Hh).
  - apply Hh.
  - intros j Hdl. destruct (h_mine _ _ _ _ Hh j Hdl) as [Hf|Ej]; [by left|]. destruct Hc as [[-> _]|[(? & _)|(E & -> & Hf & _)]]; [by right|congruence|].
    left. assert (j = i) as -> by congruence. done.
  - intros j phj. apply (upd_cases st i (Open ph') j (λ a, a = Open phj → stands j phj log cur')).
    + by intros -> [= <-].
    + intros Hne E. pose proof (h_stands _ _ _ _ Hh j phj E) as Hs.
      destruct Hc as [[-> _]|[(-> & -> & _ & Hnf)|(-> & -> & _)]]; [done| |].
      * destruct phj; cbn [stands] in *; try done; [by destruct (Hnf j Hne)|by destruct Hs|by destruct Hs].
      * destruct phj; cbn [stands] in *; try done; [by destruct Hs|destruct Hs as [[= ->] _]; done|destruct Hs as [[= ->] _]; done].
  - intros j Ej. apply (upd_cases st i (Open ph') j (λ a, (∃ ph, a = Open ph ∧ owns ph) ∨ (a = Gone ∧ _))).
    + intros ->. left. exists ph'. split; [done|]. destruct Hc as [[-> Ho]|[(_ & _ & Ho & _)|(_ & -> & _)]]; try done.
      apply Ho. destruct (h_cur _ _ _ _ Hh i Ej) as [(ph1 & E1 & Ho1)|[E1 _]]; congruence.
    + intros Hne. destruct Hc as [[-> _]|[(_ & -> & _)|(_ & -> & _)]]; [by apply (h_cur _ _ _ _ Hh)|congruence|done].
  - intros Hs. destruct (h_settled _ _ _ _ Hh Hs) as (j & Ej & Eg).
    destruct Hc as [[-> _]|[(-> & _)|(-> & _)]]; [|done|congruence]. exists j. split; [done|]. rewrite upd_other; [done|]. congruence.
  - intros j phj. apply (upd_cases st i (Open ph') j (λ a, a = Open phj → late k j log → unserved phj)).
    + by intros -> [= <-].
    + intros _ E. by apply (h_late _ _ _ _ Hh).
Qed.

Lemma not_late_free k log st cur i ph : history k log st cur → st i = Open ph → ¬ unserved ph → ¬ late k i log.
Proof. intros Hh Ei Hn Hl. by apply Hn, (h_late _ _ _ _ Hh i). Qed.

Lemma late_settled k i log : late k i log → settled k log.
Proof. intros (a & q & b & -> & i' & p & n & Hin & Hr). exists i', p, n. split; [|done]. apply elem_of_app. by left. Qed.

Lemma history_called k log st cur i p :
  history k log st cur → st i = Unborn →
  history k (log ++ [Called i p]) (upd st i (Open (if is_under k p then PStart else POther))) cur.
Proof.
  intros Hh Ei. assert (∀ e, e ∈ log → event_call e ≠ i) as Hno.
  { intros e Hin <-. by apply (h_born _ _ _ _ Hh e Hin). }
  apply history_event; try done; [by rewrite Ei| | |].
  - intros ph [= <-]. destruct (is_under k p); [|done]. cbn [stands]. rewrite entered_snoc, app_nil_r, failed_snoc. split.
    + destruct (entered i log) as [|nm l] eqn:En; [done|]. destruct (entered_in i log nm) as (q & s & x & Hin); [rewrite En; by left|].
      by destruct (Hno _ Hin).
    + intros [(q & s & x & Hin)|(q & s & x & [=])]. by destruct (Hno _ Hin).
  - intros ->. destruct (h_cur _ _ _ _ Hh i eq_refl) as [(ph & E & _)|[E _]]; congruence.
  - intros ph [= <-] _. destruct (is_under k p); [by left|by right; right].
Qed.

(** A handler is called. *)
Lemma history_entered k log st cur i p s x all n :
  history k log st cur → is_under k p = true → st i = Open (POwn all n) → all !! n = Some s →
  history k (log ++ [Entered i p s x]) (upd st i (Open (POwn all (S n)))) cur.
Proof.
  intros Hh Hu Ei Hs. destruct (h_stands _ _ _ _ Hh i _ Ei) as (-> & Hnd & Hn & Hen & Hf).
  assert (sub_name s ∉ entered i log) as Hfresh.
  { rewrite Hen. rewrite <-(take_drop_middle _ _ _ Hs), fmap_app in Hnd. cbn in Hnd.
    apply NoDup_app in Hnd as (_ & Hdl & _). intros Hin. apply (Hdl _ Hin). by left. }
  apply history_event; try done; [by rewrite Ei| | | |].
  - intros _. split; [|done]. intros j Hne Hdl. destruct (h_mine _ _ _ _ Hh j Hdl) as [|[= ->]]; done.
  - intros ph [= <-]. cbn [stands]. split_and!; [done|done|by eapply lookup_lt_Some| |].
    + rewrite entered_snoc, Nat.eqb_refl, (take_S_r _ _ _ Hs), fmap_app, Hen. done.
    + rewrite failed_snoc. intros [|(?&?&?&[=])]; done.
  - intros _. left. by eexists.
  - intros ph [= <-] [Hl|(q & [=] & _)]%late_snoc. exfalso. apply (not_late_free _ _ _ _ _ _ Hh Ei); [|done]. by intros [|[]].
Qed.

Lemma history_entered_other k log st cur i p s x :
  history k log st cur → is_under k p = false → st i = Open POther → history k (log ++ [Entered i p s x]) (upd st i (Open POther)) cur.
Proof.
  intros Hh Hu Ei. apply history_event; try done.
  - by rewrite Ei.
  - intros Hu'. congruence.
  - intros ? ? ? [= <- <- <-]. congruence.
  - by intros ph [= <-].
  - intros ->. destruct (h_cur _ _ _ _ Hh i eq_refl) as [(ph & E & Ho)|[E _]]; [|congruence].
    rewrite Ei in E. by injection E as <-.
  - intros ph [= <-] _. by right; right.
Qed.

(** A handler answers. *)
Definition answered ph (r : result pyobj) : phase :=
  match ph, r with POwn _ _, Err _ => PDoom | _, _ => ph end.

Lemma history_left k log st cur i p s r ph :
  history k log st cur → st i = Open ph → (∃ all n, ph = POwn all n) ∨ ph = POther →
  history k (log ++ [Left i p s r]) (upd st i (Open (answered ph r))) cur.
Proof.
  intros Hh Ei Hph. pose proof (h_stands _ _ _ _ Hh i _ Ei) as Hst. apply history_event; try done; [by rewrite Ei| | |].
  - intros ph' [= <-]. destruct Hph as [(all & n & ->)| ->]; [|by destruct r]. destruct Hst as (-> & Hnd & Hn & Hen & Hf).
    destruct r as [v|x]; cbn [answered stands].
    + rewrite entered_snoc, app_nil_r, failed_snoc. split_and!; try done. by intros [|(?&?&?&[=])].
    + split; [done|]. apply failed_snoc. right. by exists p, s, x.
  - intros Ec. left. destruct (h_cur _ _ _ _ Hh i Ec) as [(ph' & E & Ho)|[E _]]; [|congruence]. rewrite Ei in E. injection E as <-.
    eexists; split; [done|]. destruct Hph as [(all & n & ->)| ->]; [by destruct r|done].
  - intros ph' [= <-] [Hl|(q & [=] & _)]%late_snoc. pose proof (h_late _ _ _ _ Hh i _ Ei Hl) as Hun.
    destruct Hph as [(all & n & ->)| ->]; [by destruct Hun as [|[]]|]. by destruct r.
Qed.

(** What a call in a phase may end with. *)
Definition ends (r : result Z) ph : Prop :=
  match ph with
  | PDup => r = Ok 0%Z
  | PFail => ∃ x, r = Err x
  | POwn all n => n = length all ∧ r = Ok (Z.of_nat n)
  | POther => True
  | _ => False
  end.

Lemma history_returned k log st cur i p r ph :
  history k log st cur → st i = Open ph → (ph = POther ↔ is_under k p = false) → ends r ph →
  history k (log ++ [Returned i p r]) (upd st i Gone) cur.
Proof.
  intros Hh Ei Hu He. pose proof (h_stands _ _ _ _ Hh i _ Ei) as Hst.
  assert (cur = Some i → ∃ all n, ph = POwn all n ∧ is_under k p = true ∧ r = Ok (Z.of_nat n)) as Hown.
  { intros Ec. destruct (h_cur _ _ _ _ Hh i Ec) as [(ph' & E & Ho)|[E _]]; [|congruence]. rewrite Ei in E. injection E as <-.
    destruct ph as [| | |all n| | |]; try done. destruct He as [-> ->]. exists all, (length all). split; [done|]. split; [|done].
    destruct (is_under k p); [done|]. discriminate (proj2 Hu eq_refl). }
  apply history_event; try done; [by rewrite Ei| | |].
  - intros Hup. split.
    + intros n ->. destruct ph as [| | |all m| | |]; try done; cbn [ends stands] in *.
      * injection He as ->. by destruct Hst as [-> _].
      * destruct He as [-> [= ->]]. destruct Hst as (_ & _ & _ & -> & _). by rewrite firstn_all, length_fmap.
      * by destruct He.
      * by rewrite (proj1 Hu eq_refl) in Hup.
    + intros Hl. destruct (h_late _ _ _ _ Hh i _ Ei Hl) as [->|[->| ->]]; cbn [ends] in He; try done.
      by rewrite (proj1 Hu eq_refl) in Hup.
  - intros Ec. right. split; [done|]. destruct (Hown Ec) as (all & n & _ & Hup & ->). exists p, (Z.of_nat n).
    split; [|done]. apply elem_of_app. right. by left.
  - intros q n [= <- ->] Hup Hn. split; [|done]. destruct ph as [| | |all m| | |]; cbn [ends stands] in *; try done.
    + by injection He as ->.
    + by destruct Hst.
    + by destruct He.
    + by rewrite (proj1 Hu eq_refl) in Hup.
Qed.

(** *** Programs and phases

    What a step on the bus may do to the key of a call in a phase. *)
Inductive moves_to : phase → bool → bool → phase → Prop :=
  | mv_dup : moves_to PStart true true PDup
  | mv_free : moves_to PStart false false PFree
  | mv_look : moves_to PFree false false PFree
  | mv_take all : NoDup (sub_name <$> all) → moves_to PFree false true (POwn all 0)
  | mv_own all n : moves_to (POwn all n) true true (POwn all n)
  | mv_drop : moves_to PDoom true false PFail
  | mv_other h : moves_to POther h h POther.

(** The key as a phase expects it. *)
Definition expects ph (h : bool) : Prop :=
  match ph with PFree => h = false | POwn _ _ | PDoom => h = true | _ => True end.

Definition bus_ok b : Prop := dict_wf (b_idempotency b) ∧ NoDup (sub_name <$> b_subscriptions b).

(** Leaving the section: a call that has found the key free and not taken it fails. *)
Inductive unlocks : phase → phase → Prop :=
  | ul_fail : unlocks PFree PFail
  | ul_same ph : ph ≠ PFree → unlocks ph ph.

Inductive enters : callback (Vd := Vd) (Hd := Hd) → bool → phase → phase → Prop :=
  | en_validate v : enters (Validating v) true PFree PFree
  | en_handle s all n : all !! n = Some s → enters (Handling s) false (POwn all n) (POwn all (S n))
  | en_other c l : enters c l POther POther.

Definition leaves (c : callback (Vd := Vd) (Hd := Hd)) ph (r : result pyobj) : phase :=
  match c with Validating _ => ph | Handling _ => answered ph r end.

(** A program that keeps to its phases, with the lock or without, and ends in [Q]. *)
Fixpoint keeps_to k {A} (Q : result A → bool → phase → Prop) (m : prog A) (l : bool) ph : Prop :=
  match m with
  | Ret r => Q r l ph
  | Acquire m => l = false ∧ keeps_to k Q m true ph
  | Release m => l = true ∧ ∃ ph', unlocks ph ph' ∧ keeps_to k Q m false ph'
  | OnBus a f =>
      l = true ∧ ∀ b, bus_ok b → expects ph (held k b) →
        bus_ok (a b) ∧ ∃ ph', moves_to ph (held k b) (held k (a b)) ph' ∧ keeps_to k Q (f b) true ph'
  | Callback c _ f => ∃ ph', enters c l ph ph' ∧ ∀ r, keeps_to k Q (f r) l (leaves c ph' r)
  end.

Lemma keeps_mono k {A} (Q R : result A → bool → phase → Prop) (m : prog A) l ph :
  (∀ r l ph, Q r l ph → R r l ph) → keeps_to k Q m l ph → keeps_to k R m l ph.
Proof.
  intros HQR. revert l ph. induction m as [r|m IH|m IH|a f IH|c j f IH]; intros l ph; cbn [keeps_to].
  - apply HQR.
  - intros [-> Hm]. split; [done|]. by apply IH.
  - intros (-> & ph' & Hu & Hm). split; [done|]. exists ph'. split; [done|]. by apply IH.
  - intros (-> & Hf). split; [done|]. intros b Hb He. destruct (Hf b Hb He) as (Hb' & ph' & Hmv & Hk). split; [done|].
    exists ph'. split; [done|]. by apply IH.
  - intros (ph' & He & Hf). exists ph'. split; [done|]. intros r. by apply IH.
Qed.

Lemma keeps_then k {A B} (Q : result B → bool → phase → Prop) (m : prog A) (f : result A → prog B) l ph :
  keeps_to k (λ r l ph, keeps_to k Q (f r) l ph) m l ph → keeps_to k Q (and_then m f) l ph.
Proof.
  revert l ph. induction m as [r|m IH|m IH|a g IH|c j g IH]; intros l ph; cbn [keeps_to and_then].
  - done.
  - intros [-> Hm]. split; [done|]. by apply IH.
  - intros (-> & ph' & Hu & Hm). split; [done|]. exists ph'. split; [done|]. by apply IH.
  - intros (-> & Hf). split; [done|]. intros b Hb He. destruct (Hf b Hb He) as (Hb' & ph' & Hmv & Hk). split; [done|].
    exists ph'. split; [done|]. by apply IH.
  - intros (ph' & He & Hf). exists ph'. split; [done|]. intros r. by apply IH.
Qed.

Lemma keeps_bind k {A B} (Q : result B → bool → phase → Prop) (m : prog A) (f : A → prog B) l ph :
  keeps_to k (λ r l ph, match r with Ok a => keeps_to k Q (f a) l ph | Err x => Q (Err x) l ph end) m l ph →
  keeps_to k Q (m ≫= f) l ph.
Proof. intros Hm. apply keeps_then. eapply keeps_mono; [|exact Hm]. by intros [a|e]. Qed.

Lemma keeps_ret_bind k {A B} (Q : result B → bool → phase → Prop) (r : result A) (f : A → prog B) l ph :
  (∀ a, r = Ok a → keeps_to k Q (f a) l ph) → (∀ x, r = Err x → Q (Err x) l ph) → keeps_to k Q (Ret r ≫= f) l ph.
Proof. destruct r as [a|e]; intros H1 H2; [by apply H1|by apply H2]. Qed.

Lemma keeps_attempt k {A} (Q : result A → bool → phase → Prop) (m : prog A) (h : exn → prog A) l ph :
  keeps_to k (λ r l ph, match r with Ok a => Q (Ok a) l ph | Err x => keeps_to k Q (h x) l ph end) m l ph →
  keeps_to k Q (attempt m h) l ph.
Proof. intros Hm. apply keeps_then. eapply keeps_mono; [|exact Hm]. by intros [a|e]. Qed.

Lemma keeps_locked k {A} (Q : result A → bool → phase → Prop) (m : prog A) ph :
  keeps_to k (λ r l ph, l = true ∧ ∃ ph', unlocks ph ph' ∧ Q r false ph') m true ph → keeps_to k Q (locked m) false ph.
Proof. intros Hm. split; [done|]. by apply keeps_then. Qed.

(** *** The programs of the bus *)

Definition quiet ph : Prop := ph = PFree ∨ ph = POther.

Lemma keeps_look k {B} (Q : result B → bool → phase → Prop) (f : bus → prog B) ph :
  quiet ph → (∀ b, bus_ok b → keeps_to k Q (f b) true ph) → keeps_to k Q (on_bus get_bus ≫= f) true ph.
Proof.
  intros Hq Hf. apply keeps_bind. split; [done|]. intros b Hb He. split; [done|]. exists ph. split; [|by apply Hf].
  cbn. destruct Hq as [-> | ->]; [|constructor]. cbn [expects] in He. rewrite He. constructor.
Qed.

Lemma filter_result_names (f : EventSubscription Hd → result bool) l l' :
  filter_result f l = Ok l' → l' ⊆ l ∧ (NoDup (sub_name <$> l) → NoDup (sub_name <$> l')).
Proof.
  revert l'. induction l as [|s l IH]; intros l'; cbn [filter_result]; [by intros [= <-]|].
  intros (x & _ & (rest & Hr & [= <-])%bind_result_ok)%bind_result_ok. destruct (IH _ Hr) as [Hin Hnd].
  destruct x; split; [set_solver +Hin| |set_solver +Hin|].
  - rewrite !fmap_cons. intros [Hn Hl]%NoDup_cons. apply NoDup_cons. split; [|by apply Hnd].
    intros (s' & E & Hs)%list_elem_of_fmap. apply Hn, list_elem_of_fmap. exists s'. split; [done|]. by apply Hin.
  - rewrite fmap_cons. intros [Hn Hl]%NoDup_cons. by apply Hnd.
Qed.

Lemma keeps_prepare k ow c v payload ph :
  quiet ph →
  keeps_to k (λ r l ph', l = true ∧ ph' = ph ∧ ∀ x, r = Ok x → snapshot_again x.1 = Ok x.1 ∧ NoDup (sub_name <$> x.2))
    (prepare_publish_locked (Sp := Sp) ow c v payload) true ph.
Proof.
  intros Hq. unfold prepare_publish_locked. apply keeps_look; [done|]. intros b Hb.
  destruct (dict_get _ _) as [d|]; [|by cbn].
  apply keeps_ret_bind; [intros _ _|by intros]. apply keeps_ret_bind; [intros _ _|by intros].
  apply keeps_ret_bind; [intros snap Hsnap|by intros]. apply keeps_bind.
  eapply (keeps_mono k (λ r l ph', l = true ∧ ph' = ph ∧ ∀ y, r = Ok y → snapshot_again y = Ok y)).
  { intros [y|x] l ph' (-> & -> & Hy); [|by cbn]. specialize (Hy y eq_refl).
    apply keeps_look; [done|]. intros b' [_ Hnd]. apply keeps_ret_bind; [|by intros]. intros subs Hsubs. split; [done|]. split; [done|].
    intros ? [= <-]. split; [done|]. apply (filter_result_names _ _ _) in Hsubs as [_ Hs]. cbn [snd]. rewrite sort_by_perm. by apply Hs. }
  destruct (ed_validator d) as [val|].
  - apply keeps_attempt. apply keeps_bind. exists ph. split; [by destruct Hq as [-> | ->]; constructor|]. intros [y|x]; [|by cbn].
    cbn [leaves]. cbn [keeps_to]. destruct (json_snapshot y) as [j|x] eqn:Ej; [|by cbn]. split; [done|]. split; [done|].
    intros ? [= <-]. by eapply snapshot_again_ok.
  - split; [done|]. split; [done|]. intros ? [= <-]. by eapply snapshot_again_ok.
Qed.

(** Delivery hands the event to each subscriber in turn. *)
Lemma keeps_deliver k (all : list (EventSubscription Hd)) (j : json) (n : nat) :
  snapshot_again j = Ok j → n ≤ length all →
  keeps_to k (λ r l ph, l = false ∧ match r with Ok z => z = Z.of_nat (length all) ∧ ph = POwn all (length all) | Err _ => ph = PDoom end)
    (deliver (drop n all) j (Z.of_nat n)) false (POwn all n).
Proof.
  intros Hj. remember (drop n all) as rest eqn:Er. revert n Er. induction rest as [|s rest IH]; intros n Er Hn; cbn [deliver].
  - assert (n = length all) as ->; [|done]. apply (f_equal length) in Er. rewrite length_drop in Er. cbn in Er. lia.
  - assert (all !! n = Some s) as Hs by (rewrite <-(Nat.add_0_r n), <-lookup_drop, <-Er; done).
    apply keeps_bind, keeps_attempt, keeps_ret_bind; [|rewrite Hj; done]. intros y Hy. rewrite Hj in Hy. injection Hy as <-.
    exists (POwn all (S n)). split; [by constructor|]. intros [v|x]; cbn [leaves answered keeps_to]; [|done].
    replace (Z.of_nat n + 1)%Z with (Z.of_nat (S n)) by lia. apply IH; [|by eapply lookup_lt_Some].
    rewrite (drop_S _ _ _ Hs) in Er. by injection Er.
Qed.

Lemma keeps_deliver_other k subs (j : json) (n : Z) :
  keeps_to k (λ _ l ph, l = false ∧ ph = POther) (deliver subs j n) false POther.
Proof.
  revert n. induction subs as [|s subs IH]; intros n; cbn [deliver]; [done|].
  apply keeps_bind, keeps_attempt, keeps_ret_bind; [|done]. intros y _. exists POther. split; [constructor|].
  intros [v|x]; cbn [leaves answered keeps_to]; [|done]. apply IH.
Qed.

(** The end of a section under the lock that does one thing. *)
Lemma keeps_section k {A} (Q : result A → bool → phase → Prop) (a : M bus A) ph ph' ph'' :
  (∀ b, bus_ok b → expects ph (held k b) → bus_ok (post a b) ∧ moves_to ph (held k b) (held k (post a b)) ph' ∧ Q (a b).1 false ph'') →
  unlocks ph' ph'' → keeps_to k Q (locked (on_bus a)) false ph.
Proof.
  intros Ha Hu. apply keeps_locked. split; [done|]. intros b Hb He. destruct (Ha b Hb He) as (Hb' & Hm & HQ). split; [done|].
  exists ph'. split; [done|]. split; [done|]. by exists ph''.
Qed.

Lemma keeps_remember k {B} (Q : result B → bool → phase → Prop) env (f : unit → prog B) ph :
  (∃ all n, ph = POwn all n) ∨ ph = POther → keeps_to k Q (f tt) false ph →
  keeps_to k Q (locked (on_bus (remember env)) ≫= f) false ph.
Proof.
  intros Hph Hf. apply keeps_bind. apply (keeps_section k _ _ ph ph ph).
  - intros b Hb He. split; [done|]. split; [|done]. destruct Hph as [(all & n & ->)| ->]; [|constructor].
    change (held k (post (remember env) b)) with (held k b). cbn [expects] in He. rewrite He. constructor.
  - constructor. by destruct Hph as [(all & n & ->)| ->].
Qed.

Lemma dict_mem_set {K U} `{EqDecision K} (d : dict K U) (j : K) (u : U) (i : K) : dict_mem (dict_set d j u) i = bool_decide (j = i) || dict_mem d i.
Proof. unfold dict_mem. rewrite dict_get_set. case_bool_decide; destruct (decide _); by simplify_eq. Qed.

Lemma reserve_held k k' b : held k (post (reserve k') b) = bool_decide (k' = k) || held k b.
Proof. unfold held. cbn. apply dict_mem_set. Qed.

Lemma release_held k k' b : dict_wf (b_idempotency b) → held k (post (release k') b) = negb (bool_decide (k' = k)) && held k b.
Proof.
  intros Hw. unfold held. cbn. unfold dict_mem. case_bool_decide as E; [subst; by rewrite dict_get_del_eq|]. by rewrite dict_get_del_ne.
Qed.

Lemma reserve_ok k b : bus_ok b → bus_ok (post (reserve k) b).
Proof. intros [Hw Hn]. split; [|done]. by apply dict_wf_set. Qed.
Lemma release_ok k b : bus_ok b → bus_ok (post (release k) b).
Proof. intros [Hw Hn]. split; [|done]. by apply dict_wf_del. Qed.

(** The end of a call of [publish]. *)
Definition done_with (r : result Z) (l : bool) ph : Prop := l = false ∧ ends r ph.

Lemma publish_keyed_keeps k p v :
  keeps_to k done_with (publish_keyed (Sp := Sp) installation check_envelope p v k) false PStart.
Proof.
  unfold publish_keyed. apply keeps_bind, keeps_locked. unfold begin_keyed. apply keeps_bind. split; [done|]. intros b Hb _.
  split; [done|]. change (held k (post get_bus b)) with (held k b). cbn [get_bus get_st fst]. fold (held k b).
  destruct (held k b) eqn:Eh.
  { exists PDup. split; [constructor|]. cbn [keeps_to]. fold (held k b). rewrite Eh. split; [done|]. exists PDup. split; [by constructor|]. by split. }
  exists PFree. split; [constructor|]. cbn [keeps_to]. fold (held k b). rewrite Eh.
  destruct (_ <=? _)%Z. { split; [done|]. exists PFail. split; [constructor|]. split; [done|]. by eexists. }
  apply keeps_bind. eapply keeps_mono; [|apply keeps_prepare; by left]. intros [[snap subs]|x] l ph (-> & -> & Hx).
  2:{ split; [done|]. exists PFail. split; [constructor|]. split; [done|]. by eexists. }
  destruct (Hx _ eq_refl) as [Hsnap Hnd]. apply keeps_ret_bind.
  2:{ intros x _. split; [done|]. exists PFail. split; [constructor|]. split; [done|]. by eexists. }
  intros env _. apply keeps_bind. split; [done|]. intros b' Hb' He. split; [by apply reserve_ok|]. exists (POwn subs 0).
  cbn [expects] in He. rewrite reserve_held, He, bool_decide_true by done. split; [by constructor|]. cbn [keeps_to reserve modify_st fst].
  split; [done|]. exists (POwn subs 0). split; [by constructor|]. cbn [snd fst] in *. apply keeps_bind, keeps_attempt.
  eapply keeps_mono; [|apply (keeps_deliver k subs snap 0); [done|lia]]. intros [z|x] l ph (-> & Hz).
  - destruct Hz as [-> ->]. apply keeps_remember; [by left; eauto|]. split; [done|]. by split.
  - subst ph. apply keeps_bind. apply (keeps_section k _ _ PDoom PFail PFail); [|by constructor]. intros b2 Hb2 He2.
    split; [by apply release_ok|]. cbn [expects] in He2. destruct Hb2 as [Hw _].
    rewrite release_held, He2, bool_decide_true by done. split; [constructor|]. split; [done|]. by eexists.
Qed.

Lemma publish_unkeyed_keeps k p v :
  keeps_to k done_with (publish_unkeyed (Sp := Sp) installation check_envelope p v) false POther.
Proof.
  unfold publish_unkeyed. apply keeps_bind, keeps_locked. eapply keeps_mono; [|apply keeps_prepare; by right].
  intros [[snap subs]|x] l ph (-> & -> & _); (split; [done|]; exists POther; split; [by constructor|]); [|by split].
  apply keeps_ret_bind; [|by split]. intros env _. apply keeps_bind. eapply keeps_mono; [|apply keeps_deliver_other].
  intros [z|x] l ph (-> & ->); [|by split]. apply keeps_remember; [by right|]. by split.
Qed.

Lemma publish_keyed_other k k' p v :
  k' ≠ k → keeps_to k done_with (publish_keyed (Sp := Sp) installation check_envelope p v k') false POther.
Proof.
  intros Hne. assert (∀ x, done_with (Err x) false POther) as Herr by (by split).
  unfold publish_keyed. apply keeps_bind, keeps_locked. unfold begin_keyed. apply keeps_look; [by right|]. intros b _.
  assert (unlocks POther POther) as Hu by (by constructor).
  destruct (dict_mem _ _). { split; [done|]. exists POther. by repeat split. }
  destruct (_ <=? _)%Z. { split; [done|]. exists POther. by repeat split. }
  apply keeps_bind. eapply keeps_mono; [|apply keeps_prepare; by right]. intros [[snap subs]|x] l ph (-> & -> & _).
  2:{ split; [done|]. exists POther. by repeat split. }
  apply keeps_ret_bind; [|intros x _; split; [done|]; exists POther; by repeat split].
  intros env _. apply keeps_bind. split; [done|]. intros b' Hb' _. split; [by apply reserve_ok|]. exists POther.
  rewrite reserve_held, bool_decide_false by done. split; [constructor|]. cbn [keeps_to reserve modify_st fst].
  split; [done|]. exists POther. split; [done|]. apply keeps_bind, keeps_attempt.
  eapply keeps_mono; [|apply keeps_deliver_other]. intros [z|x] l ph (-> & ->).
  - apply keeps_remember; [by right|]. by split.
  - apply keeps_bind. apply (keeps_section k _ _ POther POther POther); [|done]. intros b2 Hb2 _. split; [by apply release_ok|].
    destruct Hb2 as [Hw _]. rewrite release_held, bool_decide_false by done. split; [constructor|]. by split.
Qed.

Definition born k p : phase := if is_under k p then PStart else POther.

(** [publish] keeps to its phases. *)
Lemma publish_keeps k p : keeps_to k done_with (publishp p) false (born k p).
Proof.
  unfold born, is_under, reservation_of, publish.
  destruct (validate_owner (pu_owner p)) as [ow|x]; [|by split]. destruct (validate_contract_name (pu_contract p)) as [c|x]; [|by split].
  destruct (Contracts.version (pu_version p)) as [v|x]; [|by split]. cbn [mbind result_bind]. do 3 (apply keeps_ret_bind; [intros ? [= <-]|done]).
  destruct (pu_idempotency_key p) as [key|]; [|apply publish_unkeyed_keeps].
  destruct (check_idempotency_key key) as [key'|x]; [|by split]. cbn [mbind result_bind]. apply keeps_ret_bind; [intros ? [= <-]|done].
  case_bool_decide as E; [subst k; apply publish_keyed_keeps|by apply publish_keyed_other].
Qed.

(** The other methods leave the key alone, unless they drop its owner. *)
Definition drops (owner : string) (mv : move) : bool :=
  match mv with Do _ (OpDrop ow) => String.eqb ow owner | _ => false end.

Lemma subscribe_names l sub :
  existsb (same_subscription (es_subscriber sub) (es_contract sub) (es_version sub)) l = false →
  NoDup (sub_name <$> l) → NoDup (sub_name <$> (l ++ [sub])).
Proof.
  intros Hno Hl. rewrite fmap_app. apply NoDup_app. split; [done|]. split; [|apply NoDup_singleton].
  intros nm (s & -> & Hin)%list_elem_of_fmap Hs%list_elem_of_singleton. assert (existsb (same_subscription (es_subscriber sub) (es_contract sub) (es_version sub)) l = true); [|congruence].
  apply existsb_exists. exists s. split; [by apply list_elem_of_In|]. unfold same_subscription. injection Hs as -> -> ->. by rewrite !String.eqb_refl.
Qed.

Lemma filter_names (f : EventSubscription Hd → bool) l : NoDup (sub_name <$> l) → NoDup (sub_name <$> List.filter f l).
Proof.
  intros Hl. eapply (filter_result_names (λ s, Ok (f s)) l); [|done]. clear Hl. induction l as [|s l IH]; [done|]. cbn. rewrite IH.
  by destruct (f s).
Qed.

Lemma run_op_keeps k o b :
  (∀ t, drops k.1.1 (Do t o) = false) → bus_ok b →
  bus_ok (run_op (Sp := Sp) o b) ∧ held k (run_op (Sp := Sp) o b) = held k b.
Proof.
  intros Hdr [Hw Hn]. destruct o as [ow c v val|s c v hd pr|ow|ow act]; cbn [run_op]; unfold post.
  - unfold declare. rewrite run_bind_lift. destruct (validate_owned_contract ow c) as [oc|]; [|done].
    rewrite run_bind_lift. destruct (Contracts.version v) as [v'|]; [|done]. rewrite run_bind. cbn [get_bus get_st].
    by destruct (dict_mem _ _).
  - unfold subscribe, raise_if. rewrite run_bind_lift. destruct (validate_owner s) as [s'|] eqn:Es; [|done].
    rewrite run_bind_lift. destruct (validate_contract_name c) as [c'|]; [|done]. rewrite run_bind_lift. destruct (specifier v); [|done].
    rewrite run_bind_lift. destruct (fail_if _ _ _); [|done]. rewrite run_bind. cbn [get_bus get_st].
    rewrite run_bind_lift. destruct (fail_if _ _ _); [|done]. rewrite run_bind_lift.
    destruct (existsb (same_subscription s' c' v) _) eqn:Ex; [done|]. cbn [fail_if]. rewrite run_bind. cbn [put_bus put_st].
    split; [|done]. split; [done|]. by apply (subscribe_names _ (Subscription s' c' v hd pr true)).
  - unfold drop_owner. rewrite run_bind_lift. destruct (validate_owner ow) as [ow'|] eqn:Eo; [|done].
    apply validate_owner_ok in Eo as [-> _]. rewrite run_bind. cbn [get_bus get_st]. rewrite run_bind. cbn [put_bus put_st].
    split; [split; [by apply dict_filter_wf|by apply filter_names]|]. unfold held. cbn [b_idempotency snd mret M_ret].
    apply eq_true_iff_eq. rewrite !dict_mem_true. unfold dict_keys. rewrite !list_elem_of_fmap. split.
    + intros (e & -> & [Hin _]%filter_in). by exists e.
    + intros ([k' []] & -> & Hin). exists (k', ()). split; [done|]. apply filter_in. split; [done|].
      specialize (Hdr 0). unfold reserved_by. cbn [drops fst] in *. rewrite String.eqb_sym. by rewrite Hdr.
  - unfold set_owner_active. rewrite run_bind_lift. destruct (validate_owner ow) as [ow'|]; [|done]. rewrite run_bind. cbn [get_bus get_st].
    rewrite run_bind. cbn [put_bus put_st]. split; [|done]. split; [done|]. cbn [b_subscriptions snd mret M_ret].
    rewrite <-list_fmap_compose. erewrite list_fmap_ext; [exact Hn|]. intros _ s _. unfold compose. by destruct (subscription_to_change _ _ _).
Qed.

(** *** Machines

    The steps on the bus, as steps of the history. *)
Lemma stands_expects k log st cur i ph :
  history k log st cur → st i = Open ph → expects ph (bool_decide (is_Some cur)).
Proof.
  intros Hh Ei. pose proof (h_stands _ _ _ _ Hh i _ Ei) as Hs. destruct ph; cbn [stands expects] in *; try done.
  - by destruct Hs as [-> _].
  - by destruct Hs as [-> _].
  - by destruct Hs as [-> _].
Qed.

Lemma history_moves k log st cur i ph h' ph' :
  history k log st cur → st i = Open ph → moves_to ph (bool_decide (is_Some cur)) h' ph' →
  (ph = PFree → ∀ j, j ≠ i → st j ≠ Open PFree) →
  ∃ cur', history k log (upd st i (Open ph')) cur' ∧ h' = bool_decide (is_Some cur').
Proof.
  intros Hh Ei Hm Hx. pose proof (h_stands _ _ _ _ Hh i _ Ei) as Hs. remember (bool_decide (is_Some cur)) as h eqn:Eh.
  destruct Hm; cbn [stands] in *.
  - exists cur. split; [|done]. eapply history_silent; [done..| |by left]. by right; left.
  - assert (cur = None) as -> by (by destruct cur). exists None. split; [|done]. eapply history_silent; [done|done|done| |by left].
    intros Hl%late_settled. by destruct (h_settled _ _ _ _ Hh Hl) as (? & ? & _).
  - exists cur. split; [|done]. eapply history_silent; [done..| |by left]. by apply (h_late _ _ _ _ Hh).
  - destruct Hs as (-> & He & Hf). exists (Some i). split; [|done]. eapply history_silent; [done|done| | |].
    + cbn [stands]. split_and!; [done|done|lia|by rewrite He|done].
    + intros Hl%(h_late _ _ _ _ Hh i _ Ei). by destruct Hl as [|[]].
    + right. left. split_and!; [done|done|done|by apply Hx].
  - exists cur. split; [|done]. eapply history_silent; [done..| |by left]. by apply (h_late _ _ _ _ Hh).
  - destruct Hs as [-> Hf]. exists None. split; [|done]. eapply history_silent; [done|done|done| |].
    + intros Hl%(h_late _ _ _ _ Hh i _ Ei). by destruct Hl as [|[]].
    + right. right. by split_and!.
  - exists cur. split; [|done]. eapply history_silent; [done..| |by left]. by apply (h_late _ _ _ _ Hh).
Qed.

Lemma history_unlocks k log st cur i ph ph' :
  history k log st cur → st i = Open ph → unlocks ph ph' → history k log (upd st i (Open ph')) cur.
Proof.
  intros Hh Ei Hu. pose proof (h_stands _ _ _ _ Hh i _ Ei) as Hs. eapply history_silent; [done|done| | |].
  - by destruct Hu.
  - intros Hl%(h_late _ _ _ _ Hh i _ Ei). destruct Hu; [by destruct Hl as [|[]]|done].
  - left. split; [done|]. by destruct Hu.
Qed.

Implicit Types (lk : nat → bool).
Abbreviation open_call := (open_call (V := V) (Vd := Vd) (Hd := Hd) (Sc := Sc) (Re := Re)).
Implicit Types (c : open_call).

(** An open call: its code keeps to its phase; in a callback, what follows it does. *)
Definition call_ok k c (l : bool) ph : Prop :=
  (ph = POther ↔ is_under k (oc_publication c) = false) ∧ (ph = PFree → l = true) ∧
  if oc_inside c
  then ∃ cb (x : json) f, oc_code c = Callback cb x f ∧ (∀ r, keeps_to k done_with (f r) l (leaves cb ph r)) ∧
       match cb with Validating _ => True | Handling _ => (∃ all n, ph = POwn all n) ∨ ph = POther end
  else keeps_to k done_with (oc_code c) l ph.

Definition locks lk (l : list nat) : nat := length (List.filter lk l).

(** The lock: its thread has the calls in a section, and it is as deep as they are many. *)
Definition lock_ok (lock : option (nat * nat)) (calls : gmap nat open_call) (stacks : gmap nat (list nat)) lk : Prop :=
  match lock with
  | None => ∀ i c, calls !! i = Some c → lk i = false
  | Some (t, d) => d = locks lk (default [] (stacks !! t)) ∧ ∀ i c, calls !! i = Some c → lk i = true → oc_thread c = t
  end.

Record inv k σ st lk cur : Prop := {
  v_bus : bus_ok (m_bus σ);
  v_held : held k (m_bus σ) = bool_decide (is_Some cur);
  v_hist : history k (m_log σ) st cur;
  v_call : ∀ i c, m_calls σ !! i = Some c → ∃ ph, st i = Open ph ∧ call_ok k c (lk i) ph;
  v_open : ∀ i ph, st i = Open ph → is_Some (m_calls σ !! i);
  v_next : ∀ i, m_next σ ≤ i → st i = Unborn;
  v_stack : ∀ t i, i ∈ stack σ t ↔ ∃ c, m_calls σ !! i = Some c ∧ oc_thread c = t;
  v_nodup : ∀ t, NoDup (stack σ t);
  v_below : ∀ t i l j c, stack σ t = i :: l → j ∈ l → m_calls σ !! j = Some c → oc_inside c = true;
  v_lock : lock_ok (m_lock σ) (m_calls σ) (m_stacks σ) lk;
  v_above : ∀ t l1 j l2 i, stack σ t = l1 ++ j :: l2 → st j = Open PFree → i ∈ l1 → st i = Open POther;
}.

Lemma locks_upd lk i x l : i ∉ l → locks (upd lk i x) l = locks lk l.
Proof.
  intros Hi. unfold locks. f_equal. induction l as [|j l IH]; [done|]. apply not_elem_of_cons in Hi as [Hne Hi]. cbn [List.filter].
  rewrite upd_other by done. by rewrite IH.
Qed.

Lemma locks_cons lk i l : locks lk (i :: l) = if lk i then S (locks lk l) else locks lk l.
Proof. unfold locks. cbn. by destruct (lk i). Qed.

Lemma locks_zero lk l i : locks lk l = 0 → i ∈ l → lk i = false.
Proof.
  intros E Hi. destruct (lk i) eqn:El; [|done]. unfold locks in E. apply length_zero_iff_nil in E.
  assert (i ∈ List.filter lk l) as Hin by (by apply filter_in). rewrite E in Hin. by apply not_elem_of_nil in Hin.
Qed.

(** The innermost call of a thread in a section under the lock, over a call that has found the key free. *)
Lemma section_alone k σ st lk cur t i l j :
  inv k σ st lk cur → stack σ t = i :: l → lk i = true → j ≠ i → st j = Open PFree → st i = Open POther.
Proof.
  intros Hv Es Hi Hne Hj. destruct (v_open _ _ _ _ _ Hv j _ Hj) as [cj Ej].
  destruct (v_call _ _ _ _ _ Hv j cj Ej) as (ph & E & _ & Hl & _). assert (ph = PFree) as -> by congruence. specialize (Hl eq_refl).
  destruct (proj1 (v_stack _ _ _ _ _ Hv t i)) as (ci & Ei & Et); [rewrite Es; by left|].
  pose proof (v_lock _ _ _ _ _ Hv) as Hk. unfold lock_ok in Hk. destruct (m_lock σ) as [[t' d]|]; [|rewrite (Hk i ci Ei) in Hi; done].
  destruct Hk as [_ Hk]. assert (oc_thread cj = t) as Ejt by (by rewrite (Hk j cj Ej Hl), <-(Hk i ci Ei Hi)).
  assert (j ∈ stack σ t) as Hin by (apply (v_stack _ _ _ _ _ Hv); eauto). rewrite Es in Hin. apply elem_of_cons in Hin as [|Hin]; [done|].
  apply list_elem_of_split in Hin as (l1 & l2 & ->). apply (v_above _ _ _ _ _ Hv t (i :: l1) j l2 i); [by rewrite Es|done|by left].
Qed.

(** A step of the innermost call of a thread. *)
Lemma inv_update k σ st lk cur t i l c ph ph' b' lock' log' code inside l' cur' :
  inv k σ st lk cur → stack σ t = i :: l → m_calls σ !! i = Some c → st i = Open ph → (ph = POther → ph' = POther) →
  history k log' (upd st i (Open ph')) cur' → bus_ok b' → held k b' = bool_decide (is_Some cur') →
  let c' := OpenCall (oc_thread c) (oc_publication c) code inside in
  call_ok k c' l' ph' → lock_ok lock' (<[i := c']> (m_calls σ)) (m_stacks σ) (upd lk i l') →
  inv k (Machine b' lock' (<[i := c']> (m_calls σ)) (m_stacks σ) (m_next σ) log') (upd st i (Open ph')) (upd lk i l') cur'.
Proof.
  intros Hv Es Ec Ei Hpo Hh Hb Hk c' Hc Hlk. split; cbn [m_bus m_lock m_calls m_stacks m_next m_log]; try done.
  - intros j cj [[<- <-]|[Hne Ej]]%lookup_insert_Some; [exists ph'; by rewrite !upd_same|]. rewrite !upd_other by done. by apply (v_call _ _ _ _ _ Hv).
  - intros j phj. destruct (decide (j = i)) as [->|Hne]; [by rewrite lookup_insert_eq|]. rewrite upd_other, lookup_insert_ne by done.
    by apply (v_open _ _ _ _ _ Hv).
  - intros j Hj. rewrite upd_other; [by apply (v_next _ _ _ _ _ Hv)|]. intros ->. rewrite (v_next _ _ _ _ _ Hv i Hj) in Ei. done.
  - intros t' j. change (stack _ t') with (stack σ t'). rewrite (v_stack _ _ _ _ _ Hv). split.
    + intros (cj & Ej & <-). destruct (decide (j = i)) as [->|Hne]; [exists c'; rewrite lookup_insert_eq; by simplify_eq|].
      exists cj. by rewrite lookup_insert_ne.
    + intros (cj & [[<- <-]|[Hne Ej]]%lookup_insert_Some & <-); [by exists c|by exists cj].
  - apply (v_nodup _ _ _ _ _ Hv).
  - intros t' i' l0 j cj E Hin [[<- <-]|[Hne Ej]]%lookup_insert_Some; [|by eapply (v_below _ _ _ _ _ Hv)]. exfalso.
    change (stack σ t' = i' :: l0) in E. assert (i ∈ stack σ t') as Hin' by (rewrite E; by right).
    assert (t' = t) as ->.
    { apply (v_stack _ _ _ _ _ Hv) in Hin' as (c1 & E1 & <-). assert (i ∈ stack σ t) as Hit by (rewrite Es; by left).
      apply (v_stack _ _ _ _ _ Hv) in Hit as (c2 & E2 & <-). congruence. }
    rewrite Es in E. injection E as <- <-. pose proof (v_nodup _ _ _ _ _ Hv t) as Hnd. rewrite Es in Hnd. by apply NoDup_cons in Hnd as [? _].
  - intros t' l1 j l2 i' E. change (stack σ t' = l1 ++ j :: l2) in E.
    assert (i ∈ l1 ++ j :: l2 → t' = t) as Hth.
    { rewrite <-E. intros Hin'. apply (v_stack _ _ _ _ _ Hv) in Hin' as (c1 & E1 & <-). assert (i ∈ stack σ t) as Hit by (rewrite Es; by left).
      apply (v_stack _ _ _ _ _ Hv) in Hit as (c2 & E2 & <-). congruence. }
    destruct (decide (j = i)) as [->|Hne].
    + intros _ Hin. exfalso. assert (t' = t) as -> by (apply Hth, elem_of_app; right; by left). pose proof (v_nodup _ _ _ _ _ Hv t) as Hnd.
      rewrite Es in E, Hnd. destruct l1 as [|i1 l1]; [by apply not_elem_of_nil in Hin|]. injection E as -> ->. apply NoDup_cons in Hnd as [Hn _].
      apply Hn, elem_of_app. right. by left.
    + rewrite upd_other by done. intros Ej Hin. pose proof (v_above _ _ _ _ _ Hv t' l1 j l2 i' E Ej Hin) as Eo.
      destruct (decide (i' = i)) as [->|Hne']; [|by rewrite upd_other]. rewrite upd_same. f_equal. apply Hpo. congruence.
Qed.

Lemma locks_ext lk lk' l : (∀ i, lk i = lk' i) → locks lk l = locks lk' l.
Proof. intros E. unfold locks. f_equal. induction l as [|j l IH]; [done|]. cbn. by rewrite E, IH. Qed.

Lemma upd_id {A} (f : nat → A) i j : upd f i (f i) j = f j.
Proof. unfold upd. by destruct (Nat.eqb_spec j i) as [->|]. Qed.

Lemma lock_same lock calls stacks lk i c code inside :
  lock_ok lock calls stacks lk → calls !! i = Some c →
  lock_ok lock (<[i := OpenCall (oc_thread c) (oc_publication c) code inside]> calls) stacks (upd lk i (lk i)).
Proof.
  intros Hk Ec. unfold lock_ok in *. destruct lock as [[t d]|].
  - destruct Hk as [-> Hk]. split; [apply locks_ext; intros; by rewrite upd_id|]. intros j cj [[<- <-]|[Hne Ej]]%lookup_insert_Some; rewrite upd_id.
    + cbn. by apply Hk.
    + by apply Hk.
  - intros j cj [[<- <-]|[Hne Ej]]%lookup_insert_Some; rewrite upd_id; by eapply Hk.
Qed.

Lemma history_same k log st cur i ph : history k log st cur → st i = Open ph → history k log (upd st i (Open ph)) cur.
Proof.
  intros Hh Ei. eapply history_silent; [done|done|by apply (h_stands _ _ _ _ Hh)|by apply (h_late _ _ _ _ Hh)|by left].
Qed.

Ltac update := unfold with_lock, with_bus, with_event, with_code; cbn [m_bus m_lock m_calls m_stacks m_next m_log]; eapply inv_update.

Section step.
Context k σ st lk cur t i l c (Hv : inv k σ st lk cur) (Es : stack σ t = i :: l) (Ec : m_calls σ !! i = Some c).

Lemma top_thread : oc_thread c = t.
Proof.
  assert (i ∈ stack σ t) as Hit by (rewrite Es; by left). apply (v_stack _ _ _ _ _ Hv) in Hit as (c2 & E2 & E). congruence.
Qed.

Lemma top_fresh : i ∉ l.
Proof. pose proof (v_nodup _ _ _ _ _ Hv t) as Hn. rewrite Es in Hn. by apply NoDup_cons in Hn as [? _]. Qed.

Lemma inv_acquire m ph :
  oc_inside c = false → oc_code c = Acquire m → st i = Open ph → call_ok k c (lk i) ph → lock_for σ t = true →
  ∃ st' lk', inv k (with_lock (Some (t, S (lock_depth σ))) (with_code i c m false σ)) st' lk' cur.
Proof.
  intros Hin Hm Ei (Hu & Hf & Hc) Hfor. rewrite Hin, Hm in Hc. destruct Hc as [El Hc]. rewrite El in *.
  exists (upd st i (Open ph)), (upd lk i true). update; [done..| | | | |].
  - apply history_same; [apply Hv|done].
  - apply Hv.
  - apply Hv.
  - by split.
  - pose proof (v_lock _ _ _ _ _ Hv) as Hk. unfold lock_for, lock_depth in *. unfold lock_ok in *. fold (stack σ t).
    rewrite Es, locks_cons, upd_same, locks_upd by apply top_fresh. destruct (m_lock σ) as [[t' d]|].
    + apply Nat.eqb_eq in Hfor as ->. destruct Hk as [-> Hk]. fold (stack σ t). rewrite Es, locks_cons, El. split; [done|].
      intros j cj [[<- <-]|[Hne Ej]]%lookup_insert_Some; [intros _; apply top_thread|]. rewrite upd_other by done. by apply Hk.
    + split.
      * f_equal. symmetry. apply length_zero_iff_nil. destruct (List.filter lk l) as [|j l'] eqn:E; [done|].
        assert (j ∈ List.filter lk l) as [Hj Hlj]%filter_in by (rewrite E; by left).
        assert (j ∈ stack σ t) as (cj & Ej & _)%(v_stack _ _ _ _ _ Hv) by (rewrite Es; by right). rewrite (Hk j cj Ej) in Hlj. done.
      * intros j cj [[<- <-]|[Hne Ej]]%lookup_insert_Some; [intros _; apply top_thread|]. rewrite upd_other by done.
        intros Hlj. by rewrite (Hk j cj Ej) in Hlj.
Qed.

Lemma inv_release m ph :
  oc_inside c = false → oc_code c = Release m → st i = Open ph → call_ok k c (lk i) ph →
  ∃ st' lk', inv k (with_lock (if (lock_depth σ <=? 1)%nat then None else Some (t, pred (lock_depth σ))) (with_code i c m false σ)) st' lk' cur.
Proof.
  intros Hin Hm Ei (Hu & Hf & Hc). rewrite Hin, Hm in Hc. destruct Hc as (El & ph' & Hul & Hc).
  exists (upd st i (Open ph')), (upd lk i false). update; [done..| | | | | |].
  - intros ->. by inversion Hul.
  - eapply history_unlocks; [apply Hv|done|done].
  - apply Hv.
  - apply Hv.
  - split; [rewrite <-Hu; by inversion Hul; subst|]. split; [|done]. by inversion Hul; subst.
  - pose proof (v_lock _ _ _ _ _ Hv) as Hk. unfold lock_depth. unfold lock_ok in Hk.
    destruct (m_lock σ) as [[t' d]|]; [|by rewrite (Hk i c Ec) in El]. destruct Hk as [-> Hk].
    assert (t' = t) as -> by (rewrite <-(Hk i c Ec El); apply top_thread). fold (stack σ t). rewrite Es, locks_cons, El.
    destruct (Nat.leb_spec (S (locks lk l)) 1) as [Hle|Hlt]; unfold lock_ok.
    + intros j cj [[<- <-]|[Hne Ej]]%lookup_insert_Some; [apply upd_same|]. rewrite upd_other by done. destruct (lk j) eqn:Elj; [|done].
      rewrite <-Elj. apply (locks_zero lk l); [lia|]. assert (j ∈ stack σ t) as Hjt by (apply (v_stack _ _ _ _ _ Hv); exists cj; split; [done|by eapply Hk]).
      rewrite Es in Hjt. by apply elem_of_cons in Hjt as [|].
    + fold (stack σ t). rewrite Es, locks_cons, upd_same, locks_upd by apply top_fresh. split; [done|].
      intros j cj [[<- <-]|[Hne Ej]]%lookup_insert_Some; [intros _; apply top_thread|]. rewrite upd_other by done. by apply Hk.
Qed.

Lemma inv_on_bus m f ph :
  oc_inside c = false → oc_code c = OnBus m f → st i = Open ph → call_ok k c (lk i) ph →
  ∃ st' lk' cur', inv k (with_bus (m (m_bus σ)) (with_code i c (f (m_bus σ)) false σ)) st' lk' cur'.
Proof.
  intros Hin Hm Ei (Hu & Hf & Hc). rewrite Hin, Hm in Hc. destruct Hc as (El & Hc).
  destruct (Hc (m_bus σ) (v_bus _ _ _ _ _ Hv)) as (Hb & ph' & Hmv & Hk).
  { rewrite (v_held _ _ _ _ _ Hv). eapply stands_expects; [apply Hv|done]. }
  rewrite (v_held _ _ _ _ _ Hv) in Hmv. destruct (history_moves _ _ _ _ _ _ _ _ (v_hist _ _ _ _ _ Hv) Ei Hmv) as (cur' & Hh & Eh).
  { intros -> j Hne Ej. pose proof (section_alone _ _ _ _ _ _ _ _ _ Hv Es El Hne Ej). congruence. }
  exists (upd st i (Open ph')), (upd lk i (lk i)), cur'. update; [done..| | | | | |].
  - intros ->. by inversion Hmv.
  - done.
  - done.
  - done.
  - split; [rewrite <-Hu; by inversion Hmv; subst|]. split; [done|]. cbn [oc_inside oc_code]. by rewrite El.
  - apply lock_same; [apply Hv|done].
Qed.

Lemma inv_enter cb x f ph :
  oc_inside c = false → oc_code c = Callback cb x f → st i = Open ph → call_ok k c (lk i) ph →
  ∃ st' lk', inv k
    (match cb with
     | Validating _ => with_code i c (oc_code c) true σ
     | Handling s => with_event (Entered i (oc_publication c) s x) (with_code i c (oc_code c) true σ)
     end) st' lk' cur.
Proof.
  intros Hin Hm Ei (Hu & Hf & Hc). rewrite Hin, Hm in Hc. destruct Hc as (ph' & He & Hc).
  exists (upd st i (Open ph')), (upd lk i (lk i)). assert (ph = POther → ph' = POther) as Hpo by (intros ->; by inversion He).
  assert (call_ok k (OpenCall (oc_thread c) (oc_publication c) (oc_code c) true) (lk i) ph') as Hok.
  { split; [rewrite <-Hu; by inversion He; subst|]. split; [intros ->; apply Hf; by inversion He|]. exists cb, x, f. split; [done|]. split; [done|].
    destruct cb; [done|]. inversion He; [left; eauto|by right]. }
  destruct cb as [v|s]; (update; [done..| | | |exact Hok|apply lock_same; [apply Hv|done]]); try apply Hv.
  - inversion He; subst; apply history_same; by try apply Hv.
  - inversion He as [|? all n Hs E1 E2|]; subst.
    + eapply history_entered; [apply Hv| |done|done]. destruct (is_under k (oc_publication c)); [done|]. discriminate (proj2 Hu eq_refl).
    + apply history_entered_other; [apply Hv|by apply Hu|done].
Qed.

Lemma inv_answer r σ' ph :
  oc_inside c = true → st i = Open ph → call_ok k c (lk i) ph → answer i c r σ = Some σ' → ∃ st' lk', inv k σ' st' lk' cur.
Proof.
  intros Hin Ei (Hu & Hf & Hc) Ha. rewrite Hin in Hc. destruct Hc as (cb & x & f & Em & Hc & Hcb). unfold answer in Ha. rewrite Em in Ha.
  exists (upd st i (Open (leaves cb ph r))), (upd lk i (lk i)).
  assert (ph = POther → leaves cb ph r = POther) as Hpo by (intros ->; by destruct cb, r).
  assert (call_ok k (OpenCall (oc_thread c) (oc_publication c) (f r) false) (lk i) (leaves cb ph r)) as Hok.
  { split; [rewrite <-Hu; by destruct cb, ph, r|]. split; [|apply Hc]. intros E. apply Hf. by destruct cb, ph, r. }
  destruct cb as [v|s]; injection Ha as <-; (update; [done..| | | |exact Hok|apply lock_same; [apply Hv|done]]); try apply Hv.
  - apply history_same; [apply Hv|done].
  - apply history_left; [apply Hv|done|done].
Qed.
End step.

(** The call is inside the validator of a publication under the key. *)
Definition validating k σ i : bool :=
  match m_calls σ !! i with
  | Some c => is_under k (oc_publication c) && oc_inside c && match oc_code c with Callback (Validating _) _ _ => true | _ => false end
  | None => false
  end.

(** A validator of a publication under the key publishes under the key. *)
Definition validates_again k (mv : move) σ : bool :=
  match mv with Publish t p => is_under k p && existsb (validating k σ) (stack σ t) | _ => false end.

Fixpoint validated_again k (moves : list move) σ : bool :=
  match moves with
  | [] => false
  | mv :: moves => validates_again k mv σ || match stepp mv σ with Some σ' => validated_again k moves σ' | None => false end
  end.

Lemma inv_return k σ st lk cur t i l c r :
  inv k σ st lk cur → stack σ t = i :: l → m_calls σ !! i = Some c → oc_inside c = false → oc_code c = Ret r →
  inv k (with_event (Returned i (oc_publication c) r)
           (Machine (m_bus σ) (m_lock σ) (delete i (m_calls σ)) (<[t := l]> (m_stacks σ)) (m_next σ) (m_log σ))) (upd st i Gone) lk cur.
Proof.
  intros Hv Es Ec Hin Hr. destruct (v_call _ _ _ _ _ Hv i c Ec) as (ph & Ei & Hu & Hf & Hc). rewrite Hin, Hr in Hc. destruct Hc as [El He].
  pose proof (top_thread _ _ _ _ _ _ _ _ _ Hv Es Ec) as Ht. pose proof (top_fresh _ _ _ _ _ _ _ _ Hv Es) as Hfr.
  assert (∀ t', stack (Machine (m_bus σ) (m_lock σ) (delete i (m_calls σ)) (<[t:=l]> (m_stacks σ)) (m_next σ) (m_log σ)) t' =
    if decide (t' = t) then l else stack σ t') as Hstack.
  { intros t'. unfold stack. cbn [m_stacks]. destruct (decide (t' = t)) as [->|]; [by rewrite lookup_insert_eq|by rewrite lookup_insert_ne]. }
  assert (∀ t', i ∉ if decide (t' = t) then l else stack σ t') as Hout.
  { intros t'. destruct (decide (t' = t)) as [->|Hne]; [done|]. rewrite (v_stack _ _ _ _ _ Hv). intros (c' & E & E'). congruence. }
  assert (∀ t' x, (x ∈ if decide (t' = t) then l else stack σ t') → x ∈ stack σ t') as Hsub.
  { intros t' x. destruct (decide (t' = t)) as [->|]; [|done]. rewrite Es. by right. }
  unfold with_event. cbn [m_bus m_lock m_calls m_stacks m_next m_log]. split; cbn [m_bus m_lock m_calls m_stacks m_next m_log]; try apply Hv.
  - by eapply history_returned; [apply Hv|..].
  - intros j cj [Hne Ej]%lookup_delete_Some. rewrite upd_other by done. by apply (v_call _ _ _ _ _ Hv).
  - intros j phj. destruct (decide (j = i)) as [->|Hne]; [by rewrite upd_same|]. rewrite upd_other, lookup_delete_ne by done.
    by apply (v_open _ _ _ _ _ Hv).
  - intros j Hj. rewrite upd_other; [by apply (v_next _ _ _ _ _ Hv)|]. intros ->. rewrite (v_next _ _ _ _ _ Hv i Hj) in Ei. done.
  - intros t' j. change (stack _ t') with (stack (Machine (m_bus σ) (m_lock σ) (delete i (m_calls σ)) (<[t:=l]> (m_stacks σ)) (m_next σ) (m_log σ)) t').
    rewrite Hstack. split.
    + intros Hj. destruct (proj1 (v_stack _ _ _ _ _ Hv t' j) (Hsub _ _ Hj)) as (cj & Ej & Et). exists cj. split; [|done].
      apply lookup_delete_Some. split; [|done]. intros <-. by apply (Hout t').
    + intros (cj & [Hne Ej]%lookup_delete_Some & Et). assert (j ∈ stack σ t') as Hj by (apply (v_stack _ _ _ _ _ Hv); eauto).
      destruct (decide (t' = t)) as [->|]; [|done]. rewrite Es in Hj. apply elem_of_cons in Hj as [|]; [congruence|done].
  - intros t'. change (stack _ t') with (stack (Machine (m_bus σ) (m_lock σ) (delete i (m_calls σ)) (<[t:=l]> (m_stacks σ)) (m_next σ) (m_log σ)) t').
    rewrite Hstack. pose proof (v_nodup _ _ _ _ _ Hv t') as Hn. destruct (decide (t' = t)) as [->|]; [|done]. rewrite Es in Hn. by apply NoDup_cons in Hn as [_ ?].
  - intros t' i' l0 j cj. change (stack _ t') with (stack (Machine (m_bus σ) (m_lock σ) (delete i (m_calls σ)) (<[t:=l]> (m_stacks σ)) (m_next σ) (m_log σ)) t').
    rewrite Hstack. intros E Hj [Hne Ej]%lookup_delete_Some. destruct (decide (t' = t)) as [->|].
    + apply (v_below _ _ _ _ _ Hv t i l j cj Es); [|done]. rewrite E. by right.
    + by apply (v_below _ _ _ _ _ Hv t' i' l0 j cj E Hj).
  - pose proof (v_lock _ _ _ _ _ Hv) as Hk. unfold lock_ok in *. destruct (m_lock σ) as [[t' d]|].
    + destruct Hk as [-> Hk]. split; [|intros j cj [_ Ej]%lookup_delete_Some; by apply Hk]. destruct (decide (t' = t)) as [->|].
      * rewrite lookup_insert_eq. fold (stack σ t). by rewrite Es, locks_cons, El.
      * by rewrite lookup_insert_ne.
    + intros j cj [_ Ej]%lookup_delete_Some. by apply (Hk j cj).
  - intros t' l1 j l2 i'. change (stack _ t') with (stack (Machine (m_bus σ) (m_lock σ) (delete i (m_calls σ)) (<[t:=l]> (m_stacks σ)) (m_next σ) (m_log σ)) t').
    rewrite Hstack. intros E Hj Hi'. assert (i ∉ l1 ++ j :: l2) as Hni by (rewrite <-E; apply Hout).
    apply not_elem_of_app in Hni as [Hn1 [Hn2 Hn3]%not_elem_of_cons]. rewrite upd_other in Hj by congruence.
    assert (i' ≠ i) by (by intros ->). rewrite upd_other by done. destruct (decide (t' = t)) as [->|].
    + apply (v_above _ _ _ _ _ Hv t (i :: l1) j l2 i'); [by rewrite Es, E|done|by right].
    + by apply (v_above _ _ _ _ _ Hv t' l1 j l2 i').
Qed.

(** The calls below the code outside the bus are in callbacks. *)
Lemma inside_below k σ st lk cur t j c :
  inv k σ st lk cur → at_large σ t = true → j ∈ stack σ t → m_calls σ !! j = Some c → oc_inside c = true.
Proof.
  intros Hv Ha Hj Ej. unfold at_large in Ha. destruct (stack σ t) as [|i l] eqn:Es; [by apply not_elem_of_nil in Hj|].
  apply elem_of_cons in Hj as [->|Hj]; [by rewrite Ej in Ha|]. by eapply v_below.
Qed.

Lemma free_is_validating k σ st lk cur t j :
  inv k σ st lk cur → at_large σ t = true → j ∈ stack σ t → st j = Open PFree → validating k σ j = true.
Proof.
  intros Hv Ha Hj Ef. destruct (proj1 (v_stack _ _ _ _ _ Hv t j) Hj) as (c & Ec & Et).
  pose proof (inside_below _ _ _ _ _ _ _ _ Hv Ha Hj Ec) as Hin. destruct (v_call _ _ _ _ _ Hv j c Ec) as (ph & Ej & Hu & _ & Hc).
  assert (ph = PFree) as -> by congruence. unfold validating. rewrite Ec. rewrite Hin in *. destruct Hc as (cb & x & f & -> & _ & Hcb).
  destruct (is_under k (oc_publication c)); [|discriminate (proj2 Hu eq_refl)]. destruct cb; [done|]. by destruct Hcb as [(?&?&[=])|[=]].
Qed.

(** A new call is innermost: below it no call is in its section. *)
Lemma above_published k σ st lk cur t p t' l1 j l2 i' :
  inv k σ st lk cur → at_large σ t = true → validates_again k (Publish t p) σ = false →
  (if decide (t' = t) then m_next σ :: stack σ t else stack σ t') = l1 ++ j :: l2 →
  upd st (m_next σ) (Open (born k p)) j = Open PFree → i' ∈ l1 → upd st (m_next σ) (Open (born k p)) i' = Open POther.
Proof.
  intros Hv Ha Hag. set (i := m_next σ). pose proof (v_next _ _ _ _ _ Hv i (le_n _)) as Ei.
  assert (∀ t', i ∉ stack σ t') as Hout.
  { intros t0. rewrite (v_stack _ _ _ _ _ Hv). intros (c & E & _). destruct (v_call _ _ _ _ _ Hv i c E) as (? & ? & _). congruence. }
  intros E Hj Hi'. destruct (decide (j = i)) as [->|Hne].
  { rewrite upd_same in Hj. unfold born in Hj. by destruct (is_under k p). }
  rewrite upd_other in Hj by done. destruct (decide (t' = t)) as [->|].
  + destruct l1 as [|i1 l1]; [by apply not_elem_of_nil in Hi'|]. injection E as <- E. apply elem_of_cons in Hi' as [->|Hi'].
    * rewrite upd_same. f_equal. unfold born. destruct (is_under k p) eqn:Eu; [|done]. cbn [validates_again] in Hag. rewrite Eu in Hag.
      assert (existsb (validating k σ) (stack σ t) = true) as Hex; [|by rewrite Hex in Hag].
      assert (j ∈ stack σ t) as Hjs by (rewrite E; apply elem_of_app; right; by left).
      apply existsb_exists. exists j. split; [by apply list_elem_of_In|]. by eapply free_is_validating.
    * rewrite upd_other; [by apply (v_above _ _ _ _ _ Hv t l1 j l2 i')|]. intros ->. apply (Hout t). rewrite E. apply elem_of_app. by left.
  + rewrite upd_other; [by apply (v_above _ _ _ _ _ Hv t' l1 j l2 i')|]. intros ->. apply (Hout t'). rewrite E. apply elem_of_app. by left.
Qed.

Lemma inv_publish k σ st lk cur t p :
  inv k σ st lk cur → at_large σ t = true → validates_again k (Publish t p) σ = false →
  inv k (with_event (Called (m_next σ) p)
           (Machine (m_bus σ) (m_lock σ) (<[m_next σ := OpenCall t p (publishp p) false]> (m_calls σ))
              (<[t := m_next σ :: stack σ t]> (m_stacks σ)) (S (m_next σ)) (m_log σ)))
    (upd st (m_next σ) (Open (born k p))) (upd lk (m_next σ) false) cur.
Proof.
  intros Hv Ha Hag. set (i := m_next σ). set (σ' := with_event _ _). pose proof (v_next _ _ _ _ _ Hv i (le_n _)) as Ei.
  assert (m_calls σ !! i = None) as Eno. { destruct (m_calls σ !! i) as [c|] eqn:E; [|done]. destruct (v_call _ _ _ _ _ Hv i c E) as (? & ? & _). congruence. }
  assert (∀ t', stack σ' t' = if decide (t' = t) then i :: stack σ t else stack σ t') as Hstack.
  { intros t'. unfold stack, σ'. cbn [with_event m_stacks]. destruct (decide (t' = t)) as [->|]; [by rewrite lookup_insert_eq|by rewrite lookup_insert_ne]. }
  assert (∀ t', i ∉ stack σ t') as Hout by (intros t'; rewrite (v_stack _ _ _ _ _ Hv); intros (c & E & _); congruence).
  split; cbn [σ' with_event m_bus m_lock m_calls m_stacks m_next m_log]; try apply Hv.
  - apply history_called; [apply Hv|done].
  - intros j cj [[<- <-]|[Hne Ej]]%lookup_insert_Some.
    + exists (born k p). rewrite !upd_same. split; [done|]. split; [unfold born; cbn; by destruct (is_under k p)|].
      split; [unfold born; by destruct (is_under k p)|apply publish_keeps].
    + rewrite !upd_other by done. by apply (v_call _ _ _ _ _ Hv).
  - intros j phj. destruct (decide (j = i)) as [->|Hne]; [by rewrite lookup_insert_eq|]. rewrite upd_other, lookup_insert_ne by done.
    by apply (v_open _ _ _ _ _ Hv).
  - intros j Hj. rewrite upd_other by (unfold i; lia). apply (v_next _ _ _ _ _ Hv). lia.
  - intros t' j. rewrite Hstack. pose proof (v_stack _ _ _ _ _ Hv t' j) as Hs. destruct (decide (t' = t)) as [->|Hne].
    + rewrite elem_of_cons, Hs. split.
      * intros [->|(cj & Ej & Et)]; [eexists; by rewrite lookup_insert_eq|]. exists cj. rewrite lookup_insert_ne; [done|congruence].
      * intros (cj & [[<- <-]|[Hne Ej]]%lookup_insert_Some & Et); [by left|right; eauto].
    + rewrite Hs. split; [intros (cj & Ej & Et); exists cj; rewrite lookup_insert_ne; [done|congruence]|].
      intros (cj & [[<- <-]|[Hne' Ej]]%lookup_insert_Some & Et); [by cbn in Et|eauto].
  - intros t'. rewrite Hstack. destruct (decide (t' = t)); [apply NoDup_cons; split; [apply Hout|]|]; apply (v_nodup _ _ _ _ _ Hv).
  - intros t' i' l j cj. rewrite Hstack. intros E Hj Ec.
    assert (j ∈ stack σ t') as Hjs by (destruct (decide (t' = t)) as [->|]; [by injection E as _ ->|rewrite E; by right]).
    apply lookup_insert_Some in Ec as [[<- _]|[Hne Ec]]; [by destruct (Hout t')|].
    destruct (decide (t' = t)) as [->|]; [by eapply inside_below|]. by eapply (v_below _ _ _ _ _ Hv).
  - pose proof (v_lock _ _ _ _ _ Hv) as Hk. unfold lock_ok in *. destruct (m_lock σ) as [[t' d]|].
    + destruct Hk as [-> Hk]. split.
      * change (default [] (<[t := i :: stack σ t]> (m_stacks σ) !! t')) with (stack σ' t'). rewrite Hstack. fold (stack σ t').
        destruct (decide (t' = t)) as [->|]; rewrite ?locks_cons, ?upd_same, locks_upd by apply Hout; done.
      * intros j cj [[<- <-]|[Hne Ej]]%lookup_insert_Some; [by rewrite upd_same|]. rewrite upd_other by done. by apply Hk.
    + intros j cj [[<- <-]|[Hne Ej]]%lookup_insert_Some; [by rewrite upd_same|]. rewrite upd_other by done. by apply (Hk j cj).
  - intros t' l1 j l2 i'. rewrite Hstack. by apply (above_published _ _ _ lk cur).
Qed.

Lemma inv_bus k σ st lk cur b :
  inv k σ st lk cur → bus_ok b → held k b = held k (m_bus σ) → inv k (with_bus b σ) st lk cur.
Proof. intros Hv Hb E. destruct Hv. split; cbn [with_bus m_bus m_lock m_calls m_stacks m_next m_log]; try done. by rewrite E. Qed.

Lemma inv_step k σ st lk cur mv σ' :
  inv k σ st lk cur → stepp mv σ = Some σ' → drops k.1.1 mv = false → validates_again k mv σ = false →
  ∃ st' lk' cur', inv k σ' st' lk' cur'.
Proof.
  intros Hv Hs Hdr Hag. destruct mv as [t|t r|t o|t p]; cbn [step] in Hs.
  - destruct (stack σ t) as [|i l] eqn:Es; [done|]. apply bind_Some in Hs as (c & Ec & Hs).
    destruct (oc_inside c) eqn:Hin; [done|]. destruct (v_call _ _ _ _ _ Hv i c Ec) as (ph & Ei & Hok).
    unfold step_code in Hs. destruct (oc_code c) as [r|m|m|m f|cb x f] eqn:Em.
    + injection Hs as <-. rewrite Es. eexists _, _, _. by eapply inv_return.
    + destruct (lock_for σ t) eqn:El; [|done]. injection Hs as <-. destruct (inv_acquire _ _ _ _ _ _ _ _ _ Hv Es Ec m ph) as (st' & lk' & Hv'); eauto.
    + injection Hs as <-. destruct (inv_release _ _ _ _ _ _ _ _ _ Hv Es Ec m ph) as (st' & lk' & Hv'); eauto.
    + injection Hs as <-. by eapply inv_on_bus.
    + destruct (inv_enter _ _ _ _ _ _ _ _ _ Hv Es Ec cb x f ph) as (st' & lk' & Hv'); try done. rewrite Em in Hv'.
      exists st', lk', cur. by destruct cb; injection Hs as <-.
  - destruct (stack σ t) as [|i l] eqn:Es; [done|]. apply bind_Some in Hs as (c & Ec & Hs).
    destruct (oc_inside c) eqn:Hin; [|done]. destruct (v_call _ _ _ _ _ Hv i c Ec) as (ph & Ei & Hok).
    destruct (inv_answer _ _ _ _ _ _ _ _ _ Hv Es Ec r σ' ph) as (st' & lk' & Hv'); eauto.
  - destruct (_ && _); [|done]. injection Hs as <-. destruct (run_op_keeps k o (m_bus σ)) as [Hb Hk]; [done|apply Hv|].
    exists st, lk, cur. by apply inv_bus.
  - destruct (at_large σ t) eqn:Ha; [|done]. injection Hs as <-. eexists _, _, _. by apply inv_publish.
Qed.

Lemma inv_idle k : inv k idle (λ _, Unborn) (λ _, false) None.
Proof.
  split; cbn [idle m_bus m_lock m_calls m_stacks m_next m_log]; try done.
  - split; [apply dict_wf_nil|constructor].
  - split; try done; try (by intros ? ?%not_elem_of_nil).
    + intros past e later E. by destruct past.
    + intros i (p & s & x & Hin%not_elem_of_nil & _). done.
    + intros (i & p & n & Hin%not_elem_of_nil & _). done.
  - intros t i. unfold stack. cbn. rewrite lookup_empty. cbn. split; [by intros ?%not_elem_of_nil|]. by intros (c & ? & _).
  - intros t. unfold stack. cbn. rewrite lookup_empty. constructor.
Qed.

Lemma inv_exec k moves σ st lk cur σ' :
  inv k σ st lk cur → execp moves σ = Some σ' → forallb (λ mv, negb (drops k.1.1 mv)) moves = true →
  validated_again k moves σ = false → ∃ st' lk' cur', inv k σ' st' lk' cur'.
Proof.
  revert σ st lk cur. induction moves as [|mv moves IH]; intros σ st lk cur Hv; cbn [exec forallb validated_again].
  - intros [= <-] _ _. by exists st, lk, cur.
  - intros (σ1 & Hs & He)%bind_Some [Hdr%negb_true_iff Hdrs]%andb_true_iff [Hag Hags]%orb_false_iff. rewrite Hs in Hags.
    destruct (inv_step _ _ _ _ _ _ _ Hv Hs Hdr Hag) as (st' & lk' & cur' & Hv'). by apply (IH σ1 st' lk' cur').
Qed.

(** No call under the key is open. *)
Definition none_open k σ : Prop := ∀ i c, m_calls σ !! i = Some c → is_under k (oc_publication c) = false.
(** Every call under the key that answered has raised. *)
Definition all_raised k log : Prop := ∀ i p r, Returned i p r ∈ log → is_under k p = true → is_ok r = false.

End laws.

(** ** Two threads and one key *)

Abbreviation demo_move := (move (Vd := nat) (Hd := nat) (Sc := unit) (Re := unit)).
Abbreviation demo_machine := (machine (V := Z * (Z * Z)) (Vd := nat) (Hd := nat) (Sc := unit) (Re := unit)).

Definition demo_publication (key : string) : publication unit unit :=
  Publication "shop" "shop.paid" "1.0.0" (PMap 0 true [(KStr "order", PStr "A-7")]) (Some key) None None None "uuid" 0.

Definition demo_exec (moves : list demo_move) : option demo_machine :=
  exec (Sp := Z) Ok tt Ok moves idle.

Definition demo_key : reservation := ("shop", "shop.paid", "k-1").

Definition runs (t n : nat) : list demo_move := replicate n (Run t).
Definition returns (t : nat) : demo_move := Answer t (Ok PNone).
Definition raises (t : nat) : demo_move := Answer t (fail ValueErr "boom").
Definition publishes (t : nat) : demo_move := Publish t (demo_publication "k-1").

(** What the calls answered, and the handlers they called. *)
Definition answers (σ : demo_machine) : list (nat * option Z) :=
  omap (λ e, match e with Returned i _ r => Some (i, match r with Ok n => Some n | Err _ => None end) | _ => None end) (m_log σ).
Definition handled (σ : demo_machine) : list (nat * nat) :=
  omap (λ e, match e with Entered i _ s _ => Some (i, es_handler s) | _ => None end) (m_log σ).

Definition demo_bus : list demo_move :=
  [Do 0 (OpDeclare "shop" "shop.paid" "1.0.0" None); Do 0 (OpSubscribe "mail" "shop.paid" ">=1" 2 100);
   Do 0 (OpSubscribe "stock" "shop.paid" "*" 1 50)].

(** Call 0 delivers to the first handler, which publishes again (call 1), as does
    another thread (call 2): both are answered 0.  The second handler raises; call 3
    delivers to both, and call 4 comes too late. *)
Definition demo_moves : list demo_move :=
  demo_bus ++ [publishes 0] ++ runs 0 7 ++ [publishes 0] ++ runs 0 4 ++ [publishes 1] ++ runs 1 4 ++
  [returns 0; Run 0; raises 0] ++ runs 0 4 ++
  [publishes 1] ++ runs 1 7 ++ [returns 1; Run 1; returns 1] ++ runs 1 4 ++ [publishes 0] ++ runs 0 4.

Example demo_answers :
  (answers <$> demo_exec demo_moves) = Some [(1, Some 0%Z); (2, Some 0%Z); (0, None); (3, Some 2%Z); (4, Some 0%Z)] ∧
  (handled <$> demo_exec demo_moves) = Some [(0, 1); (0, 2); (3, 1); (3, 2)].
Proof. by vm_compute. Qed.


(** A validator that publishes under the key it validates for: call 1 finds the key
    free, delivers and succeeds, and then call 0 delivers again. *)
Definition validator_moves : list demo_move :=
  [Do 0 (OpDeclare "shop" "shop.paid" "1.0.0" (Some 0)); Do 0 (OpSubscribe "mail" "shop.paid" ">=1" 2 100)] ++
  let valid := Answer 0 (Ok (PMap 0 true [(KStr "order", PStr "A-7")])) in
  [publishes 0] ++ runs 0 4 ++ [publishes 0] ++ runs 0 4 ++ [valid] ++ runs 0 4 ++ [returns 0] ++ runs 0 4 ++
  [valid] ++ runs 0 4 ++ [returns 0] ++ runs 0 4.

Example validator_publishes_again :
  (answers <$> demo_exec validator_moves) = Some [(1, Some 1%Z); (0, Some 1%Z)] ∧
  (handled <$> demo_exec validator_moves) = Some [(1, 2); (0, 2)] ∧
  validated_again (Sp := Z) Ok tt Ok demo_key validator_moves idle = true.
Proof. by vm_compute. Qed.

(** An owner dropped during a delivery and installed again: call 1 delivers under
    the same key beside call 0, whose failure then frees the key that call 1 holds,
    and call 2 delivers once more. *)
Definition drop_moves : list demo_move :=
  [Do 0 (OpDeclare "shop" "shop.paid" "1.0.0" None); Do 0 (OpSubscribe "mail" "shop.paid" ">=1" 2 100)] ++
  [publishes 0] ++ runs 0 7 ++ [Do 1 (OpDrop "shop"); Do 1 (OpDeclare "shop" "shop.paid" "1.0.0" None)] ++
  [publishes 1] ++ runs 1 7 ++ [returns 1] ++ runs 1 4 ++ [raises 0] ++ runs 0 4 ++
  [publishes 1] ++ runs 1 7 ++ [returns 1] ++ runs 1 4.

Example drop_frees_other_key :
  (answers <$> demo_exec drop_moves) = Some [(1, Some 1%Z); (0, None); (2, Some 1%Z)] ∧
  (handled <$> demo_exec drop_moves) = Some [(0, 2); (1, 2); (2, 2)].
Proof. by vm_compute. Qed.
End EventBusLaws.
