(* ===== verification/EventOutbox.v ===== *)
(** * The event outbox (event_outbox.py, envelope.py)

    The table is the list of its rows in insertion order; a statement with the
    commit that follows it is one step.  The rest of the state, [X], is what the
    bus and its handlers keep; publishing runs on both, so handlers may enqueue.
    Parameters: the scopes, resources and envelopes of the contracts package,
    [json.loads] (with [_reject_json_constant]) and the ASCII [json.dumps] of a
    column, [fromisoformat] and [isoformat], and the bus.  [OutboxLaws]: what a
    drain publishes, that it ends, and that a key is stored once. *)

From Stdlib Require Import Ascii ZArith Lia.
From stdpp Require Import base decidable numbers list strings sets relations.
From S2P Require Import Prelude PyData Regex JsonGraph HashChain EventBus.

Module EventOutbox.
Import JsonGraph HashChain EventBus.

Definition QUARANTINE_REASON : re :=
  Seq (Chr is_lower) (Rep 0 63 (Chr (λ c, is_lower c || is_digit c || one_of "_.-" c))).

(** ** Data *)

(** A row of [plaik_event_outbox]. *)
Record row : Type := Row {
  r_id : string; r_owner : string; r_contract : string; r_version : string; r_payload_json : string;
  r_idempotency_key : option string; r_created_at : string;
  r_scope_json : option string; r_resource_json : option string; r_correlation_id : option string;
  r_dispatched_at : option string; r_quarantined_at : option string; r_quarantine_reason : option string;
}.

Abbreviation table := (list row).

Record OutboxEvent : Type := Event {
  oe_id : string; oe_owner : string; oe_contract : string; oe_version : string; oe_payload : json;
  oe_idempotency_key : option string; oe_created_at : string;
  oe_scope_json : option string; oe_resource_json : option string; oe_correlation_id : option string;
}.

(** [WHERE dispatched_at IS NULL AND quarantined_at IS NULL]. *)
Definition is_pending (r : row) : bool :=
  bool_decide (r_dispatched_at r = None) && bool_decide (r_quarantined_at r = None).

(** [ORDER BY created_at, id]. *)
Definition pending_order (r : row) : string * string := (r_created_at r, r_id r).

Definition quarantine_order (r : row) : string * string := (or_default (r_quarantined_at r) "", r_id r).

(** [s.replace("Z", "+00:00")]. *)
Definition replace_z (s : string) : string :=
  of_chars (chars s ≫= λ c, if decide (c = "Z"%char) then chars "+00:00" else [c]).

Section outbox.
Context {Sc Re X : Type}.
Context (validate_scope : list (string * json) → result Sc) (validate_resource : list (string * json) → result Re)
  (dump_scope_json : Sc → string) (dump_resource_json : Re → string) (installation : Sc)
  (check_envelope : EventEnvelope Sc Re → result (EventEnvelope Sc Re)).
Context (loads : string → result json) (dumps_ascii : json → string)
  (fromisoformat : string → result stamp) (isoformat : stamp → string).

(** ** Envelopes of rows (envelope.py) *)

Definition dump_scope (scope : option Sc) : option string := dump_scope_json <$> scope.
Definition dump_resource (resource : option Re) : option string := dump_resource_json <$> resource.

(** [_as_mapping] of a nullable text column. *)
Definition as_mapping (raw : option string) : result (option (list (string * json))) :=
  match raw with
  | None => Ok None
  | Some raw =>
      if String.eqb raw "" then Ok None
      else
        decoded ← loads raw;
        match decoded with
        | JNull => Ok None
        | JObj m => Ok (Some m)
        | _ => fail ValueErr "envelope field must be a JSON object"
        end
  end.

Definition load_scope (raw : option string) : result Sc :=
  payload ← as_mapping raw;
  match payload with None => Ok installation | Some m => validate_scope m end.

Definition load_resource (raw : option string) : result (option Re) :=
  payload ← as_mapping raw;
  match payload with None => Ok None | Some m => r ← validate_resource m; Ok (Some r) end.

Definition parse_created_at (value : string) : result stamp :=
  created ← fromisoformat (replace_z value);
  Ok (match st_offset created with None => utc_stamp (st_us created) | Some _ => created end).

Definition envelope_from_row (e : OutboxEvent) : result (EventEnvelope Sc Re) :=
  scope ← load_scope (oe_scope_json e);
  resource ← load_resource (oe_resource_json e);
  created_at ← parse_created_at (oe_created_at e);
  check_envelope (Envelope (oe_id e) (oe_owner e) (oe_contract e) (oe_version e) (oe_payload e) scope resource
    (oe_idempotency_key e) (oe_correlation_id e) created_at).

(** [OutboxEvent.as_envelope]. *)
Definition as_envelope (e : OutboxEvent) : result (EventEnvelope Sc Re) :=
  result_catch (envelope_from_row e) (λ x,
    if exn_in x [ValidationErr; TypeErr; ValueErr] then Some (fail OutboxEnvelopeError "outbox envelope is invalid")
    else None).

(** ** [SQLiteEventOutbox] *)

Definition world : Type := table * X.

Definition get_table : M world table := gets fst.
Definition put_table (t : table) : M world unit := modify_st (λ w, (t, w.2)).

(** The unique index leaves out the rows without a key. *)
Definition same_key (owner contract key : string) (r : row) : bool :=
  String.eqb (r_owner r) owner && String.eqb (r_contract r) contract && bool_decide (r_idempotency_key r = Some key).

Definition violates (t : table) (r : row) : bool :=
  existsb (λ q, String.eqb (r_id q) (r_id r)) t ||
  match r_idempotency_key r with
  | Some key => existsb (same_key (r_owner r) (r_contract r) key) t
  | None => false
  end.

Definition new_row (e : EventEnvelope Sc Re) : row :=
  Row (ev_id e) (ev_owner e) (ev_contract e) (ev_version e) (dumps_ascii (ev_payload e)) (ev_idempotency_key e)
    (isoformat (ev_created_at e)) (dump_scope (Some (ev_scope e))) (dump_resource (ev_resource e)) (ev_correlation_id e)
    None None None.

(** [enqueue]; [event_id] and [created_at] are the readings of [uuid4] and [now]. *)
Definition enqueue (event_id created_at owner contract version : string) (payload : pyobj)
    (idempotency_key : option string) (scope : option Sc) (resource : option Re) (correlation_id : option string) :
    M world string :=
  snapshot ← lift (json_snapshot payload);
  envelope ← lift (as_envelope (Event event_id owner contract version snapshot idempotency_key created_at
                (dump_scope (Some (or_default scope installation))) (dump_resource resource) correlation_id));
  t ← get_table;
  if negb (violates t (new_row envelope)) then
    _ ← put_table (t ++ [new_row envelope]);
    mret (ev_id envelope)
  else
    match idempotency_key with
    | None => raise SqlIntegrityErr "UNIQUE constraint failed"
    | Some key =>
        match List.filter (same_key owner contract key) t with
        | [] => raise SqlIntegrityErr "UNIQUE constraint failed"
        | r :: _ => mret (r_id r)
        end
    end.

(** [SqliteDurableEvents.persist]: the row is committed before the method returns. *)
Definition persist (event_id created_at owner contract version : string) (payload : pyobj)
    (idempotency_key : option string) (scope : option Sc) (resource : option Re) (correlation_id : option string) :
    M world unit :=
  _ ← enqueue event_id created_at owner contract version payload idempotency_key scope resource correlation_id;
  mret tt.

Definition check_limit (limit : Z) : result unit :=
  fail_if (negb ((1 <=? limit)%Z && (limit <=? 1000)%Z)) ValueErr "outbox dispatch limit must be between 1 and 1000".

(** [_pending_rows]. *)
Definition pending_rows (limit : Z) (t : table) : list row :=
  take (Z.to_nat limit) (sort_by pending_order (List.filter is_pending t)).

(** [_event_from_row]; [None] for a payload that is not a JSON object. *)
Definition event_from_row (r : row) : result (option OutboxEvent) :=
  match loads (r_payload_json r) with
  | Ok (JObj m) =>
      Ok (Some (Event (r_id r) (r_owner r) (r_contract r) (r_version r) (JObj m) (r_idempotency_key r) (r_created_at r)
              (r_scope_json r) (r_resource_json r) (r_correlation_id r)))
  | Ok _ => Ok None
  | Err e => if exn_in e [TypeErr; ValueErr] then Ok None else Err e
  end.

Definition pending (limit : Z) : M world (list OutboxEvent) :=
  _ ← lift (check_limit limit);
  t ← get_table;
  events ← lift (map_result event_from_row (pending_rows limit t));
  mret (omap id events).

Definition quarantined (limit : Z) : M world (list (string * string)) :=
  _ ← lift (check_limit limit);
  t ← get_table;
  mret ((λ r, (r_id r, match r_quarantine_reason r with Some "" | None => "invalid_envelope" | Some reason => reason end)) <$>
        take (Z.to_nat limit) (sort_by quarantine_order (List.filter (λ r, bool_decide (r_quarantined_at r ≠ None)) t))).

(** [UPDATE ... WHERE id = ? AND dispatched_at IS NULL AND quarantined_at IS NULL],
    whose row count must be 1. *)
Definition hits (event_id : string) (r : row) : bool := String.eqb (r_id r) event_id && is_pending r.

Definition update_pending (event_id : string) (f : row → row) : M world unit :=
  t ← get_table;
  _ ← put_table ((λ r, if hits event_id r then f r else r) <$> t);
  raise_if (negb (length (List.filter (hits event_id) t) =? 1)%nat) RuntimeErr "outbox event is not pending".

Definition set_quarantined (now reason : string) (r : row) : row :=
  Row (r_id r) (r_owner r) (r_contract r) (r_version r) (r_payload_json r) (r_idempotency_key r) (r_created_at r)
    (r_scope_json r) (r_resource_json r) (r_correlation_id r) (r_dispatched_at r) (Some now) (Some reason).

Definition set_dispatched (now : string) (r : row) : row :=
  Row (r_id r) (r_owner r) (r_contract r) (r_version r) (r_payload_json r) (r_idempotency_key r) (r_created_at r)
    (r_scope_json r) (r_resource_json r) (r_correlation_id r) (Some now) (r_quarantined_at r) (r_quarantine_reason r).

Definition quarantine (now event_id reason : string) : M world unit :=
  _ ← raise_if (negb (fullmatch QUARANTINE_REASON reason)) ValueErr "outbox quarantine reason is invalid";
  update_pending event_id (set_quarantined now reason).

Definition mark_dispatched (now event_id : string) : M world unit := update_pending event_id (set_dispatched now).

(** ** [EventOutboxDispatcher.dispatch] *)

(** [clock id]: the reading of the clock when the row [id] is updated. *)
Context (clock : string → string) (publish : EventEnvelope Sc Re → M world Z).

(** The body of the loop over the rows: whether the row was delivered. *)
Definition dispatch_row (r : row) : M world bool :=
  event ← lift (event_from_row r);
  match event with
  | None => _ ← quarantine (clock (r_id r)) (r_id r) "invalid_payload_json"; mret false
  | Some event =>
      match as_envelope event with
      | Err e =>
          if exn_in e [OutboxEnvelopeError]
          then _ ← quarantine (clock (r_id r)) (oe_id event) "invalid_envelope"; mret false
          else lift (Err e)
      | Ok envelope =>
          _ ← publish envelope;
          _ ← mark_dispatched (clock (r_id r)) (oe_id event);
          mret true
      end
  end.

(** The loop over the rows: the events delivered so far and the rows
    quarantined in this round. *)
Fixpoint dispatch_rows (rows : list row) (limit delivered quarantined : Z) : M world (Z * Z) :=
  match rows with
  | [] => mret (delivered, quarantined)
  | r :: rows =>
      sent ← dispatch_row r;
      if (sent : bool) then
        if (limit <=? delivered + 1)%Z then mret (delivered + 1, quarantined)%Z
        else dispatch_rows rows limit (delivered + 1) quarantined
      else dispatch_rows rows limit delivered (quarantined + 1)
  end.

(** [while delivered < limit]; [None]: out of fuel. *)
Fixpoint dispatch_loop (fuel : nat) (limit delivered : Z) (w : world) : option (result Z * world) :=
  match fuel with
  | O => None
  | S fuel =>
      if negb (delivered <? limit)%Z then Some (Ok delivered, w)
      else
        match pending_rows limit w.1 with
        | [] => Some (Ok delivered, w)
        | rows =>
            match dispatch_rows rows limit delivered 0 w with
            | (Ok (delivered, quarantined), w) =>
                if (quarantined =? 0)%Z then Some (Ok delivered, w) else dispatch_loop fuel limit delivered w
            | (Err e, w) => Some (Err e, w)
            end
        end
  end.

Definition dispatch (fuel : nat) (limit : Z) (w : world) : option (result Z * world) :=
  match check_limit limit with
  | Ok _ => dispatch_loop fuel limit 0 w
  | Err e => Some (Err e, w)
  end.

(** ** [SqliteDurableEvents._drain_claimed] and [pending_count] *)

(** [while remaining > 0]; one fuel for this loop and for those it runs. *)
Fixpoint drain_loop (fuel : nat) (delivered remaining : Z) (w : world) : option (result Z * world) :=
  match fuel with
  | O => None
  | S fuel =>
      if negb (0 <? remaining)%Z then Some (Ok delivered, w)
      else
        match dispatch fuel remaining w with
        | None => None
        | Some (Ok batch, w) =>
            if (batch =? 0)%Z then Some (Ok delivered, w) else drain_loop fuel (delivered + batch) (remaining - batch) w
        | Some (Err e, w) => Some (Err e, w)
        end
  end.

Definition drain_claimed (fuel : nat) (limit : Z) : world → option (result Z * world) := drain_loop fuel 0 limit.

Definition pending_count : M world Z :=
  events ← pending 100;
  mret (Z.of_nat (length events)).
End outbox.
End EventOutbox.

(** ** Rows *)

Module OutboxLaws.
Import JsonGraph HashChain EventBus EventOutbox.

(** A row is published once and for all, or put aside; its data never change. *)
Definition row_step (r r' : row) : Prop :=
  r' = r ∨ (is_pending r = true ∧ is_pending r' = false ∧ r_id r' = r_id r ∧ r_owner r' = r_owner r ∧
    r_contract r' = r_contract r ∧ r_idempotency_key r' = r_idempotency_key r ∧ r_payload_json r' = r_payload_json r).

(** Rows are added at the end and never removed. *)
Definition evolves (t t' : table) : Prop := ∃ l new, t' = l ++ new ∧ Forall2 row_step t l.

Lemma row_step_refl r : row_step r r.
Proof. by left. Qed.

Lemma row_step_trans r s u : row_step r s → row_step s u → row_step r u.
Proof.
  intros [->|(H1 & H2 & H3)]; [done|]. intros [->|(H1' & _)]; [by right|]. congruence.
Qed.

Lemma row_step_id r r' : row_step r r' → r_id r' = r_id r.
Proof. by intros [->|(_ & _ & -> & _)]. Qed.

Lemma Forall2_row_refl t : Forall2 row_step t t.
Proof. induction t; constructor; [apply row_step_refl|done]. Qed.

Lemma outbox_evolves_refl t : evolves t t.
Proof. exists t, []. by rewrite app_nil_r; split; [|apply Forall2_row_refl]. Qed.

Lemma outbox_evolves_trans t u v : evolves t u → evolves u v → evolves t v.
Proof.
  intros (l & new & -> & Hl) (l' & new' & -> & Hl'). apply Forall2_app_inv_l in Hl' as (a & b & Ha & Hb & ->).
  exists a, (b ++ new'). rewrite (assoc_L (++)). split; [done|]. clear -Hl Ha.
  revert a Ha. induction Hl as [|r s t l Hrs Hl IH]; intros a Ha; inversion Ha; subst; constructor; [by eapply row_step_trans|by apply IH].
Qed.

Lemma evolves_map t f : (∀ r, r ∈ t → row_step r (f r)) → evolves t (f <$> t).
Proof.
  intros Hf. exists (f <$> t), []. rewrite app_nil_r. split; [done|]. apply Forall2_fmap_r, Forall_Forall2_diag, Forall_forall. exact Hf.
Qed.

Lemma evolves_app t new : evolves t (t ++ new).
Proof. exists t, new. split; [done|apply Forall2_row_refl]. Qed.

(** What an identifier stands for later. *)
Lemma evolves_row t t' r : evolves t t' → r ∈ t → ∃ r', r' ∈ t' ∧ row_step r r'.
Proof.
  intros (l & new & -> & Hl) Hr. apply list_elem_of_lookup in Hr as [i Hi].
  destruct (Forall2_lookup_l _ _ _ _ _ Hl Hi) as (r' & Hi' & Hs). exists r'. split; [|done].
  apply elem_of_app. left. apply list_elem_of_lookup. by exists i.
Qed.

(** The constraints of the schema. *)
Definition table_ok (t : table) : Prop :=
  NoDup (r_id <$> t) ∧
  ∀ i j r s k, t !! i = Some r → t !! j = Some s → r_idempotency_key r = Some k → r_idempotency_key s = Some k →
    r_owner r = r_owner s → r_contract r = r_contract s → i = j.

Lemma same_id t r s : NoDup (r_id <$> t) → r ∈ t → s ∈ t → r_id r = r_id s → r = s.
Proof.
  intros Hn Hr Hs E. apply list_elem_of_lookup in Hr as [i Hi], Hs as [j Hj].
  assert (i = j) as ->; [|congruence]. eapply (NoDup_lookup (r_id <$> t)); [exact Hn|..]; rewrite list_lookup_fmap.
  - by rewrite Hi.
  - rewrite Hj. simpl. by rewrite E.
Qed.

(** Some row of the identifier is pending. *)
Definition pending_id (t : table) (id : string) : Prop := ∃ r, r ∈ t ∧ r_id r = id ∧ is_pending r = true.

(** An identifier that has no pending row never gets one back. *)
Definition settled (t : table) (id : string) : Prop := (∃ r, r ∈ t ∧ r_id r = id) ∧ ¬ pending_id t id.

Lemma settled_evolves t t' id : NoDup (r_id <$> t') → evolves t t' → settled t id → settled t' id.
Proof.
  intros Hn He [(r & Hr & Hid) Hp]. destruct (evolves_row t t' r He Hr) as (r' & Hr' & Hs). pose proof (row_step_id _ _ Hs) as Hid'.
  split; [exists r'; split; [done|congruence]|]. intros (s & Hs' & Hids & Hps).
  assert (s = r') as -> by (eapply same_id; [exact Hn|done|done|congruence]).
  destruct Hs as [->|(_ & E & _)]; [|congruence]. apply Hp. by exists r.
Qed.

Section laws.
Context {Sc Re Y : Type}.
Context (validate_scope : list (string * json) → result Sc) (validate_resource : list (string * json) → result Re)
  (installation : Sc) (check_envelope : EventEnvelope Sc Re → result (EventEnvelope Sc Re)).
Context (loads : string → result json) (fromisoformat : string → result stamp) (clock : string → string).

Section termination.
Context {X : Type} (publish : EventEnvelope Sc Re → M (table * X) Z).
Abbreviation rowp := (dispatch_row validate_scope validate_resource installation check_envelope loads fromisoformat clock publish).
Abbreviation rowsp := (dispatch_rows validate_scope validate_resource installation check_envelope loads fromisoformat clock publish).
Abbreviation loopp := (dispatch_loop validate_scope validate_resource installation check_envelope loads fromisoformat clock publish).
Abbreviation drainp := (drain_loop validate_scope validate_resource installation check_envelope loads fromisoformat clock publish).

Definition count_pending (t : table) : nat := length (List.filter is_pending t).

Lemma update_pending_count id f (w : table * X) w' :
  (∀ r, is_pending (f r) = false) → update_pending id f w = (Ok tt, w') → S (count_pending w'.1) = count_pending w.1.
Proof.
  intros Hf. unfold update_pending. rewrite run_bind. unfold get_table, gets. rewrite run_bind. unfold put_table, modify_st.
  unfold raise_if, lift. intros [= Hlen <-]. apply fail_if_ok in Hlen. bool_to_prop. apply Nat.eqb_eq in Hlen. cbn [fst].
  unfold count_pending. revert Hlen. induction w.1 as [|r t IH]; simpl; [done|].
  assert (∀ t, length (List.filter (hits id) t) = 0 → List.filter is_pending ((λ r, if hits id r then f r else r) <$> t) = List.filter is_pending t) as Hnone.
  { clear. induction t as [|r t IH]; csimpl; [done|]. destruct (hits id r); simpl; [done|]. intros Hl. by rewrite IH. }
  destruct (hits id r) eqn:E; simpl.
  - intros [= Hl]. rewrite Hf. unfold hits in E. apply andb_true_iff in E as [_ ->]. simpl. by rewrite Hnone.
  - intros Hl. specialize (IH Hl). destruct (is_pending r); [exact (f_equal S IH)|exact IH].
Qed.

Lemma set_quarantined_done now reason r : is_pending (set_quarantined now reason r) = false.
Proof. unfold is_pending. cbn. by rewrite andb_false_r. Qed.

Lemma set_dispatched_done now r : is_pending (set_dispatched now r) = false.
Proof. done. Qed.

Lemma quarantine_count now id reason (w : table * X) w' :
  quarantine now id reason w = (Ok tt, w') → S (count_pending w'.1) = count_pending w.1.
Proof.
  unfold quarantine, raise_if. rewrite run_bind_lift. destruct (fail_if _ _ _); [|done].
  apply update_pending_count. intros r. apply set_quarantined_done.
Qed.

(** Without a delivery a row that is not delivered is quarantined. *)
Lemma dispatch_row_false r w w' : rowp r w = (Ok false, w') → S (count_pending w'.1) = count_pending w.1.
Proof.
  unfold dispatch_row. rewrite run_bind_lift. destruct (event_from_row loads r) as [[e|]|]; [| |done].
  - destruct (as_envelope _ _ _ _ _ _ e) as [env|x].
    + rewrite run_bind. destruct (publish env w) as [[n|x] w1]; [|done]. rewrite run_bind.
      destruct (mark_dispatched _ _ w1) as [[[]|x] w2]; [by rewrite run_ret|done].
    + destruct (exn_in x _); [|done]. rewrite run_bind. destruct (quarantine _ _ _ w) as [[[]|x'] w1] eqn:E; [|done].
      rewrite run_ret. intros [= <-]. by eapply quarantine_count.
  - rewrite run_bind. destruct (quarantine _ _ _ w) as [[[]|x'] w1] eqn:E; [|done].
    rewrite run_ret. intros [= <-]. by eapply quarantine_count.
Qed.

Lemma dispatch_rows_counts rows limit d q w d' q' w' :
  rowsp rows limit d q w = (Ok (d', q'), w') →
  (d ≤ d')%Z ∧ (q ≤ q')%Z ∧ (d' = d → (Z.of_nat (count_pending w'.1) + (q' - q) = Z.of_nat (count_pending w.1))%Z).
Proof.
  revert d q w. induction rows as [|r rows IH]; intros d q w; simpl.
  { rewrite run_ret. intros [= <- <- <-]. split_and!; lia. }
  rewrite run_bind. destruct (rowp r w) as [[[]|x] w1] eqn:E; [| |done].
  - destruct (_ <=? _)%Z; [rewrite run_ret; intros [= <- <- _]; split_and!; lia|].
    intros (? & ? & ?)%IH. split_and!; lia.
  - apply dispatch_row_false in E. intros (? & ? & Hc)%IH. split_and!; [lia..|]. intros Hd. specialize (Hc Hd). lia.
Qed.

Lemma dispatch_rows_moves rows limit d q w d' q' w' :
  rows ≠ [] → rowsp rows limit d q w = (Ok (d', q'), w') → (d + q < d' + q')%Z.
Proof.
  destruct rows as [|r rows]; [done|]. intros _. cbn [dispatch_rows]. rewrite run_bind. destruct (rowp r w) as [[[]|x] w1]; [| |done].
  - destruct (_ <=? _)%Z; [rewrite run_ret; intros [= <- <- _]; lia|]. intros (? & ? & _)%dispatch_rows_counts. lia.
  - intros (? & ? & _)%dispatch_rows_counts. lia.
Qed.

(** The rounds end: each that is followed by another delivers an event or
    leaves fewer pending rows. *)
Lemma dispatch_loop_ends limit d w : ∃ fuel r, ∀ n, (fuel ≤ n)%nat → loopp n limit d w = Some r.
Proof.
  remember (Z.to_nat (limit - d)) as k eqn:Hk. revert d w Hk.
  induction (lt_wf k) as [k _ IHk]. intros d w Hk. remember (count_pending w.1) as c eqn:Hc. revert w Hc.
  induction (lt_wf c) as [c _ IHc]. intros w Hc.
  destruct (decide (d < limit)%Z) as [Hlt|Hge].
  2:{ exists 1, (Ok d, w). intros [|n] Hn; [lia|]. cbn [dispatch_loop]. by rewrite (proj2 (Z.ltb_ge _ _)) by lia. }
  destruct (pending_rows limit w.1) as [|r rows] eqn:Er.
  { exists 1, (Ok d, w). intros [|n] Hn; [lia|]. cbn [dispatch_loop]. by rewrite (proj2 (Z.ltb_lt _ _)), Er by done. }
  destruct (rowsp (r :: rows) limit d 0 w) as [[[d' q]|e] w'] eqn:E.
  2:{ exists 1, (Err e, w'). intros [|n] Hn; [lia|]. cbn [dispatch_loop]. by rewrite (proj2 (Z.ltb_lt _ _)), Er, E by done. }
  destruct (q =? 0)%Z eqn:Eq.
  { exists 1, (Ok d', w'). intros [|n] Hn; [lia|]. cbn [dispatch_loop]. by rewrite (proj2 (Z.ltb_lt _ _)), Er, E, Eq by done. }
  apply dispatch_rows_counts in E as Hcounts. destruct Hcounts as (Hd & Hq & Hcount).
  assert (∃ fuel x, ∀ n, (fuel ≤ n)%nat → loopp n limit d' w' = Some x) as (fuel & x & Hf).
  { apply Z.eqb_neq in Eq. destruct (decide (d' = d)) as [->|Hne].
    - apply (IHc (count_pending w'.1)); [|done]. specialize (Hcount eq_refl). lia.
    - apply (IHk (Z.to_nat (limit - d'))); [|done]. lia. }
  exists (S fuel), x. intros [|n] Hn; [lia|]. cbn [dispatch_loop]. rewrite (proj2 (Z.ltb_lt _ _)), Er, E, Eq by done.
  apply Hf. lia.
Qed.

Lemma dispatch_loop_grows n limit d w d' w' : loopp n limit d w = Some (Ok d', w') → (d ≤ d')%Z.
Proof.
  revert d w. induction n as [|n IH]; intros d w; cbn [dispatch_loop]; [done|].
  destruct (negb _); [by intros [= <- _]|]. destruct (pending_rows limit w.1); [by intros [= <- _]|].
  destruct (rowsp _ limit d 0 w) as [[[d1 q]|e] w1] eqn:E; [|done].
  apply dispatch_rows_counts in E as (Hd & _). destruct (_ =? _)%Z; [by intros [= <- _]|].
  intros ?%IH. lia.
Qed.

Lemma drain_loop_ends d k w : ∃ fuel r, ∀ n, (fuel ≤ n)%nat → drainp n d k w = Some r.
Proof.
  remember (Z.to_nat k) as c eqn:Hc. revert d k w Hc. induction (lt_wf c) as [c _ IH]. intros d k w Hc.
  destruct (decide (0 < k)%Z) as [Hk|Hk].
  2:{ exists 1, (Ok d, w). intros [|n] Hn; [lia|]. cbn [drain_loop]. by rewrite (proj2 (Z.ltb_ge _ _)) by lia. }
  destruct (check_limit k) as [[]|e] eqn:El.
  2:{ exists 1, (Err e, w). intros [|n] Hn; [lia|]. cbn [drain_loop]. unfold dispatch. by rewrite (proj2 (Z.ltb_lt _ _)), El by done. }
  destruct (dispatch_loop_ends k 0 w) as (f1 & [r w'] & Hf1).
  assert (∃ fuel x, ∀ n, (fuel ≤ n)%nat → match r with
    | Ok b => if (b =? 0)%Z then Some (Ok d, w') else drainp n (d + b) (k - b) w' | Err e => Some (Err e, w') end = Some x)
    as (f2 & x & Hf2).
  { destruct r as [b|e]; [|by exists 0, (Err e, w')]. destruct (b =? 0)%Z eqn:Eb; [by exists 0, (Ok d, w')|].
    specialize (Hf1 f1 ltac:(lia)). apply dispatch_loop_grows in Hf1. apply Z.eqb_neq in Eb.
    apply (IH (Z.to_nat (k - b))); [|done]. lia. }
  exists (S (f1 `max` f2)), x. intros [|n] Hn; [lia|]. cbn [drain_loop]. rewrite (proj2 (Z.ltb_lt _ _)) by done.
  unfold dispatch. rewrite El, Hf1 by lia. cbn [negb]. rewrite <-(Hf2 n) by lia. by destruct r.
Qed.
Lemma pending_rows_nil limit t : (0 < limit)%Z → pending_rows limit t = [] → List.filter is_pending t = [].
Proof.
  unfold pending_rows. intros Hl. destruct (sort_by pending_order (List.filter is_pending t)) as [|r l] eqn:E.
  - by apply sort_by_nil_inv in E.
  - by replace (Z.to_nat limit) with (S (Z.to_nat (limit - 1))) by lia.
Qed.

(** A round that delivers nothing leaves no pending row. *)
Lemma dispatch_loop_idle n limit d w w' :
  (0 < limit)%Z → (d < limit)%Z → loopp n limit d w = Some (Ok d, w') → List.filter is_pending w'.1 = [].
Proof.
  intros Hl Hd. revert w. induction n as [|n IH]; intros w; cbn [dispatch_loop]; [done|].
  rewrite (proj2 (Z.ltb_lt _ _)) by done. cbn [negb]. destruct (pending_rows limit w.1) as [|r rows] eqn:Er.
  { intros [= <-]. by eapply pending_rows_nil. }
  destruct (rowsp _ limit d 0 w) as [[[d1 q]|e] w1] eqn:E; [|done]. pose proof E as Hm.
  apply dispatch_rows_moves in Hm; [|done]. apply dispatch_rows_counts in E as (Hd1 & Hq & _).
  destruct (q =? 0)%Z eqn:Eq.
  - apply Z.eqb_eq in Eq. intros [= -> <-]. lia.
  - intros Hn. pose proof (dispatch_loop_grows _ _ _ _ _ _ Hn). assert (d1 = d) as -> by lia. by eapply IH.
Qed.

Lemma drain_loop_idle n d k w d' w' :
  drainp n d k w = Some (Ok d', w') → (d' - d < k)%Z → List.filter is_pending w'.1 = [].
Proof.
  revert d k w. induction n as [|n IH]; intros d k w; cbn [drain_loop]; [done|].
  destruct (0 <? k)%Z eqn:Ek; cbn [negb]; [|intros [= <- <-]; apply Z.ltb_ge in Ek; lia].
  unfold dispatch. destruct (check_limit k); [|done]. destruct (loopp n k 0 w) as [[[b|e] w1]|] eqn:E; [|done..].
  destruct (b =? 0)%Z eqn:Eb.
  - apply Z.eqb_eq in Eb as ->. apply Z.ltb_lt in Ek. intros [= <- <-] _. by eapply dispatch_loop_idle.
  - intros H Hlt. eapply IH; [exact H|lia].
Qed.
End termination.

(** ** What is published *)

Lemma table_ok_map t f :
  (∀ r, r_id (f r) = r_id r ∧ r_owner (f r) = r_owner r ∧ r_contract (f r) = r_contract r ∧
     r_idempotency_key (f r) = r_idempotency_key r) → table_ok t → table_ok (f <$> t).
Proof.
  intros Hf [Hn Hk]. split.
  - rewrite <-list_fmap_compose. erewrite list_fmap_ext; [exact Hn|]. intros i r _. apply Hf.
  - intros i j r s k. rewrite (list_lookup_fmap f t i), (list_lookup_fmap f t j).
    intros (r0 & Hr & ->)%fmap_Some (s0 & Hs & ->)%fmap_Some.
    destruct (Hf r0) as (_ & -> & -> & ->), (Hf s0) as (_ & -> & -> & ->). by apply Hk.
Qed.

Lemma hits_spec id r : hits id r = true ↔ r_id r = id ∧ is_pending r = true.
Proof. unfold hits. by rewrite andb_true_iff, String.eqb_eq. Qed.

(** A change of the status columns. *)
Definition status_change (f : row → row) : Prop :=
  ∀ r, r_id (f r) = r_id r ∧ r_owner (f r) = r_owner r ∧ r_contract (f r) = r_contract r ∧
    r_idempotency_key (f r) = r_idempotency_key r ∧ r_payload_json (f r) = r_payload_json r ∧ is_pending (f r) = false.

Lemma update_pending_spec {X} id f (w : table * X) x w' :
  status_change f → update_pending id f w = (x, w') →
  evolves w.1 w'.1 ∧ w'.2 = w.2 ∧ (table_ok w.1 → table_ok w'.1) ∧
  (x = Ok tt → ∃ r, r ∈ w.1 ∧ r_id r = id ∧ is_pending r = true ∧ f r ∈ w'.1).
Proof.
  intros Hf. unfold update_pending. rewrite run_bind. unfold get_table, gets. rewrite run_bind. unfold put_table, modify_st.
  unfold raise_if, lift. intros [= <- <-]. cbn [fst snd]. split_and!; [|done| |].
  - apply evolves_map. intros r _. destruct (hits id r) eqn:E; [|apply row_step_refl]. apply hits_spec in E as [_ E].
    destruct (Hf r) as (? & ? & ? & ? & ? & ?). by right.
  - apply table_ok_map. intros r. destruct (hits id r); [|done]. destruct (Hf r) as (? & ? & ? & ? & ?). done.
  - intros Hlen%fail_if_ok. bool_to_prop. apply Nat.eqb_eq in Hlen.
    destruct (List.filter (hits id) w.1) as [|r l] eqn:E; [done|].
    assert (In r (List.filter (hits id) w.1)) as [Hr Hh]%filter_In by (rewrite E; by left).
    pose proof Hh as [Hid Hp]%hits_spec. exists r. split_and!; [by apply list_elem_of_In|done..|].
    apply list_elem_of_fmap. exists r. rewrite Hh. split; [done|by apply list_elem_of_In].
Qed.

Lemma set_dispatched_change now : status_change (set_dispatched now).
Proof. done. Qed.

Lemma set_quarantined_change now reason : status_change (set_quarantined now reason).
Proof. intros r. by rewrite set_quarantined_done. Qed.

Lemma quarantine_spec {X} now id reason (w : table * X) x w' :
  quarantine now id reason w = (x, w') → evolves w.1 w'.1 ∧ w'.2 = w.2 ∧ (table_ok w.1 → table_ok w'.1).
Proof.
  unfold quarantine, raise_if. rewrite run_bind_lift. destruct (fail_if _ _ _).
  - intros H. apply update_pending_spec in H as (? & ? & ? & _); [done|apply set_quarantined_change].
  - intros [= <- <-]. by split_and!; [apply outbox_evolves_refl|..].
Qed.

Abbreviation envelope_of := (as_envelope validate_scope validate_resource installation check_envelope loads fromisoformat).

(** The envelope is that of a row marked as dispatched. *)
Definition delivered (t : table) (e : EventEnvelope Sc Re) : Prop :=
  ∃ r event, r ∈ t ∧ r_id r = ev_id e ∧ r_dispatched_at r ≠ None ∧
    event_from_row loads r = Ok (Some event) ∧ envelope_of event = Ok e.

Lemma delivered_evolves t t' e : evolves t t' → delivered t e → delivered t' e.
Proof.
  intros He (r & ev & Hr & Hid & Hd & H1 & H2). destruct (evolves_row _ _ _ He Hr) as (r' & Hr' & [->|(Hp & _)]).
  - by exists r, ev.
  - exfalso. apply andb_true_iff in Hp as [Hp%bool_decide_eq_true _]. done.
Qed.

(** [publish] with a log of the envelopes it is called with. *)
Definition logged (publish : EventEnvelope Sc Re → M (table * Y) Z) (e : EventEnvelope Sc Re) :
    M (table * (Y * list (EventEnvelope Sc Re))) Z :=
  λ w, let '(r, (t, y)) := publish e (w.1, w.2.1) in (r, (t, (y, w.2.2 ++ [e]))).

(** From the table [t0] on, the events [sent] were published and marked, and
    those of [open] published only. *)
Record log_ok (t0 t : table) (sent open : list (EventEnvelope Sc Re)) : Prop := {
  lo_table : table_ok t;
  lo_evolves : evolves t0 t;
  lo_once : NoDup (ev_id <$> sent ++ open);
  lo_due : Forall (λ e, ¬ settled t0 (ev_id e)) (sent ++ open);
  lo_delivered : Forall (delivered t) sent;
}.

Lemma log_ok_start t : table_ok t → log_ok t t [] [].
Proof. intros Ht. split; [done|apply outbox_evolves_refl|constructor..]. Qed.

Lemma log_ok_evolves t0 t t' sent open : log_ok t0 t sent open → table_ok t' → evolves t t' → log_ok t0 t' sent open.
Proof.
  intros [H1 H2 H3 H4 H5] Ht He. split; [done|by eapply outbox_evolves_trans|done..|].
  eapply Forall_impl; [exact H5|]. intros e. by apply delivered_evolves.
Qed.

Context (publish : EventEnvelope Sc Re → M (table * Y) Z).
Hypothesis check_id : ∀ e e', check_envelope e = Ok e' → ev_id e' = ev_id e.
Hypothesis publish_ok : ∀ e w x w', publish e w = (x, w') → table_ok w.1 → table_ok w'.1 ∧ evolves w.1 w'.1.

Abbreviation rowl := (dispatch_row validate_scope validate_resource installation check_envelope loads fromisoformat clock (logged publish)).
Abbreviation rowsl := (dispatch_rows validate_scope validate_resource installation check_envelope loads fromisoformat clock (logged publish)).
Abbreviation loopl := (dispatch_loop validate_scope validate_resource installation check_envelope loads fromisoformat clock (logged publish)).
Abbreviation drainl := (drain_loop validate_scope validate_resource installation check_envelope loads fromisoformat clock (logged publish)).

Lemma as_envelope_id event e : envelope_of event = Ok e → ev_id e = oe_id event.
Proof.
  unfold as_envelope. destruct (envelope_from_row _ _ _ _ _ _ event) as [e'|x] eqn:E; cbn [result_catch]; [|by destruct (exn_in x [ValidationErr; TypeErr; ValueErr])].
  intros [= ->]. unfold envelope_from_row in E. inv_ok E. by apply check_id in E.
Qed.

Lemma event_from_row_id r event : event_from_row loads r = Ok (Some event) → oe_id event = r_id r.
Proof.
  unfold event_from_row. destruct (loads _) as [[]|x]; try done; [by intros [= <-]|by destruct (exn_in x [TypeErr; ValueErr])].
Qed.

Lemma logged_spec e w x w' :
  logged publish e w = (x, w') → table_ok w.1 → table_ok w'.1 ∧ evolves w.1 w'.1 ∧ w'.2.2 = w.2.2 ++ [e].
Proof.
  unfold logged. destruct (publish e (w.1, w.2.1)) as [x' [t y]] eqn:E. intros [= -> <-] Ht.
  by destruct (publish_ok _ _ _ _ E Ht).
Qed.

(** The row was read as pending. *)
Definition due (t0 t : table) (r : row) : Prop := is_pending r = true ∧ ∃ tf, r ∈ tf ∧ table_ok tf ∧ evolves t0 tf ∧ evolves tf t.

Lemma due_evolves t0 t t' r : evolves t t' → due t0 t r → due t0 t' r.
Proof. intros He (Hp & tf & H1 & H2 & H3 & H4). split; [done|]. exists tf. split_and!; [done..|]. by eapply outbox_evolves_trans. Qed.

Lemma due_not_settled t0 t r : due t0 t r → ¬ settled t0 (r_id r).
Proof.
  intros (Hp & tf & Hr & [Hn _] & He & _) Hs. apply (settled_evolves _ _ _ Hn He) in Hs as [_ Hs]. apply Hs. by exists r.
Qed.

Lemma dispatch_row_log t0 r w sent x w' :
  log_ok t0 w.1 sent [] → w.2.2 = sent → due t0 w.1 r → r_id r ∉ ev_id <$> sent → rowl r w = (x, w') →
  evolves w.1 w'.1 ∧ ∃ new, w'.2.2 = sent ++ new ∧
  match x with
  | Ok b => log_ok t0 w'.1 (sent ++ new) [] ∧ ev_id <$> new = if b then [r_id r] else []
  | Err _ => length new ≤ 1 ∧ log_ok t0 w'.1 sent new
  end.
Proof.
  intros Hlog Hw Hdue Hid. unfold dispatch_row. rewrite run_bind_lift.
  assert (∀ now reason, (quarantine now (r_id r) reason ≫= λ _, mret false) w = (x, w') →
    evolves w.1 w'.1 ∧ ∃ new, w'.2.2 = sent ++ new ∧
    match x with
    | Ok b => log_ok t0 w'.1 (sent ++ new) [] ∧ ev_id <$> new = if b then [r_id r] else []
    | Err _ => length new ≤ 1 ∧ log_ok t0 w'.1 sent new
    end) as Hq.
  { intros now reason. rewrite run_bind. destruct (quarantine now (r_id r) reason w) as [q w1] eqn:E.
    apply quarantine_spec in E as (He & E2 & Ht). specialize (Ht (lo_table _ _ _ _ Hlog)).
    pose proof (log_ok_evolves _ _ _ _ _ Hlog Ht He) as Hlog'.
    destruct q; intros [= <- <-]; (split; [done|]); exists []; rewrite E2, app_nil_r; split_and!; [done|done|done|done|simpl; lia|done]. }
  destruct (event_from_row loads r) as [[event|]|e] eqn:Ee; [|apply Hq|].
  2:{ intros [= <- <-]. split; [apply outbox_evolves_refl|]. exists []. rewrite app_nil_r. split_and!; [done|simpl; lia|done]. }
  rewrite (event_from_row_id _ _ Ee). destruct (envelope_of event) as [e|e] eqn:Ea.
  2:{ destruct (exn_in e _); [apply Hq|]. intros [= <- <-]. split; [apply outbox_evolves_refl|]. exists [].
      rewrite app_nil_r. split_and!; [done|simpl; lia|done]. }
  pose proof (as_envelope_id _ _ Ea) as Hie. rewrite (event_from_row_id _ _ Ee) in Hie.
  assert (∀ t, table_ok t → evolves w.1 t → log_ok t0 t sent [e]) as Hpub.
  { intros t Ht He. destruct (log_ok_evolves _ _ _ _ _ Hlog Ht He) as [? ? Ho Hf ?]. split; [done..| | |done].
    - rewrite app_nil_r in Ho. rewrite fmap_app. apply NoDup_app. split_and!; [done| |apply NoDup_singleton].
      intros i Hi ->%list_elem_of_singleton. by rewrite <-Hie in Hid.
    - rewrite app_nil_r in Hf. apply Forall_app. split; [done|]. apply Forall_singleton. rewrite Hie. by eapply due_not_settled. }
  rewrite run_bind. destruct (logged publish e w) as [[n|e'] w1] eqn:Ep;
    apply logged_spec in Ep as (Ht1 & He1 & Hl1); try apply Hlog; rewrite Hw in Hl1.
  - rewrite run_bind. unfold mark_dispatched. destruct (update_pending _ _ w1) as [u w2] eqn:Eu.
    apply update_pending_spec in Eu as (He2 & E2 & Ht2 & Hu); [|apply set_dispatched_change].
    assert (log_ok t0 w2.1 sent [e]) as Hlog2 by (eapply log_ok_evolves; [by apply Hpub|by apply Ht2|done]).
    assert (evolves w.1 w2.1) as He by by eapply outbox_evolves_trans.
    destruct u as [[]|x1]; intros [= <- <-]; (split; [done|]); exists [e]; rewrite E2, Hl1; (split; [done|]); [|by split].
    split; [|by rewrite <-Hie]. destruct Hlog2 as [? ? ? ? Hd]. split; rewrite ?app_nil_r; try done.
    apply Forall_app; split; [done|]. apply Forall_singleton.
    destruct (Hu eq_refl) as (s & Hs & Hids & Hps & Hin). eexists _, event. split; [exact Hin|].
    split; [by rewrite Hie|]. split; [done|].
    destruct Hdue as (_ & tf & Hr & [Hn _] & _ & Hef).
    destruct (evolves_row tf w1.1 r) as (r' & Hr' & Hst); [by eapply outbox_evolves_trans|done|].
    assert (s = r') as ->. { eapply same_id; [apply Ht1|done|done|]. by rewrite Hids, (row_step_id _ _ Hst). }
    destruct Hst as [->|(_ & ? & _)]; [done|congruence].
  - intros [= <- <-]. split; [done|]. exists [e]. rewrite Hl1. split; [done|]. split; [done|by apply Hpub].
Qed.

Lemma dispatch_rows_log t0 rows limit d q w sent x w' :
  log_ok t0 w.1 sent [] → w.2.2 = sent → Forall (due t0 w.1) rows → NoDup (r_id <$> rows) →
  (∀ r, r ∈ rows → r_id r ∉ ev_id <$> sent) → rowsl rows limit d q w = (x, w') →
  ∃ sent' open, w'.2.2 = sent' ++ open ∧ log_ok t0 w'.1 sent' open ∧
    match x with
    | Ok (d', _) => open = [] ∧ (d' - d = Z.of_nat (length sent') - Z.of_nat (length sent))%Z
    | Err _ => length open ≤ 1
    end.
Proof.
  revert d q w sent. induction rows as [|r rows IH]; intros d q w sent Hlog Hw Hdue Hn Hids; cbn [dispatch_rows].
  { rewrite run_ret. intros [= <- <-]. exists sent, []. rewrite app_nil_r. split_and!; [done..|lia]. }
  apply Forall_cons in Hdue as [Hr Hdue]. apply NoDup_cons in Hn as [Hnr Hn]. rewrite run_bind.
  destruct (rowl r w) as [b w1] eqn:E.
  apply (dispatch_row_log t0) with (sent := sent) in E as (He & new & Hl1 & Hx); [|done..|apply Hids; by left].
  destruct b as [b|e].
  2:{ intros [= <- <-]. exists sent, new. by destruct Hx. }
  destruct Hx as [Hlog1 Hnew].
  assert (length new = if b then 1 else 0) as Hlen by (rewrite <-(length_fmap ev_id), Hnew; by destruct b).
  assert (∀ d1 q1, rowsl rows limit d1 q1 w1 = (x, w') → (d1 - d = Z.of_nat (length new))%Z →
    ∃ sent' open, w'.2.2 = sent' ++ open ∧ log_ok t0 w'.1 sent' open ∧
    match x with
    | Ok (d', _) => open = [] ∧ (d' - d = Z.of_nat (length sent') - Z.of_nat (length sent))%Z
    | Err _ => length open ≤ 1
    end) as Hrest.
  { intros d1 q1 Hrun Hd1.
    destruct (IH d1 q1 w1 (sent ++ new) Hlog1 Hl1) as (sent' & open & Hl' & Hlog' & Hx); [| |..|exact Hrun|].
    - eapply Forall_impl; [exact Hdue|]. intros. by eapply due_evolves.
    - done.
    - intros s Hs. rewrite fmap_app, not_elem_of_app. split; [apply Hids; by right|]. rewrite Hnew.
      destruct b; [|apply not_elem_of_nil]. rewrite list_elem_of_singleton. intros Heq. apply Hnr. rewrite <-Heq.
      by apply list_elem_of_fmap_2.
    - exists sent', open. split; [done|]. split; [done|]. destruct x as [[d' q']|]; [|done]. destruct Hx as [? Hx].
      split; [done|]. rewrite length_app in Hx. lia. }
  destruct b.
  - destruct (limit <=? d + 1)%Z; [|intros H; apply (Hrest _ _ H); lia].
    rewrite run_ret. intros [= <- <-]. exists (sent ++ new), []. rewrite app_nil_r.
    split_and!; [done..|]. rewrite length_app. lia.
  - intros H. apply (Hrest _ _ H). lia.
Qed.

Lemma elem_of_pending_rows limit t r : r ∈ pending_rows limit t → r ∈ t ∧ is_pending r = true.
Proof.
  unfold pending_rows. intros (i & Hi & _)%elem_of_take. apply list_elem_of_lookup_2 in Hi. rewrite elem_of_sort_by in Hi.
  apply list_elem_of_In, filter_In in Hi as [Hi Hp]. split; [by apply list_elem_of_In|done].
Qed.

Lemma pending_rows_due t0 limit t : table_ok t → evolves t0 t → Forall (due t0 t) (pending_rows limit t).
Proof.
  intros Ht He. apply Forall_forall. intros r [Hr Hp]%elem_of_pending_rows. split; [done|].
  exists t. split_and!; [done..|apply outbox_evolves_refl].
Qed.

Lemma filter_ids p t : NoDup (r_id <$> t) → NoDup (r_id <$> List.filter p t).
Proof.
  induction t as [|r t IH]; csimpl; [done|]. intros [Hr Hn]%NoDup_cons. destruct (p r); [|by apply IH].
  csimpl. apply NoDup_cons. split; [|by apply IH]. intros (s & Hs & Hin)%list_elem_of_fmap. apply Hr. rewrite Hs.
  apply list_elem_of_fmap_2. apply list_elem_of_In, filter_In in Hin as [? _]. by apply list_elem_of_In.
Qed.

Lemma pending_rows_ids limit t : table_ok t → NoDup (r_id <$> pending_rows limit t).
Proof.
  intros [Hn _]. unfold pending_rows. eapply sublist_NoDup; [|apply (fmap_sublist r_id), sublist_take].
  rewrite sort_by_perm. by apply filter_ids.
Qed.

Lemma pending_not_sent t0 limit t sent r :
  log_ok t0 t sent [] → r ∈ pending_rows limit t → r_id r ∉ ev_id <$> sent.
Proof.
  intros Hlog [Hr Hp]%elem_of_pending_rows (e & Hid & He)%list_elem_of_fmap.
  pose proof (lo_delivered _ _ _ _ Hlog) as Hd. rewrite Forall_forall in Hd. apply Hd in He as (s & ev & Hs & Hids & Hdis & _).
  assert (s = r) as -> by (eapply same_id; [apply Hlog|done|done|congruence]).
  apply andb_true_iff in Hp as [Hp%bool_decide_eq_true _]. done.
Qed.

(** What a method leaves behind, from the log [sent] on. *)
Definition drained (t0 : table) (sent : list (EventEnvelope Sc Re)) (d : Z) (x : result Z)
    (w' : table * (Y * list (EventEnvelope Sc Re))) : Prop :=
  ∃ sent' open, w'.2.2 = sent' ++ open ∧ log_ok t0 w'.1 sent' open ∧
    match x with
    | Ok d' => open = [] ∧ (d' - d = Z.of_nat (length sent') - Z.of_nat (length sent))%Z
    | Err _ => length open ≤ 1
    end.

Lemma drained_now t0 w sent d : log_ok t0 w.1 sent [] → w.2.2 = sent → drained t0 sent d (Ok d) w.
Proof. intros Hlog Hw. exists sent, []. rewrite app_nil_r. split_and!; [done..|lia]. Qed.

Lemma drained_err t0 w sent d e : log_ok t0 w.1 sent [] → w.2.2 = sent → drained t0 sent d (Err e) w.
Proof. intros Hlog Hw. exists sent, []. rewrite app_nil_r. split_and!; [done..|simpl; lia]. Qed.

Lemma drained_trans t0 sent d d1 w1 x w' :
  drained t0 sent d (Ok d1) w1 → (∀ sent1, log_ok t0 w1.1 sent1 [] → w1.2.2 = sent1 → drained t0 sent1 d1 x w') →
  drained t0 sent d x w'.
Proof.
  intros (sent1 & open & Hl & Hlog & -> & Hd) Hk. rewrite app_nil_r in Hl.
  destruct (Hk sent1 Hlog Hl) as (sent' & open & Hl' & Hlog' & Hx). exists sent', open. split_and!; [done..|].
  destruct x as [d'|]; [|done]. destruct Hx. split; [done|lia].
Qed.

Lemma dispatch_loop_log t0 n limit d w sent x w' :
  log_ok t0 w.1 sent [] → w.2.2 = sent → loopl n limit d w = Some (x, w') → drained t0 sent d x w'.
Proof.
  revert d w sent. induction n as [|n IH]; intros d w sent Hlog Hw; cbn [dispatch_loop]; [done|].
  destruct (negb _); [intros [= <- <-]; by apply drained_now|].
  destruct (pending_rows limit w.1) as [|r rows] eqn:Er; [intros [= <- <-]; by apply drained_now|].
  destruct (rowsl _ limit d 0 w) as [dq w1] eqn:E.
  apply (dispatch_rows_log t0) with (sent := sent) in E as (sent1 & open & Hl1 & Hlog1 & Hx);
    [|done..|rewrite <-Er; by apply pending_rows_due; apply Hlog|rewrite <-Er; by apply pending_rows_ids, Hlog|].
  2:{ intros s Hs. eapply pending_not_sent; [done|by rewrite Er]. }
  destruct dq as [[d1 q]|e].
  - assert (drained t0 sent d (Ok d1) w1) as Hd1 by by exists sent1, open.
    destruct (q =? 0)%Z; [by intros [= <- <-]|]. intros H. eapply drained_trans; [exact Hd1|]. intros sent2 Hlog2 Hw2.
    by eapply IH.
  - intros [= <- <-]. by exists sent1, open.
Qed.

Lemma drain_loop_log t0 n d k w sent x w' :
  log_ok t0 w.1 sent [] → w.2.2 = sent → drainl n d k w = Some (x, w') → drained t0 sent d x w'.
Proof.
  revert d k w sent. induction n as [|n IH]; intros d k w sent Hlog Hw; cbn [drain_loop]; [done|].
  destruct (negb _); [intros [= <- <-]; by apply drained_now|]. unfold dispatch.
  destruct (check_limit k); [|intros [= <- <-]; by apply drained_err].
  destruct (loopl n k 0 w) as [[b w1]|] eqn:E; [|done]. apply (dispatch_loop_log t0 _ _ _ _ sent) in E; [|done..].
  destruct b as [b|e].
  - assert (drained t0 sent d (Ok (d + b)%Z) w1) as Hb.
    { destruct E as (s1 & o & Hl & Hlog1 & -> & Hx). exists s1, []. split_and!; [done..|lia]. }
    destruct (b =? 0)%Z eqn:Eb.
    + apply Z.eqb_eq in Eb as ->. rewrite Z.add_0_r in Hb. by intros [= <- <-].
    + intros H. eapply drained_trans; [exact Hb|]. intros s1 Hlog1 Hw1. by eapply IH.
  - intros [= <- <-]. exact E.
Qed.
End laws.

(** ** Enqueueing *)

Section enqueueing.
Context {Sc Re Y : Type}.
Context (validate_scope : list (string * json) → result Sc) (validate_resource : list (string * json) → result Re)
  (dump_scope_json : Sc → string) (dump_resource_json : Re → string) (installation : Sc)
  (check_envelope : EventEnvelope Sc Re → result (EventEnvelope Sc Re))
  (loads : string → result json) (dumps_ascii : json → string)
  (fromisoformat : string → result stamp) (isoformat : stamp → string).
Abbreviation enqueueX := (@enqueue Sc Re Y validate_scope validate_resource dump_scope_json dump_resource_json installation
  check_envelope loads dumps_ascii fromisoformat isoformat).

Lemma same_key_spec o c k r :
  same_key o c k r = true ↔ r_owner r = o ∧ r_contract r = c ∧ r_idempotency_key r = Some k.
Proof. unfold same_key. rewrite !andb_true_iff, !String.eqb_eq, bool_decide_eq_true. tauto. Qed.

Lemma violates_false t r :
  violates t r = false → (r_id r ∉ r_id <$> t) ∧
  ∀ k s, r_idempotency_key r = Some k → s ∈ t → ¬ (r_owner s = r_owner r ∧ r_contract s = r_contract r ∧ r_idempotency_key s = Some k).
Proof.
  unfold violates. intros [H1 H2]%orb_false_iff. split.
  - intros (s & Hs & Hin)%list_elem_of_fmap. apply not_true_iff_false in H1. apply H1, existsb_exists.
    exists s. split; [by apply list_elem_of_In|]. by apply String.eqb_eq.
  - intros k s Hk Hin Hs. rewrite Hk in H2. apply not_true_iff_false in H2. apply H2, existsb_exists.
    exists s. split; [by apply list_elem_of_In|]. by apply same_key_spec.
Qed.

Lemma table_ok_insert t r : table_ok t → violates t r = false → table_ok (t ++ [r]).
Proof.
  intros [Hn Hk] [Hid Hkey]%violates_false. split.
  - rewrite fmap_app. apply NoDup_app. split_and!; [done| |apply NoDup_singleton].
    intros i Hi ->%list_elem_of_singleton. done.
  - intros i j q s k Hi Hj Hqk Hsk Ho Hc.
    apply lookup_app_Some in Hi as [Hi|[Hli [Hi0 ->]%list_lookup_singleton_Some]],
      Hj as [Hj|[Hlj [Hj0 ->]%list_lookup_singleton_Some]]; [by eapply Hk| | |lia].
    + apply list_elem_of_lookup_2 in Hi. by destruct (Hkey k q Hsk Hi).
    + apply list_elem_of_lookup_2 in Hj. by destruct (Hkey k s Hqk Hj).
Qed.

(** The three ways out of [enqueue]. *)
Lemma enqueue_spec event_id created_at owner contract version payload key scope resource correlation (w : table * Y) x w' :
  enqueueX event_id created_at owner contract version payload key scope resource correlation w = (x, w') →
  (∃ e, x = Err e ∧ w' = w) ∨
  (∃ envelope, as_envelope validate_scope validate_resource installation check_envelope loads fromisoformat
       (Event event_id owner contract version (match json_snapshot payload with Ok j => j | Err _ => JNull end) key created_at
          (dump_scope dump_scope_json (Some (or_default scope installation))) (dump_resource dump_resource_json resource) correlation)
       = Ok envelope ∧
     let r := new_row dump_scope_json dump_resource_json dumps_ascii isoformat envelope in
     (violates w.1 r = false ∧ x = Ok (ev_id envelope) ∧ w' = (w.1 ++ [r], w.2)) ∨
     (violates w.1 r = true ∧ w' = w ∧ ∃ k q, key = Some k ∧ q ∈ w.1 ∧ same_key owner contract k q = true ∧ x = Ok (r_id q))).
Proof.
  unfold enqueue. rewrite run_bind_lift. destruct (json_snapshot payload) as [j|e]; [|intros [= <- <-]; left; by exists e].
  rewrite run_bind_lift. destruct (as_envelope _ _ _ _ _ _ _) as [env|e] eqn:Ee; [|intros [= <- <-]; left; by exists e].
  rewrite run_bind. unfold get_table at 1, gets. destruct (violates w.1 _) eqn:Ev; cbn [negb].
  - destruct key as [k|]; [|intros [= <- <-]; left; by eexists].
    destruct (List.filter _ _) as [|q l] eqn:Ef; [intros [= <- <-]; left; by eexists|].
    intros [= <- <-]. right. exists env. split; [done|]. right. split_and!; [done..|].
    assert (In q (List.filter (same_key owner contract k) w.1)) as [Hq Hk]%filter_In by (rewrite Ef; by left).
    exists k, q. split_and!; [done|by apply list_elem_of_In|done..].
  - unfold put_table, modify_st. rewrite run_bind. intros [= <- <-]. right. exists env. split; [done|]. left. by destruct w.
Qed.

(** Whatever [enqueue] answers, the constraints hold and no row changes. *)
Lemma enqueue_ok event_id created_at owner contract version payload key scope resource correlation (w : table * Y) x w' :
  enqueueX event_id created_at owner contract version payload key scope resource correlation w = (x, w') →
  table_ok w.1 → table_ok w'.1 ∧ evolves w.1 w'.1.
Proof.
  intros [(e & _ & ->)|(env & _ & [(Hv & _ & ->)|(_ & -> & _)])]%enqueue_spec Ht.
  - split; [done|apply outbox_evolves_refl].
  - split; [by apply table_ok_insert|apply evolves_app].
  - split; [done|apply outbox_evolves_refl].
Qed.

Lemma same_key_unique t o c k q s : table_ok t → q ∈ t → s ∈ t → same_key o c k q = true → same_key o c k s = true → q = s.
Proof.
  intros [_ Hk] [i Hi]%list_elem_of_lookup [j Hj]%list_elem_of_lookup (Ho & Hc & Hq)%same_key_spec (Ho' & Hc' & Hs)%same_key_spec.
  assert (i = j) as ->; [|congruence]. by eapply Hk; [done..|congruence|congruence].
Qed.

Lemma same_key_evolves t t' o c k r : evolves t t' → r ∈ t → same_key o c k r = true →
  ∃ r', r' ∈ t' ∧ r_id r' = r_id r ∧ same_key o c k r' = true.
Proof.
  intros He Hr (Ho & Hc & Hk)%same_key_spec. destruct (evolves_row _ _ _ He Hr) as (r' & Hr' & Hs). exists r'.
  split; [done|]. split; [by apply row_step_id|]. apply same_key_spec.
  destruct Hs as [->|(_ & _ & _ & -> & -> & -> & _)]; done.
Qed.

Lemma violates_key t r o c k q :
  same_key o c k r = true → q ∈ t → same_key o c k q = true → violates t r = true.
Proof.
  intros Hr Hq (Ho & Hc & Hk)%same_key_spec. apply not_false_iff_true. intros [_ Hv]%violates_false.
  apply same_key_spec in Hr as (Hro & Hrc & Hrk). apply (Hv k q Hrk Hq). split_and!; congruence.
Qed.

(** The contracts package keeps the fields it validates. *)
Definition keeps_fields (check : EventEnvelope Sc Re → result (EventEnvelope Sc Re)) : Prop :=
  ∀ e e', check e = Ok e' → ev_id e' = ev_id e ∧ ev_owner e' = ev_owner e ∧ ev_contract e' = ev_contract e ∧
    ev_idempotency_key e' = ev_idempotency_key e.

Lemma as_envelope_fields event e :
  keeps_fields check_envelope → as_envelope validate_scope validate_resource installation check_envelope loads fromisoformat event = Ok e →
  ev_id e = oe_id event ∧ ev_owner e = oe_owner event ∧ ev_contract e = oe_contract event ∧
  ev_idempotency_key e = oe_idempotency_key event.
Proof.
  intros Hkeep. unfold as_envelope. destruct (envelope_from_row _ _ _ _ _ _ event) as [e'|x] eqn:E; cbn [result_catch];
    [|by destruct (exn_in x [ValidationErr; TypeErr; ValueErr])].
  intros [= ->]. unfold envelope_from_row in E. inv_ok E. by apply Hkeep in E.
Qed.

Lemma enqueue_keyed event_id created_at o c version payload k scope resource correlation (w : table * Y) i w' :
  keeps_fields check_envelope → enqueueX event_id created_at o c version payload (Some k) scope resource correlation w = (Ok i, w') →
  ∃ q, q ∈ w'.1 ∧ r_id q = i ∧ same_key o c k q = true.
Proof.
  intros Hkeep [(e & [=] & _)|(env & Hev & [(_ & [= ->] & ->)|(_ & -> & k' & q & [= <-] & Hq & Hk & [= ->])])]%enqueue_spec.
  - apply as_envelope_fields in Hev as (_ & Ho & Hc & Hk); [|done]. eexists. split; [apply elem_of_app; right; by left|].
    split; [done|]. by apply same_key_spec.
  - by exists q.
Qed.

(** An event published with an idempotency key is stored once for all time:
    when [enqueue] returns an identifier for an owner, a contract and a key,
    then, however the table moves on (rows published, put aside, added) and
    whatever payload, version, scope or moment a later [enqueue] of the same owner, contract and key comes
    with, it changes nothing and any identifier it returns is the first one;
    the schema's constraints hold throughout. *)
Theorem enqueue_idempotent event_id created_at o c version payload k scope resource correlation (w : table * Y) i w1 :
  keeps_fields check_envelope → table_ok w.1 →
  enqueueX event_id created_at o c version payload (Some k) scope resource correlation w = (Ok i, w1) →
  table_ok w1.1 ∧ evolves w.1 w1.1 ∧
  ∀ event_id' created_at' version' payload' scope' resource' correlation' (w2 : table * Y) x w3,
    evolves w1.1 w2.1 → table_ok w2.1 →
    enqueueX event_id' created_at' o c version' payload' (Some k) scope' resource' correlation' w2 = (x, w3) →
    w3 = w2 ∧ ∀ j, x = Ok j → j = i.
Proof.
  intros Hkeep Ht Hrun. destruct (enqueue_ok _ _ _ _ _ _ _ _ _ _ _ _ _ Hrun Ht) as [Ht1 He]. split_and!; [done..|].
  intros id2 at2 v2 p2 s2 r2 cor2 w2 x w3 He2 Ht2 Hrun2.
  destruct (enqueue_keyed _ _ _ _ _ _ _ _ _ _ _ _ _ Hkeep Hrun) as (q1 & Hq1 & <- & Hk1).
  destruct (same_key_evolves _ _ _ _ _ _ He2 Hq1 Hk1) as (q2 & Hq2 & <- & Hk2).
  apply enqueue_spec in Hrun2 as [(e & -> & ->)|(env & Hev & [(Hv & _ & _)|(_ & -> & k' & q & [= <-] & Hq & Hk & ->)])].
  - done.
  - apply as_envelope_fields in Hev as (_ & Ho & Hc & Hk); [|done]. erewrite violates_key in Hv; [done| |exact Hq2|exact Hk2].
    by apply same_key_spec.
  - split; [done|]. intros j [= <-]. by rewrite (same_key_unique w2.1 o c k q q2).
Qed.
End enqueueing.

(** ** Draining *)

(** C34: Whatever the bus does, a drain comes to its end: from some fuel on,
    [_drain_claimed] with the [dispatch] it repeats has a result, which more
    fuel does not change. *)
Theorem outbox_drain_terminates {Sc Re X} validate_scope validate_resource (installation : Sc)
    (check_envelope : EventEnvelope Sc Re → result (EventEnvelope Sc Re)) loads fromisoformat clock
    (publish : EventEnvelope Sc Re → M (table * X) Z) limit w :
  ∃ fuel r, ∀ n, (fuel ≤ n)%nat →
    drain_claimed validate_scope validate_resource installation check_envelope loads fromisoformat clock publish n limit w = Some r.
Proof. apply drain_loop_ends. Qed.

(** C33: A drain publishes what is stored, each event once.  Let the handlers
    reached by [publish] keep the table's constraints and rows (they may enqueue).  Then the
    calls of [publish], in order, are a list [sent ++ open] of envelopes with distinct
    identifiers, none of an event that was dispatched or quarantined before;
    each of [sent] is the envelope of a stored row, now marked as dispatched.
    A drain that returns [n] has made [n] calls, all in [sent], and [n] below the limit
    means that no pending row is left; a drain that raises leaves at most one
    event published and not marked, the one it stopped at. *)
Theorem drain_delivers {Sc Re Y} validate_scope validate_resource (installation : Sc)
    (check_envelope : EventEnvelope Sc Re → result (EventEnvelope Sc Re)) loads fromisoformat clock
    (publish : EventEnvelope Sc Re → M (table * Y) Z) fuel limit t y x w' :
  keeps_fields check_envelope →
  (∀ e w r w', publish e w = (r, w') → table_ok w.1 → table_ok w'.1 ∧ evolves w.1 w'.1) →
  table_ok t →
  drain_claimed validate_scope validate_resource installation check_envelope loads fromisoformat clock (logged publish)
    fuel limit (t, (y, [])) = Some (x, w') →
  ∃ sent open, w'.2.2 = sent ++ open ∧
    log_ok validate_scope validate_resource installation check_envelope loads fromisoformat t w'.1 sent open ∧
    match x with
    | Ok n => open = [] ∧ n = Z.of_nat (length sent) ∧ ((n < limit)%Z → List.filter is_pending w'.1 = [])
    | Err _ => length open ≤ 1
    end.
Proof.
  intros Hkeep Hpub Ht Hrun. pose proof Hrun as Hlog.
  apply (drain_loop_log _ _ _ _ _ _ _ publish) with (t0 := t) (sent := []) in Hlog as (sent & open & Hl & Hlog & Hx);
    [|intros ?? H; by apply Hkeep in H as [H _]|exact Hpub|by apply log_ok_start|done].
  exists sent, open. split_and!; [done..|]. destruct x as [n|e]; [|done]. destruct Hx as [-> Hx].
  split_and!; [done|simpl in Hx; lia|]. intros Hn. eapply drain_loop_idle; [exact Hrun|lia].
Qed.

(** A host whose handler answers each event but the answers with a follow-up. *)
Definition demo_loads (s : string) : result json :=
  if String.eqb s "{}" then Ok (JObj []) else fail ValueErr "Expecting value".

Definition demo_enqueue (event_id contract : string) (key : option string) (payload : pyobj) : M (table * unit) string :=
  enqueue (Re := unit) (λ _, Ok tt) (λ _, Ok tt) (λ _, "{}") (λ _, "{}") tt Ok demo_loads (λ _, "{}") (λ _, Ok (utc_stamp 0)) (λ _, "t")
    event_id "t" "core" contract "1.0.0" payload key None None None.

Definition demo_publish (e : EventEnvelope unit unit) : M (table * unit) Z :=
  if String.eqb (ev_contract e) "core.answer" then raise RuntimeErr "handler failed"
  else _ ← demo_enqueue (String.append "re-" (ev_id e)) "core.answer" (Some (ev_id e)) (PMap 1 true []); mret 1%Z.

Definition demo_rows : table :=
  [Row "e1" "core" "core.asked" "1.0.0" "{}" None "t" None None None None None None;
   Row "e2" "core" "core.asked" "1.0.0" "broken" None "t" None None None None None None;
   Row "e3" "core" "core.asked" "1.0.0" "{}" None "s" None None None None None None].

Definition demo_drain (limit : Z) : option (result Z * (table * (unit * list (EventEnvelope unit unit)))) :=
  drain_claimed (λ _, Ok tt) (λ _, Ok tt) tt Ok demo_loads (λ _, Ok (utc_stamp 0)) (λ _, "now") (logged demo_publish) 10 limit
    (demo_rows, (tt, [])).

Definition demo_summary (limit : Z) : option (bool * list string * list string) :=
  match demo_drain limit with
  | Some (x, (t, (_, log))) => Some (is_ok x, ev_id <$> log, r_id <$> List.filter is_pending t)
  | None => None
  end.

Example demo_drain_two : demo_summary 2 = Some (true, ["e3"; "e1"], ["e2"; "re-e3"; "re-e1"]).
Proof. vm_compute. reflexivity. Qed.

Example demo_drain_fails : demo_summary 5 = Some (false, ["e3"; "e1"; "re-e1"], ["re-e3"; "re-e1"]).
Proof. vm_compute. reflexivity. Qed.

Lemma demo_rows_ok : table_ok demo_rows.
Proof.
  split; [apply (bool_decide_unpack _), I|]. intros i j r s k Hi Hj Hr. exfalso.
  apply list_elem_of_lookup_2 in Hi. unfold demo_rows in Hi. do 3 (apply elem_of_cons in Hi as [->|Hi]; [discriminate Hr|]). by apply not_elem_of_nil in Hi.
Qed.

Lemma demo_publish_ok e w r w' : demo_publish e w = (r, w') → table_ok w.1 → table_ok w'.1 ∧ evolves w.1 w'.1.
Proof.
  unfold demo_publish. destruct (String.eqb _ _); [intros [= <- <-] Ht; split; [done|apply outbox_evolves_refl]|].
  rewrite run_bind. destruct (demo_enqueue _ _ _ _ w) as [x w1] eqn:E. intros H Ht.
  eapply enqueue_ok in E as [Ht1 He]; [|done]. by destruct x; injection H as <- <-.
Qed.

Lemma drain_delivers_witness :
  ∃ x w', demo_drain 2 = Some (x, w') ∧
    ∃ sent open, w'.2.2 = sent ++ open ∧
      log_ok (λ _, Ok tt) (λ _, Ok tt) tt Ok demo_loads (λ _, Ok (utc_stamp 0)) demo_rows w'.1 sent open ∧
      match x with
      | Ok n => open = [] ∧ n = Z.of_nat (length sent) ∧ ((n < 2)%Z → List.filter is_pending w'.1 = [])
      | Err _ => length open ≤ 1
      end.
Proof.
  destruct (demo_drain 2) as [[x w']|] eqn:E; [|exfalso; revert E; vm_compute; discriminate].
  exists x, w'. split; [reflexivity|].
  eapply (drain_delivers _ _ tt Ok demo_loads _ (λ _, "now") demo_publish 10 2 demo_rows tt);
    [intros ?? [= <-]; done|exact demo_publish_ok|exact demo_rows_ok|exact E].
Defined.

Lemma enqueue_idempotent_witness :
  ∃ w1, demo_enqueue "a" "core.asked" (Some "k") (PMap 1 true []) (demo_rows, tt) = (Ok "a", w1) ∧
    (table_ok w1.1 ∧ evolves demo_rows w1.1 ∧
     ∀ w2 x w3, evolves w1.1 w2.1 → table_ok w2.1 → demo_enqueue "b" "core.asked" (Some "k") (PMap 2 true []) w2 = (x, w3) →
       w3 = w2 ∧ ∀ j, x = Ok j → j = "a").
Proof.
  destruct (demo_enqueue "a" "core.asked" (Some "k") (PMap 1 true []) (demo_rows, tt)) as [x w1] eqn:E.
  assert (x = Ok "a") as -> by (revert E; vm_compute; by intros [= <- _]). exists w1. split; [done|].
  destruct (enqueue_idempotent (λ _, Ok tt) (λ _, Ok tt) (λ _, "{}") (λ _, "{}") tt Ok demo_loads (λ _, "{}") (λ _, Ok (utc_stamp 0)) (λ _, "t")
    "a" "t" "core" "core.asked" "1.0.0" (PMap 1 true []) "k" None None None (demo_rows, tt) "a" w1) as (Ht & He & Hlater);
    [intros ?? [= <-]; done|exact demo_rows_ok|exact E|].
  split_and!; [done..|]. intros w2 x w3. apply Hlater.
Defined.
End OutboxLaws.
