(* ===== verification/EventDispatch.v ===== *)
(** * Who dispatches the outbox (event_outbox.py)

    [SqliteDurableEvents] is shared by threads: a re-entrant lock, a condition
    [_idle], the flag [_dispatch_after_enqueue] and the pair [_dispatching],
    [_dispatch_thread].  A step is one section under the lock, up to its end or
    to the [wait] that releases it; delivery itself runs outside ([EventOutbox],
    [drain_claimed]), and the handlers it reaches call the methods again from
    the dispatching thread.  [DispatchLaws]: who dispatches, who can wait. *)

From Stdlib Require Import ZArith Lia.
From stdpp Require Import base decidable numbers list functions.
From S2P Require Import Prelude.

Module EventDispatch.

(** ** State *)

(** Where a thread is: a waiting thread goes on once it is notified. *)
Inductive pc : Type :=
  | Outside
  | WaitsToClaim (notified : bool)
  | WaitsToDefer (notified : bool)
  | WaitsToRecover (notified : bool)
  | Dispatching.

Record state : Type := St {
  dispatch_after_enqueue : bool; dispatching : bool; dispatch_thread : option nat; threads : nat → pc;
}.

Definition init (dispatch_after_enqueue : bool) : state := St dispatch_after_enqueue false None (λ _, Outside).

Definition with_pc (me : nat) (p : pc) (s : state) : state :=
  St (dispatch_after_enqueue s) (dispatching s) (dispatch_thread s) (<[me := p]> (threads s)).

Definition set_enabled (b : bool) (s : state) : state := St b (dispatching s) (dispatch_thread s) (threads s).

(** [self._dispatching and self._dispatch_thread == me]. *)
Definition dispatches (me : nat) (s : state) : bool := dispatching s && bool_decide (dispatch_thread s = Some me).

Definition claimed (me : nat) (s : state) : state :=
  St (dispatch_after_enqueue s) true (Some me) (<[me := Dispatching]> (threads s)).

(** The lines of [_claim_dispatch_locked] after the loop. *)
Definition claim_now (me : nat) (s : state) : state :=
  if negb (dispatch_after_enqueue s) then with_pc me Outside s else claimed me s.

(** [_claim_dispatch_locked] up to its first [wait]; called by the dispatching
    thread itself it leaves the thread where it is. *)
Definition claim_dispatch_locked (me : nat) (s : state) : state :=
  if dispatches me s then s
  else if dispatching s then with_pc me (WaitsToClaim false) s
  else claim_now me s.

(** From the return of its [wait] on. *)
Definition claim_resumed (me : nat) (s : state) : state :=
  if negb (dispatch_after_enqueue s) && negb (dispatching s) then with_pc me Outside s
  else if dispatching s then with_pc me (WaitsToClaim false) s
  else claim_now me s.

(** ** Methods *)

(** [while self._dispatching and self._dispatch_thread != threading.get_ident()]. *)
Definition must_wait (me : nat) (s : state) : bool :=
  dispatching s && negb (bool_decide (dispatch_thread s = Some me)).

Definition drain (me : nat) (s : state) : state := claim_dispatch_locked me s.

Definition leaves (me : nat) (s : state) : state :=
  if dispatches me s then s else with_pc me Outside s.

Definition defer_loop (me : nat) (s : state) : state :=
  if must_wait me s then with_pc me (WaitsToDefer false) s else leaves me s.

Definition defer_dispatch (me : nat) (s : state) : state := defer_loop me (set_enabled false s).

Definition enable_live_dispatch (me : nat) (s : state) : state := set_enabled true s.

Definition recover_subscribers (me : nat) (s : state) : state :=
  if must_wait me s then with_pc me (WaitsToRecover false) s
  else claim_dispatch_locked me (set_enabled true s).

(** [notify_all]. *)
Definition notify (p : pc) : pc :=
  match p with
  | WaitsToClaim _ => WaitsToClaim true
  | WaitsToDefer _ => WaitsToDefer true
  | WaitsToRecover _ => WaitsToRecover true
  | _ => p
  end.

Definition release_dispatch (me : nat) (s : state) : state :=
  St (dispatch_after_enqueue s) false None (λ t, notify ((<[me := Outside]> (threads s) : nat → pc) t)).

(** ** Steps *)

Inductive action : Type := Drain | Defer | Enable | Recover | Resume | Release.

(** A thread outside calls a method; so does a handler, from the dispatching
    thread; a notified thread resumes; a drain that ended, normally or not,
    releases. *)
Definition act (a : action) (me : nat) (s : state) : option state :=
  match a, threads s me with
  | Drain, (Outside | Dispatching) => Some (drain me s)
  | Defer, (Outside | Dispatching) => Some (defer_dispatch me s)
  | Enable, (Outside | Dispatching) => Some (enable_live_dispatch me s)
  | Recover, (Outside | Dispatching) => Some (recover_subscribers me s)
  | Resume, WaitsToClaim true => Some (claim_resumed me s)
  | Resume, WaitsToDefer true => Some (defer_loop me s)
  | Resume, WaitsToRecover true => Some (recover_subscribers me s)
  | Release, Dispatching => Some (release_dispatch me s)
  | _, _ => None
  end.

Fixpoint run (l : list (action * nat)) (s : state) : option state :=
  match l with
  | [] => Some s
  | (a, me) :: l => match act a me s with Some s => run l s | None => None end
  end.
End EventDispatch.

(** ** Laws *)

Module DispatchLaws.
Import EventDispatch.

(** Waiting for a notification that has not come yet. *)
Definition asleep (p : pc) : Prop := p = WaitsToClaim false ∨ p = WaitsToDefer false ∨ p = WaitsToRecover false.

Definition waits (p : pc) : Prop := match p with Outside | Dispatching => False | _ => True end.

(** The fields name the thread that dispatches, and nobody sleeps without one. *)
Definition consistent (s : state) : Prop :=
  match dispatch_thread s with
  | Some d => dispatching s = true ∧ ∀ t, threads s t = Dispatching ↔ t = d
  | None => dispatching s = false ∧ ∀ t, threads s t ≠ Dispatching ∧ ¬ asleep (threads s t)
  end.

Lemma consistent_init b : consistent (init b).
Proof. split; [done|]. intros t. split; [done|]. by intros [|[]]. Qed.

(** The sections, by who dispatches. *)
Lemma dispatches_spec me s : consistent s → dispatches me s = bool_decide (dispatch_thread s = Some me).
Proof. unfold consistent, dispatches. destruct (dispatch_thread s); intros [-> _]; [done|]. by rewrite bool_decide_eq_false_2. Qed.

Lemma must_wait_spec me s :
  consistent s → must_wait me s = true ↔ ∃ d, dispatch_thread s = Some d ∧ d ≠ me.
Proof.
  unfold consistent, must_wait. destruct (dispatch_thread s) as [d|]; intros [-> _]; [|naive_solver]. cbn [andb].
  rewrite negb_true_iff, bool_decide_eq_false. naive_solver.
Qed.

Lemma dispatching_spec s : consistent s → dispatching s = bool_decide (dispatch_thread s ≠ None).
Proof. unfold consistent. destruct (dispatch_thread s); intros [-> _]; [by rewrite bool_decide_eq_true_2|by rewrite bool_decide_eq_false_2 by naive_solver]. Qed.

Lemma consistent_not_dispatching s p me : consistent s → threads s me ≠ Dispatching → p ≠ Dispatching →
  (asleep p → dispatching s = true) → consistent (with_pc me p s).
Proof.
  unfold consistent, with_pc. cbn. destruct (dispatch_thread s) as [d|]; intros [-> H] Hme Hp Ha; (split; [done|]); intros t;
    destruct (decide (t = me)) as [->|Hne]; rewrite ?fn_lookup_insert, ?fn_lookup_insert_ne by done; [|apply H| |apply H].
  - split; [done|]. intros ->. by destruct Hme; apply H.
  - split; [done|]. by intros ?%Ha.
Qed.

Lemma consistent_enabled b s : consistent s → consistent (set_enabled b s).
Proof. done. Qed.

Lemma consistent_claimed me s : consistent s → dispatch_thread s = None → consistent (claimed me s).
Proof.
  unfold consistent. intros Hs E. rewrite E in Hs. destruct Hs as [_ H]. cbn. split; [done|]. intros t.
  destruct (decide (t = me)) as [->|Hne]; rewrite ?fn_lookup_insert, ?fn_lookup_insert_ne by done; [done|].
  split; [|done]. intros Ht. by destruct (H t).
Qed.

Lemma consistent_release me s : consistent s → threads s me = Dispatching → consistent (release_dispatch me s).
Proof.
  unfold consistent. destruct (dispatch_thread s) as [d|]; intros [_ H] Hme; [|by destruct (H me)].
  cbn. split; [done|]. intros t. destruct (decide (t = me)) as [->|Hne].
  - rewrite fn_lookup_insert. split; [done|]. by intros [|[]].
  - rewrite fn_lookup_insert_ne by done. apply H in Hme as ->.
    assert (threads s t ≠ Dispatching) as Ht by (by intros ?%H).
    destruct (threads s t); split; try done; by intros [|[]].
Qed.

Lemma not_dispatching s me : consistent s → dispatch_thread s ≠ Some me → threads s me ≠ Dispatching.
Proof.
  unfold consistent. destruct (dispatch_thread s) as [d|]; intros [_ H] Hne; [|by destruct (H me)].
  intros ->%H. done.
Qed.

Lemma consistent_claim_now me s : consistent s → dispatch_thread s = None → consistent (claim_now me s).
Proof.
  intros Hs Hd. unfold claim_now. destruct (negb _); [|by apply consistent_claimed].
  apply consistent_not_dispatching; [done|apply not_dispatching; congruence|done|by intros [|[]]].
Qed.

(** With nobody dispatching, or another thread. *)
Lemma consistent_wait me p s : consistent s → dispatches me s = false → dispatching s = true → p ≠ Dispatching → consistent (with_pc me p s).
Proof.
  intros Hs Hd Hw Hp. rewrite dispatches_spec in Hd by done. apply bool_decide_eq_false in Hd.
  apply consistent_not_dispatching; [done|by apply not_dispatching|done..].
Qed.

Lemma consistent_outside me s : consistent s → dispatches me s = false → consistent (with_pc me Outside s).
Proof.
  intros Hs Hd. rewrite dispatches_spec in Hd by done. apply bool_decide_eq_false in Hd.
  apply consistent_not_dispatching; [done|by apply not_dispatching|done|by intros [|[]]].
Qed.

Lemma idle_spec s : consistent s → dispatching s = false → dispatch_thread s = None.
Proof. unfold consistent. by destruct (dispatch_thread s); intros [-> _]. Qed.

Lemma consistent_claim me s : consistent s → consistent (claim_dispatch_locked me s).
Proof.
  intros Hs. unfold claim_dispatch_locked. destruct (dispatches me s) eqn:Ed; [done|].
  destruct (dispatching s) eqn:Ew; [by apply consistent_wait|]. by apply consistent_claim_now, idle_spec.
Qed.

Lemma consistent_resumed me s : consistent s → dispatches me s = false → consistent (claim_resumed me s).
Proof.
  intros Hs Hd. unfold claim_resumed. destruct (negb _ && _); [by apply consistent_outside|].
  destruct (dispatching s) eqn:Ew; [by apply consistent_wait|]. by apply consistent_claim_now, idle_spec.
Qed.

Lemma must_wait_split me s : must_wait me s = true → dispatching s = true ∧ dispatches me s = false.
Proof. unfold must_wait, dispatches. intros [-> Hn%negb_true_iff]%andb_true_iff. by rewrite Hn. Qed.

Lemma consistent_defer me s : consistent s → consistent (defer_loop me s).
Proof.
  intros Hs. unfold defer_loop, leaves. destruct (must_wait me s) eqn:Em.
  - apply must_wait_split in Em as []. by apply consistent_wait.
  - destruct (dispatches me s) eqn:Ed; [done|by apply consistent_outside].
Qed.

Lemma consistent_recover me s : consistent s → consistent (recover_subscribers me s).
Proof.
  intros Hs. unfold recover_subscribers. destruct (must_wait me s) eqn:Em.
  - apply must_wait_split in Em as []. by apply consistent_wait.
  - by apply consistent_claim.
Qed.

Lemma waiting_not_dispatches me s : consistent s → waits (threads s me) → dispatches me s = false.
Proof.
  intros Hs Hw. rewrite dispatches_spec by done. apply bool_decide_eq_false_2. intros E. unfold consistent in Hs. rewrite E in Hs.
  destruct Hs as [_ H]. by rewrite (proj2 (H me) eq_refl) in Hw.
Qed.

Lemma act_consistent a me s s' : consistent s → act a me s = Some s' → consistent s'.
Proof.
  intros Hs. unfold act. pose proof (waiting_not_dispatches me s Hs) as Hw.
  destruct a, (threads s me) as [|[]|[]|[]|] eqn:Ep; intros [= <-];
    eauto using consistent_claim, consistent_defer, consistent_recover, consistent_release, consistent_resumed.
  all: by apply consistent_resumed, Hw.
Qed.

Lemma run_consistent l s s' : consistent s → run l s = Some s' → consistent s'.
Proof.
  revert s. induction l as [|[a me] l IH]; intros s Hs; simpl; [by intros [= <-]|].
  destruct (act a me s) as [s1|] eqn:E; [|done]. apply IH. by eapply act_consistent.
Qed.

(** ** The barrier *)

(** The steps that set [_dispatch_after_enqueue]. *)
Definition enables (a : action) (p : pc) : bool :=
  match a, p with
  | (Enable | Recover), _ | Resume, WaitsToRecover _ => true
  | _, _ => false
  end.

Fixpoint run_disabled (l : list (action * nat)) (s : state) : option state :=
  match l with
  | [] => Some s
  | (a, me) :: l =>
      if enables a (threads s me) then None
      else match act a me s with Some s => run_disabled l s | None => None end
  end.

(** [t] waits in [defer_dispatch], or nobody dispatches. *)
Definition deferring (t : nat) (s : state) : Prop :=
  consistent s ∧ dispatch_after_enqueue s = false ∧ ((∃ b, threads s t = WaitsToDefer b) ∨ dispatch_thread s = None).

Lemma deferring_pc t me p s : (∀ b, threads s me ≠ WaitsToDefer b) → consistent (with_pc me p s) → deferring t s → deferring t (with_pc me p s).
Proof.
  intros Hme Hc (_ & He & Hd). split_and!; [done..|]. destruct Hd as [[b Hb]|Hd]; [|by right].
  left. exists b. cbn. rewrite fn_lookup_insert_ne; [done|]. intros ->. by destruct (Hme b).
Qed.

Lemma deferring_claim t me s : (∀ b, threads s me ≠ WaitsToDefer b) → consistent (claim_dispatch_locked me s) →
  deferring t s → deferring t (claim_dispatch_locked me s).
Proof.
  intros Hme Hc Hd. pose proof Hd as (_ & He & _). revert Hc. unfold claim_dispatch_locked, claim_now. rewrite He.
  destruct (dispatches me s); [done|]. destruct (dispatching s); intros Hc; by apply deferring_pc.
Qed.

Lemma deferring_loop t me s : consistent s → dispatch_after_enqueue s = false →
  (me ≠ t → (∃ b, threads s t = WaitsToDefer b) ∨ dispatch_thread s = None) →
  (me = t → dispatches me s = false) → deferring t (defer_loop me s).
Proof.
  intros Hs He Hne Heq. pose proof (consistent_defer me s Hs) as Hc. revert Hc. unfold defer_loop, leaves.
  destruct (must_wait me s) eqn:Em; intros Hc.
  - split_and!; [done..|]. destruct (decide (me = t)) as [->|Hn].
    + left. exists false. cbn. by rewrite fn_lookup_insert.
    + destruct (Hne Hn) as [[b Hb]|Hd]; [|by right]. left. exists b. cbn. by rewrite fn_lookup_insert_ne by congruence.
  - destruct (decide (me = t)) as [->|Hn].
    + rewrite Heq in * by done. split_and!; [done..|]. right. cbn. apply not_true_iff_false in Em.
      rewrite must_wait_spec in Em by done. specialize (Heq eq_refl). rewrite dispatches_spec in Heq by done.
      apply bool_decide_eq_false in Heq. destruct (dispatch_thread s) as [d|]; [|done]. destruct Em. exists d. naive_solver.
    + destruct (dispatches me s); (split_and!; [done..|]); destruct (Hne Hn) as [[b Hb]|Hd]; try (by right); left; exists b; [done|].
      cbn. by rewrite fn_lookup_insert_ne by congruence.
Qed.

Lemma act_deferring t a me s s' :
  enables a (threads s me) = false → act a me s = Some s' → deferring t s → deferring t s'.
Proof.
  intros Hen Ha Hd. pose proof Hd as (Hs & He & Hor). pose proof (act_consistent _ _ _ _ Hs Ha) as Hs'.
  pose proof (waiting_not_dispatches me s Hs) as Hw.
  revert Hen Ha. unfold act. destruct a, (threads s me) as [|[]|[]|[]|] eqn:Ep; intros Hen [= <-]; try discriminate Hen.
  - by apply deferring_claim; [rewrite Ep|..].
  - by apply deferring_claim; [rewrite Ep|..].
  - apply deferring_loop; [done..|intros _; exact Hor|].
    intros ->. change (dispatches t (set_enabled false s)) with (dispatches t s). destruct Hor as [[b Hb]|Hn]; [congruence|].
    rewrite dispatches_spec, Hn by done. done.
  - apply deferring_loop; [done..|intros _; exact Hor|].
    intros ->. change (dispatches t (set_enabled false s)) with (dispatches t s). destruct Hor as [[b Hb]|Hn]; [congruence|].
    rewrite dispatches_spec, Hn by done. done.
  - revert Hs'. unfold claim_resumed, claim_now. rewrite He.
    destruct (dispatching s); cbn [negb andb]; intros Hs'; by apply deferring_pc; [rewrite Ep|..].
  - apply deferring_loop; [done..|intros _; exact Hor|]. intros _. by apply Hw.
  - split_and!; [done..|]. by right.
Qed.

Lemma run_deferring t l s s' : run_disabled l s = Some s' → deferring t s → deferring t s'.
Proof.
  revert s. induction l as [|[a me] l IH]; intros s; simpl; [by intros [= <-]|].
  destruct (enables a (threads s me)) eqn:Ee; [done|]. destruct (act a me s) as [s1|] eqn:Ea; [|done].
  intros Hrun Hd. eapply IH; [exact Hrun|]. by eapply act_deferring.
Qed.

(** C35: Deferring is a barrier.  Let a thread that is not dispatching call
    [defer_dispatch] in any state the threads can reach, and let the threads run
    on with no step that enables dispatching again.  Then from the moment the call
    has returned (the thread no longer waits in it) nobody dispatches, however many
    drains are asked for, resumed or were under way. *)
Theorem defer_is_a_barrier b l t s l' s' :
  run l (init b) = Some s → threads s t = Outside →
  run_disabled ((Defer, t) :: l') s = Some s' → (∀ n, threads s' t ≠ WaitsToDefer n) →
  ∀ u, threads s' u ≠ Dispatching.
Proof.
  intros Hrun Ht Hdis Hback u. apply run_consistent in Hrun; [|apply consistent_init].
  cbn [run_disabled enables act] in Hdis. rewrite Ht in Hdis.
  apply (run_deferring t) in Hdis as (Hc & _ & [[n Hn]|Hn]).
  - by destruct (Hback n).
  - apply not_dispatching; [done|congruence].
  - apply deferring_loop; [done..| |].
    + done.
    + intros _. change (dispatches t (set_enabled false s)) with (dispatches t s).
      rewrite dispatches_spec by done. apply bool_decide_eq_false_2. intros E. unfold consistent in Hrun. rewrite E in Hrun.
      by rewrite (proj2 (proj2 Hrun t) eq_refl) in Ht.
Qed.

(** A notified thread that resumes while nobody dispatches leaves its wait. *)
Lemma resume_returns t s : dispatching s = false → waits (threads s t) → ¬ asleep (threads s t) →
  ∃ s', act Resume t s = Some s' ∧ ¬ waits (threads s' t).
Proof.
  intros Hd Hw Ha.
  assert (∀ s, ¬ waits (threads (claim_now t s) t)) as Hnow.
  { intros s0. unfold claim_now. destruct (negb _); cbn; rewrite fn_lookup_insert; tauto. }
  unfold act, claim_resumed, defer_loop, recover_subscribers, claim_dispatch_locked, leaves, must_wait, dispatches.
  destruct (threads s t) as [|[]|[]|[]|]; try done; try (exfalso; apply Ha; unfold asleep; tauto);
    eexists; (split; [reflexivity|]); cbn; rewrite ?Hd; cbn.
  - destruct (negb _); [cbn; rewrite fn_lookup_insert; tauto|by apply Hnow].
  - rewrite fn_lookup_insert; tauto.
  - apply (Hnow (set_enabled true s)).
Qed.

(** C36: At most one thread dispatches, the one the fields name, and no wake-up is
    lost: in every reachable state each waiting thread can be brought out of its
    wait by at most two steps, the release of the thread that dispatches, if
    there is one, and its own resumption. *)
Theorem dispatch_exclusive b l s :
  run l (init b) = Some s →
  (∀ t, threads s t = Dispatching ↔ dispatch_thread s = Some t) ∧
  ∀ t, waits (threads s t) →
    ∃ s', run (match dispatch_thread s with Some d => [(Release, d)] | None => [] end ++ [(Resume, t)]) s = Some s' ∧
      ¬ waits (threads s' t).
Proof.
  intros Hs%run_consistent; [|apply consistent_init]. split.
  - unfold consistent in Hs. destruct (dispatch_thread s) as [d|]; destruct Hs as [_ H]; intros t; [rewrite H; naive_solver|].
    split; [|done]. by intros ?%H.
  - intros t Hw.
    unfold consistent in Hs. destruct (dispatch_thread s) as [d|].
    + destruct Hs as [Hd H]. cbn [app run]. unfold act at 1. rewrite (proj2 (H d) eq_refl).
      assert (t ≠ d) as Hne by (intros ->; by rewrite (proj2 (H d) eq_refl) in Hw).
      edestruct (resume_returns t (release_dispatch d s)) as (s' & E & Hs'); [done|..|exists s'; by rewrite E].
      * cbn. rewrite fn_lookup_insert_ne by done. by destruct (threads s t).
      * cbn. rewrite fn_lookup_insert_ne by done. destruct (threads s t); try done; by intros [|[]].
    + destruct Hs as [Hd H]. cbn [app run]. edestruct (resume_returns t s) as (s' & E & Hs'); [done..|apply H|exists s'; by rewrite E].
Qed.

(** Two threads: the second drains while the first defers. *)
Definition demo_run : list (action * nat) := [(Drain, 1); (Enable, 2); (Drain, 2)].

Lemma defer_is_a_barrier_witness :
  ∃ s s', run demo_run (init true) = Some s ∧
    run_disabled [(Defer, 3); (Release, 1); (Resume, 2); (Resume, 3); (Drain, 2)] s = Some s' ∧
    ∀ u, threads s' u ≠ Dispatching.
Proof.
  do 2 eexists. split; [reflexivity|]. split; [reflexivity|].
  eapply (defer_is_a_barrier true demo_run 3 _ [(Release, 1); (Resume, 2); (Resume, 3); (Drain, 2)]); [reflexivity..|].
  intros n. vm_compute. discriminate.
Defined.

Lemma dispatch_exclusive_witness :
  ∃ s s', run demo_run (init true) = Some s ∧ run [(Release, 1); (Resume, 2)] s = Some s' ∧ ¬ waits (threads s' 2).
Proof.
  eexists. destruct (dispatch_exclusive true demo_run _ eq_refl) as [_ H].
  destruct (H 2 I) as (s' & E & Hs'). exists s'. split; [reflexivity|]. split; [exact E|exact Hs'].
Defined.
End DispatchLaws.
