(* ===== verification/DelegatingEvents.v ===== *)
(** * The proxy in front of two outboxes (event_outbox.py)

    [DelegatingDurableEvents]: backends are named by their identity, [resolve]
    finds the live one; their methods are parameters ([EventOutbox] and
    [EventDispatch] model one such backend). *)

From Stdlib Require Import ZArith Lia.
From stdpp Require Import base decidable numbers list.
From S2P Require Import Prelude.

Module DelegatingDurableEvents.

Section delegating.
Context {W A : Type} (resolve : M W nat) (fallback : option nat).
Context (backend_persist : nat → A → M W unit) (backend_publish : nat → A → M W Z)
  (backend_drain backend_recover : nat → Z → M W Z) (backend_defer backend_enable : nat → M W unit).

Definition persist (event : A) : M W unit := live ← resolve; backend_persist live event.
Definition publish (event : A) : M W Z := live ← resolve; backend_publish live event.
Definition drain (limit : Z) : M W Z := live ← resolve; backend_drain live limit.

(** [fallback is not None and fallback is not live]. *)
Definition leftover (live : nat) : option nat :=
  match fallback with Some f => if (f =? live)%nat then None else Some f | None => None end.

Definition defer_dispatch : M W unit :=
  live ← resolve;
  _ ← backend_defer live;
  match leftover live with Some f => backend_defer f | None => mret tt end.

Definition enable_live_dispatch : M W unit :=
  live ← resolve;
  _ ← backend_enable live;
  match leftover live with Some f => backend_enable f | None => mret tt end.

(** [try ... except Exception as error]. *)
Definition attempt {B} (m : M W B) : M W (result B) := λ w, let (r, w) := m w in (Ok r, w).

(** [_reraise_drain_errors] and the sum. *)
Definition combine (left_over live : result Z) : result Z :=
  match left_over, live with
  | Err e, _ => Err e
  | Ok _, Err e => Err e
  | Ok m, Ok n => Ok (m + n)%Z
  end.

Definition recover_subscribers (limit : Z) : M W Z :=
  live ← resolve;
  left_over ← match leftover live with Some f => attempt (backend_recover f limit) | None => mret (Ok 0%Z) end;
  delivered ← attempt (backend_recover live limit);
  lift (combine left_over delivered).

(** Both backends are asked, in that order, whatever the first one answers. *)
Lemma recover_asks_both limit live f w w0 r1 w1 r2 w2 :
  resolve w = (Ok live, w0) → leftover live = Some f →
  backend_recover f limit w0 = (r1, w1) → backend_recover live limit w1 = (r2, w2) →
  recover_subscribers limit w = (combine r1 r2, w2).
Proof.
  intros H0 Hf H1 H2. unfold recover_subscribers. rewrite run_bind, H0, Hf, run_bind. unfold attempt at 1. rewrite H1, run_bind.
  unfold attempt. by rewrite H2.
Qed.
End delegating.
End DelegatingDurableEvents.
