(* ===== verification/AuditJournal.v ===== *)
(** * The audit journal (audit.py)

    The journal file is the state: [None] when it does not exist, else its
    bytes.  [append], [events] and [verify] are critical sections (thread lock
    and [flock]) that read and verify the whole file.  Parameters: [hmac_hex] (hmac,
    hashlib), [isoformat] and [dump_stamp] (the texts [datetime.isoformat] and
    pydantic give a timestamp) and [parse_line] ([json.loads] and pydantic's
    validation of a line).  The checks of file type, permissions and stable
    identity are not modelled.  [AuditLaws]: what the file holds after any calls,
    and what a trusted head pins down. *)

From Stdlib Require Import Ascii ZArith Lia.
From stdpp Require Import base decidable numbers list strings sets pretty.
From S2P Require Import Prelude PyData Regex JsonGraph HashChain JsonText.

Module Audit.
Import JsonGraph HashChain JsonText.

(** ** Data *)

Definition GENESIS_HASH : string := of_chars (repeat "0"%char 64).
Definition NAME_PATTERN : re :=
  Seq (Chr is_lower) (Rep 1 127 (Chr (λ c, is_lower c || is_digit c || one_of "_.:-" c))).
Definition SENSITIVE_PARTS : list string :=
  ["authorization"; "cookie"; "credential"; "password"; "secret"; "token"].
Definition SENSITIVE_COMPACT_KEYS : list string :=
  ["accesstoken"; "apikey"; "clientsecret"; "privatekey"; "refreshtoken"; "sessioncookie"].
Definition MAX_AUDIT_METADATA_BYTES : Z := 64 * 1024.
Definition MAX_AUDIT_METADATA_DEPTH : Z := 16.
Definition MAX_AUDIT_METADATA_KEYS : Z := 512.
Definition MAX_AUDIT_METADATA_ITEMS : Z := 4096.
Definition MAX_AUDIT_METADATA_KEY_BYTES : nat := 128.
Definition MAX_AUDIT_RECORD_BYTES : Z := 128 * 1024.

Inductive AuditOutcome : Type := SUCCESS | FAILURE | DENIED.

Definition outcome_value (o : AuditOutcome) : string :=
  match o with SUCCESS => "success" | FAILURE => "failure" | DENIED => "denied" end.

Record AuditEvent : Type := Event {
  a_sequence : Z;
  a_occurred_at : stamp;
  a_actor_id : option string;
  a_action : string;
  a_target_type : string;
  a_target_id : option string;
  a_outcome : AuditOutcome;
  a_metadata : list (string * json);
  a_previous_hash : string;
  a_event_hash : string;
}.

Record AuditVerification : Type := { v_event_count : Z; v_head_hash : string }.

(** ** Arguments *)

Definition validate_name (value label : string) : result string :=
  if fullmatch NAME_PATTERN value then Ok value else fail ValueErr ("invalid audit " +:+ label).

Definition as_utc : datetime → result Z := as_utc_msg "audit timestamp must be timezone-aware".

Definition is_sensitive_metadata_key : string → bool := sensitive_key SENSITIVE_PARTS SENSITIVE_COMPACT_KEYS.

Definition metadata_message (why : refusal) : string :=
  match why with
  | TooManyItems => "audit metadata exceeds the item limit"
  | TooDeep => "audit metadata exceeds the depth limit"
  | Cyclic => "audit metadata must be acyclic"
  | KeyNotStr => "audit metadata field names must be strings"
  | KeyNotUtf8 | KeyInvalid => "audit metadata field name is invalid"
  | TooManyKeys => "audit metadata exceeds the key limit"
  | KeySensitive => "audit metadata contains a sensitive field"
  end.

Definition metadata_rules : rules := {|
  ru_items := MAX_AUDIT_METADATA_ITEMS; ru_depth := MAX_AUDIT_METADATA_DEPTH; ru_keys := MAX_AUDIT_METADATA_KEYS;
  ru_key_bytes := MAX_AUDIT_METADATA_KEY_BYTES; ru_bad_char := is_control; ru_sensitive := is_sensitive_metadata_key;
  ru_class := ValueErr; ru_message := metadata_message |}.

Definition validate_metadata_structure : pyobj → result unit := validate_structure metadata_rules.

(** [_json_copy]. *)
Definition json_copy (value : pyobj) : result json :=
  match value with
  | PMap _ _ _ =>
      checked_copy metadata_rules MAX_AUDIT_METADATA_BYTES
        (Exn ValueErr "audit metadata exceeds the size limit")
        (Exn TypeErr "audit metadata must be JSON-serializable") value
  | _ => fail TypeErr "audit metadata must be an object"
  end.

(** [metadata or {}]: an absent or an empty mapping is a fresh empty one. *)
Definition metadata_or_empty (metadata : option pyobj) : pyobj :=
  match metadata with
  | None | Some (PMap _ _ []) => PMap 0 true []
  | Some v => v
  end.

(** [AuditLog.__init__] takes keys of at least 32 bytes. *)
Definition check_integrity_key (key : string) : result string :=
  if (utf8_len key <? 32)%nat then fail ValueErr "audit integrity key must contain at least 32 bytes" else Ok key.

(** ** The file *)

Definition store : Type := option string.

Definition integrity {A} (msg : string) : result A := fail AuditIntegrityError msg.
Definition integrity_if (b : bool) (msg : string) : result unit := fail_if b AuditIntegrityError msg.

Definition opt_str (o : option string) : json := match o with Some s => JStr s | None => JNull end.

Section audit.
Context (hmac_hex : string → string → string) (isoformat dump_stamp : stamp → string)
  (parse_line : string → result AuditEvent) (integrity_key : string).

(** [_event_body]. *)
Definition event_body (e : AuditEvent) : json :=
  JObj
    [("sequence", JInt (a_sequence e)); ("occurred_at", JStr (isoformat (a_occurred_at e)));
     ("actor_id", opt_str (a_actor_id e)); ("action", JStr (a_action e)); ("target_type", JStr (a_target_type e));
     ("target_id", opt_str (a_target_id e)); ("outcome", JStr (outcome_value (a_outcome e)));
     ("metadata", JObj (a_metadata e)); ("previous_hash", JStr (a_previous_hash e))].

(** [_sign]. *)
Definition sign (body : json) : string := hmac_hex integrity_key (json_dumps (sort_json body)).

(** [event.model_dump(mode="json")]. *)
Definition event_dump (e : AuditEvent) : json :=
  JObj
    [("sequence", JInt (a_sequence e)); ("occurred_at", JStr (dump_stamp (a_occurred_at e)));
     ("actor_id", opt_str (a_actor_id e)); ("action", JStr (a_action e)); ("target_type", JStr (a_target_type e));
     ("target_id", opt_str (a_target_id e)); ("outcome", JStr (outcome_value (a_outcome e)));
     ("metadata", JObj (a_metadata e)); ("previous_hash", JStr (a_previous_hash e)); ("event_hash", JStr (a_event_hash e))].

(** The line [_append_line] writes. *)
Definition render (e : AuditEvent) : string := json_dumps (sort_json (event_dump e)) +:+ of_chars [newline].

Record scan : Type := Scan { sc_line : Z; sc_previous : string; sc_events : list AuditEvent }.

Definition audit_line (n : Z) (rest : string) : string := "audit line " +:+ pretty n +:+ rest.
Definition at_line (what : string) (n : Z) : string := what +:+ " at line " +:+ pretty n.

(** The body of the reading loop, on the next line. *)
Definition read_step (s : scan) (line : string) : result scan :=
  let n := (sc_line s + 1)%Z in
  _ ← integrity_if (MAX_AUDIT_RECORD_BYTES <? Z.of_nat (utf8_len line))%Z (audit_line n " exceeds the size limit");
  _ ← integrity_if (negb (complete_line line)) (audit_line n " is incomplete");
  event ← parse_line line;
  _ ← integrity_if (negb (a_sequence event =? n)%Z) (at_line "invalid audit sequence" n);
  _ ← integrity_if (bool_decide (a_previous_hash event ≠ sc_previous s)) (at_line "broken audit chain" n);
  same ← compare_digest (a_event_hash event) (sign (event_body event));
  _ ← integrity_if (negb same) (at_line "invalid audit signature" n);
  Ok (Scan n (a_event_hash event) (sc_events s ++ [event])).

Definition empty_scan : scan := Scan 0 GENESIS_HASH [].

(** [_iter_verified_events], exhausted as every caller does. *)
Definition iter_verified_events (c : store) : result (list AuditEvent) :=
  match c with
  | None => Ok []
  | Some text =>
      s ← result_catch (fold_result read_step empty_scan (read_lines text)) (λ x,
            if exn_in x [OSErr; ValueErr; TypeErr] then Some (integrity "audit journal cannot be verified") else None);
      Ok (sc_events s)
  end.

(** [_append_line]. *)
Definition append_line (e : AuditEvent) : M store unit :=
  _ ← raise_if (MAX_AUDIT_RECORD_BYTES <? Z.of_nat (utf8_len (render e)))%Z ValueErr "audit event exceeds the size limit";
  modify_st (λ c, Some (or_default c "" +:+ render e)).

(** The loops of [append] and [verify] over the events: the last sequence
    number and hash. *)
Definition last_event (events : list AuditEvent) : Z * string :=
  foldl (λ _ e, (a_sequence e, a_event_hash e)) (0%Z, GENESIS_HASH) events.

Definition new_event (last : Z * string) (timestamp : Z) (actor_id : option string) (action target_type : string)
    (target_id : option string) (outcome : AuditOutcome) (metadata : list (string * json)) : AuditEvent :=
  let unsigned := Event (last.1 + 1) (utc_stamp timestamp) actor_id action target_type target_id outcome metadata last.2 in
  unsigned (sign (event_body (unsigned ""))).

(** [clock]: the reading of [datetime.now] when [occurred_at] is absent. *)
Definition append (clock : Z) (actor_id : option string) (action target_type : string) (target_id : option string)
    (outcome : AuditOutcome) (metadata : option pyobj) (occurred_at : option datetime) : M store AuditEvent :=
  action ← lift (validate_name action "action");
  target_type ← lift (validate_name target_type "target type");
  timestamp ← lift (as_utc (or_default occurred_at (Aware clock)));
  safe_metadata ← lift (json_copy (metadata_or_empty metadata));
  match safe_metadata with
  | JObj m =>
      c ← get_st;
      events ← lift (iter_verified_events c);
      let event := new_event (last_event events) timestamp actor_id action target_type target_id outcome m in
      _ ← append_line event;
      mret event
  | _ => raise TypeErr "audit metadata must be an object"
  end.

Definition events : M store (list AuditEvent) :=
  c ← get_st; lift (iter_verified_events c).

Definition verify (expected_head : option string) : M store AuditVerification :=
  c ← get_st;
  es ← lift (iter_verified_events c);
  let last := last_event es in
  _ ← match expected_head with
      | None => mret tt
      | Some h =>
          same ← lift (compare_digest last.2 h);
          lift (integrity_if (negb same) "audit head does not match the trusted checkpoint")
      end;
  mret {| v_event_count := last.1; v_head_hash := last.2 |}.
End audit.
End Audit.

(** ** Laws *)

Module AuditLaws.
Import JsonGraph HashChain JsonText Audit.

Section laws.
Context (hmac_hex : string → string → string) (isoformat dump_stamp : stamp → string)
  (parse_line : string → result AuditEvent) (integrity_key : string) (read_float : string → option pyfloat).

Abbreviation body := (event_body isoformat).
Abbreviation iter := (iter_verified_events hmac_hex isoformat parse_line integrity_key).
Abbreviation rstep := (read_step hmac_hex isoformat parse_line integrity_key).
Abbreviation line_of := (render dump_stamp).
Abbreviation appendA := (append hmac_hex isoformat dump_stamp parse_line integrity_key).

Definition chained : list AuditEvent → Prop :=
  chain_ok a_sequence a_previous_hash a_event_hash (λ e, json_dumps (sort_json (body e))) (hmac_hex integrity_key) 1 GENESIS_HASH.

Record scan_ok (s : scan) : Prop := {
  sk_line : sc_line s = Z.of_nat (length (sc_events s));
  sk_prev : sc_previous s = head_hash a_event_hash GENESIS_HASH (sc_events s);
  sk_chain : chained (sc_events s);
}.

Lemma audit_step_ok s line s' : scan_ok s → rstep s line = Ok s' → scan_ok s' ∧ complete_line line = true.
Proof.
  intros [Hl Hp Hc] H. unfold read_step in H. inv_ok H. injection H as <-.
  repeat match goal with H : integrity_if _ _ = Ok _ |- _ => apply fail_if_ok in H end.
  match goal with H : compare_digest _ _ = Ok _ |- _ => apply compare_digest_ok in H as -> end.
  bool_to_prop. repeat match goal with H : ¬ _ ≠ _ |- _ => apply dec_stable in H end.
  split; [|done]. split; cbn [sc_line sc_events sc_previous].
  - rewrite length_app. simpl. lia.
  - by rewrite head_hash_snoc.
  - apply chain_snoc. split_and!; [done|lia|congruence|done].
Qed.

Lemma audit_fold_ok lines s s' :
  scan_ok s → fold_result rstep s lines = Ok s' → scan_ok s'.
Proof.
  revert s. induction lines as [|l lines IH]; intros s Hs H; simpl in H; [by injection H as <-|].
  apply bind_result_ok in H as (s1 & H1 & H). eapply IH; [|exact H]. by eapply audit_step_ok.
Qed.

(** A file that verifies is the outcome of the reading loop. *)
Lemma iter_scan t es :
  iter (Some t) = Ok es ↔ ∃ s, fold_result rstep empty_scan (read_lines t) = Ok s ∧ sc_events s = es.
Proof.
  unfold iter_verified_events. destruct (fold_result _ _ _) as [s|e]; cbn [result_catch].
  - cbn [mbind result_bind]. split; [intros [= <-]; by exists s|by intros (? & [= <-] & <-)].
  - destruct (exn_in e _); cbn [mbind result_bind]; split; [done|by intros (? & ? & _)|done|by intros (? & ? & _)].
Qed.

Lemma empty_scan_ok : scan_ok empty_scan.
Proof. by split. Qed.

Lemma iter_chained c es : iter c = Ok es → chained es.
Proof.
  destruct c as [t|]; [|by intros [= <-]].
  intros (s & H & <-)%iter_scan. by apply audit_fold_ok in H as []; [|apply empty_scan_ok].
Qed.

Lemma last_event_spec es : chained es → last_event es = (Z.of_nat (length es), head_hash a_event_hash GENESIS_HASH es).
Proof.
  destruct es as [|e es _] using rev_ind; [done|]. intros (_ & Hs & _)%chain_snoc.
  unfold last_event. rewrite foldl_app. cbn [foldl]. rewrite head_hash_snoc, length_app. simpl. f_equal. lia.
Qed.

(** ** Appending *)

Hypothesis hmac_ascii : ∀ k p, any_char non_ascii (hmac_hex k p) = false.
(** A line that [_append_line] wrote is read back. *)
Definition lines_read_back : Prop := ∀ e us,
  a_occurred_at e = utc_stamp us → dt_in_range us = true → canonical (JObj (a_metadata e)) →
  floats_ok read_float (JObj (a_metadata e)) → parse_line (line_of e) = Ok e.

Lemma dump_floats e : floats_ok read_float (JObj (a_metadata e)) → floats_ok read_float (event_dump dump_stamp e).
Proof.
  intros Hm. apply floats_ok_obj. repeat (apply Forall_cons; split; [try by constructor|]); try done; cbn [snd];
    first [done|by destruct (a_actor_id e); constructor|by destruct (a_target_id e); constructor|constructor].
Qed.

Lemma audit_render_line e :
  floats_ok read_float (JObj (a_metadata e)) →
  ∃ w, line_of e = of_chars (w ++ [newline]) ∧ newline ∉ w.
Proof.
  intros Hf. exists (chars (json_dumps (sort_json (event_dump dump_stamp e)))). split.
  - apply chars_inj. unfold render. by rewrite chars_app, !chars_of_chars.
  - apply (dumps_no_newline read_float), floats_ok_sort. by apply dump_floats.
Qed.

Lemma new_line_accepted s es us actor action target_type target outcome m :
  lines_read_back → scan_ok s → sc_events s = es → dt_in_range us = true → canonical (JObj m) → floats_ok read_float (JObj m) →
  let e := new_event hmac_hex isoformat integrity_key (last_event es) us actor action target_type target outcome m in
  (Z.of_nat (utf8_len (line_of e)) ≤ MAX_AUDIT_RECORD_BYTES)%Z →
  ∃ s', rstep s (line_of e) = Ok s' ∧ sc_events s' = es ++ [e].
Proof.
  intros Hread Hs <- Hus Hcan Hf e Hlen. destruct (audit_render_line e Hf) as (w & Hw & _).
  pose proof (last_event_spec _ (sk_chain _ Hs)) as Hlast. destruct Hs as [Hl Hp _].
  unfold read_step. unfold integrity_if. rewrite (proj2 (Z.ltb_ge _ _)) by done. cbn [fail_if mbind result_bind].
  replace (complete_line (line_of e)) with true.
  2:{ symmetry. rewrite Hw. apply complete_line_last. by rewrite last_snoc. }
  cbn [negb fail_if mbind result_bind]. rewrite (Hread e us) by done. cbn [mbind result_bind].
  assert (a_sequence e = (sc_line s + 1)%Z) as -> by (unfold e, new_event; rewrite Hlast; simpl; lia).
  rewrite Z.eqb_refl. cbn [negb fail_if mbind result_bind].
  assert (a_previous_hash e = sc_previous s) as -> by (unfold e, new_event; rewrite Hlast; simpl; congruence).
  rewrite neq_self. cbn [fail_if mbind result_bind].
  replace (compare_digest (a_event_hash e) (sign hmac_hex integrity_key (body e))) with (Ok (A := bool) true).
  { cbn [mbind result_bind negb fail_if]. eexists. split; [reflexivity|done]. }
  symmetry. change (a_event_hash e) with (sign hmac_hex integrity_key (body e)). unfold sign, compare_digest.
  rewrite hmac_ascii. cbn [orb]. by rewrite bool_decide_eq_true_2.
Qed.

(** ** Metadata *)

(** What recorded metadata obey: the limits, and no sensitive field at any depth. *)
Definition metadata_ok (m : list (string * json)) : Prop :=
  (Z.of_nat (utf8_len (json_dumps (JObj m))) ≤ MAX_AUDIT_METADATA_BYTES)%Z ∧
  (jheight (JObj m) ≤ MAX_AUDIT_METADATA_DEPTH)%Z ∧
  ∀ k, k ∈ jkeys (JObj m) → is_sensitive_metadata_key k = false.

Lemma json_copy_ok v j : json_copy v = Ok j → ∃ m, j = JObj m ∧ canonical j ∧ metadata_ok m.
Proof.
  destruct v as [|b|z|f| |s| | |o l|o b m]; try done. cbn [json_copy]. intros H.
  destruct (checked_copy_obj _ _ _ _ _ _ _ _ H) as [js ->]. exists js. split; [done|]. split.
  - by apply checked_copy_to_json, to_json_canonical in H.
  - apply (checked_copy_stable metadata_rules) in H as (H1 & H2 & H3 & _); [by split_and!|done].
Qed.

(** ** One call *)

Record call : Type := Call {
  c_clock : Z; c_actor_id : option string; c_action : string; c_target_type : string; c_target_id : option string;
  c_outcome : AuditOutcome; c_metadata : option pyobj; c_occurred_at : option datetime;
}.

Definition record_call (k : call) : M store AuditEvent :=
  appendA (c_clock k) (c_actor_id k) (c_action k) (c_target_type k) (c_target_id k) (c_outcome k) (c_metadata k) (c_occurred_at k).

(** The event is what the caller reported, with a copy of the metadata. *)
Definition recorded (k : call) (e : AuditEvent) : Prop :=
  a_actor_id e = c_actor_id k ∧ a_action e = c_action k ∧ a_target_type e = c_target_type k ∧
  a_target_id e = c_target_id k ∧ a_outcome e = c_outcome k ∧
  fullmatch NAME_PATTERN (a_action e) = true ∧ fullmatch NAME_PATTERN (a_target_type e) = true ∧
  (∃ us, or_default (c_occurred_at k) (Aware (c_clock k)) = Aware us ∧ a_occurred_at e = utc_stamp us) ∧
  json_copy (metadata_or_empty (c_metadata k)) = Ok (JObj (a_metadata e)) ∧ metadata_ok (a_metadata e).

(** The floats of the metadata are read back as [float] and [repr] promise. *)
Definition call_floats_ok (k : call) : Prop :=
  ∀ j, json_copy (metadata_or_empty (c_metadata k)) = Ok j → floats_ok read_float j.

Lemma validate_name_ok v label v' : validate_name v label = Ok v' → v' = v ∧ fullmatch NAME_PATTERN v = true.
Proof. unfold validate_name. destruct (fullmatch _ v) eqn:E; [|done]. by intros [= <-]. Qed.

Lemma record_call_ok k c es :
  lines_read_back → call_floats_ok k → iter c = Ok es →
  match record_call k c with
  | (Ok e, c') => recorded k e ∧ iter c' = Ok (es ++ [e])
  | (Err _, c') => c' = c
  end.
Proof.
  intros Hread Hfloats Hes. unfold record_call, append.
  rewrite run_bind_lift. destruct (validate_name (c_action k) _) as [a|] eqn:Ea; [|done]. apply validate_name_ok in Ea as [-> Ha].
  rewrite run_bind_lift. destruct (validate_name (c_target_type k) _) as [t|] eqn:Et; [|done]. apply validate_name_ok in Et as [-> Ht].
  rewrite run_bind_lift. destruct (as_utc _) as [us|] eqn:Eu; [|done]. apply as_utc_ok in Eu as [Eu Hus].
  rewrite run_bind_lift. destruct (json_copy _) as [j|] eqn:Ej; [|done]. specialize (Hfloats j Ej).
  destruct (json_copy_ok _ _ Ej) as (m & -> & Hcan & Hm).
  rewrite run_bind_get, run_bind_lift, Hes. set (e := new_event _ _ _ _ _ _ _ _ _ _ _).
  rewrite run_bind. unfold append_line, raise_if. rewrite run_bind_lift.
  destruct (_ <? _)%Z eqn:El; [done|]. cbn [fail_if]. unfold modify_st. rewrite run_ret. split.
  { unfold recorded. cbn. split_and!; try done. by exists us. }
  assert (∃ s, fold_result rstep empty_scan (read_lines (or_default c "")) = Ok s ∧ sc_events s = es) as (s & Hs & Hse).
  { destruct c as [t'|]; [by apply iter_scan|]. injection Hes as <-. by eexists. }
  assert (scan_ok s) as Hok by (by eapply audit_fold_ok, Hs; apply empty_scan_ok).
  destruct (new_line_accepted s es us (c_actor_id k) (c_action k) (c_target_type k) (c_target_id k) (c_outcome k) m
    Hread Hok Hse Hus Hcan Hfloats) as (s' & Hs' & Hse'); [by apply Z.ltb_ge|].
  apply iter_scan. exists s'. split; [|done]. destruct (audit_render_line e Hfloats) as (w & Hw & Hnl). fold e in Hs'. rewrite Hw in *.
  erewrite fold_lines_snoc; [exact Hs'| |exact Hs|exact Hnl].
  intros s1 l s2 Hstep. unfold read_step in Hstep. inv_ok Hstep.
  repeat match goal with H : integrity_if _ _ = Ok _ |- _ => apply fail_if_ok in H end. by bool_to_prop.
Qed.

Fixpoint record_all (l : list call) (c : store) : list (result AuditEvent) * store :=
  match l with
  | [] => ([], c)
  | k :: l => let '(r, c1) := record_call k c in let '(rs, c2) := record_all l c1 in (r :: rs, c2)
  end.

Definition successes (rs : list (result AuditEvent)) : list AuditEvent :=
  omap (λ r, match r with Ok e => Some e | Err _ => None end) rs.

Lemma record_all_ok l c es :
  lines_read_back → Forall call_floats_ok l → iter c = Ok es →
  iter (record_all l c).2 = Ok (es ++ successes (record_all l c).1) ∧
  Forall2 (λ k r, match r with Ok e => recorded k e | Err _ => True end) l (record_all l c).1.
Proof.
  intros Hread Hl. revert c es. induction Hl as [|k l Hk Hl IH]; intros c es Hes; simpl; [by rewrite app_nil_r|].
  pose proof (record_call_ok k c es Hread Hk Hes) as H. destruct (record_call k c) as [[e|x] c1].
  - destruct H as [Hrec H]. specialize (IH _ _ H). destruct (record_all l c1) as [rs c2]. destruct IH as [IH1 IH2].
    cbn [fst snd successes omap list_omap] in *. rewrite IH1, <-(assoc_L (++)). split; [done|by constructor].
  - subst c1. specialize (IH _ _ Hes). destruct (record_all l c) as [rs c2]. destruct IH as [IH1 IH2]. cbn [fst snd successes omap list_omap] in *. split; [done|by constructor].
Qed.

Lemma record_call_refused k c x c' : record_call k c = (Err x, c') → c' = c.
Proof.
  unfold record_call, append.
  do 4 (rewrite run_bind_lift; match goal with |- context [match ?r with Ok _ => _ | Err _ => _ end] => destruct r end; [|by intros [= _ <-]]).
  destruct a2; try (by intros [= _ <-]).
  rewrite run_bind_get, run_bind_lift. destruct (iter c); [|by intros [= _ <-]].
  rewrite run_bind. unfold append_line, raise_if. rewrite run_bind_lift.
  destruct (fail_if _ _ _); [done|by intros [= _ <-]].
Qed.

(** C39: The audit file is the trail of what was reported.  From an absent file,
    after any calls of [append], accepted or refused, the file verifies and
    holds exactly the events the calls returned, in their order, numbered from 1 and
    hash-chained; each event is what its caller reported, with a copy of the
    metadata within the limits in which no field at any depth has a sensitive
    name; a refused call writes nothing. *)
Theorem audit_trail l :
  lines_read_back → Forall call_floats_ok l →
  let '(rs, c) := record_all l None in
  iter c = Ok (successes rs) ∧ chained (successes rs) ∧
  Forall2 (λ k r, match r with Ok e => recorded k e | Err _ => True end) l rs ∧
  ∀ k x c', record_call k c = (Err x, c') → c' = c.
Proof.
  intros Hread Hl. destruct (record_all_ok l None [] Hread Hl eq_refl) as [H1 H2].
  destruct (record_all l None) as [rs c]. split_and!; [exact H1|by eapply iter_chained|exact H2|].
  intros k x c'. apply record_call_refused.
Qed.

(** ** Tampering *)

(** Dictionaries are equal whatever the order of their members. *)
Definition sorted_members (m : list (string * json)) : list (string * json) :=
  dict_sort ((λ kv, (kv.1, sort_json kv.2)) <$> m).

Definition same_event (e f : AuditEvent) : Prop :=
  a_sequence e = a_sequence f ∧ a_occurred_at e = a_occurred_at f ∧ a_actor_id e = a_actor_id f ∧
  a_action e = a_action f ∧ a_target_type e = a_target_type f ∧ a_target_id e = a_target_id f ∧
  a_outcome e = a_outcome f ∧ sorted_members (a_metadata e) = sorted_members (a_metadata f) ∧
  a_previous_hash e = a_previous_hash f.

Lemma body_floats e : floats_ok read_float (JObj (a_metadata e)) → floats_ok read_float (body e).
Proof.
  intros Hm. apply floats_ok_obj. repeat (apply Forall_cons; split; [try by constructor|]); try done; cbn [snd];
    first [done|by destruct (a_actor_id e); constructor|by destruct (a_target_id e); constructor|constructor].
Qed.

Lemma sorted_body e : sort_json (body e) =
  JObj [("action", JStr (a_action e)); ("actor_id", opt_str (a_actor_id e)); ("metadata", JObj (sorted_members (a_metadata e)));
    ("occurred_at", JStr (isoformat (a_occurred_at e))); ("outcome", JStr (outcome_value (a_outcome e)));
    ("previous_hash", JStr (a_previous_hash e)); ("sequence", JInt (a_sequence e)); ("target_id", opt_str (a_target_id e));
    ("target_type", JStr (a_target_type e))].
Proof. by destruct e as [? ? [] ? ? []]. Qed.

Lemma audit_body_determines e f :
  (∀ t u, isoformat t = isoformat u → t = u) →
  floats_ok read_float (JObj (a_metadata e)) → floats_ok read_float (JObj (a_metadata f)) →
  json_dumps (sort_json (body e)) = json_dumps (sort_json (body f)) → same_event e f.
Proof.
  intros Hiso He Hf E. apply (json_dumps_inj read_float) in E; [|by apply floats_ok_sort, body_floats..].
  rewrite !sorted_body in E. injection E as Eac Eid Em Eat Eo Ep Es Et Ett.
  unfold same_event. split_and!; try done; [by apply Hiso|..].
  - revert Eid. destruct (a_actor_id e), (a_actor_id f); cbn; congruence.
  - revert Et. destruct (a_target_id e), (a_target_id f); cbn; congruence.
  - revert Eo. by destruct (a_outcome e), (a_outcome f).
Qed.

Definition event_floats_ok (e : AuditEvent) : Prop := floats_ok read_float (JObj (a_metadata e)).

Lemma chains_same es1 es2 :
  (∀ p q, hmac_hex integrity_key p = hmac_hex integrity_key q → p = q) →
  (∀ p, hmac_hex integrity_key p ≠ GENESIS_HASH) → (∀ t u, isoformat t = isoformat u → t = u) →
  Forall event_floats_ok es1 → Forall event_floats_ok es2 → chained es1 → chained es2 →
  head_hash a_event_hash GENESIS_HASH es1 = head_hash a_event_hash GENESIS_HASH es2 → Forall2 same_event es1 es2.
Proof.
  intros Hinj Hgen Hiso. revert es2. induction es1 as [|e1 es1 IH] using rev_ind; intros es2 Hf1 Hf2 H1 H2 Hh.
  - destruct es2 as [|e2 es2 _] using rev_ind; [constructor|]. exfalso.
    apply chain_snoc in H2 as (_ & _ & _ & Hs). rewrite head_hash_snoc in Hh. apply (Hgen (json_dumps (sort_json (body e2)))). by rewrite <-Hs.
  - apply chain_snoc in H1 as (H1 & _ & Hp1 & Hs1). rewrite head_hash_snoc in Hh. apply Forall_app in Hf1 as [Hf1 Hfe1].
    destruct es2 as [|e2 es2 _] using rev_ind.
    { exfalso. apply (Hgen (json_dumps (sort_json (body e1)))). by rewrite <-Hs1, Hh. }
    apply chain_snoc in H2 as (H2 & _ & Hp2 & Hs2). rewrite head_hash_snoc in Hh. apply Forall_app in Hf2 as [Hf2 Hfe2].
    apply Forall_cons in Hfe1 as [Hfe1 _], Hfe2 as [Hfe2 _].
    assert (same_event e1 e2) as Hsame by (apply audit_body_determines; [exact Hiso|exact Hfe1|exact Hfe2|apply Hinj; congruence]).
    apply Forall2_app; [|by constructor]. apply IH; [done..|]. rewrite <-Hp1, <-Hp2. apply Hsame.
Qed.

Lemma audit_verify_head h c v : (verify hmac_hex isoformat parse_line integrity_key (Some h) c).1 = Ok v →
  ∃ es, iter c = Ok es ∧ head_hash a_event_hash GENESIS_HASH es = h ∧ v = {| v_event_count := Z.of_nat (length es); v_head_hash := h |}.
Proof.
  unfold verify. rewrite run_bind_get, run_bind_lift. destruct (iter c) as [es|] eqn:E; [|done]. pose proof (iter_chained _ _ E) as Hc.
  rewrite (last_event_spec _ Hc). cbn [fst snd]. rewrite run_bind, run_bind_lift.
  destruct (compare_digest _ h) as [same|] eqn:Ed; [|done]. apply compare_digest_ok in Ed as ->. unfold lift.
  destruct (integrity_if _ _) as [u|] eqn:Ei; [|done]. apply fail_if_ok in Ei. bool_to_prop. intros [= <-].
  exists es. split_and!; [done..|congruence].
Qed.

(** Tampering is evident.  With a keyed hash without collisions that never
    gives the genesis value, two files that verify against the same trusted head hold
    the same events in the same order, down to the nested metadata (up to the
    order of the members of a dictionary): no event can be changed, removed,
    inserted or reordered without the key. *)
Theorem audit_tamper_evident c1 c2 es1 es2 h v1 v2 :
  (∀ p q, hmac_hex integrity_key p = hmac_hex integrity_key q → p = q) →
  (∀ p, hmac_hex integrity_key p ≠ GENESIS_HASH) → (∀ t u, isoformat t = isoformat u → t = u) →
  (∀ line e, parse_line line = Ok e → event_floats_ok e) →
  iter c1 = Ok es1 → iter c2 = Ok es2 →
  (verify hmac_hex isoformat parse_line integrity_key (Some h) c1).1 = Ok v1 →
  (verify hmac_hex isoformat parse_line integrity_key (Some h) c2).1 = Ok v2 →
  Forall2 same_event es1 es2 ∧ v1 = v2.
Proof.
  intros Hinj Hgen Hiso Hparse H1 H2 (es1' & E1 & Hh1 & ->)%audit_verify_head (es2' & E2 & Hh2 & ->)%audit_verify_head.
  assert (es1' = es1) as -> by congruence. assert (es2' = es2) as -> by congruence.
  assert (∀ c es, iter c = Ok es → Forall event_floats_ok es) as Hfl.
  { intros [t|] es; [|by intros [= <-]]. intros (s & Hs & <-)%iter_scan. revert Hs.
    apply (fold_result_inv (λ s, Forall event_floats_ok (sc_events s))); [|constructor].
    intros s0 l s1 _ Hs0 Hstep. unfold read_step in Hstep. inv_ok Hstep. injection Hstep as <-. apply Forall_app. split; [done|].
    apply Forall_singleton. by eapply Hparse. }
  assert (Forall2 same_event es1 es2) as Hsame.
  { apply chains_same; [done..|by eapply Hfl|by eapply Hfl|by eapply iter_chained|by eapply iter_chained|congruence]. }
  split; [done|]. by rewrite (Forall2_length _ _ _ Hsame).
Qed.
End laws.

(** ** Witnesses *)

Definition demo_text (t : stamp) : string := demo_stamp_text (st_us t, st_offset t).
Definition demo_float (s : string) : option pyfloat := None.

Definition demo_str (j : json) : option string := match j with JStr s => Some s | _ => None end.

Definition demo_outcome (s : string) : option AuditOutcome :=
  if String.eqb s "success" then Some SUCCESS else if String.eqb s "failure" then Some FAILURE
  else if String.eqb s "denied" then Some DENIED else None.

(** The fields of a line in key order. *)
Definition demo_parse (line : string) : result AuditEvent :=
  match json_loads demo_float (of_chars (removelast (chars line))) with
  | Some (JObj [(_, JStr action); (_, actor); (_, JStr hash); (_, JObj m); (_, JStr at_); (_, JStr outcome);
                (_, JStr prev); (_, JInt seq); (_, target); (_, JStr target_type)]) =>
      match demo_stamp_read (A := Z * option Z) at_, demo_outcome outcome, jfloats (JObj m) with
      | Some (us, off), Some o, [] => Ok (Event seq (Stamp us off) (demo_str actor) action target_type (demo_str target) o m prev hash)
      | _, _, _ => fail ValueErr "malformed event"
      end
  | _ => fail ValueErr "malformed event"
  end.

Lemma demo_ascii k p : any_char non_ascii (demo_mac k p) = false.
Proof. apply demo_mac_ascii. Qed.

Lemma demo_no_floats j : floats_ok demo_float j → jfloats j = [].
Proof. unfold floats_ok. by destruct 1 as [|f l [? _] _]. Qed.

Lemma audit_demo_read_back : lines_read_back demo_text demo_parse demo_float.
Proof.
  intros e us _ _ Hcan Hf. unfold demo_parse, render. rewrite chars_app, chars_of_chars, removelast_last, of_chars_chars.
  assert (sort_json (event_dump demo_text e) = JObj
    [("action", JStr (a_action e)); ("actor_id", opt_str (a_actor_id e)); ("event_hash", JStr (a_event_hash e));
     ("metadata", JObj (a_metadata e)); ("occurred_at", JStr (demo_text (a_occurred_at e)));
     ("outcome", JStr (outcome_value (a_outcome e))); ("previous_hash", JStr (a_previous_hash e));
     ("sequence", JInt (a_sequence e)); ("target_id", opt_str (a_target_id e)); ("target_type", JStr (a_target_type e))]) as E.
  { apply sort_json_id in Hcan. destruct e as [s t [ac|] a ty [ta|] o m p h]; cbn [sort_json a_metadata] in Hcan;
      injection Hcan as Hm; unfold event_dump; cbn [sort_json fmap list_fmap fst snd opt_str a_metadata a_actor_id a_target_id];
      by rewrite Hm. }
  rewrite json_loads_dumps; [|by apply floats_ok_sort, dump_floats]. rewrite E.
  destruct e as [s [us' off] ac a ty ta o m p h]. cbn. unfold demo_text. cbn [st_us st_offset].
  rewrite demo_stamp_read_text. cbn [a_metadata] in Hf. fold (jfloats (JObj m)).
  change (concat _) with (jfloats (JObj m)). rewrite (demo_no_floats _ Hf). by destruct ac, ta, o.
Qed.

Lemma demo_parse_floats line e : demo_parse line = Ok e → event_floats_ok demo_float e.
Proof.
  unfold demo_parse. intros H. repeat (match type of H with context [match ?x with _ => _ end] => destruct x eqn:?; try discriminate H end).
  injection H as <-. unfold event_floats_ok, floats_ok. cbn [a_metadata]. match goal with E : jfloats _ = [] |- _ => rewrite E end. constructor.
Qed.

Definition demo_call (action : string) (metadata : option pyobj) : call :=
  Call 5 (Some "admin") action "package" (Some "shop") SUCCESS metadata None.

(** An event with nested metadata, one refused for a secret, one more. *)
Definition demo_calls : list call :=
  [demo_call "package.install" (Some (PMap 1 true [(KStr "files", PSeq 2 [PStr "a"; PNone; PBool true])]));
   demo_call "package.enable" (Some (PMap 1 true [(KStr "apiKey", PStr "k")]));
   demo_call "package.remove" None].

Definition demo_all : list call → store → list (result AuditEvent) * store :=
  λ l c, record_all demo_mac demo_text demo_text demo_parse "key" l c.

Example demo_results : is_ok <$> (demo_all demo_calls None).1 = [true; false; true].
Proof. vm_compute. reflexivity. Qed.

Lemma demo_calls_floats : Forall (call_floats_ok demo_float) demo_calls.
Proof. repeat (apply Forall_cons; split; [intros j; vm_compute; intros [= <-]; repeat constructor|]). constructor. Qed.

Lemma audit_trail_witness :
  ∃ es c, demo_all demo_calls None = (es, c) ∧
    iter_verified_events demo_mac demo_text demo_parse "key" c = Ok (successes es) ∧
    a_sequence <$> successes es = [1; 2]%Z.
Proof.
  pose proof (audit_trail demo_mac demo_text demo_text demo_parse "key" demo_float demo_ascii demo_calls
    audit_demo_read_back demo_calls_floats) as H.
  destruct (record_all demo_mac demo_text demo_text demo_parse "key" demo_calls None) as [es c] eqn:E.
  destruct H as (H & _ & _ & _). exists es, c. split; [exact E|]. split; [exact H|].
  apply (f_equal (λ r, a_sequence <$> successes r.1)) in E. cbn [fst] in E. rewrite <-E. vm_compute. reflexivity.
Defined.

Lemma audit_tamper_evident_witness :
  ∃ es c v, iter_verified_events demo_mac demo_text demo_parse "key" c = Ok es ∧ length es = 2 ∧
    (verify demo_mac demo_text demo_parse "key" (Some (v_head_hash v)) c).1 = Ok v ∧ Forall2 same_event es es.
Proof.
  destruct (demo_all demo_calls None) as [rs c] eqn:Ed.
  destruct (iter_verified_events demo_mac demo_text demo_parse "key" c) as [es|x] eqn:E;
    [|apply (f_equal snd) in Ed; cbn [snd] in Ed; subst c; exfalso; revert E; vm_compute; discriminate].
  assert (length es = 2) as Hl.
  { apply (f_equal snd) in Ed. cbn [snd] in Ed. subst c. apply (f_equal (λ r, match r with Ok l => length l | Err _ => 0 end)) in E.
    rewrite <-E. vm_compute. reflexivity. }
  assert (∃ v, (verify demo_mac demo_text demo_parse "key" (Some (v_head_hash v)) c).1 = Ok v) as [v Hv].
  { apply (f_equal snd) in Ed. cbn [snd] in Ed. subst c.
    destruct (verify demo_mac demo_text demo_parse "key" None (demo_all demo_calls None).2).1 as [v|x] eqn:Ev;
      [|exfalso; revert Ev; vm_compute; discriminate].
    exists v. vm_compute in Ev. injection Ev as <-. vm_compute. reflexivity. }
  exists es, c, v. split; [exact E|]. split; [exact Hl|]. split; [exact Hv|].
  apply (audit_tamper_evident demo_mac demo_text demo_parse "key" demo_float c c es es (v_head_hash v) v v
    (demo_mac_inj "key") ltac:(discriminate)
    ltac:(intros [? ?] [? ?]; unfold demo_text; intros [= -> ->]%demo_stamp_text_inj; reflexivity) demo_parse_floats E E Hv Hv).
Defined.
End AuditLaws.
