(* ===== verification/Observability.v ===== *)
(** * Structured telemetry (observability.py)

    [StructuredEventLogger.emit], the ASGI middleware that gives a request its
    correlation id and logs its completion, and the helpers of both.  The sink
    and the ASGI [send] are callbacks on the world [W]; an application is the
    sequence of messages it sends, each chosen from what came back before it
    ([asgi]).  Parameters: [isoformat] of a UTC instant, [uuid4().hex] and the
    measured duration. *)

From Stdlib Require Import Ascii ZArith Lia.
From stdpp Require Import base decidable numbers list strings sets.
From S2P Require Import Prelude PyData Regex JsonGraph HashChain JsonText.

Module Observability.
Import JsonGraph JsonText.

Definition EVENT_NAME : re :=
  Seq (Chr is_lower) (Rep 1 127 (Chr (λ c, is_lower c || is_digit c || one_of "_.-" c))).
Definition CORRELATION_ID : re := Seq (Chr is_alnum) (Rep 7 127 (Chr (λ c, is_alnum c || one_of "._:-" c))).
Definition SENSITIVE_PARTS : list string :=
  ["authorization"; "cookie"; "credential"; "password"; "secret"; "token"].
Definition SENSITIVE_COMPACT_KEYS : list string :=
  ["accesstoken"; "apikey"; "clientsecret"; "privatekey"; "refreshtoken"; "sessioncookie"].
Definition MAX_STRUCTURED_FIELDS_BYTES : Z := 64 * 1024.
Definition MAX_STRUCTURED_FIELDS_DEPTH : Z := 16.
Definition MAX_STRUCTURED_FIELDS_KEYS : Z := 512.
Definition MAX_STRUCTURED_FIELDS_ITEMS : Z := 4096.
Definition MAX_STRUCTURED_FIELD_KEY_BYTES : nat := 128.

(** ** Fields *)

Definition is_sensitive_field_key : string → bool := sensitive_key SENSITIVE_PARTS SENSITIVE_COMPACT_KEYS.

Definition fields_message (why : refusal) : string :=
  match why with
  | TooManyItems => "structured log fields exceed the item limit"
  | TooDeep => "structured log fields exceed the depth limit"
  | Cyclic => "structured log fields must be acyclic"
  | KeyNotStr => "structured log field names must be strings"
  | KeyNotUtf8 | KeyInvalid => "structured log field name is invalid"
  | TooManyKeys => "structured log fields exceed the key limit"
  | KeySensitive => "structured log contains a sensitive field"
  end.

Definition field_rules : rules := {|
  ru_items := MAX_STRUCTURED_FIELDS_ITEMS; ru_depth := MAX_STRUCTURED_FIELDS_DEPTH; ru_keys := MAX_STRUCTURED_FIELDS_KEYS;
  ru_key_bytes := MAX_STRUCTURED_FIELD_KEY_BYTES; ru_bad_char := is_control; ru_sensitive := is_sensitive_field_key;
  ru_class := ValueErr; ru_message := fields_message |}.

Definition validate_field_structure : pyobj → result unit := validate_structure field_rules.

(** [_safe_fields]. *)
Definition safe_fields (fields : pyobj) : result (list (string * json)) :=
  match fields with
  | PMap _ _ _ =>
      copied ← checked_copy field_rules MAX_STRUCTURED_FIELDS_BYTES
        (Exn ValueErr "structured log fields exceed the size limit")
        (Exn ValueErr "structured log fields must be JSON-safe") fields;
      match copied with
      | JObj m => Ok m
      | _ => fail TypeErr "structured log fields must be an object"
      end
  | _ => fail TypeErr "structured log fields must be an object"
  end.

(** [fields or {}]. *)
Definition fields_or_empty (fields : option pyobj) : pyobj :=
  match fields with
  | None | Some (PMap _ _ []) => PMap 0 true []
  | Some v => v
  end.

(** ** [StructuredEventLogger.emit] *)

Definition LEVELS : list string := ["debug"; "info"; "warning"; "error"; "critical"].

Definition opt_str (o : option string) : json := match o with Some s => JStr s | None => JNull end.

(** [{"occurred_at": ..., "level": ..., "event": ..., "correlation_id": ..., **safe_fields}]. *)
Definition log_record (occurred_at level event : string) (correlation_id : option string) (fields : list (string * json)) :
    list (string * json) :=
  dict_merge [("occurred_at", JStr occurred_at); ("level", JStr level); ("event", JStr event);
              ("correlation_id", opt_str correlation_id)] fields.

Section logger.
Context {W : Type} (sink : string → M W unit) (isoformat_utc : Z → string).

Definition emit (clock : Z) (event level : string) (correlation_id : option string) (fields : option pyobj)
    (occurred_at : option datetime) : M W string :=
  _ ← raise_if (negb (fullmatch EVENT_NAME event)) ValueErr "invalid structured event name";
  _ ← raise_if (bool_decide (level ∉ LEVELS)) ValueErr "invalid structured log level";
  _ ← raise_if (match correlation_id with Some c => negb (fullmatch CORRELATION_ID c) | None => false end) ValueErr
        "invalid correlation id";
  fields ← lift (safe_fields (fields_or_empty fields));
  timestamp ← lift (as_utc_msg "structured log timestamp must be timezone-aware" (or_default occurred_at (Aware clock)));
  let encoded := json_dumps (JObj (dict_sort (log_record (isoformat_utc timestamp) level event correlation_id fields))) in
  _ ← sink encoded;
  mret encoded.
End logger.

(** ** Requests *)

(** The parts of the ASGI scope that are read; headers are pairs of byte strings. *)
Record scope : Type := Scope {
  sp_type : string; sp_headers : list (string * string); sp_method : string; sp_route : option string;
}.

Record message : Type := Message {
  m_type : string; m_status : option Z; m_headers : list (string * string);
}.

(** [bytes.lower]. *)
Definition bytes_lower (s : string) : string := of_chars (lower_char <$> chars s).

Definition is_ascii (s : string) : bool := forallb (λ c, (code c <? 128)%N) (chars s).

(** [_header]. *)
Definition header (headers : list (string * string)) (name : string) : option string :=
  match (List.filter (λ kv, String.eqb (bytes_lower kv.1) name) headers).*2 with
  | [value] => if is_ascii value then Some value else None
  | _ => None
  end.

(** [_safe_route_label]. *)
Definition safe_route_label (s : scope) : string :=
  match sp_route s with
  | None => "unmatched"
  | Some template =>
      if String.eqb template "/health" then "health"
      else if String.eqb template "/" then "application.root"
      else if String.eqb template "/api/core/status" then "core.status"
      else if startswith template "/api/auth/" then "identity.api"
      else if String.eqb template "/api/install" || startswith template "/api/install/" then "installer.api"
      else if String.eqb template "/api/admin" || startswith template "/api/admin/" then "admin.api"
      else if startswith template "/themes/" then "web.theme-asset"
      else "application.route"
  end.

(** ** [CorrelationMiddleware] *)

(** A run of the application: it sends a message and goes on with the outcome of
    [send], or it returns, or raises. *)
Inductive asgi : Type :=
  | Finish (r : result unit)
  | Send (m : message) (k : result unit → asgi).

Definition REQUEST_ID : string := "x-request-id".

(** [send_with_correlation] on the message. *)
Definition correlated (correlation_id : string) (m : message) : message :=
  if String.eqb (m_type m) "http.response.start" then
    Message (m_type m) (m_status m)
      (List.filter (λ kv, negb (String.eqb (bytes_lower kv.1) REQUEST_ID)) (m_headers m) ++ [(REQUEST_ID, correlation_id)])
  else m.

Definition next_status (status_code : Z) (m : message) : Z :=
  if String.eqb (m_type m) "http.response.start" then or_default (m_status m) 500%Z else status_code.

Section middleware.
Context {W : Type} (sink : string → M W unit) (isoformat_utc : Z → string) (send : message → M W unit).

(** The application under [send_with_correlation]; the state carries [status_code]. *)
Fixpoint run_app (correlation_id : string) (app : asgi) : M (W * Z) unit :=
  match app with
  | Finish r => lift r
  | Send m k => λ ws,
      let '(r, w) := send (correlated correlation_id m) ws.1 in
      run_app correlation_id (k r) (w, next_status ws.2 m)
  end.

(** The application alone, for a scope that is not HTTP. *)
Fixpoint run_plain (app : asgi) : M W unit :=
  match app with
  | Finish r => lift r
  | Send m k => λ w, let '(r, w) := send m w in run_plain (k r) w
  end.

Definition request_id (fresh : string) (s : scope) : string :=
  match header (sp_headers s) REQUEST_ID with
  | Some supplied => if fullmatch CORRELATION_ID supplied then supplied else fresh
  | None => fresh
  end.

Definition completion_fields (s : scope) (status_code : Z) (duration_ms : pyfloat) (outcome : string) : pyobj :=
  PMap 0 true
    [(KStr "method", PStr (sp_method s)); (KStr "route", PStr (safe_route_label s)); (KStr "status_code", PInt status_code);
     (KStr "duration_ms", PFloat duration_ms); (KStr "outcome", PStr outcome)].

(** [__call__]; [fresh] is [uuid4().hex], [clock] the time of the log line and
    [duration_ms] what the two readings of the clock give. *)
Definition call (fresh : string) (clock : Z) (duration_ms : pyfloat) (s : scope) (app : asgi) : M W unit := λ w,
  if negb (String.eqb (sp_type s) "http") then run_plain app w
  else
    let correlation_id := request_id fresh s in
    let '(r, (w, status_code)) := run_app correlation_id app (w, 500%Z) in
    let outcome := if is_ok r then "success" else "error" in
    let level := if negb (is_ok r) || (500 <=? status_code)%Z then "error" else "info" in
    let '(_, w) := emit sink isoformat_utc clock "http.request.completed" level (Some correlation_id)
                     (Some (completion_fields s status_code duration_ms outcome)) None w in
    (r, w).
End middleware.
End Observability.

(** ** Laws *)

Module ObservabilityLaws.
Import JsonGraph HashChain JsonText Observability.

Lemma safe_fields_ok v m :
  safe_fields v = Ok m →
  canonical (JObj m) ∧ (Z.of_nat (utf8_len (json_dumps (JObj m))) ≤ MAX_STRUCTURED_FIELDS_BYTES)%Z ∧
  (jheight (JObj m) ≤ MAX_STRUCTURED_FIELDS_DEPTH)%Z ∧ ∀ k, k ∈ jkeys (JObj m) → is_sensitive_field_key k = false.
Proof.
  destruct v as [|b|z|f| |s| | |o l|o b items]; try done. cbn [safe_fields]. intros (j & H & Hj)%bind_result_ok.
  destruct j as [| | | | | |m']; try discriminate Hj. injection Hj as ->. split.
  - by apply checked_copy_to_json, to_json_canonical in H.
  - apply (checked_copy_stable field_rules) in H as (H1 & H2 & H3 & _); [by split_and!|done].
Qed.

Lemma dict_get_merge_fresh {V} (d e : dict string V) k : k ∉ dict_keys e → dict_get (dict_merge d e) k = dict_get d k.
Proof.
  unfold dict_keys. revert d. induction e as [|[k' v] e IH]; intros d Hk; [done|]. csimpl in Hk. apply not_elem_of_cons in Hk as [Hne Hk].
  simpl. rewrite IH, dict_get_set by done. by rewrite decide_False.
Qed.

Lemma elem_of_merge {V} (d e : dict string V) x : dict_wf d → x ∈ dict_merge d e → x ∈ d ∨ x ∈ e.
Proof.
  revert d. induction e as [|[k v] e IH]; intros d Hd Hx; [by left|]. simpl in Hx. apply IH in Hx as [Hx|Hx]; [|right; by right|by apply dict_wf_set].
  apply dict_set_in in Hx as [->|[Hx _]]; [right; by left|by left|done].
Qed.

Definition reserved (occurred_at level event : string) (correlation_id : option string) : list (string * json) :=
  [("occurred_at", JStr occurred_at); ("level", JStr level); ("event", JStr event); ("correlation_id", opt_str correlation_id)].

Lemma reserved_wf a b c d : dict_wf (reserved a b c d).
Proof. unfold dict_wf. cbn. repeat (apply NoDup_cons; split; [by vm_compute; set_solver|]). apply NoDup_nil. done. Qed.

Section laws.
Context {W : Type} (sink : string → M W unit) (isoformat_utc : Z → string) (read_float : string → option pyfloat).

(** What one log line is: the record of the reserved names and the fields. *)
Record line_of (clock : Z) (event level : string) (correlation_id : option string) (fields : option pyobj)
    (occurred_at : option datetime) (line : string) (rec m : list (string * json)) : Prop := {
  ln_event : fullmatch EVENT_NAME event = true;
  ln_level : level ∈ LEVELS;
  ln_fields : safe_fields (fields_or_empty fields) = Ok m;
  ln_keys : ∀ k, k ∈ jkeys (JObj m) → is_sensitive_field_key k = false;
  ln_reads : json_loads read_float line = Some (JObj rec);
  ln_one_line : newline ∉ chars line;
  ln_members : ∃ us, or_default occurred_at (Aware clock) = Aware us ∧
    (∀ x, x ∈ rec → x ∈ reserved (isoformat_utc us) level event correlation_id ∨ x ∈ m) ∧
    ∀ k, k ∉ dict_keys m → dict_get rec k = dict_get (reserved (isoformat_utc us) level event correlation_id) k;
}.

(** What [emit] does: it refuses and nothing reaches the sink, or the sink is
    called exactly once, with one line that reads back as the record. *)
Lemma emit_spec clock event level correlation_id fields occurred_at w :
  (∀ m, safe_fields (fields_or_empty fields) = Ok m → floats_ok read_float (JObj m)) →
  (∃ e, emit sink isoformat_utc clock event level correlation_id fields occurred_at w = (Err e, w)) ∨
  ∃ line rec m, line_of clock event level correlation_id fields occurred_at line rec m ∧
    emit sink isoformat_utc clock event level correlation_id fields occurred_at w =
      let '(r, w') := sink line w in (match r with Ok _ => Ok line | Err e => Err e end, w').
Proof.
  intros Hfl. unfold emit, raise_if.
  rewrite run_bind_lift. destruct (fail_if _ _ _) eqn:E1; [|left; by eexists]. apply fail_if_ok in E1.
  rewrite run_bind_lift. destruct (fail_if _ _ _) eqn:E2; [|left; by eexists]. apply fail_if_ok in E2.
  rewrite run_bind_lift. destruct (fail_if _ _ _) eqn:E3; [|left; by eexists].
  rewrite run_bind_lift. destruct (safe_fields _) as [m|] eqn:E4; [|left; by eexists].
  rewrite run_bind_lift. destruct (as_utc_msg _ _) as [us|] eqn:E5; [|left; by eexists]. apply as_utc_ok in E5 as [E5 _].
  right. specialize (Hfl m eq_refl). destruct (safe_fields_ok _ _ E4) as (_ & _ & _ & Hk).
  set (rec := dict_sort (log_record (isoformat_utc us) level event correlation_id m)).
  pose proof (reserved_wf (isoformat_utc us) level event correlation_id) as Hwf.
  assert (floats_ok read_float (JObj rec)) as Hrec.
  { apply floats_ok_obj. apply floats_ok_obj in Hfl. rewrite Forall_forall in Hfl. apply Forall_forall. intros x Hx.
    unfold rec in Hx. rewrite elem_of_dict_sort in Hx. apply elem_of_merge in Hx as [Hx|Hx]; [|by apply Hfl|exact Hwf].
    repeat (apply elem_of_cons in Hx as [->|Hx]; [try constructor; by destruct correlation_id; constructor|]). by apply not_elem_of_nil in Hx. }
  exists (json_dumps (JObj rec)), rec, m. split; [|rewrite run_bind; by destruct (sink _ w) as [[]]].
  bool_to_prop. split; try done; [by apply dec_stable in E2|by apply json_loads_dumps|by apply (dumps_no_newline read_float)|].
  exists us. split; [done|]. split.
  - intros x Hx. unfold rec in Hx. rewrite elem_of_dict_sort in Hx. by apply elem_of_merge in Hx.
  - intros k Hk'. unfold rec. rewrite dict_get_sort; [by apply dict_get_merge_fresh|]. by apply dict_wf_merge.
Qed.
End laws.

(** ** Requests *)

Definition is_request_id (kv : string * string) : bool := String.eqb (bytes_lower kv.1) REQUEST_ID.

(** The message carries the correlation id, once, and is otherwise that of the
    application. *)
Definition carries (correlation_id : string) (m m' : message) : Prop :=
  if String.eqb (m_type m) "http.response.start" then
    m_type m' = m_type m ∧ m_status m' = m_status m ∧
    List.filter is_request_id (m_headers m') = [(REQUEST_ID, correlation_id)] ∧
    List.filter (λ kv, negb (is_request_id kv)) (m_headers m') = List.filter (λ kv, negb (is_request_id kv)) (m_headers m)
  else m' = m.

Lemma filter_negb {A} (p : A → bool) l :
  List.filter p (List.filter (λ x, negb (p x)) l) = [] ∧
  List.filter (λ x, negb (p x)) (List.filter (λ x, negb (p x)) l) = List.filter (λ x, negb (p x)) l.
Proof.
  induction l as [|x l [IH1 IH2]]; [done|]. simpl. destruct (p x) eqn:E; simpl; [done|]. rewrite E. simpl. by rewrite IH1, IH2.
Qed.

Lemma correlated_carries cid m : carries cid m (correlated cid m).
Proof.
  unfold carries, correlated. destruct (String.eqb (m_type m) _); [|done]. cbn [m_type m_status m_headers].
  destruct (filter_negb is_request_id (m_headers m)) as [H1 H2]. split_and!; [done..| |]; rewrite List.filter_app.
  - change (List.filter is_request_id (List.filter (λ kv, negb (is_request_id kv)) (m_headers m)) ++ List.filter is_request_id [(REQUEST_ID, cid)] = [(REQUEST_ID, cid)]).
    by rewrite H1.
  - change (List.filter (λ kv, negb (is_request_id kv)) (List.filter (λ kv, negb (is_request_id kv)) (m_headers m)) ++ List.filter (λ kv, negb (is_request_id kv)) [(REQUEST_ID, cid)] = List.filter (λ kv, negb (is_request_id kv)) (m_headers m)).
    by rewrite H2, app_nil_r.
Qed.

Section requests.
Context {W : Type} (isoformat_utc : Z → string) (read_float : string → option pyfloat).
Context (send : message → M W unit) (sink : string → M W unit).

(** [send] and [sink] with the record of what the server and the log were given. *)
Abbreviation journal := (list message * list string)%type.
Definition sending (m : message) : M (journal * W) unit := λ jw,
  let '(r, w) := send m jw.2 in (r, ((jw.1.1 ++ [m], jw.1.2), w)).
Definition sinking (line : string) : M (journal * W) unit := λ jw,
  let '(r, w) := sink line jw.2 in (r, ((jw.1.1, jw.1.2 ++ [line]), w)).

(** What the application asked to send, in a run under the middleware. *)
Fixpoint asked (cid : string) (prog : asgi) (w : W) : list message :=
  match prog with
  | Finish _ => []
  | Send m k => let '(r, w) := send (correlated cid m) w in m :: asked cid (k r) w
  end.

Lemma run_app_sends cid prog j w st :
  ∃ r w' st' sent, run_app sending cid prog ((j, w), st) = (r, (((j.1 ++ sent, j.2), w'), st')) ∧
    Forall2 (carries cid) (asked cid prog w) sent.
Proof.
  revert j w st. induction prog as [r|m k IH]; intros j w st; cbn [run_app asked].
  - exists r, w, st, []. rewrite app_nil_r. split; [by destruct j|constructor].
  - unfold sending at 1. cbn [fst snd]. destruct (send (correlated cid m) w) as [r1 w1].
    destruct (IH r1 (j.1 ++ [correlated cid m], j.2) w1 (next_status st m)) as (r & w' & st' & sent & E & Hs).
    exists r, w', st', (correlated cid m :: sent). cbn [fst snd] in *. rewrite <-(assoc_L (++)) in E. split; [exact E|].
    constructor; [apply correlated_carries|done].
Qed.

Lemma run_app_result cid prog j w st :
  (run_app sending cid prog ((j, w), st)).1 = (run_app send cid prog (w, st)).1.
Proof.
  revert j w st. induction prog as [r|m k IH]; intros j w st; cbn [run_app]; [done|].
  unfold sending at 1. cbn [fst snd]. destruct (send (correlated cid m) w) as [r1 w1]. apply IH.
Qed.

Lemma completion_members s status d outcome m :
  safe_fields (completion_fields s status d outcome) = Ok m →
  m = dict_sort [("method", JStr (sp_method s)); ("route", JStr (safe_route_label s)); ("status_code", JInt status);
                 ("duration_ms", JFloat d); ("outcome", JStr outcome)].
Proof.
  unfold completion_fields. cbn [safe_fields]. intros (j & H & Hj)%bind_result_ok.
  destruct j as [| | | | | |m']; try discriminate Hj. injection Hj as ->.
  apply checked_copy_to_json in H. cbn [to_json map_items] in H.
  destruct (_ <? _)%Z; [|done]. by injection H as <-.
Qed.

(** Every HTTP request has one valid correlation id, the client's if the
    client supplied a single valid one, else a fresh one; each response
    start that the application asks to send goes out with exactly one request-id header,
    that id, and its other headers in their order, and every other message
    unchanged; the outcome is the application's own, whatever becomes of the telemetry;
    and at most one line is logged, a well-formed record of the completion that carries the id. *)
Theorem request_correlated fresh clock d s prog w r j w' :
  fullmatch CORRELATION_ID fresh = true → String.eqb (sp_type s) "http" = true → float_ok read_float d →
  call sinking isoformat_utc sending fresh clock d s prog (([], []), w) = (r, (j, w')) →
  let id := request_id fresh s in
  fullmatch CORRELATION_ID id = true ∧
  (∀ c, header (sp_headers s) REQUEST_ID = Some c → fullmatch CORRELATION_ID c = true → id = c) ∧
  Forall2 (carries id) (asked id prog w) j.1 ∧
  r = (run_app send id prog (w, 500%Z)).1 ∧
  length j.2 ≤ 1 ∧
  ∀ line, line ∈ j.2 → ∃ level status outcome rec m,
    line_of isoformat_utc read_float clock "http.request.completed" level (Some id)
      (Some (completion_fields s status d outcome)) None line rec m ∧
    dict_get rec "correlation_id" = Some (JStr id).
Proof.
  intros Hfresh Htype Hd Hrun id. unfold call in Hrun. rewrite Htype in Hrun. cbn [negb] in Hrun. fold id in Hrun.
  destruct (run_app_sends id prog ([], []) w 500) as (r1 & w1 & st & sent & E & Hsent).
  pose proof (run_app_result id prog ([], []) w 500) as Hres. rewrite E in Hrun, Hres. cbn [fst snd app] in *.
  match goal with H : context [emit sinking _ _ _ ?l _ (Some ?f) _ _] |- _ => set (level := l) in *; set (fields := f) in * end.
  assert (∀ m, safe_fields (fields_or_empty (Some fields)) = Ok m → floats_ok read_float (JObj m)) as Hfl.
  { intros m ->%completion_members. apply floats_ok_obj. unfold dict_sort. rewrite sort_by_perm.
    repeat (apply Forall_cons; split; [first [by constructor|by apply Forall_singleton]|]). constructor. }
  assert (∃ lines, j = (sent, lines) ∧ r = r1 ∧ (lines = [] ∨ ∃ line rec m, lines = [line] ∧
    line_of isoformat_utc read_float clock "http.request.completed" level (Some id) (Some fields) None line rec m))
    as (lines & -> & -> & Hlines).
  { destruct (emit_spec sinking isoformat_utc read_float clock "http.request.completed" level (Some id) (Some fields) None
      (([] ++ sent, []), w1) Hfl) as [(e & Ee)|(line & rec & m & Hline & Ee)]; cbn [app] in *; rewrite Ee in Hrun.
    - injection Hrun as <- <- _. exists []. split_and!; [done..|by left].
    - unfold sinking in Hrun. cbn [fst snd] in Hrun. destruct (sink line w1) as [r2 w2]. injection Hrun as <- <- _.
      exists [line]. split_and!; [done..|]. right. exists line, rec, m. split; [reflexivity|exact Hline]. }
  split_and!; [| |done|done| |].
  - unfold id, request_id. destruct (header _ _) as [c|]; [|done]. by destruct (fullmatch CORRELATION_ID c) eqn:Ec.
  - intros c Hc Hv. unfold id, request_id. by rewrite Hc, Hv.
  - destruct Hlines as [->|(line & rec & m & -> & _)]; simpl; lia.
  - intros line Hin. destruct Hlines as [->|(line' & rec & m & -> & Hline)]; [by apply not_elem_of_nil in Hin|].
    apply list_elem_of_singleton in Hin as ->. do 5 eexists. split; [exact Hline|].
    destruct Hline as [_ _ Hm _ _ _ (us & _ & _ & Hkeys)]. rewrite Hkeys; [done|].
    apply completion_members in Hm as ->. unfold dict_keys, dict_sort. rewrite sort_by_perm.
    cbn [fmap list_fmap fst]. intros Hk. do 5 (apply elem_of_cons in Hk as [Hk|Hk]; [discriminate Hk|]).
    by apply not_elem_of_nil in Hk.
Qed.
End requests.

(** ** Witness *)

(** A request that supplies its id, answered with one of its own; the sink fails. *)
Definition demo_scope : scope := Scope "http" [("X-Request-ID", "client-0001")] "GET" (Some "/api/auth/login").
Definition demo_app : asgi :=
  Send (Message "http.response.start" (Some 200%Z) [("x-request-id", "other"); ("content-type", "text/plain")])
    (λ _, Send (Message "http.response.body" None []) (λ r, Finish r)).
Definition demo_send (m : message) : M unit unit := mret tt.
Definition demo_sink (line : string) : M unit unit := raise OSErr "disk full".
Definition demo_float : pyfloat := Float "1.5" 3 (-1).
Definition demo_read (s : string) : option pyfloat := if String.eqb s "1.5" then Some demo_float else None.

Definition demo_call : result unit * ((list message * list string) * unit) :=
  call (sinking demo_sink) (λ _, "t") (sending demo_send) "0123456789abcdef" 5 demo_float demo_scope demo_app (([], []), tt).

Example demo_headers : m_headers <$> demo_call.2.1.1 = [[("content-type", "text/plain"); ("x-request-id", "client-0001")]; []].
Proof. vm_compute. reflexivity. Qed.

Lemma request_correlated_witness :
  ∃ r j w', demo_call = (r, (j, w')) ∧ Forall2 (carries "client-0001") (asked demo_send "client-0001" demo_app tt) j.1 ∧
    length j.2 ≤ 1.
Proof.
  destruct demo_call as [r [j w']] eqn:E. exists r, j, w'. split; [reflexivity|].
  destruct (request_correlated (λ _, "t") demo_read demo_send demo_sink "0123456789abcdef" 5 demo_float demo_scope demo_app
    tt r j w' ltac:(vm_compute; reflexivity) eq_refl ltac:(split; [reflexivity|split; reflexivity]) E) as (_ & _ & H & _ & Hl & _).
  split; [exact H|exact Hl].
Defined.
End ObservabilityLaws.
