(* ===== verification/Diagnostics.v ===== *)
(** * Bounded diagnostics (observability.py: [DiagnosticRegistry])

    The registry is shared by threads.  A [run] is a thread that takes the
    checks in order: it obtains the execution of a check under the lock
    ([_execution]), waits for its event up to the timeout, and records a result.
    The worker of an execution is a thread that ends, if it ends, with what the check gives.
    The time-outs and the workers are steps like any other, so every
    interleaving of calls and checks is a list of [action]s.  [duration_ms] is
    left out; that the timeout is in range is an argument. *)

From Stdlib Require Import Ascii ZArith Lia.
From stdpp Require Import base decidable numbers list strings sets.
From S2P Require Import Prelude PyData Regex Observability.

Module Diagnostics.
Import Observability.

(** ** Data *)

(** [_DiagnosticExecution], with the check it runs; [error_type] is the folded
    name of the class of the exception. *)
Record execution : Type := Execution {
  x_check : string; x_done : bool; x_result : option (bool * string); x_error_type : option string;
}.

(** [DiagnosticResult]. *)
Record diagnostic : Type := Diagnostic { d_id : string; d_passed : bool; d_code : string }.

(** A thread in [run]: the checks to go, the execution it waits for, the results. *)
Record caller : Type := Caller {
  cl_todo : list string; cl_waits : option (string * nat); cl_results : list diagnostic;
}.

(** Executions are named by their place in [heap]. *)
Record system : Type := System {
  checks : dict string unit; executions : dict string nat; heap : list execution; callers : list caller;
}.

Definition empty : system := System [] [] [] [].

(** ** Methods *)

(** [s[:128]]. *)
Fixpoint take_points (n : nat) (s : string) : string :=
  match s with
  | EmptyString => EmptyString
  | String c s' =>
      if is_continuation c then String c (take_points n s')
      else match n with O => EmptyString | S n => String c (take_points n s') end
  end.

Definition error_code (error_type : string) : string := take_points 128 ("diagnostic." +:+ error_type).

Definition register (check_id : string) (s : system) : result system :=
  if negb (fullmatch EVENT_NAME check_id) then fail ValueErr "invalid diagnostic check id"
  else if dict_mem (checks s) check_id then fail ValueErr "diagnostic check is already registered"
  else Ok (System (dict_set (checks s) check_id tt) (executions s) (heap s) (callers s)).

(** [run] up to its loop. *)
Definition start_run (timeout_ok : bool) (s : system) : result system :=
  if negb timeout_ok then fail ValueErr "diagnostic timeout must be between 0.01 and 30 seconds"
  else Ok (System (checks s) (executions s) (heap s) (callers s ++ [Caller (sort_by id (dict_keys (checks s))) None []])).

(** [_execution]: the execution to wait for. *)
Definition live (s : system) (x : nat) : bool :=
  match heap s !! x with Some e => negb (x_done e) | None => false end.

Definition get_execution (check_id : string) (s : system) : nat * system :=
  let fresh := length (heap s) in
  let started := System (checks s) (dict_set (executions s) check_id fresh)
                   (heap s ++ [Execution check_id false None None]) (callers s) in
  match dict_get (executions s) check_id with
  | Some existing => if live s existing then (existing, s) else (fresh, started)
  | None => (fresh, started)
  end.

(** The result of a finished execution; what the [except] clause makes of a
    missing or an invalid one. *)
Definition verdict (e : execution) : bool * string :=
  match x_error_type e with
  | Some error => (false, error_code error)
  | None =>
      match x_result e with
      | None => (false, error_code "valueerror")
      | Some (passed, code) => if fullmatch EVENT_NAME code then (passed, code) else (false, error_code "valueerror")
      end
  end.

(** ** Steps *)

Definition set_caller (i : nat) (c : caller) (s : system) : system :=
  System (checks s) (executions s) (heap s) (<[i := c]> (callers s)).

(** The worker's [invoke]: it returns a result or raises. *)
Definition invoke (outcome : bool * string + string) (e : execution) : execution :=
  match outcome with
  | inl r => Execution (x_check e) true (Some r) (x_error_type e)
  | inr error => Execution (x_check e) true (x_result e) (Some error)
  end.

Inductive action : Type :=
  | Register (check_id : string)
  | StartRun (timeout_ok : bool)
  | NextCheck (i : nat)
  | Observe (i : nat)
  | Timeout (i : nat)
  | Complete (x : nat) (outcome : bool * string + string).

(** What a step leaves; a refused or impossible step leaves the system alone. *)
Definition act (a : action) (s : system) : system :=
  match a with
  | Register check_id => match register check_id s with Ok s' => s' | Err _ => s end
  | StartRun ok => match start_run ok s with Ok s' => s' | Err _ => s end
  | NextCheck i =>
      match callers s !! i with
      | Some (Caller (id :: todo) None results) =>
          let '(x, s') := get_execution id s in set_caller i (Caller todo (Some (id, x)) results) s'
      | _ => s
      end
  | Observe i =>
      match callers s !! i with
      | Some (Caller todo (Some (id, x)) results) =>
          match heap s !! x with
          | Some e =>
              if x_done e
              then let v := verdict e in set_caller i (Caller todo None (results ++ [Diagnostic id v.1 v.2])) s
              else s
          | None => s
          end
      | _ => s
      end
  | Timeout i =>
      match callers s !! i with
      | Some (Caller todo (Some (id, x)) results) =>
          set_caller i (Caller todo None (results ++ [Diagnostic id false "diagnostic.timeout"])) s
      | _ => s
      end
  | Complete x outcome =>
      match heap s !! x with
      | Some e => if x_done e then s else System (checks s) (executions s) (<[x := invoke outcome e]> (heap s)) (callers s)
      | None => s
      end
  end.

Definition run (l : list action) : system := foldl (λ s a, act a s) empty l.
End Diagnostics.

(** ** Laws *)

Module DiagnosticLaws.
Import Observability Diagnostics.

(** A result that passed is what a finished execution of the check reported. *)
Definition reported (h : list execution) (d : diagnostic) : Prop :=
  d_passed d = true → ∃ x e, h !! x = Some e ∧ x_check e = d_id d ∧ x_done e = true ∧ x_error_type e = None ∧
    x_result e = Some (true, d_code d) ∧ fullmatch EVENT_NAME (d_code d) = true.

Record caller_ok (ks : dict string unit) (h : list execution) (c : caller) : Prop := {
  ca_todo : Forall (λ id, id ∈ dict_keys ks) (cl_todo c);
  ca_waits : ∀ id x, cl_waits c = Some (id, x) → ∃ e, h !! x = Some e ∧ x_check e = id;
  ca_results : Forall (reported h) (cl_results c);
}.

Record system_ok (s : system) : Prop := {
  sy_checks : dict_wf (checks s);
  sy_executions : ∀ id x, dict_get (executions s) id = Some x → ∃ e, heap s !! x = Some e ∧ x_check e = id;
  sy_live : ∀ x e, heap s !! x = Some e → x_done e = false → dict_get (executions s) (x_check e) = Some x;
  sy_registered : ∀ x e, heap s !! x = Some e → x_check e ∈ dict_keys (checks s);
  sy_callers : Forall (caller_ok (checks s) (heap s)) (callers s);
}.

Lemma empty_ok : system_ok empty.
Proof. split; [apply dict_wf_nil|done|done|done|constructor]. Qed.

(** Executions are added and completed; a completed one never changes. *)
Definition grows (h h' : list execution) : Prop := ∀ x e, h !! x = Some e →
  ∃ e', h' !! x = Some e' ∧ x_check e' = x_check e ∧ (x_done e = true → e' = e).

Lemma heap_grows_refl h : grows h h.
Proof. intros x e He. by exists e. Qed.

Lemma heap_grows_snoc h e : grows h (h ++ [e]).
Proof. intros x f Hf. exists f. split_and!; [by apply lookup_app_l_Some|done..]. Qed.

Lemma reported_grows h h' d : grows h h' → reported h d → reported h' d.
Proof.
  intros Hg Hr Hp. destruct (Hr Hp) as (x & e & He & Hc & Hd & H1 & H2 & H3). destruct (Hg x e He) as (e' & He' & _ & Heq).
  rewrite Heq in He' by done. by exists x, e.
Qed.

Lemma caller_ok_grows ks ks' h h' c :
  (∀ id, id ∈ dict_keys ks → id ∈ dict_keys ks') → grows h h' → caller_ok ks h c → caller_ok ks' h' c.
Proof.
  intros Hk Hg [H1 H2 H3]. split.
  - eapply Forall_impl; [exact H1|]. exact Hk.
  - intros id x E. destruct (H2 id x E) as (e & He & Hc). destruct (Hg x e He) as (e' & He' & Hc' & _). exists e'. split; [done|congruence].
  - eapply Forall_impl; [exact H3|]. intros d. by apply reported_grows.
Qed.

Lemma callers_grow ks ks' h h' l :
  (∀ id, id ∈ dict_keys ks → id ∈ dict_keys ks') → grows h h' → Forall (caller_ok ks h) l → Forall (caller_ok ks' h') l.
Proof. intros Hk Hg Hl. eapply Forall_impl; [exact Hl|]. intros c. by apply caller_ok_grows. Qed.

Lemma set_caller_ok i c s : system_ok s → caller_ok (checks s) (heap s) c → system_ok (set_caller i c s).
Proof. intros [H1 H2 H3 H4 H5] Hc. split; [done..|]. by apply Forall_insert. Qed.

Lemma register_ok id s s' : system_ok s → register id s = Ok s' → system_ok s'.
Proof.
  intros [H1 H2 H3 H4 H5]. unfold register. destruct (negb _); [done|]. destruct (dict_mem _ _) eqn:E; [done|]. intros [= <-].
  assert (∀ j, j ∈ dict_keys (checks s) → j ∈ dict_keys (dict_set (checks s) id tt)) as Hk.
  { intros j. rewrite <-!dict_mem_true. unfold dict_mem. rewrite dict_get_set. by destruct (decide _). }
  split; cbn [checks executions heap callers]; [by apply dict_wf_set|done|done| |].
  - intros x e He. by eapply Hk, H4.
  - eapply callers_grow; [exact Hk|apply heap_grows_refl|done].
Qed.

Lemma start_run_ok ok s s' : system_ok s → start_run ok s = Ok s' → system_ok s'.
Proof.
  intros [H1 H2 H3 H4 H5]. unfold start_run. destruct (negb ok); [done|]. intros [= <-].
  split; cbn [checks executions heap callers]; [done..|]. apply Forall_app; split; [exact H5|]. apply Forall_singleton. split; cbn.
  - apply Forall_forall. intros id. by rewrite elem_of_sort_by.
  - done.
  - constructor.
Qed.

(** A fresh execution of a registered check that has no live one. *)
Lemma fresh_ok id s : system_ok s → id ∈ dict_keys (checks s) →
  (∀ y, dict_get (executions s) id = Some y → live s y = false) →
  system_ok (System (checks s) (dict_set (executions s) id (length (heap s))) (heap s ++ [Execution id false None None]) (callers s)).
Proof.
  intros [H1 H2 H3 H4 H5] Hid Hdead. split; cbn [checks executions heap callers].
  - done.
  - intros j x. rewrite dict_get_set. destruct (decide (id = j)) as [<-|].
    + intros [= <-]. exists (Execution id false None None). split; [|done]. by apply list_lookup_middle.
    + intros (e & He & Hc)%H2. exists e. split; [by apply lookup_app_l_Some|done].
  - intros x e [Hx|[Hlen [Hz <-]%list_lookup_singleton_Some]]%lookup_app_Some Hd; rewrite dict_get_set.
    + destruct (decide (id = x_check e)) as [Heq|]; [|by apply H3]. exfalso. pose proof (H3 x e Hx Hd) as Hreg. rewrite <-Heq in Hreg.
      specialize (Hdead x Hreg). unfold live in Hdead. by rewrite Hx, Hd in Hdead.
    + cbn [x_check]. rewrite decide_True by done. f_equal. lia.
  - intros x e [Hx|[_ [_ <-]%list_lookup_singleton_Some]]%lookup_app_Some; [by eapply H4|done].
  - eapply callers_grow; [done|apply heap_grows_snoc|done].
Qed.

Lemma get_execution_ok id s x s' : system_ok s → id ∈ dict_keys (checks s) → get_execution id s = (x, s') →
  system_ok s' ∧ checks s' = checks s ∧ callers s' = callers s ∧ grows (heap s) (heap s') ∧
  ∃ e, heap s' !! x = Some e ∧ x_check e = id.
Proof.
  intros Hs Hid. pose proof (fresh_ok id s Hs Hid) as Hfresh. unfold get_execution.
  assert (∃ e, (heap s ++ [Execution id false None None]) !! length (heap s) = Some e ∧ x_check e = id) as Hlast.
  { eexists. split; [by apply list_lookup_middle|done]. }
  destruct (dict_get (executions s) id) as [y|] eqn:Ey.
  - destruct (live s y) eqn:El; intros [= <- <-].
    + split_and!; [done..|apply heap_grows_refl|]. by apply (sy_executions s Hs).
    + split_and!; [|done|done|apply heap_grows_snoc|exact Hlast]. apply Hfresh. by intros ? [= <-].
  - intros [= <- <-]. split_and!; [|done|done|apply heap_grows_snoc|exact Hlast]. by apply Hfresh.
Qed.

Lemma reported_verdict h id x e : h !! x = Some e → x_check e = id → x_done e = true →
  reported h (Diagnostic id (verdict e).1 (verdict e).2).
Proof.
  intros He Hc Hd. unfold reported, verdict. cbn [d_passed d_id d_code].
  destruct (x_error_type e) eqn:Ee; [done|]. destruct (x_result e) as [[p code]|] eqn:Er; [|done].
  destruct (fullmatch EVENT_NAME code) eqn:Ef; cbn [fst snd]; [|done]. intros ->. exists x, e. by split_and!.
Qed.

Lemma complete_ok x e outcome s : system_ok s → heap s !! x = Some e → x_done e = false →
  system_ok (System (checks s) (executions s) (<[x := invoke outcome e]> (heap s)) (callers s)).
Proof.
  intros [H1 H2 H3 H4 H5] He Hd.
  assert (x_check (invoke outcome e) = x_check e ∧ x_done (invoke outcome e) = true) as [Hc Hdone] by by destruct outcome.
  assert (grows (heap s) (<[x := invoke outcome e]> (heap s))) as Hg.
  { intros y f Hf. destruct (decide (x = y)) as [->|Hne].
    - exists (invoke outcome e). rewrite list_lookup_insert_eq by by eapply lookup_lt_Some. assert (f = e) as -> by congruence.
      split_and!; [done..|congruence].
    - exists f. by rewrite list_lookup_insert_ne. }
  split; cbn [checks executions heap callers]; [done| | | |].
  - intros id y (f & Hf & Hcf)%H2. destruct (Hg y f Hf) as (f' & Hf' & Hcf' & _). exists f'. split; [done|congruence].
  - intros y f Hf Hdf. destruct (decide (x = y)) as [->|Hne].
    + rewrite list_lookup_insert_eq in Hf by by eapply lookup_lt_Some. congruence.
    + rewrite list_lookup_insert_ne in Hf by done. by apply H3.
  - intros y f Hf. destruct (decide (x = y)) as [->|Hne].
    + rewrite list_lookup_insert_eq in Hf by by eapply lookup_lt_Some. injection Hf as <-. rewrite Hc. by eapply H4.
    + rewrite list_lookup_insert_ne in Hf by done. by eapply H4.
  - by eapply callers_grow.
Qed.

Lemma act_ok a s : system_ok s → system_ok (act a s).
Proof.
  intros Hs. pose proof (sy_callers s Hs) as Hcs. rewrite Forall_lookup in Hcs. destruct a as [id|ok|i|i|i|x outcome]; cbn [act].
  - destruct (register id s) eqn:E; [by eapply register_ok|done].
  - destruct (start_run ok s) eqn:E; [by eapply start_run_ok|done].
  - destruct (callers s !! i) as [[[|id todo] [w|] results]|] eqn:Ei; try done.
    destruct (Hcs i _ Ei) as [[Hid Htodo]%Forall_cons _ Hres]. destruct (get_execution id s) as [x s'] eqn:E.
    destruct (get_execution_ok _ _ _ _ Hs Hid E) as (Hs' & Hks & _ & Hg & Hx). apply set_caller_ok; [done|]. rewrite Hks.
    split; cbn; [done|by intros ?? [= <- <-]|]. eapply Forall_impl; [exact Hres|]. intros d. by apply reported_grows.
  - destruct (callers s !! i) as [[todo [[id x]|] results]|] eqn:Ei; try done.
    destruct (Hcs i _ Ei) as [Htodo Hwait Hres]. destruct (Hwait id x eq_refl) as (e & He & Hc). rewrite He.
    destruct (x_done e) eqn:Ed; [|done]. apply set_caller_ok; [done|]. split; cbn; [done|done|].
    apply Forall_app; split; [done|]. apply Forall_singleton. by eapply reported_verdict.
  - destruct (callers s !! i) as [[todo [[id x]|] results]|] eqn:Ei; try done.
    destruct (Hcs i _ Ei) as [Htodo Hwait Hres]. apply set_caller_ok; [done|]. split; cbn; [done|done|].
    apply Forall_app; split; [done|]. by apply Forall_singleton.
  - destruct (heap s !! x) as [e|] eqn:He; [|done]. destruct (x_done e) eqn:Ed; [done|]. by apply complete_ok.
Qed.

Lemma diagnostics_run_ok l : system_ok (run l).
Proof.
  unfold run. assert (∀ s, system_ok s → system_ok (foldl (λ s a, act a s) s l)) as H; [|apply H, empty_ok].
  induction l as [|a l IH]; intros s Hs; [done|]. by apply IH, act_ok.
Qed.

(** The checks that a worker runs at the moment. *)
Definition running (s : system) : list string := x_check <$> List.filter (λ e, negb (x_done e)) (heap s).

Lemma running_NoDup s : system_ok s → NoDup (running s).
Proof.
  intros [_ _ H3 _ _]. unfold running. revert H3. generalize (executions s) as ex. intros ex.
  assert (∀ h n, (∀ x e, h !! x = Some e → x_done e = false → dict_get ex (x_check e) = Some (n + x)) →
    NoDup (x_check <$> List.filter (λ e, negb (x_done e)) h)) as H.
  { intros h. induction h as [|e h IH]; intros n Hh; [constructor|]. simpl.
    assert (NoDup (x_check <$> List.filter (λ e, negb (x_done e)) h)) as Hn.
    { apply (IH (S n)). intros x f Hf Hd. rewrite (Hh (S x) f Hf Hd). f_equal. lia. }
    destruct (x_done e) eqn:Ed; cbn [negb]; [done|]. csimpl. apply NoDup_cons. split; [|done].
    intros (f & Hc & Hf)%list_elem_of_fmap. apply list_elem_of_In, filter_In in Hf as [Hf Hd].
    apply list_elem_of_In, list_elem_of_lookup in Hf as [x Hx]. apply negb_true_iff in Hd.
    pose proof (Hh 0 e eq_refl Ed) as H0. pose proof (Hh (S x) f Hx Hd) as H1. rewrite Hc, H1 in H0. injection H0. lia. }
  intros H3. apply (H _ 0). exact H3.
Qed.

(** C40: However the calls, the time-outs and the checks interleave, a check that
    never returns costs one worker: at any moment the workers run distinct checks, all
    registered, so there are at most as many as registered checks; and
    a diagnostic reports that a check passed only if an execution of that very check
    ended, without an exception, with that verdict and a valid code. *)
Theorem diagnostics_bounded l :
  let s := run l in
  NoDup (running s) ∧ Forall (λ id, id ∈ dict_keys (checks s)) (running s) ∧
  length (running s) ≤ length (checks s) ∧
  ∀ c d, c ∈ callers s → d ∈ cl_results c → reported (heap s) d.
Proof.
  intros s. pose proof (diagnostics_run_ok l) as Hs. fold s in Hs. pose proof (running_NoDup s Hs) as Hn.
  assert (Forall (λ id, id ∈ dict_keys (checks s)) (running s)) as Hall.
  { apply Forall_forall. intros id (e & -> & He)%list_elem_of_fmap. apply list_elem_of_In, filter_In in He as [He _].
    apply list_elem_of_In, list_elem_of_lookup in He as [x Hx]. by eapply sy_registered. }
  split_and!; [done..| |].
  - rewrite <-(length_fmap fst (checks s)). apply submseteq_length, NoDup_submseteq; [done|].
    intros id Hid. rewrite Forall_forall in Hall. by apply Hall.
  - intros c d Hc Hd. pose proof (sy_callers s Hs) as Hcs. rewrite Forall_forall in Hcs. destruct (Hcs c Hc) as [_ _ Hres].
    rewrite Forall_forall in Hres. by apply Hres.
Qed.

(** Two callers of a stuck check share its worker. *)
Example demo_stuck :
  let s := run [Register "db.ping"; StartRun true; StartRun true; NextCheck 0; Timeout 0; NextCheck 1;
                Complete 0 (inl (true, "db.ok")); Observe 1] in
  cl_results <$> callers s = [[Diagnostic "db.ping" false "diagnostic.timeout"]; [Diagnostic "db.ping" true "db.ok"]] ∧
  length (heap s) = 1.
Proof. split; vm_compute; reflexivity. Qed.
End DiagnosticLaws.
