(* ===== verification/Maintenance.v ===== *)
(** * The maintenance fence (operational_safety.py: [MaintenanceController])

    One authenticated document, shared by every writer of an installation: a
    generation, and the maintenance operation that is active.  The document is
    the state ([None]: no file), with the world [W] of the event sink and of
    the invariants that [exit] validates; [enter] and [exit] hold the file
    lock throughout and are steps.  Parameters: [hmac_hex], [canonical] (the ASCII
    [json.dumps] of a payload), [str] of a value that is not a string, the reading
    of the clock as text and the callbacks.  Values of a type that [_publish]
    never writes need the integrity key; they are refused here. *)

From Stdlib Require Import Ascii ZArith Lia.
From stdpp Require Import base decidable numbers list strings sets.
From S2P Require Import Prelude PyData Regex JsonGraph HashChain.

Module Maintenance.
Import JsonGraph HashChain.

Definition IDENTIFIER : re := Seq (Chr is_alnum) (Rep 7 127 (Chr (λ c, is_alnum c || one_of "._:-" c))).
Definition ACTOR : re := Seq (Chr is_alnum) (Rep 2 127 (Chr (λ c, is_alnum c || one_of "._:@-" c))).
Definition REASON : re := Seq (Chr is_lower) (Rep 2 63 (Chr (λ c, is_lower c || is_digit c || one_of "._-" c))).

(** ** Data *)

Record MaintenanceState : Type := State {
  generation : Z;
  active : bool;
  operation_id : option string;
  actor_id : option string;
  reason : option string;
  changed_at : string;
  key_id : string;
}.

Definition store : Type := option json.

Definition opt_str (o : option string) : json := match o with Some s => JStr s | None => JNull end.

(** The payload [_publish] builds. *)
Definition payload_of (s : MaintenanceState) : list (string * json) :=
  [("generation", JInt (generation s)); ("active", JBool (active s)); ("operation_id", opt_str (operation_id s));
   ("actor_id", opt_str (actor_id s)); ("reason", opt_str (reason s)); ("changed_at", JStr (changed_at s));
   ("key_id", JStr (key_id s))].

Definition STATE_KEYS : list string := (payload_of (State 0 false None None None "" "")).*1.

(** [set(d) == set(names)] of a mapping. *)
Definition has_keys (names : list string) (d : list (string * json)) : bool :=
  forallb (dict_mem d) names && forallb (λ kv, bool_decide (kv.1 ∈ names)) d.

(** The fields of the state that the members of a payload give. *)
Definition opt_text (o : option json) : option (option string) :=
  match o with Some (JStr s) => Some (Some s) | Some JNull => Some None | _ => None end.

Definition state_of (payload : list (string * json)) : result MaintenanceState :=
  match dict_get payload "generation", dict_get payload "active", opt_text (dict_get payload "operation_id"),
        opt_text (dict_get payload "actor_id"), opt_text (dict_get payload "reason"),
        dict_get payload "changed_at", dict_get payload "key_id" with
  | Some (JInt g), Some (JBool a), Some o, Some i, Some r, Some (JStr t), Some (JStr k) => Ok (State g a o i r t k)
  | _, _, _, _, _, _, _ => fail TypeErr "value of an unexpected type"
  end.

Definition unsafe {A} (msg : string) : result A := fail OperationalSafetyError msg.
Definition unsafe_if (b : bool) (msg : string) : result unit := fail_if b OperationalSafetyError msg.

(** ** Arguments *)

Definition validate (operation_id actor_id reason : string) : result unit :=
  _ ← fail_if (negb (fullmatch IDENTIFIER operation_id)) ValueErr "invalid maintenance operation identity";
  _ ← fail_if (negb (fullmatch ACTOR actor_id)) ValueErr "invalid maintenance actor identity";
  fail_if (negb (fullmatch REASON reason)) ValueErr "invalid maintenance reason".

(** [__init__]. *)
Definition new_controller (integrity_key key_id : string) : result unit :=
  _ ← fail_if (utf8_len integrity_key <? 32)%nat ValueErr "maintenance integrity key is too short";
  fail_if (negb (fullmatch REASON key_id)) ValueErr "invalid maintenance integrity key identity".

Section controller.
Context {W : Type} (hmac_hex : string → string → string) (canonical : json → string) (py_str : json → string)
  (integrity_key own_key_id : string) (event_sink : string → json → M W unit).

Definition signature (payload : list (string * json)) : string := hmac_hex integrity_key (canonical (JObj payload)).

Definition genesis : MaintenanceState := State 0 false None None None "" own_key_id.

(** [str(value)]. *)
Definition str_of (j : json) : string := match j with JStr s => s | _ => py_str j end.

(** [bool(operation_id)]. *)
Definition truthy (o : option string) : bool := match o with Some s => negb (String.eqb s "") | None => false end.

(** [state]. *)
Definition read_state (c : store) : result MaintenanceState :=
  match c with
  | None => Ok genesis
  | Some (JObj envelope) =>
      _ ← unsafe_if (negb (has_keys ["state"; "hmac_sha256"] envelope)) "maintenance state envelope is invalid";
      match dict_get envelope "state" with
      | Some (JObj payload) =>
          same ← compare_digest (str_of (or_default (dict_get envelope "hmac_sha256") JNull)) (signature payload);
          _ ← unsafe_if (negb same) "maintenance state authentication failed";
          _ ← unsafe_if (negb (has_keys STATE_KEYS payload)) "maintenance state schema is invalid";
          state ← state_of payload;
          _ ← unsafe_if ((generation state <? 1)%Z || negb (String.eqb (key_id state) own_key_id))
                "maintenance state key generation is invalid";
          _ ← unsafe_if (negb (Bool.eqb (active state) (truthy (operation_id state))))
                "maintenance state activity binding is invalid";
          Ok state
      | _ => unsafe "maintenance state is invalid"
      end
  | Some _ => unsafe "maintenance state envelope is invalid"
  end.

(** The document [_publish] writes. *)
Definition envelope_of (s : MaintenanceState) : json :=
  JObj [("state", JObj (payload_of s)); ("hmac_sha256", JStr (signature (payload_of s)))].

Definition metadata (s : MaintenanceState) : list (string * json) :=
  [("generation", JInt (generation s)); ("operation_id", opt_str (operation_id s)); ("actor_id", opt_str (actor_id s));
   ("reason", opt_str (reason s)); ("key_id", JStr (key_id s))].

(** ** Operations *)

Definition world : Type := store * W.

Definition get_store : M world store := gets fst.
Definition state : M world MaintenanceState := c ← get_store; lift (read_state c).
Definition publish (s : MaintenanceState) : M world MaintenanceState :=
  _ ← modify_st (λ w, (Some (envelope_of s), w.2)); mret s.
Definition on_world {A} (m : M W A) : M world A := λ w, let '(r, x) := m w.2 in (r, (w.1, x)).

Definition enter (now op actor why : string) (expected_generation : Z) : M world MaintenanceState :=
  _ ← lift (validate op actor why);
  current ← state;
  if active current then
    if bool_decide (operation_id current = Some op ∧ actor_id current = Some actor ∧ reason current = Some why)
    then mret current
    else raise MaintenanceActive "another maintenance operation is active"
  else
    _ ← raise_if (negb (generation current =? expected_generation)%Z) StaleMaintenanceGeneration
          "maintenance generation changed";
    changed ← publish (State (generation current + 1) true (Some op) (Some actor) (Some why) now own_key_id);
    _ ← on_world (event_sink "maintenance.entered" (JObj (metadata changed)));
    mret changed.

Definition exit_maintenance (now op actor : string) (expected_generation : Z) (validate_invariants : M W unit) :
    M world MaintenanceState :=
  _ ← lift (validate op actor "resume");
  current ← state;
  if negb (active current) then
    if bool_decide (operation_id current = None) && (generation current =? expected_generation)%Z then mret current
    else raise StaleMaintenanceGeneration "maintenance generation changed"
  else
    _ ← raise_if (negb (generation current =? expected_generation)%Z) StaleMaintenanceGeneration
          "maintenance generation changed";
    _ ← on_world validate_invariants;
    changed ← publish (State (generation current + 1) false None None None now own_key_id);
    _ ← on_world (event_sink "maintenance.exited"
          (JObj (metadata changed ++ [("resume_operation_id", JStr op); ("resume_actor_id", JStr actor)])));
    mret changed.

Definition require_writable (observed_generation : option Z) : M world Z :=
  current ← state;
  _ ← raise_if (active current) MaintenanceActive "privileged writes are frozen";
  _ ← raise_if (match observed_generation with Some g => negb (g =? generation current)%Z | None => false end)
        StaleMaintenanceGeneration "writer maintenance fence is stale";
  mret (generation current).
End controller.
End Maintenance.

(** ** Laws *)

Module MaintenanceLaws.
Import JsonGraph HashChain Maintenance.

Section laws.
Context {W : Type} (hmac_hex : string → string → string) (canonical : json → string) (py_str : json → string)
  (integrity_key own_key_id : string) (event_sink : string → json → M W unit).
Hypothesis hmac_ascii : ∀ k p, any_char non_ascii (hmac_hex k p) = false.

Abbreviation readM := (read_state hmac_hex canonical py_str integrity_key own_key_id).
Abbreviation docM := (envelope_of hmac_hex canonical integrity_key).
Abbreviation enterM := (@enter W hmac_hex canonical py_str integrity_key own_key_id event_sink).
Abbreviation exitM := (@exit_maintenance W hmac_hex canonical py_str integrity_key own_key_id event_sink).
Abbreviation writableM := (@require_writable W hmac_hex canonical py_str integrity_key own_key_id).

Lemma state_of_payload s : state_of (payload_of s) = Ok s.
Proof. by destruct s as [g a [o|] [i|] [r|] t k]. Qed.

(** What [_publish] writes is read back. *)
Lemma published_reads s :
  (1 ≤ generation s)%Z → key_id s = own_key_id → active s = truthy (operation_id s) → readM (Some (docM s)) = Ok s.
Proof.
  intros Hg Hk Ha. unfold read_state, envelope_of.
  change (has_keys ["state"; "hmac_sha256"] _) with true. cbn [negb unsafe_if fail_if mbind result_bind].
  change (dict_get _ "state") with (Some (JObj (payload_of s))). cbn [or_default].
  change (dict_get _ "hmac_sha256") with (Some (JStr (signature hmac_hex canonical integrity_key (payload_of s)))). cbn [or_default str_of].
  unfold compare_digest, signature. rewrite hmac_ascii. cbn [orb]. rewrite bool_decide_eq_true_2 by done.
  cbn [mbind result_bind negb unsafe_if fail_if]. change (has_keys STATE_KEYS (payload_of s)) with true.
  cbn [negb unsafe_if fail_if mbind result_bind]. rewrite state_of_payload. cbn [mbind result_bind].
  rewrite (proj2 (Z.ltb_ge _ _)), Hk, String.eqb_refl, Ha, eqb_reflx by lia. done.
Qed.

Lemma read_facts c s : readM c = Ok s → (0 ≤ generation s)%Z ∧ active s = truthy (operation_id s) ∧ key_id s = own_key_id.
Proof.
  destruct c as [[| | | | | |e]|]; cbn [read_state]; try discriminate.
  - destruct (unsafe_if _ _); [|done]. cbn [mbind result_bind]. destruct (dict_get e "state") as [[| | | | | |p]|]; try done.
    intros H. inv_ok H. injection H as <-. repeat match goal with H : unsafe_if _ _ = Ok _ |- _ => apply fail_if_ok in H end.
    bool_to_prop. split_and!; [lia|by apply eqb_prop|by apply String.eqb_eq].
  - intros [= <-]. by split_and!.
Qed.

(** A step of a store that can be read: nothing is written, or the next generation. *)
Definition next_state (s s' : MaintenanceState) : Prop :=
  generation s' = (generation s + 1)%Z ∧ active s' = negb (active s).

Definition advances (s : MaintenanceState) (c c' : store) : Prop :=
  c' = c ∨ ∃ s', readM c' = Ok s' ∧ next_state s s'.

Lemma on_world_store {A} (m : M W A) w : (on_world m w).2.1 = w.1.
Proof. unfold on_world. by destruct (m w.2). Qed.

Lemma publish_then_sink s s' w name body r w' :
  (1 ≤ generation s')%Z → key_id s' = own_key_id → active s' = truthy (operation_id s') → next_state s s' →
  (publish hmac_hex canonical integrity_key s' ≫= λ changed, on_world (event_sink name body) ≫= λ _, mret changed) w = (r, w') →
  advances s w.1 w'.1.
Proof.
  intros H1 H2 H3 Hn. rewrite run_bind.
  change (publish hmac_hex canonical integrity_key s' w) with (Ok (A := MaintenanceState) s', (Some (docM s'), w.2)). cbn [fst snd].
  rewrite run_bind. pose proof (on_world_store (event_sink name body) (Some (docM s'), w.2)) as Hs. cbn [fst] in Hs.
  destruct (on_world (event_sink name body) _) as [[u|e] w1]; intros [= <- <-]; cbn [snd] in Hs; right; exists s'; rewrite Hs;
    (split; [by apply published_reads|done]).
Qed.

Lemma read_now w s : readM w.1 = Ok s → state (W := W) hmac_hex canonical py_str integrity_key own_key_id w = (Ok s, w).
Proof. intros Hs. unfold state. rewrite run_bind. cbn [get_store gets fst]. unfold lift. by rewrite Hs. Qed.

Lemma enter_step now o i why g w s r w' :
  readM w.1 = Ok s → enterM now o i why g w = (r, w') → advances s w.1 w'.1.
Proof.
  intros Hs. destruct (read_facts _ _ Hs) as (Hg & _ & _). unfold enter. rewrite run_bind_lift.
  destruct (validate o i why) eqn:Ev; [|intros [= <- <-]; by left]. rewrite run_bind, (read_now _ _ Hs).
  destruct (active s) eqn:Ea; [destruct (bool_decide _); intros [= <- <-]; by left|].
  unfold raise_if. rewrite run_bind_lift. destruct (fail_if _ _ _); [|intros [= <- <-]; by left].
  apply publish_then_sink; cbn [generation key_id active operation_id truthy]; [lia|done| |].
  - unfold validate in Ev. inv_ok Ev. bool_to_prop. destruct o; [|done]. vm_compute in Hok. discriminate.
  - split; cbn; [done|by rewrite Ea].
Qed.

Lemma exit_step now o i g inv w s r w' :
  readM w.1 = Ok s → exitM now o i g inv w = (r, w') → advances s w.1 w'.1.
Proof.
  intros Hs. destruct (read_facts _ _ Hs) as (Hg & _ & _). unfold exit_maintenance. rewrite run_bind_lift.
  destruct (validate o i "resume") eqn:Ev; [|intros [= <- <-]; by left]. rewrite run_bind, (read_now _ _ Hs).
  destruct (active s) eqn:Ea; cbn [negb]; [|destruct (_ && _); intros [= <- <-]; by left].
  unfold raise_if. rewrite run_bind_lift. destruct (fail_if _ _ _); [|intros [= <- <-]; by left].
  rewrite run_bind. pose proof (on_world_store inv w) as Hw. destruct (on_world inv w) as [[u|e] w1]; cbn [snd] in Hw.
  - rewrite <-Hw. apply publish_then_sink; cbn [generation key_id active operation_id truthy]; [lia|done|done|].
    split; cbn; [done|by rewrite Ea].
  - intros [= <- <-]. left. exact Hw.
Qed.

(** ** Runs *)

(** The calls of any processes, one after another under the file lock. *)
Inductive op : Type :=
  | Enter (now op actor why : string) (expected_generation : Z)
  | Exit (now op actor : string) (expected_generation : Z) (validate_invariants : M W unit)
  | Writable (observed_generation : option Z).

Definition perform (o : op) (w : store * W) : store * W :=
  match o with
  | Enter now o i why g => (enterM now o i why g w).2
  | Exit now o i g inv => (exitM now o i g inv w).2
  | Writable g => (writableM g w).2
  end.

Definition run (ops : list op) (w : store * W) : store * W := foldl (λ w o, perform o w) w ops.

Lemma writable_keeps g w : (writableM g w).2 = w.
Proof.
  unfold require_writable, state. rewrite run_bind, run_bind. cbn [get_store gets]. unfold lift.
  destruct (readM w.1) as [s|]; [|done]. unfold raise_if. rewrite run_bind_lift. destruct (fail_if _ _ _); [|done].
  rewrite run_bind_lift. by destruct (fail_if _ _ _).
Qed.

Lemma perform_advances o w s : readM w.1 = Ok s → advances s w.1 (perform o w).1.
Proof.
  intros Hs. destruct o as [now o i why g|now o i g inv|g]; cbn [perform].
  - destruct (enterM now o i why g w) as [r w'] eqn:E. by eapply enter_step.
  - destruct (exitM now o i g inv w) as [r w'] eqn:E. by eapply exit_step.
  - rewrite writable_keeps. by left.
Qed.

(** Later stores: each change is one generation and one change of activity. *)
Definition later (s : MaintenanceState) (c c' : store) : Prop :=
  ∃ s', readM c' = Ok s' ∧ (generation s ≤ generation s')%Z ∧ (generation s' = generation s → c' = c ∧ s' = s) ∧
    active s' = xorb (active s) (Z.odd (generation s' - generation s)).

Lemma later_refl c s : readM c = Ok s → later s c c.
Proof. intros Hs. exists s. split_and!; [done..|]. rewrite Z.sub_diag. by rewrite xorb_false_r. Qed.

Lemma run_later ops w s : readM w.1 = Ok s → later s w.1 (run ops w).1.
Proof.
  revert w s. unfold run. induction ops as [|o ops IH]; intros w s Hs; [by apply later_refl|]. cbn [foldl].
  destruct (perform_advances o w s Hs) as [E|(s1 & Hs1 & Hg & Ha)].
  - rewrite <-E. apply IH. by rewrite E.
  - destruct (IH (perform o w) s1 Hs1) as (s' & Hs' & Hle & _ & Hact). exists s'. split_and!; [done|lia|lia|].
    rewrite Hact, Ha. replace (generation s' - generation s)%Z with (Z.succ (generation s' - generation s1)) by lia.
    rewrite Z.odd_succ, <-Z.negb_odd. by destruct (active s), (Z.odd _).
Qed.

Lemma writable_ok g w v w' :
  writableM g w = (Ok v, w') → ∃ s, readM w.1 = Ok s ∧ active s = false ∧ v = generation s ∧ ∀ x, g = Some x → x = v.
Proof.
  unfold require_writable, state. rewrite run_bind, run_bind. cbn [get_store gets]. unfold lift.
  destruct (readM w.1) as [s|]; [|done]. unfold raise_if. rewrite run_bind_lift. destruct (fail_if (active s) _ _) eqn:E1; [|done].
  apply fail_if_ok in E1. rewrite run_bind_lift. destruct (fail_if _ _ _) eqn:E2; [|done]. apply fail_if_ok in E2. intros [= <- <-].
  exists s. split_and!; [done..|]. intros x ->. apply negb_false_iff, Z.eqb_eq in E2. done.
Qed.

Lemma enter_active now o i why g w s :
  readM w.1 = Ok s → active s = true →
  enterM now o i why g w = (Ok s, w) ∧ operation_id s = Some o ∨ ∃ e, enterM now o i why g w = (Err e, w).
Proof.
  intros Hs Ha. unfold enter. rewrite run_bind_lift. destruct (validate o i why); [|right; by eexists].
  rewrite run_bind, (read_now _ _ Hs), Ha. destruct (bool_decide _) eqn:E; [left|right; by eexists].
  apply bool_decide_eq_true in E as (E & _). done.
Qed.

(** C10: The generation is a fence.  From any store that authenticates, after any
    calls of [enter], [exit] and [require_writable] by any processes, whatever the
    event sink and the invariants do or raise, the store authenticates again, its
    generation has only grown, by one with each beginning or end of a maintenance, and is the
    same only if nothing was written at all.  So a writer that observed a
    generation passes [require_writable] later only if no maintenance is active and none began or ended
    since; and while one is active, every writer is refused and
    [enter] only answers its own operation again, and writes nothing. *)
Theorem maintenance_fence ops w s :
  readM w.1 = Ok s →
  let w' := run ops w in
  later s w.1 w'.1 ∧
  (∀ g w'', writableM (Some (generation s)) w' = (Ok g, w'') → w'.1 = w.1 ∧ active s = false ∧ w'' = w') ∧
  (∀ s', readM w'.1 = Ok s' → active s' = true →
     (∀ g, ∃ e, writableM g w' = (Err e, w')) ∧
     ∀ now o i why g, (enterM now o i why g w' = (Ok s', w') ∧ operation_id s' = Some o) ∨
       ∃ e, enterM now o i why g w' = (Err e, w')).
Proof.
  intros Hs w'. pose proof (run_later ops w s Hs) as Hl. split; [exact Hl|]. split.
  - intros g w'' E. destruct Hl as (s' & Hs' & _ & Hsame & _). fold w' in Hs'.
    pose proof (writable_keeps (Some (generation s)) w') as Hk. rewrite E in Hk. cbn [snd] in Hk.
    apply writable_ok in E as (s1 & Hs1 & Ha & -> & Hg). assert (s1 = s') as -> by congruence.
    destruct (Hsame (eq_sym (Hg _ eq_refl))) as [Hc ->]. done.
  - intros s' Hs' Ha. split.
    + intros g. pose proof (writable_keeps g w') as Hk. destruct (writableM g w') as [[v|e] w''] eqn:E; cbn [snd] in Hk; subst w''.
      * apply writable_ok in E as (s1 & Hs1 & Ha1 & _). congruence.
      * by exists e.
    + intros now o i why g. destruct (enter_active now o i why g w' s' Hs' Ha) as [?|?]; [by left|by right].
Qed.
End laws.

(** ** Witness *)

Definition demo_enter : op (W := unit) := Enter "t" "upgrade-0001" "admin" "upgrade" 0.
Definition demo_exit : op (W := unit) := Exit "u" "upgrade-0001" "admin" 1 (mret tt).
Definition demo_run : list op → store * unit → store * unit :=
  run demo_mac json_dumps (λ _, "") "key" "primary" (λ _ _, raise OSErr "sink").

(** The sink fails each time; the changes are made all the same. *)
Example demo_generation :
  generation <$> (match read_state demo_mac json_dumps (λ _, "") "key" "primary" (demo_run [demo_enter; demo_exit] (None, tt)).1 with
                  | Ok s => Some s | Err _ => None end) = Some 2%Z.
Proof. vm_compute. reflexivity. Qed.

Lemma maintenance_fence_witness :
  ∃ w', demo_run [demo_enter; demo_exit] (None, tt) = w' ∧
    ∀ g w'', require_writable demo_mac json_dumps (λ _, "") "key" "primary" (Some 0%Z) w' = (Ok g, w'') → w'.1 = None.
Proof.
  eexists. split; [reflexivity|].
  destruct (maintenance_fence demo_mac json_dumps (λ _, "") "key" "primary" (λ _ _, raise OSErr "sink") demo_mac_ascii
    [demo_enter; demo_exit] (None, tt) (genesis "primary") eq_refl) as (_ & H & _).
  intros g w'' E. apply (H g w'' E).
Defined.
End MaintenanceLaws.
