(* ===== verification/Shutdown.v ===== *)
(** * The shutdown barrier (operational_safety.py: [ShutdownBarrier])

    Threads share a counter of durable work and the flag that closes the
    barrier, under one condition.  A step is a section under the condition, up
    to its end or to the [wait] that releases it.  A waiting shutdown goes on
    when it is notified or when its time is up ([Recheck], with the answer of
    [deadline - monotonic() <= 0]). *)

From Stdlib Require Import ZArith Lia.
From stdpp Require Import base decidable numbers strings functions list sets.
From S2P Require Import Prelude.

Module Shutdown.

(** A thread: outside, in the body of [durable_work], waiting in
    [begin_shutdown], or out of it with an answer. *)
Inductive pc : Type := Outside | Working | Waiting (notified : bool) | Answered (drained : bool).

Record barrier : Type := Barrier { closing : bool; active : Z; threads : nat → pc }.

Definition new_barrier : barrier := Barrier false 0 (λ _, Outside).

Definition with_pc (t : nat) (p : pc) (b : barrier) : barrier := Barrier (closing b) (active b) (<[t := p]> (threads b)).

(** [durable_work] up to its [yield]. *)
Definition begin_work (t : nat) (b : barrier) : result barrier :=
  if closing b then fail OperationalSafetyError "shutdown barrier is closed"
  else Ok (with_pc t Working (Barrier (closing b) (active b + 1) (threads b))).

Definition notify (p : pc) : pc := match p with Waiting _ => Waiting true | _ => p end.

(** Its [finally]. *)
Definition end_work (t : nat) (b : barrier) : barrier :=
  Barrier (closing b) (active b - 1) (λ u, notify ((<[t := Outside]> (threads b) : nat → pc) u)).

(** The loop of [begin_shutdown], with the time that is left when it looks. *)
Definition drain_loop (t : nat) (time_up : bool) (b : barrier) : barrier :=
  if (active b =? 0)%Z then with_pc t (Answered true) b
  else if time_up then with_pc t (Answered false) b
  else with_pc t (Waiting false) b.

Definition begin_shutdown (t : nat) (timeout_ok time_up : bool) (b : barrier) : result barrier :=
  if negb timeout_ok then fail ValueErr "shutdown timeout is outside the supported bound"
  else Ok (drain_loop t time_up (Barrier true (active b) (threads b))).

Inductive action : Type := BeginWork | EndWork | BeginShutdown (timeout_ok time_up : bool) | Recheck (time_up : bool).

(** A thread that has answered may begin again; a refused call changes nothing. *)
Definition act (a : action) (t : nat) (b : barrier) : option barrier :=
  match a, threads b t with
  | BeginWork, (Outside | Answered _) => Some (match begin_work t b with Ok b' => b' | Err _ => b end)
  | EndWork, Working => Some (end_work t b)
  | BeginShutdown ok up, (Outside | Answered _) => Some (match begin_shutdown t ok up b with Ok b' => b' | Err _ => b end)
  | Recheck up, Waiting notified => if notified || up then Some (drain_loop t up b) else None
  | _, _ => None
  end.

Fixpoint run (l : list (action * nat)) (b : barrier) : option barrier :=
  match l with
  | [] => Some b
  | (a, t) :: l => match act a t b with Some b => run l b | None => None end
  end.
End Shutdown.

(** ** Laws *)

Module ShutdownLaws.
Import Shutdown.

(** [ts] are the threads in durable work; nobody sleeps in a drained barrier,
    nor answers that it is drained while there is work. *)
Record barrier_ok (ts : list nat) (b : barrier) : Prop := {
  bo_nodup : NoDup ts;
  bo_working : ∀ t, threads b t = Working ↔ t ∈ ts;
  bo_count : active b = Z.of_nat (length ts);
  bo_sleep : ∀ t, threads b t = Waiting false → closing b = true ∧ ts ≠ [];
  bo_wait : ∀ t, threads b t = Waiting true → closing b = true;
  bo_drained : ∀ t, threads b t = Answered true → closing b = true ∧ ts = [];
}.

Lemma with_pc_same t p b : threads (with_pc t p b) t = p.
Proof. apply fn_lookup_insert. Qed.

Lemma with_pc_other t u p b : u ≠ t → threads (with_pc t p b) u = threads b u.
Proof. intros Hne. apply fn_lookup_insert_ne. done. Qed.

(** A thread that is not working goes to a place that is not work. *)
Lemma with_pc_ok ts t p b : barrier_ok ts b → threads b t ≠ Working →
  match p with
  | Working => False
  | Waiting false => closing b = true ∧ ts ≠ []
  | Waiting true => closing b = true
  | Answered true => closing b = true ∧ ts = []
  | _ => True
  end → barrier_ok ts (with_pc t p b).
Proof.
  intros [H1 H2 H3 H4 H5 H6] Ht Hp. split; [done| |done|..]; intros u; destruct (decide (u = t)) as [->|Hne];
    rewrite ?with_pc_same, ?with_pc_other by done; [|apply H2|intros ->; apply Hp|apply H4|intros ->; apply Hp|apply H5|intros ->; apply Hp|apply H6].
  split; [by intros ->|]. by intros ?%H2.
Qed.

Lemma drain_loop_ok ts t up b : barrier_ok ts b → threads b t ≠ Working → closing b = true → barrier_ok ts (drain_loop t up b).
Proof.
  intros Hb Ht Hc. unfold drain_loop. rewrite (bo_count _ _ Hb). destruct (_ =? 0)%Z eqn:E.
  - apply with_pc_ok; [done..|]. split; [done|]. apply Z.eqb_eq in E. destruct ts; [done|simpl in E; lia].
  - destruct up; apply with_pc_ok; try done. split; [done|]. intros ->. done.
Qed.

Lemma closing_ok ts b : barrier_ok ts b → barrier_ok ts (Barrier true (active b) (threads b)).
Proof. intros [H1 H2 H3 H4 H5 H6]. split; try done; intros t Ht; [split; [done|by apply H4 in Ht as []]|by apply H6 in Ht as []]. Qed.

(** Durable work goes on, ends or begins; it does not begin in a closed barrier. *)
Definition durable_step (b : barrier) (ts ts' : list nat) : Prop := ∀ t, t ∈ ts' → t ∈ ts ∨ closing b = false.

Lemma notify_not_working p : notify p = Working ↔ p = Working.
Proof. by destruct p. Qed.

Lemma end_work_ok ts t b : barrier_ok ts b → threads b t = Working →
  ∃ ts', barrier_ok ts' (end_work t b) ∧ durable_step b ts ts' ∧ (closing b = true → closing (end_work t b) = true).
Proof.
  intros [H1 H2 H3 H4 H5 H6] Ht. apply H2, elem_of_Permutation in Ht as [ts' Hp]. exists ts'.
  rewrite Hp in H1. apply NoDup_cons in H1 as [Hnt H1]. split_and!; [|intros u Hu; left; rewrite Hp; by right|done].
  assert (∀ u, u ≠ t → threads (end_work t b) u = notify (threads b u)) as Hother.
  { intros u Hne. cbn. by rewrite fn_lookup_insert_ne. }
  assert (threads (end_work t b) t = Outside) as Hself by (cbn; by rewrite fn_lookup_insert).
  split; [done| |cbn; rewrite H3, Hp; simpl; lia|..]; intros u; destruct (decide (u = t)) as [->|Hne];
    rewrite ?Hself, ?Hother by done; try done.
  - rewrite notify_not_working, H2, Hp, elem_of_cons. naive_solver.
  - by destruct (threads b u).
  - cbn [closing end_work]. destruct (threads b u) as [| |[]|] eqn:E; try done; intros _; [by apply (H5 u)|by apply (H4 u) in E as []].
  - cbn [closing end_work]. destruct (threads b u) as [| |[]|[]] eqn:E; try done. intros _.
    apply H6 in E as [? ->]. by apply Permutation_nil_cons in Hp.
Qed.

Lemma barrier_act_ok a t b b' ts : barrier_ok ts b → act a t b = Some b' →
  ∃ ts', barrier_ok ts' b' ∧ durable_step b ts ts' ∧ (closing b = true → closing b' = true).
Proof.
  intros Hb. pose proof Hb as [H1 H2 H3 H4 H5 H6]. unfold act.
  assert (∀ b0, barrier_ok ts b0 → (closing b = true → closing b0 = true) →
    ∃ ts', barrier_ok ts' b0 ∧ durable_step b ts ts' ∧ (closing b = true → closing b0 = true)) as Hsame.
  { intros b0 Hb0 Hc. exists ts. split_and!; [done|intros u; by left|done]. }
  assert (threads b t = Outside ∨ (∃ d, threads b t = Answered d) → ∀ x,
    Some (match begin_work t b with Ok b' => b' | Err _ => b end) = Some x →
    ∃ ts', barrier_ok ts' x ∧ durable_step b ts ts' ∧ (closing b = true → closing x = true)) as Hbegin.
  { intros Hpc x. unfold begin_work. destruct (closing b) eqn:Ec; intros [= <-]; [by apply Hsame|].
    assert (t ∉ ts) as Hnt. { intros Hin%H2. destruct Hpc as [Hpc|[d Hpc]]; congruence. }
    exists (t :: ts). split_and!; [|intros u _; by right|done].
    split; [by constructor| |cbn [active with_pc length]; rewrite H3; lia|..]; intros u.
    all: destruct (decide (u = t)) as [->|Hne]; rewrite ?with_pc_same, ?with_pc_other by done; try done.
    - split; [by left|done].
    - cbn [threads]. rewrite H2, elem_of_cons. naive_solver.
    - cbn [threads closing with_pc]. intros Hu. by apply H4 in Hu as [Hu _]; congruence.
    - cbn [threads closing with_pc]. intros Hu. apply H5 in Hu. congruence.
    - cbn [threads closing with_pc]. intros Hu. apply H6 in Hu as [Hu _]. congruence. }
  assert (threads b t = Outside ∨ (∃ d, threads b t = Answered d) → ∀ ok up x,
    Some (match begin_shutdown t ok up b with Ok b' => b' | Err _ => b end) = Some x →
    ∃ ts', barrier_ok ts' x ∧ durable_step b ts ts' ∧ (closing b = true → closing x = true)) as Hshut.
  { intros Hpc ok up x. unfold begin_shutdown. destruct (negb ok); intros [= <-]; [by apply Hsame|]. apply Hsame.
    - apply drain_loop_ok; [by apply closing_ok| |done]. cbn. destruct Hpc as [->|[d ->]]; done.
    - intros _. unfold drain_loop. cbn [active]. destruct (_ =? _)%Z, up; done. }
  destruct a as [| |ok up|up], (threads b t) as [| |n|d] eqn:Ep; try discriminate.
  - apply Hbegin. by left.
  - apply Hbegin. right. by exists d.
  - intros [= <-]. apply end_work_ok; [done|congruence].
  - apply Hshut. by left.
  - apply Hshut. right. by exists d.
  - destruct (n || up); [|done]. intros [= <-]. assert (closing b = true) as Hc by (destruct n; [by eapply H5|by eapply H4]).
    apply Hsame; [apply drain_loop_ok; [done|congruence|done]|]. intros _. unfold drain_loop. destruct (_ =? _)%Z, up; done.
Qed.

Lemma new_barrier_ok : barrier_ok [] new_barrier.
Proof. split; try done; [constructor|intros t; split; [done|by intros ?%not_elem_of_nil]]. Qed.

(** Once the barrier is closed, work only ends. *)
Lemma run_barrier_ok l ts b b' : barrier_ok ts b → run l b = Some b' →
  ∃ ts', barrier_ok ts' b' ∧ (closing b = true → ∀ t, t ∈ ts' → t ∈ ts).
Proof.
  revert ts b. induction l as [|[a t] l IH]; intros ts b Hb; simpl; [intros [= <-]; by exists ts|].
  destruct (act a t b) as [b1|] eqn:E; [|done]. destruct (barrier_act_ok _ _ _ _ _ Hb E) as (ts1 & Hb1 & Hw & Hc). intros Hrun.
  destruct (IH _ _ Hb1 Hrun) as (ts' & Hb' & Hsub). exists ts'. split; [done|]. intros Hcl u Hu.
  destruct (Hw u) as [?|?]; [by apply Hsub; [apply Hc|]|done|congruence].
Qed.

(** A drained shutdown is final.  In every interleaving of durable work and
    shutdowns: when [begin_shutdown] has answered that the work is drained, no
    thread is in durable work, then or at any later moment, whatever is called; and a shutdown that
    waits without a notification under way waits for a thread that is still
    working, whose end will notify it. *)
Theorem drained_is_final l b :
  run l new_barrier = Some b →
  (∀ t, threads b t = Answered true → ∀ l' b', run l' b = Some b' → ∀ u, threads b' u ≠ Working) ∧
  ∀ t, threads b t = Waiting false → ∃ u, threads b u = Working.
Proof.
  intros Hrun. destruct (run_barrier_ok _ _ _ _ new_barrier_ok Hrun) as (ts & Hb & _). split.
  - intros t Ht l' b' Hrun' u Hu. apply (bo_drained _ _ Hb) in Ht as [Hc ->].
    destruct (run_barrier_ok _ _ _ _ Hb Hrun') as (ts' & Hb' & Hsub).
    apply (bo_working _ _ Hb') in Hu. apply (Hsub Hc) in Hu. by apply not_elem_of_nil in Hu.
  - intros t Ht. apply (bo_sleep _ _ Hb) in Ht as [_ Hts]. destruct ts as [|u ts]; [done|]. exists u. apply (bo_working _ _ Hb). by left.
Qed.

(** Work in progress, a shutdown that waits for it, new work refused. *)
Definition demo_actions : list (action * nat) :=
  [(BeginWork, 1); (BeginShutdown true false, 2); (BeginWork, 3); (EndWork, 1); (Recheck false, 2)].

Lemma drained_is_final_witness :
  ∃ b, run demo_actions new_barrier = Some b ∧ threads b 2 = Answered true ∧
    ∀ l' b', run l' b = Some b' → ∀ u, threads b' u ≠ Working.
Proof.
  eexists. split; [reflexivity|]. split; [reflexivity|].
  destruct (drained_is_final demo_actions _ eq_refl) as [H _]. exact (H 2 eq_refl).
Defined.
End ShutdownLaws.
