(* ===== verification/HealthIssues.v ===== *)
(** * Health issues (health_issues.py)

    The bounded list of the issues packages report, oldest first; each method
    holds the lock throughout.  An issue is its owner and the rest of the
    contracts package's record, of type [D]. *)

From Stdlib Require Import Ascii ZArith Lia.
From stdpp Require Import base decidable numbers list strings sets.
From S2P Require Import Prelude PyData.

Module HealthIssues.

Definition MAX_HEALTH_ISSUES : Z := 256.

Section registry.
Context {D : Type}.

Record HealthIssue : Type := Issue { owner : string; detail : D }.

Record registry : Type := Registry { limit : Z; items : list HealthIssue }.

Definition new_registry (limit : Z) : result registry :=
  if negb ((1 <=? limit)%Z && (limit <=? 10000)%Z) then fail ValueErr "health issue limit must be between 1 and 10000"
  else Ok (Registry limit []).

(** [counts] after the loop over the issues. *)
Definition count_owners (l : list HealthIssue) : dict string Z :=
  foldl (λ counts item, dict_set counts (owner item) (or_default (dict_get counts (owner item)) 0 + 1)%Z) [] l.

(** [for index, item in enumerate(...): if ...: del ...[index]; return]. *)
Fixpoint delete_first (p : HealthIssue → bool) (l : list HealthIssue) : list HealthIssue :=
  match l with
  | [] => []
  | item :: l => if p item then l else item :: delete_first p l
  end.

(** [_evict_one_locked]; the greatest count is over at least one owner. *)
Definition evict_one_locked (l : list HealthIssue) : list HealthIssue :=
  let counts := count_owners l in
  let noisiest := zmax (dict_values counts) in
  delete_first (λ item, (or_default (dict_get counts (owner item)) 0 =? noisiest)%Z) l.

(** [while len(self._issues) > self._limit]; the length is fuel enough. *)
Fixpoint evict_loop (fuel : nat) (limit : Z) (l : list HealthIssue) : list HealthIssue :=
  match fuel with
  | O => l
  | S fuel => if (limit <? Z.of_nat (length l))%Z then evict_loop fuel limit (evict_one_locked l) else l
  end.

Definition report (issue : HealthIssue) (r : registry) : registry :=
  let appended := items r ++ [issue] in
  Registry (limit r) (evict_loop (length appended) (limit r) appended).

Definition owned (who : option string) (item : HealthIssue) : bool :=
  match who with None => true | Some o => String.eqb (owner item) o end.

Definition issues (who : option string) (r : registry) : list HealthIssue := List.filter (owned who) (items r).

Definition clear (who : option string) (r : registry) : Z * registry :=
  let kept := List.filter (λ item, negb (owned who item)) (items r) in
  (Z.of_nat (length (items r)) - Z.of_nat (length kept), Registry (limit r) kept)%Z.

(** The methods that change the list. *)
Inductive action : Type :=
| ReportIssue (issue : HealthIssue)
| ClearIssues (who : option string).

Definition act (a : action) (r : registry) : registry :=
  match a with ReportIssue issue => report issue r | ClearIssues who => snd (clear who r) end.
End registry.
End HealthIssues.

(** ** Laws *)

Module HealthLaws.
Import HealthIssues.

Section laws.
Context {D : Type}.
Implicit Types (l : list (@HealthIssue D)) (r : @registry D) (a : @action D).

(** How many issues an owner holds. *)
Definition held (o : string) l : Z := Z.of_nat (length (List.filter (λ i, String.eqb (owner i) o) l)).

Lemma held_app o l1 l2 : held o (l1 ++ l2) = (held o l1 + held o l2)%Z.
Proof. unfold held. rewrite List.filter_app, length_app. lia. Qed.

Lemma held_cons o i l : held o (i :: l) = ((if String.eqb (owner i) o then 1 else 0) + held o l)%Z.
Proof. unfold held. cbn [List.filter]. destruct (String.eqb (owner i) o); cbn [length]; lia. Qed.

Lemma held_nonneg o l : (0 ≤ held o l)%Z.
Proof. unfold held. lia. Qed.

Lemma count_owners_spec l :
  dict_wf (count_owners l) ∧
  ∀ o, dict_get (count_owners l) o = if (0 <? held o l)%Z then Some (held o l) else None.
Proof.
  induction l as [|i l [IHw IH]] using rev_ind; [split; [apply dict_wf_nil|done]|].
  unfold count_owners. rewrite foldl_app. fold (count_owners l). cbn [foldl]. split; [by apply dict_wf_set|]. intros o.
  rewrite dict_get_set, held_app, held_cons. pose proof (held_nonneg o l).
  change (held o []) with 0%Z. rewrite Z.add_0_r. destruct (decide (owner i = o)) as [<-|Hne].
  - rewrite String.eqb_refl, IH. rewrite (proj2 (Z.ltb_lt 0 (held (owner i) l + 1))) by lia. f_equal.
    destruct (0 <? held (owner i) l)%Z eqn:E; [done|]. apply Z.ltb_ge in E. simpl. lia.
  - rewrite (proj2 (String.eqb_neq _ _)), Z.add_0_r by done. apply IH.
Qed.

Lemma counted i l : i ∈ l → or_default (dict_get (count_owners l) (owner i)) 0%Z = held (owner i) l ∧ (1 ≤ held (owner i) l)%Z.
Proof.
  intros Hi. destruct (count_owners_spec l) as [_ Hc]. rewrite Hc.
  assert (1 ≤ held (owner i) l)%Z as H1.
  { apply elem_of_Permutation in Hi as [l' Hp]. unfold held.
    assert (Permutation (List.filter (λ j, String.eqb (owner j) (owner i)) l) (List.filter (λ j, String.eqb (owner j) (owner i)) (i :: l'))) as ->.
    { clear Hc. induction Hp; simpl; repeat destruct (String.eqb _ _); eauto using Permutation. }
    cbn [List.filter]. rewrite String.eqb_refl. cbn [length]. lia. }
  by rewrite (proj2 (Z.ltb_lt _ _)) by lia.
Qed.

Lemma delete_first_split p l :
  existsb p l = true → ∃ l1 i l2, l = l1 ++ i :: l2 ∧ p i = true ∧ Forall (λ j, p j = false) l1 ∧ delete_first p l = l1 ++ l2.
Proof.
  induction l as [|i l IH]; [done|]. simpl. destruct (p i) eqn:E; simpl.
  - intros _. exists [], i, l. by split_and!.
  - intros (l1 & j & l2 & -> & Hj & Hl1 & ->)%IH. exists (i :: l1), j, l2. split_and!; [done..|by constructor|done].
Qed.

(** The greatest number of issues one owner holds: [max(counts.values())]. *)
Definition noisiest l : Z := zmax (dict_values (count_owners l)).

Lemma zmax_in zs : (1 ≤ zmax zs)%Z → zmax zs ∈ zs.
Proof.
  induction zs as [|x zs IH]; [by vm_compute; intros []|].
  rewrite zmax_cons. intros H1. destruct (Z.max_spec x (zmax zs)) as [[? E]|[? E]]; rewrite E in *; [right; apply IH; lia|left].
Qed.

Lemma noisiest_ge o l : (held o l ≤ noisiest l)%Z.
Proof.
  unfold noisiest. destruct (count_owners_spec l) as [_ Hc]. specialize (Hc o). destruct (0 <? held o l)%Z eqn:E.
  - apply zmax_ge. apply dict_get_Some_in in Hc. apply list_elem_of_fmap. by exists (o, held o l).
  - apply Z.ltb_ge in E. etrans; [exact E|]. apply zmax_nonneg.
Qed.

Lemma noisiest_attained l : l ≠ [] → ∃ i, i ∈ l ∧ held (owner i) l = noisiest l.
Proof.
  intros Hne. assert (1 ≤ noisiest l)%Z as H1.
  { destruct l as [|j l]; [done|]. destruct (counted j (j :: l) ltac:(by left)) as [_ Hj]. etrans; [exact Hj|apply noisiest_ge]. }
  apply zmax_in in H1. apply list_elem_of_fmap in H1 as ([o n] & Hn & Hin). cbn [snd] in Hn.
  destruct (count_owners_spec l) as [Hw Hc]. apply dict_get_in in Hin; [|done]. rewrite Hc in Hin.
  destruct (0 <? held o l)%Z eqn:E; [|done]. injection Hin as Hin. apply Z.ltb_lt in E.
  assert (∃ k, In k (List.filter (λ i, String.eqb (owner i) o) l)) as [k [Hk Ho%String.eqb_eq]%filter_In].
  { unfold held in E. destruct (List.filter _ l) as [|k ks]; [simpl in E; lia|]. exists k. by left. }
  exists k. split; [by apply list_elem_of_In|]. rewrite Ho, Hin. symmetry. exact Hn.
Qed.

Lemma noisy_test j l :
  j ∈ l → (or_default (dict_get (count_owners l) (owner j)) 0 =? noisiest l)%Z = (held (owner j) l =? noisiest l)%Z.
Proof. by intros [-> _]%counted. Qed.

(** The issue that is evicted: the first of an owner that holds the most. *)
Lemma evict_one_spec l :
  l ≠ [] → ∃ l1 i l2, l = l1 ++ i :: l2 ∧ evict_one_locked l = l1 ++ l2 ∧
    (∀ o, (held o l ≤ held (owner i) l)%Z) ∧ Forall (λ j, held (owner j) l < held (owner i) l)%Z l1.
Proof.
  intros Hne. unfold evict_one_locked. fold (noisiest l).
  destruct (delete_first_split (λ item, (or_default (dict_get (count_owners l) (owner item)) 0 =? noisiest l)%Z) l)
    as (l1 & i & l2 & El & Hi & Hl1 & ->).
  { apply noisiest_attained in Hne as (i0 & Hi0 & Heq). apply existsb_exists. exists i0. split; [by apply list_elem_of_In|].
    rewrite noisy_test, Heq by done. apply Z.eqb_refl. }
  exists l1, i, l2. assert (i ∈ l) as Hil by (rewrite El; apply elem_of_app; right; by left).
  rewrite noisy_test in Hi by done. apply Z.eqb_eq in Hi. split_and!; [done..|intros o; rewrite Hi; apply noisiest_ge|].
  rewrite Forall_forall in Hl1. apply Forall_forall. intros j Hj. assert (j ∈ l) as Hjl by (rewrite El; apply elem_of_app; by left).
  specialize (Hl1 j Hj). cbv beta in Hl1. rewrite noisy_test in Hl1 by done. apply Z.eqb_neq in Hl1.
  pose proof (noisiest_ge (owner j) l) as Hge. rewrite Hi. destruct (Z.le_gt_cases (noisiest l) (held (owner j) l)); lia.
Qed.

Lemma evict_length l : l ≠ [] → S (length (evict_one_locked l)) = length l.
Proof. intros (l1 & i & l2 & -> & -> & _)%evict_one_spec. rewrite !length_app. simpl. lia. Qed.

(** One more issue than fits costs one eviction. *)
Lemma report_spec (issue : HealthIssue) r :
  (1 ≤ limit r)%Z → (Z.of_nat (length (items r)) ≤ limit r)%Z →
  items (report issue r) =
    (if (Z.of_nat (length (items r)) <? limit r)%Z then items r ++ [issue] else evict_one_locked (items r ++ [issue])).
Proof.
  intros H1 Hl. unfold report. cbn [items]. rewrite length_app. cbn [length]. rewrite Nat.add_1_r. cbn [evict_loop].
  rewrite length_app. cbn [length]. destruct (Z.ltb_spec (Z.of_nat (length (items r))) (limit r)) as [Hlt|Hge].
  - destruct (Z.ltb_spec (limit r) (Z.of_nat (length (items r) + 1))) as [Hx|Hx]; [exfalso; lia|done].
  - destruct (Z.ltb_spec (limit r) (Z.of_nat (length (items r) + 1))) as [Hx|Hx]; [|exfalso; lia].
    destruct (length (items r)) as [|n] eqn:En; [done|]. cbn [evict_loop].
    assert (length (evict_one_locked (items r ++ [issue])) = S n) as ->.
    { assert (items r ++ [issue] ≠ []) as Hne by (by destruct (items r)). apply evict_length in Hne.
      rewrite length_app, En in Hne. simpl in Hne. lia. }
    by rewrite (proj2 (Z.ltb_ge (limit r) (Z.of_nat (S n)))) by lia.
Qed.

Lemma report_bounded (issue : HealthIssue) r :
  (1 ≤ limit r)%Z → (Z.of_nat (length (items r)) ≤ limit r)%Z → (Z.of_nat (length (items (report issue r))) ≤ limit r)%Z.
Proof.
  intros H1 Hl. rewrite report_spec by done. destruct (Z.ltb_spec (Z.of_nat (length (items r))) (limit r)) as [Hlt|Hge].
  - rewrite length_app. simpl. lia.
  - assert (items r ++ [issue] ≠ []) as Hne by (by destruct (items r)). apply evict_length in Hne.
    rewrite length_app in Hne. simpl in Hne. lia.
Qed.

Lemma act_bounded a r :
  (1 ≤ limit r)%Z → (Z.of_nat (length (items r)) ≤ limit r)%Z →
  limit (act a r) = limit r ∧ (Z.of_nat (length (items (act a r))) ≤ limit r)%Z.
Proof.
  intros H1 Hl. destruct a as [issue|who]; [split; [done|by apply report_bounded]|]. split; [done|]. cbn.
  etrans; [|exact Hl]. apply inj_le. clear. induction (items r) as [|i l IH]; [done|]. cbn. destruct (negb _); simpl; lia.
Qed.

Lemma acts_bounded acts r :
  (1 ≤ limit r)%Z → (Z.of_nat (length (items r)) ≤ limit r)%Z →
  (1 ≤ limit (foldl (λ s a, act a s) r acts))%Z ∧
  (Z.of_nat (length (items (foldl (λ s a, act a s) r acts))) ≤ limit (foldl (λ s a, act a s) r acts))%Z.
Proof.
  revert r. induction acts as [|a acts IH]; intros r H1 Hl; [done|]. cbn [foldl].
  destruct (act_bounded a r H1 Hl) as [E Hb]. apply IH; by rewrite E.
Qed.

Lemma new_registry_ok lim r : new_registry (D := D) lim = Ok r → (1 ≤ lim)%Z ∧ limit r = lim ∧ items r = [].
Proof.
  unfold new_registry. destruct (Z.leb_spec 1 lim); [|done]. destruct (lim <=? 10000)%Z; [|done]. cbn. intros [= <-]. done.
Qed.

Lemma acts_limit acts (r : @registry D) : limit (foldl (λ s a, act a s) r acts) = limit r.
Proof. revert r. induction acts as [|a acts IH]; intros r; [done|]. cbn [foldl]. rewrite IH. by destruct a. Qed.

(** Whatever was reported and cleared before, a report never exceeds the
    registry's limit; below the limit it keeps every issue, and at the limit
    it drops exactly one: the oldest among the owners that hold the most, the
    other issues kept in their order.  So an owner that holds fewer issues than
    another loses none of them. *)
Theorem quiet_owner_keeps lim r0 acts (issue : @HealthIssue D) :
  new_registry lim = Ok r0 →
  let r := foldl (λ s a, act a s) r0 acts in
  let r' := report issue r in
  (Z.of_nat (length (items r')) ≤ lim)%Z ∧
  ((Z.of_nat (length (items r)) < lim)%Z → items r' = items r ++ [issue]) ∧
  ((lim ≤ Z.of_nat (length (items r)))%Z →
   ∃ l1 i l2, items r ++ [issue] = l1 ++ i :: l2 ∧ items r' = l1 ++ l2 ∧
     (∀ o, (held o (items r ++ [issue]) ≤ held (owner i) (items r ++ [issue]))%Z) ∧
     Forall (λ j, held (owner j) (items r ++ [issue]) < held (owner i) (items r ++ [issue]))%Z l1) ∧
  (∀ o o', (held o (items r ++ [issue]) < held o' (items r ++ [issue]))%Z →
     issues (Some o) r' = List.filter (owned (Some o)) (items r ++ [issue])).
Proof.
  intros Hnew r r'. apply new_registry_ok in Hnew as (H1 & E & Hl).
  assert (limit r = lim) as Er by (subst r; rewrite acts_limit; done).
  destruct (acts_bounded acts r0) as [Hr1 Hrl]; [by rewrite E|by rewrite Hl, E; simpl; lia|]. fold r in Hr1, Hrl.
  pose proof (report_spec issue r Hr1 Hrl) as Hs. fold r' in Hs. rewrite Er in *. split; [rewrite <- Er; apply report_bounded; by rewrite Er|].
  destruct (Z.ltb_spec (Z.of_nat (length (items r))) lim) as [Hlt|Hge].
  - split_and!; [done|lia|]. intros o o' _. unfold issues. by rewrite Hs.
  - assert (items r ++ [issue] ≠ []) as Hne by (by destruct (items r)).
    destruct (evict_one_spec _ Hne) as (l1 & i & l2 & E1 & E2 & Hmax & Hfst). rewrite E2 in Hs.
    split_and!; [lia|intros _; by exists l1, i, l2|]. intros o o' Hlt. unfold issues. rewrite Hs, E1, !List.filter_app. f_equal.
    cbn [List.filter owned]. destruct (String.eqb_spec (owner i) o) as [<-|]; [|done]. specialize (Hmax o'). lia.
Qed.
End laws.

Definition noisy (who what : string) : @HealthIssue string := Issue who what.

Lemma quiet_owner_keeps_witness :
  let r := foldl (λ s a, act a s) (Registry 2 []) [ReportIssue (noisy "quiet" "a"); ReportIssue (noisy "loud" "b")] in
  new_registry 2 = Ok (Registry (D := string) 2 []) ∧
  items (report (noisy "loud" "c") r) = [noisy "quiet" "a"; noisy "loud" "c"] ∧
  issues (Some "quiet") (report (noisy "loud" "c") r) = [noisy "quiet" "a"].
Proof.
  intros r. split; [reflexivity|split; [reflexivity|]].
  apply (proj2 (proj2 (proj2 (quiet_owner_keeps 2 (Registry 2 [])
    [ReportIssue (noisy "quiet" "a"); ReportIssue (noisy "loud" "b")] (noisy "loud" "c") eq_refl)))) with (o' := "loud").
  reflexivity.
Defined.
End HealthLaws.
