(* ===== verification/SqlText.v ===== *)
(** * The text of a migration statement (migrations.py)

    [_erase_sql_literals_and_comments] walks a statement and overwrites its
    comments, strings, quoted identifiers and dollar quotes with blanks;
    [_validate_statement_boundary] looks for a second command and for forbidden
    commands in what is left.  The index of the walk is the suffix that begins
    there, the mutable copy is the list built behind it: a container of [n]
    characters is left after [n] blanks.  A statement is its UTF-8 bytes; all the
    delimiters are ASCII, and a character outside ASCII is erased byte by byte. *)

From Stdlib Require Import Ascii Lia.
From stdpp Require Import base decidable numbers list strings sets.
From S2P Require Import Prelude PyData Regex.

Module SqlText.

Definition TRANSACTION_CONTROL_KEYWORDS : list string := ["BEGIN"; "COMMIT"; "END"; "ROLLBACK"; "SAVEPOINT"; "RELEASE"].
Definition FORBIDDEN_MIGRATION_KEYWORDS : list string := ["ATTACH"; "DETACH"; "PRAGMA"; "VACUUM"].

Definition newline : ascii := "010".
Definition double_quote : ascii := "034".
Definition backslash : ascii := "\".

(** ** Searching *)

(** [statement[index:].startswith(p)]. *)
Fixpoint starts (p l : list ascii) : bool :=
  match p, l with
  | [], _ => true
  | _ :: _, [] => false
  | a :: p, b :: l => Ascii.eqb a b && starts p l
  end.

(** [statement.find(p, index)], relative to [index]. *)
Fixpoint find_sub (p l : list ascii) : option nat :=
  if starts p l then Some 0 else match l with [] => None | _ :: l => S <$> find_sub p l end.

Fixpoint take_while {A} (p : A → bool) (l : list A) : list A :=
  match l with
  | [] => []
  | x :: l => if p x then x :: take_while p l else []
  end.

(** ** Containers *)

(** The characters from here to just behind the end of a comment that is
    [depth] deep. *)
Fixpoint block_end (depth : nat) (l : list ascii) : option nat :=
  match depth with
  | O => Some 0
  | S d =>
      match l with
      | [] => None
      | a :: l1 =>
          match l1 with
          | [] => block_end depth l1
          | b :: l2 =>
              if Ascii.eqb a "/" && Ascii.eqb b "*" then (λ n, S (S n)) <$> block_end (S depth) l2
              else if Ascii.eqb a "*" && Ascii.eqb b "/" then (λ n, S (S n)) <$> block_end d l2
              else S <$> block_end depth l1
          end
      end
  end.

(** From behind the opening quote to just behind the closing one. *)
Fixpoint quote_end (quote : ascii) (l : list ascii) : option nat :=
  match l with
  | [] => None
  | c :: l1 =>
      if Ascii.eqb c quote then
        match l1 with
        | d :: l2 => if Ascii.eqb d quote then (λ n, S (S n)) <$> quote_end quote l2 else Some 1
        | [] => Some 1
        end
      else if Ascii.eqb c backslash then
        match l1 with _ :: l2 => (λ n, S (S n)) <$> quote_end quote l2 | [] => None end
      else S <$> quote_end quote l1
  end.

Definition ident_start (c : ascii) : bool := is_alpha c || Ascii.eqb c "_".
Definition ident_char (c : ascii) : bool := ident_start c || is_digit c.

(** [re.match(r"\$[A-Za-z_][A-Za-z0-9_]*\$|\$\$", ...)]. *)
Definition dollar_delimiter (l : list ascii) : option (list ascii) :=
  match l with
  | a :: ((c :: _) as l1) =>
      if negb (Ascii.eqb a "$") then None
      else if ident_start c then
        let tag := take_while ident_char l1 in
        if starts ["$"%char] (drop (length tag) l1) then Some (a :: tag ++ [a]) else None
      else if Ascii.eqb c "$" then Some [a; c]
      else None
  | _ => None
  end.

Definition is_quote (c : ascii) : bool := Ascii.eqb c "'" || Ascii.eqb c double_quote || Ascii.eqb c "`".

Definition unterminated {A} (what : string) : result A := fail ValueErr ("migration statement contains an unterminated " +:+ what).

(** The container that begins here: its length, or [None] at a character that
    stays. *)
Definition container_end (l : list ascii) : result (option nat) :=
  match l with
  | [] => Ok None
  | c :: l1 =>
      if starts ["-"; "-"]%char l then
        Ok (Some (match find_sub [newline] (drop 2 l) with Some n => 2 + n | None => length l end))
      else if starts ["/"; "*"]%char l then
        match block_end 1 (drop 2 l) with Some n => Ok (Some (2 + n)) | None => unterminated "comment" end
      else if is_quote c then
        match quote_end c l1 with Some n => Ok (Some (S n)) | None => unterminated "quote" end
      else if Ascii.eqb c "[" then
        match find_sub ["]"%char] l1 with Some n => Ok (Some (S (S n))) | None => unterminated "identifier" end
      else match dollar_delimiter l with
           | Some d =>
               match find_sub d (drop (length d) l) with
               | Some n => Ok (Some (length d + n + length d))
               | None => unterminated "dollar quote"
               end
           | None => Ok None
           end
  end.

(** [_erase_sql_literals_and_comments]: [skip] characters of a container are
    still to be blanked. *)
Fixpoint erase_from (skip : nat) (l : list ascii) : result (list ascii) :=
  match l with
  | [] => Ok []
  | c :: l1 =>
      match skip with
      | S k => out ← erase_from k l1; Ok (" "%char :: out)
      | O =>
          width ← container_end l;
          match width with
          | Some n => out ← erase_from (pred n) l1; Ok (" "%char :: out)
          | None => out ← erase_from 0 l1; Ok (c :: out)
          end
      end
  end.

Definition erase_sql_literals_and_comments (statement : string) : result string :=
  out ← erase_from 0 (chars statement); Ok (of_chars out).

(** ** The boundary *)

(** [re.search(r"[A-Za-z_][A-Za-z0-9_$]*", executable)]. *)
Definition token_char (c : ascii) : bool := ident_char c || Ascii.eqb c "$".
Definition first_token (l : list ascii) : list ascii := take_while token_char (drop_while (λ c, negb (ident_start c)) l).

(** A character of a pattern under [re.IGNORECASE], consumed: the two cases of
    a letter, and the other characters whose case is an ASCII one. *)
Definition ignorecase (c : ascii) (l : list ascii) : option (list ascii) :=
  match l with
  | [] => None
  | a :: l1 =>
      if Ascii.eqb (lower_char a) (lower_char c) then Some l1
      else match l1 with
           | [] => None
           | b :: l2 =>
               if (Ascii.eqb c "i" && (code a =? 196)%N && ((code b =? 176)%N || (code b =? 177)%N)) ||
                  (Ascii.eqb c "s" && (code a =? 197)%N && (code b =? 191)%N)
               then Some l2 else None
           end
  end.

Fixpoint ignorecase_all (p l : list ascii) : option (list ascii) :=
  match p with
  | [] => Some l
  | c :: p => match ignorecase c l with Some l => ignorecase_all p l | None => None end
  end.

(** [load_extension\s*\(] here. *)
Definition load_extension_here (l : list ascii) : bool :=
  match ignorecase_all (chars "load_extension") l with
  | Some l => starts ["("%char] (strip_head space2 space3 l)
  | None => false
  end.

Section boundary.
(** The Unicode database: is a character outside ASCII a letter or a digit? *)
Context (unicode_word : list ascii → bool).

(** Is the last character of what was passed, in reverse, a word character? *)
Definition word_before (before : list ascii) : bool :=
  match before with
  | [] => false
  | c :: _ =>
      if (code c <? 128)%N then ident_char c
      else let tail := take_while is_continuation before in
           unicode_word (reverse (tail ++ take 1 (drop (length tail) before)))
  end.

(** [re.search(r"\bload_extension\s*\(", executable, flags=re.IGNORECASE)]. *)
Fixpoint loads_extension (before l : list ascii) : bool :=
  (negb (word_before before) && load_extension_here l) ||
  match l with [] => false | c :: l => loads_extension (c :: before) l end.

(** The indexes of the semicolons are none, or the last one alone. *)
Fixpoint one_command (l : list ascii) : bool :=
  match l with
  | [] => true
  | c :: l => if Ascii.eqb c ";" then match l with [] => true | _ => false end else one_command l
  end.

Definition validate_statement_boundary (statement : string) : result unit :=
  erased ← erase_sql_literals_and_comments statement;
  let executable := chars (str_strip erased) in
  _ ← fail_if (bool_decide (executable = [])) ValueErr "migration statement contains no executable SQL";
  _ ← fail_if (negb (one_command executable)) ValueErr "migration statements must contain exactly one SQL command";
  let keyword := upper (of_chars (first_token executable)) in
  _ ← fail_if (bool_decide (keyword ∈ TRANSACTION_CONTROL_KEYWORDS)) ValueErr "migration may not control its transaction";
  _ ← fail_if (bool_decide (keyword ∈ FORBIDDEN_MIGRATION_KEYWORDS)) ValueErr ("migration command is not allowed: " +:+ keyword);
  fail_if (loads_extension [] executable) ValueErr "migration may not load SQLite extensions".
End boundary.
End SqlText.

(** ** Laws *)

Module SqlLaws.
Import SqlText.

Implicit Types l w body rest : list ascii.

(** *** What a container is

    The relations say which text a container is, in front of the rest of the
    statement, without the order in which the walk looks. *)

(** The text of a comment from inside its [d]th level to its end. *)
Inductive in_block : nat → list ascii → Prop :=
| block_done : in_block 0 []
| block_open d w : in_block (S (S d)) w → in_block (S d) ("/" :: "*" :: w)%char
| block_close d w : in_block d w → in_block (S d) ("*" :: "/" :: w)%char
| block_char d c w :
    starts ["/"; "*"]%char (c :: w) = false → starts ["*"; "/"]%char (c :: w) = false →
    in_block (S d) w → in_block (S d) (c :: w).

(** The text of a quoted form from inside it to its end, and what follows. *)
Inductive in_quote (q : ascii) : list ascii → list ascii → Prop :=
| quote_close rest : head rest ≠ Some q → in_quote q [q] rest
| quote_double w rest : in_quote q w rest → in_quote q (q :: q :: w) rest
| quote_escape c w rest : q ≠ backslash → in_quote q w rest → in_quote q (backslash :: c :: w) rest
| quote_char c w rest : c ≠ q → c ≠ backslash → in_quote q w rest → in_quote q (c :: w) rest.

(** [d] does not occur in [body ++ d] before the end. *)
Definition first_at d body : Prop := ∀ u v, body ++ d = u ++ d ++ v → length body ≤ length u.

(** [$$] or [$tag$]. *)
Inductive delimiter : list ascii → Prop :=
| empty_tag : delimiter ["$"; "$"]%char
| named_tag c tag : ident_start c = true → Forall (λ a, ident_char a = true) tag → delimiter ("$" :: c :: tag ++ ["$"])%char.

Inductive container : list ascii → list ascii → Prop :=
| line_comment body rest :
    newline ∉ body → (rest = [] ∨ head rest = Some newline) → container ("-" :: "-" :: body)%char rest
| block_comment w rest : in_block 1 w → container ("/" :: "*" :: w)%char rest
| quoted q w rest : is_quote q = true → in_quote q w rest → container (q :: w) rest
| bracketed body rest : "]"%char ∉ body → container ("[" :: body ++ ["]"])%char rest
| dollar_quoted d body rest : delimiter d → first_at d body → container (d ++ body ++ d) rest.

(** A character at which no container begins. *)
Definition opens l : bool :=
  starts ["-"; "-"]%char l || starts ["/"; "*"]%char l ||
  match head l with Some c => is_quote c || Ascii.eqb c "[" | None => false end ||
  match dollar_delimiter l with Some _ => true | None => false end.

Inductive lexes : list ascii → list (bool * list ascii) → Prop :=
| lexes_nil : lexes [] []
| lexes_plain c l ls : opens (c :: l) = false → lexes l ls → lexes (c :: l) ((true, [c]) :: ls)
| lexes_container w l ls : container w l → lexes l ls → lexes (w ++ l) ((false, w) :: ls).

(** What is left of a lexeme. *)
Definition remains (e : bool * list ascii) : list ascii := if e.1 then e.2 else repeat " "%char (length e.2).

(** *** Searching *)

Lemma starts_iff p l : starts p l = true ↔ ∃ r, l = p ++ r.
Proof.
  revert l. induction p as [|a p IH]; intros l; [split; [by exists l|done]|]. destruct l as [|b l]; simpl.
  - split; [done|by intros [r ?]].
  - rewrite andb_true_iff, Ascii.eqb_eq, IH. split; [intros [-> [r ->]]; by exists r|intros [r [= -> ->]]; eauto].
Qed.

Lemma starts_app p r : starts p (p ++ r) = true.
Proof. apply starts_iff. by exists r. Qed.

Definition occurs_at p l (n : nat) : Prop := ∃ u v, l = u ++ p ++ v ∧ length u = n.

Lemma occurs_at_cons p a l n : occurs_at p (a :: l) (S n) ↔ occurs_at p l n.
Proof.
  split.
  - intros ([|b u] & v & E & Hn); [done|]. injection E as -> ->. exists u, v. by injection Hn.
  - intros (u & v & -> & <-). by exists (a :: u), v.
Qed.

Lemma find_sub_first p l n : find_sub p l = Some n → occurs_at p l n ∧ ∀ m, occurs_at p l m → n ≤ m.
Proof.
  revert n. induction l as [|a l IH]; intros n; simpl; destruct (starts p _) eqn:E; try discriminate.
  1,2: intros [= <-]; apply starts_iff in E as [r Hr]; split; [by exists [], r|intros; lia].
  destruct (find_sub p l) as [k|]; [|done]. intros [= <-]. destruct (IH k eq_refl) as [Ho Hmin]. split; [by apply occurs_at_cons|].
  intros [|m] Hm; [|apply occurs_at_cons, Hmin in Hm; lia]. exfalso. destruct Hm as (u & v & Hl & Hu).
  destruct u; [|done]. rewrite Hl in E. cbn [app] in E. by rewrite starts_app in E.
Qed.

Lemma find_sub_none p l n : find_sub p l = None → ¬ occurs_at p l n.
Proof.
  revert n. induction l as [|a l IH]; intros n; simpl; destruct (starts p _) eqn:E; try discriminate.
  - intros _ (u & v & Hl & _). destruct u; [|done]. rewrite Hl in E. cbn [app] in E. by rewrite starts_app in E.
  - destruct (find_sub p l); [done|]. intros _ Ho. destruct n as [|n]; [|by eapply IH, occurs_at_cons].
    destruct Ho as (u & v & Hl & Hu). destruct u; [|done]. rewrite Hl in E. cbn [app] in E. by rewrite starts_app in E.
Qed.

Lemma find_sub_iff p l n : find_sub p l = Some n ↔ occurs_at p l n ∧ ∀ m, occurs_at p l m → n ≤ m.
Proof.
  split; [apply find_sub_first|]. intros [Ho Hmin]. destruct (find_sub p l) as [k|] eqn:E; [|by destruct (find_sub_none _ _ n E)].
  apply find_sub_first in E as [Hk Hle]. f_equal. apply Nat.le_antisymm; [by apply Hle|by apply Hmin].
Qed.

(** The first occurrence of a character. *)
Lemma find_char c l n : find_sub [c] l = Some n ↔ ∃ body rest, l = body ++ c :: rest ∧ (c ∉ body) ∧ length body = n.
Proof.
  rewrite find_sub_iff. split.
  - intros [(u & v & -> & <-) Hmin]. exists u, v. split_and!; [done| |done]. intros (u1 & u2 & ->)%list_elem_of_split.
    assert (length (u1 ++ c :: u2) ≤ length u1) as Hle; [|rewrite length_app in Hle; simpl in Hle; lia].
    apply Hmin. exists u1, (u2 ++ c :: v). by rewrite <-app_assoc.
  - intros (u & v & -> & Hu & <-). split; [by exists u, v|]. intros m (u' & v' & E & <-).
    destruct (decide (length u ≤ length u')) as [|Hlt]; [done|]. exfalso. apply Hu.
    apply (list_elem_of_lookup_2 _ (length u')). rewrite <-(lookup_app_l u (c :: v)) by lia. rewrite E. by apply list_lookup_middle.
Qed.

Lemma find_char_none c l : find_sub [c] l = None ↔ c ∉ l.
Proof.
  split.
  - intros E (u & v & ->)%list_elem_of_split. eapply find_sub_none; [exact E|]. by exists u, v.
  - intros Hc. destruct (find_sub [c] l) as [n|] eqn:E; [|done]. apply find_char in E as (u & v & -> & _).
    destruct Hc. apply elem_of_app. right. by left.
Qed.

Lemma take_while_app {A} (p : A → bool) u v :
  Forall (λ x, p x = true) u → (∀ x, head v = Some x → p x = false) → take_while p (u ++ v) = u.
Proof.
  intros Hu Hv. induction Hu as [|x u Hx _ IH]; simpl; [|by rewrite Hx, IH]. destruct v as [|x v]; [done|]. simpl. by rewrite (Hv x eq_refl).
Qed.

Lemma take_while_split {A} (p : A → bool) (l : list A) :
  Forall (λ x, p x = true) (take_while p l) ∧ l = take_while p l ++ drop (length (take_while p l)) l.
Proof. induction l as [|x l [IH1 IH2]]; simpl; [done|]. destruct (p x) eqn:E; simpl; [|done]. split; [by constructor|by f_equal]. Qed.

Lemma dollar_not_ident a : Ascii.eqb a "$" = true → ident_char a = false.
Proof. intros ->%Ascii.eqb_eq. reflexivity. Qed.

Lemma dollar_delimiter_sound l d : dollar_delimiter l = Some d → delimiter d ∧ ∃ r, l = d ++ r.
Proof.
  destruct l as [|a [|c l]]; [done..|]. cbn [dollar_delimiter]. destruct (Ascii.eqb_spec a "$") as [->|]; [|done]. cbn [negb].
  destruct (ident_start c) eqn:Ec.
  - destruct (take_while_split ident_char (c :: l)) as [Hall Hsplit]. set (tag := take_while ident_char (c :: l)) in *.
    destruct (starts _ _) eqn:Es; [|done]. intros [= <-]. apply starts_iff in Es as [r Hr]. rewrite Hr in Hsplit.
    assert (∃ tag', tag = c :: tag') as [tag' Etag].
    { subst tag. cbn [take_while]. unfold ident_char. rewrite Ec. cbn. by eexists. }
    rewrite Etag in *. apply Forall_cons in Hall as [_ Hall]. split; [by constructor|]. exists r. rewrite Hsplit. simpl. by rewrite <-app_assoc.
  - destruct (Ascii.eqb_spec c "$") as [->|]; [|done]. intros [= <-]. split; [constructor|by exists l].
Qed.

Lemma dollar_delimiter_complete d r : delimiter d → dollar_delimiter (d ++ r) = Some d.
Proof.
  destruct 1 as [|c tag Hc Htag]; [done|]. cbn [app dollar_delimiter]. change (Ascii.eqb "$" "$") with true. cbn [negb]. rewrite Hc.
  change (c :: (tag ++ ["$"%char]) ++ r) with ((c :: tag ++ ["$"%char]) ++ r).
  assert (take_while ident_char ((c :: tag ++ ["$"%char]) ++ r) = c :: tag) as ->.
  { replace ((c :: tag ++ ["$"%char]) ++ r) with ((c :: tag) ++ "$"%char :: r) by (cbn; by rewrite <-app_assoc).
    apply take_while_app; [constructor; [unfold ident_char; by rewrite Hc|done]|by intros x [= <-]]. }
  replace ((c :: tag ++ ["$"%char]) ++ r) with ((c :: tag) ++ "$"%char :: r) by (cbn; by rewrite <-app_assoc).
  rewrite drop_app_length. cbn [starts]. rewrite Ascii.eqb_refl. done.
Qed.

(** *** The ends of the containers *)

Lemma starts2 a b c d l : starts [a; b] (c :: d :: l) = Ascii.eqb a c && Ascii.eqb b d.
Proof. simpl. by rewrite andb_true_r. Qed.

Lemma block_end_cons d a b l :
  block_end (S d) (a :: b :: l) =
    if Ascii.eqb a "/" && Ascii.eqb b "*" then (λ n, S (S n)) <$> block_end (S (S d)) l
    else if Ascii.eqb a "*" && Ascii.eqb b "/" then (λ n, S (S n)) <$> block_end d l
    else S <$> block_end (S d) (b :: l).
Proof. done. Qed.

Lemma block_end_sound d l n : block_end d l = Some n → ∃ w r, l = w ++ r ∧ length w = n ∧ in_block d w.
Proof.
  revert d n. induction l as [l IH] using (induction_ltof1 _ (@length ascii)). unfold ltof in IH. intros d n. destruct d as [|d].
  { intros E. assert (n = 0) as -> by (destruct l; by injection E). exists [], l. split_and!; [done..|constructor]. }
  destruct l as [|a [|b l]]; [done..|]. rewrite block_end_cons.
  destruct (Ascii.eqb a "/" && Ascii.eqb b "*") eqn:E1; [|destruct (Ascii.eqb a "*" && Ascii.eqb b "/") eqn:E2].
  - destruct (block_end _ l) as [k|] eqn:E; [|done]. intros [= <-].
    apply andb_true_iff in E1 as [->%Ascii.eqb_eq ->%Ascii.eqb_eq].
    apply IH in E as (w & r & -> & <- & Hw); [|simpl; lia]. eexists (_ :: _ :: w), r. split_and!; [done..|by constructor].
  - destruct (block_end _ l) as [k|] eqn:E; [|done]. intros [= <-].
    apply andb_true_iff in E2 as [->%Ascii.eqb_eq ->%Ascii.eqb_eq].
    apply IH in E as (w & r & -> & <- & Hw); [|simpl; lia]. eexists (_ :: _ :: w), r. split_and!; [done..|by constructor].
  - destruct (block_end _ (b :: l)) as [k|] eqn:E; [|done]. intros [= <-].
    apply IH in E as (w & r & Hl & <- & Hw); [|simpl; lia].
    exists (a :: w), r. split_and!; [by rewrite Hl|done|]. destruct w as [|b' w]; [by inversion Hw|]. injection Hl as <- _.
    constructor; [rewrite starts2..|done]; by rewrite !(Ascii.eqb_sym _ a), !(Ascii.eqb_sym _ b).
Qed.

Lemma block_end_complete d w r : in_block d w → block_end d (w ++ r) = Some (length w).
Proof.
  induction 1 as [|d w _ IH|d w Hw IH|d c w H1 H2 Hw IH]; [by destruct r|..].
  - cbn [app]. rewrite block_end_cons. change (Ascii.eqb "/" "/" && Ascii.eqb "*" "*") with true. by rewrite IH.
  - cbn [app]. rewrite block_end_cons. change (Ascii.eqb "*" "/" && Ascii.eqb "/" "*") with false.
    change (Ascii.eqb "*" "*" && Ascii.eqb "/" "/") with true. by rewrite IH.
  - destruct w as [|b w]; [by inversion Hw|]. rewrite starts2 in H1, H2. cbn [app]. rewrite block_end_cons.
    rewrite !(Ascii.eqb_sym c), !(Ascii.eqb_sym b), H1, H2. cbn [app] in IH. by rewrite IH.
Qed.

Lemma quote_end_sound q l n : q ≠ backslash → quote_end q l = Some n → ∃ w r, l = w ++ r ∧ length w = n ∧ in_quote q w r.
Proof.
  intros Hq. revert n. induction l as [l IH] using (induction_ltof1 _ (@length ascii)). unfold ltof in IH. intros n. destruct l as [|c l]; [done|]. cbn [quote_end].
  destruct (Ascii.eqb_spec c q) as [->|Hc].
  - destruct l as [|d l]; [intros [= <-]; exists [q], []; split_and!; [done..|by constructor]|].
    destruct (Ascii.eqb_spec d q) as [->|Hd].
    + destruct (quote_end q l) as [k|] eqn:E; [|done]. intros [= <-].
      apply IH in E as (w & r & -> & <- & Hw); [|simpl; lia]. exists (q :: q :: w), r. split_and!; [done..|by constructor].
    + intros [= <-]. exists [q], (d :: l). split_and!; [done..|]. constructor. by intros [= ->].
  - destruct (Ascii.eqb_spec c backslash) as [->|Hb].
    + destruct l as [|d l]; [done|]. destruct (quote_end q l) as [k|] eqn:E; [|done]. intros [= <-].
      apply IH in E as (w & r & -> & <- & Hw); [|simpl; lia]. exists (backslash :: d :: w), r. split_and!; [done..|by constructor].
    + destruct (quote_end q l) as [k|] eqn:E; [|done]. intros [= <-].
      apply IH in E as (w & r & -> & <- & Hw); [|simpl; lia]. exists (c :: w), r. split_and!; [done..|by constructor].
Qed.

Lemma quote_end_complete q w r : in_quote q w r → quote_end q (w ++ r) = Some (length w).
Proof.
  induction 1 as [r Hr|w r _ IH|c w r Hq _ IH|c w r Hq Hb _ IH].
  - cbn [app quote_end]. rewrite Ascii.eqb_refl. destruct r as [|d r]; [done|]. destruct (Ascii.eqb_spec d q) as [->|]; [by destruct Hr|done].
  - cbn [app quote_end]. by rewrite !Ascii.eqb_refl, IH.
  - cbn [app quote_end]. destruct (Ascii.eqb_spec backslash q) as [Hx|]; [by destruct Hq|]. by rewrite Ascii.eqb_refl, IH.
  - cbn [app quote_end]. destruct (Ascii.eqb_spec c q); [done|]. destruct (Ascii.eqb_spec c backslash); [done|]. by rewrite IH.
Qed.

Lemma is_quote_cases c : is_quote c = true → c = "'"%char ∨ c = double_quote ∨ c = "`"%char.
Proof. unfold is_quote. rewrite !orb_true_iff, !Ascii.eqb_eq. tauto. Qed.

Lemma drop2 {A} (a b : A) (l : list A) : drop 2 (a :: b :: l) = l.
Proof. done. Qed.

Lemma container_sound l n : container_end l = Ok (Some n) → ∃ w r, l = w ++ r ∧ length w = n ∧ container w r.
Proof.
  destruct l as [|c l]; [done|]. unfold container_end. destruct (starts ["-"; "-"]%char (c :: l)) eqn:E1.
  { apply starts_iff in E1 as [r Hr]. cbn [app] in Hr. injection Hr as -> ->. rewrite drop2.
    destruct (find_sub [newline] r) as [k|] eqn:E; intros [= <-].
    - apply find_char in E as (body & rest & -> & Hb & <-). exists ("-" :: "-" :: body)%char, (newline :: rest).
      split_and!; [done..|]. constructor; [done|by right].
    - apply find_char_none in E. exists ("-" :: "-" :: r)%char, []. rewrite app_nil_r. split_and!; [done..|]. constructor; [done|by left]. }
  destruct (starts ["/"; "*"]%char (c :: l)) eqn:E2.
  { apply starts_iff in E2 as [r Hr]. cbn [app] in Hr. injection Hr as -> ->. rewrite drop2.
    destruct (block_end 1 r) as [k|] eqn:E; [|done]. intros [= <-].
    apply block_end_sound in E as (w & r' & -> & <- & Hw). exists ("/" :: "*" :: w)%char, r'. split_and!; [done..|by constructor]. }
  destruct (is_quote c) eqn:E3.
  { destruct (quote_end c l) as [k|] eqn:E; [|done]. intros [= <-].
    apply quote_end_sound in E as (w & r' & -> & <- & Hw); [|intros ->; discriminate E3].
    exists (c :: w), r'. split_and!; [done..|by constructor]. }
  destruct (Ascii.eqb_spec c "[") as [->|_].
  { destruct (find_sub ["]"%char] l) as [k|] eqn:E; [|done]. intros [= <-]. apply find_char in E as (body & rest & -> & Hb & <-).
    exists ("[" :: body ++ ["]"])%char, rest. split_and!; [simpl; by rewrite <-app_assoc|simpl; rewrite length_app; simpl; lia|by constructor]. }
  destruct (dollar_delimiter (c :: l)) as [d|] eqn:E4; [|done]. destruct (find_sub d _) as [k|] eqn:E; [|done]. intros [= <-].
  apply dollar_delimiter_sound in E4 as (Hd & r & Hr). rewrite Hr, drop_app_length in E.
  apply find_sub_first in E as [(body & rest & -> & <-) Hmin]. exists (d ++ body ++ d), rest.
  split_and!; [by rewrite Hr, <-!app_assoc|rewrite !length_app; lia|]. constructor; [done|]. intros u v Huv. apply Hmin.
  exists u, (v ++ rest). split; [|done]. rewrite (app_assoc body), Huv, <-!app_assoc. done.
Qed.

Lemma delimiter_head d : delimiter d → ∃ t, d = "$"%char :: t.
Proof. destruct 1; eauto. Qed.

Lemma container_complete w r : container w r → container_end (w ++ r) = Ok (Some (length w)).
Proof.
  destruct 1 as [body rest Hb Hrest|w rest Hw|q w rest Hq Hw|body rest Hb|d body rest Hd Hfirst].
  - cbn [app container_end]. change (starts ["-"; "-"]%char _) with true. rewrite drop2. destruct Hrest as [->|Hrest].
    + rewrite app_nil_r. by rewrite (proj2 (find_char_none _ _)).
    + destruct rest as [|c rest]; [done|]. injection Hrest as ->. by rewrite (proj2 (find_char _ _ (length body))) by eauto.
  - cbn [app container_end]. change (starts ["-"; "-"]%char _) with false. change (starts ["/"; "*"]%char _) with true. rewrite drop2.
    by rewrite block_end_complete.
  - cbn [app container_end]. rewrite Hq, (quote_end_complete q w rest Hw). by apply is_quote_cases in Hq as [->|[->| ->]].
  - cbn [app container_end]. change (starts ["-"; "-"]%char _) with false. change (starts ["/"; "*"]%char _) with false.
    change (is_quote "[") with false. change (Ascii.eqb "[" "[") with true. rewrite <-app_assoc.
    rewrite (proj2 (find_char _ _ (length body))) by eauto. cbn [length]. rewrite length_app. do 2 f_equal. simpl. lia.
  - rewrite <-!app_assoc. destruct (delimiter_head d Hd) as [t Ht]. pose proof (dollar_delimiter_complete d (body ++ d ++ rest) Hd) as E4.
    assert (∀ l, d ++ l = "$"%char :: t ++ l) as Hcons by (by intros l; rewrite Ht). rewrite Hcons in E4 |- *. unfold container_end.
    change (starts ["-"; "-"]%char _) with false. change (starts ["/"; "*"]%char _) with false.
    change (is_quote "$") with false. change (Ascii.eqb "$" "[") with false. rewrite E4, <-Hcons, drop_app_length.
    rewrite (proj2 (find_sub_iff _ _ (length body))); [rewrite !length_app; do 2 f_equal; lia|]. split; [by exists body, rest|].
    intros m (u & v & Huv & <-). destruct (decide (length body ≤ length u)) as [|Hlt]; [done|]. exfalso.
    assert (∃ v', body ++ d = u ++ d ++ v') as [v' Hv']; [|apply Hfirst in Hv'; lia].
    exists (take (length body - length u) v). rewrite app_assoc in Huv. apply (f_equal (take (length body + length d))) in Huv.
    rewrite take_app_le, take_ge in Huv by (rewrite length_app; lia). rewrite Huv, app_assoc, take_app, take_ge, <-app_assoc by (rewrite length_app; lia).
    do 3 f_equal. rewrite length_app. lia.
Qed.

Lemma container_length w r : container w r → 1 ≤ length w.
Proof. destruct 1; simpl; try lia. destruct (delimiter_head d) as [t ->]; [done|]. simpl. lia. Qed.

Lemma opens_none c l : opens (c :: l) = false ↔ container_end (c :: l) = Ok None.
Proof.
  unfold opens, container_end. cbn [head]. destruct (starts _ _); [done|]. destruct (starts _ _); cbn [orb].
  - by destruct (block_end _ _).
  - destruct (is_quote c); cbn [orb]; [by destruct (quote_end _ _)|]. destruct (Ascii.eqb c "["); cbn [orb]; [by destruct (find_sub _ _)|].
    destruct (dollar_delimiter _); [by destruct (find_sub _ _)|done].
Qed.

Lemma erase_skip k l : k ≤ length l → erase_from k l = (out ← erase_from 0 (drop k l); Ok (repeat " "%char k ++ out)).
Proof.
  revert k. induction l as [|c l IH]; intros k; [by destruct k; simpl; [|lia]|]. destruct k as [|k]; intros Hk; cbn [drop repeat app].
  - by destruct (erase_from 0 (c :: l)).
  - cbn [erase_from]. rewrite IH by (simpl in Hk; lia). by destruct (erase_from 0 (drop k l)).
Qed.

Lemma erase_container w l : container w l → erase_from 0 (w ++ l) = (out ← erase_from 0 l; Ok (repeat " "%char (length w) ++ out)).
Proof.
  intros Hc. pose proof (container_complete _ _ Hc) as E. pose proof (container_length _ _ Hc) as Hl.
  destruct w as [|c w]; [simpl in Hl; lia|]. cbn [app erase_from] in *. rewrite E. cbn [mbind result_bind length pred].
  rewrite erase_skip, drop_app_length by (rewrite length_app; lia). by destruct (erase_from 0 l).
Qed.

(** The walk is the reading of the statement as lexemes. *)
Lemma erase_lexes l out : erase_from 0 l = Ok out ↔ ∃ ls, lexes l ls ∧ out = concat (remains <$> ls).
Proof.
  split.
  - revert out. induction l as [l IH] using (induction_ltof1 _ (@length ascii)). unfold ltof in IH. intros out.
    destruct l as [|c l]; [intros [= <-]; exists []; split; [constructor|done]|]. intros H. pose proof H as H0. cbn [erase_from] in H.
    destruct (container_end (c :: l)) as [[n|]|] eqn:E; [| |done].
    + apply container_sound in E as (w & r & Hl & <- & Hw). rewrite Hl, (erase_container _ _ Hw) in H0.
      destruct (erase_from 0 r) as [out'|] eqn:Er; [|done]. injection H0 as <-.
      apply IH in Er as (ls & Hls & ->); [|rewrite Hl, length_app; apply container_length in Hw; lia].
      exists ((false, w) :: ls). rewrite Hl. split; [by constructor|done].
    + cbn [mbind result_bind] in H. destruct (erase_from 0 l) as [out'|] eqn:Er; [|done]. injection H as <-.
      apply IH in Er as (ls & Hls & ->); [|simpl; lia]. exists ((true, [c]) :: ls). split; [constructor; [by apply opens_none|done]|done].
  - intros (ls & Hls & ->). induction Hls as [|c l ls Ho _ IH|w l ls Hw _ IH]; [done|..].
    + cbn [erase_from]. apply opens_none in Ho. rewrite Ho. cbn [mbind result_bind]. by rewrite IH.
    + by rewrite (erase_container _ _ Hw), IH.
Qed.

Lemma lexes_unique l ls ls' : lexes l ls → lexes l ls' → ls = ls'.
Proof.
  intros H. revert ls'. induction H as [|c l ls Ho _ IH|w l ls Hw _ IH]; intros ls' H'.
  - inversion H' as [| |w l0 ls0 Hw Hl0 E E2]; [done|]. apply container_length in Hw. destruct w; [simpl in Hw; lia|done].
  - inversion H' as [|c' l' ls0 Ho' Hls0|w l0 ls0 Hw Hls0 E E2]; subst; [by rewrite (IH ls0)|].
    apply opens_none in Ho. apply container_complete in Hw. rewrite E in Hw. congruence.
  - inversion H' as [E|c' l' ls0 Ho' Hls0 E|w' l0 ls0 Hw' Hls0 E E2].
    + pose proof (container_length _ _ Hw) as Hl. by destruct w; [simpl in Hl; lia|].
    + apply opens_none in Ho'. apply container_complete in Hw. rewrite <-E in Hw. congruence.
    + pose proof (container_complete _ _ Hw) as E1. pose proof (container_complete _ _ Hw') as E3. rewrite E, E1 in E3.
      injection E3 as E3. apply app_inj_1 in E as [-> ->]; [|done]. by rewrite (IH ls0).
Qed.

Lemma erased_length l out : erase_from 0 l = Ok out → length out = length l.
Proof.
  intros (ls & Hls & ->)%erase_lexes. induction Hls as [|c l ls _ _ IH|w l ls _ _ IH]; [done|rewrite fmap_cons; cbn; by rewrite IH|].
  rewrite fmap_cons. cbn [concat]. rewrite !length_app, IH. unfold remains. cbn [fst snd]. by rewrite repeat_length.
Qed.

(** *** The boundary *)

Lemma one_command_iff l : one_command l = true ↔ ∀ u v, l = u ++ ";"%char :: v → v = [].
Proof.
  induction l as [|c l IH]; [split; [intros _ [|] v E; discriminate|done]|]. cbn [one_command].
  destruct (Ascii.eqb_spec c ";") as [->|Hc].
  - split; [|intros H; by rewrite (H [] l eq_refl)]. intros Hl [|a u] v E; [injection E as <-; by destruct l|].
    destruct l; [|done]. destruct u; discriminate E.
  - rewrite IH. split; intros H; [|intros u v ->; by apply (H (c :: u))]. intros [|a u] v E; [by injection E|injection E as -> ->; by eapply H].
Qed.

(** The first identifier of a text: nothing before it could begin one, and
    nothing behind it could go on. *)
Definition leads l w : Prop :=
  ∃ u v, l = u ++ w ++ v ∧ Forall (λ c, ident_start c = false) u ∧ Forall (λ c, token_char c = true) w ∧
    (∀ c, head (w ++ v) = Some c → ident_start c = true) ∧ (∀ c, head v = Some c → token_char c = false).

Lemma ident_start_token c : token_char c = false → ident_start c = false.
Proof. unfold token_char, ident_char. by destruct (ident_start c). Qed.

Lemma drop_while_split {A} (p : A → bool) (l : list A) :
  ∃ u, l = u ++ drop_while p l ∧ Forall (λ c, p c = true) u ∧ (∀ c, head (drop_while p l) = Some c → p c = false).
Proof.
  induction l as [|x l (u & E & Hu & Hd)]; [by exists []|]. simpl. destruct (p x) eqn:Ex.
  - exists (x :: u). simpl. rewrite <-E. split_and!; [done|by constructor|done].
  - exists []. split_and!; [done..|]. by intros c [= <-].
Qed.

Lemma first_token_leads l : leads l (first_token l).
Proof.
  unfold first_token. destruct (drop_while_split (λ c, negb (ident_start c)) l) as (u & E & Hu & Hd).
  set (l' := drop_while _ l) in *. destruct (take_while_split token_char l') as [Hw Hs]. set (w := take_while token_char l') in *.
  exists u, (drop (length w) l'). split_and!; [by rewrite <-Hs| |done| |].
  - eapply Forall_impl; [exact Hu|]. intros c Hc. by apply negb_true_iff.
  - rewrite <-Hs. intros c Hc. by apply negb_false_iff, Hd.
  - subst w. clear. induction l' as [|x l' IH]; [done|]. simpl. destruct (token_char x) eqn:Ex; [exact IH|by intros c [= <-]].
Qed.

Lemma drop_while_app {A} (p : A → bool) u (v : list A) :
  Forall (λ x, p x = true) u → (∀ x, head v = Some x → p x = false) → drop_while p (u ++ v) = v.
Proof.
  intros Hu Hv. induction Hu as [|x u Hx _ IH]; simpl; [|by rewrite Hx, IH]. destruct v as [|x v]; [done|]. simpl. by rewrite (Hv x eq_refl).
Qed.

Lemma leads_unique l w : leads l w → w = first_token l.
Proof.
  intros (u & v & -> & Hu & Hw & Hs & Hv). unfold first_token. rewrite drop_while_app.
  - symmetry. by apply take_while_app.
  - eapply Forall_impl; [exact Hu|]. intros c Hc. by apply negb_true_iff.
  - intros c Hc. by apply negb_false_iff, Hs.
Qed.

Lemma container_err l e : container_end l = Err e → exn_cls e = ValueErr.
Proof. destruct l; [done|]. unfold container_end. repeat (split_match; try done); by intros [= <-]. Qed.

Lemma erase_err k l e : erase_from k l = Err e → exn_cls e = ValueErr.
Proof.
  revert k. induction l as [|c l IH]; intros k; [done|]. cbn [erase_from]. destruct k as [|k].
  - destruct (container_end (c :: l)) as [[n|]|e'] eqn:E; cbn [mbind result_bind].
    + destruct (erase_from (pred n) l) eqn:E2; [done|]. intros [= <-]. by eapply IH.
    + destruct (erase_from 0 l) eqn:E2; [done|]. intros [= <-]. by eapply IH.
    + intros [= <-]. by eapply container_err.
  - destruct (erase_from k l) eqn:E2; [done|]. intros [= <-]. by eapply IH.
Qed.

Section boundary.
Context (unicode_word : list ascii → bool).

(** No call of [load_extension] begins in the text. *)
Definition no_load_extension l : Prop :=
  ∀ u v, l = u ++ v → load_extension_here v = true → word_before unicode_word (reverse u) = true.

Lemma loads_extension_iff before l :
  loads_extension unicode_word before l = false ↔
  ∀ u v, l = u ++ v → load_extension_here v = true → word_before unicode_word (reverse u ++ before) = true.
Proof.
  revert before. induction l as [|c l IH]; intros before; simpl; rewrite orb_false_iff, andb_false_iff, negb_false_iff.
  - split; [|intros H; split; [|done]; destruct (load_extension_here []) eqn:E; [left; by apply (H [] [])|by right]].
    intros [[H|H] _] u v E Hv; symmetry in E; apply app_nil in E as [-> ->]; [done|congruence].
  - rewrite IH. split.
    + intros [H1 H2] [|a u] v E Hv; [cbn in E; subst v; destruct H1; [done|congruence]|]. injection E as <- ->.
      rewrite reverse_cons, <-app_assoc. by apply (H2 u v).
    + intros H. split.
      * destruct (load_extension_here (c :: l)) eqn:E; [left; by apply (H [] (c :: l))|by right].
      * intros u v -> Hv. specialize (H (c :: u) v eq_refl Hv). by rewrite reverse_cons, <-app_assoc in H.
Qed.

Lemma validate_unfold statement :
  validate_statement_boundary unicode_word statement =
    (out ← erase_from 0 (chars statement);
     let executable := chars (str_strip (of_chars out)) in
     let keyword := upper (of_chars (first_token executable)) in
     _ ← fail_if (bool_decide (executable = [])) ValueErr "migration statement contains no executable SQL";
     _ ← fail_if (negb (one_command executable)) ValueErr "migration statements must contain exactly one SQL command";
     _ ← fail_if (bool_decide (keyword ∈ TRANSACTION_CONTROL_KEYWORDS)) ValueErr "migration may not control its transaction";
     _ ← fail_if (bool_decide (keyword ∈ FORBIDDEN_MIGRATION_KEYWORDS)) ValueErr ("migration command is not allowed: " +:+ keyword);
     fail_if (loads_extension unicode_word [] executable) ValueErr "migration may not load SQLite extensions").
Proof. unfold validate_statement_boundary, erase_sql_literals_and_comments. by destruct (erase_from 0 (chars statement)). Qed.

(** C9: The boundary check of a migration statement decides exactly this: the
    statement reads, in one way, as a sequence of comments, quoted forms, dollar
    quotes and single characters; blanked and stripped, what is left is not
    empty, has no semicolon except as its last character, begins with a word
    that controls no transaction and is none of the forbidden commands, and has no
    call of [load_extension].  Anything else is refused with a [ValueError].
    Blanking keeps the length and every character outside the containers. *)
Theorem boundary_exact statement :
  (validate_statement_boundary unicode_word statement = Ok tt ↔
   ∃ ls, lexes (chars statement) ls ∧ (∀ ls', lexes (chars statement) ls' → ls' = ls) ∧
     let left := concat (remains <$> ls) in
     let executable := chars (str_strip (of_chars left)) in
     length left = length (chars statement) ∧ executable ≠ [] ∧ (∀ u v, executable = u ++ ";"%char :: v → v = []) ∧
     (∃ w, leads executable w ∧
       (upper (of_chars w) ∉ TRANSACTION_CONTROL_KEYWORDS) ∧ (upper (of_chars w) ∉ FORBIDDEN_MIGRATION_KEYWORDS)) ∧
     no_load_extension executable) ∧
  ∀ e, validate_statement_boundary unicode_word statement = Err e → exn_cls e = ValueErr.
Proof.
  rewrite validate_unfold. destruct (erase_from 0 (chars statement)) as [out|e] eqn:E; cbn [mbind result_bind].
  - pose proof (erased_length _ _ E) as Hlen. apply erase_lexes in E as (ls & Hls & ->). set (ex := chars (str_strip _)).
    cbn zeta. fold ex.
    split; [|intros e H; repeat (apply fail_if_then_err in H as [?|H]; [done|]); destruct (loads_extension _ _ _) in H; [by injection H as <-|done]].
    rewrite !fail_if_then, fail_if_ok, negb_false_iff, one_command_iff, !bool_decide_eq_false, loads_extension_iff. split.
    + intros (H1 & H2 & H3 & H4 & H5). exists ls. cbn zeta. fold ex.
      split_and!; [done|by intros ls' Hls'; eapply lexes_unique|done..| |]; [by exists (first_token ex); split; [apply first_token_leads|]|].
      intros u v Huv Hv. rewrite <-(app_nil_r (reverse u)). by apply (H5 u v).
    + intros (ls' & Hls' & _ & H). rewrite (lexes_unique _ _ _ Hls' Hls) in H. cbn zeta in H. fold ex in H.
      destruct H as (_ & H1 & H2 & (w & Hw & H3 & H4) & H5). apply leads_unique in Hw as ->. split_and!; [done..|].
      intros u v Huv Hv. rewrite app_nil_r. by apply (H5 u v).
  - split; [|by intros e' [= <-]; apply erase_err in E]. split; [done|]. intros (ls & Hls & _).
    assert (erase_from 0 (chars statement) = Ok (concat (remains <$> ls))) as E' by (apply erase_lexes; eauto). congruence.
Qed.
End boundary.

Lemma boundary_exact_witness :
  (∃ e, validate_statement_boundary (λ _, false) "-- x" = Err e ∧ exn_cls e = ValueErr) ∧
  ∃ ls, lexes (chars "DROP TABLE [a;b];") ls.
Proof.
  split.
  - eexists. split; [vm_compute; reflexivity|]. apply (proj2 (boundary_exact (λ _, false) "-- x")). vm_compute. reflexivity.
  - destruct (proj1 (proj1 (boundary_exact (λ _, false) "DROP TABLE [a;b];")) ltac:(vm_compute; reflexivity)) as (ls & H & _).
    exists ls. exact H.
Defined.

(** The commented comment and the escaped quote hide a command from the check:
    SQLite ends a comment at its first end mark and a string at a quote that is
    not doubled. *)
Example nested_comment_hides : validate_statement_boundary (λ _, false) "/* /* */ COMMIT -- */ */ x" = Ok tt.
Proof. vm_compute. reflexivity. Qed.

Example backslash_hides : validate_statement_boundary (λ _, false) "SELECT '\'; COMMIT; --'" = Ok tt.
Proof. vm_compute. reflexivity. Qed.
End SqlLaws.
