(* ===== verification/Migrations.v ===== *)
(** * The migration runner (migrations.py: [Migration], [MigrationRunner])

    Migrations are applied in batches to an SQLite database that also holds a
    ledger of them.  The database is a ledger table, a table with the writer's
    lock row and the tables of everybody else, of type [D]; a connection sees the
    committed database and the transaction it has open.  Every call on the
    connection may fail at its place ([fault]); each process runs [apply] in two
    transactions, the batch and the evidence of its failure, and others may
    run in between.  Parameters: what a statement asks the authorizer
    ([accesses]) and does to the database ([run_sql]), the checksum of a
    statement list, the clock, the Unicode database. *)

From Stdlib Require Import Ascii ZArith Lia.
From stdpp Require Import base decidable numbers list strings sets.
From S2P Require Import Prelude PyData Regex SqlText.

Module Migrations.
Import SqlText.

Definition OWNER_PATTERN : re :=
  Seq (Chr is_lower) (Seq (Star (Chr (λ c, is_lower c || is_digit c)))
    (Star (Seq (Chr (one_of "-")) (Plus (Chr (λ c, is_lower c || is_digit c)))))).
Definition VERSION_PATTERN : re := Seq (Chr is_alnum) (Star (Chr (λ c, is_alnum c || one_of "._-" c))).
Definition LEDGER_TABLE : string := "plaik_migration_ledger".
Definition LOCK_TABLE : string := "plaik_migration_lock".

(** ** Migrations *)

Inductive MigrationStatus : Type := APPLYING | APPLIED | FAILED.

#[global] Instance status_eq_dec : EqDecision MigrationStatus.
Proof. solve_decision. Defined.

Record Migration : Type := NewMigration {
  m_owner : string;
  m_version : string;
  m_statements : list string;
  m_checksum : string;
}.

Definition key (m : Migration) : string * string := (m_owner m, m_version m).

(** [Migration(owner, version, statements)]. *)
Definition check_statement (unicode_word : list ascii → bool) (statement : string) : result unit :=
  _ ← fail_if (bool_decide (str_strip statement = "")) ValueErr "migration statements must be non-empty strings";
  validate_statement_boundary unicode_word statement.

Definition new_migration (unicode_word : list ascii → bool) (checksum_of : list string → string)
    (owner version : string) (statements : list string) : result Migration :=
  _ ← fail_if (negb (fullmatch OWNER_PATTERN owner)) ValueErr ("invalid migration owner: " +:+ owner);
  _ ← fail_if (negb (fullmatch VERSION_PATTERN version)) ValueErr ("invalid migration version: " +:+ version);
  _ ← fail_if (bool_decide (statements = [])) ValueErr "migration requires at least one SQL statement";
  _ ← fold_result (λ _, check_statement unicode_word) tt statements;
  Ok (NewMigration owner version statements (checksum_of statements)).

(** A row of the ledger, under its primary key (owner, version). *)
Record MigrationLedgerEntry : Type := Entry {
  e_checksum : string;
  e_status : MigrationStatus;
  e_started_at : string;
  e_finished_at : option string;
  e_error : option string;
}.

Abbreviation ledger_table := (dict (string * string) MigrationLedgerEntry).

(** ** The authorizer *)

(** What SQLite asks while it prepares a statement. *)
Inductive action : Type :=
| SQLITE_ATTACH | SQLITE_DETACH | SQLITE_PRAGMA | SQLITE_TRANSACTION | SQLITE_CREATE_VTABLE | SQLITE_DROP_VTABLE
| SQLITE_SAVEPOINT | SQLITE_FUNCTION | SQLITE_OTHER (code : Z).

#[global] Instance action_eq_dec : EqDecision action.
Proof. solve_decision. Defined.

Record access : Type := Access {
  a_action : action;
  argument_one : option string;
  argument_two : option string;
  database_name : option string;
}.

Definition denied_actions : list action :=
  [SQLITE_ATTACH; SQLITE_DETACH; SQLITE_PRAGMA; SQLITE_TRANSACTION; SQLITE_CREATE_VTABLE; SQLITE_DROP_VTABLE; SQLITE_SAVEPOINT].

(** [_sqlite_migration_authorizer]: is it [SQLITE_OK]? *)
Definition sqlite_migration_authorizer (a : access) : bool :=
  if bool_decide (a_action a ∈ denied_actions) then false
  else if match database_name a with None => false | Some d => negb (String.eqb d "main") end then false
  else if match argument_one a with Some t => String.eqb t LEDGER_TABLE || String.eqb t LOCK_TABLE | None => false end then false
  else if bool_decide (a_action a = SQLITE_FUNCTION) &&
          (String.eqb (casefold (or_default (argument_one a) "")) "load_extension" ||
           String.eqb (casefold (or_default (argument_two a) "")) "load_extension") then false
  else true.

(** ** The connection *)

(** The places at which a call on the connection is made. *)
Inductive point : Type :=
| PConnect | PConfigure | PCreateLedger | PCreateLock | PCommitSchema | PBegin | PInsertLock
| PRead (k : string * string) | PReadAgain (k : string * string) | PMark (k : string * string) | PMarkApplied (k : string * string)
| PUnlock | PCommit
| PRecordBegin | PRecordRead | PRecordWrite | PRecordUnlock | PRecordCommit | PSelect.

(** [str(error).lower()]; [lower] of the characters outside ASCII that have a
    lower case inside it. *)
Definition lower2 (a b : N) : option (list N) := if (a =? 196)%N && (b =? 176)%N then Some [105; 204; 135]%N else None.
Definition lower3 (a b c : N) : option (list N) := if (a =? 226)%N && (b =? 132)%N && (c =? 170)%N then Some [107]%N else None.
Definition lower (s : string) : string := of_chars (case_map lower_char lower2 lower3 (chars s)).

Definition is_lock_error (e : exn) : bool :=
  let message := chars (lower (exn_msg e)) in
  match find_sub (chars "locked") message with
  | Some _ => true
  | None => match find_sub (chars "busy") message with Some _ => true | None => false end
  end.

Section runner.
Context {D : Type}.

Record db : Type := Db { ledger : option ledger_table; locks : option (list (string * string)); data : D }.

(** The connection with the local variables of [apply]. *)
Record world : Type := World {
  committed : db;
  txn : option db;
  current : option Migration;
  current_started : option string;
  applied : list (string * string);
  skipped : list (string * string);
}.

Definition with_txn (t : option db) (w : world) : world :=
  World (committed w) t (current w) (current_started w) (applied w) (skipped w).
Definition with_committed (d : db) (w : world) : world :=
  World d (txn w) (current w) (current_started w) (applied w) (skipped w).
Definition with_current (m : Migration) (w : world) : world :=
  World (committed w) (txn w) (Some m) (current_started w) (applied w) (skipped w).
Definition with_started (t : string) (w : world) : world :=
  World (committed w) (txn w) (current w) (Some t) (applied w) (skipped w).
Definition add_applied (k : string * string) (w : world) : world :=
  World (committed w) (txn w) (current w) (current_started w) (applied w ++ [k]) (skipped w).
Definition add_skipped (k : string * string) (w : world) : world :=
  World (committed w) (txn w) (current w) (current_started w) (applied w) (skipped w ++ [k]).

Definition with_ledger (l : ledger_table) (d : db) : db := Db (Some l) (locks d) (data d).
Definition with_locks (l : list (string * string)) (d : db) : db := Db (ledger d) (Some l) (data d).
Definition with_data (x : D) (d : db) : db := Db (ledger d) (locks d) x.

(** What the connection sees: its transaction, else what is committed. *)
Definition visible (w : world) : db := match txn w with Some d => d | None => committed w end.
Definition write (f : db → db) (w : world) : world :=
  match txn w with Some d => with_txn (Some (f d)) w | None => with_committed (f (committed w)) w end.

Context (accesses : string → db → list access) (run_sql : string → db → result db) (authorizes : bool)
  (fault : point → option exn) (clock : point → string).

Definition db_call {A} (p : point) (m : M world A) : M world A :=
  match fault p with Some e => lift (Err e) | None => m end.

Definition rollback : M world unit := modify_st (with_txn None).
Definition commit (p : point) : M world unit := db_call p (modify_st (λ w, with_txn None (with_committed (visible w) w))).
Definition begin_immediate (p : point) : M world unit :=
  db_call p (w ← get_st;
    match txn w with
    | Some _ => raise ForeignExc "cannot start a transaction within a transaction"
    | None => put_st (with_txn (Some (committed w)) w)
    end).

Definition ledger_rows : M world ledger_table :=
  w ← get_st;
  match ledger (visible w) with Some l => mret l | None => raise ForeignExc "no such table" end.

(** [_initialize_schema]. *)
Definition initialize_schema : M world unit :=
  try_except
    (_ ← db_call PCreateLedger (modify_st (write (λ d, Db (Some (or_default (ledger d) [])) (locks d) (data d))));
     _ ← db_call PCreateLock (modify_st (write (λ d, Db (ledger d) (Some (or_default (locks d) [])) (data d))));
     commit PCommitSchema)
    (λ e, Some (_ ← rollback; lift (Err e))).

(** [_begin_locked]. *)
Definition insert_lock (holder : string) : M world unit :=
  w ← get_st;
  match locks (visible w) with
  | None => raise ForeignExc "no such table"
  | Some (_ :: _) => raise SqlIntegrityErr "UNIQUE constraint failed"
  | Some [] => modify_st (write (with_locks [(holder, clock PInsertLock)]))
  end.

Definition begin_locked (holder : string) : M world unit :=
  try_except (_ ← begin_immediate PBegin; db_call PInsertLock (insert_lock holder))
    (λ e, Some (_ ← rollback;
      if is_lock_error e || exn_isa (exn_cls e) SqlIntegrityErr then raise MigrationLockError "migration lock is already held"
      else lift (Err e))).

(** [_entry]. *)
Definition entry (p : point) (m : Migration) : M world (option MigrationLedgerEntry) :=
  db_call p (l ← ledger_rows; mret (dict_get l (key m))).

Definition put_row (k : string * string) (e : MigrationLedgerEntry) : M world unit :=
  l ← ledger_rows; modify_st (write (with_ledger (dict_set l k e))).

(** [_mark_applying] and [_mark_applied]. *)
Definition mark_applying (m : Migration) (started_at : string) : M world unit :=
  existing ← entry (PReadAgain (key m)) m;
  db_call (PMark (key m))
    (match existing with
     | None => put_row (key m) (Entry (m_checksum m) APPLYING started_at None None)
     | Some e => put_row (key m) (Entry (e_checksum e) APPLYING started_at None None)
     end).

Definition mark_applied (m : Migration) (finished_at : string) : M world unit :=
  db_call (PMarkApplied (key m))
    (l ← ledger_rows;
     match dict_get l (key m) with
     | None => mret tt
     | Some e => put_row (key m) (Entry (e_checksum e) APPLIED (e_started_at e) (Some finished_at) None)
     end).

(** [_execute_migration_statement]. *)
Definition execute_migration_statement (statement : string) : M world unit :=
  if negb authorizes then raise MigrationError "reference migration connection does not support SQLite authorization"
  else
    w ← get_st;
    if forallb sqlite_migration_authorizer (accesses statement (visible w)) then
      d ← lift (run_sql statement (visible w)); modify_st (write (λ _, d))
    else raise ForeignExc "not authorized".

Fixpoint execute_all (statements : list string) : M world unit :=
  match statements with
  | [] => mret tt
  | s :: statements => _ ← execute_migration_statement s; execute_all statements
  end.

(** The body of the loop over the batch. *)
Definition apply_one (m : Migration) : M world unit :=
  _ ← modify_st (with_started (clock (PMark (key m))));
  _ ← mark_applying m (clock (PMark (key m)));
  _ ← execute_all (m_statements m);
  _ ← mark_applied m (clock (PMarkApplied (key m)));
  modify_st (add_applied (key m)).

Definition apply_step (m : Migration) : M world unit :=
  _ ← modify_st (with_current m);
  existing ← entry (PRead (key m)) m;
  match existing with
  | None => apply_one m
  | Some e =>
      _ ← raise_if (bool_decide (e_checksum e ≠ m_checksum m)) MigrationChecksumError "checksum mismatch";
      match e_status e with
      | APPLIED => modify_st (add_skipped (key m))
      | APPLYING => raise MigrationStateError "migration is unexpectedly still applying"
      | FAILED => apply_one m
      end
  end.

Fixpoint apply_each (batch : list Migration) : M world unit :=
  match batch with
  | [] => mret tt
  | m :: batch => _ ← apply_step m; apply_each batch
  end.

Definition unlock (holder : string) : M world unit :=
  modify_st (write (λ d, Db (ledger d) (List.filter (λ r, negb (String.eqb r.1 holder)) <$> locks d) (data d))).

(** What the first transaction of [apply] leads to: it is over, or a failure is
    to be recorded. *)
Inductive outcome : Type :=
| Over (r : result (list (string * string) * list (string * string)))
| Failing (m : Migration) (started_at : string) (error : exn).

Definition transaction (batch : list Migration) (holder : string) : M world unit :=
  _ ← apply_each batch;
  _ ← db_call PUnlock (unlock holder);
  commit PCommit.

Definition batch_section (batch : list Migration) (holder : string) (w : world) : outcome * world :=
  match transaction batch holder w with
  | (Ok _, w) => (Over (Ok (applied w, skipped w)), w)
  | (Err e, w) =>
      let w := with_txn None w in
      if exn_in e [MigrationChecksumError; MigrationStateError] then (Over (Err e), w)
      else match current w with
           | None => (Over (fail MigrationError "migration batch failed before applying a step"), w)
           | Some m => (Failing m (or_default (current_started w) (clock PRecordRead)) e, w)
           end
  end.

Definition has_duplicates (batch : list Migration) : bool := negb (bool_decide (NoDup (key <$> batch))).

(** Up to the batch: [_validate_batch], the connection, the schema, the lock. *)
Definition opening (batch : list Migration) (holder : string) : M world unit :=
  _ ← raise_if (has_duplicates batch) ValueErr "migration batch contains duplicate owner/version keys";
  _ ← db_call PConnect (mret tt);
  _ ← db_call PConfigure (mret tt);
  _ ← try_except initialize_schema
        (λ e, Some (if is_lock_error e then raise MigrationLockError "migration database is locked" else lift (Err e)));
  begin_locked holder.

(** The first transaction, on a new connection to what is committed. *)
Definition apply_section (batch : list Migration) (holder : string) (c : db) : outcome * db :=
  let '(o, w) :=
    match opening batch holder (World c None None None [] []) with
    | (Ok _, w) => batch_section batch holder w
    | (Err e, w) => (Over (Err e), w)
    end in
  (o, committed w).

(** [_record_failure]: the evidence, unless the migration was applied meanwhile. *)
Definition record_failure (m : Migration) (started_at safe_error : string) : M world bool :=
  try_except
    (_ ← begin_immediate PRecordBegin;
     existing ← entry PRecordRead m;
     if match existing with Some e => bool_decide (e_status e = APPLIED) | None => false end then
       _ ← rollback; mret false
     else
       _ ← db_call PRecordWrite
             (put_row (key m) (Entry (m_checksum m) FAILED started_at (Some (clock PRecordWrite)) (Some safe_error)));
       _ ← db_call PRecordUnlock (modify_st (write (with_locks [])));
       _ ← commit PRecordCommit;
       mret true)
    (λ _, Some (_ ← rollback; mret false)).

Definition record_section (m : Migration) (started_at safe_error : string) (c : db) : result (list (string * string) * list (string * string)) * db :=
  let '(r, w) := record_failure m started_at safe_error (World c None None None [] []) in
  (fail MigrationApplyError
     ("migration failed; failure evidence recorded=" +:+ match r with Ok true => "True" | _ => "False" end), committed w).

(** [apply], with what other processes commit between its transactions. *)
Definition apply (safe_error_of : exn → string) (others : db → db) (batch : list Migration) (holder : string) (c : db) :
    result (list (string * string) * list (string * string)) * db :=
  match apply_section batch holder c with
  | (Over r, c) => (r, c)
  | (Failing m started_at e, c) => record_section m started_at (safe_error_of e) (others c)
  end.

(** [ledger]. *)
Definition read_ledger (c : db) : result (list ((string * string) * MigrationLedgerEntry)) * db :=
  let '(r, w) :=
    (_ ← db_call PConnect (mret tt);
     _ ← db_call PConfigure (mret tt);
     _ ← initialize_schema;
     db_call PSelect (l ← ledger_rows; mret (sort_by fst l))) (World c None None None [] []) in
  (r, committed w).
End runner.
End Migrations.

(** ** Laws *)

Module MigrationLaws.
Import SqlText Migrations.

Section laws.
Context {D : Type} (accesses : string → @db D → list access) (run_sql : string → @db D → result (@db D))
  (exec : string → D → result D).

(** An access names neither table of the runner, in either argument: SQLite passes the table as argument two when an index or a
    trigger is made or a table altered, and as argument one otherwise. *)
Definition names_runner (a : access) : Prop :=
  argument_one a = Some LEDGER_TABLE ∨ argument_one a = Some LOCK_TABLE ∨ argument_two a = Some LEDGER_TABLE ∨ argument_two a = Some LOCK_TABLE.
Definition harmless (a : access) : Prop := (a_action a ∉ denied_actions) ∧ ¬ names_runner a.

(** A statement whose accesses are no more than that works on the other tables alone, while the runner's tables are there. *)
Hypothesis sqlite_asks : ∀ s d, is_Some (ledger d) → is_Some (locks d) → Forall harmless (accesses s d) →
  run_sql s d = (x ← exec s (data d); Ok (with_data x d)).

Implicit Types (w : @world D) (d c : @db D) (m : Migration).

(** The authorizer looks at argument one only.  A statement is tame if what gets past it has no table of the runner as argument two;
    nothing in the code asks for that. *)
Definition tame (s : string) : Prop := ∀ d a, forallb sqlite_migration_authorizer (accesses s d) = true → a ∈ accesses s d →
  argument_two a ≠ Some LEDGER_TABLE ∧ argument_two a ≠ Some LOCK_TABLE.
Definition tame_batch (batch : list Migration) : Prop := ∀ m s, m ∈ batch → s ∈ m_statements m → tame s.

Lemma authorized_harmless s d :
  tame s → forallb sqlite_migration_authorizer (accesses s d) = true → Forall harmless (accesses s d).
Proof.
  intros Ht Hall. apply Forall_forall. intros a Ha. destruct (Ht d a Hall Ha) as [Hl Hk]. pose proof Hall as H. rewrite forallb_forall in H. specialize (H a (proj1 (list_elem_of_In _ _) Ha)).
  unfold sqlite_migration_authorizer in H. destruct (bool_decide (a_action a ∈ denied_actions)) eqn:E1; [done|].
  destruct (match database_name a with None => false | Some _ => _ end); [done|].
  destruct (match argument_one a with Some _ => _ | None => false end) eqn:E2; [done|]. apply bool_decide_eq_false in E1.
  split; [done|]. intros [E|[E|[E|E]]]; [rewrite E in E2..|done|done].
  - by rewrite String.eqb_refl in E2.
  - by rewrite String.eqb_refl, orb_true_r in E2.
Qed.

(** *** Content of a database *)

Definition rows d : ledger_table := or_default (ledger d) [].
Definition lock_rows d : list (string * string) := or_default (locks d) [].

(** The statements of a log of migrations, one after the other. *)
Definition replay_one (x : D) (m : Migration) : result D := fold_result (λ x s, exec s x) x (m_statements m).
Definition replay (log : list Migration) (x : D) : result D := fold_result replay_one x log.

Definition applied_row (m : Migration) d : Prop :=
  ∃ e, dict_get (rows d) (key m) = Some e ∧ e_status e = APPLIED ∧ e_checksum e = m_checksum m.

(** The ledger tells the truth about a log of migrations. *)
Record ledger_true (x0 : D) (log : list Migration) d : Prop := {
  lt_wf : dict_wf (rows d);
  lt_once : NoDup (key <$> log);
  lt_data : replay log x0 = Ok (data d);
  lt_rows : ∀ k e, dict_get (rows d) k = Some e →
    e_status e ≠ APPLYING ∧ (e_status e = APPLIED → ∃ m, m ∈ log ∧ key m = k ∧ e_checksum e = m_checksum m);
  lt_log : ∀ m, m ∈ log → applied_row m d;
}.

(** *** Calls inside the transaction *)

Definition inside c w : Prop := committed w = c ∧ is_Some (txn w).

Lemma db_call_ok {A} fault p (m : M world A) w a w' : db_call (D := D) fault p m w = (Ok a, w') → m w = (Ok a, w').
Proof. unfold db_call. by destruct (fault p). Qed.

Lemma preserves_db_call {A} (I : @world D → Prop) fault p (m : M world A) : preserves I m → preserves I (db_call fault p m).
Proof. unfold db_call. destruct (fault p); [intros _; apply preserves_lift|done]. Qed.

Lemma inside_write c (f : @db D → @db D) : preserves (inside c) (modify_st (write f)).
Proof. intros w [Hc [d Hd]]. split; unfold post, write; cbn; rewrite Hd; [done|by eexists]. Qed.

Lemma inside_rows c : preserves (inside c) ledger_rows.
Proof. intros w H. unfold ledger_rows, post. rewrite run_bind_get. destruct (ledger (visible w)); exact H. Qed.

Lemma inside_get {A} c (k : @world D → M world A) : (∀ w, preserves (inside c) (k w)) → preserves (inside c) (get_st ≫= k).
Proof. intros H w Hw. by apply H. Qed.

Lemma inside_read c fault p m : preserves (inside c) (entry (D := D) fault p m).
Proof. apply preserves_db_call, preserves_bind; [apply inside_rows|auto with preserves]. Qed.

Lemma inside_put c k e : preserves (inside c) (put_row (D := D) k e).
Proof. apply preserves_bind; [apply inside_rows|intros; apply inside_write]. Qed.

Lemma inside_exec c auth s : preserves (inside c) (execute_migration_statement accesses run_sql auth s).
Proof.
  unfold execute_migration_statement. destruct (negb auth); [apply preserves_raise|]. apply inside_get. intros w.
  destruct (forallb _ _); [|apply preserves_raise]. apply preserves_bind_lift. intros d _. apply inside_write.
Qed.

Lemma inside_modify c (f : @world D → @world D) :
  (∀ w, committed (f w) = committed w ∧ txn (f w) = txn w) → preserves (inside c) (modify_st f).
Proof. intros Hf w [Hc Ht]. destruct (Hf w) as [E1 E2]. unfold inside, post. cbn. by rewrite E1, E2. Qed.

Lemma inside_step c auth fault clock m : preserves (inside c) (apply_step accesses run_sql auth fault clock m).
Proof.
  assert (preserves (inside c) (apply_one accesses run_sql auth fault clock m)) as Hone.
  { unfold apply_one. apply preserves_bind; [by apply inside_modify|]. intros _. apply preserves_bind.
    { apply preserves_bind; [apply inside_read|]. intros [e|]; apply preserves_db_call, inside_put. }
    intros _. apply preserves_bind.
    { induction (m_statements m) as [|s l IH]; [apply preserves_ret|]. apply preserves_bind; [apply inside_exec|done]. }
    intros _. apply preserves_bind; [|intros _; by apply inside_modify].
    apply preserves_db_call, preserves_bind; [apply inside_rows|]. intros l. destruct (dict_get l _); [apply inside_put|apply preserves_ret]. }
  apply preserves_bind; [by apply inside_modify|]. intros _. apply preserves_bind; [apply inside_read|]. intros [e|]; [|done].
  apply preserves_bind; [apply preserves_lift|]. intros _. destruct (e_status e); [apply preserves_raise|by apply inside_modify|done].
Qed.

Lemma inside_each c auth fault clock batch : preserves (inside c) (apply_each accesses run_sql auth fault clock batch).
Proof. induction batch as [|m batch IH]; [apply preserves_ret|]. apply preserves_bind; [apply inside_step|done]. Qed.

(** *** What a step that succeeds does *)

Lemma ledger_rows_ok w l w' : ledger_rows w = (Ok l, w') → w' = w ∧ ledger (visible w) = Some l ∧ l = rows (visible w).
Proof. unfold ledger_rows, rows. rewrite run_bind_get. destruct (ledger (visible w)); [|done]. by intros [= -> ->]. Qed.

Lemma entry_ok fault p m w o w' : entry (D := D) fault p m w = (Ok o, w') → w' = w ∧ o = dict_get (rows (visible w)) (key m).
Proof. intros (l & w1 & (-> & _ & ->)%ledger_rows_ok & [= <- <-])%db_call_ok%run_bind_ok_inv. done. Qed.

(** The transaction after rows and data have been written to it. *)
Definition set_row (k : string * string) (e : MigrationLedgerEntry) d : @db D := with_ledger (dict_set (rows d) k e) d.

Lemma put_row_ok k e w u w' d : txn w = Some d → put_row k e w = (Ok u, w') → w' = with_txn (Some (set_row k e d)) w.
Proof.
  intros Hd. unfold put_row. intros (l & w1 & (-> & _ & ->)%ledger_rows_ok & H)%run_bind_ok_inv.
  assert (visible w = d) as Hv by (unfold visible; by rewrite Hd). rewrite Hv in H. injection H as _ <-. unfold write. by rewrite Hd.
Qed.

Lemma exec_all_ok auth l w u w' d :
  (∀ s, s ∈ l → tame s) → is_Some (ledger d) → is_Some (locks d) → txn w = Some d → execute_all accesses run_sql auth l w = (Ok u, w') →
  ∃ x, fold_result (λ x s, exec s x) (data d) l = Ok x ∧ w' = with_txn (Some (with_data x d)) w.
Proof.
  revert w d. induction l as [|s l IH]; intros w d Htame Hled Hlock Hd.
  - intros [= _ <-]. exists (data d). split; [done|]. by destruct w, d; simpl in Hd; subst.
  - cbn [execute_all]. intros (u1 & w1 & H1 & H2)%run_bind_ok_inv. unfold execute_migration_statement in H1.
    destruct (negb auth); [done|]. rewrite run_bind_get in H1. assert (visible w = d) as Hv by (unfold visible; by rewrite Hd).
    rewrite Hv in H1. destruct (forallb _ _) eqn:Ea; [|done]. apply authorized_harmless in Ea; [|apply Htame; by left].
    rewrite run_bind_lift, (sqlite_asks s d Hled Hlock Ea) in H1. destruct (exec s (data d)) as [x1|] eqn:E1; [|done].
    injection H1 as _ <-. unfold write in H2. rewrite Hd in H2. apply (IH _ (with_data x1 d)) in H2 as (x & Hx & ->); [|intros s' Hs'; apply Htame; by right|done..].
    exists x. cbn [fold_result]. rewrite E1. split; [done|]. by destruct w, d.
Qed.

Lemma visible_txn w d : txn w = Some d → visible w = d.
Proof. unfold visible. by intros ->. Qed.

Lemma apply_one_ok auth fault clock m w u w' d :
  (∀ s, s ∈ m_statements m → tame s) → is_Some (locks d) →
  txn w = Some d → (∀ e, dict_get (rows d) (key m) = Some e → e_checksum e = m_checksum m) →
  apply_one accesses run_sql auth fault clock m w = (Ok u, w') →
  ∃ x e1 e2 w1, replay_one (data d) m = Ok x ∧ e_status e2 = APPLIED ∧ e_checksum e2 = m_checksum m ∧
    w' = add_applied (key m) (with_txn (Some (with_data x (set_row (key m) e2 (set_row (key m) e1 d)))) w1) ∧
    committed w1 = committed w ∧ applied w1 = applied w ∧ skipped w1 = skipped w.
Proof.
  intros Htame Hlock Hd Hsum. unfold apply_one. set (now := clock (PMark (key m))).
  intros (u1 & w1 & [= <- <-] & H)%run_bind_ok_inv. set (w1 := with_started now w) in *.
  assert (txn w1 = Some d) as Hd1 by (by destruct w).
  apply run_bind_ok_inv in H as (u2 & w2 & H & H3). unfold mark_applying in H.
  apply run_bind_ok_inv in H as (o & w1' & (-> & ->)%entry_ok & H2%db_call_ok). rewrite (visible_txn _ _ Hd1) in H2.
  set (e1 := Entry (m_checksum m) APPLYING now None None).
  assert (w2 = with_txn (Some (set_row (key m) e1 d)) w1) as ->.
  { destruct (dict_get (rows d) (key m)) as [e|] eqn:Ee; [rewrite (Hsum e eq_refl) in H2|]; by eapply put_row_ok in H2. }
  apply run_bind_ok_inv in H3 as (u3 & w3 & H3 & H4). apply (exec_all_ok _ _ _ _ _ (set_row (key m) e1 d)) in H3 as (x & Hx & ->); [|exact Htame|by eexists|exact Hlock|done].
  apply run_bind_ok_inv in H4 as (u4 & w4 & H4%db_call_ok & [= _ <-]).
  apply run_bind_ok_inv in H4 as (l & w3 & (-> & _ & ->)%ledger_rows_ok & H4). erewrite visible_txn in H4 by done.
  unfold rows in H4. cbn [ledger with_data set_row with_ledger or_default] in H4. rewrite dict_get_set_eq in H4.
  eapply put_row_ok in H4; [|done].
  exists x, e1, (Entry (m_checksum m) APPLIED now (Some (clock (PMarkApplied (key m)))) None), w1. rewrite H4.
  split_and!; [exact Hx|done..].
Qed.

Lemma rows_set k e d : rows (set_row k e d) = dict_set (rows d) k e.
Proof. done. Qed.

(** The log grows by a migration that was not applied yet. *)
Lemma ledger_true_snoc x0 log d m x e1 e2 :
  ledger_true x0 log d → (∀ e, dict_get (rows d) (key m) = Some e → e_status e ≠ APPLIED) →
  replay_one (data d) m = Ok x → e_status e2 = APPLIED → e_checksum e2 = m_checksum m →
  ledger_true x0 (log ++ [m]) (with_data x (set_row (key m) e2 (set_row (key m) e1 d))).
Proof.
  intros [H1 H2 H3 H4 H5] Hfresh Hx Hs Hc. set (d' := with_data _ _).
  assert (∀ k, dict_get (rows d') k = if decide (key m = k) then Some e2 else dict_get (rows d) k) as Hrows.
  { intros k. change (rows d') with (dict_set (dict_set (rows d) (key m) e1) (key m) e2). rewrite !dict_get_set. by destruct (decide _). }
  assert (key m ∉ key <$> log) as Hnew.
  { intros (m' & Hk & Hm')%list_elem_of_fmap. destruct (H5 m' Hm') as (e & He & Ha & _). rewrite <-Hk in He. by apply (Hfresh e). }
  split.
  - change (dict_wf (dict_set (dict_set (rows d) (key m) e1) (key m) e2)). by apply dict_wf_set, dict_wf_set.
  - rewrite fmap_app. apply NoDup_app. split_and!; [done| |apply NoDup_singleton]. intros k Hk Hk'. apply list_elem_of_singleton in Hk' as ->. done.
  - unfold replay. rewrite fold_result_app. fold (replay log x0). rewrite H3. cbn [mbind result_bind fold_result data d' with_data]. by rewrite Hx.
  - intros k e. rewrite Hrows. destruct (decide (key m = k)) as [<-|Hne].
    + intros [= <-]. rewrite Hs. split; [done|]. intros _. exists m. split_and!; [|done|done]. apply elem_of_app. right. by apply list_elem_of_singleton.
    + intros He. destruct (H4 k e He) as [Ha Hm]. split; [done|]. intros Happ. destruct (Hm Happ) as (m' & Hm' & ? & ?).
      exists m'. split_and!; [apply elem_of_app; by left|done..].
  - intros m' [Hm'|Hm'%list_elem_of_singleton]%elem_of_app.
    + destruct (H5 m' Hm') as (e & He & Ha & Hce). exists e. rewrite Hrows, decide_False; [done|].
      intros Hk. apply Hnew. rewrite Hk. by apply list_elem_of_fmap_2.
    + subst m'. exists e2. rewrite Hrows. by rewrite decide_True.
Qed.

Lemma apply_step_ok x0 log auth fault clock m w u w' d :
  (∀ s, s ∈ m_statements m → tame s) → is_Some (locks d) →
  txn w = Some d → ledger_true x0 log d → apply_step accesses run_sql auth fault clock m w = (Ok u, w') →
  ∃ d', txn w' = Some d' ∧ committed w' = committed w ∧ locks d' = locks d ∧ applied_row m d' ∧
    ((d' = d ∧ applied w' = applied w ∧ skipped w' = skipped w ++ [key m]) ∨
     (ledger_true x0 (log ++ [m]) d' ∧ applied w' = applied w ++ [key m] ∧ skipped w' = skipped w)).
Proof.
  intros Htame Hlock Hd Hlog. unfold apply_step. intros (u1 & w1 & [= <- <-] & H)%run_bind_ok_inv. set (w1 := with_current m w) in *.
  assert (txn w1 = Some d) as Hd1 by (by destruct w).
  apply run_bind_ok_inv in H as (o & w2 & (-> & ->)%entry_ok & H). rewrite (visible_txn _ _ Hd1) in H.
  assert (∀ st, (∀ e, dict_get (rows d) (key m) = Some e → e_status e = st ∧ e_checksum e = m_checksum m) → st ≠ APPLIED →
    apply_one accesses run_sql auth fault clock m w1 = (Ok u, w') →
    ∃ d', txn w' = Some d' ∧ committed w' = committed w ∧ locks d' = locks d ∧ applied_row m d' ∧
      ((d' = d ∧ applied w' = applied w ∧ skipped w' = skipped w ++ [key m]) ∨
       (ledger_true x0 (log ++ [m]) d' ∧ applied w' = applied w ++ [key m] ∧ skipped w' = skipped w))) as Hone.
  { intros st Hst Hne Hrun.
    destruct (apply_one_ok auth fault clock m w1 u w' d Htame Hlock Hd1 (λ e He, proj2 (Hst e He)) Hrun) as (x & e1 & e2 & w3 & Hx & Hs & Hc & -> & Hcom & Happ & Hskip).
    assert (ledger_true x0 (log ++ [m]) (with_data x (set_row (key m) e2 (set_row (key m) e1 d)))) as Hnew.
    { apply ledger_true_snoc; try done. intros e He. destruct (Hst e He) as [-> _]. done. }
    eexists. split_and!; [done|exact Hcom|done| |right; split_and!; [exact Hnew|by cbn; rewrite Happ|exact Hskip]].
    apply (lt_log _ _ _ Hnew). apply elem_of_app. right. by apply list_elem_of_singleton. }
  destruct (dict_get (rows d) (key m)) as [e|] eqn:Ee; [|by apply (Hone FAILED)].
  unfold raise_if in H. rewrite run_bind_lift in H. destruct (fail_if _ _ _) eqn:Ef; [|done].
  apply fail_if_ok, bool_decide_eq_false in Ef. apply dec_stable in Ef.
  destruct (e_status e) eqn:Es; [done| |].
  - injection H as _ <-. exists d. split_and!; [done..|by exists e|]. left. by destruct w.
  - apply (Hone FAILED); [by intros e' [= <-]|done|done].
Qed.

Lemma applied_mono x0 log l d d' m : ledger_true x0 log d → ledger_true x0 (log ++ l) d' → applied_row m d → applied_row m d'.
Proof.
  intros Hd Hd' (e & He & Ha & Hc). destruct (lt_rows _ _ _ Hd _ _ He) as [_ Hm]. destruct (Hm Ha) as (m1 & Hm1 & Hk & Hc1).
  destruct (lt_log _ _ _ Hd' m1) as (e' & He' & Ha' & Hc'); [apply elem_of_app; by left|]. exists e'. rewrite <-Hk. split_and!; [done..|congruence].
Qed.

Lemma apply_each_ok x0 auth fault clock batch log w u w' d :
  tame_batch batch → is_Some (locks d) → txn w = Some d → ledger_true x0 log d → apply_each accesses run_sql auth fault clock batch w = (Ok u, w') →
  ∃ newly sk d', newly `sublist_of` batch ∧ txn w' = Some d' ∧ committed w' = committed w ∧ locks d' = locks d ∧
    ledger_true x0 (log ++ newly) d' ∧ applied w' = applied w ++ (key <$> newly) ∧ skipped w' = skipped w ++ sk ∧
    key <$> batch ≡ₚ (key <$> newly) ++ sk ∧ ∀ m, m ∈ batch → applied_row m d'.
Proof.
  revert w d log. induction batch as [|m batch IH]; intros w d log Htame Hlock Hd Hlog.
  - intros [= _ <-]. exists [], [], d. rewrite !app_nil_r. split_and!; [done..|]. by intros m ?%not_elem_of_nil.
  - intros (u1 & w1 & H1 & H2)%run_bind_ok_inv.
    assert (tame_batch batch) as Htb by (intros m' s Hm'; apply Htame; by right).
    assert (∀ s, s ∈ m_statements m → tame s) as Htm by (intros s; apply Htame; by left).
    destruct (apply_step_ok x0 log auth fault clock m w u1 w1 d Htm Hlock Hd Hlog H1) as (d1 & Hd1 & Hc1 & Hl1 & Hm1 & [(-> & Ha1 & Hs1)|(Hlog1 & Ha1 & Hs1)]).
    + destruct (IH w1 d log Htb Hlock Hd1 Hlog H2) as (newly & sk & d' & Hsub & Hd' & Hc' & Hl' & Hlog' & Ha' & Hs' & Hp & Hrows).
      exists newly, (key m :: sk), d'. split_and!; [by apply sublist_cons|done|congruence|done|done|congruence| | |].
      * by rewrite Hs', Hs1, <-app_assoc.
      * rewrite fmap_cons, Hp. by rewrite Permutation_middle.
      * intros m' [->|Hm']%elem_of_cons; [by apply (applied_mono x0 log newly d d')|by apply Hrows].
    + destruct (IH w1 d1 (log ++ [m]) Htb ltac:(by rewrite Hl1) Hd1 Hlog1 H2) as (newly & sk & d' & Hsub & Hd' & Hc' & Hl' & Hlog' & Ha' & Hs' & Hp & Hrows).
      rewrite <-app_assoc in Hlog'. cbn [app] in Hlog'.
      exists (m :: newly), sk, d'. split_and!; [by apply sublist_skip|done|congruence|congruence|done| |congruence| |].
      * by rewrite Ha', Ha1, <-app_assoc.
      * rewrite !fmap_cons, Hp. done.
      * intros m' [->|Hm']%elem_of_cons; [|by apply Hrows]. apply (lt_log _ _ _ Hlog'). apply elem_of_app. right. by left.
Qed.

(** *** The sections *)

(** Equal but for empty tables that were created. *)
Definition same c c' : Prop := rows c' = rows c ∧ lock_rows c' = lock_rows c ∧ data c' = data c.

Lemma ledger_true_same x0 log c c' : rows c' = rows c → data c' = data c → ledger_true x0 log c → ledger_true x0 log c'.
Proof.
  intros Hr Hdat [H1 H2 H3 H4 H5]. split; [by rewrite Hr|done|by rewrite Hdat|by rewrite Hr|].
  intros m Hm. destruct (H5 m Hm) as (e & He). exists e. by rewrite Hr.
Qed.

Abbreviation fresh c := (World (D := D) c None None None [] []).

Lemma schema_run fault c :
  ∃ r c1, initialize_schema fault (fresh c) = (r, fresh c1) ∧ same c c1 ∧
    (r = Ok tt → ledger c1 = Some (rows c) ∧ locks c1 = Some (lock_rows c)).
Proof.
  unfold initialize_schema, try_except, commit, db_call. rewrite run_bind. destruct (fault PCreateLedger) as [e|].
  { exists (Err e), c. by split_and!. }
  cbn [modify_st fst snd]. rewrite run_bind. destruct (fault PCreateLock) as [e|].
  { eexists (Err e), _. split; [reflexivity|]. by split_and!. }
  cbn [modify_st fst snd]. destruct (fault PCommitSchema) as [e|].
  { eexists (Err e), _. split; [reflexivity|]. by split_and!. }
  eexists (Ok tt), _. split; [reflexivity|]. by split_and!.
Qed.

Lemma begin_locked_run fault clock holder c :
  ledger c = Some (rows c) → locks c = Some (lock_rows c) →
  begin_locked fault clock holder (fresh c) =
    (Ok tt, World c (Some (with_locks [(holder, clock PInsertLock)] c)) None None [] []) ∧ lock_rows c = [] ∨
  ∃ e, begin_locked fault clock holder (fresh c) = (Err e, fresh c).
Proof.
  intros _ Hl. unfold begin_locked, try_except, begin_immediate, db_call. rewrite run_bind. destruct (fault PBegin) as [e|].
  { right. cbn. destruct (is_lock_error e || _); by eexists. }
  rewrite run_bind_get. cbn [txn put_st with_txn fst snd]. destruct (fault PInsertLock) as [e|].
  { right. cbn. destruct (is_lock_error e || _); by eexists. }
  unfold insert_lock. rewrite run_bind_get. cbn [visible with_txn txn committed current current_started applied skipped].
  rewrite Hl.
  destruct (lock_rows c) as [|r l]; [by left|right]. cbn. destruct (is_lock_error _ || _); by eexists.
Qed.

Lemma opening_run fault clock batch holder c r w :
  opening fault clock batch holder (fresh c) = (r, w) →
  same c (committed w) ∧
  (is_ok r = true → txn w = Some (with_locks [(holder, clock PInsertLock)] (committed w)) ∧ applied w = [] ∧ skipped w = [] ∧
     NoDup (key <$> batch)).
Proof.
  unfold opening, raise_if. rewrite run_bind_lift. destruct (fail_if _ _ _) eqn:Ef; [|by intros [= <- <-]].
  apply fail_if_ok, negb_false_iff, bool_decide_eq_true in Ef.
  rewrite run_bind. unfold db_call at 1. destruct (fault PConnect); [by intros [= <- <-]|]. cbn [mret M_ret].
  rewrite run_bind. unfold db_call at 1. destruct (fault PConfigure); [by intros [= <- <-]|]. cbn [mret M_ret].
  rewrite run_bind. unfold try_except. destruct (schema_run fault c) as (r0 & c1 & -> & Hsame & Hok).
  destruct r0 as [[]|e]; [|destruct (is_lock_error e); by intros [= <- <-]]. destruct (Hok eq_refl) as [Hl Hk].
  destruct Hsame as (H1 & H2 & H3). rewrite <-H1 in Hl. rewrite <-H2 in Hk.
  destruct (begin_locked_run fault clock holder c1 Hl Hk) as [[-> Hno]|[e ->]]; intros [= <- <-]; by split_and!.
Qed.

Lemma transaction_run x0 log auth fault clock batch holder t w r w' d : tame_batch batch →
  txn w = Some (with_locks [(holder, t)] d) → committed w = d → ledger_true x0 log d → lock_rows d = [] → applied w = [] → skipped w = [] →
  transaction accesses run_sql auth fault clock batch holder w = (r, w') →
  match r with
  | Err _ => committed w' = d
  | Ok _ => ∃ newly, newly `sublist_of` batch ∧ ledger_true x0 (log ++ newly) (committed w') ∧ lock_rows (committed w') = [] ∧
      applied w' = key <$> newly ∧ key <$> batch ≡ₚ applied w' ++ skipped w' ∧ ∀ m, m ∈ batch → applied_row m (committed w')
  end.
Proof.
  intros Htame Ht Hc Hlog Hnl Ha Hs. unfold transaction. rewrite run_bind.
  pose proof (inside_each d auth fault clock batch w) as Hin. unfold post in Hin.
  destruct (apply_each accesses run_sql auth fault clock batch w) as [[u|e] w1] eqn:E; cbn [snd] in Hin;
    [|intros [= <- <-]; apply Hin; by split; [|eexists]].
  assert (ledger_true x0 log (with_locks [(holder, t)] d)) as Hlog1 by (by eapply ledger_true_same; [..|exact Hlog]).
  destruct (apply_each_ok x0 auth fault clock batch log w u w1 (with_locks [(holder, t)] d) Htame ltac:(by eexists) Ht Hlog1 E) as (newly & sk & d' & Hsub & Hd' & Hc' & Hl' & Hlog' & Ha' & Hs' & Hp & Hrows).
  rewrite run_bind. unfold db_call. destruct (fault PUnlock); [by intros [= <- <-]; congruence|]. cbn [unlock modify_st fst snd].
  unfold commit, db_call. destruct (fault PCommit); [intros [= <- <-]; unfold write; rewrite Hd'; cbn; congruence|]. intros [= <- <-].
  unfold write. rewrite Hd'. cbn [visible with_txn txn with_committed committed applied skipped].
  exists newly. rewrite Ha', Hs', Ha, Hs. cbn [app]. split_and!; [done| | |done|done|].
  - by eapply ledger_true_same; [..|exact Hlog'].
  - unfold lock_rows. cbn [locks]. rewrite Hl'. cbn. by rewrite String.eqb_refl.
  - intros m Hm. destruct (Hrows m Hm) as (e & He). by exists e.
Qed.

(** What a run of the first transaction means for the log. *)
Definition applies (x0 : D) (log : list Migration) (batch : list Migration) (o : outcome) c c' : Prop :=
  match o with
  | Over (Ok (a, sk)) => ∃ newly, newly `sublist_of` batch ∧ ledger_true x0 (log ++ newly) c' ∧ a = key <$> newly ∧
      key <$> batch ≡ₚ a ++ sk ∧ ∀ m, m ∈ batch → applied_row m c'
  | _ => same c c'
  end.

Lemma apply_section_run x0 log auth fault clock batch holder c o c' : tame_batch batch →
  ledger_true x0 log c → lock_rows c = [] → apply_section accesses run_sql auth fault clock batch holder c = (o, c') →
  applies x0 log batch o c c' ∧ lock_rows c' = [].
Proof.
  intros Htame Hlog Hnl. unfold apply_section. destruct (opening fault clock batch holder (fresh c)) as [r w] eqn:Eo.
  apply opening_run in Eo as [Hsame Hok]. destruct Hsame as (H1 & H2 & H3). destruct r as [u|e]; [|intros [= <- <-]; split; [done|congruence]].
  destruct (Hok eq_refl) as (Ht & Ha & Hs & _). unfold batch_section.
  destruct (transaction accesses run_sql auth fault clock batch holder w) as [r w'] eqn:Et.
  eapply (transaction_run x0 log) in Et; [|exact Htame|exact Ht|done|by eapply ledger_true_same; [..|exact Hlog]|congruence|done|done].
  destruct r as [u'|e].
  - intros [= <- <-]. destruct Et as (newly & Hsub & Hlog' & Hnl' & -> & Hp & Hrows). split; [|done]. exists newly. by split_and!.
  - intros H. assert (c' = committed w ∧ match o with Over (Ok _) => False | _ => True end) as [-> Ho].
    { rewrite <-Et. destruct (exn_in e _); [by injection H as <- <-|]. destruct (current _); by injection H as <- <-. }
    destruct o as [[[a sk]|]|]; [done|..]; split; (done || congruence).
Qed.

Lemma entry_run fault p m w d : txn w = Some d →
  entry fault p m w = (match fault p with
                       | Some e => Err e
                       | None => match ledger d with Some l => Ok (dict_get l (key m)) | None => fail ForeignExc "no such table" end
                       end, w).
Proof.
  intros Hd. unfold entry, db_call. destruct (fault p); [done|]. rewrite run_bind. unfold ledger_rows.
  rewrite run_bind_get, (visible_txn _ _ Hd). by destruct (ledger d).
Qed.

Lemma put_row_run k e w d l : txn w = Some d → ledger d = Some l → put_row k e w = (Ok tt, with_txn (Some (with_ledger (dict_set l k e) d)) w).
Proof.
  intros Hd Hl. unfold put_row. rewrite run_bind. unfold ledger_rows. rewrite run_bind_get, (visible_txn _ _ Hd), Hl.
  unfold write, modify_st. cbn [mret M_ret]. by rewrite Hd.
Qed.

(** The evidence is one row, where the migration is not applied. *)
Lemma record_failure_run fault clock m st err c :
  committed (record_failure (D := D) fault clock m st err (fresh c)).2 = c ∨
  ∃ e, (∀ e0, dict_get (rows c) (key m) = Some e0 → e_status e0 ≠ APPLIED) ∧ e_status e = FAILED ∧
    committed (record_failure (D := D) fault clock m st err (fresh c)).2 = with_locks [] (set_row (key m) e c).
Proof.
  set (P := λ x : result bool * @world D, committed x.2 = c ∨
    ∃ e, (∀ e0, dict_get (rows c) (key m) = Some e0 → e_status e0 ≠ APPLIED) ∧ e_status e = FAILED ∧
      committed x.2 = with_locks [] (set_row (key m) e c)).
  change (P (record_failure fault clock m st err (fresh c))).
  unfold record_failure, try_except. rewrite run_bind. unfold begin_immediate, db_call at 1. destruct (fault PRecordBegin); [by left|].
  rewrite run_bind_get. unfold put_st. cbn [txn with_txn committed current current_started applied skipped].
  set (w1 := World c (Some c) None None [] []). rewrite run_bind, (entry_run _ _ _ w1 c eq_refl).
  destruct (fault PRecordRead); [by left|]. destruct (ledger c) as [l|] eqn:El; [|by left].
  assert (rows c = l) as Hl by (unfold rows; by rewrite El).
  destruct (match dict_get l (key m) with Some _ => _ | None => false end) eqn:Ex; [by left|].
  rewrite run_bind. unfold db_call at 1. destruct (fault PRecordWrite); [by left|].
  rewrite (put_row_run _ _ w1 c l eq_refl El), run_bind. unfold db_call at 1. destruct (fault PRecordUnlock); [by left|].
  unfold modify_st at 1. rewrite run_bind. unfold commit, db_call at 1. destruct (fault PRecordCommit); [by left|].
  right. exists (Entry (m_checksum m) FAILED st (Some (clock PRecordWrite)) (Some err)).
  split_and!; [|done|unfold set_row; by rewrite Hl]. intros e0 He0. rewrite <-Hl, He0 in Ex. by apply bool_decide_eq_false in Ex.
Qed.

Lemma record_section_run x0 log fault clock m st err c r c' :
  ledger_true x0 log c → lock_rows c = [] → record_section fault clock m st err c = (r, c') →
  ledger_true x0 log c' ∧ lock_rows c' = [] ∧ is_ok r = false.
Proof.
  intros Hlog Hnl. unfold record_section. pose proof (record_failure_run fault clock m st err c) as Hw.
  destruct (record_failure fault clock m st err (fresh c)) as [rr w]. intros [= <- <-]. cbn [snd] in Hw.
  destruct Hw as [->|(e & Hfresh & Hs & ->)]; [done|]. split_and!; [|done|done]. destruct Hlog as [H1 H2 H3 H4 H5].
  assert (∀ k, dict_get (rows (with_locks [] (set_row (key m) e c))) k = if decide (key m = k) then Some e else dict_get (rows c) k) as Hrows.
  { intros k. change (rows (with_locks [] (set_row (key m) e c))) with (dict_set (rows c) (key m) e). apply dict_get_set. }
  split; [by apply dict_wf_set|done|done| |].
  - intros k e'. rewrite Hrows. destruct (decide _); [intros [= <-]; by rewrite Hs|apply H4].
  - intros m' Hm'. destruct (H5 m' Hm') as (e' & He' & Ha & Hc). exists e'. rewrite Hrows. rewrite decide_False; [done|].
    intros Hk. rewrite <-Hk in He'. by apply (Hfresh e').
Qed.

(** ** Any processes *)

(** The database and the failures that processes have still to record. *)
Record system : Type := System { store : @db D; failing : list (Migration * string * exn) }.

Inductive section : Type :=
| BatchSection (authorizes : bool) (fault : point → option exn) (clock : point → string) (batch : list Migration) (holder : string)
| RecordSection (fault : point → option exn) (clock : point → string) (n : nat) (safe_error : string).

Definition sys_step (a : section) (s : system) : system :=
  match a with
  | BatchSection auth fault clock batch holder =>
      match apply_section accesses run_sql auth fault clock batch holder (store s) with
      | (Failing m t e, c) => System c (failing s ++ [(m, t, e)])
      | (Over _, c) => System c (failing s)
      end
  | RecordSection fault clock n safe_error =>
      match failing s !! n with
      | Some (m, t, _) => System (record_section fault clock m t safe_error (store s)).2 (delete n (failing s))
      | None => s
      end
  end.

Definition sys_run (l : list section) (s : system) : system := foldl (λ s a, sys_step a s) s l.

Definition empty_store (x0 : D) : system := System (Db None None x0) [].

Definition tame_section (a : section) : Prop := match a with BatchSection _ _ _ batch _ => tame_batch batch | _ => True end.

Lemma sys_step_true a x0 log s : tame_section a → ledger_true x0 log (store s) → lock_rows (store s) = [] →
  ∃ newly, ledger_true x0 (log ++ newly) (store (sys_step a s)) ∧ lock_rows (store (sys_step a s)) = [].
Proof.
  intros Htame Hlog Hnl. destruct a as [auth fault clock batch holder|fault clock n err]; cbn [sys_step].
  - destruct (apply_section _ _ _ _ _ _ _ _) as [o c'] eqn:E. apply (apply_section_run x0 log) in E as [Ho Hnl']; [|done..].
    destruct o as [[[a sk]|e]|m t e]; cbn [store applies] in *.
    + destruct Ho as (newly & _ & Hlog' & _). by exists newly.
    + exists []. rewrite app_nil_r. split; [|done]. destruct Ho as (H1 & _ & H3). by eapply ledger_true_same.
    + exists []. rewrite app_nil_r. split; [|done]. destruct Ho as (H1 & _ & H3). by eapply ledger_true_same.
  - exists []. rewrite app_nil_r. destruct (failing s !! n) as [[[m t] e]|]; [|done]. cbn [store].
    destruct (record_section _ _ _ _ _ _) as [r c'] eqn:E. by apply (record_section_run x0 log) in E as (? & ? & _).
Qed.

Lemma sys_run_true l x0 log s : Forall tame_section l → ledger_true x0 log (store s) → lock_rows (store s) = [] →
  ∃ newly, ledger_true x0 (log ++ newly) (store (sys_run l s)) ∧ lock_rows (store (sys_run l s)) = [].
Proof.
  revert log s. induction l as [|a l IH]; intros log s Htame Hlog Hnl; [exists []; by rewrite app_nil_r|]. apply Forall_cons in Htame as [Ha Hl].
  destruct (sys_step_true a x0 log s Ha Hlog Hnl) as (n1 & Hlog1 & Hnl1).
  destruct (IH _ _ Hl Hlog1 Hnl1) as (n2 & Hlog2 & Hnl2). exists (n1 ++ n2). by rewrite app_assoc.
Qed.

Lemma empty_true x0 : ledger_true x0 [] (store (empty_store x0)).
Proof. split; [apply dict_wf_nil|by apply NoDup_nil|done|done|by intros m ?%not_elem_of_nil]. Qed.

(** C8: The ledger tells the truth, for migrations whose statements are tame: no access of theirs that the authorizer allows
    has the runner's ledger or lock table for its second argument.  (SQLite is taken to ask about every table that a statement touches, and
    the effect of a statement to depend on the database alone, not on the time or a random number.)  From an empty database, after any
    interleaving of batch transactions and failure records of any processes,
    with any call on the database failing: there is a log of migrations, each
    (owner, version) in it once, such that the other tables hold exactly what
    the statements of the log make of the initial data, in its order, and the
    ledger marks exactly the migrations of the log as applied, with their checksums;
    no row in state applying and no lock row is ever left behind.  The next
    batch either appends to the log the migrations of the batch that were missing, in
    the order of the batch, and answers with them and the skipped rest, or changes nothing; recording a
    failure never changes the log; and whatever follows, the log only grows.  The condition is needed: the authorizer examines the
    first argument only, and SQLite passes the table of ALTER TABLE, CREATE INDEX and CREATE TRIGGER as the second. *)
Theorem ledger_truth x0 l auth fault clock batch holder o c' :
  let s := sys_run l (empty_store x0) in
  Forall tame_section l → tame_batch batch →
  apply_section accesses run_sql auth fault clock batch holder (store s) = (o, c') →
  ∃ log, ledger_true x0 log (store s) ∧ lock_rows (store s) = [] ∧ applies x0 log batch o (store s) c' ∧ lock_rows c' = [] ∧
    (∀ fault' clock' m t err r c'', record_section fault' clock' m t err (store s) = (r, c'') → ledger_true x0 log c'' ∧ is_ok r = false) ∧
    ∀ l', Forall tame_section l' → ∃ newly, ledger_true x0 (log ++ newly) (store (sys_run l' s)).
Proof.
  intros s Hl Hbatch E. destruct (sys_run_true l x0 [] (empty_store x0) Hl (empty_true x0) eq_refl) as (log & Hlog & Hnl). fold s in Hlog, Hnl.
  exists log. destruct (apply_section_run x0 log _ _ _ _ _ _ _ _ Hbatch Hlog Hnl E) as [Happ Hnl']. split_and!; [done..| |].
  - intros fault' clock' m t err r c'' Hr. by apply (record_section_run x0 log) in Hr as (? & _ & ?).
  - intros l' Hl'. destruct (sys_run_true l' x0 log s Hl' Hlog Hnl) as (newly & H & _). by exists newly.
Qed.
End laws.

(** ** Witness *)

(** A statement is the name of a table: one of the runner's own is dropped, any
    other is created once. *)
Definition demo_accesses (s : string) (_ : @db (list string)) : list access :=
  [Access (SQLITE_OTHER 2) (Some s) None (Some "main")].

Definition demo_exec (s : string) (tables : list string) : result (list string) :=
  if bool_decide (s ∈ tables) then fail ForeignExc "table already exists" else Ok (tables ++ [s]).

Definition demo_sql (s : string) (d : @db (list string)) : result db :=
  if String.eqb s LEDGER_TABLE || String.eqb s LOCK_TABLE then Ok (Db None None (data d))
  else x ← demo_exec s (data d); Ok (with_data x d).

Lemma demo_asks s d : is_Some (ledger d) → is_Some (locks d) → Forall harmless (demo_accesses s d) →
  demo_sql s d = (x ← demo_exec s (data d); Ok (with_data x d)).
Proof.
  intros _ _ H. apply Forall_cons in H as [(_ & Hn) _]. unfold names_runner in Hn. cbn [argument_one] in Hn. unfold demo_sql.
  destruct (String.eqb_spec s LEDGER_TABLE) as [->|_]; [destruct Hn; by left|].
  destruct (String.eqb_spec s LOCK_TABLE) as [->|_]; [destruct Hn; right; by left|done].
Qed.

(** It never passes a table as argument two. *)
Lemma demo_tame s : tame demo_accesses s.
Proof. intros d a _ ->%list_elem_of_singleton. by split. Qed.

Definition demo_migration (version : string) (statements : list string) : Migration :=
  NewMigration "core" version statements (String.concat ";" statements).

Definition demo_batch : list Migration := [demo_migration "1" ["a"; "b"]; demo_migration "2" ["c"]].

(** Three statements that the authorizer allows: a table of the ledger's shape, then two renamings.  The batch answers that it
    was applied, and the ledger that is left is an empty one. *)
Definition renaming_accesses (s : string) (d : @db (list string)) : list access :=
  if String.eqb s "rename the ledger" then [Access (SQLITE_OTHER 26) (Some "main") (Some LEDGER_TABLE) None]
  else if String.eqb s "rename the other" then [Access (SQLITE_OTHER 26) (Some "main") (Some "other") None]
  else demo_accesses s d.

Definition renaming_sql (s : string) (d : @db (list string)) : result db :=
  if String.eqb s "rename the ledger" then Ok (Db None (locks d) (data d ++ ["old"]))
  else if String.eqb s "rename the other" then
    match ledger d with
    | None => Ok (Db (Some []) (locks d) (List.filter (λ t, negb (String.eqb t "other")) (data d)))
    | Some _ => fail ForeignExc "there is already another table or index with this name"
    end
  else demo_sql s d.

Example authorizer_bypassed :
  let run := apply_section renaming_accesses renaming_sql true (λ _, None) (λ _, "t") in
  let hostile := [demo_migration "2" ["other"; "rename the ledger"; "rename the other"]] in
  let '(o1, c1) := run [demo_migration "1" ["a"]] "p" (Db None None []) in
  let '(o2, c2) := run hostile "q" c1 in
  o2 = Over (Ok ([("core", "2")], [])) ∧ dict_keys (rows c1) = [("core", "1")] ∧ rows c2 = [] ∧ data c2 = ["a"; "old"].
Proof. by vm_compute. Qed.

Lemma demo_all_tame l : Forall (tame_section demo_accesses) l.
Proof. apply Forall_forall. intros [] _; [intros m t _ _; apply demo_tame|done]. Qed.

(** A first batch, one that fails in its second statement, the record of it. *)
Definition demo_sections : list section :=
  [BatchSection true (λ _, None) (λ _, "t") [demo_migration "1" ["a"; "b"]] "p";
   BatchSection true (λ _, None) (λ _, "t") [demo_migration "3" ["d"; "a"]] "q";
   RecordSection (λ _, None) (λ _, "t") 0 "OperationalError"].

Lemma ledger_truth_witness :
  let s := sys_run demo_accesses demo_sql demo_sections (empty_store []) in
  data (store s) = ["a"; "b"] ∧
  (apply_section demo_accesses demo_sql true (λ _, None) (λ _, "t") demo_batch "r" (store s)).1 =
    Over (Ok ([("core", "2")], [("core", "1")])) ∧
  ∃ log, replay demo_exec log [] = Ok (data (store s)) ∧ ledger_true demo_exec [] log (store s).
Proof.
  intros s. split; [vm_compute; reflexivity|]. split; [vm_compute; reflexivity|].
  destruct (ledger_truth demo_accesses demo_sql demo_exec demo_asks [] demo_sections true (λ _, None) (λ _, "t") demo_batch "r" _ _
    (demo_all_tame demo_sections) (λ m t _ _, demo_tame t) (surjective_pairing _)) as (log & Hlog & _).
  exists log. split; [exact (lt_data _ _ _ _ Hlog)|exact Hlog].
Defined.
End MigrationLaws.
