(* ===== verification/RateLimit.v ===== *)
(** * The login rate limiter (http_auth.py: [LoginRateLimiter], [_DenialAuditSampler])

    Both keep an [OrderedDict] from a digest of the peer's address, in order of
    the last touch, under a lock; each method is one step.  [digest] stands for
    the SHA-256 of the text, a key is passed as text.  Clock readings
    and durations are integers, microseconds; the code's floats are rounded
    otherwise. *)

From Stdlib Require Import Ascii ZArith Lia Sorting.Sorted.
From stdpp Require Import base decidable numbers sorting list strings sets.
From S2P Require Import Prelude PyData.

Module RateLimit.

Record policy : Type := Policy {
  maximum_failures : Z;
  window_seconds : Z;
  block_seconds : Z;
  maximum_clients : Z;
}.

(** [__init__]. *)
Definition new_policy (failures window block clients : Z) : result policy :=
  _ ← fail_if (failures <? 1)%Z ValueErr "maximum_failures must be positive";
  _ ← fail_if ((window <=? 0)%Z || (block <=? 0)%Z) ValueErr "rate-limit durations must be positive";
  _ ← fail_if (clients <? 1)%Z ValueErr "maximum_clients must be positive";
  Ok (Policy failures window block clients).

Record FailureWindow : Type := Window { failures : list Z; blocked_until : Z }.

Abbreviation entries := (dict string FailureWindow).

(** [OrderedDict.move_to_end] of a present key, and [popitem(last=False)] while
    there are [limit] entries or more. *)
Definition move_to_end {V} (k : string) (d : dict string V) : dict string V :=
  match dict_get d k with Some v => dict_del d k ++ [(k, v)] | None => d end.

Fixpoint make_room {V} (limit : Z) (d : dict string V) : dict string V :=
  match d with
  | [] => []
  | _ :: d' => if (limit <=? Z.of_nat (length d))%Z then make_room limit d' else d
  end.

(** [deque(maxlen=n).append(x)]. *)
Definition deque_append (n : nat) (l : list Z) (x : Z) : list Z := drop (S (length l) - n) (l ++ [x]).

(** [math.ceil(...)], at least 1. *)
Definition ceil_seconds (us : Z) : Z := (- ((- us) / second))%Z.
Definition retry_after_seconds (us : Z) : Z := Z.max 1 (ceil_seconds us).

Section limiter.
Context (digest : string → string) (p : policy).

Definition prune (now : Z) (e : FailureWindow) : FailureWindow :=
  Window (drop_while (λ t, t <=? now - window_seconds p)%Z (failures e)) (blocked_until e).

(** [check]: [Some] of the seconds to wait is [RateLimitExceeded]. *)
Definition check (now : Z) (key : string) (s : entries) : option Z * entries :=
  let key := digest key in
  match dict_get s key with
  | None => (None, s)
  | Some e =>
      let e := prune now e in
      if (now <? blocked_until e)%Z then (Some (retry_after_seconds (blocked_until e - now)), move_to_end key (dict_set s key e))
      else let e := Window (failures e) 0 in
           (None, if bool_decide (failures e = []) then dict_del s key else dict_set s key e)
  end.

Definition record_failure (now : Z) (key : string) (s : entries) : entries :=
  let key := digest key in
  let '(e, s) := match dict_get s key with
                 | Some e => (e, s)
                 | None => (Window [] 0, make_room (maximum_clients p) s ++ [(key, Window [] 0)])
                 end in
  let e := prune now e in
  let fs := deque_append (Z.to_nat (maximum_failures p)) (failures e) now in
  let blocked := if (maximum_failures p <=? Z.of_nat (length fs))%Z then Z.max (blocked_until e) (now + block_seconds p)
                 else blocked_until e in
  move_to_end key (dict_set s key (Window fs blocked)).

Definition record_success (now : Z) (key : string) (s : entries) : entries :=
  let key := digest key in
  match dict_get s key with
  | None => s
  | Some e =>
      let e := prune now e in
      let blocked := if (blocked_until e <=? now)%Z then 0%Z else blocked_until e in
      if bool_decide (failures e = []) && (blocked =? 0)%Z then dict_del s key
      else move_to_end key (dict_set s key (Window (failures e) blocked))
  end.

Inductive action : Type :=
| Check (now : Z) (key : string)
| RecordFailure (now : Z) (key : string)
| RecordSuccess (now : Z) (key : string).

Definition act (a : action) (s : entries) : entries :=
  match a with
  | Check now key => (check now key s).2
  | RecordFailure now key => record_failure now key s
  | RecordSuccess now key => record_success now key s
  end.

(** ** The sampler of denial audits *)

Record sampling : Type := Sampling { interval_seconds : Z; sampled_clients : Z }.

Definition should_audit (c : sampling) (now : Z) (peer : string) (s : dict string Z) : bool * dict string Z :=
  let key := digest peer in
  match dict_get s key with
  | Some previous =>
      if (now - previous <? interval_seconds c)%Z then (false, move_to_end key s)
      else (true, move_to_end key (dict_set (make_room (sampled_clients c) s) key now))
  | None => (true, move_to_end key (dict_set (make_room (sampled_clients c) s) key now))
  end.
End limiter.
End RateLimit.

(** ** Laws *)

Module RateLimitLaws.
Import RateLimit.

(** *** Lists *)

Lemma drop_while_filter (θ : Z) l :
  StronglySorted Z.le l → drop_while (λ t, t <=? θ)%Z l = List.filter (λ t, θ <? t)%Z l.
Proof.
  induction 1 as [|x l Hs IH Hx]; [done|]. cbn [drop_while List.filter]. rewrite Z.leb_antisym. destruct (Z.ltb_spec θ x) as [Hlt|Hge]; [|done].
  cbn [negb]. f_equal. clear IH Hs. induction Hx as [|y l Hy _ IH]; [done|]. cbn [List.filter]. rewrite (proj2 (Z.ltb_lt θ y)) by lia. by f_equal.
Qed.

Lemma filter_none {A} (f : A → bool) l : Forall (λ x, f x = false) l → List.filter f l = [].
Proof. induction 1 as [|x l Hx _ IH]; [done|]. cbn. by rewrite Hx. Qed.

Lemma filter_reverse {A} (f : A → bool) l : List.filter f (reverse l) = reverse (List.filter f l).
Proof.
  induction l as [|x l IH]; [done|]. rewrite reverse_cons, List.filter_app, IH. cbn [List.filter].
  destruct (f x); [by rewrite reverse_cons|by rewrite app_nil_r].
Qed.

Lemma filter_all_none {A} (f g : A → bool) l : Forall (λ x, f x = false) l → Forall (λ x, f x = false) (List.filter g l).
Proof. induction 1 as [|x l Hx _ IH]; [constructor|]. cbn. destruct (g x); [by constructor|done]. Qed.

(** Newest first: what is later than [θ] is a prefix. *)
Lemma filter_take (θ θ' : Z) n l :
  (θ' ≤ θ)%Z → StronglySorted Z.ge l →
  List.filter (λ t, θ <? t)%Z (take n (List.filter (λ t, θ' <? t)%Z l)) = take n (List.filter (λ t, θ <? t)%Z l).
Proof.
  intros Hle Hs. revert n. induction Hs as [|x l Hs IH Hx]; intros n; [by destruct n|].
  destruct (Z.ltb_spec θ x) as [Hlt|Hge].
  - cbn [List.filter]. rewrite (proj2 (Z.ltb_lt θ' x)), (proj2 (Z.ltb_lt θ x)) by lia. destruct n as [|n]; [done|]. cbn [take List.filter].
    rewrite (proj2 (Z.ltb_lt θ x)) by lia. by rewrite IH.
  - assert (Forall (λ t, (θ <? t)%Z = false) (x :: l)) as Hall.
    { constructor; [by apply Z.ltb_ge|]. eapply Forall_impl; [exact Hx|]. intros y Hy. apply Z.ltb_ge. lia. }
    rewrite (filter_none (λ t, θ <? t)%Z (x :: l) Hall), take_nil. apply filter_none, Forall_take, filter_all_none, Hall.
Qed.

Lemma reverse_deque_append n l x : reverse (deque_append n l x) = take n (x :: reverse l).
Proof.
  unfold deque_append. rewrite reverse_drop, length_app, reverse_app. change (reverse [x] ++ reverse l) with (x :: reverse l). cbn [length].
  destruct (decide (n ≤ S (length l))) as [Hle|Hgt]; [f_equal; lia|].
  rewrite !take_ge; [done|..]; cbn [length]; rewrite length_reverse; lia.
Qed.

(** *** The dictionary *)

Lemma move_get {V} k (d : dict string V) j : dict_wf d → dict_get (move_to_end k d) j = dict_get d j.
Proof.
  intros Hw. unfold move_to_end. destruct (dict_get d k) as [v|] eqn:E; [|done].
  symmetry. apply dict_get_perm; [done|]. rewrite Permutation_app_comm. by apply dict_del_perm.
Qed.

Lemma move_wf {V} k (d : dict string V) : dict_wf d → dict_wf (move_to_end k d).
Proof.
  intros Hw. unfold move_to_end. destruct (dict_get d k) as [v|] eqn:E; [|done].
  eapply dict_wf_perm; [|exact Hw]. rewrite Permutation_app_comm. by apply dict_del_perm.
Qed.

Lemma move_length {V} k (d : dict string V) : length (move_to_end k d) = length d.
Proof.
  unfold move_to_end. destruct (dict_get d k) as [v|] eqn:E; [|done]. apply dict_del_perm in E.
  rewrite length_app, (Permutation_length E). simpl. lia.
Qed.

Lemma make_room_suffix {V} n (d : dict string V) : ∃ l, d = l ++ make_room n d.
Proof.
  induction d as [|kv d [l IH]]; [by exists []|]. cbn [make_room]. destruct (_ <=? _)%Z; [|by exists []].
  exists (kv :: l). simpl. by rewrite <-IH.
Qed.

Lemma make_room_wf {V} n (d : dict string V) : dict_wf d → dict_wf (make_room n d).
Proof.
  destruct (make_room_suffix n d) as [l E]. unfold dict_wf, dict_keys. rewrite E at 1. rewrite fmap_app.
  by intros (_ & _ & ?)%NoDup_app.
Qed.

Lemma make_room_length {V} n (d : dict string V) : (1 ≤ n)%Z → (Z.of_nat (length (make_room n d)) < n)%Z.
Proof. intros Hn. induction d as [|kv d IH]; [simpl; lia|]. cbn [make_room]. destruct (Z.leb_spec n (Z.of_nat (length (kv :: d)))); lia. Qed.

Lemma make_room_id {V} n (d : dict string V) : (Z.of_nat (length d) < n)%Z → make_room n d = d.
Proof. destruct d as [|kv d]; [done|]. intros Hn. cbn [make_room]. by rewrite (proj2 (Z.leb_gt n _)). Qed.

Lemma dict_get_snoc {V} (d : dict string V) k v j : dict_get d k = None → dict_get (d ++ [(k, v)]) j = if decide (k = j) then Some v else dict_get d j.
Proof. intros E. rewrite <-dict_set_new by done. apply dict_get_set. Qed.

(** *** The reference

    The limiter, as a function of the failures of a peer, newest first. *)

Section reference.
Context (p : policy).

Definition recent (now : Z) (hist : list Z) : list Z := List.filter (λ t, now - window_seconds p <? t)%Z hist.

(** A failure that is the [maximum_failures]-th within the window blocks from then on. *)
Fixpoint blocked_by (hist : list Z) : Z :=
  match hist with
  | [] => 0
  | t :: older =>
      if (maximum_failures p <=? Z.of_nat (length (recent t hist)))%Z then Z.max (t + block_seconds p) (blocked_by older)
      else blocked_by older
  end.

Definition reference_check (now : Z) (hist : list Z) : option Z :=
  if (now <? blocked_by hist)%Z then Some (retry_after_seconds (blocked_by hist - now)) else None.
End reference.

Section laws.
Context (digest : string → string) (p : policy).
Hypothesis policy_ok : new_policy (maximum_failures p) (window_seconds p) (block_seconds p) (maximum_clients p) = Ok p.

Lemma policy_bounds : (1 ≤ maximum_failures p)%Z ∧ (0 < window_seconds p)%Z ∧ (0 < block_seconds p)%Z ∧ (1 ≤ maximum_clients p)%Z.
Proof. pose proof policy_ok as H. unfold new_policy in H. inv_ok H.
  repeat match goal with H : fail_if _ _ _ = Ok _ |- _ => apply fail_if_ok in H end. bool_to_prop. lia.
Qed.

Abbreviation max_n := (Z.to_nat (maximum_failures p)).

(** What an entry says about the failures of its peer. *)
Definition entry_ok (last : Z) (hist : list Z) (e : FailureWindow) : Prop :=
  (∃ P, (P ≤ last)%Z ∧ reverse (failures e) = take max_n (recent p P hist)) ∧
  (blocked_until e = blocked_by p hist ∨ blocked_until e = 0%Z ∧ (blocked_by p hist ≤ last)%Z).

(** What the absence of an entry says. *)
Definition absent_ok (last : Z) (hist : list Z) : Prop :=
  (∃ P, (P ≤ last)%Z ∧ recent p P hist = []) ∧ (blocked_by p hist ≤ last)%Z.

Definition limiter_ok (last : Z) (hist : string → list Z) (s : entries) : Prop :=
  dict_wf s ∧ ∀ k, StronglySorted Z.ge (hist k) ∧ Forall (λ t, t ≤ last)%Z (hist k) ∧
    match dict_get s k with Some e => entry_ok last (hist k) e | None => absent_ok last (hist k) end.

Lemma reverse_sorted l : StronglySorted Z.ge l → StronglySorted Z.le (reverse l).
Proof.
  induction 1 as [|x l Hs IH Hx]; [constructor|]. rewrite reverse_cons. apply StronglySorted_app.
  split_and!; [|exact IH|repeat constructor]. intros a b Ha Hb. apply list_elem_of_singleton in Hb as ->. rewrite elem_of_reverse in Ha. rewrite Forall_forall in Hx. specialize (Hx a Ha). lia.
Qed.

Lemma sublist_sorted (f : Z → bool) n l : StronglySorted Z.ge l → StronglySorted Z.ge (take n (List.filter f l)).
Proof.
  intros Hs. assert (StronglySorted Z.ge (List.filter f l)) as Hf.
  { induction Hs as [|x l Hs IH Hx]; [constructor|]. cbn. destruct (f x); [|done]. constructor; [done|].
    clear -Hx. induction Hx as [|y l Hy _ IH]; [constructor|]. cbn. destruct (f y); [by constructor|done]. }
  clear Hs. revert n. induction Hf as [|x l' Hs IH Hx]; intros n; [destruct n; constructor|]. destruct n; cbn [take]; [constructor|].
  constructor; [apply IH|by apply Forall_take].
Qed.

(** Pruning leaves the recent failures. *)
Lemma prune_recent last hist e now :
  entry_ok last hist e → StronglySorted Z.ge hist → (last ≤ now)%Z →
  reverse (failures (prune p now e)) = take max_n (recent p now hist).
Proof.
  intros [(P & HP & E) _] Hs Hle. cbn [failures prune].
  assert (failures e = reverse (take max_n (recent p P hist))) as -> by (by rewrite <-E, reverse_involutive).
  rewrite drop_while_filter by (by apply reverse_sorted, sublist_sorted).
  rewrite filter_reverse, reverse_involutive. apply filter_take; [lia|done].
Qed.

Lemma recent_cons now hist : recent p now (now :: hist) = now :: recent p now hist.
Proof. unfold recent. cbn [List.filter]. destruct policy_bounds as (_ & ? & _). by rewrite (proj2 (Z.ltb_lt (now - window_seconds p) now)) by lia. Qed.

Lemma reverse_nil_iff {A} (l : list A) : l = [] ↔ reverse l = [].
Proof. split; [by intros ->|]. intros E. rewrite <-(reverse_involutive l), E. done. Qed.

Lemma take_nil_iff {A} n (l : list A) : (0 < n)%nat → take n l = [] → l = [].
Proof. by destruct n, l; [lia..| |]. Qed.

Lemma entry_later last last' hist e : (last ≤ last')%Z → entry_ok last hist e → entry_ok last' hist e.
Proof. intros Hle [(P & HP & E) Hb]. split; [exists P; split; [lia|done]|destruct Hb as [?|[? ?]]; [by left|right; split; [done|lia]]]. Qed.

Lemma absent_later last last' hist : (last ≤ last')%Z → absent_ok last hist → absent_ok last' hist.
Proof. intros Hle [(P & HP & E) Hb]. split; [exists P; split; [lia|done]|lia]. Qed.

(** A failure is recorded in the entry of its peer. *)
Lemma record_entry last hist e now :
  entry_ok last hist e → StronglySorted Z.ge hist → (last ≤ now)%Z → (0 ≤ now)%Z →
  let e1 := prune p now e in
  let fs := deque_append max_n (failures e1) now in
  entry_ok now (now :: hist)
    (Window fs (if (maximum_failures p <=? Z.of_nat (length fs))%Z then Z.max (blocked_until e1) (now + block_seconds p) else blocked_until e1)).
Proof.
  intros He Hs Hle H0 e1 fs. destruct policy_bounds as (Hm & Hw & Hb & _).
  assert (reverse fs = take max_n (recent p now (now :: hist))) as Hfs.
  { unfold fs. rewrite reverse_deque_append, recent_cons. unfold e1. rewrite (prune_recent last hist) by done.
    destruct max_n as [|n] eqn:En; [done|]. cbn [take]. f_equal. by rewrite take_take, Nat.min_l by lia. }
  assert ((maximum_failures p <=? Z.of_nat (length fs))%Z = (maximum_failures p <=? Z.of_nat (length (recent p now (now :: hist))))%Z) as ->.
  { rewrite <-(length_reverse fs), Hfs, length_take. apply eq_true_iff_eq. rewrite !Z.leb_le. lia. }
  split; [by exists now|]. cbn [blocked_by blocked_until]. destruct He as [_ Hblk].
  change (blocked_until e1) with (blocked_until e).
  destruct (_ <=? _)%Z; [left|]; destruct Hblk as [->|[-> Hx]]; [lia|lia|by left|right; split; [done|lia]].
Qed.

(** *** Runs *)

Definition time_of (a : action) : Z := match a with Check now _ | RecordFailure now _ | RecordSuccess now _ => now end.

(** The failures of the peers with digest [k], newest first. *)
Definition note (k : string) (hist : list Z) (a : action) : list Z :=
  match a with RecordFailure now key => if String.eqb (digest key) k then now :: hist else hist | _ => hist end.

Definition failures_of (k : string) (acts : list action) : list Z := foldl (note k) [] acts.

Definition act_all (acts : list action) (s : entries) : entries := foldl (λ s a, act digest p a s) s acts.

(** The clock does not go back. *)
Fixpoint timed (last : Z) (acts : list action) : Prop :=
  match acts with [] => True | a :: acts => (last ≤ time_of a)%Z ∧ timed (time_of a) acts end.

Definition last_time (last : Z) (acts : list action) : Z := foldl (λ _ a, time_of a) last acts.

Lemma le_later last now l : (last ≤ now)%Z → Forall (λ t, t ≤ last)%Z l → Forall (λ t, t ≤ now)%Z l.
Proof. intros Hle Hl. eapply Forall_impl; [exact Hl|]. cbv beta. intros t Ht. lia. Qed.

Lemma set_ok last hist s k e now :
  limiter_ok last hist s → (last ≤ now)%Z → entry_ok now (hist k) e → limiter_ok now hist (dict_set s k e).
Proof.
  intros [Hw H] Hle He. split; [by apply dict_wf_set|]. intros j. destruct (H j) as (Hs & Hall & Hj). split_and!; [done| |].
  - exact (le_later _ _ _ Hle Hall).
  - rewrite dict_get_set. destruct (decide (k = j)) as [<-|]; [done|].
    destruct (dict_get s j); [exact (entry_later _ _ _ _ Hle Hj)|exact (absent_later _ _ _ Hle Hj)].
Qed.

Lemma del_ok last hist s k now :
  limiter_ok last hist s → (last ≤ now)%Z → absent_ok now (hist k) → limiter_ok now hist (dict_del s k).
Proof.
  intros [Hw H] Hle He. split; [by apply dict_wf_del|]. intros j. destruct (H j) as (Hs & Hall & Hj). split_and!; [done| |].
  - exact (le_later _ _ _ Hle Hall).
  - rewrite dict_get_del by done. destruct (decide (k = j)) as [<-|]; [done|].
    destruct (dict_get s j); [exact (entry_later _ _ _ _ Hle Hj)|exact (absent_later _ _ _ Hle Hj)].
Qed.

Lemma move_ok last hist s k : limiter_ok last hist s → limiter_ok last hist (move_to_end k s).
Proof. intros [Hw H]. split; [by apply move_wf|]. intros j. destruct (H j) as (Hs & Hall & Hj). by rewrite move_get. Qed.

Lemma later_ok last hist s now : limiter_ok last hist s → (last ≤ now)%Z → limiter_ok now hist s.
Proof.
  intros [Hw H] Hle. split; [done|]. intros j. destruct (H j) as (Hs & Hall & Hj). split_and!; [done| |].
  - exact (le_later _ _ _ Hle Hall).
  - destruct (dict_get s j); [exact (entry_later _ _ _ _ Hle Hj)|exact (absent_later _ _ _ Hle Hj)].
Qed.

Lemma pruned_entry last hist e now b :
  entry_ok last hist e → StronglySorted Z.ge hist → (last ≤ now)%Z → b = blocked_until e ∨ b = 0%Z ∧ (blocked_until e ≤ now)%Z →
  entry_ok now hist (Window (failures (prune p now e)) b).
Proof.
  intros He Hs Hle Hb. pose proof (prune_recent _ _ _ _ He Hs Hle) as Hp. destruct He as [_ Hblk]. split; [by exists now|]. cbn [blocked_until].
  destruct Hb as [->|[-> Hx]], Hblk as [E|[E E']]; [by left|right; split; [done|lia]|right; split; [done|lia]|right; split; [done|lia]].
Qed.

(** An entry without recent failures that does not block may be forgotten. *)
Lemma pruned_absent last hist e now :
  entry_ok last hist e → StronglySorted Z.ge hist → (last ≤ now)%Z → (blocked_until e ≤ now)%Z → failures (prune p now e) = [] →
  absent_ok now hist.
Proof.
  intros He Hs Hle Hb Hnil. pose proof (prune_recent _ _ _ _ He Hs Hle) as Hp. rewrite Hnil in Hp. destruct policy_bounds as (Hm & _).
  symmetry in Hp. apply take_nil_iff in Hp; [|lia]. destruct He as [_ [E|[_ E]]]; split; try lia; by exists now.
Qed.

Lemma limiter_act_ok last hist s a :
  limiter_ok last hist s → (last ≤ time_of a)%Z → (0 ≤ time_of a)%Z →
  (∀ now key, a = RecordFailure now key → dict_get s (digest key) = None → (Z.of_nat (length s) < maximum_clients p)%Z) →
  limiter_ok (time_of a) (λ k, note k (hist k) a) (act digest p a s).
Proof.
  intros Hok Hle H0 Hroom. pose proof Hok as [Hw H]. destruct a as [now key|now key|now key]; cbn [time_of act note] in *.
  - unfold check. destruct (H (digest key)) as (Hs & _ & Hk). destruct (dict_get s (digest key)) as [e|]; [|by eapply later_ok].
    destruct (_ <? _)%Z eqn:Eb; cbn [snd].
    + apply move_ok. eapply set_ok; [done..|]. change (prune p now e) with (Window (failures (prune p now e)) (blocked_until e)).
      eapply pruned_entry; [done..|by left].
    + apply Z.ltb_ge in Eb. change (blocked_until (prune p now e)) with (blocked_until e) in Eb. cbn [failures]. destruct (bool_decide _) eqn:En.
      * apply bool_decide_eq_true in En. eapply del_ok; [done..|]. by eapply pruned_absent.
      * eapply set_ok; [done..|]. eapply pruned_entry; [done..|by right].
  - unfold record_failure. set (k := digest key) in *.
    assert (∀ e s', limiter_ok last hist s' → entry_ok last (hist k) e → limiter_ok now (λ j, if String.eqb k j then now :: hist j else hist j)
      (move_to_end k (dict_set s' k (Window (deque_append max_n (failures (prune p now e)) now)
        (if (maximum_failures p <=? Z.of_nat (length (deque_append max_n (failures (prune p now e)) now)))%Z
         then Z.max (blocked_until (prune p now e)) (now + block_seconds p) else blocked_until (prune p now e)))))) as Hadd.
    { intros e s' [Hw' H'] He. apply move_ok. split; [by apply dict_wf_set|]. intros j. rewrite dict_get_set.
      destruct (H' j) as (Hs & Hall & Hj). assert (Forall (λ t, t ≤ now)%Z (hist j)) as Hall'.
      { exact (le_later _ _ _ Hle Hall). }
      destruct (String.eqb_spec k j) as [<-|Hne].
      - rewrite decide_True by done. split_and!; [|by constructor|by eapply record_entry]. constructor; [done|].
        eapply Forall_impl; [exact Hall'|]. cbv beta. intros t Ht. lia.
      - rewrite decide_False by done. split_and!; [done..|]. destruct (dict_get s' j); [exact (entry_later _ _ _ _ Hle Hj)|exact (absent_later _ _ _ Hle Hj)]. }
    destruct (H k) as (Hs & Hall & Hk). destruct (dict_get s k) as [e|] eqn:Ek; [by apply Hadd|].
    rewrite make_room_id by (by eapply Hroom). apply Hadd.
    + destruct Hk as [(P & HP & Hr) Hb]. split; [rewrite <-dict_set_new by done; by apply dict_wf_set|]. intros j.
      rewrite dict_get_snoc by done. destruct (decide (k = j)) as [<-|]; [|apply H]. split_and!; [done..|].
      split; [exists P; by rewrite Hr, take_nil|by right].
    + destruct Hk as [(P & HP & Hr) Hb]. split; [exists P; by rewrite Hr, take_nil|by right].
  - unfold record_success. destruct (H (digest key)) as (Hs & _ & Hk). destruct (dict_get s (digest key)) as [e|]; [|by eapply later_ok].
    change (blocked_until (prune p now e)) with (blocked_until e). destruct (Z.leb_spec (blocked_until e) now) as [Hb|Hb].
    + destruct (bool_decide _) eqn:En; cbn [andb].
      * apply bool_decide_eq_true in En. eapply del_ok; [done..|]. by eapply pruned_absent.
      * apply move_ok. eapply set_ok; [done..|]. eapply pruned_entry; [done..|by right].
    + assert (bool_decide (failures (prune p now e) = []) && (blocked_until e =? 0)%Z = false) as ->.
      { apply andb_false_iff. right. apply Z.eqb_neq. lia. }
      apply move_ok. eapply set_ok; [done..|]. eapply pruned_entry; [done..|by left].
Qed.

(** *** Bounds *)

Definition bounded (s : entries) : Prop :=
  dict_wf s ∧ (Z.of_nat (length s) ≤ maximum_clients p)%Z ∧ ∀ k e, dict_get s k = Some e → (Z.of_nat (length (failures e)) ≤ maximum_failures p)%Z.

Lemma bounded_set s k e : bounded s → dict_get s k ≠ None → (Z.of_nat (length (failures e)) ≤ maximum_failures p)%Z → bounded (dict_set s k e).
Proof.
  intros (Hw & Hl & H) Hk He. split_and!; [by apply dict_wf_set| |].
  - rewrite length_dict_set. unfold dict_mem. destruct (dict_get s k); [done|by destruct Hk].
  - intros j e'. rewrite dict_get_set. destruct (decide (k = j)); [by intros [= <-]|apply H].
Qed.

Lemma bounded_del s k : bounded s → bounded (dict_del s k).
Proof.
  intros (Hw & Hl & H). split_and!; [by apply dict_wf_del| |].
  - rewrite length_dict_del. destruct (dict_mem s k); lia.
  - intros j e'. rewrite dict_get_del by done. destruct (decide (k = j)); [done|apply H].
Qed.

Lemma bounded_move s k : bounded s → bounded (move_to_end k s).
Proof. intros (Hw & Hl & H). split_and!; [by apply move_wf|by rewrite move_length|]. intros j e. rewrite move_get by done. apply H. Qed.

Lemma length_prune now e : length (failures (prune p now e)) ≤ length (failures e).
Proof. cbn. induction (failures e) as [|x l IH]; [done|]. cbn. destruct (x <=? _)%Z; [lia|done]. Qed.

Lemma make_room_get n (s : entries) k e : dict_wf s → dict_get (make_room n s) k = Some e → dict_get s k = Some e.
Proof.
  intros Hw. destruct (make_room_suffix n s) as [l E]. intros H%dict_get_Some_in. apply dict_get_in; [done|]. rewrite E.
  apply elem_of_app. by right.
Qed.

Lemma limiter_act_bounded a s : bounded s → bounded (act digest p a s).
Proof.
  intros Hb. destruct policy_bounds as (Hm & _ & _ & Hc). destruct a as [now key|now key|now key]; cbn [act].
  - unfold check. destruct (dict_get s (digest key)) as [e|] eqn:E; [|done].
    assert (∀ b, bounded (dict_set s (digest key) (Window (failures (prune p now e)) b))) as Hset.
    { intros b. apply bounded_set; [done|by rewrite E|]. destruct Hb as (_ & _ & H). specialize (H _ _ E).
      pose proof (length_prune now e). cbn [failures]. lia. }
    destruct (_ <? _)%Z; cbn [snd]; [apply bounded_move, (Hset (blocked_until e))|]. destruct (bool_decide _); [by apply bounded_del|apply Hset].
  - unfold record_failure. set (k := digest key).
    assert (∀ e s', bounded s' → dict_get s' k ≠ None → bounded (dict_set s' k
      (Window (deque_append max_n (failures (prune p now e)) now)
        (if (maximum_failures p <=? Z.of_nat (length (deque_append max_n (failures (prune p now e)) now)))%Z
         then Z.max (blocked_until (prune p now e)) (now + block_seconds p) else blocked_until (prune p now e))))) as Hset.
    { intros e s' Hs Hk. apply bounded_set; [done..|]. cbn [failures]. rewrite <-length_reverse, reverse_deque_append, length_take. lia. }
    destruct (dict_get s k) as [e|] eqn:E; [apply bounded_move, Hset; [done|by rewrite E]|]. apply bounded_move, Hset.
    + destruct Hb as (Hw & Hl & H). split_and!.
      * assert (dict_get (make_room (maximum_clients p) s) k = None) as Hn.
        { destruct (dict_get (make_room _ s) k) eqn:Ek; [|done]. apply make_room_get in Ek; [congruence|done]. }
        rewrite <-dict_set_new by done. by apply dict_wf_set, make_room_wf.
      * rewrite length_app. cbn [length]. pose proof (make_room_length (maximum_clients p) s Hc). lia.
      * intros j e Hj. apply dict_get_Some_in, elem_of_app in Hj as [Hj|Hj%list_elem_of_singleton].
        -- apply (H j e), (make_room_get (maximum_clients p)); [done|]. apply dict_get_in; [by apply make_room_wf|done].
        -- injection Hj as -> ->. cbn. lia.
    + rewrite dict_get_None. intros Hn. apply Hn. unfold dict_keys. rewrite fmap_app. apply elem_of_app. right. by left.
  - unfold record_success. destruct (dict_get s (digest key)) as [e|] eqn:E; [|done].
    destruct (_ && _); [by apply bounded_del|]. apply bounded_move, bounded_set; [done|by rewrite E|].
    destruct Hb as (_ & _ & H). specialize (H _ _ E). pose proof (length_prune now e). cbn [failures]. lia.
Qed.

(** *** Runs without evictions *)

Definition peers_within (ks : list string) (acts : list action) : Prop :=
  Forall (λ a, match a with RecordFailure _ key => digest key ∈ ks | _ => True end) acts.

Lemma act_keys ks a s : dict_wf s → (∀ k, k ∈ dict_keys s → k ∈ ks) → peers_within ks [a] → ∀ k, k ∈ dict_keys (act digest p a s) → k ∈ ks.
Proof.
  intros Hw Hs Ha k. rewrite <-dict_mem_true. unfold dict_mem.
  assert (∀ j e, dict_get s j = Some e → j ∈ ks) as Hget.
  { intros j e E. apply Hs, dict_mem_true. unfold dict_mem. by rewrite E. }
  apply Forall_cons in Ha as [Ha _]. destruct a as [now key|now key|now key]; cbn [act].
  - unfold check. destruct (dict_get s (digest key)) as [e|] eqn:E.
    2:{ cbn [snd]. destruct (dict_get s k) eqn:Ek; [intros _; by eapply Hget|done]. }
    destruct (_ <? _)%Z; cbn [snd]; [rewrite move_get by (by apply dict_wf_set)|destruct (bool_decide _)];
      rewrite ?dict_get_set, ?dict_get_del by done; destruct (decide (digest key = k)) as [<-|]; try (intros _; by eapply Hget);
      destruct (dict_get s k) eqn:Ek; (done || intros _; by eapply Hget).
  - unfold record_failure. destruct (dict_get s (digest key)) as [e|] eqn:E.
    + rewrite move_get, dict_get_set by (by apply dict_wf_set). destruct (decide (digest key = k)) as [<-|]; [done|].
      destruct (dict_get s k) eqn:Ek; [intros _; by eapply Hget|done].
    + assert (dict_get (make_room (maximum_clients p) s) (digest key) = None) as Hn.
      { destruct (dict_get (make_room _ s) _) eqn:Ek; [|done]. apply make_room_get in Ek; [congruence|done]. }
      rewrite move_get, dict_get_set by (rewrite <-dict_set_new by done; by apply dict_wf_set, dict_wf_set, make_room_wf).
      destruct (decide (digest key = k)) as [<-|Hne]; [done|]. rewrite dict_get_snoc, decide_False by done.
      destruct (dict_get (make_room _ s) k) eqn:Ek; [|done]. intros _. apply make_room_get in Ek; [|done]. by eapply Hget.
  - unfold record_success. destruct (dict_get s (digest key)) as [e|] eqn:E.
    2:{ destruct (dict_get s k) eqn:Ek; [intros _; by eapply Hget|done]. }
    destruct (_ && _); [|rewrite move_get by (by apply dict_wf_set)];
      rewrite ?dict_get_set, ?dict_get_del by done; destruct (decide (digest key = k)) as [<-|]; try (intros _; by eapply Hget);
      destruct (dict_get s k) eqn:Ek; (done || intros _; by eapply Hget).
Qed.

Lemma room_left ks (s : entries) k :
  dict_wf s → (∀ j, j ∈ dict_keys s → j ∈ ks) → (Z.of_nat (length ks) ≤ maximum_clients p)%Z → k ∈ ks → dict_get s k = None →
  (Z.of_nat (length s) < maximum_clients p)%Z.
Proof.
  intros Hw Hs Hks Hk E. apply dict_get_None in E.
  assert (length (k :: dict_keys s) ≤ length ks) as Hlen.
  { apply submseteq_length, NoDup_submseteq; [by constructor|]. intros j [->|Hj]%elem_of_cons; [done|by apply Hs]. }
  cbn [length] in Hlen. unfold dict_keys in Hlen. rewrite length_fmap in Hlen. lia.
Qed.

Lemma run_limiter_ok ks acts last hist s :
  limiter_ok last hist s → (0 ≤ last)%Z → timed last acts → (∀ j, j ∈ dict_keys s → j ∈ ks) → peers_within ks acts →
  (Z.of_nat (length ks) ≤ maximum_clients p)%Z →
  limiter_ok (last_time last acts) (λ k, foldl (note k) (hist k) acts) (act_all acts s).
Proof.
  intros Hok H0 Ht Hs Hp Hks. revert last hist s Hok H0 Ht Hs. induction acts as [|a acts IH]; intros last hist s Hok H0 Ht Hs; [done|].
  destruct Ht as [Hle Ht]. apply Forall_cons in Hp as [Ha Hp]. pose proof (proj1 Hok) as Hw.
  apply (IH Hp (time_of a) (λ k, note k (hist k) a)); [|lia|done|].
  - eapply limiter_act_ok; [done..|lia|]. intros now key -> E. by eapply room_left.
  - apply (act_keys ks a s Hw Hs). by constructor.
Qed.

Lemma timed_last last acts : (0 ≤ last)%Z → timed last acts → (0 ≤ last_time last acts)%Z.
Proof. revert last. induction acts as [|a acts IH]; intros last H0; [done|]. intros [Hle Ht]. apply IH; [lia|done]. Qed.

(** Every failure was admitted: the reference did not refuse at its time. *)
Fixpoint admitted (hist : list Z) : Prop :=
  match hist with
  | [] => True
  | t :: older => reference_check p t older = None ∧ Forall (λ u, u ≤ t)%Z older ∧ admitted older
  end.

Lemma recent_le t u hist : (u ≤ t)%Z → length (recent p t hist) ≤ length (recent p u hist).
Proof.
  intros Hle. unfold recent. induction hist as [|x hist IH]; [done|]. cbn [List.filter].
  destruct (Z.ltb_spec (t - window_seconds p) x) as [H1|H1]; destruct (Z.ltb_spec (u - window_seconds p) x) as [H2|H2]; cbn [length]; lia.
Qed.

(** Admitted failures are at most [maximum_failures] in the window of each. *)
Lemma admitted_window t older :
  (window_seconds p ≤ block_seconds p)%Z → admitted (t :: older) →
  (Z.of_nat (length (recent p t (t :: older))) ≤ maximum_failures p)%Z.
Proof.
  intros Hwb (Href & Hle & Hadm). destruct policy_bounds as (Hm & Hw & Hb & _).
  rewrite recent_cons. cbn [length]. destruct (Z.leb_spec (maximum_failures p) (Z.of_nat (length (recent p t older)))) as [Hmany|]; [|lia].
  exfalso. destruct older as [|u rest]; [cbn in Hmany; lia|]. apply Forall_cons in Hle as [Hut Hrest].
  assert (t - window_seconds p < u)%Z as Hu.
  { destruct (Z.ltb_spec (t - window_seconds p) u) as [|Hge]; [done|]. exfalso. unfold recent in Hmany. cbn [List.filter] in Hmany.
    rewrite (proj2 (Z.ltb_ge (t - window_seconds p) u)) in Hmany by done. destruct Hadm as (_ & Hru & _).
    rewrite (filter_none (λ x, t - window_seconds p <? x)%Z) in Hmany; [cbn in Hmany; lia|].
    eapply Forall_impl; [exact Hru|]. cbv beta. intros x Hx. apply Z.ltb_ge. lia. }
  unfold reference_check in Href. cbn [blocked_by] in Href.
  pose proof (recent_le t u (u :: rest) Hut) as Hle.
  rewrite (proj2 (Z.leb_le (maximum_failures p) _)) in Href by lia.
  destruct (Z.ltb_spec t (Z.max (u + block_seconds p) (blocked_by p rest))) as [|Hge]; [done|]. lia.
Qed.

Lemma check_reference ks acts now key :
  timed 0 acts → (last_time 0 acts ≤ now)%Z → peers_within ks acts → (Z.of_nat (length ks) ≤ maximum_clients p)%Z →
  (check digest p now key (act_all acts [])).1 = reference_check p now (failures_of (digest key) acts).
Proof.
  intros Ht Hle Hp Hks. destruct (run_limiter_ok ks acts 0 (λ _, []) []) as [Hw H]; try done.
  { split; [apply dict_wf_nil|]. intros k. split_and!; [constructor|constructor|]. split; [by exists 0%Z|done]. }
  { by intros j ?%not_elem_of_nil. }
  destruct (H (digest key)) as (_ & _ & Hk). fold (failures_of (digest key) acts) in Hk. unfold check, reference_check.
  destruct (dict_get (act_all acts []) (digest key)) as [e|].
  - destruct Hk as [_ Hb]. change (blocked_until (prune p now e)) with (blocked_until e). destruct Hb as [->|[-> Hb]].
    + by destruct (_ <? _)%Z.
    + assert (0 ≤ last_time 0 acts)%Z as H0 by (by apply timed_last).
      rewrite (proj2 (Z.ltb_ge now 0)), (proj2 (Z.ltb_ge now (blocked_by _ _))) by lia. done.
  - destruct Hk as [_ Hb]. by rewrite (proj2 (Z.ltb_ge now (blocked_by _ _))) by lia.
Qed.

Lemma admitted_suffix t older newer : admitted (newer ++ t :: older) → admitted (t :: older).
Proof. induction newer as [|x newer IH]; [done|]. intros (_ & _ & H). by apply IH. Qed.

(** C7: The limiter is its reference.  After any calls in the order of the
    clock, by no more failing peers than it keeps entries for, [check] refuses
    exactly when a failure of the same peer was the [maximum_failures]-th in its
    window and its block is not over, and tells the whole seconds left; a
    successful login in between changes nothing of that.  So where
    every failure was let in by [check] and a block is no shorter than the window, at most
    [maximum_failures] of a peer fall in any window.  Whatever is called, the entries and the
    failures in each stay within their limits. *)
Theorem throttle_exact ks acts now key :
  (∀ acts', let s := act_all acts' [] in
     (Z.of_nat (length s) ≤ maximum_clients p)%Z ∧
     ∀ k e, dict_get s k = Some e → (Z.of_nat (length (failures e)) ≤ maximum_failures p)%Z) ∧
  (timed 0 acts → (last_time 0 acts ≤ now)%Z → peers_within ks acts → (Z.of_nat (length ks) ≤ maximum_clients p)%Z →
   (check digest p now key (act_all acts [])).1 = reference_check p now (failures_of (digest key) acts)) ∧
  ((window_seconds p ≤ block_seconds p)%Z → admitted (failures_of (digest key) acts) → ∀ t older,
     (∃ newer, failures_of (digest key) acts = newer ++ t :: older) →
     (Z.of_nat (length (recent p t (t :: older))) ≤ maximum_failures p)%Z).
Proof.
  split_and!.
  - intros acts'. assert (bounded (act_all acts' [])) as (_ & H1 & H2); [|done]. destruct policy_bounds as (Hm & _ & _ & Hc).
    induction acts' as [|a acts' IH] using rev_ind; [split_and!; [apply dict_wf_nil|simpl; lia|done]|].
    unfold act_all. rewrite foldl_app. by apply limiter_act_bounded.
  - apply check_reference.
  - intros Hwb Hadm t older [newer E]. rewrite E in Hadm. apply admitted_window; [done|]. by eapply admitted_suffix.
Qed.
End laws.

(** ** Witness *)

Definition demo_policy : policy := Policy 2 (60 * second) (300 * second) 4.
Definition demo_actions : list action :=
  [RecordFailure 1 "a"; Check 2 "a"; RecordSuccess 3 "a"; RecordFailure 4 "a"].

(** The success does not forgive the first failure. *)
Lemma throttle_exact_witness :
  (check id demo_policy (second + 4) "a" (act_all id demo_policy demo_actions [])).1 = Some 299%Z ∧
  reference_check demo_policy (second + 4) [4%Z; 1%Z] = Some 299%Z.
Proof.
  split; [|vm_compute; reflexivity].
  rewrite (proj1 (proj2 (throttle_exact id demo_policy eq_refl ["a"] demo_actions (second + 4) "a"))); [vm_compute; reflexivity|..].
  - cbn. repeat split; lia.
  - vm_compute. discriminate.
  - repeat constructor; left.
  - vm_compute. discriminate.
Defined.
End RateLimitLaws.
