(* ===== verification/HttpAuth.v ===== *)
(** * HTTP authentication (http_auth.py: [HttpAuth])

    The adapter between requests and the identity store, the session store, the
    audit log, the login limiter and the sampler of denial audits: the model
    composes the models of those, and a route is a computation on the [world] of their
    states.  A request is the parts of it that are read; the answer of a route is
    its value with the cookies it sets, an [HTTPException] is its status and its detail.
    Parameters: HMAC, SHA-256 of a text, [json.loads], the audit log with the
    checkpoint callback (any computation), the clocks, identifiers and secrets that are drawn ([draws]);
    the two clocks are read once per use in a request. *)

From Stdlib Require Import Ascii ZArith Lia.
From stdpp Require Import base decidable numbers list strings gmap sets pretty.
From S2P Require Import Prelude PyData Regex JsonGraph HashChain AuditJournal Passwords Identity Sessions RateLimit.

Module HttpAuth.
Import JsonGraph HashChain.
#[local] Existing Instance Sessions.identity_directory.

Definition PERMISSION : re :=
  Alt (Seq (Chr is_lower) (Seq (Rep 1 127 (Chr (λ c, is_lower c || is_digit c || one_of "_.:-" c))) (Opt (Lit ".*")))) (Lit "*").
Definition BOOTSTRAP_NONCE : re := Rep 40 64 (Chr (λ c, is_alnum c || one_of "_-" c)).
Definition HEX_DIGEST : re := Rep 64 64 (Chr (λ c, is_digit c || in_range "a" "f" c)).
Definition LOOPBACK_HOSTS : list string := ["127.0.0.1"; "localhost"; "::1"].

(** ** Requests and answers *)

Record request : Type := Request {
  r_client : option string;             (* request.client.host *)
  r_header : string → option string;    (* request.headers.get *)
  r_cookies : dict string string;
  r_body : list string;                 (* the chunks of request.stream() *)
}.

Record cookie : Type := Cookie {
  c_name : string; c_value : string; c_max_age : Z; c_path : string; c_secure : bool; c_httponly : bool; c_samesite : string;
}.

Record HttpAuthPolicy : Type := AuthPolicy {
  session_cookie_name : string;
  control_session_cookie_name : string;
  csrf_cookie_name : string;
  csrf_header_name : string;
  bootstrap_csrf_ttl_seconds : Z;
  login_body_limit_bytes : Z;
}.

(** The checks of [__init__]. *)
Definition check_http_auth (csrf_key : string) (other_identity_store : bool) (policy : HttpAuthPolicy) : result unit :=
  _ ← fail_if (utf8_len csrf_key <? 32)%nat ValueErr "CSRF integrity key must contain at least 32 bytes";
  _ ← fail_if other_identity_store ValueErr "session and HTTP authentication identity stores differ";
  _ ← fail_if (String.eqb (session_cookie_name policy) (csrf_cookie_name policy)) ValueErr "session and CSRF cookie names must differ";
  fail_if (bool_decide (control_session_cookie_name policy ∈ [session_cookie_name policy; csrf_cookie_name policy])) ValueErr
    "control session cookie name must be distinct".

Record PublicIdentity : Type := Public { pi_id : string; pi_email : string; pi_roles : list string }.

Record AuthenticatedPrincipal : Type := Principal {
  user_id : string; email : string; roles : list string; session_id : string; session_expires_at : Z; token : string;
}.

Record audit_call : Type := AuditCall {
  ac_actor_id : option string; ac_action : string; ac_target_type : string; ac_target_id : option string;
  ac_outcome : Audit.AuditOutcome; ac_metadata : list (string * json);
}.

(** Cookies and headers that may be absent. *)
Definition cookie_of (r : request) (name : string) : string := or_default (dict_get (r_cookies r) name) "".
Definition header_of (r : request) (name : string) : string := or_default (r_header r name) "".

(** [request_host_is_loopback]. *)
Definition before_char (sep : ascii) (l : list ascii) : option (list ascii) :=
  match Sessions.split_once sep l with Some (a, _) => Some a | None => None end.

Definition request_host_is_loopback (r : request) : bool :=
  let raw := chars (casefold (str_strip (header_of r "host"))) in
  let host := match raw with
              | c :: rest =>
                  if Ascii.eqb c "[" then match before_char "]" rest with Some a => a | None => [] end
                  else or_default (before_char ":" raw) raw
              | [] => []
              end in
  bool_decide (of_chars host ∈ LOOPBACK_HOSTS).

(** [request_is_wan_control]. *)
Definition advertises (control_hostname : option string) : bool :=
  match control_hostname with Some h => negb (String.eqb h "") | None => false end.
Definition request_is_wan_control (r : request) (control_hostname : option string) : bool :=
  advertises control_hostname && negb (request_host_is_loopback r).

(** [HTTPException(status, detail)]. *)
Definition http (status detail : string) : exn := Exn HTTPException (status +:+ " " +:+ detail).
Definition service_unavailable : exn := http "503" "identity security service unavailable".

(** [int(text)] of an ASCII text: blanks around, a sign, digits with single
    underscores between them. *)
Fixpoint digits_value (acc : Z) (after_digit : bool) (l : list ascii) : option Z :=
  match l with
  | [] => if after_digit then Some acc else None
  | c :: l =>
      if is_digit c then digits_value (10 * acc + (Z.of_N (code c) - 48))%Z true l
      else if Ascii.eqb c "_" && after_digit then digits_value acc false l
      else None
  end.

Definition py_int (s : string) : option Z :=
  let l := chars (rstrip is_space (lstrip is_space s)) in
  match l with
  | c :: rest =>
      if Ascii.eqb c "-" then Z.opp <$> digits_value 0 false rest
      else if Ascii.eqb c "+" then digits_value 0 false rest
      else digits_value 0 false l
  | [] => None
  end.

Definition nul : string := String "000" "".

Section http_auth.
Context `{Passwords.PasswordHashing} (unicode_fold : string → string) (dummy_password_hash : string)
  (session_digest : string → string → string) (token_pepper : string) (session_config : Sessions.config)
  (sha256_hex : string → string) (limit_policy : RateLimit.policy) (sampling : RateLimit.sampling)
  (hmac_hex : string → string → string) (csrf_key : string) (loads : string → result json)
  {A : Type} (audit_append : audit_call → M A unit) (policy : HttpAuthPolicy)
  (linked : bool)                            (* session_store.identity_store is the identity store, not None *)
  (wan_control_hostname : option (option string)).   (* the callback, if there is one, and what it answers *)

Record world : Type := World {
  w_identity : Identity.store;
  w_sessions : Sessions.store;
  w_audit : A;
  w_limiter : RateLimit.entries;
  w_sampler : dict string Z;
}.

(** What a request draws: two monotonic readings, the wall clock in
    microseconds and as seconds, a session identifier, a secret and a nonce. *)
Record draws : Type := Draws {
  mono : Z; wall : Z; unix : Z; fresh_id : string; fresh_secret : string; fresh_nonce : string;
}.

Definition on_identity {B} (m : M Identity.store B) : M world B := λ w,
  let '(r, s) := m (w_identity w) in (r, World s (w_sessions w) (w_audit w) (w_limiter w) (w_sampler w)).
Definition on_sessions {B} (m : option Identity.store → M Sessions.store B) : M world B := λ w,
  let '(r, s) := m (if linked then Some (w_identity w) else None) (w_sessions w) in
  (r, World (w_identity w) s (w_audit w) (w_limiter w) (w_sampler w)).
Definition on_audit {B} (m : M A B) : M world B := λ w,
  let '(r, s) := m (w_audit w) in (r, World (w_identity w) (w_sessions w) s (w_limiter w) (w_sampler w)).
Definition on_limiter (f : RateLimit.entries → RateLimit.entries) : M world unit :=
  modify_st (λ w, World (w_identity w) (w_sessions w) (w_audit w) (f (w_limiter w)) (w_sampler w)).

(** The session and identity stores of [Sessions] and [Identity]. *)
Definition validate_session (d : draws) (raw : string) : M world Sessions.SessionRecord :=
  on_sessions (λ dir, Sessions.validate session_digest token_pepper dir (wall d) raw None).
Definition revoke_session (d : draws) (id : string) : M world Sessions.SessionRecord :=
  on_sessions (λ _, Sessions.revoke (wall d) id None).
Definition create_session (d : draws) (uid : string) : M world Sessions.SessionToken :=
  on_sessions (λ dir, Sessions.create session_digest token_pepper session_config dir (fresh_id d) (fresh_secret d) (wall d) uid None None).
Definition get_user (uid : string) : M world (option Identity.UserRecord) := on_identity (Identity.get_user uid).

(** ** Audit *)

(** [LoginRateLimiter.key_for]. *)
Definition key_for (r : request) : string := sha256_hex (or_default (r_client r) "unknown-peer").

Definition should_audit (d : draws) (r : request) : M world bool := λ w,
  let '(b, s) := RateLimit.should_audit id sampling (mono d) (key_for r) (w_sampler w) in
  (Ok b, World (w_identity w) (w_sessions w) (w_audit w) (w_limiter w) s).

(** [_audit]. *)
Definition audit (c : audit_call) : M world unit :=
  try_except (on_audit (audit_append c)) (λ _, Some (lift (Err service_unavailable))).

Definition text_metadata (k v : string) : list (string * json) := [(k, JStr v)].

(** [_deny_authentication]. *)
Definition deny_authentication {B} (d : draws) (r : request) : M world B :=
  sampled ← should_audit d r;
  _ ← (if (sampled : bool) then audit (AuditCall None "identity.access.denied" "identity.session" None Audit.DENIED
                                (text_metadata "reason" "authentication_required")) else mret tt);
  lift (Err (http "401" "authentication required")).

(** [_audit_login_denial]. *)
Definition audit_login_denial (d : draws) (r : request) (reason : string) (outcome : Audit.AuditOutcome) : M world unit :=
  sampled ← should_audit d r;
  if (sampled : bool) then audit (AuditCall None "identity.login" "identity.session" None outcome (text_metadata "reason" reason)) else mret tt.

(** ** Principals *)

Definition sorted_roles (u : Identity.UserRecord) : list string := sort_by id (elements (Identity.u_roles u)).

Definition public_identity (u : Identity.UserRecord) : PublicIdentity :=
  Public (Identity.u_id u) (Identity.u_email u) (sorted_roles u).

Definition principal (u : Identity.UserRecord) (s : Sessions.SessionRecord) (raw : string) : AuthenticatedPrincipal :=
  Principal (Identity.u_id u) (Identity.u_email u) (sorted_roles u) (Sessions.s_id s) (Sessions.s_expires_at s) raw.

(** [_raw_session_token]: absent and empty are not distinguished by its callers. *)
Definition raw_session_token (r : request) : string :=
  let control := cookie_of r (control_session_cookie_name policy) in
  let loopback := cookie_of r (session_cookie_name policy) in
  if advertises (or_default wan_control_hostname None) && negb (request_host_is_loopback r) then control
  else if String.eqb loopback "" then control else loopback.

Definition resolve_session (d : draws) (raw : string) : M world (Sessions.SessionRecord * option Identity.UserRecord) :=
  session ← validate_session d raw;
  user ← get_user (Sessions.s_user_id session);
  mret (session, user).

(** [except (IdentityError, OSError, ValueError, TypeError)]. *)
Definition store_failure (e : exn) : bool := exn_in e [IdentityError; OSErr; ValueErr; TypeErr].
Definition session_failure (e : exn) : bool := exn_in e [SessionError; OSErr; ValueErr; TypeErr].

Definition to_unavailable {B} (caught : exn → bool) (m : M world B) : M world B :=
  try_except m (λ e, if caught e then Some (lift (Err service_unavailable)) else None).

(** [authenticate]. *)
Definition authenticate (d : draws) (r : request) : M world AuthenticatedPrincipal :=
  let raw := raw_session_token r in
  if String.eqb raw "" then deny_authentication d r
  else
    found ← try_except (resolve_session d raw)
              (λ e, if exn_isa (exn_cls e) SessionError then Some (deny_authentication d r)
                    else if store_failure e then Some (lift (Err service_unavailable)) else None);
    match found with
    | (session, Some user) => if Identity.u_active user then mret (principal user session raw) else deny_authentication d r
    | (_, None) => deny_authentication d r
    end.

(** [_optional_principal]. *)
Definition optional_principal (d : draws) (r : request) : M world (option AuthenticatedPrincipal) :=
  let raw := raw_session_token r in
  if String.eqb raw "" then mret None
  else
    found ← try_except (x ← resolve_session d raw; mret (Some x))
              (λ e, if exn_isa (exn_cls e) SessionError then Some (mret None)
                    else if store_failure e then Some (lift (Err service_unavailable)) else None);
    mret (match found with
          | Some (session, Some user) => if Identity.u_active user then Some (principal user session raw) else None
          | _ => None
          end).

(** ** CSRF tokens *)

Definition sign_csrf (material : string) : string := hmac_hex csrf_key material.
Definition session_csrf (raw : string) : string := sign_csrf ("session" +:+ nul +:+ raw).
Definition bootstrap_material (nonce issued_at : string) : string := "bootstrap" +:+ nul +:+ nonce +:+ nul +:+ issued_at.

(** [_bootstrap_csrf]. *)
Definition bootstrap_csrf (d : draws) : string :=
  let issued_at := pretty (unix d) in
  fresh_nonce d +:+ "." +:+ issued_at +:+ "." +:+ sign_csrf (bootstrap_material (fresh_nonce d) issued_at).

(** [token.split(".", 2)] into three parts. *)
Definition split_three (t : string) : option (string * string * string) :=
  match Sessions.split_once "." (chars t) with
  | Some (a, rest) => match Sessions.split_once "." rest with
                      | Some (b, c) => Some (of_chars a, of_chars b, of_chars c)
                      | None => None
                      end
  | None => None
  end.

(** [hmac.compare_digest] of ASCII texts. *)
Definition same_text (a b : string) : bool := bool_decide (a = b).

(** [_valid_bootstrap_csrf]. *)
Definition valid_bootstrap_csrf (d : draws) (t : string) : bool :=
  match split_three t with
  | None => false
  | Some (nonce, issued_at_raw, signature) =>
      match py_int issued_at_raw with
      | None => false
      | Some issued_at =>
          if negb (fullmatch BOOTSTRAP_NONCE nonce) || negb (fullmatch HEX_DIGEST signature) then false
          else let age := (unix d - issued_at)%Z in
               if (age <? -30)%Z || (bootstrap_csrf_ttl_seconds policy <? age)%Z then false
               else same_text signature (sign_csrf (bootstrap_material nonce issued_at_raw))
      end
  end.

(** [_matching_csrf]. *)
Definition matching_csrf (cookie header expected : string) : bool :=
  fullmatch HEX_DIGEST cookie && fullmatch HEX_DIGEST header && same_text cookie header && same_text header expected.

(** [_valid_login_csrf]. *)
Definition valid_login_csrf (d : draws) (r : request) : M world bool :=
  let supplied_cookie := cookie_of r (csrf_cookie_name policy) in
  let supplied_header := header_of r (csrf_header_name policy) in
  if String.eqb supplied_cookie "" || String.eqb supplied_header "" then mret false
  else if (256 <? str_len supplied_cookie)%nat || (256 <? str_len supplied_header)%nat
          || any_char non_ascii supplied_cookie || any_char non_ascii supplied_header then mret false
  else if negb (same_text supplied_cookie supplied_header) then mret false
  else if valid_bootstrap_csrf d supplied_cookie then mret true
  else
    p ← optional_principal d r;
    mret (match p with
          | None => false
          | Some p => matching_csrf supplied_cookie supplied_header (session_csrf (token p))
          end).

(** [verify_csrf]. *)
Definition verify_csrf (d : draws) (r : request) : M world AuthenticatedPrincipal :=
  p ← authenticate d r;
  let supplied_cookie := cookie_of r (csrf_cookie_name policy) in
  let supplied_header := header_of r (csrf_header_name policy) in
  if negb (matching_csrf supplied_cookie supplied_header (session_csrf (token p))) then
    _ ← audit (AuditCall (Some (user_id p)) "identity.access.denied" "security.csrf" None Audit.DENIED
                 (text_metadata "reason" "csrf_failed"));
    lift (Err (http "403" "request denied"))
  else mret p.

(** [require_permission(permission, csrf=...)], and its dependency. *)
Definition check_permission_name (permission : string) : result unit :=
  fail_if (negb (fullmatch PERMISSION permission)) ValueErr "invalid HTTP permission dependency".

Definition require_permission (permission : string) (csrf : bool) (d : draws) (r : request) : M world AuthenticatedPrincipal :=
  p ← (if csrf then verify_csrf d r else authenticate d r);
  _ ← try_except (on_identity (Identity.require_permission (user_id p) permission))
        (λ e, if exn_isa (exn_cls e) AuthorizationError then
                Some (_ ← audit (AuditCall (Some (user_id p)) "identity.access.denied" "identity.permission" (Some permission)
                                   Audit.DENIED (text_metadata "reason" "permission_denied"));
                      lift (Err (http "403" "permission denied")))
              else if store_failure e then Some (lift (Err service_unavailable)) else None);
  mret p.

(** ** Cookies *)

(** [_session_max_age]. *)
Definition session_max_age (d : draws) (expires_at : Z) : Z := Z.max 1 (RateLimit.ceil_seconds (expires_at - wall d)).

Definition csrf_cookie (value : string) (max_age : Z) : cookie :=
  Cookie (csrf_cookie_name policy) value (Z.max 1 max_age) "/" true false "strict".

(** [_set_authenticated_cookies]. *)
Definition authenticated_cookies (d : draws) (issued : Sessions.SessionToken) : list cookie :=
  let raw := Sessions.t_value issued in
  let max_age := session_max_age d (Sessions.t_expires_at issued) in
  [Cookie (session_cookie_name policy) raw max_age "/" true true "strict"; csrf_cookie (session_csrf raw) max_age].

(** [_clear_cookies]. *)
Definition cleared_cookies : list cookie :=
  [Cookie (session_cookie_name policy) "" 0 "/" true true "strict";
   Cookie (control_session_cookie_name policy) "" 0 "/" true true "strict";
   Cookie (csrf_cookie_name policy) "" 0 "/" true false "strict"].

(** [_revoke_after_failed_issue]. *)
Definition revoke_after_failed_issue (d : draws) (issued : Sessions.SessionToken) : M world unit :=
  try_except (_ ← revoke_session d (Sessions.t_session_id issued); mret tt) (λ _, Some (mret tt)).

(** ** Routes *)

(** [_LoginCredentials.model_validate]. *)
Definition login_credentials (payload : list (string * json)) : result (string * string) :=
  _ ← fail_if (negb (forallb (λ kv, bool_decide (kv.1 ∈ ["email"; "password"])) payload)) ValidationErr "extra fields";
  match dict_get payload "email", dict_get payload "password" with
  | Some (JStr e), Some (JStr pw) =>
      _ ← fail_if ((str_len e <? 3)%nat || (254 <? str_len e)%nat) ValidationErr "email length";
      _ ← fail_if ((str_len pw <? 1)%nat || (1024 <? str_len pw)%nat) ValidationErr "password length";
      _ ← fail_if (negb (is_ok (Identity.normalize_email unicode_fold e))) ValidationErr "invalid email address";
      _ ← fail_if (1024 <? utf8_len pw)%nat ValidationErr "password exceeds the accepted byte length";
      Ok (e, pw)
  | _, _ => fail ValidationErr "missing or not a string"
  end.

(** [_read_login_credentials]. *)
Fixpoint read_body (body : string) (chunks : list string) : result string :=
  match chunks with
  | [] => Ok body
  | chunk :: chunks =>
      if (login_body_limit_bytes policy <? Z.of_nat (utf8_len body + utf8_len chunk))%Z then fail ValueErr ""
      else read_body (body +:+ chunk) chunks
  end.

Definition read_login_credentials (r : request) : result (string * string) :=
  result_catch
    (body ← read_body "" (r_body r);
     payload ← loads body;
     match payload with JObj fields => login_credentials fields | _ => fail ValueErr "" end)
    (λ e, if exn_in e [ValueErr; TypeErr] then Some (Err (http "422" "invalid login request")) else None).

Definition too_many (seconds : Z) : exn :=
  http "429" ("authentication temporarily unavailable; Retry-After: " +:+ pretty seconds).

(** The session of a login: the one the request came with is revoked. *)
Definition issue_session (d : draws) (r : request) (uid : string) (previous : option AuthenticatedPrincipal) : M world Sessions.SessionToken :=
  try_except
    (_ ← (match previous with Some p => _ ← revoke_session d (session_id p); mret tt | None => mret tt end);
     create_session d uid)
    (λ e, if session_failure e then
            Some (_ ← audit_login_denial d r "session_unavailable" Audit.FAILURE; lift (Err service_unavailable))
          else None).

(** The end of a login: the session is issued, audited, and only then answered. *)
Definition finish_login (d : draws) (r : request) (user : Identity.UserRecord) : M world (PublicIdentity * list cookie) :=
  previous ← optional_principal d r;
  issued ← issue_session d r (Identity.u_id user) previous;
  _ ← try_except
        (audit (AuditCall (Some (Identity.u_id user)) "identity.login" "identity.session" (Some (Sessions.t_session_id issued))
                  Audit.SUCCESS [("rotated_existing_session", JBool (match previous with Some _ => true | None => false end))]))
        (λ e, if exn_isa (exn_cls e) HTTPException then Some (_ ← revoke_after_failed_issue d issued; lift (Err e)) else None);
  _ ← on_limiter (RateLimit.record_success sha256_hex limit_policy (mono d) (key_for r));
  mret (public_identity user, authenticated_cookies d issued).

Definition record_failure (d : draws) (r : request) : M world unit :=
  on_limiter (RateLimit.record_failure sha256_hex limit_policy (mono d) (key_for r)).

(** A refusal that counts as a failure of the peer. *)
Definition refuse_login {B} (d : draws) (r : request) (reason : string) (outcome : Audit.AuditOutcome) (e : exn) : M world B :=
  _ ← record_failure d r;
  _ ← audit_login_denial d r reason outcome;
  lift (Err e).

(** [_login]. *)
Definition check_limiter (d : draws) (r : request) : M world (option Z) := λ w,
  let '(o, s) := RateLimit.check sha256_hex limit_policy (mono d) (key_for r) (w_limiter w) in
  (Ok o, World (w_identity w) (w_sessions w) (w_audit w) s (w_sampler w)).

Definition login (d : draws) (r : request) : M world (PublicIdentity * list cookie) :=
  if match wan_control_hostname with Some h => request_is_wan_control r h | None => false end
  then lift (Err (http "404" "not found"))
  else
    limited ← check_limiter d r;
    match limited with
    | Some seconds =>
        _ ← audit_login_denial d r "rate_limited" Audit.DENIED;
        lift (Err (too_many seconds))
    | None =>
        csrf ← valid_login_csrf d r;
        if negb csrf then refuse_login d r "csrf_failed" Audit.DENIED (http "403" "request denied")
        else
          match read_login_credentials r with
          | Err e =>
              if exn_isa (exn_cls e) HTTPException then refuse_login d r "invalid_request" Audit.FAILURE e else lift (Err e)
          | Ok (address, password) =>
              user ← try_except (on_identity (Identity.authenticate unicode_fold dummy_password_hash address password))
                       (λ e, if exn_isa (exn_cls e) AuthenticationError then
                               Some (refuse_login d r "invalid_credentials" Audit.FAILURE (http "401" "invalid credentials"))
                             else if store_failure e then Some (lift (Err service_unavailable)) else None);
              finish_login d r user
          end
    end.

(** [issue_csrf]. *)
Definition issue_csrf (d : draws) (r : request) : M world (string * list cookie) :=
  p ← optional_principal d r;
  let '(t, max_age) := match p with
                       | None => (bootstrap_csrf d, bootstrap_csrf_ttl_seconds policy)
                       | Some p => (session_csrf (token p), session_max_age d (session_expires_at p))
                       end in
  mret (t, [csrf_cookie t max_age]).

(** [logout]. *)
Definition logout (d : draws) (r : request) : M world (list cookie) :=
  p ← verify_csrf d r;
  _ ← to_unavailable session_failure (revoke_session d (session_id p));
  _ ← audit (AuditCall (Some (user_id p)) "identity.logout" "identity.session" (Some (session_id p)) Audit.SUCCESS []);
  mret cleared_cookies.

(** [me]. *)
Definition me (d : draws) (r : request) : M world PublicIdentity :=
  p ← authenticate d r; mret (Public (user_id p) (email p) (roles p)).

(** [rotate_session]. *)
Definition rotate_session (d : draws) (p : AuthenticatedPrincipal) : M world (AuthenticatedPrincipal * list cookie) :=
  issued ← to_unavailable session_failure (_ ← revoke_session d (session_id p); create_session d (user_id p));
  _ ← try_except
        (audit (AuditCall (Some (user_id p)) "identity.session.rotate" "identity.session" (Some (Sessions.t_session_id issued))
                  Audit.SUCCESS (text_metadata "previous_session_id" (session_id p))))
        (λ e, if exn_isa (exn_cls e) HTTPException then Some (_ ← revoke_after_failed_issue d issued; lift (Err e)) else None);
  rotated ← try_except
    (found ← resolve_session d (Sessions.t_value issued);
     match found with
     | (session, Some user) =>
         if Identity.u_active user then mret (principal user session (Sessions.t_value issued))
         else raise SessionError "invalid session identity"
     | (_, None) => raise SessionError "invalid session identity"
     end)
    (λ e, if session_failure e then Some (_ ← revoke_after_failed_issue d issued; lift (Err service_unavailable)) else None);
  mret (rotated, authenticated_cookies d issued).

(** ** Laws *)

(** *** What leaves the stores alone *)

Definition stores (i : Identity.store) (s : Sessions.store) (l : RateLimit.entries) (w : world) : Prop :=
  w_identity w = i ∧ w_sessions w = s ∧ w_limiter w = l.

Definition unmoved (w w' : world) : Prop := stores (w_identity w) (w_sessions w) (w_limiter w) w'.

Definition reads_only {S B} (m : M S B) : Prop := ∀ s, (m s).2 = s.

Lemma reads_bind {S B C} (m : M S B) (k : B → M S C) : reads_only m → (∀ b, reads_only (k b)) → reads_only (m ≫= k).
Proof. intros Hm Hk s. rewrite run_bind. specialize (Hm s). destruct (m s) as [[b|e] s']; simpl in Hm; subst s'; [apply Hk|done]. Qed.

Lemma reads_lift {S B} (x : result B) : reads_only (lift (S := S) x).
Proof. done. Qed.

Lemma reads_match {S B C} (o : option B) (k : B → M S C) (n : M S C) :
  (∀ b, reads_only (k b)) → reads_only n → reads_only (match o with Some b => k b | None => n end).
Proof. by destruct o. Qed.

Lemma reads_if {S B} (b : bool) (m n : M S B) : reads_only m → reads_only n → reads_only (if b then m else n).
Proof. by destruct b. Qed.

Lemma reads_read : reads_only Identity.read.
Proof. done. Qed.

Lemma reads_get_user uid : reads_only (Identity.get_user uid).
Proof. apply reads_bind; [apply reads_read|done]. Qed.

Lemma reads_authenticate address password : reads_only (Identity.authenticate unicode_fold dummy_password_hash address password).
Proof.
  apply reads_bind; [apply reads_lift|]. intros e. apply reads_bind; [apply reads_read|]. intros ru. apply reads_bind; [apply reads_lift|].
  intros v. apply reads_match; [|apply reads_lift]. intros u. by apply reads_if.
Qed.

Lemma reads_permission uid permission : reads_only (Identity.require_permission uid permission).
Proof.
  apply reads_bind; [|intros b; apply reads_lift]. apply reads_bind; [apply reads_lift|]. intros p. apply reads_bind; [|done].
  apply reads_bind; [apply reads_read|]. intros ru. apply reads_bind; [apply reads_lift|]. intros u. by apply reads_if.
Qed.

Lemma reads_validate dir now raw : reads_only (Sessions.validate (D := Identity.store) session_digest token_pepper dir now raw None).
Proof.
  apply reads_bind; [apply reads_lift|]. intros t. apply reads_bind; [apply reads_lift|]. intros [raw' id']. apply reads_bind; [done|].
  intros rs. apply reads_match; [|apply reads_lift]. intros rec. apply reads_if; [apply reads_lift|].
  apply reads_bind; [apply reads_lift|]. intros b. apply reads_bind; [apply reads_lift|]. intros _. apply reads_bind; [apply reads_lift|done].
Qed.

Lemma on_identity_reads {B} (m : M Identity.store B) w : reads_only m → on_identity m w = ((m (w_identity w)).1, w).
Proof. intros Hm. unfold on_identity. specialize (Hm (w_identity w)). destruct (m (w_identity w)) as [r s]. simpl in Hm. subst s. by destruct w. Qed.

Definition directory (w : world) : option Identity.store := if linked then Some (w_identity w) else None.

Lemma on_sessions_run {B} (m : option Identity.store → M Sessions.store B) w :
  on_sessions m w = ((m (directory w) (w_sessions w)).1,
    World (w_identity w) (m (directory w) (w_sessions w)).2 (w_audit w) (w_limiter w) (w_sampler w)).
Proof. unfold on_sessions, directory. by destruct (m _ _). Qed.

Lemma validate_session_run d raw w :
  validate_session d raw w = ((Sessions.validate session_digest token_pepper (directory w) (wall d) raw None (w_sessions w)).1, w).
Proof. unfold validate_session. rewrite on_sessions_run, reads_validate. by destruct w. Qed.

(** What a token stands for, if it does: a session and a user. *)
Definition resolved (d : draws) (raw : string) (w : world) : result (Sessions.SessionRecord * option Identity.UserRecord) :=
  session ← (Sessions.validate session_digest token_pepper (directory w) (wall d) raw None (w_sessions w)).1;
  user ← (Identity.get_user (Sessions.s_user_id session) (w_identity w)).1;
  Ok (session, user).

Lemma resolve_run d raw w : resolve_session d raw w = (resolved d raw w, w).
Proof.
  unfold resolve_session, resolved. rewrite run_bind, validate_session_run. destruct (Sessions.validate _ _ _ _ _ _ _).1 as [s|e]; [|done].
  cbn [mbind result_bind]. rewrite run_bind. unfold get_user. rewrite on_identity_reads by apply reads_get_user.
  by destruct (Identity.get_user _ _).1.
Qed.

Lemma preserves_audit i s l c : preserves (stores i s l) (audit c).
Proof.
  apply preserves_try; [|intros e k [= <-]; apply preserves_lift]. intros w Hw. unfold post, on_audit.
  by destruct (audit_append c (w_audit w)).
Qed.

Lemma preserves_sampler i s l d r : preserves (stores i s l) (should_audit d r).
Proof. intros w Hw. unfold post, should_audit. by destruct (RateLimit.should_audit _ _ _ _ _). Qed.

Lemma preserves_deny {B} i s l d r : preserves (stores i s l) (deny_authentication (B := B) d r).
Proof.
  apply preserves_bind; [apply preserves_sampler|]. intros b. apply preserves_bind; [|intros _; apply preserves_lift].
  apply preserves_if; [apply preserves_audit|apply preserves_ret].
Qed.

Lemma preserves_denial i s l d r reason o : preserves (stores i s l) (audit_login_denial d r reason o).
Proof. apply preserves_bind; [apply preserves_sampler|]. intros b. apply preserves_if; [apply preserves_audit|apply preserves_ret]. Qed.

(** A principal of a request: its token stands for a session of an active user. *)
Definition authentic (d : draws) (r : request) (w : world) (p : AuthenticatedPrincipal) : Prop :=
  ∃ session user, raw_session_token r ≠ "" ∧ resolved d (raw_session_token r) w = Ok (session, Some user) ∧
    Identity.u_active user = true ∧ p = principal user session (raw_session_token r).

(** A deny never answers. *)
Lemma ends_in_error {B C} (m : M world B) e w : is_ok ((_ ← m; lift (Err (A := C) e)) w).1 = false.
Proof. rewrite run_bind. by destruct (m w) as [[b|x] w1]. Qed.

Lemma deny_err {B} d r w : is_ok (deny_authentication (B := B) d r w).1 = false.
Proof.
  unfold deny_authentication. rewrite run_bind. destruct (should_audit d r w) as [[b|e] w1]; [|done]. apply ends_in_error.
Qed.

Lemma deny_not_ok {B} d r w (b : B) w' : deny_authentication d r w ≠ (Ok b, w').
Proof. intros E. pose proof (deny_err (B := B) d r w) as Hd. by rewrite E in Hd. Qed.

Lemma authenticate_ok d r w p w' : authenticate d r w = (Ok p, w') → w' = w ∧ authentic d r w p.
Proof.
  unfold authenticate. destruct (String.eqb_spec (raw_session_token r) "") as [|Hne]; [by intros ?%deny_not_ok|].
  rewrite run_bind. unfold try_except. rewrite resolve_run. destruct (resolved _ _ w) as [[session [user|]]|e] eqn:E.
  - destruct (Identity.u_active user) eqn:Ea; [|by intros ?%deny_not_ok]. intros [= <- <-]. split; [done|]. by exists session, user.
  - by intros ?%deny_not_ok.
  - destruct (exn_isa (exn_cls e) SessionError).
    + pose proof (deny_err (B := Sessions.SessionRecord * option Identity.UserRecord) d r w) as Hd.
      destruct (deny_authentication d r w) as [[x|e'] w1]; [discriminate Hd|discriminate].
    + destruct (store_failure e); discriminate.
Qed.

Lemma preserves_authenticate i s l d r : preserves (stores i s l) (authenticate d r).
Proof.
  unfold authenticate. apply preserves_if; [apply preserves_deny|]. apply preserves_bind.
  - apply preserves_try; [intros w Hw; unfold post; by rewrite resolve_run|]. intros e k.
    destruct (exn_isa _ _); [intros [= <-]; apply preserves_deny|]. destruct (store_failure e); intros [= <-]; apply preserves_lift.
  - intros [session [user|]]; [|apply preserves_deny]. apply preserves_if; [apply preserves_ret|apply preserves_deny].
Qed.

Lemma matching_iff c h e : matching_csrf c h e = true ↔ c = h ∧ h = e ∧ fullmatch HEX_DIGEST e = true.
Proof.
  unfold matching_csrf, same_text. rewrite !andb_true_iff, !bool_decide_eq_true. split; [intros [[[H1 H2] ->] ->]; done|].
  intros (-> & -> & Hf). done.
Qed.

(** The double-submitted token of the session. *)
Definition csrf_bound (r : request) (raw : string) : Prop :=
  cookie_of r (csrf_cookie_name policy) = session_csrf raw ∧ header_of r (csrf_header_name policy) = session_csrf raw.

Lemma verify_csrf_ok d r w p w' : verify_csrf d r w = (Ok p, w') → w' = w ∧ authentic d r w p ∧ csrf_bound r (token p).
Proof.
  unfold verify_csrf. intros (p1 & w1 & (-> & Ha)%authenticate_ok & H2)%run_bind_ok_inv.
  destruct (matching_csrf _ _ _) eqn:Em; cbn [negb] in H2.
  - injection H2 as <- <-. apply matching_iff in Em as (E1 & E2 & _). split_and!; [done..|]. split; congruence.
  - apply run_bind_ok_inv in H2 as (u & w2 & _ & [=]).
Qed.

Lemma preserves_verify_csrf i s l d r : preserves (stores i s l) (verify_csrf d r).
Proof.
  apply preserves_bind; [apply preserves_authenticate|]. intros p. apply preserves_if; [|apply preserves_ret].
  apply preserves_bind; [apply preserves_audit|intros _; apply preserves_lift].
Qed.

(** C6: The guard of a route.  [require_permission], with or without CSRF,
    answers a principal only for a request whose cookie holds the token of a
    valid session of an active user, who has the permission; with CSRF also
    only if the cookie and the header both hold the token bound to that
    session.  It then changes nothing; and whatever it raises, the identities, the
    sessions and the limiter are unchanged. *)
Theorem guard_sound permission csrf d r w :
  unmoved w (require_permission permission csrf d r w).2 ∧
  ∀ p w', require_permission permission csrf d r w = (Ok p, w') →
    w' = w ∧ authentic d r w p ∧ (Identity.require_permission (user_id p) permission (w_identity w)).1 = Ok tt ∧
    (csrf = true → csrf_bound r (token p)).
Proof.
  split.
  - assert (preserves (unmoved w) (require_permission permission csrf d r)) as H1; [|by apply H1].
    apply preserves_bind; [apply preserves_if; [apply preserves_verify_csrf|apply preserves_authenticate]|]. intros p.
    apply preserves_bind; [|intros _; apply preserves_ret]. apply preserves_try.
    + intros w1 Hw1. unfold post. by rewrite on_identity_reads by apply reads_permission.
    + intros e k. destruct (exn_isa _ _); [intros [= <-]; apply preserves_bind; [apply preserves_audit|intros _; apply preserves_lift]|].
      destruct (store_failure e); intros [= <-]; apply preserves_lift.
  - intros p w'. unfold require_permission. intros (p1 & w1 & H1 & H2)%run_bind_ok_inv.
    assert (w1 = w ∧ authentic d r w p1 ∧ (csrf = true → csrf_bound r (token p1))) as (-> & Ha & Hc).
    { destruct csrf; [apply verify_csrf_ok in H1 as (? & ? & ?); by split_and!|apply authenticate_ok in H1 as [? ?]; by split_and!]. }
    apply run_bind_ok_inv in H2 as (u & w2 & H2 & [= <- <-]). unfold try_except in H2.
    rewrite on_identity_reads in H2 by apply reads_permission. destruct (Identity.require_permission _ _ _).1 as [[]|e] eqn:Ep.
    + injection H2 as _ <-. by split_and!.
    + destruct (exn_isa _ _); [apply run_bind_ok_inv in H2 as (u1 & w3 & _ & [=])|destruct (store_failure e); discriminate].
Qed.

(** *** Login *)

(** [_optional_principal] reads. *)
Lemma optional_run d r w : (optional_principal d r w).2 = w ∧
  ∀ p, (optional_principal d r w).1 = Ok (Some p) → authentic d r w p.
Proof.
  unfold optional_principal. destruct (String.eqb_spec (raw_session_token r) "") as [|Hne]; [done|].
  rewrite run_bind. unfold try_except. rewrite run_bind, resolve_run. destruct (resolved _ _ w) as [[session user]|e] eqn:E; cbn [fst snd mret M_ret].
  - split; [done|]. intros p [= Hp]. destruct user as [user|]; [|done]. destruct (Identity.u_active user) eqn:Ea; [|done].
    injection Hp as <-. by exists session, user.
  - destruct (exn_isa _ _); [done|]. by destruct (store_failure e).
Qed.

(** What a request to log in must show against forged ones: the same token in
    the cookie and the header, signed for a visitor within its lifetime, or bound to the session. *)
Definition csrf_shown (d : draws) (r : request) (w : world) : Prop :=
  cookie_of r (csrf_cookie_name policy) = header_of r (csrf_header_name policy) ∧
  (valid_bootstrap_csrf d (cookie_of r (csrf_cookie_name policy)) = true ∨
   ∃ p, authentic d r w p ∧ csrf_bound r (token p)).

Lemma login_csrf_run d r w : (valid_login_csrf d r w).2 = w ∧ ((valid_login_csrf d r w).1 = Ok true → csrf_shown d r w).
Proof.
  unfold valid_login_csrf. destruct (_ || _); [done|]. destruct (_ || _); [done|].
  destruct (same_text _ _) eqn:Es; [|done]. apply bool_decide_eq_true in Es. cbn [negb].
  destruct (valid_bootstrap_csrf _ _) eqn:Eb; [split; [done|]; intros _; split; [done|by left]|].
  rewrite run_bind. destruct (optional_run d r w) as [Hw Hp]. destruct (optional_principal d r w) as [[[p|]|e] w1]; cbn [fst snd] in *; subst w1; [|done..].
  cbn [mret M_ret fst snd]. split; [done|]. intros [= Hm]. apply matching_iff in Hm as (E1 & E2 & _). split; [done|]. right. exists p.
  split; [by apply Hp|]. split; congruence.
Qed.

(** No session that is live now was not live before. *)
Definition no_new (s s' : Sessions.store) : Prop := dict_wf (Sessions.recs s') ∧
  ∀ i x', dict_get (Sessions.recs s') i = Some x' → Sessions.s_revoked_at x' = None →
    ∃ x, dict_get (Sessions.recs s) i = Some x ∧ Sessions.s_revoked_at x = None ∧ Sessions.same_session x x'.

Lemma no_new_refl s : dict_wf (Sessions.recs s) → no_new s s.
Proof. intros Hw. split; [done|]. intros i x' Hx Hr. by exists x'. Qed.

Lemma no_new_trans s1 s2 s3 : no_new s1 s2 → no_new s2 s3 → no_new s1 s3.
Proof.
  intros [_ H1] [Hw H2]. split; [done|]. intros i x' Hx Hr. destruct (H2 i x' Hx Hr) as (x2 & Hx2 & Hr2 & E2).
  destruct (H1 i x2 Hx2 Hr2) as (x1 & Hx1 & Hr1 & E1). exists x1. split_and!; [done..|].
  destruct E1 as (?&?&?), E2 as (?&?&?). by split_and!; etrans.
Qed.

Lemma revoke_no_new d id s : dict_wf (Sessions.recs s) → no_new s (post (Sessions.revoke (wall d) id None) s).
Proof.
  intros Hw. destruct (Sessions.revoke_step (D := Identity.store) session_digest token_pepper session_config (wall d) id None s Hw) as [Hw' Hst].
  split; [exact Hw'|]. intros i x' Hx Hr. destruct (Hst i) as [Hb _].
  destruct (Hb x' Hx) as [(? & ? & ? & ? & ? & ? & ? & [=] & _)|(x & Hx' & He & Hrv)]. exists x. split_and!; [done|by apply Hrv|done].
Qed.

(** What the steps of a login may do to the world: the identities stay, no live session appears. *)
Definition harmless (w w' : world) : Prop :=
  w_identity w' = w_identity w ∧ no_new (w_sessions w) (w_sessions w').

Lemma revoke_session_run d id w : (revoke_session d id w).2 =
  World (w_identity w) (post (Sessions.revoke (wall d) id None) (w_sessions w)) (w_audit w) (w_limiter w) (w_sampler w).
Proof. unfold revoke_session. by rewrite on_sessions_run. Qed.

Lemma create_session_run d uid w :
  (∃ tk s, create_session d uid w = (Ok tk, World (w_identity w) s (w_audit w) (w_limiter w) (w_sampler w)) ∧
     Sessions.create session_digest token_pepper session_config (directory w) (fresh_id d) (fresh_secret d) (wall d) uid None None (w_sessions w) = (Ok tk, s)) ∨
  ∃ e, create_session d uid w = (Err e, w).
Proof.
  unfold create_session. rewrite on_sessions_run. destruct (Sessions.create _ _ _ _ _ _ _ _ _ _ _) as [[tk|e] s] eqn:E; [left; by exists tk, s|].
  right. exists e. apply Sessions.create_err in E. subst s. by destruct w.
Qed.

(** The session that was just issued is revoked for sure. *)
Lemma revoke_issued d dir uid s0 s tk :
  dict_wf (Sessions.recs s0) →
  Sessions.create session_digest token_pepper session_config dir (fresh_id d) (fresh_secret d) (wall d) uid None None s0 = (Ok tk, s) →
  no_new s0 (post (Sessions.revoke (wall d) (Sessions.t_session_id tk) None) s).
Proof.
  intros Hw Hc. pose proof Hc as (issued & Hi & _ & Hid & _)%Sessions.create_run. rewrite Hid.
  destruct (Sessions.create_step (D := Identity.store) session_digest token_pepper session_config dir (fresh_id d) (fresh_secret d) (wall d) uid None None s0 Hw)
    as [Hw1 Hst1]. simpl in Hw1, Hst1. unfold post in Hw1, Hst1. rewrite Hc in Hw1, Hst1. cbn [snd] in Hw1, Hst1.
  destruct (Sessions.revoke_step (D := Identity.store) session_digest token_pepper session_config (wall d) (fresh_id d) None s Hw1) as [Hw2 Hst2].
  split; [exact Hw2|]. intros i x' Hx Hr. destruct (Hst2 i) as [Hb _].
  destruct (Hb x' Hx) as [(? & ? & ? & ? & ? & ? & ? & [=] & _)|(x & Hx' & He & Hrv)]. destruct (Hrv Hr) as [Hr1 Hno].
  simpl in Hno. rewrite Hi in Hno. cbn [is_ok] in Hno. rewrite andb_true_r in Hno. apply bool_decide_eq_false in Hno.
  destruct (Hst1 i) as [Hb1 _]. destruct (Hb1 x Hx') as [(? & ? & ? & ? & ? & ? & ? & [= _ <-] & _)|(x0 & Hx0 & He0 & Hrv0)]; [done|].
  exists x0. destruct He as (?&?&?), He0 as (?&?&?). split; [done|]. split; [by apply Hrv0|]. by split_and!; etrans.
Qed.

(** The end of a login. *)
Lemma audit_run c w :
  (∃ a, audit c w = (Ok tt, World (w_identity w) (w_sessions w) a (w_limiter w) (w_sampler w)) ∧ audit_append c (w_audit w) = (Ok tt, a)) ∨
  ∃ w', audit c w = (Err service_unavailable, w') ∧ unmoved w w'.
Proof.
  unfold audit, try_except, on_audit. destruct (audit_append c (w_audit w)) as [[[]|e] a] eqn:E; [left; by exists a|right].
  eexists. by split.
Qed.

(** What follows when no session could be issued. *)
Definition issue_failed (d : draws) (r : request) (e : exn) : M world Sessions.SessionToken :=
  if session_failure e then _ ← audit_login_denial d r "session_unavailable" Audit.FAILURE; lift (Err service_unavailable) else lift (Err e).

Definition drop_previous (d : draws) (previous : option AuthenticatedPrincipal) : M world unit :=
  match previous with Some p => _ ← revoke_session d (session_id p); mret tt | None => mret tt end.

Lemma issue_session_eq d r uid previous w :
  issue_session d r uid previous w =
  match drop_previous d previous w with
  | (Ok _, w1) => match create_session d uid w1 with (Ok tk, w2) => (Ok tk, w2) | (Err e, w2) => issue_failed d r e w2 end
  | (Err e, w1) => issue_failed d r e w1
  end.
Proof.
  unfold issue_session. unfold try_except at 1. rewrite run_bind. fold (drop_previous d previous). unfold issue_failed.
  destruct (drop_previous d previous w) as [[[]|e] w1]; [|by destruct (session_failure e)].
  destruct (create_session d uid w1) as [[tk|e] w2]; [done|by destruct (session_failure e)].
Qed.

Lemma issue_failed_run d r e w s0 w2 :
  no_new (w_sessions w) s0 → stores (w_identity w) s0 (w_limiter w) w2 →
  ∃ e' w', issue_failed d r e w2 = (Err e', w') ∧ harmless w w' ∧ w_limiter w' = w_limiter w.
Proof.
  intros Hn Hw2. assert (stores (w_identity w) s0 (w_limiter w) (issue_failed d r e w2).2) as (Hi & Hs & Hl).
  { revert w2 Hw2. apply preserves_if; [|apply preserves_lift]. apply preserves_bind; [apply preserves_denial|intros _; apply preserves_lift]. }
  assert (is_ok (issue_failed d r e w2).1 = false) as He by (unfold issue_failed; destruct (session_failure e); [apply ends_in_error|done]).
  destruct (issue_failed d r e w2) as [[tk|e'] w']; [discriminate He|]. cbn [snd] in *. exists e', w'.
  split; [done|]. split; [|done]. split; [done|]. by rewrite Hs.
Qed.

Lemma drop_previous_run d previous w : dict_wf (Sessions.recs (w_sessions w)) →
  ∃ s0, no_new (w_sessions w) s0 ∧ stores (w_identity w) s0 (w_limiter w) (drop_previous d previous w).2.
Proof.
  intros Hwf. destruct previous as [p|]; cbn [drop_previous]; [|exists (w_sessions w); split; [by apply no_new_refl|done]].
  exists (post (Sessions.revoke (wall d) (session_id p) None) (w_sessions w)). split; [by apply revoke_no_new|].
  rewrite run_bind. pose proof (revoke_session_run d (session_id p) w) as Hr.
  by destruct (revoke_session d (session_id p) w) as [[x|e] w1]; cbn [snd mret M_ret] in *; subst w1.
Qed.

Lemma issue_session_run d r uid previous w : dict_wf (Sessions.recs (w_sessions w)) →
  (∃ tk s0 s w', issue_session d r uid previous w = (Ok tk, w') ∧ no_new (w_sessions w) s0 ∧
     stores (w_identity w) s (w_limiter w) w' ∧
     Sessions.create session_digest token_pepper session_config (directory w) (fresh_id d) (fresh_secret d) (wall d) uid None None s0 = (Ok tk, s)) ∨
  ∃ e w', issue_session d r uid previous w = (Err e, w') ∧ harmless w w' ∧ w_limiter w' = w_limiter w.
Proof.
  intros Hwf. rewrite issue_session_eq. destruct (drop_previous_run d previous w Hwf) as (s0 & Hn & Hw1).
  destruct (drop_previous d previous w) as [[[]|e] w1]; cbn [snd] in Hw1; [|right; by eapply issue_failed_run].
  destruct (create_session_run d uid w1) as [(tk & s & -> & Hc)|(e & ->)]; [left|right; by eapply issue_failed_run].
  destruct Hw1 as (Hi & Hs & Hl). exists tk, s0, s. eexists. split; [done|]. split; [done|]. split; [done|].
  rewrite <-Hs. unfold directory in *. by rewrite <-Hi.
Qed.

(** What an answered login has done: a session of the user was issued, an
    audit entry of it was accepted, and only the cookies of that session were sent. *)
Definition logged_in (d : draws) (user : Identity.UserRecord) (w w' : world) (answer : PublicIdentity * list cookie) : Prop :=
  w_identity w' = w_identity w ∧ ∃ tk s0 a0 rotated, no_new (w_sessions w) s0 ∧
    Sessions.create session_digest token_pepper session_config (directory w) (fresh_id d) (fresh_secret d) (wall d) (Identity.u_id user) None None s0
      = (Ok tk, w_sessions w') ∧
    audit_append (AuditCall (Some (Identity.u_id user)) "identity.login" "identity.session" (Some (Sessions.t_session_id tk)) Audit.SUCCESS
      [("rotated_existing_session", JBool rotated)]) a0 = (Ok tt, w_audit w') ∧
    answer = (public_identity user, authenticated_cookies d tk).

Lemma revoke_after_run d tk w : revoke_after_failed_issue d tk w =
  (Ok tt, World (w_identity w) (post (Sessions.revoke (wall d) (Sessions.t_session_id tk) None) (w_sessions w)) (w_audit w) (w_limiter w) (w_sampler w)).
Proof.
  unfold revoke_after_failed_issue, try_except. rewrite run_bind. pose proof (revoke_session_run d (Sessions.t_session_id tk) w) as Hr.
  destruct (revoke_session d (Sessions.t_session_id tk) w) as [[x|e] w1]; cbn [snd] in Hr; by subst w1.
Qed.

Lemma finish_login_run d r user w : dict_wf (Sessions.recs (w_sessions w)) →
  (∃ answer w', finish_login d r user w = (Ok answer, w') ∧ logged_in d user w w' answer ∧
     w_limiter w' = RateLimit.record_success sha256_hex limit_policy (mono d) (key_for r) (w_limiter w)) ∨
  ∃ e w', finish_login d r user w = (Err e, w') ∧ harmless w w' ∧ w_limiter w' = w_limiter w.
Proof.
  intros Hwf. unfold finish_login. rewrite run_bind. destruct (optional_run d r w) as [Hw _].
  destruct (optional_principal d r w) as [[previous|e] w1]; cbn [snd] in Hw; subst w1.
  2:{ right. exists e, w. split; [done|]. split; [split; [done|by apply no_new_refl]|done]. }
  rewrite run_bind. destruct (issue_session_run d r (Identity.u_id user) previous w Hwf) as [(tk & s0 & s & w1 & -> & Hn & (Hi & Hs & Hl) & Hc)|(e & w1 & -> & Hh)].
  2:{ right. by exists e, w1. }
  rewrite run_bind. set (c := AuditCall _ _ _ _ _ _). unfold try_except.
  destruct (audit_run c w1) as [(a & -> & Ha)|(w2 & -> & Hi2 & Hs2 & Hl2)].
  - left. eexists _, _. split; [done|]. cbn [w_identity w_sessions w_limiter w_audit]. rewrite Hl. split; [|done]. split; [done|].
    exists tk, s0, (w_audit w1), (match previous with Some _ => true | None => false end). cbn [w_sessions w_audit]. by rewrite Hs.
  - right. change (exn_isa (exn_cls service_unavailable) HTTPException) with true.
    exists service_unavailable. eexists. split; [lazy iota beta zeta; rewrite run_bind, revoke_after_run; done|]. unfold harmless. cbn [w_identity w_sessions w_limiter].
    split; [|congruence]. split; [congruence|]. rewrite Hs2, Hs.
    eapply no_new_trans; [exact Hn|]. eapply revoke_issued; [apply Hn|exact Hc].
Qed.

(** The request is refused before anything is looked at. *)
Definition hidden (r : request) : bool :=
  match wan_control_hostname with Some h => request_is_wan_control r h | None => false end.

(** What the limiter answers for the peer of a request, and the world after. *)
Definition limited (d : draws) (r : request) (w : world) : option Z :=
  (RateLimit.check sha256_hex limit_policy (mono d) (key_for r) (w_limiter w)).1.
Definition checked (d : draws) (r : request) (w : world) : world := (check_limiter d r w).2.

(** The body of the request is malformed, or not accepted by the identity store. *)
Definition bad_credentials (r : request) (i : Identity.store) : Prop :=
  match read_login_credentials r with
  | Err e => exn_isa (exn_cls e) HTTPException = true
  | Ok (address, password) => ∃ e,
      (Identity.authenticate unicode_fold dummy_password_hash address password i).1 = Err e ∧
      exn_isa (exn_cls e) AuthenticationError = true
  end.

(** A failed attempt: one that the peer must pay for. *)
Definition failed_attempt (d : draws) (r : request) (w : world) : Prop :=
  hidden r = false ∧ limited d r w = None ∧
  ((valid_login_csrf d r (checked d r w)).1 = Ok false ∨
   (valid_login_csrf d r (checked d r w)).1 = Ok true ∧ bad_credentials r (w_identity w)).

Lemma refuse_run {B} d r reason outcome e w : ∃ e' w',
  refuse_login (B := B) d r reason outcome e w = (Err e', w') ∧
  stores (w_identity w) (w_sessions w) (RateLimit.record_failure sha256_hex limit_policy (mono d) (key_for r) (w_limiter w)) w'.
Proof.
  unfold refuse_login. rewrite run_bind. unfold record_failure, on_limiter, modify_st. set (w1 := World _ _ _ _ _).
  set (m := _ ← audit_login_denial d r reason outcome; lift (Err (A := B) e)).
  assert (is_ok (m w1).1 = false) as He by apply ends_in_error.
  assert (preserves (unmoved w1) m) as Hp by (apply preserves_bind; [apply preserves_denial|intros _; apply preserves_lift]).
  specialize (Hp w1 (conj eq_refl (conj eq_refl eq_refl))). unfold post in Hp.
  destruct (m w1) as [[b|e'] w']; [discriminate He|]. by exists e', w'.
Qed.

Lemma harmless_stores w w' l : dict_wf (Sessions.recs (w_sessions w)) → stores (w_identity w) (w_sessions w) l w' → harmless w w'.
Proof. intros Hwf (Hi & Hs & _). split; [done|]. rewrite Hs. by apply no_new_refl. Qed.

Definition login_refused (d : draws) (r : request) (w w' : world) : Prop :=
  harmless w w' ∧ (failed_attempt d r w →
    w_limiter w' = RateLimit.record_failure sha256_hex limit_policy (mono d) (key_for r) (w_limiter (checked d r w))).

(** The part of [login] after the CSRF check. *)
Definition attempt (d : draws) (r : request) : M world (PublicIdentity * list cookie) :=
  match read_login_credentials r with
  | Err e => if exn_isa (exn_cls e) HTTPException then refuse_login d r "invalid_request" Audit.FAILURE e else lift (Err e)
  | Ok (address, password) =>
      user ← try_except (on_identity (Identity.authenticate unicode_fold dummy_password_hash address password))
               (λ e, if exn_isa (exn_cls e) AuthenticationError then
                       Some (refuse_login d r "invalid_credentials" Audit.FAILURE (http "401" "invalid credentials"))
                     else if store_failure e then Some (lift (Err service_unavailable)) else None);
      finish_login d r user
  end.

Abbreviation charged d r w := (RateLimit.record_failure sha256_hex limit_policy (mono d) (key_for r) (w_limiter w)).
Abbreviation cleared d r w := (RateLimit.record_success sha256_hex limit_policy (mono d) (key_for r) (w_limiter w)).

Lemma refuse_harmless {B} d r reason outcome e w : dict_wf (Sessions.recs (w_sessions w)) → ∃ e' w',
  refuse_login (B := B) d r reason outcome e w = (Err e', w') ∧ harmless w w' ∧ w_limiter w' = charged d r w.
Proof.
  intros Hwf. destruct (refuse_run (B := B) d r reason outcome e w) as (e' & w' & E & Hst). exists e', w'.
  split; [done|]. split; [by eapply harmless_stores|apply Hst].
Qed.

Lemma attempt_run d r w : dict_wf (Sessions.recs (w_sessions w)) →
  (∃ answer w' address password user, attempt d r w = (Ok answer, w') ∧ read_login_credentials r = Ok (address, password) ∧
     (Identity.authenticate unicode_fold dummy_password_hash address password (w_identity w)).1 = Ok user ∧
     logged_in d user w w' answer ∧ w_limiter w' = cleared d r w) ∨
  ∃ e w', attempt d r w = (Err e, w') ∧ harmless w w' ∧ (bad_credentials r (w_identity w) → w_limiter w' = charged d r w).
Proof.
  intros Hwf. assert (harmless w w) as Hh by (by split; [|apply no_new_refl]).
  unfold attempt, bad_credentials. destruct (read_login_credentials r) as [[address password]|e].
  2:{ right. destruct (exn_isa (exn_cls e) HTTPException); [|by exists e, w].
      destruct (refuse_harmless (B := PublicIdentity * list cookie) d r "invalid_request" Audit.FAILURE e w Hwf) as (e' & w' & -> & ? & ?).
      by exists e', w'. }
  rewrite run_bind. unfold try_except. rewrite on_identity_reads by apply reads_authenticate.
  destruct (Identity.authenticate _ _ _ _ _).1 as [user|e] eqn:Ea.
  - destruct (finish_login_run d r user w Hwf) as [(answer & w' & -> & Hl & Hr)|(e & w' & -> & ? & ?)].
    + left. by exists answer, w', address, password, user.
    + right. exists e, w'. split; [done|]. split; [done|]. by intros (? & ? & _).
  - right. destruct (exn_isa (exn_cls e) AuthenticationError) eqn:Ex.
    + destruct (refuse_harmless (B := Identity.UserRecord) d r "invalid_credentials" Audit.FAILURE (http "401" "invalid credentials") w Hwf)
        as (e' & w' & -> & ? & ?). by exists e', w'.
    + assert (∀ k, (∃ e0, @Err Identity.UserRecord e = Err e0 ∧ exn_isa (exn_cls e0) AuthenticationError = true) → w_limiter w = k) as Hno
        by (intros k (? & [= <-] & ?); congruence).
      destruct (store_failure e); eexists _, w; split; try done; split; try done; apply Hno.
Qed.

(** The limiter is asked first. *)
Lemma checked_run d r w : ∃ l, check_limiter d r w = (Ok (limited d r w), checked d r w) ∧
  checked d r w = World (w_identity w) (w_sessions w) (w_audit w) l (w_sampler w).
Proof. unfold limited, checked, check_limiter. destruct (RateLimit.check _ _ _ _ _) as [o s]. by exists s. Qed.

Lemma throttled_run d r e w : dict_wf (Sessions.recs (w_sessions w)) → ∃ e' w',
  (_ ← audit_login_denial d r "rate_limited" Audit.DENIED; lift (Err (A := PublicIdentity * list cookie) e)) w = (Err e', w') ∧ harmless w w'.
Proof.
  intros Hwf. set (m := _ ← _; _). assert (is_ok (m w).1 = false) as He by apply ends_in_error.
  assert (preserves (unmoved w) m) as Hp by (apply preserves_bind; [apply preserves_denial|intros _; apply preserves_lift]).
  specialize (Hp w (conj eq_refl (conj eq_refl eq_refl))). unfold post in Hp.
  destruct (m w) as [[b|e'] w']; [discriminate He|]. exists e', w'. split; [done|]. by eapply harmless_stores.
Qed.

(** C5: Logging in.  A login is answered only when the peer is not throttled,
    the request shows a CSRF token that is its own, the body holds
    credentials, and the identity store authenticates them: then a session of that
    user was issued, the audit log accepted the entry of the login, the cookies are those of
    that session, and the limiter is told of the success.  A login that is refused, at
    whatever step (the audit log failing after the session was issued included),
    changes no identity and leaves no live session that was not live before;
    and a failed attempt (forged, malformed or with wrong credentials) is
    charged to the peer, even if its audit entry fails. *)
Theorem login_exact d r w : dict_wf (Sessions.recs (w_sessions w)) →
  (∃ answer w' address password user, login d r w = (Ok answer, w') ∧
     hidden r = false ∧ limited d r w = None ∧ csrf_shown d r w ∧ read_login_credentials r = Ok (address, password) ∧
     (Identity.authenticate unicode_fold dummy_password_hash address password (w_identity w)).1 = Ok user ∧
     logged_in d user w w' answer ∧
     w_limiter w' = cleared d r (checked d r w)) ∨
  ∃ e w', login d r w = (Err e, w') ∧ login_refused d r w w'.
Proof.
  intros Hwf. unfold login. fold (hidden r). unfold login_refused, failed_attempt.
  destruct (hidden r) eqn:Eh.
  { right. eexists _, w. split; [done|]. split; [split; [done|by apply no_new_refl]|]. by intros [Hx _]. }
  rewrite run_bind. destruct (checked_run d r w) as (l & -> & Ew). set (w1 := checked d r w) in *. clearbody w1.
  assert (dict_wf (Sessions.recs (w_sessions w1))) as Hwf1 by (by rewrite Ew).
  assert (∀ w', harmless w1 w' → harmless w w') as Hh by (intros w'; by rewrite Ew).
  destruct (limited d r w) as [seconds|] eqn:El.
  { right. destruct (throttled_run d r (too_many seconds) w1 Hwf1) as (e' & w' & -> & Hw'). exists e', w'.
    split; [done|]. split; [by apply Hh|by intros (_ & ? & _)]. }
  rewrite run_bind. destruct (login_csrf_run d r w1) as [Hw Hs].
  destruct (valid_login_csrf d r w1) as [[[]|e] w2]; cbn [fst snd negb] in *; subst w2.
  - fold (attempt d r). destruct (attempt_run d r w1 Hwf1) as [(answer & w' & address & password & user & -> & Hc & Ha & Hl & Hr)|(e & w' & -> & Hw' & Hb)].
    + left. exists answer, w', address, password, user. subst w1. by split_and!; try (by apply Hs).
    + right. exists e, w'. split; [done|]. split; [by apply Hh|]. intros (_ & _ & [?|[_ Hbad]]); [done|]. apply Hb. by rewrite Ew.
  - right. destruct (refuse_harmless (B := PublicIdentity * list cookie) d r "csrf_failed" Audit.DENIED (http "403" "request denied") w1 Hwf1)
      as (e' & w' & -> & ? & ?). exists e', w'. split; [done|]. split; [by apply Hh|done].
  - right. exists e, w1. split; [done|]. split; [apply Hh; by split; [|apply no_new_refl]|]. by intros (_ & _ & [?|[? _]]).
Qed.
End http_auth.

(** ** Witnesses *)

Definition demo_sign (_ _ : string) : string := "0123456789abcdef0123456789abcdef0123456789abcdef0123456789abcdef".
Definition demo_loads (body : string) : result json :=
  Ok (JObj [("email", JStr "ann@example.org"); ("password", JStr body)]).
Definition demo_append (c : audit_call) : M (list audit_call) unit := modify_st (cons c).
Definition demo_policy : HttpAuthPolicy := AuthPolicy "session" "control" "csrf" "X-CSRF" 600 4096.
Definition demo_limits : RateLimit.policy := RateLimit.Policy 5 300 300 100.
Definition demo_sampling : RateLimit.sampling := RateLimit.Sampling 60 100.
Definition demo_draws : draws := Draws 10 20 1000 Sessions.demo_id Sessions.demo_secret Sessions.demo_secret.
Definition demo_world : world (A := list audit_call) := World Identity.demo_store None [] [] [].

Definition demo_csrf : string := bootstrap_csrf demo_sign "key" demo_draws.
Definition demo_request (session csrf : string) (password : string) : request :=
  Request (Some "10.0.0.1") (λ h, if String.eqb h "X-CSRF" then Some csrf else None)
    [("session", session); ("csrf", csrf)] [password].

Definition demo_login : request → M (world (A := list audit_call)) (PublicIdentity * list cookie) :=
  login (H := Identity.demo_hashing) id "dummy" demo_mac "pepper" Sessions.demo_config id demo_limits demo_sampling
    demo_sign "key" demo_loads demo_append demo_policy true None demo_draws.

(** Ann logs in, and only she. *)
Example demo_logs_in : is_ok (demo_login (demo_request "" demo_csrf "ann password") demo_world).1 = true
  ∧ is_ok (demo_login (demo_request "" demo_csrf "bob password") demo_world).1 = false
  ∧ is_ok (demo_login (demo_request "" (demo_csrf +:+ "0") "ann password") demo_world).1 = false.
Proof. vm_compute. split_and!; reflexivity. Qed.

Lemma login_exact_witness :
  ∃ answer w', demo_login (demo_request "" demo_csrf "ann password") demo_world = (Ok answer, w') ∧
    ∃ user, logged_in demo_mac "pepper" Sessions.demo_config demo_sign "key" demo_append demo_policy true
      demo_draws user demo_world w' answer.
Proof.
  destruct (login_exact (H := Identity.demo_hashing) id "dummy" demo_mac "pepper" Sessions.demo_config id demo_limits demo_sampling
    demo_sign "key" demo_loads demo_append demo_policy true None demo_draws (demo_request "" demo_csrf "ann password") demo_world)
    as [(answer & w' & address & password & user & E & _ & _ & _ & _ & _ & Hl & _)|(e & w' & E & _)].
  - constructor.
  - exists answer, w'. split; [exact E|]. exists user. exact Hl.
  - vm_compute in E. discriminate E.
Defined.

(** Ann's next request, with her session. *)
Definition demo_next : world := (demo_login (demo_request "" demo_csrf "ann password") demo_world).2.
Definition demo_token : string := Sessions.demo_id +:+ "." +:+ Sessions.demo_secret.
Definition demo_guard (permission csrf : string) : M (world (A := list audit_call)) AuthenticatedPrincipal :=
  require_permission demo_mac "pepper" id demo_sampling demo_sign "key" demo_append demo_policy true None
    permission true demo_draws (demo_request demo_token csrf "").

Example demo_guards : is_ok (demo_guard "plaik.theme.edit" (demo_sign "" "") demo_next).1 = true
  ∧ is_ok (demo_guard "plaik.users" (demo_sign "" "") demo_next).1 = false
  ∧ is_ok (demo_guard "plaik.theme.edit" "" demo_next).1 = false.
Proof. vm_compute. split_and!; reflexivity. Qed.

Lemma guard_sound_witness :
  ∃ p, (demo_guard "plaik.theme.edit" (demo_sign "" "") demo_next).1 = Ok p ∧
    (Identity.require_permission (user_id p) "plaik.theme.edit" (w_identity demo_next)).1 = Ok tt ∧
    csrf_bound demo_sign "key" demo_policy (demo_request demo_token (demo_sign "" "") "") (token p).
Proof.
  destruct (demo_guard "plaik.theme.edit" (demo_sign "" "") demo_next) as [[p|e] w'] eqn:E; [|vm_compute in E; discriminate E].
  destruct (guard_sound demo_mac "pepper" id demo_sampling demo_sign "key" demo_append demo_policy true None
    "plaik.theme.edit" true demo_draws (demo_request demo_token (demo_sign "" "") "") demo_next) as [_ Hs].
  destruct (Hs p w' E) as (_ & _ & Hp & Hc). exists p. split; [reflexivity|]. split; [exact Hp|]. apply Hc. reflexivity.
Defined.
End HttpAuth.
