(* ===== verification/PackageLifecycle.v ===== *)
(** * The package lifecycle (package_lifecycle.py)

    [TransactionalPackageManager]: install, update, enable, disable, uninstall
    and recovery, over the registry file, the directories of installed, staged and
    replaced packages, the files of transaction intents, and the operation
    journal, which is the abstract journal of [OperationJournal].

    A step that changes one of these may fail: before it has an effect, after
    it, or, where a tree of files is written or removed, in the middle; and it may
    then raise, or be the last thing the process does.  [oracle] tells what
    becomes of each step.  The death of the process is an exception outside
    [Exception], which no clause of the code catches.  Callbacks of the constructor
    and the manifests are parameters; paths are names in their directory, a
    directory entry is a tree, a link to one, or a file.  Both locks are held
    throughout a call, which is why a call is a run of one thread. *)

From Stdlib Require Import Ascii ZArith Lia.
From stdpp Require Import base decidable numbers list strings gmap sets.
From S2P Require Import Prelude PyData Regex JsonGraph HashChain OperationJournal Dependencies Packages.

Module Lifecycle.
Import JsonGraph(json, JNull, JBool, JInt, JFloat, JStr, JArr, JObj).
Import Dependencies Packages.

#[global] Instance PackageRecord_eq_dec T : EqDecision T → EqDecision (PackageRecord T).
Proof. intros ?. solve_decision. Defined.

(** ** Data *)

Inductive TransactionPhase : Type := PREPARED | FILES_APPLIED | REGISTRY_APPLIED | COMMITTED | ROLLED_BACK.

#[global] Instance TransactionPhase_eq_dec : EqDecision TransactionPhase.
Proof. solve_decision. Defined.

Inductive PackageAction : Type := AInstall | AUpdate | AEnable | ADisable | AUninstall.

#[global] Instance PackageAction_eq_dec : EqDecision PackageAction.
Proof. solve_decision. Defined.

Definition action_value (a : PackageAction) : string :=
  match a with AInstall => "install" | AUpdate => "update" | AEnable => "enable" | ADisable => "disable" | AUninstall => "uninstall" end.

Record TransactionIntent (T : Type) : Type := Intent {
  i_operation_id : string; i_action : PackageAction; i_package_id : string; i_phase : TransactionPhase;
  i_before : dict string (PackageRecord T); i_after : dict string (PackageRecord T);
  i_artifact_sha256 : option string; i_signature_key_id : option string;
  i_stage_name : option string; i_backup_name : option string;
}.
Arguments Intent {T}.
Arguments i_operation_id {T}.
Arguments i_action {T}.
Arguments i_package_id {T}.
Arguments i_phase {T}.
Arguments i_before {T}.
Arguments i_after {T}.
Arguments i_artifact_sha256 {T}.
Arguments i_signature_key_id {T}.
Arguments i_stage_name {T}.
Arguments i_backup_name {T}.

Definition with_phase {T} (p : TransactionPhase) (i : TransactionIntent T) : TransactionIntent T :=
  Intent (i_operation_id i) (i_action i) (i_package_id i) p (i_before i) (i_after i) (i_artifact_sha256 i) (i_signature_key_id i)
    (i_stage_name i) (i_backup_name i).

Record PackageLifecycleResult : Type := LifecycleResult {
  lr_operation_id : string; lr_action : PackageAction; lr_package_id : string;
  lr_version : option string; lr_status : option PackageStatus; lr_idempotent_replay : bool;
}.

(** A tree of files: the JSON of its marker, if that can be read, and the rest. *)
Record tree (C : Type) : Type := Tree { t_marker : option json; t_content : C }.
Arguments Tree {C}.
Arguments t_marker {C}.
Arguments t_content {C}.

(** A verified artifact: its manifest, its digest, its signer and what it unpacks to. *)
Record VerifiedPackageArtifact (T C : Type) : Type := Artifact {
  a_manifest : T; a_sha256 : string; a_key_id : string; a_tree : tree C;
}.
Arguments Artifact {T C}.
Arguments a_manifest {T C}.
Arguments a_sha256 {T C}.
Arguments a_key_id {T C}.
Arguments a_tree {T C}.

Inductive node (C : Type) : Type := Dir (t : tree C) | Link (t : tree C) | File.
Arguments Dir {C}.
Arguments Link {C}.
Arguments File {C}.

Definition node_is_dir {C} (n : option (node C)) : bool := match n with Some (Dir _) | Some (Link _) => true | _ => false end.
Definition node_is_link {C} (n : option (node C)) : bool := match n with Some (Link _) => true | _ => false end.
Definition node_marker {C} (n : option (node C)) : option json :=
  match n with Some (Dir t) | Some (Link t) => t_marker t | _ => None end.

(** ** Steps that may fail *)

(** What a step changes. *)
Inductive label : Type :=
  | LIntent (p : TransactionPhase) | LRegistry | LMove | LRemove | LExtract | LMarker | LUnlink | LJournal
  | LExtra.   (* of a subclass *)

(** How much of a failing step takes place: nothing, all, or a part that leaves a tree. *)
Inductive extent (C : Type) : Type := Nothing | Everything | Partly (t : tree C).
Arguments Nothing {C}.
Arguments Everything {C}.
Arguments Partly {C}.

Inductive fault (C : Type) : Type := Fine | Raises (x : extent C) | Dies (x : extent C).
Arguments Fine {C}.
Arguments Raises {C}.
Arguments Dies {C}.

(** [except Exception] does not catch the end of the process. *)
Definition caught (e : exn) : bool := bool_decide (exn_cls e ≠ BaseExc).
Definition the_end : exn := Exn BaseExc "the process ends".
Definition os_error : exn := Exn OSErr "".

Definition rejected {A} (msg : string) : result A := fail TransactionalPackageError msg.

Definition OPERATION_ID : re := Seq (Chr is_alnum) (Rep 7 127 (Chr (λ c, is_alnum c || one_of "._:-" c))).

Definition validate_operation_id (v : string) : result string :=
  if fullmatch OPERATION_ID v then Ok v else fail ValueErr "invalid package lifecycle operation id".

(** ** Registries *)

Section registries.
Context {T : Type} `{PackageManifest T} (specifier_contains : string → string → result bool) (core_version : string).
Abbreviation records_map := (dict string (PackageRecord T)).

Definition require_record (rs : records_map) (id : string) : result (PackageRecord T) :=
  match dict_get rs id with Some r => Ok r | None => rejected "package is not installed" end.

Definition require_enabled_dependencies (rs : records_map) (id : string) : result unit :=
  r ← require_record rs id;
  each (λ d,
    if dp_optional d then Ok tt
    else match dict_get rs (dp_package_id d) with
         | Some target =>
             if negb (is_enabled target) then rejected "required package dependency is not enabled"
             else ok ← version_matches specifier_contains (m_version (pr_manifest target)) (dp_version d);
                  if negb ok then rejected "required package dependency is incompatible" else Ok tt
         | None => rejected "required package dependency is not enabled"
         end) (m_dependencies (pr_manifest r)).

Definition same_id (o : option string) (id : string) : bool := bool_decide (o = Some id).

Definition require_enabled_capabilities (rs : records_map) (enabling disabling : option string) : result unit :=
  let selected := List.filter (λ e : string * PackageRecord T,
                    negb (same_id disabling e.1) && (is_enabled e.2 || same_id enabling e.1)) rs in
  result_catch (resolve_capabilities specifier_contains (manifests_of selected))
    (λ e, if exn_in e [DependencyResolutionError] then Some (rejected (exn_msg e)) else None).

Definition validate_graph (rs : records_map) : result unit :=
  result_catch (_ ← resolve_install_order specifier_contains (pr_manifest <$> dict_values rs) core_version []; Ok tt)
    (λ e, if exn_in e [DependencyResolutionError] then Some (rejected "package dependency graph is invalid") else None).
End registries.

(** ** Markers *)

(** [marker == {...}], where [1 == True == 1.0]. *)
Definition is_one (j : json) : bool := JsonGraph.json_eqb j (JInt 1).

Definition marker_keys : list string := ["schema_version"; "package_id"; "version"; "artifact_sha256"; "signature_key_id"].

Definition artifact_marker (id version sha key : string) : json :=
  JObj [("schema_version", JInt 1); ("package_id", JStr id); ("version", JStr version); ("artifact_sha256", JStr sha); ("signature_key_id", JStr key)].

Definition is_text (j : option json) (s : string) : bool := match j with Some (JStr t) => String.eqb t s | _ => false end.

(** An object has no key twice. *)
Definition has_marker_keys (m : list (string * json)) : bool :=
  bool_decide (length m = length marker_keys) && forallb (λ k, dict_mem m k) marker_keys.

Definition schema_is_one (m : list (string * json)) : bool :=
  match dict_get m "schema_version" with Some j => is_one j | None => false end.

Definition marker_matches (marker : option json) (id version sha key : string) : bool :=
  match marker with
  | Some (JObj m) =>
      has_marker_keys m && schema_is_one m && is_text (dict_get m "package_id") id && is_text (dict_get m "version") version
      && is_text (dict_get m "artifact_sha256") sha && is_text (dict_get m "signature_key_id") key
  | _ => false
  end.

Definition SHA256 : re := Rep 64 64 (Chr (λ c, is_digit c || in_range "a" "f" c)).

Definition marker_valid (marker : option json) (id version : string) : bool :=
  match marker with
  | Some (JObj m) =>
      has_marker_keys m && schema_is_one m && is_text (dict_get m "package_id") id && is_text (dict_get m "version") version
      && match dict_get m "artifact_sha256" with Some (JStr s) => fullmatch SHA256 s | _ => false end
      && match dict_get m "signature_key_id" with Some (JStr s) => negb (String.eqb s "") | _ => false end
  | _ => false
  end.

Definition marker_signer (marker : option json) : result string :=
  match marker with
  | Some (JObj m) => match dict_get m "signature_key_id" with
                     | Some (JStr s) => if String.eqb s "" then rejected "installed package integrity marker is invalid" else Ok s
                     | _ => rejected "installed package integrity marker is invalid"
                     end
  | _ => rejected "installed package integrity marker is invalid"
  end.

(** ** The manager *)

(** The callbacks of the constructor. *)
Record callbacks (T C : Type) : Type := Callbacks {
  failure_injector : option (string → result unit);
  signer_transition_authorizer : option (string → string → string → string → result bool);
  stage_validator : option (option (node C) → T → dict string (PackageRecord T) → result unit);
  migration_applier : option (option (node C) → T → result unit);
  state_validator : option (PackageAction → string → PackageRecord T → dict string (PackageRecord T) → result unit);
  occupancy_reset : option (string → result unit);
}.
Arguments Callbacks {T C}.
Arguments failure_injector {T C}.
Arguments signer_transition_authorizer {T C}.
Arguments stage_validator {T C}.
Arguments migration_applier {T C}.
Arguments state_validator {T C}.
Arguments occupancy_reset {T C}.

(** What survives the process, and what a subclass keeps ([w_ext]). *)
Record world (T C X : Type) : Type := World {
  w_registry : Packages.store;
  w_packages : gmap string (node C);
  w_stage : gmap string (node C);
  w_backup : gmap string (node C);
  w_intents : gmap string (TransactionIntent T);   (* by the name of the file *)
  w_journal : Journal.spec;
  w_step : nat;
  w_ext : X;
}.
Arguments World {T C X}.
Arguments w_registry {T C X}.
Arguments w_packages {T C X}.
Arguments w_stage {T C X}.
Arguments w_backup {T C X}.
Arguments w_intents {T C X}.
Arguments w_journal {T C X}.
Arguments w_step {T C X}.
Arguments w_ext {T C X}.

Section manager.
Context {T C X : Type} `{PackageManifest T} `{!EqDecision T}
  (specifier_contains : string → string → result bool) (core_version : string)
  (parse_record : json → result (PackageRecord T)) (dump_record : PackageRecord T → json)
  (sha256_hex : string → string) (package_id_ok : string → bool)
  (m_type : T → string) (has_migrations : T → bool) (version_le : string → string → result bool)
  (given_protected : gset string) (cb : callbacks T C)
  (oracle : nat → label → fault C) (clock : nat → Z).

Definition protected : gset string := {[ "default" ]} ∪ given_protected.

Abbreviation records_map := (dict string (PackageRecord T)).
Abbreviation intent := (TransactionIntent T).
Abbreviation worldT := (world T C X).

Definition set_registry (r : Packages.store) (w : worldT) : worldT :=
  World r (w_packages w) (w_stage w) (w_backup w) (w_intents w) (w_journal w) (w_step w) (w_ext w).
Definition set_packages (p : gmap string (node C)) (w : worldT) : worldT :=
  World (w_registry w) p (w_stage w) (w_backup w) (w_intents w) (w_journal w) (w_step w) (w_ext w).
Definition set_stage (p : gmap string (node C)) (w : worldT) : worldT :=
  World (w_registry w) (w_packages w) p (w_backup w) (w_intents w) (w_journal w) (w_step w) (w_ext w).
Definition set_backup (p : gmap string (node C)) (w : worldT) : worldT :=
  World (w_registry w) (w_packages w) (w_stage w) p (w_intents w) (w_journal w) (w_step w) (w_ext w).
Definition set_intents (p : gmap string intent) (w : worldT) : worldT :=
  World (w_registry w) (w_packages w) (w_stage w) (w_backup w) p (w_journal w) (w_step w) (w_ext w).
Definition set_journal (j : Journal.spec) (w : worldT) : worldT :=
  World (w_registry w) (w_packages w) (w_stage w) (w_backup w) (w_intents w) j (w_step w) (w_ext w).
Definition tick (w : worldT) : worldT :=
  World (w_registry w) (w_packages w) (w_stage w) (w_backup w) (w_intents w) (w_journal w) (S (w_step w)) (w_ext w).

Definition take_place (full : worldT → worldT) (part : tree C → worldT → worldT) (x : extent C) (w : worldT) : worldT :=
  match x with Nothing => w | Everything => full w | Partly t => part t w end.

Definition durable (l : label) (full : worldT → worldT) (part : tree C → worldT → worldT) : M worldT unit := λ w,
  match oracle (w_step w) l with
  | Fine => (Ok tt, full (tick w))
  | Raises x => (Err os_error, take_place full part x (tick w))
  | Dies x => (Err the_end, take_place full part x (tick w))
  end.

(** A step without a middle. *)
Definition atomic (l : label) (full : worldT → worldT) : M worldT unit := durable l full (λ _ w, w).

Definition or_else {A} (m : M worldT A) (k : M worldT A) : M worldT A :=
  try_except m (λ e, if caught e then Some k else None).

(** *** The journal *)

Definition journal (o : Z → Journal.op) : M worldT Journal.OperationState := λ w,
  match Journal.spec_run (o (clock (w_step w))) (w_journal w) with
  | (Err e, _) => (Err e, tick w)
  | (Ok state, j) => (_ ← atomic LJournal (set_journal j); mret state) w
  end.

Definition journal_state (op : string) : M worldT (option Journal.OperationState) :=
  op ← lift (Journal.validate_operation_id op);
  gets (λ w, dict_get (Journal.sp_states (w_journal w)) op).

Definition journal_pending : M worldT (list Journal.OperationState) :=
  gets (λ w, List.filter Journal.is_pending (dict_values (dict_sort (Journal.sp_states (w_journal w))))).

Definition succeed (op : string) : M worldT unit := _ ← journal (λ c, Journal.OpSucceed c op None); mret tt.

(** [_mark_failed], [_fail_without_intent]. *)
Definition mark_failed (op code : string) : M worldT unit :=
  state ← journal_state op;
  match state with
  | Some s => if bool_decide (Journal.o_status s = Journal.STARTED)
              then _ ← journal (λ c, Journal.OpFail c op code None); mret tt else mret tt
  | None => mret tt
  end.

(** The failure is recorded, then raised. *)
Definition refuse {A} (op code msg : string) : M worldT A := _ ← mark_failed op code; lift (rejected msg).

(** [_begin]: whether the operation has succeeded before. *)
Definition begin_operation (op action target : string) : M worldT bool :=
  state ← journal (λ c, Journal.OpBegin c op action target None);
  match Journal.o_status state with
  | Journal.SUCCEEDED => mret true
  | Journal.FAILED => _ ← journal (λ c, Journal.OpRetry c op None); mret false
  | Journal.STARTED => mret false
  end.

(** *** The registry *)

Definition write_records (rs : records_map) : M worldT unit :=
  atomic LRegistry (set_registry (Some (canonical_registry_document dump_record rs))).

Definition read_records : M worldT records_map :=
  data ← gets (λ w, document (w_registry w));
  rs ← lift (result_catch (parse_registry_document parse_record data)
               (λ e, if exn_isa (exn_cls e) PackageLifecycleError then Some (rejected (exn_msg e))
                     else if caught e then Some (rejected "package registry is invalid") else None));
  if registry_payload_has_legacy_keys data then _ ← write_records rs; mret rs else mret rs.

(** *** Paths *)

Definition validate_package_id (v : string) : result string :=
  if package_id_ok v then Ok v else fail ValueErr "invalid package id".

Definition intent_path (op : string) : result string :=
  op ← validate_operation_id op; Ok (sha256_hex op).

Definition token (op : string) : string := of_chars (take 24 (chars (sha256_hex op))).

Definition transaction_prefix (i : intent) : result string :=
  id ← validate_package_id (i_package_id i); Ok (id +:+ "-" +:+ token (i_operation_id i)).

Definition stage_path (i : intent) : result string :=
  match i_stage_name i with
  | Some n => p ← transaction_prefix i;
              if String.eqb n (p +:+ ".stage") then Ok n else rejected "package transaction staging path is invalid"
  | None => rejected "package transaction has no staging path"
  end.

Definition backup_path (i : intent) : result string :=
  match i_backup_name i with
  | Some n => p ← transaction_prefix i;
              if String.eqb n (p +:+ ".backup") then Ok n else rejected "package transaction backup path is invalid"
  | None => rejected "package transaction has no backup path"
  end.

(** [self._stage_path(intent) if intent.stage_name else None]. *)
Definition optional_path (name : option string) (path : result string) : result (option string) :=
  match name with Some n => if String.eqb n "" then Ok None else p ← path; Ok (Some p) | None => Ok None end.

Definition write_intent (i : intent) : M worldT unit :=
  path ← lift (intent_path (i_operation_id i));
  atomic (LIntent (i_phase i)) (λ w, set_intents (<[path := i]> (w_intents w)) w).

Definition new_intent (op : string) (action : PackageAction) (id : string) (before after : records_map)
    (sha key : option string) (stage backup : bool) : intent :=
  let prefix := id +:+ "-" +:+ token op in
  Intent op action id PREPARED before after sha key
    (if stage then Some (prefix +:+ ".stage") else None) (if backup then Some (prefix +:+ ".backup") else None).

(** *** Trees *)

(** [_remove_private_tree] of an entry that is there; a link or a file goes at once. *)
Definition remove_package (n : string) : M worldT unit :=
  durable LRemove (λ w, set_packages (delete n (w_packages w)) w)
    (λ t w, match w_packages w !! n with Some (Dir _) => set_packages (<[n := Dir t]> (w_packages w)) w | _ => w end).
Definition remove_stage (n : string) : M worldT unit :=
  durable LRemove (λ w, set_stage (delete n (w_stage w)) w)
    (λ t w, match w_stage w !! n with Some (Dir _) => set_stage (<[n := Dir t]> (w_stage w)) w | _ => w end).
Definition remove_backup (n : string) : M worldT unit :=
  durable LRemove (λ w, set_backup (delete n (w_backup w)) w)
    (λ t w, match w_backup w !! n with Some (Dir _) => set_backup (<[n := Dir t]> (w_backup w)) w | _ => w end).

(** [Path.replace] to a name that is free. *)
Definition stage_to_package (s n : string) : M worldT unit := λ w,
  match w_stage w !! s with
  | Some x => atomic LMove (λ w, set_packages (<[n := x]> (w_packages w)) (set_stage (delete s (w_stage w)) w)) w
  | None => (fail FileNotFoundErr "", w)
  end.
Definition package_to_backup (n b : string) : M worldT unit := λ w,
  match w_packages w !! n with
  | Some x => atomic LMove (λ w, set_backup (<[b := x]> (w_backup w)) (set_packages (delete n (w_packages w)) w)) w
  | None => (fail FileNotFoundErr "", w)
  end.
Definition backup_to_package (b n : string) : M worldT unit := λ w,
  match w_backup w !! b with
  | Some x => atomic LMove (λ w, set_packages (<[n := x]> (w_packages w)) (set_backup (delete b (w_backup w)) w)) w
  | None => (fail FileNotFoundErr "", w)
  end.

(** [PackageArtifactVerifier.extract] of a verified artifact. *)
Definition extract (a : VerifiedPackageArtifact T C) (n : string) : M worldT unit := λ w,
  match w_stage w !! n with
  | Some _ => (fail PackageArtifactError "package staging destination already exists", w)
  | None => durable LExtract (λ w, set_stage (<[n := Dir (a_tree a)]> (w_stage w)) w)
              (λ t w, set_stage (<[n := Dir t]> (w_stage w)) w) w
  end.

Definition with_marker (m : json) (x : node C) : node C :=
  match x with Dir t => Dir (Tree (Some m) (t_content t)) | Link t => Link (Tree (Some m) (t_content t)) | File => File end.

Definition write_artifact_marker (a : VerifiedPackageArtifact T C) (n : string) : M worldT unit :=
  let marker := artifact_marker (m_id (a_manifest a)) (m_version (a_manifest a)) (a_sha256 a) (a_key_id a) in
  atomic LMarker (λ w, set_stage (alter (with_marker marker) n (w_stage w)) w).

(** *** Transactions *)

Definition inject (point : string) : M worldT unit :=
  lift (match failure_injector cb with Some f => f point | None => Ok tt end).

Definition when (b : bool) (m : M worldT unit) : M worldT unit := if b then m else mret tt.

Definition package_path (id : string) : result string := validate_package_id id.

(** [_apply_files]. *)
Definition apply_files (i : intent) : M worldT unit :=
  n ← lift (package_path (i_package_id i));
  stage ← lift (optional_path (i_stage_name i) (stage_path i));
  backup ← lift (optional_path (i_backup_name i) (backup_path i));
  w ← get_st;
  let package := w_packages w !! n in
  match i_action i with
  | AInstall =>
      match stage with
      | Some s => if negb (node_is_dir (w_stage w !! s)) || bool_decide (is_Some package)
                  then lift (rejected "install staging postcondition failed") else stage_to_package s n
      | None => lift (rejected "install staging postcondition failed")
      end
  | AUpdate =>
      match stage, backup with
      | Some s, Some b =>
          if negb (node_is_dir (w_stage w !! s)) || negb (node_is_dir package) || bool_decide (is_Some (w_backup w !! b))
          then lift (rejected "update staging postcondition failed")
          else _ ← package_to_backup n b; stage_to_package s n
      | _, _ => lift (rejected "update staging postcondition failed")
      end
  | AUninstall =>
      match backup with
      | Some b => if negb (node_is_dir package) || bool_decide (is_Some (w_backup w !! b))
                  then lift (rejected "uninstall staging postcondition failed") else package_to_backup n b
      | None => lift (rejected "uninstall staging postcondition failed")
      end
  | _ => mret tt
  end.

(** [_apply_migrations]. *)
Definition apply_migrations (i : intent) : M worldT unit :=
  match dict_get (i_after i) (i_package_id i) with
  | None => mret tt
  | Some r =>
      if negb (has_migrations (pr_manifest r)) then mret tt
      else match migration_applier cb with
           | None => lift (rejected "package declares migrations but no migration applier is configured")
           | Some apply =>
               n ← lift (package_path (i_package_id i));
               w ← get_st;
               lift (result_catch (apply (w_packages w !! n) (pr_manifest r))
                 (λ e, if exn_isa (exn_cls e) TransactionalPackageError then None
                       else if caught e then Some (rejected "package migration application failed") else None))
           end
  end.

(** [_rollback_intent]. *)
Definition rollback_files (i : intent) (n : string) (backup : option string) : M worldT unit :=
  w ← get_st;
  match i_action i, backup with
  | AInstall, _ =>
      when (negb (dict_mem (i_before i) (i_package_id i)) && bool_decide (is_Some (w_packages w !! n))) (remove_package n)
  | AUpdate, Some b | AUninstall, Some b =>
      when (bool_decide (is_Some (w_backup w !! b)))
        (_ ← when (bool_decide (is_Some (w_packages w !! n))) (remove_package n); backup_to_package b n)
  | _, _ => mret tt
  end.

Definition drop_stage (stage : option string) : M worldT unit :=
  match stage with
  | Some s => w ← get_st; when (bool_decide (is_Some (w_stage w !! s))) (remove_stage s)
  | None => mret tt
  end.

Definition drop_backup (backup : option string) : M worldT unit :=
  match backup with
  | Some b => w ← get_st; when (bool_decide (is_Some (w_backup w !! b))) (remove_backup b)
  | None => mret tt
  end.

Definition rollback_intent (i : intent) : M worldT intent :=
  n ← lift (package_path (i_package_id i));
  stage ← lift (optional_path (i_stage_name i) (stage_path i));
  backup ← lift (optional_path (i_backup_name i) (backup_path i));
  _ ← rollback_files i n backup;
  _ ← drop_stage stage;
  _ ← write_records (i_before i);
  let rolled_back := with_phase ROLLED_BACK i in
  _ ← write_intent rolled_back;
  mret rolled_back.

(** [_cleanup_intent] of this class. *)
Definition cleanup_intent (i : intent) : M worldT unit :=
  stage ← lift (optional_path (i_stage_name i) (stage_path i));
  _ ← drop_stage stage;
  backup ← lift (optional_path (i_backup_name i) (backup_path i));
  _ ← drop_backup backup;
  path ← lift (intent_path (i_operation_id i));
  atomic LUnlink (λ w, set_intents (delete path (w_intents w)) w).

(** Registries are equal as dicts. *)
Definition same_records (a b : records_map) : bool := bool_decide (dict_sort a = dict_sort b).

(** [_postcondition]. *)
Definition postcondition (i : intent) : M worldT bool :=
  rs ← read_records;
  if negb (same_records rs (i_after i)) then mret false
  else
    n ← lift (package_path (i_package_id i));
    w ← get_st;
    let package := w_packages w !! n in
    mret (match i_action i with
          | AInstall | AUpdate =>
              match dict_get (i_after i) (i_package_id i), i_artifact_sha256 i, i_signature_key_id i with
              | Some r, Some sha, Some key =>
                  node_is_dir package && negb (node_is_link package) &&
                  marker_matches (node_marker package) (i_package_id i) (m_version (pr_manifest r)) sha key
              | _, _, _ => false
              end
          | AUninstall => bool_decide (package = None)
          | _ => true
          end).

(** What a subclass overrides. *)
Record methods : Type := Methods {
  v_cleanup_intent : intent → M worldT unit;
  v_execute : intent → M worldT unit;
  v_recover_locked : M worldT (list string);
  v_release_durable_ownership : string → M worldT unit;
}.

Section base.
Context (cleanup : intent → M worldT unit).

(** [_rollback_and_fail]. *)
Definition rollback_and_fail (i : intent) (code : string) : M worldT unit :=
  or_else (rolled_back ← rollback_intent i; _ ← mark_failed (i_operation_id i) code; cleanup rolled_back)
    (lift (rejected "package rollback is incomplete and requires recovery")).

(** The steps of [_execute] up to the commit. *)
Definition apply_intent (i : intent) : M worldT unit :=
  _ ← (if bool_decide (i_action i ∈ [AInstall; AUpdate; AUninstall]) then apply_files i else mret tt);
  _ ← write_intent (with_phase FILES_APPLIED i);
  _ ← inject "after_filesystem";
  _ ← (if bool_decide (i_action i ∈ [AInstall; AUpdate]) then apply_migrations i else mret tt);
  _ ← write_records (i_after i);
  _ ← write_intent (with_phase REGISTRY_APPLIED i);
  inject "after_registry".

Definition failed_code (i : intent) : string := "package." +:+ action_value (i_action i) +:+ "_failed".
Definition failed_message (i : intent) : string := "package " +:+ action_value (i_action i) +:+ " failed and was rolled back".

(** The intent is written if it is not there yet. *)
Definition persist_intent (i : intent) : M worldT unit :=
  path ← lift (intent_path (i_operation_id i));
  w ← get_st;
  when (negb (bool_decide (is_Some (w_intents w !! path))))
    (or_else (write_intent i)
      (refuse (i_operation_id i) "package.intent_write_failed" "package transaction intent could not be persisted")).

(** [current] in the handlers differs from the intent in its phase only, which a roll back does not read. *)
Definition execute (i : intent) : M worldT unit :=
  _ ← persist_intent i;
  _ ← or_else (apply_intent i) (_ ← rollback_and_fail i (failed_code i); lift (rejected (failed_message i)));
  let current := with_phase COMMITTED i in
  _ ← or_else (write_intent current) (_ ← rollback_and_fail current (failed_code i); lift (rejected (failed_message i)));
  _ ← or_else (_ ← inject "after_commit_marker"; succeed (i_operation_id i))
        (lift (rejected ("package " +:+ action_value (i_action i) +:+ " committed; journal recovery is required")));
  cleanup current.

(** [_recover_locked]: one intent. *)
Definition recover_committed (i : intent) (status : Journal.OperationStatus) : M worldT unit :=
  ok ← postcondition i;
  if negb ok then lift (rejected "committed package postcondition is invalid; recovery is required")
  else
    _ ← match status with
        | Journal.STARTED => succeed (i_operation_id i)
        | Journal.SUCCEEDED => mret tt
        | Journal.FAILED => lift (rejected "committed package intent conflicts with operation journal")
        end;
    cleanup i.

Definition recover_uncommitted (i : intent) (status : Journal.OperationStatus) : M worldT unit :=
  _ ← lift (if bool_decide (status = Journal.SUCCEEDED)
            then rejected "pre-commit package intent conflicts with succeeded journal" else Ok tt);
  _ ← rollback_intent i;
  _ ← mark_failed (i_operation_id i) "package.recovered_rollback";
  cleanup i.

Definition read_intent (path : string) : M worldT intent :=
  w ← get_st;
  match w_intents w !! path with
  | None => lift (rejected "package transaction intent cannot be validated")
  | Some i => expected ← lift (intent_path (i_operation_id i));
              if String.eqb path expected then mret i else lift (rejected "package transaction intent path is invalid")
  end.

Definition recover_intent (path : string) : M worldT string :=
  i ← read_intent path;
  state ← journal_state (i_operation_id i);
  match state with
  | None => lift (rejected "package transaction intent has no operation journal")
  | Some s =>
      _ ← (if bool_decide (i_phase i = COMMITTED) then recover_committed i (Journal.o_status s)
           else recover_uncommitted i (Journal.o_status s));
      mret (i_operation_id i)
  end.

(** [for x in l: ...] that collects. *)
Fixpoint collect {A B} (f : A → M worldT B) (l : list A) : M worldT (list B) :=
  match l with
  | [] => mret []
  | x :: l => y ← f x; ys ← collect f l; mret (y :: ys)
  end.

Definition interrupted (done : list string) (s : Journal.OperationState) : bool :=
  startswith (Journal.o_action s) "package." && negb (bool_decide (Journal.o_operation_id s ∈ done)).

Definition fail_interrupted (s : Journal.OperationState) : M worldT string :=
  _ ← journal (λ c, Journal.OpFail c (Journal.o_operation_id s) "package.interrupted_before_prepare" None);
  mret (Journal.o_operation_id s).

Definition intent_paths (w : worldT) : list string := sort_by id (elements (dom (w_intents w))).

Definition recover_locked : M worldT (list string) :=
  paths ← gets intent_paths;
  done ← collect recover_intent paths;
  waiting ← journal_pending;
  failed ← collect fail_interrupted (List.filter (interrupted done) waiting);
  mret (sort_by id (remove_dups (done ++ failed))).
End base.

(** *** Calls *)

Section calls.
Context (self : methods).

Definition failed_with_rollback (i : intent) (code msg : string) (m : M worldT unit) : M worldT unit :=
  or_else m (_ ← rollback_and_fail (v_cleanup_intent self) i code; lift (rejected msg)).

Definition lifecycle_result (op : string) (a : PackageAction) (r : PackageRecord T) (replay : bool) : PackageLifecycleResult :=
  LifecycleResult op a (m_id (pr_manifest r)) (Some (m_version (pr_manifest r))) (Some (pr_status r)) replay.

(** The record, marker and signer that an update needs. *)
Definition check_update (op : string) (a : VerifiedPackageArtifact T C) (existing : option (PackageRecord T)) : M worldT unit :=
  match existing with
  | None => refuse op "package.not_installed" "package is not installed"
  | Some r =>
      _ ← (if negb (String.eqb (m_type (pr_manifest r)) (m_type (a_manifest a)))
           then refuse op "package.type_changed" "package type cannot change during update" else mret tt);
      old ← lift (version_le (m_version (a_manifest a)) (m_version (pr_manifest r)));
      _ ← (if (old : bool) then refuse op "package.version_not_newer" "package update version must be newer" else mret tt);
      n ← lift (package_path (m_id (a_manifest a)));
      marker ← gets (λ w, node_marker (w_packages w !! n));
      _ ← (if negb (marker_valid marker n (m_version (pr_manifest r)))
           then refuse op "package.integrity_marker_invalid" "installed package integrity marker is invalid" else mret tt);
      signer ← lift (marker_signer marker);
      allowed ← lift (if String.eqb signer (a_key_id a) then Ok true
                      else match signer_transition_authorizer cb with
                           | Some f => f n (m_type (a_manifest a)) signer (a_key_id a)
                           | None => Ok false
                           end);
      if (allowed : bool) then mret tt
      else refuse op "package.signer_changed" "package update signer does not match the installed package"
  end.

Definition if_rejected {A} (op code : string) (m : result A) : M worldT A :=
  match m with
  | Ok a => mret a
  | Err e => if exn_isa (exn_cls e) TransactionalPackageError then _ ← mark_failed op code; lift (Err e) else lift (Err e)
  end.

(** The artifact is staged, under its intent. *)
Definition stage_artifact (i : intent) (a : VerifiedPackageArtifact T C) (before : records_map) : M worldT unit :=
  s ← lift (stage_path i);
  _ ← extract a s;
  _ ← write_artifact_marker a s;
  match stage_validator cb with
  | Some f => w ← get_st; lift (f (w_stage w !! s) (a_manifest a) before)
  | None => mret tt
  end.

Definition is_link_at (n : string) (w : worldT) : bool := node_is_link (w_packages w !! n).

Definition check_graph (rs : records_map) (status : PackageStatus) (id : string) : result unit :=
  _ ← validate_graph specifier_contains core_version rs;
  if bool_decide (status = ENABLED) then
    _ ← require_enabled_dependencies specifier_contains rs id;
    require_enabled_capabilities specifier_contains rs None None
  else Ok tt.

Definition check_destination (op : string) (action : PackageAction) (n : string) : M worldT unit :=
  w ← get_st;
  if bool_decide (action = AInstall) then
    if bool_decide (is_Some (w_packages w !! n)) then refuse op "package.files_exist" "package destination already exists" else mret tt
  else
    if negb (node_is_dir (w_packages w !! n)) || is_link_at n w
    then refuse op "package.files_missing" "installed package files are missing" else mret tt.

(** A call that has succeeded before: what it did must still be there. *)
Definition replay_artifact (op : string) (action : PackageAction) (a : VerifiedPackageArtifact T C) : M worldT PackageLifecycleResult :=
  let m := a_manifest a in
  rs ← read_records;
  let conflict := rejected ("succeeded " +:+ action_value action +:+ " journal conflicts with package registry") in
  match dict_get rs (m_id m) with
  | None => lift conflict
  | Some r =>
      if negb (String.eqb (m_version (pr_manifest r)) (m_version m)) then lift conflict
      else
        n ← lift (package_path (m_id m));
        w ← get_st;
        if marker_matches (node_marker (w_packages w !! n)) (m_id m) (m_version m) (a_sha256 a) (a_key_id a)
        then mret (lifecycle_result op action r true) else lift conflict
  end.

(** [_install_or_update] of an artifact that was verified; [action] is one of the two. *)
Definition install_or_update (op : string) (action : PackageAction) (verified : result (VerifiedPackageArtifact T C)) :
    M worldT PackageLifecycleResult :=
  a ← lift verified;
  op ← lift (validate_operation_id op);
  let m := a_manifest a in
  let id := m_id m in
  _ ← v_recover_locked self;
  replay ← begin_operation op ("package." +:+ action_value action) ("package/" +:+ id +:+ "/" +:+ a_sha256 a);
  if (replay : bool) then replay_artifact op action a
  else
    before ← read_records;
    let existing := dict_get before id in
    _ ← (if bool_decide (id ∈ RESERVED_PACKAGE_IDS) then refuse op "package.reserved" "package id is reserved" else mret tt);
    _ ← (if bool_decide (action = AInstall)
         then if bool_decide (is_Some existing) then refuse op "package.already_installed" "package is already installed" else mret tt
         else check_update op a existing);
    let status := match existing with Some r => pr_status r | None => INSTALLED end in
    let after := dict_set before id (Rec m status) in
    _ ← if_rejected op "package.dependency_invalid" (check_graph after status id);
    n ← lift (package_path id);
    _ ← check_destination op action n;
    let i := new_intent op action id before after (Some (a_sha256 a)) (Some (a_key_id a)) true (bool_decide (action = AUpdate)) in
    _ ← or_else (write_intent i)
          (refuse op "package.intent_write_failed" "package transaction intent could not be persisted");
    _ ← failed_with_rollback i "package.artifact_stage_failed" "package artifact staging failed and was rolled back"
          (stage_artifact i a before);
    _ ← failed_with_rollback i "package.after_stage_failed" "package staging failed and was rolled back" (inject "after_stage");
    _ ← (if bool_decide (action = AInstall)
         then failed_with_rollback i "package.occupancy_reset_failed" "package occupancy reset failed and was rolled back"
                (lift (match occupancy_reset cb with Some f => f id | None => Ok tt end))
         else mret tt);
    _ ← v_execute self i;
    mret (lifecycle_result op action (Rec m status) false).

Definition install (op : string) := install_or_update op AInstall.
Definition update (op : string) := install_or_update op AUpdate.

Definition run_state_validator (op id : string) (action : PackageAction) (r : PackageRecord T) (before : records_map) : M worldT unit :=
  match state_validator cb with
  | Some f => if_rejected op "package.state_rejected" (f action id r before)
  | None => mret tt
  end.

(** The record of an installed package whose marker is valid. *)
Definition require_installed (op id : string) (before : records_map) : M worldT (PackageRecord T) :=
  r ← if_rejected op "package.not_installed" (require_record before id);
  n ← lift (package_path id);
  w ← get_st;
  if marker_valid (node_marker (w_packages w !! n)) id (m_version (pr_manifest r)) then mret r
  else refuse op "package.integrity_marker_invalid" "installed package integrity marker is invalid".

Definition check_enable (op id : string) (before : records_map) : M worldT PackageStatus :=
  _ ← if_rejected op "package.dependency_not_enabled"
        (_ ← require_enabled_dependencies specifier_contains before id;
         require_enabled_capabilities specifier_contains before (Some id) None);
  mret ENABLED.

Definition check_disable (op id : string) (before : records_map) : M worldT PackageStatus :=
  _ ← (match required_dependents before id true with
       | [] => mret tt | _ => refuse op "package.dependents" "enabled dependents block disable" end);
  _ ← if_rejected op "package.capability_dependents" (require_enabled_capabilities specifier_contains before None (Some id));
  mret DISABLED.

Definition replay_state (op id : string) (action : PackageAction) : M worldT PackageLifecycleResult :=
  rs ← read_records;
  r ← lift (require_record rs id);
  let expected := if bool_decide (action = AEnable) then ENABLED else DISABLED in
  n ← lift (package_path id);
  w ← get_st;
  if bool_decide (pr_status r ≠ expected) || negb (marker_valid (node_marker (w_packages w !! n)) id (m_version (pr_manifest r)))
  then lift (rejected ("succeeded " +:+ action_value action +:+ " journal conflicts with package registry"))
  else mret (lifecycle_result op action r true).

(** [_state_change]; [action] is enable or disable. *)
Definition state_change (op id : string) (action : PackageAction) : M worldT PackageLifecycleResult :=
  op ← lift (validate_operation_id op);
  id ← lift (validate_package_id id);
  _ ← v_recover_locked self;
  replay ← begin_operation op ("package." +:+ action_value action) ("package/" +:+ id);
  if (replay : bool) then replay_state op id action
  else
    before ← read_records;
    r ← require_installed op id before;
    _ ← (if bool_decide (action = ADisable) && bool_decide (id ∈ protected)
         then refuse op "package.protected" "protected package cannot be disabled" else mret tt);
    _ ← run_state_validator op id action r before;
    status ← (if bool_decide (action = AEnable) then check_enable op id before else check_disable op id before);
    let record := Rec (pr_manifest r) status in
    let i := new_intent op action id before (dict_set before id record) None None false false in
    _ ← v_execute self i;
    mret (lifecycle_result op action record false).

Definition enable (op id : string) := state_change op id AEnable.
Definition disable (op id : string) := state_change op id ADisable.

Definition release (id : string) : M worldT unit :=
  or_else (v_release_durable_ownership self id) (lift (rejected "package uninstalled; durable ownership cleanup required")).

Definition uninstall (op id : string) : M worldT PackageLifecycleResult :=
  op ← lift (validate_operation_id op);
  id ← lift (validate_package_id id);
  _ ← v_recover_locked self;
  replay ← begin_operation op "package.uninstall" ("package/" +:+ id);
  if (replay : bool) then
    rs ← read_records;
    if dict_mem rs id then lift (rejected "succeeded uninstall journal conflicts with package registry")
    else _ ← release id; mret (LifecycleResult op AUninstall id None None true)
  else
    before ← read_records;
    r ← require_installed op id before;
    _ ← (if bool_decide (id ∈ protected) then refuse op "package.protected" "protected package cannot be uninstalled" else mret tt);
    _ ← (if is_enabled r then refuse op "package.enabled" "disable package before uninstall" else mret tt);
    _ ← run_state_validator op id AUninstall r before;
    _ ← (match required_dependents before id false with
         | [] => mret tt | _ => refuse op "package.dependents" "installed dependents block uninstall" end);
    n ← lift (package_path id);
    w ← get_st;
    _ ← (if negb (node_is_dir (w_packages w !! n)) || is_link_at n w
         then refuse op "package.files_missing" "installed package files are missing" else mret tt);
    let i := new_intent op AUninstall id before (dict_del before id) None None false true in
    _ ← or_else (lift (match occupancy_reset cb with Some f => f id | None => Ok tt end))
          (refuse op "package.occupancy_reset_failed" "package occupancy reset failed");
    _ ← v_execute self i;
    _ ← release id;
    mret (LifecycleResult op AUninstall id None None false).

(** [recover], [records]. *)
Definition recover : M worldT (list string) := v_recover_locked self.
Definition records : M worldT records_map := _ ← v_recover_locked self; read_records.
End calls.

(** The methods of [TransactionalPackageManager]. *)
Definition transactional : methods :=
  Methods cleanup_intent (execute cleanup_intent) (recover_locked cleanup_intent) (λ _, mret tt).
End manager.
End Lifecycle.
