(* ===== verification/LifecycleLaws.v ===== *)
(** * Crash atomicity of the package lifecycle

    The installed packages are the abstract state: the records by package and
    the trees by directory.  [rep A w] says that the files in [w] stand for
    [A]: settled, or in the middle of a transaction that recovery undoes, or of
    one that it completes.  Every step of every call keeps that, whatever fails. *)

From Stdlib Require Import ZArith Lia.
From stdpp Require Import base decidable numbers list strings gmap sets.
From S2P Require Import Prelude PyData Regex JsonGraph HashChain OperationJournal Dependencies Packages PackageLifecycle.

Module LifecycleLaws.
Import JsonGraph(json, JNull, JBool, JInt, JFloat, JStr, JArr, JObj).
Import Dependencies Packages Lifecycle.

(** A conjunction whose parts are at hand. *)
Ltac parts := repeat first [done | split; [done|]].

(** ** Triples *)

Section rules.
Context {S : Type}.
Implicit Types P : S → Prop.

Lemma triple_ret {A} P (a : A) X : triple P (mret (M := M S) a) (λ b w, b = a ∧ P w) X.
Proof. intros w Hw. by split. Qed.

Lemma triple_lift {A} P (r : result A) X : (∀ w e, P w → r = Err e → X e w) → triple P (lift (S := S) r) (λ a w, r = Ok a ∧ P w) X.
Proof. intros HX w Hw. unfold lift. destruct r as [a|e]; [by split|by apply HX]. Qed.

Lemma triple_if {A} P (b : bool) (m n : M S A) Q X :
  (b = true → triple P m Q X) → (b = false → triple P n Q X) → triple P (if b then m else n) Q X.
Proof. destruct b; auto. Qed.

Lemma triple_pre {A} P (φ : Prop) (m : M S A) Q X : (φ → triple P m Q X) → triple (λ w, φ ∧ P w) m Q X.
Proof. intros Hm w [Hφ Hw]. by apply Hm. Qed.

Lemma triple_ex {A B} (P : B → S → Prop) (m : M S A) Q X : (∀ b, triple (P b) m Q X) → triple (λ w, ∃ b, P b w) m Q X.
Proof. intros Hm w [b Hw]. by apply (Hm b). Qed.

Lemma triple_get {B} P (k : S → M S B) Q X : (∀ w, P w → triple (λ w', w' = w ∧ P w) (k w) Q X) → triple P (get_st ≫= k) Q X.
Proof. intros Hk w Hw. rewrite run_bind_get. by apply (Hk w). Qed.

Lemma triple_gets {A} P (f : S → A) X : triple P (gets f) (λ a w, a = f w ∧ P w) X.
Proof. intros w Hw. by split. Qed.

Lemma triple_weaken {A} P (m : M S A) Q Q' X X' :
  triple P m Q X → (∀ a w, Q a w → Q' a w) → (∀ e w, X e w → X' e w) → triple P m Q' X'.
Proof. intros Hm HQ HX. by eapply triple_conseq. Qed.

Lemma triple_strengthen {A} P P' (m : M S A) Q X : triple P' m Q X → (∀ w, P w → P' w) → triple P m Q X.
Proof. intros Hm HP. by eapply triple_conseq. Qed.
End rules.

Section laws.
Context {T C X : Type} `{PackageManifest T} `{!EqDecision T}
  (specifier_contains : string → string → result bool) (core_version : string)
  (parse_record : json → result (PackageRecord T)) (dump_record : PackageRecord T → json)
  (sha256_hex : string → string) (package_id_ok : string → bool)
  (m_type : T → string) (has_migrations : T → bool) (version_le : string → string → result bool)
  (given_protected : gset string) (cb : callbacks T C)
  (oracle : nat → label → fault C) (clock : nat → Z).

(** pydantic reads back what it dumped, which has no key of earlier versions. *)
Hypothesis parse_dump : ∀ r, parse_record (dump_record r) = Ok r.
Hypothesis dump_current : ∀ r, legacy_record_payload (dump_record r) = None.

(** A write of the commit marker raises although the file is in place. *)
Definition late_marker : Prop := ∃ k, oracle k (LIntent COMMITTED) = Raises Everything.

Abbreviation worldT := (world T C X).
Abbreviation records_map := (dict string (PackageRecord T)).
Abbreviation intent := (TransactionIntent T).
Abbreviation durable := (durable (X := X) (T := T) oracle).
Abbreviation atomic := (atomic (X := X) (T := T) oracle).

(** *** Steps *)

Lemma durable_triple P l full part Q E :
  (∀ w : worldT, P w → Q tt (full (tick w)) ∧ ∀ e, E e (tick w) ∧ E e (full (tick w)) ∧ ∀ t, E e (part t (tick w))) →
  triple P (durable l full part) Q E.
Proof.
  intros Hstep w Hw. destruct (Hstep w Hw) as [H1 H2]. unfold Lifecycle.durable.
  destruct (oracle (w_step w) l) as [|x|x]; [done|..]; destruct x; simpl; apply H2.
Qed.

Lemma atomic_triple P l full Q E :
  (∀ w : worldT, P w → Q tt (full (tick w)) ∧ ∀ e, E e (tick w) ∧ E e (full (tick w))) → triple P (atomic l full) Q E.
Proof. intros Hstep. apply durable_triple. intros w Hw. destruct (Hstep w Hw) as [H1 H2]. split; [done|]. intros e. destruct (H2 e). auto. Qed.

(** The commit marker: if writing it raises, it is not there, unless it raises late. *)
Lemma commit_triple P full Q E :
  (∀ w : worldT, P w → Q tt (full (tick w)) ∧ (∀ e, E e (tick w)) ∧ ∀ e, e = the_end ∨ late_marker → E e (full (tick w))) →
  triple P (atomic (LIntent COMMITTED) full) Q E.
Proof.
  intros Hstep w Hw. destruct (Hstep w Hw) as (H1 & H2 & H3). unfold Lifecycle.atomic, Lifecycle.durable.
  destruct (oracle (w_step w) (LIntent COMMITTED)) as [|x|x] eqn:E0; [done|..]; destruct x; simpl; auto. apply H3. right. by exists (w_step w).
Qed.

Lemma or_else_triple {A} P (m k : M worldT A) Q E E' :
  triple P m Q E → (∀ e, caught e = true → triple (E e) k Q E') → (∀ e w, caught e = false → E e w → E' e w) →
  triple P (or_else m k) Q E'.
Proof.
  intros Hm Hk He w Hw. specialize (Hm w Hw). unfold or_else, try_except. destruct (m w) as [[a|e] w']; [done|].
  destruct (caught e) eqn:Ec; [by apply (Hk e)|by apply He].
Qed.

(** *** The abstract state *)

Definition site : Type := gmap string (PackageRecord T) * gmap string (node C).

(** The registry file holds the records [R]. *)
Definition is_map (rs : records_map) (R : gmap string (PackageRecord T)) : Prop := ∀ k, dict_get rs k = R !! k.

Definition reads (s : Packages.store) (R : gmap string (PackageRecord T)) : Prop :=
  ∃ rs, parse_registry_document parse_record (document s) = Ok rs ∧ dict_wf rs ∧ ids_ok rs ∧ is_map rs R.

Definition status_of (w : worldT) (op : string) : option Journal.OperationStatus :=
  Journal.o_status <$> dict_get (Journal.sp_states (w_journal w)) op.

(** Nothing but [n] is there. *)
Definition only (m : gmap string (node C)) (n : option string) : Prop := ∀ k, Some k ≠ n → m !! k = None.

Definition prefix_of (i : intent) : string := i_package_id i +:+ "-" +:+ token sha256_hex (i_operation_id i).

Definition stages (a : PackageAction) : bool := bool_decide (a ∈ [AInstall; AUpdate]).
Definition replaces (a : PackageAction) : bool := bool_decide (a ∈ [AUpdate; AUninstall]).

Record intent_ok (i : intent) : Prop := {
  io_op : validate_operation_id (i_operation_id i) = Ok (i_operation_id i);
  io_journal_op : Journal.validate_operation_id (i_operation_id i) = Ok (i_operation_id i);
  io_id : package_id_ok (i_package_id i) = true;
  io_stage : i_stage_name i = if stages (i_action i) then Some (prefix_of i +:+ ".stage") else None;
  io_backup : i_backup_name i = if replaces (i_action i) then Some (prefix_of i +:+ ".backup") else None;
  io_before : dict_wf (i_before i) ∧ ids_ok (i_before i);
  io_after : dict_wf (i_after i) ∧ ids_ok (i_after i);
}.

Definition path_of (i : intent) : string := sha256_hex (i_operation_id i).

(** The packages as a transaction that is not committed may have left them. *)
Definition mid_files (i : intent) (P : gmap string (node C)) (w : worldT) : Prop :=
  match i_action i with
  | AInstall => (∀ k, k ≠ i_package_id i → w_packages w !! k = P !! k) ∧ P !! i_package_id i = None ∧
                dict_get (i_before i) (i_package_id i) = None ∧ w_backup w = ∅
  | AUpdate | AUninstall =>
      (∀ k, k ≠ i_package_id i → w_packages w !! k = P !! k) ∧ is_Some (P !! i_package_id i) ∧ only (w_backup w) (i_backup_name i) ∧
      ∃ b, i_backup_name i = Some b ∧
        ((w_backup w !! b = None ∧ w_packages w !! i_package_id i = P !! i_package_id i) ∨ w_backup w !! b = P !! i_package_id i)
  | _ => w_packages w = P ∧ w_backup w = ∅
  end.

Definition on_disk (i : intent) (w : worldT) : Prop := w_intents w = {[ path_of i := i ]}.

Definition settled (A : site) (w : worldT) : Prop :=
  reads (w_registry w) A.1 ∧ w_packages w = A.2 ∧ w_stage w = ∅ ∧ w_backup w = ∅ ∧ w_intents w = ∅.

Definition not_done (w : worldT) (op : string) : Prop := status_of w op = Some Journal.STARTED ∨ status_of w op = Some Journal.FAILED.
Definition not_failed (w : worldT) (op : string) : Prop := status_of w op = Some Journal.STARTED ∨ status_of w op = Some Journal.SUCCEEDED.

(** A roll back goes back to [A]; [late], under a commit marker that was written by a step that raised. *)
Definition phase_ok (late : bool) (p : TransactionPhase) : Prop := if late then True else p ≠ COMMITTED.
Definition journal_ok (late : bool) (w : worldT) (op : string) : Prop :=
  if late then status_of w op = Some Journal.STARTED else not_done w op.

Definition undo_as (late : bool) (A : site) (i : intent) (w : worldT) : Prop :=
  intent_ok i ∧ is_map (i_before i) A.1 ∧ (∃ p, phase_ok late p ∧ on_disk (with_phase p i) w) ∧
  only (w_stage w) (i_stage_name i) ∧ mid_files i A.2 w ∧
  (reads (w_registry w) A.1 ∨ ∃ R, is_map (i_after i) R ∧ reads (w_registry w) R) ∧ journal_ok late w (i_operation_id i).

(** Recovery goes back to [A]. *)
Definition undo : site → intent → worldT → Prop := undo_as false.

(** The evidence of a committed transaction. *)
Definition evidence (i : intent) (n : option (node C)) : Prop :=
  match i_action i with
  | AInstall | AUpdate => ∃ t r sha key, n = Some (Dir t) ∧ dict_get (i_after i) (i_package_id i) = Some r ∧
      i_artifact_sha256 i = Some sha ∧ i_signature_key_id i = Some key ∧
      marker_matches (t_marker t) (i_package_id i) (m_version (pr_manifest r)) sha key = true
  | AUninstall => n = None
  | _ => True
  end.

(** Recovery goes on to [A]. *)
Definition redo (A : site) (i : intent) (w : worldT) : Prop :=
  intent_ok i ∧ is_map (i_after i) A.1 ∧ on_disk (with_phase COMMITTED i) w ∧
  only (w_stage w) (i_stage_name i) ∧ only (w_backup w) (i_backup_name i) ∧ w_packages w = A.2 ∧ evidence i (A.2 !! i_package_id i) ∧
  reads (w_registry w) A.1 ∧ not_failed w (i_operation_id i).

(** Recovery refuses: the transaction is committed, and its evidence is not there. *)
Definition stuck (w : worldT) : Prop :=
  ∃ i R, intent_ok i ∧ on_disk (with_phase COMMITTED i) w ∧ is_Some (status_of w (i_operation_id i)) ∧ reads (w_registry w) R ∧
    ¬ (is_map (i_after i) R ∧ evidence i (w_packages w !! i_package_id i)).

Definition rep_or (L : Prop) (A : site) (w : worldT) : Prop :=
  settled A w ∨ (∃ i, undo A i w) ∨ (∃ i, redo A i w) ∨ (L ∧ stuck w).
Definition rep : site → worldT → Prop := rep_or late_marker.

Lemma settled_rep L A w : settled A w → rep_or L A w.
Proof. by left. Qed.
Lemma undo_rep L A i w : undo A i w → rep_or L A w.
Proof. intros Hw. right. left. by exists i. Qed.
Lemma redo_rep L A i w : redo A i w → rep_or L A w.
Proof. intros Hw. right. right. left. by exists i. Qed.
Lemma stuck_rep (L : Prop) A w : L → stuck w → rep_or L A w.
Proof. intros HL Hw. right. right. by right. Qed.

(** *** Reading and writing the registry *)

Lemma reads_written rs R : dict_wf rs → ids_ok rs → is_map rs R → reads (Some (canonical_registry_document dump_record rs)) R.
Proof.
  intros Hw Hi Hm. exists (dict_sort rs). split_and!.
  - cbn [document or_default]. by apply parse_canonical.
  - by apply dict_wf_sort.
  - intros k r. rewrite dict_get_sort by done. apply Hi.
  - intros k. rewrite dict_get_sort by done. apply Hm.
Qed.

Lemma is_map_unique rs R R' : is_map rs R → is_map rs R' → R = R'.
Proof. intros H1 H2. apply map_eq. intros k. by rewrite <-H1. Qed.

Lemma reads_unique s R R' : reads s R → reads s R' → R = R'.
Proof. intros (rs & E & _ & _ & H1) (rs' & E' & _ & _ & H2). rewrite E in E'. injection E' as <-. by eapply is_map_unique. Qed.

Lemma read_records_triple P R E :
  (∀ w : worldT, P w → P (tick w)) → (∀ (w : worldT) s, P w → reads s R → P (set_registry s w)) →
  (∀ w : worldT, P w → reads (w_registry w) R) → (∀ (w : worldT) e, P w → E e w) →
  triple P (read_records parse_record dump_record oracle) (λ rs w, dict_wf rs ∧ ids_ok rs ∧ is_map rs R ∧ P w) E.
Proof.
  intros Ht Hs Hr He w Hw. destruct (Hr w Hw) as (rs & Ep & Hwf & Hi & Hm). unfold read_records. rewrite run_bind. cbn [gets fst].
  rewrite run_bind_lift, Ep. cbn [result_catch]. destruct (registry_payload_has_legacy_keys _); [|done]. rewrite run_bind.
  assert (triple P (write_records (X := X) dump_record oracle rs) (λ _, P) (λ _, P)) as Hwr.
  { apply atomic_triple. intros w1 Hw1. assert (P (set_registry (Some (canonical_registry_document dump_record rs)) (tick w1))).
    { apply Hs; [by apply Ht|by apply reads_written]. } split; [done|]. intros e. split; [by apply Ht|done]. }
  specialize (Hwr w Hw). destruct (write_records _ _ _ _) as [[[]|e] w']; [done|by apply He].
Qed.

(** *** Paths *)

Lemma nonempty_app (s : string) c t : String.eqb (s +:+ String c t) "" = false.
Proof. by destruct s. Qed.

Section paths.
Context (i : intent) (Hi : intent_ok i).

Lemma prefix_run : transaction_prefix sha256_hex package_id_ok i = Ok (prefix_of i).
Proof. unfold transaction_prefix, validate_package_id. by rewrite (io_id i Hi). Qed.

Lemma package_path_run : package_path package_id_ok (i_package_id i) = Ok (i_package_id i).
Proof. unfold package_path, validate_package_id. by rewrite (io_id i Hi). Qed.

Lemma stage_run : optional_path (i_stage_name i) (stage_path sha256_hex package_id_ok i) = Ok (i_stage_name i).
Proof.
  unfold optional_path, stage_path. rewrite prefix_run, (io_stage i Hi). destruct (stages (i_action i)); [|done].
  rewrite nonempty_app. cbn [mbind result_bind]. by rewrite String.eqb_refl.
Qed.

Lemma backup_run : optional_path (i_backup_name i) (backup_path sha256_hex package_id_ok i) = Ok (i_backup_name i).
Proof.
  unfold optional_path, backup_path. rewrite prefix_run, (io_backup i Hi). destruct (replaces (i_action i)); [|done].
  rewrite nonempty_app. cbn [mbind result_bind]. by rewrite String.eqb_refl.
Qed.

Lemma intent_path_run : intent_path sha256_hex (i_operation_id i) = Ok (path_of i).
Proof. unfold intent_path. by rewrite (io_op i Hi). Qed.
End paths.

(** *** Rolling back *)

Section rolling.
Context {late : bool}.
Abbreviation undo := (undo_as late).

(** Everything of [undo_as] but where the packages are. *)
Definition undo_core (A : site) (i : intent) (w : worldT) : Prop :=
  intent_ok i ∧ is_map (i_before i) A.1 ∧ (∃ p, phase_ok late p ∧ on_disk (with_phase p i) w) ∧
  only (w_stage w) (i_stage_name i) ∧
  (reads (w_registry w) A.1 ∨ ∃ R, is_map (i_after i) R ∧ reads (w_registry w) R) ∧ journal_ok late w (i_operation_id i).

Lemma undo_split A i w : undo A i w ↔ undo_core A i w ∧ mid_files i A.2 w.
Proof. unfold undo_as, undo_core. tauto. Qed.

Definition restored (A : site) (w : worldT) : Prop := w_packages w = A.2 ∧ w_backup w = ∅.

Lemma restored_mid A i w w' : mid_files i A.2 w → restored A w' → mid_files i A.2 w'.
Proof.
  unfold mid_files, restored. intros Hm [-> Hb]. rewrite Hb.
  assert (is_Some (A.2 !! i_package_id i) → (∃ b, i_backup_name i = Some b) →
    (∀ k, k ≠ i_package_id i → A.2 !! k = A.2 !! k) ∧ is_Some (A.2 !! i_package_id i) ∧ only ∅ (i_backup_name i) ∧
    ∃ b, i_backup_name i = Some b ∧ (((∅ : gmap string (node C)) !! b = None ∧ A.2 !! i_package_id i = A.2 !! i_package_id i) ∨
      (∅ : gmap string (node C)) !! b = A.2 !! i_package_id i)) as Hr.
  { intros Hs [b Hn]. split; [done|]. split; [done|]. split; [by intros k|]. exists b. split; [done|by left]. }
  destruct (i_action i); [destruct Hm as (_ & ? & ? & _); by split_and!| |done|done|];
    (destruct Hm as (_ & Hs & _ & b & Hn & _); apply Hr; [done|by exists b]).
Qed.

Lemma only_none m n : only m (Some n) → m !! n = None → m = ∅.
Proof. intros Ho Hn. apply map_eq. intros k. rewrite lookup_empty. destruct (decide (k = n)) as [->|]; [done|]. apply Ho. congruence. Qed.

Lemma others_eq (m P : gmap string (node C)) id : (∀ k, k ≠ id → m !! k = P !! k) → m !! id = P !! id → m = P.
Proof. intros Ho Hi. apply map_eq. intros k. destruct (decide (k = id)) as [->|]; [done|by apply Ho]. Qed.

(** Removing the package and bringing the backup back. *)
Definition replaced (A : site) (i : intent) (b : string) (w : worldT) : Prop :=
  undo_core A i w ∧ (∀ k, k ≠ i_package_id i → w_packages w !! k = A.2 !! k) ∧ only (w_backup w) (Some b) ∧
  w_backup w !! b = A.2 !! i_package_id i.

Lemma replaced_undo A i b w : replaces (i_action i) = true → i_backup_name i = Some b → is_Some (A.2 !! i_package_id i) →
  replaced A i b w → undo A i w.
Proof.
  intros Ha Hb Hs (Hc & Ho & Hn & Hx). apply undo_split. split; [done|]. unfold mid_files.
  destruct (i_action i) eqn:E; try done; (split_and!; [done|done|by rewrite Hb|exists b; split; [done|by right]]).
Qed.

Lemma bring_back A i b w0 : replaces (i_action i) = true → i_backup_name i = Some b → is_Some (A.2 !! i_package_id i) →
  triple (λ w, w = w0 ∧ replaced A i b w)
    (_ ← when (bool_decide (is_Some (w_packages w0 !! i_package_id i))) (remove_package oracle (i_package_id i));
     backup_to_package oracle b (i_package_id i))
    (λ _ w, undo A i w ∧ restored A w) (λ _, undo A i).
Proof.
  intros Ha Hb Hs. eapply (triple_bind _ (λ _ w, replaced A i b w ∧ w_packages w !! i_package_id i = None)).
  - apply triple_if; intros Hd.
    + apply durable_triple. intros w [-> (Hc & Ho & Hn & Hx)].
      assert (∀ f, (∀ k, k ≠ i_package_id i → f !! k = A.2 !! k) → replaced A i b (set_packages f (tick w0))) as Hrep by (intros f Hf; by split_and!).
      assert (replaced A i b (set_packages (delete (i_package_id i) (w_packages (tick w0))) (tick w0))) as Hdel.
      { apply Hrep. intros k Hk. rewrite lookup_delete_ne by done. by apply Ho. }
      split; [split; [done|]; cbn; by rewrite lookup_delete_eq|]. intros e. split_and!.
      * by eapply replaced_undo.
      * by eapply replaced_undo.
      * intros t. destruct (w_packages (tick w0) !! i_package_id i) as [[]|]; eapply replaced_undo; try done; [|by split_and!..].
        apply Hrep. intros k Hk. rewrite lookup_insert_ne by done. by apply Ho.
    + intros w [-> Hw]. split; [done|]. apply bool_decide_eq_false in Hd. by apply eq_None_not_Some.
  - intros _ w [(Hc & Ho & Hn & Hx) Hnone]. unfold backup_to_package. destruct Hs as [x Hs].
    destruct (w_backup w !! b) as [y|] eqn:Ey; [|congruence].
    set (full := λ w, set_packages (<[i_package_id i:=y]> (w_packages w)) (set_backup (delete b (w_backup w)) w)).
    assert (triple (λ w1, w1 = w) (atomic LMove full) (λ _ w, undo A i w ∧ restored A w) (λ _, undo A i)) as Ht; [|by apply Ht].
    apply atomic_triple. intros w1 ->.
    assert (restored A (full (tick w))) as Hr.
    { split; cbn.
      - apply (others_eq _ _ (i_package_id i)); [|rewrite lookup_insert_eq; congruence]. intros k Hk. rewrite lookup_insert_ne by done. by apply Ho.
      - apply (only_none _ b); [|by rewrite lookup_delete_eq]. intros k Hk. rewrite lookup_delete_ne by congruence. by apply Hn. }
    assert (undo A i w) as Hu by (eapply replaced_undo; [done|done|by exists x|]; split; [exact Hc|]; split; [exact Ho|]; split; [exact Hn|congruence]).
    assert (undo A i (full (tick w))) as Hf.
    { apply undo_split. split; [done|]. eapply restored_mid; [|done]. by apply undo_split in Hu as [_ ?]. }
    split; [done|]. intros e. by split.
Qed.

Lemma undo_install_files A i (w : worldT) f : i_action i = AInstall → undo A i w → (∀ k, k ≠ i_package_id i → f !! k = A.2 !! k) →
  undo A i (set_packages f (tick w)).
Proof.
  intros Ha Hu Hf. apply undo_split in Hu as [Hc Hm]. apply undo_split. split; [exact Hc|]. unfold mid_files in *. rewrite Ha in *.
  destruct Hm as (_ & ? & ? & ?). by split_and!.
Qed.

(** An update or uninstall: the backup, if there is one, comes back. *)
Lemma replace_back A i : replaces (i_action i) = true →
  triple (undo A i)
    (w ← get_st;
     match i_backup_name i with
     | Some b => when (bool_decide (is_Some (w_backup w !! b)))
         (_ ← when (bool_decide (is_Some (w_packages w !! i_package_id i))) (remove_package oracle (i_package_id i));
          backup_to_package oracle b (i_package_id i))
     | None => mret tt
     end) (λ _ w, undo A i w ∧ restored A w) (λ _, undo A i).
Proof.
  intros Ha w Hu. rewrite run_bind_get. pose proof Hu as [Hc Hm]%undo_split.
  assert ((∀ k, k ≠ i_package_id i → w_packages w !! k = A.2 !! k) ∧ is_Some (A.2 !! i_package_id i) ∧ only (w_backup w) (i_backup_name i) ∧
    ∃ b, i_backup_name i = Some b ∧
      ((w_backup w !! b = None ∧ w_packages w !! i_package_id i = A.2 !! i_package_id i) ∨ w_backup w !! b = A.2 !! i_package_id i)) as (Ho & Hs & Hon & b & Hn & Hx).
  { unfold mid_files in Hm. by destruct (i_action i). }
  rewrite Hn in Hon |- *. unfold when at 1. destruct (bool_decide (is_Some (w_backup w !! b))) eqn:Ed.
  - apply (bring_back A i b w); [done..|]. split; [done|]. split; [exact Hc|]. split; [exact Ho|]. split; [exact Hon|].
    destruct Hx as [[Hx _]|Hx]; [|done]. apply bool_decide_eq_true in Ed as [x Ed]. congruence.
  - split; [exact Hu|]. apply bool_decide_eq_false, eq_None_not_Some in Ed. split; [|by eapply only_none].
    apply (others_eq _ _ (i_package_id i)); [exact Ho|]. destruct Hx as [[_ Hx]|Hx]; [done|]. destruct Hs as [x Hs]. congruence.
Qed.

Lemma rollback_files_triple A i :
  triple (undo A i) (rollback_files oracle i (i_package_id i) (i_backup_name i)) (λ _ w, undo A i w ∧ restored A w) (λ _, undo A i).
Proof.
  unfold rollback_files. destruct (i_action i) eqn:Ea.
  - intros w0 Hu. rewrite run_bind_get. pose proof Hu as [Hc Hm]%undo_split. unfold mid_files in Hm. rewrite Ea in Hm.
    destruct Hm as (Ho & Hn & Hbef & Hbk). unfold dict_mem. rewrite Hbef. cbn [negb andb]. unfold when.
    destruct (bool_decide _) eqn:Ed.
    + assert (triple (λ w, w = w0) (remove_package (X := X) (T := T) oracle (i_package_id i)) (λ _ w, undo A i w ∧ restored A w) (λ _, undo A i))
        as Ht; [|by apply Ht].
      apply durable_triple. intros w ->.
      assert (undo A i (set_packages (delete (i_package_id i) (w_packages w0)) (tick w0))) as Hdel.
      { apply undo_install_files; [done..|]. intros k Hk. rewrite lookup_delete_ne by done. by apply Ho. }
      split; [split; [exact Hdel|split; [|exact Hbk]]|].
      * cbn. apply (others_eq _ _ (i_package_id i)); [|by rewrite lookup_delete_eq, Hn]. intros k Hk. rewrite lookup_delete_ne by done. by apply Ho.
      * intros e. split; [exact Hu|]. split; [exact Hdel|]. intros t. destruct (w_packages (tick w0) !! i_package_id i) as [[]|]; try exact Hu.
        apply undo_install_files; [done..|]. intros k Hk. rewrite lookup_insert_ne by done. by apply Ho.
    + split; [exact Hu|split; [|exact Hbk]]. apply bool_decide_eq_false, eq_None_not_Some in Ed.
      apply (others_eq _ _ (i_package_id i)); [exact Ho|congruence].
  - apply (replace_back A i). by rewrite Ea.
  - intros w Hu. pose proof Hu as [_ Hm]%undo_split. unfold mid_files in Hm. rewrite Ea in Hm. by split.
  - intros w Hu. pose proof Hu as [_ Hm]%undo_split. unfold mid_files in Hm. rewrite Ea in Hm. by split.
  - apply (replace_back A i). by rewrite Ea.
Qed.

(** A directory of the transaction is emptied of what it left there. *)
Section drop.
Context (get : worldT → gmap string (node C)) (set : gmap string (node C) → worldT → worldT) (P : worldT → Prop) (name : option string).
Hypothesis get_tick : ∀ w, get (tick w) = get w.
Hypothesis get_set : ∀ f w, get (set f w) = f.
Hypothesis set_ok : ∀ w f, P w → only f name → P (set f (tick w)).
Hypothesis only_ok : ∀ w, P w → only (get w) name ∧ P (tick w).

Lemma drop_triple :
  triple P
    (match name with
     | Some n => w ← get_st; when (bool_decide (is_Some (get w !! n)))
         (durable LRemove (λ w, set (delete n (get w)) w)
            (λ t w, match get w !! n with Some (Dir _) => set (<[n := Dir t]> (get w)) w | _ => w end))
     | None => mret tt
     end) (λ _ w, P w ∧ get w = ∅) (λ _, P).
Proof.
  destruct name as [s|].
  2:{ intros w Hw. split; [done|]. apply map_eq. intros k. rewrite lookup_empty. by apply (proj1 (only_ok w Hw)). }
  apply triple_get. intros w0 Hw0. apply triple_if; intros Hd.
  - apply durable_triple. intros w [-> Hw]. destruct (only_ok w0 Hw) as [Hon Ht]. rewrite get_tick.
    assert (only (delete s (get w0)) (Some s)) as Hdel by (intros k Hk; rewrite lookup_delete_ne by congruence; by apply Hon).
    split; [split; [by apply set_ok|]|].
    + rewrite get_set. apply (only_none _ s); [done|by rewrite lookup_delete_eq].
    + intros e. split; [exact Ht|]. split; [by apply set_ok|]. intros t. destruct (get w0 !! s) as [[]|]; try exact Ht.
      apply set_ok; [done|]. intros k Hk. rewrite lookup_insert_ne by congruence. by apply Hon.
  - intros w [-> Hw]. split; [done|]. apply bool_decide_eq_false, eq_None_not_Some in Hd. by apply (only_none _ s); [apply only_ok|].
Qed.
End drop.

Lemma drop_stage_triple (P : worldT → Prop) name :
  (∀ w f, P w → only f name → P (set_stage f (tick w))) → (∀ w, P w → only (w_stage w) name ∧ P (tick w)) →
  triple P (drop_stage oracle name) (λ _ w, P w ∧ w_stage w = ∅) (λ _, P).
Proof. intros Hs Ho. by apply (drop_triple w_stage set_stage). Qed.

Lemma drop_backup_triple (P : worldT → Prop) name :
  (∀ w f, P w → only f name → P (set_backup f (tick w))) → (∀ w, P w → only (w_backup w) name ∧ P (tick w)) →
  triple P (drop_backup oracle name) (λ _ w, P w ∧ w_backup w = ∅) (λ _, P).
Proof. intros Hs Ho. by apply (drop_triple w_backup set_backup). Qed.

(** What a roll back has reached when it is done. *)
Definition undone_as (A : site) (i : intent) (w : worldT) : Prop :=
  undo A i w ∧ restored A w ∧ w_stage w = ∅ ∧ reads (w_registry w) A.1.

Lemma undo_registry A i w s : undo A i w → reads s A.1 → undo A i (set_registry s (tick w)).
Proof. intros (H1 & H2 & H3 & H4 & H5 & _ & H7) Hr. parts. split; [by left|done]. Qed.

Lemma write_intent_run i p : intent_ok i →
  write_intent sha256_hex oracle (with_phase p i) = atomic (LIntent p) (λ w, set_intents (<[path_of i := with_phase p i]> (w_intents w)) w).
Proof. intros Hi. unfold write_intent. change (i_operation_id (with_phase p i)) with (i_operation_id i). by rewrite (intent_path_run i Hi). Qed.

Lemma undo_phase A i w p : undo A i w → phase_ok late p → undo A i (set_intents (<[path_of i := with_phase p i]> (w_intents w)) (tick w)).
Proof.
  intros (H1 & H2 & (q & _ & Hd) & H4 & H5 & H6 & H7) Hp. split; [done|]. split; [done|]. split; [|done]. exists p. split; [done|].
  unfold on_disk in *. cbn. rewrite Hd. apply insert_singleton_eq.
Qed.

Lemma rollback_as_triple A i :
  triple (undo A i) (rollback_intent dump_record sha256_hex package_id_ok oracle i)
    (λ j w, j = with_phase ROLLED_BACK i ∧ undone_as A i w ∧ on_disk (with_phase ROLLED_BACK i) w) (λ _, undo A i).
Proof.
  intros w0 Hw0. pose proof Hw0 as (Hi & Hb & _). unfold rollback_intent.
  rewrite run_bind_lift, package_path_run, run_bind_lift, stage_run, run_bind_lift, backup_run by done.
  assert (triple (undo A i)
    (_ ← rollback_files oracle i (i_package_id i) (i_backup_name i); _ ← drop_stage oracle (i_stage_name i);
     _ ← write_records dump_record oracle (i_before i); _ ← write_intent sha256_hex oracle (with_phase ROLLED_BACK i); mret (with_phase ROLLED_BACK i))
    (λ j w, j = with_phase ROLLED_BACK i ∧ undone_as A i w ∧ on_disk (with_phase ROLLED_BACK i) w) (λ _, undo A i)) as Ht; [|by apply Ht].
  eapply triple_bind; [apply rollback_files_triple|]. intros []. cbv beta.
  apply (triple_bind _ (λ _ w, (undo A i w ∧ restored A w) ∧ w_stage w = ∅)).
  { eapply triple_weaken; [apply (drop_stage_triple (λ w, undo A i w ∧ restored A w))|done|by intros e w [? _]].
    - intros w f [(H1 & H2 & H3 & _ & H5) Hr] Hf. by split.
    - intros w [Hu Hr]. split; [apply Hu|by split]. }
  intros []. apply (triple_bind _ (λ _ w, undone_as A i w)).
  { apply atomic_triple. intros w [[Hu Hr] Hst].
    assert (reads (Some (canonical_registry_document dump_record (i_before i))) A.1) as Hrd.
    { destruct (io_before i Hi). by apply reads_written. }
    split; [split; [by apply undo_registry|parts]|]. intros e. split; [exact Hu|by apply undo_registry]. }
  intros []. rewrite write_intent_run by done.
  apply (triple_bind _ (λ _ w, undone_as A i w ∧ on_disk (with_phase ROLLED_BACK i) w)); [|intros []; by intros w].
  apply atomic_triple. intros w (Hu & Hr & Hst & Hrd).
  assert (phase_ok late ROLLED_BACK) as Hne by by destruct late. pose proof (undo_phase A i w ROLLED_BACK Hu Hne) as Hu'.
  split; [|intros e; split; [exact Hu|exact Hu']]. split; [split; [exact Hu'|parts]|].
  destruct Hu as (_ & _ & (q & _ & Hd) & _). unfold on_disk in *. cbn. rewrite Hd. apply insert_singleton_eq.
Qed.
End rolling.

Definition undone : site → intent → worldT → Prop := undone_as (late := false).

(** The end of a roll back takes the commit marker away. *)
Lemma rolled_back late A i w : undone_as (late := late) A i w → on_disk (with_phase ROLLED_BACK i) w → undone A i w.
Proof.
  destruct late; [|done]. intros ((H1 & H2 & _ & H4 & H5 & H6 & H7) & Hr) Hd. split; [|done]. parts. split; [by exists ROLLED_BACK|]. parts. by left.
Qed.

Lemma rollback_intent_triple late A i :
  triple (undo_as late A i) (rollback_intent dump_record sha256_hex package_id_ok oracle i)
    (λ j w, j = with_phase ROLLED_BACK i ∧ undone A i w ∧ on_disk (with_phase ROLLED_BACK i) w) (λ _, undo_as late A i).
Proof. eapply triple_weaken; [apply rollback_as_triple|intros j w (Hj & Hu & Hd); split; [done|]; split; [by eapply rolled_back|done]|done]. Qed.

(** *** The journal *)

(** The journal after an operation got a status. *)
Definition now_is (op : string) (st : Journal.OperationStatus) (j j' : Journal.spec) : Prop :=
  Journal.o_status <$> dict_get (Journal.sp_states j') op = Some st ∧
  ∀ k, k ≠ op → dict_get (Journal.sp_states j') k = dict_get (Journal.sp_states j) k.

Lemma finish_effect c op st code j x j' :
  Journal.spec_finish c op st code None j = (Ok x, j') → now_is op st j j' ∧ (j' = j ∨ Journal.o_status <$> dict_get (Journal.sp_states j) op = Some Journal.STARTED).
Proof.
  unfold Journal.spec_finish. rewrite run_bind_lift. destruct (Journal.validate_operation_id op) as [op'|] eqn:Ev; [|done].
  assert (op' = op) as -> by (unfold Journal.validate_operation_id in Ev; destruct (fullmatch _ op); [by injection Ev|discriminate Ev]).
  rewrite run_bind_lift. destruct (Journal.timestamp_of c None) as [us|]; [|done]. rewrite run_bind_get, run_bind_lift.
  unfold Journal.require_state. destruct (dict_get (Journal.sp_states j) op) as [cur|] eqn:Ec; [|done].
  destruct (bool_decide (Journal.o_status cur = st) && _) eqn:Es.
  - intros [= _ <-]. apply andb_true_iff in Es as [Es _]. apply bool_decide_eq_true in Es. split; [|by left]. split; [rewrite Ec; cbn; by rewrite Es|done].
  - unfold raise_if. rewrite run_bind_lift. destruct (bool_decide (Journal.o_status cur ≠ Journal.STARTED)) eqn:Ef; [done|]. cbn [fail_if].
    rewrite run_bind_lift. destruct (Journal.integrity_if _ _); [|done]. unfold Journal.commit. intros [= _ <-].
    apply bool_decide_eq_false in Ef. apply dec_stable in Ef. split; [|right; cbn; by rewrite Ef].
    split; cbn [Journal.sp_states]; [by rewrite dict_get_set_eq|]. intros k Hk. by rewrite dict_get_set_ne.
Qed.

Lemma journal_triple P (o : Z → Journal.op) Q E :
  (∀ (w : worldT) c, P w → (∀ e, E e (tick w)) ∧ ∀ x j, Journal.spec_run (o c) (w_journal w) = (Ok x, j) →
     Q x (set_journal j (tick w)) ∧ ∀ e, E e (set_journal j (tick w))) →
  triple P (journal oracle clock o) Q E.
Proof.
  intros Hstep w Hw. unfold journal. destruct (Hstep w (clock (w_step w)) Hw) as [H1 H2].
  destruct (Journal.spec_run _ _) as [[x|e] j]; [|by apply H1]. destruct (H2 x j eq_refl) as [H3 H4].
  assert (triple (λ w1, w1 = w) (atomic LJournal (set_journal j)) (λ _ w2, w2 = set_journal j (tick w)) (λ e w2, E e w2)) as Ht.
  { apply atomic_triple. intros w1 ->. split; [done|]. intros e. split; [apply H1|apply H4]. }
  specialize (Ht w eq_refl). rewrite run_bind. destruct (atomic _ _ w) as [[[]|e] w']; [by subst w'|done].
Qed.

Lemma fail_triple P op code E :
  (∀ (w : worldT) e, P w → E e (tick w)) → (∀ (w : worldT) j e, P w → now_is op Journal.FAILED (w_journal w) j → E e (set_journal j (tick w))) →
  triple P (journal oracle clock (λ c, Journal.OpFail c op code None))
    (λ _ w, ∃ w0 j, P w0 ∧ now_is op Journal.FAILED (w_journal w0) j ∧ w = set_journal j (tick w0)) E.
Proof.
  intros He Hj. apply journal_triple. intros w c Hw. split; [auto|]. intros x j. cbn [Journal.spec_run]. rewrite run_bind_lift.
  destruct (Journal.validate_error_code code); [|done]. intros [Hn _]%finish_effect. split; [by exists w, j|]. intros e. by apply Hj.
Qed.

Lemma mark_failed_triple P op code :
  (∀ w : worldT, P w → P (tick w)) → (∀ (w : worldT) j, P w → now_is op Journal.FAILED (w_journal w) j → P (set_journal j (tick w))) →
  triple P (mark_failed oracle clock op code) (λ _, P) (λ _, P).
Proof.
  intros Ht Hj. unfold mark_failed. apply (triple_bind _ (λ _, P)).
  - unfold journal_state. intros w Hw. rewrite run_bind_lift. by destruct (Journal.validate_operation_id op).
  - intros [st|]; [|by intros w]. apply triple_if; intros _; [|by intros w]. apply (triple_bind _ (λ _, P)); [|intros x; by intros w].
    eapply triple_weaken; [apply (fail_triple P op code (λ _, P)); auto|intros _ w (w0 & j & Hw0 & Hn & ->); by apply Hj|done].
Qed.

Lemma undo_journal A i w j : undo A i w → now_is (i_operation_id i) Journal.FAILED (w_journal w) j → undo A i (set_journal j (tick w)).
Proof. intros (H1 & H2 & H3 & H4 & H5 & H6 & H7) [Hn _]. parts. by right. Qed.

(** *** The end of a transaction *)

Lemma drop_stage_empty name w : w_stage w = ∅ → drop_stage (X := X) (T := T) oracle name w = (Ok tt, w).
Proof. intros E. unfold drop_stage. destruct name as [s|]; [|done]. rewrite run_bind_get, E, lookup_empty. done. Qed.

Lemma drop_backup_empty name w : w_backup w = ∅ → drop_backup (X := X) (T := T) oracle name w = (Ok tt, w).
Proof. intros E. unfold drop_backup. destruct name as [s|]; [|done]. rewrite run_bind_get, E, lookup_empty. done. Qed.

(** The file of the intent goes last. *)
Lemma unlink_triple P A i q E : intent_ok i →
  (∀ w, P w → on_disk (with_phase q i) w ∧ reads (w_registry w) A.1 ∧ w_packages w = A.2 ∧ w_stage w = ∅ ∧ w_backup w = ∅) →
  (∀ w e, P w → E e (tick w)) → (∀ w e, settled A w → E e w) →
  triple P (path ← lift (intent_path sha256_hex (i_operation_id i)); atomic LUnlink (λ w, set_intents (delete path (w_intents w)) w))
    (λ _, settled A) E.
Proof.
  intros Hi HP He Hs w0 Hw0. rewrite run_bind_lift, intent_path_run by done. revert w0 Hw0. apply atomic_triple. intros w Hw.
  destruct (HP w Hw) as (Hd & Hr & Hp & Hst & Hb).
  assert (settled A (set_intents (delete (path_of i) (w_intents (tick w))) (tick w))) as Hset.
  { parts. cbn. unfold on_disk in Hd. rewrite Hd. apply delete_singleton_eq. }
  split; [exact Hset|]. intros e. split; [by apply He|by apply Hs].
Qed.

(** What is left when cleaning up fails. *)
Definition undoing (A : site) (i : intent) (w : worldT) : Prop := settled A w ∨ undo A i w.
Definition redoing (A : site) (i : intent) (w : worldT) : Prop := settled A w ∨ redo A i w.

Lemma undoing_rep L A i w : undoing A i w → rep_or L A w.
Proof. intros [?|?]; [by left|by apply (undo_rep L A i)]. Qed.

Lemma redoing_rep L A i w : redoing A i w → rep_or L A w.
Proof. intros [?|?]; [by left|by apply (redo_rep L A i)]. Qed.

Lemma cleanup_undone A i q :
  triple (λ w, undone A i w ∧ on_disk (with_phase q i) w) (cleanup_intent sha256_hex package_id_ok oracle i) (λ _, settled A) (λ _, undoing A i).
Proof.
  intros w Hw. pose proof Hw as ((Hu & [Hp Hb] & Hst & Hr) & Hd). pose proof Hu as (Hi & _). unfold cleanup_intent.
  rewrite run_bind_lift, stage_run, run_bind, drop_stage_empty, run_bind_lift, backup_run, run_bind, drop_backup_empty by done.
  apply (unlink_triple (λ w, undone A i w ∧ on_disk (with_phase q i) w) A i q (λ _, undoing A i)); [done|..|exact Hw].
  - intros w1 ((_ & [? ?] & ? & ?) & ?). parts.
  - intros w1 e [(? & _) _]. by right.
  - intros w1 e ?. by left.
Qed.

Lemma redo_stage A i w f : redo A i w → only f (i_stage_name i) → redo A i (set_stage f (tick w)).
Proof. intros (H1 & H2 & H3 & _ & H5) Hf. parts. Qed.

Lemma redo_backup A i w f : redo A i w → only f (i_backup_name i) → redo A i (set_backup f (tick w)).
Proof. intros (H1 & H2 & H3 & H4 & _ & H6) Hf. parts. Qed.

Lemma cleanup_redo A i : triple (redo A i) (cleanup_intent sha256_hex package_id_ok oracle i) (λ _, settled A) (λ _, redoing A i).
Proof.
  intros w0 Hw0. pose proof Hw0 as (Hi & _). unfold cleanup_intent.
  rewrite run_bind_lift, stage_run by done. revert w0 Hw0. apply (triple_bind _ (λ _ w, redo A i w ∧ w_stage w = ∅)).
  { eapply triple_weaken; [apply (drop_stage_triple (redo A i))|done|by right].
    - intros w f. apply redo_stage.
    - intros w Hw. split; [apply Hw|done]. }
  intros [] w0 Hw0. rewrite run_bind_lift, backup_run by done. revert w0 Hw0.
  apply (triple_bind _ (λ _ w, (redo A i w ∧ w_stage w = ∅) ∧ w_backup w = ∅)).
  { eapply triple_weaken; [apply (drop_backup_triple (λ w, redo A i w ∧ w_stage w = ∅))|done|intros e w [Hw _]; by right].
    - intros w f [Hw Hst] Hf. split; [by apply redo_backup|done].
    - intros w [Hw Hst]. split; [apply Hw|done]. }
  intros []. apply (unlink_triple _ A i COMMITTED); [done|..].
  - intros w (((_ & _ & ? & _ & _ & ? & _ & ? & _) & ?) & ?). parts.
  - intros w e [[? _] _]. by right.
  - intros w e ?. by left.
Qed.

(** *** Recovery *)

Abbreviation cleanup := (cleanup_intent (C := C) (X := X) (T := T) sha256_hex package_id_ok oracle).

Lemma redo_registry A i w s : redo A i w → reads s A.1 → redo A i (set_registry s w).
Proof. intros (H1 & H2 & H3 & H4 & H5 & H6 & H7 & _ & H9) Hr. parts. Qed.

Lemma redo_journal A i w j : redo A i w → now_is (i_operation_id i) Journal.SUCCEEDED (w_journal w) j → redo A i (set_journal j (tick w)).
Proof. intros (H1 & H2 & H3 & H4 & H5 & H6 & H7 & H8 & _) [Hn _]. parts. by right. Qed.

Lemma succeed_triple A i :
  triple (redo A i) (succeed oracle clock (i_operation_id i)) (λ _ w, redo A i w ∧ status_of w (i_operation_id i) = Some Journal.SUCCEEDED) (λ _, redo A i).
Proof.
  unfold succeed. apply (triple_bind _ (λ _ w, redo A i w ∧ status_of w (i_operation_id i) = Some Journal.SUCCEEDED)); [|intros x; by intros w].
  apply journal_triple. intros w c Hw. split; [done|]. intros x j. cbn [Journal.spec_run]. intros [Hn _]%finish_effect.
  pose proof (redo_journal A i w j Hw Hn) as Hr. split; [split; [done|apply Hn]|done].
Qed.

Lemma postcondition_triple A i :
  triple (redo A i) (postcondition parse_record dump_record package_id_ok oracle i) (λ _, redo A i) (λ _, redo A i).
Proof.
  intros w0 Hw0. pose proof Hw0 as (Hi & _). revert w0 Hw0. unfold postcondition.
  eapply triple_bind; [apply (read_records_triple (redo A i) A.1 (λ _, redo A i))|].
  - done.
  - intros w s. apply redo_registry.
  - intros w (_ & _ & _ & _ & _ & _ & _ & ? & _). done.
  - done.
  - intros rs w (_ & _ & _ & Hw). destruct (negb _); [exact Hw|]. rewrite run_bind_lift, package_path_run by done. exact Hw.
Qed.

(** What [_postcondition] looks for is there. *)
Lemma evidence_found i rs R (n : option (node C)) : intent_ok i → dict_wf rs → is_map rs R → same_records rs (i_after i) = true →
  match i_action i with
  | AInstall | AUpdate =>
      match dict_get (i_after i) (i_package_id i), i_artifact_sha256 i, i_signature_key_id i with
      | Some r, Some sha, Some key =>
          node_is_dir n && negb (node_is_link n) && marker_matches (node_marker n) (i_package_id i) (m_version (pr_manifest r)) sha key
      | _, _, _ => false
      end
  | AUninstall => bool_decide (n = None)
  | _ => true
  end = true → is_map (i_after i) R ∧ evidence i n.
Proof.
  intros Hi Hwf Hm Hs Hb. split.
  - apply bool_decide_eq_true in Hs. destruct (io_after i Hi) as [Hwf' _]. intros k.
    by rewrite <-(dict_get_sort (i_after i)), <-Hs, dict_get_sort.
  - unfold evidence. destruct (i_action i); [..|done|done|by apply bool_decide_eq_true in Hb];
      (destruct (dict_get _ _) as [r|], (i_artifact_sha256 i) as [sha|], (i_signature_key_id i) as [key|]; try done; destruct n as [[t|t|]|]; try done; by exists t, r, sha, key).
Qed.

(** *** Recovering *)

Section recovering.
Context {L : Prop}.
Abbreviation rep := (rep_or L).

Lemma recover_committed_triple A i st :
  triple (redo A i) (recover_committed parse_record dump_record package_id_ok oracle clock cleanup i st) (λ _, settled A) (λ _, rep A).
Proof.
  assert (∀ (e : exn) w, redo A i w → rep A w) as Hrep by (intros _ w; apply redo_rep).
  unfold recover_committed. eapply triple_bind; [eapply triple_weaken; [apply (postcondition_triple A i)|done|exact Hrep]|]. intros ok.
  destruct (negb ok); [intros w Hw; by apply (Hrep os_error)|]. apply (triple_bind _ (λ _, redo A i)); [|intros _; eapply triple_weaken; [apply cleanup_redo|done|intros e; apply redoing_rep]].
  destruct st; [|by intros w|intros w Hw; by apply (Hrep os_error)].
  eapply triple_weaken; [apply succeed_triple|by intros _ w [? _]|exact Hrep].
Qed.

Lemma recover_uncommitted_triple A i st :
  triple (undo A i) (recover_uncommitted dump_record sha256_hex package_id_ok oracle clock cleanup i st) (λ _, settled A) (λ _, rep A).
Proof.
  assert (∀ (e : exn) w, undo A i w → rep A w) as Hrep by (intros _ w; apply undo_rep).
  unfold recover_uncommitted. apply (triple_bind _ (λ _, undo A i)); [intros w Hw; unfold lift; destruct (bool_decide _); [by apply (Hrep os_error)|done]|].
  intros _. eapply triple_bind; [eapply triple_weaken; [apply (rollback_intent_triple false A i)|done|exact Hrep]|]. intros j.
  apply (triple_bind _ (λ _ w, undone A i w ∧ on_disk (with_phase ROLLED_BACK i) w)); [|intros _; eapply triple_weaken; [apply cleanup_undone|done|intros e; apply undoing_rep]].
  eapply (triple_weaken _ _ (λ _ w, undone A i w ∧ on_disk (with_phase ROLLED_BACK i) w) _ (λ _ w, undone A i w ∧ on_disk (with_phase ROLLED_BACK i) w));
    [|done|intros e w [[Hu _] _]; by apply (Hrep e)].
  eapply triple_strengthen; [apply mark_failed_triple|by intros w [_ ?]].
  - done.
  - intros w j' [(Hu & Hr & Hst & Hrd) Hd] Hn. split; [|done]. split; [by apply undo_journal|done].
Qed.

(** An intent that recovery refuses stays as it is. *)
Definition stuck_at (i : intent) (w : worldT) : Prop :=
  intent_ok i ∧ on_disk (with_phase COMMITTED i) w ∧ is_Some (status_of w (i_operation_id i)) ∧
  ∃ R, reads (w_registry w) R ∧ ¬ (is_map (i_after i) R ∧ evidence i (w_packages w !! i_package_id i)).

Lemma stuck_is_at w : stuck w ↔ ∃ i, stuck_at i w.
Proof. split; [intros (i & R & Hi & Hd & Hs & Hr); exists i; by split_and!; [..|exists R]|intros (i & Hi & Hd & Hs & R & Hr); by exists i, R]. Qed.

Lemma stuck_postcondition i :
  triple (stuck_at i) (postcondition parse_record dump_record package_id_ok oracle i) (λ ok w, ok = false ∧ stuck_at i w) (λ _, stuck_at i).
Proof.
  intros w (Hi & Hd & Hs & R & Hr & Hno).
  set (P := λ w : worldT, (on_disk (with_phase COMMITTED i) w ∧ is_Some (status_of w (i_operation_id i))) ∧ reads (w_registry w) R ∧ ¬ (is_map (i_after i) R ∧ evidence i (w_packages w !! i_package_id i))).
  assert (∀ w, P w → stuck_at i w) as HP by (intros w1 ([? ?] & ? & ?); split; [done|]; split; [done|]; split; [done|by exists R]).
  assert (triple P (postcondition parse_record dump_record package_id_ok oracle i) (λ ok w, ok = false ∧ stuck_at i w) (λ _, stuck_at i)) as Ht; [|by apply Ht].
  unfold postcondition. eapply triple_bind; [apply (read_records_triple P R (λ _, stuck_at i))|]; [by intros w1|by intros w1 s1 (? & ? & ?) ?|by intros w1 (? & ? & ?)|by intros w1 e ?%HP|].
  intros rs w1 (Hwf & _ & Hm & Hw1). destruct (same_records rs (i_after i)) eqn:Es; cbn [negb]; [|by split; [|apply HP]].
  rewrite run_bind_lift, package_path_run, run_bind_get by done. split; [|by apply HP]. apply not_true_iff_false. intros Hb.
  destruct Hw1 as (_ & _ & Hno1). apply Hno1. exact (evidence_found i rs R _ Hi Hwf Hm Es Hb).
Qed.

Lemma read_intent_run i p w : intent_ok i → on_disk (with_phase p i) w →
  read_intent sha256_hex (path_of i) w = (Ok (with_phase p i), w).
Proof.
  intros Hi Hd. unfold read_intent. rewrite run_bind_get.
  assert (w_intents w !! path_of i = Some (with_phase p i)) as -> by (unfold on_disk in Hd; rewrite Hd; apply lookup_singleton_eq).
  change (i_operation_id (with_phase p i)) with (i_operation_id i). by rewrite run_bind_lift, intent_path_run, String.eqb_refl by done.
Qed.

Lemma recover_stuck_triple i :
  triple (stuck_at i) (recover_intent parse_record dump_record sha256_hex package_id_ok oracle clock cleanup (path_of i)) (λ _ _, False) (λ _, stuck_at i).
Proof.
  intros w Hw. pose proof Hw as (Hi & Hd & _). unfold recover_intent. rewrite run_bind, (read_intent_run i COMMITTED) by done.
  change (i_operation_id (with_phase COMMITTED i)) with (i_operation_id i). rewrite run_bind. unfold journal_state. rewrite run_bind_lift, (io_journal_op i Hi). cbn [gets].
  destruct (dict_get (Journal.sp_states (w_journal w)) (i_operation_id i)) as [st|]; [|exact Hw].
  rewrite run_bind. change (i_phase (with_phase COMMITTED i)) with COMMITTED. rewrite bool_decide_eq_true_2 by done.
  change (recover_committed parse_record dump_record package_id_ok oracle clock cleanup (with_phase COMMITTED i))
    with (recover_committed parse_record dump_record package_id_ok oracle clock cleanup i).
  unfold recover_committed. rewrite run_bind. pose proof (stuck_postcondition i w Hw) as Hp.
  destruct (postcondition _ _ _ _ i w) as [[ok|e] w1]; [|exact Hp]. destruct Hp as [-> Hp]. exact Hp.
Qed.

(** One intent. *)
Lemma recover_intent_triple A i :
  triple (λ w, undo A i w ∨ redo A i w)
    (recover_intent parse_record dump_record sha256_hex package_id_ok oracle clock cleanup (path_of i)) (λ _, settled A) (λ _, rep A).
Proof.
  intros w Hw.
  assert (intent_ok i ∧ ∃ p, on_disk (with_phase p i) w ∧ (p ≠ COMMITTED ∧ undo A i w ∨ p = COMMITTED ∧ redo A i w)) as (Hi & p & Hd & Hcase).
  { destruct Hw as [Hw|Hw]; pose proof Hw as (Hi & Hx).
    - destruct Hx as (_ & (p & Hp & Hd) & _). split; [done|]. exists p. auto.
    - destruct Hx as (_ & Hd & _). split; [done|]. exists COMMITTED. auto. }
  assert (rep A w) as Hrep by (destruct Hcase as [[_ ?]|[_ ?]]; [by apply (undo_rep L A i)|by apply (redo_rep L A i)]).
  unfold recover_intent. rewrite run_bind, (read_intent_run i p) by done.
  change (i_operation_id (with_phase p i)) with (i_operation_id i).
  rewrite run_bind. unfold journal_state. rewrite run_bind_lift, (io_journal_op i Hi). cbn [gets].
  destruct (dict_get (Journal.sp_states (w_journal w)) (i_operation_id i)) as [st|]; [|exact Hrep].
  rewrite run_bind. change (i_phase (with_phase p i)) with p. destruct Hcase as [[Hp Hu]|[-> Hr]].
  - rewrite bool_decide_eq_false_2 by done. pose proof (recover_uncommitted_triple A i (Journal.o_status st) w Hu) as Ht.
    change (recover_uncommitted dump_record sha256_hex package_id_ok oracle clock cleanup (with_phase p i))
      with (recover_uncommitted dump_record sha256_hex package_id_ok oracle clock cleanup i).
    by destruct (recover_uncommitted _ _ _ _ _ _ _ _ _) as [[[]|e] w'].
  - rewrite bool_decide_eq_true_2 by done. pose proof (recover_committed_triple A i (Journal.o_status st) w Hr) as Ht.
    change (recover_committed parse_record dump_record package_id_ok oracle clock cleanup (with_phase COMMITTED i))
      with (recover_committed parse_record dump_record package_id_ok oracle clock cleanup i).
    by destruct (recover_committed _ _ _ _ _ _ _ _ _) as [[[]|e] w'].
Qed.

Lemma settled_journal A w j : settled A w → settled A (set_journal j (tick w)).
Proof. done. Qed.

Lemma collect_triple {B D} P (f : B → M worldT D) l E : (∀ x, triple P (f x) (λ _, P) E) → triple P (collect f l) (λ _, P) E.
Proof.
  intros Hf. induction l as [|x l IH]; cbn [collect]; [by intros w|].
  apply (triple_bind _ (λ _, P)); [apply Hf|]. intros y. by apply (triple_bind _ (λ _, P)); [|intros ys w].
Qed.

Lemma paths_on_disk i p (w : worldT) : on_disk (with_phase p i) w → intent_paths w = [path_of i].
Proof. unfold on_disk, intent_paths. intros ->. by rewrite dom_singleton_L, elements_singleton. Qed.

Lemma paths_of_intents A w :
  rep A w → (settled A w ∧ intent_paths w = []) ∨ (∃ i, (undo A i w ∨ redo A i w) ∧ intent_paths w = [path_of i]) ∨
    ∃ i, L ∧ stuck_at i w ∧ intent_paths w = [path_of i].
Proof.
  intros [Hs|[[i Hu]|[[i Hr]|[HL [i Hi]%stuck_is_at]]]].
  - left. split; [done|]. destruct Hs as (_ & _ & _ & _ & E). unfold intent_paths. by rewrite E, dom_empty_L, elements_empty.
  - right. left. exists i. split; [by left|]. destruct Hu as (_ & _ & (p & _ & Hd) & _). by eapply paths_on_disk.
  - right. left. exists i. split; [by right|]. destruct Hr as (_ & _ & Hd & _). by eapply paths_on_disk.
  - right. right. exists i. split; [done|]. split; [done|]. destruct Hi as (_ & Hd & _). by eapply paths_on_disk.
Qed.

Abbreviation recovery := (recover_locked parse_record dump_record sha256_hex package_id_ok oracle clock cleanup).

Lemma recover_locked_triple A : triple (rep A) recovery (λ _, settled A) (λ _, rep A).
Proof.
  assert (∀ done, triple (settled A) (waiting ← journal_pending;
      failed ← collect (fail_interrupted oracle clock) (List.filter (interrupted done) waiting); mret (sort_by id (remove_dups (done ++ failed))))
    (λ _, settled A) (λ _, rep A)) as Hrest.
  { intros done. apply (triple_bind _ (λ _, settled A)); [by intros w|]. intros waiting.
    apply (triple_bind _ (λ _, settled A)); [|intros failed; by intros w].
    eapply triple_weaken; [apply (collect_triple (settled A) (fail_interrupted oracle clock) _ (λ _, settled A))|done|by intros e w ?; left].
    intros st. unfold fail_interrupted. apply (triple_bind _ (λ _, settled A)); [|intros x; by intros w].
    eapply triple_weaken; [apply (fail_triple (settled A) _ _ (λ _, settled A)); [done|intros w j e Hw _; exact Hw]| |done].
    intros _ w (w0 & j & Hw0 & _ & ->). exact Hw0. }
  intros w Hw. unfold recover_locked. rewrite run_bind. cbn [gets].
  destruct (paths_of_intents A w Hw) as [[Hs ->]|[(i & Hi & ->)|(i & HL & Hi & ->)]]; [by apply (Hrest [] w)|..]; cbn [collect].
  - pose proof (recover_intent_triple A i w Hi) as Ht. rewrite !run_bind. destruct (recover_intent _ _ _ _ _ _ _ _ w) as [[op|e] w']; [|exact Ht].
    apply (Hrest [op] w' Ht).
  - pose proof (recover_stuck_triple i w Hi) as Ht. rewrite !run_bind. destruct (recover_intent _ _ _ _ _ _ _ _ w) as [[op|e] w']; [done|].
    apply (stuck_rep L A w' HL), stuck_is_at. by exists i.
Qed.

(** *** Executing an intent *)

Lemma rollback_and_fail_triple late A i code :
  triple (undo_as late A i) (rollback_and_fail dump_record sha256_hex package_id_ok oracle clock cleanup i code) (λ _, settled A)
    (λ _ w, undo_as late A i w ∨ rep A w).
Proof.
  unfold rollback_and_fail. apply (or_else_triple _ _ _ _ (λ _ w, undo_as late A i w ∨ rep A w)); [|intros e _ w Hw; exact Hw|done].
  eapply triple_bind; [eapply triple_weaken; [apply (rollback_intent_triple late A i)|done|by left]|]. intros j.
  apply (triple_bind _ (λ _ w, j = with_phase ROLLED_BACK i ∧ undone A i w ∧ on_disk (with_phase ROLLED_BACK i) w)).
  - eapply triple_weaken; [apply (mark_failed_triple (λ w, j = with_phase ROLLED_BACK i ∧ undone A i w ∧ on_disk (with_phase ROLLED_BACK i) w))|done|].
    + done.
    + intros w j' (Hj & (Hu & Hr & Hst & Hrd) & Hd) Hn. split; [done|]. split; [|done]. split; [by apply undo_journal|done].
    + intros e w (_ & [Hu _] & _). right. by apply (undo_rep L A i).
  - intros []. apply triple_pre. intros ->. eapply triple_weaken; [apply (cleanup_undone A i ROLLED_BACK)|done|intros e w Hw; right; by apply (undoing_rep L A i)].
Qed.
End recovering.

(** What the packages must be for the action to make sense. *)
Definition site_ok (A : site) (i : intent) : Prop :=
  match i_action i with
  | AInstall => A.2 !! i_package_id i = None ∧ dict_get (i_before i) (i_package_id i) = None
  | AUpdate | AUninstall => is_Some (A.2 !! i_package_id i)
  | _ => True
  end.

Lemma mid_restored A i w : intent_ok i → site_ok A i → restored A w → mid_files i A.2 w.
Proof.
  intros Hi Hs [Hp Hb]. unfold mid_files, site_ok in *. pose proof (io_backup i Hi) as Hn.
  assert (replaces (i_action i) = true → is_Some (A.2 !! i_package_id i) →
    (∀ k, k ≠ i_package_id i → w_packages w !! k = A.2 !! k) ∧ is_Some (A.2 !! i_package_id i) ∧ only (w_backup w) (i_backup_name i) ∧
    ∃ b, i_backup_name i = Some b ∧
      ((w_backup w !! b = None ∧ w_packages w !! i_package_id i = A.2 !! i_package_id i) ∨ w_backup w !! b = A.2 !! i_package_id i)) as Hrepl.
  { intros Ha Hx. rewrite Ha in Hn. rewrite Hp, Hb. parts.
    eexists. split; [exact Hn|]. left. by rewrite lookup_empty. }
  destruct (i_action i); [|by apply Hrepl|done|done|by apply Hrepl]. destruct Hs as [? ?]. rewrite Hp. parts.
Qed.

Definition started (i : intent) (w : worldT) : Prop := status_of w (i_operation_id i) = Some Journal.STARTED.

(** Nothing was done yet, but for staging [x]. *)
Definition begun (A : site) (i : intent) (x : option (node C)) (w : worldT) : Prop :=
  undo A i w ∧ restored A w ∧ reads (w_registry w) A.1 ∧ started i w ∧
  (stages (i_action i) = true → ∃ s, i_stage_name i = Some s ∧ w_stage w !! s = x).

(** Not even the intent is there. *)
Definition fresh (A : site) (i : intent) (w : worldT) : Prop :=
  settled A w ∧ intent_ok i ∧ i_phase i = PREPARED ∧ is_map (i_before i) A.1 ∧ site_ok A i ∧ started i w.

Lemma with_same_phase (i : intent) : with_phase (i_phase i) i = i.
Proof. by destruct i. Qed.

Lemma fresh_written A i w : fresh A i w → begun A i None (set_intents (<[path_of i := i]> (w_intents w)) (tick w)).
Proof.
  intros ((Hr & Hp & Hst & Hb & Hin) & Hi & Hph & Hm & Hs & Hrun).
  assert (restored A (set_intents (<[path_of i:=i]> (w_intents w)) (tick w))) as Hres by done.
  split; [|split; [exact Hres|split; [exact Hr|split; [exact Hrun|]]]].
  - apply undo_split. split; [|by apply mid_restored]. split; [exact Hi|]. split; [exact Hm|]. split.
    + exists PREPARED. split; [done|]. rewrite <-Hph, with_same_phase. unfold on_disk. cbn. by rewrite Hin.
    + split; [intros k _; cbn; by rewrite Hst, lookup_empty|]. split; [by left|by left].
  - intros Ha. rewrite (io_stage i Hi), Ha. eexists. split; [done|]. cbn. by rewrite Hst, lookup_empty.
Qed.

Lemma write_fresh_triple A i :
  triple (fresh A i) (write_intent sha256_hex oracle i) (λ _, begun A i None) (λ _ w, fresh A i w ∨ begun A i None w).
Proof.
  intros w0 Hw0. pose proof Hw0 as (_ & Hi & _). unfold write_intent. rewrite run_bind_lift, intent_path_run by done. revert w0 Hw0.
  apply atomic_triple. intros w Hw. pose proof (fresh_written A i w Hw) as Hb. split; [exact Hb|]. intros e. split; [by left|by right].
Qed.

Lemma begun_journal A i x w j : begun A i x w → now_is (i_operation_id i) Journal.FAILED (w_journal w) j → rep A (set_journal j (tick w)).
Proof. intros [Hu _] Hn. right. left. exists i. by apply undo_journal. Qed.

(** The refusal to go on without an intent. *)
Lemma refuse_triple {B} A i code msg Q :
  triple (λ w, settled A w ∨ undo A i w) (refuse (A := B) oracle clock (i_operation_id i) code msg) Q (λ _, rep A).
Proof.
  unfold refuse. apply (triple_bind _ (λ _, rep A)); [|intros []; by intros w].
  assert (∀ w, settled A w ∨ undo A i w → rep A w) as Hrep by (intros w [?|?]; [by left|by apply (undo_rep _ A i)]).
  eapply (triple_weaken _ _ (λ _ w, settled A w ∨ undo A i w) _ (λ _ w, settled A w ∨ undo A i w)); [apply mark_failed_triple|auto|auto].
  - done.
  - intros w j [?|Hu] Hn; [by left|right; by apply undo_journal].
Qed.

Lemma persist_triple A i x :
  triple (λ w, fresh A i w ∧ x = None ∨ begun A i x w) (persist_intent sha256_hex oracle clock i) (λ _, begun A i x) (λ _, rep A).
Proof.
  intros w Hw. assert (intent_ok i) as Hi by (destruct Hw as [[(_ & ? & _) _]|[(? & _) _]]; done).
  unfold persist_intent. rewrite run_bind_lift, intent_path_run, run_bind_get by done. destruct Hw as [[Hf ->]|Hb].
  - pose proof Hf as ((_ & _ & _ & _ & Hin) & _). rewrite Hin, lookup_empty. unfold when. cbn [negb bool_decide].
    assert (triple (fresh A i) (or_else (write_intent sha256_hex oracle i)
      (refuse oracle clock (i_operation_id i) "package.intent_write_failed" "package transaction intent could not be persisted"))
      (λ _, begun A i None) (λ _, rep A)) as Ht; [|by apply Ht].
    apply (or_else_triple _ _ _ _ (λ _ w, fresh A i w ∨ begun A i None w)); [apply write_fresh_triple|..].
    + intros e _. eapply triple_strengthen; [apply (refuse_triple A i)|]. intros w1 [[? _]|[? _]]; [by left|by right].
    + intros e w1 _ [[? _]|[? _]]; [by left|right; left; by exists i].
  - pose proof Hb as ((_ & _ & (p & _ & Hd) & _) & _). unfold on_disk in Hd. rewrite Hd. change (path_of (with_phase p i)) with (path_of i).
    rewrite lookup_singleton_eq. exact Hb.
Qed.

(** The packages once the transaction has moved its files. *)
Definition packages_after (A : site) (i : intent) (x : option (node C)) : gmap string (node C) :=
  match i_action i with
  | AInstall | AUpdate => partial_alter (λ _, x) (i_package_id i) A.2
  | AUninstall => delete (i_package_id i) A.2
  | _ => A.2
  end.

Definition moved (A : site) (i : intent) (P : gmap string (node C)) (w : worldT) : Prop :=
  undo A i w ∧ w_packages w = P ∧ started i w.

Lemma only_delete m n (s : string) : only m n → only (delete s m) n.
Proof. intros Ho k Hk. rewrite lookup_delete_None. right. by apply Ho. Qed.

Lemma stage_move A i s n x w : i_stage_name i = Some s → w_stage w !! s = Some x → undo_core (late := false) A i w →
  (∀ w', undo_core (late := false) A i w' → w_packages w' = <[n := x]> (w_packages w) → w_backup w' = w_backup w → undo A i w') → undo A i w → started i w →
  match stage_to_package oracle s n w with
  | (Ok _, w') => moved A i (<[n := x]> (w_packages w)) w'
  | (Err _, w') => undo A i w'
  end.
Proof.
  intros Hs Hx Hc Hnew Hu Hst. unfold stage_to_package. rewrite Hx.
  set (full := λ w, set_packages (<[n:=x]> (w_packages w)) (set_stage (delete s (w_stage w)) w)).
  assert (undo A i (full (tick w))) as Hf.
  { apply Hnew; [|done|done]. destruct Hc as (H1 & H2 & H3 & H4 & H5). parts. split; [|done]. by apply only_delete. }
  assert (triple (λ w1, w1 = w) (atomic LMove full) (λ _, moved A i (<[n := x]> (w_packages w))) (λ _, undo A i)) as Ht; [|by apply Ht].
  apply atomic_triple. intros w1 ->. split; [by split|]. by intros e.
Qed.

(** The first move of an update and the move of an uninstall. *)
Lemma backup_move A i b w : replaces (i_action i) = true → i_backup_name i = Some b → is_Some (A.2 !! i_package_id i) →
  undo A i w → restored A w → started i w →
  match package_to_backup oracle (i_package_id i) b w with
  | (Ok _, w') => moved A i (delete (i_package_id i) A.2) w' ∧ replaced (late := false) A i b w' ∧ w_stage w' = w_stage w
  | (Err _, w') => undo A i w'
  end.
Proof.
  intros Ha Hb [x Hx] Hu [Hp Hbk] Hst. unfold package_to_backup. rewrite Hp, Hx.
  set (full := λ w, set_backup (<[b:=x]> (w_backup w)) (set_packages (delete (i_package_id i) (w_packages w)) w)).
  assert (replaced (late := false) A i b (full (tick w))) as Hr.
  { split; [|split; [|split]].
    - pose proof Hu as [(H1 & H2 & H3 & H4 & H5) _]%undo_split. parts.
    - intros k Hk. cbn. by rewrite Hp, lookup_delete_ne.
    - intros k Hk. cbn. by rewrite Hbk, lookup_insert_ne, lookup_empty by congruence.
    - cbn. by rewrite lookup_insert_eq, Hx. }
  assert (undo A i (full (tick w))) as Hf by (apply (replaced_undo A i b); [done|done|by exists x|done]).
  assert (triple (λ w1, w1 = w) (atomic LMove full)
    (λ _ w', moved A i (delete (i_package_id i) A.2) w' ∧ replaced (late := false) A i b w' ∧ w_stage w' = w_stage w) (λ _, undo A i)) as Ht; [|by apply Ht].
  apply atomic_triple. intros w1 ->. split; [|by intros e]. split; [|by split]. split; [done|]. split; [|done]. cbn. by rewrite Hp.
Qed.

Lemma apply_files_triple A i x : site_ok A i →
  triple (begun A i x) (apply_files sha256_hex package_id_ok oracle i) (λ _, moved A i (packages_after A i x)) (λ _, undo A i).
Proof.
  intros Hs w (Hu & Hr & _ & Hst & Hx). pose proof Hu as (Hi & _). pose proof Hu as [Hc _]%undo_split. pose proof Hr as [Hp Hb].
  unfold apply_files, packages_after, site_ok in *.
  rewrite run_bind_lift, package_path_run, run_bind_lift, stage_run, run_bind_lift, backup_run, run_bind_get by done.
  pose proof (io_backup i Hi) as Hbn. destruct (i_action i) eqn:Ea; cbn [stages replaces] in *.
  - destruct (Hx eq_refl) as (s & Hsn & Hsx). rewrite Hsn. destruct (_ || _) eqn:Eg; [exact Hu|]. apply orb_false_iff in Eg as [Eg _].
    rewrite Hsx in Eg. destruct x as [x|]; [|done]. rewrite <-Hp. destruct Hs as [Hnone Hbef].
    apply stage_move; [done..| |done|done]. intros w' Hc' Hp' Hb'. apply undo_split. split; [done|]. unfold mid_files. rewrite Ea, Hp', Hb', Hb, Hp.
    split; [intros k Hk; by rewrite lookup_insert_ne|parts].
  - destruct (Hx eq_refl) as (s & Hsn & Hsx). rewrite Hsn. change (replaces AUpdate) with true in Hbn. cbv iota in Hbn. rewrite Hbn. destruct (_ || _) eqn:Eg; [exact Hu|].
    apply orb_false_iff in Eg as [Eg _]. apply orb_false_iff in Eg as [Eg _]. rewrite Hsx in Eg. destruct x as [x|]; [|done]. rewrite run_bind.
    assert (replaces (i_action i) = true) as Hrep by (by rewrite Ea).
    pose proof (backup_move A i _ w Hrep Hbn Hs Hu Hr Hst) as Hm. destruct (package_to_backup _ _ _ w) as [[[]|e] w1]; [|exact Hm].
    destruct Hm as ((Hu1 & Hp1 & Hst1) & (Hc1 & Ho1 & Hon1 & Hb1) & Hs1).
    replace (partial_alter (λ _, Some x) (i_package_id i) A.2) with (<[i_package_id i := x]> (w_packages w1)).
    2:{ rewrite Hp1. apply map_eq. intros k. destruct (decide (k = i_package_id i)) as [->|Hk];
          [by rewrite lookup_insert_eq, lookup_partial_alter_eq|by rewrite lookup_insert_ne, lookup_delete_ne, lookup_partial_alter_ne]. }
    apply stage_move; [done|congruence|done| |done|done]. intros w' Hc' Hp' Hb'. apply (replaced_undo A i _ w' Hrep Hbn Hs).
    split; [done|]. split; [|by rewrite Hb'; split]. intros k Hk. rewrite Hp', lookup_insert_ne by done. by apply Ho1.
  - by split; [|split].
  - by split; [|split].
  - change (replaces AUninstall) with true in Hbn. cbv iota in Hbn. rewrite Hbn. destruct (_ || _); [exact Hu|].
    assert (replaces (i_action i) = true) as Hrep by (by rewrite Ea).
    pose proof (backup_move A i _ w Hrep Hbn Hs Hu Hr Hst) as Hm. destruct (package_to_backup _ _ _ w) as [[[]|e] w1]; [apply Hm|exact Hm].
Qed.

Definition applied (A : site) (i : intent) (P : gmap string (node C)) (w : worldT) : Prop :=
  moved A i P w ∧ ∃ R, is_map (i_after i) R ∧ reads (w_registry w) R.

Lemma phase_triple A i (F : worldT → Prop) p : intent_ok i → p ≠ COMMITTED →
  (∀ w, F w → undo A i w ∧ F (set_intents (<[path_of i := with_phase p i]> (w_intents w)) (tick w))) →
  triple F (write_intent sha256_hex oracle (with_phase p i)) (λ _, F) (λ _, undo A i).
Proof.
  intros Hi Hp HF. rewrite write_intent_run by done. apply atomic_triple. intros w Hw. destruct (HF w Hw) as [Hu Hf].
  split; [exact Hf|]. intros e. split; [exact Hu|]. by apply (undo_phase A i w p).
Qed.

Lemma moved_phase A i P w p : moved A i P w → p ≠ COMMITTED → moved A i P (set_intents (<[path_of i := with_phase p i]> (w_intents w)) (tick w)).
Proof. intros (Hu & Hp & Hs) Hc. split; [by apply undo_phase|]. by split. Qed.

Lemma lift_triple P (r : result unit) E : (∀ (w : worldT) e, P w → E e w) → triple P (lift r) (λ _, P) E.
Proof. intros HE w Hw. destruct r as [[]|e]; [exact Hw|by apply HE]. Qed.

(** The migrations of the package answered, on the tree [n]. *)
Definition migrated (i : intent) (n : option (node C)) : Prop :=
  ∀ r, dict_get (i_after i) (i_package_id i) = Some r → i_action i ∈ [AInstall; AUpdate] → has_migrations (pr_manifest r) = true →
    ∃ f, migration_applier cb = Some f ∧ f n (pr_manifest r) = Ok tt.

Lemma migrations_triple P i n E : intent_ok i → (∀ w : worldT, P w → w_packages w !! i_package_id i = n) → (∀ (w : worldT) e, P w → E e w) →
  triple P (if bool_decide (i_action i ∈ [AInstall; AUpdate]) then apply_migrations package_id_ok has_migrations cb i else mret tt)
    (λ _ w, migrated i n ∧ P w) E.
Proof.
  intros Hi Hn HE w Hw. unfold migrated. destruct (bool_decide _) eqn:Ea; [|apply bool_decide_eq_false in Ea; by split]. unfold apply_migrations.
  destruct (dict_get (i_after i) (i_package_id i)) as [r|]; [|by split]. destruct (has_migrations (pr_manifest r)) eqn:Em; cbn [negb].
  2:{ split; [|done]. intros r' [= <-] _. congruence. }
  destruct (migration_applier cb) as [f|]; [|by apply HE]. rewrite run_bind_lift, package_path_run, run_bind_get, (Hn w Hw) by done. unfold lift.
  destruct (f n (pr_manifest r)) as [[]|e] eqn:Ef; cbn [result_catch].
  - split; [|done]. intros r' [= <-] _ _. by exists f.
  - destruct (exn_isa _ _); [by apply HE|]. destruct (caught e); by apply HE.
Qed.

Lemma write_after_triple A i P : intent_ok i → (∃ R, is_map (i_after i) R) →
  triple (moved A i P) (write_records dump_record oracle (i_after i)) (λ _, applied A i P) (λ _, undo A i).
Proof.
  intros Hi [R HR]. destruct (io_after i Hi) as [Hwf Hids]. apply atomic_triple. intros w (Hu & Hp & Hs).
  assert (reads (Some (canonical_registry_document dump_record (i_after i))) R) as Hr by by apply reads_written.
  assert (undo A i (set_registry (Some (canonical_registry_document dump_record (i_after i))) (tick w))) as Hu'.
  { destruct Hu as (H1 & H2 & H3 & H4 & H5 & _ & H7). parts. split; [|done]. right. by exists R. }
  split; [split; [by split|by exists R]|]. intros e. by split.
Qed.

Lemma apply_intent_triple A i x : intent_ok i → site_ok A i → (∃ R, is_map (i_after i) R) →
  triple (begun A i x) (apply_intent dump_record sha256_hex package_id_ok has_migrations cb oracle i)
    (λ _ w, migrated i (packages_after A i x !! i_package_id i) ∧ applied A i (packages_after A i x) w) (λ _, undo A i).
Proof.
  intros Hi Hs HR. assert (∀ P, ∀ w (e : exn), moved A i P w → undo A i w) as Hmu by (by intros P w e [? _]).
  assert (∀ P, ∀ w (e : exn), applied A i P w → undo A i w) as Hau by (by intros P w e [[? _] _]).
  unfold apply_intent. apply (triple_bind _ (λ _, moved A i (packages_after A i x))).
  { pose proof (apply_files_triple A i x Hs) as Hf. destruct (bool_decide _) eqn:Ea; [exact Hf|]. apply bool_decide_eq_false in Ea.
    intros w (Hu & [Hp _] & _ & Hst & _). split; [done|]. split; [|done]. unfold packages_after.
    by destruct (i_action i); [set_solver|set_solver|..|set_solver]. }
  intros []. apply (triple_bind _ (λ _, moved A i (packages_after A i x))).
  { apply phase_triple; [done..|]. intros w Hw. split; [apply Hw|]. by apply moved_phase. }
  intros []. apply (triple_bind _ (λ _, moved A i (packages_after A i x))); [by apply lift_triple, Hmu|]. intros [].
  eapply triple_bind.
  { apply (migrations_triple (moved A i (packages_after A i x)) i (packages_after A i x !! i_package_id i)); [done| |apply Hmu].
    intros w (_ & -> & _). done. }
  intros []. apply triple_pre. intros Hmig. apply (triple_bind _ (λ _, applied A i (packages_after A i x))); [by apply write_after_triple|]. intros [].
  apply (triple_bind _ (λ _, applied A i (packages_after A i x))).
  - apply phase_triple; [done..|]. intros w [Hm Hr]. split; [apply Hm|]. split; [by apply moved_phase|done].
  - intros []. eapply triple_weaken; [by apply lift_triple, Hau|by intros [] w Hw|done].
Qed.

(** The names that a transaction that was not committed may use are those of the one it becomes. *)
Lemma mid_only (A : site) i w : mid_files i A.2 w → only (w_backup w) (i_backup_name i).
Proof.
  unfold mid_files. destruct (i_action i); [intros (_ & _ & _ & ->)|by intros (_ & _ & ? & _)|intros [_ ->]|intros [_ ->]|by intros (_ & _ & ? & _)];
    intros k _; apply lookup_empty.
Qed.

Lemma commit_step A i P R : intent_ok i → is_map (i_after i) R → evidence i (P !! i_package_id i) →
  triple (applied A i P) (write_intent sha256_hex oracle (with_phase COMMITTED i)) (λ _, redo (R, P) i)
    (λ e w, undo A i w ∨ redo (R, P) i w ∧ (e = the_end ∨ late_marker ∧ undo_as true A i w)).
Proof.
  intros Hi HR Hev. rewrite write_intent_run by done. apply commit_triple. intros w ((Hu & Hp & Hs) & R' & HR' & Hr).
  set (w' := set_intents (<[path_of i := with_phase COMMITTED i]> (w_intents (tick w))) (tick w)).
  pose proof Hu as (H1 & H2 & (q & _ & Hd) & H4 & H5 & H6 & _).
  assert (on_disk (with_phase COMMITTED i) w') as Hd' by (unfold on_disk in *; cbn; rewrite Hd; apply insert_singleton_eq).
  assert (redo (R, P) i w') as Hredo.
  { rewrite <-(is_map_unique _ _ _ HR HR') in Hr. parts. split; [exact (mid_only A i w H5)|]. parts. by left. }
  split; [exact Hredo|]. split; [by left|]. intros e [->|HL]; right; (split; [exact Hredo|]); [by left|right]. split; [exact HL|].
  parts. split; [by exists COMMITTED|]. parts.
Qed.

#[local] Instance is_map_dec (rs : records_map) R : Decision (is_map rs R).
Proof.
  refine (cast_if (decide (list_to_map rs = R))); unfold is_map.
  - intros k. subst R. induction rs as [|[j r] rs IH]; cbn; [by rewrite lookup_empty|].
    destruct (decide (j = k)) as [->|]; [by rewrite lookup_insert_eq|by rewrite lookup_insert_ne].
  - intros Hm. apply n. apply map_eq. intros k. rewrite <-Hm. clear Hm n. induction rs as [|[j r] rs IH]; cbn; [by rewrite lookup_empty|].
    destruct (decide (j = k)) as [->|]; [by rewrite lookup_insert_eq|by rewrite lookup_insert_ne].
Defined.

#[local] Instance evidence_dec i n : Decision (evidence i n).
Proof.
  unfold evidence. destruct (i_action i); [..|apply _|apply _|destruct n; [right|left]; done];
    (destruct n as [[t|t|]|]; [|right; by intros (? & ? & ? & ? & ? & _)..];
     destruct (dict_get (i_after i) (i_package_id i)) as [r|]; [|right; by intros (? & ? & ? & ? & _ & ? & _)];
     destruct (i_artifact_sha256 i) as [sha|]; [|right; by intros (? & ? & ? & ? & _ & _ & ? & _)];
     destruct (i_signature_key_id i) as [key|]; [|right; by intros (? & ? & ? & ? & _ & _ & _ & ? & _)];
     destruct (marker_matches (t_marker t) (i_package_id i) (m_version (pr_manifest r)) sha key) eqn:E;
     [left; by exists t, r, sha, key|right; intros (? & ? & ? & ? & ? & ? & ? & ? & ?); simplify_eq; congruence]).
Defined.

(** Where a roll back under a late commit marker stops: recovery goes on from there, with what the
    package has become, or refuses. *)
Lemma late_cases A i R w : is_map (i_after i) R → undo_as true A i w →
  undo A i w ∨ stuck_at i w ∨ ∃ y, evidence i (packages_after A i y !! i_package_id i) ∧ redo (R, packages_after A i y) i w.
Proof.
  intros HR Hu. pose proof Hu as (Hi & Hm & (p & _ & Hd) & Hon & Hmid & Hreg & Hst).
  destruct (decide (p = COMMITTED)) as [->|Hp].
  2:{ left. parts. split; [by exists p|]. parts. by left. }
  right. assert (∃ R0, reads (w_registry w) R0) as [R0 Hr0] by (destruct Hreg as [?|(? & _ & ?)]; eauto).
  destruct (decide (is_map (i_after i) R0 ∧ evidence i (w_packages w !! i_package_id i))) as [[HR0 Hev]|Hno].
  2:{ left. unfold journal_ok in Hst. split; [done|]. split; [done|]. split; [by rewrite Hst|by exists R0]. }
  right. exists (w_packages w !! i_package_id i). rewrite (is_map_unique _ _ _ HR HR0).
  assert (packages_after A i (w_packages w !! i_package_id i) = w_packages w) as Hp.
  { unfold packages_after, mid_files, evidence in *. apply map_eq. intros k.
    destruct (decide (k = i_package_id i)) as [->|Hk]; destruct (i_action i); try (by rewrite lookup_partial_alter_eq); try (destruct Hmid as [-> _]; done).
    - by rewrite lookup_delete_eq.
    - rewrite lookup_partial_alter_ne by done. symmetry. by apply Hmid.
    - rewrite lookup_partial_alter_ne by done. symmetry. by apply Hmid.
    - rewrite lookup_delete_ne by done. symmetry. by apply Hmid. }
  rewrite Hp. split; [done|]. parts. split; [by eapply mid_only|]. parts. by left.
Qed.

Lemma late_rep A i R w : late_marker → is_map (i_after i) R → undo_as true A i w →
  rep A w ∨ ∃ y, evidence i (packages_after A i y !! i_package_id i) ∧ redo (R, packages_after A i y) i w.
Proof.
  intros HL HR Hu. destruct (late_cases A i R w HR Hu) as [Hw|[Hw|Hw]]; [left; by apply (undo_rep _ A i)|left|by right].
  apply stuck_rep; [done|]. apply stuck_is_at. by exists i.
Qed.

(** Cleaning up leaves the journal alone. *)
Section frame.
Context (I : worldT → Prop).

Lemma triple_frame {A} P (m : M worldT A) Q E : triple P m Q E → preserves I m →
  triple (λ w, P w ∧ I w) m (λ a w, Q a w ∧ I w) (λ e w, E e w ∧ I w).
Proof.
  intros Hm HI w [Hw Hi]. specialize (Hm w Hw). specialize (HI w Hi). unfold post in HI. by destruct (m w) as [[a|e] w'].
Qed.

Lemma preserves_durable l full part : (∀ w, I w → I (tick w)) → (∀ w, I w → I (full w)) → (∀ t w, I w → I (part t w)) → preserves I (durable l full part).
Proof.
  intros Ht Hf Hp w Hw. unfold post, Lifecycle.durable.
  destruct (oracle (w_step w) l) as [|[| |t]|[| |t]]; simpl; auto.
Qed.

Lemma preserves_when b (m : M worldT unit) : preserves I m → preserves I (when b m).
Proof. intros Hm. unfold when. destruct b; [done|apply preserves_ret]. Qed.

Lemma preserves_get {B} (k : worldT → M worldT B) : (∀ w, preserves I (k w)) → preserves I (get_st ≫= k).
Proof. intros Hk w Hw. unfold post. rewrite run_bind_get. by apply Hk. Qed.
End frame.

Lemma cleanup_journal op st i : preserves (λ w, status_of w op = st) (cleanup i).
Proof.
  assert (∀ name, preserves (λ w : worldT, status_of w op = st) (drop_stage oracle name)) as Hs.
  { intros [n|]; [|apply preserves_ret]. apply preserves_get. intros w. apply preserves_when, preserves_durable; [done..|].
    intros t w1 Hw1. by destruct (w_stage w1 !! n) as [[]|]. }
  assert (∀ name, preserves (λ w : worldT, status_of w op = st) (drop_backup oracle name)) as Hb.
  { intros [n|]; [|apply preserves_ret]. apply preserves_get. intros w. apply preserves_when, preserves_durable; [done..|].
    intros t w1 Hw1. by destruct (w_backup w1 !! n) as [[]|]. }
  unfold cleanup_intent. apply preserves_bind_lift. intros stage _. apply preserves_bind; [apply Hs|]. intros _.
  apply preserves_bind_lift. intros backup _. apply preserves_bind; [apply Hb|]. intros _.
  apply preserves_bind_lift. intros path _. by apply preserves_durable.
Qed.

(** *** The whole of an execution *)

(** How the packages may end, once the transaction may be committed: as it means them to, or, late, with evidence that is left. *)
Definition may_end (i : intent) (x y : option (node C)) (A : site) : Prop :=
  (y = x ∨ late_marker) ∧ evidence i (packages_after A i y !! i_package_id i) ∧ migrated i (packages_after A i x !! i_package_id i).

Lemma execute_triple A i x R : intent_ok i → site_ok A i → is_map (i_after i) R → evidence i (packages_after A i x !! i_package_id i) →
  triple (λ w, fresh A i w ∧ x = None ∨ begun A i x w)
    (execute dump_record sha256_hex package_id_ok has_migrations cb oracle clock cleanup i)
    (λ _ w, may_end i x x A ∧ settled (R, packages_after A i x) w ∧ status_of w (i_operation_id i) = Some Journal.SUCCEEDED)
    (λ _ w, rep A w ∨ ∃ y, may_end i x y A ∧ rep (R, packages_after A i y) w).
Proof.
  intros Hi Hs HR Hev. set (A' := (R, packages_after A i x)). set (E := λ w, rep A w ∨ ∃ y, may_end i x y A ∧ rep (R, packages_after A i y) w).
  assert (∀ late j code msg P Q, (∃ q, j = with_phase q i) → (∀ w, P w → undo_as late A i w) → (∀ w, undo_as late A i w → E w) →
    triple P (_ ← rollback_and_fail dump_record sha256_hex package_id_ok oracle clock cleanup j code; lift (rejected (A := unit) msg)) Q (λ _, E)) as Hback.
  { intros late j code msg P Q [q ->] HP HE. apply (triple_bind _ (λ _, settled A)).
    - eapply triple_conseq; [exact (rollback_and_fail_triple (L := late_marker) late A i code)|exact HP|done|]. intros e' w [Hw|Hw]; [by apply HE|by left].
    - intros [] w Hw. left. by left. }
  assert (∀ w, undo A i w → E w) as Hundo by (intros w Hw; left; by apply (undo_rep _ A i)).
  unfold execute. apply (triple_bind _ (λ _, begun A i x)).
  { eapply triple_weaken; [apply persist_triple|done|]. intros e w Hw. by left. }
  intros []. eapply (triple_bind _ (λ _ w, migrated i (packages_after A i x !! i_package_id i) ∧ applied A i A'.2 w)).
  { apply (or_else_triple _ _ _ _ (λ _, undo A i)); [apply apply_intent_triple; [done|done|by exists R]| |].
    - intros e _. apply (Hback false); [|done|exact Hundo]. exists (i_phase i). by rewrite with_same_phase.
    - intros e w _ Hw. by apply Hundo. }
  intros []. apply triple_pre. intros Hmig.
  assert (may_end i x x A) as Hmay by (split; [by left|done]).
  assert (∀ w, redo A' i w → E w) as Hredo by (intros w Hw; right; exists x; split; [done|by apply (redo_rep _ A' i)]).
  apply (triple_bind _ (λ _, redo A' i)).
  { eapply or_else_triple; [by apply commit_step|..].
    - intros e Hc w [Hu|[_ [->|[HL Hu]]]]; [by apply (Hback false (with_phase COMMITTED i) _ _ (undo A i)); [by exists COMMITTED|..]|discriminate Hc|].
      apply (Hback true (with_phase COMMITTED i) _ _ (undo_as true A i)); [by exists COMMITTED|done| |exact Hu]. clear w Hu. intros w Hu.
      destruct (late_rep A i R w HL HR Hu) as [?|(y & Hy & Hw)]; [by left|]. right. exists y. split; [split; [by right|done]|by apply (redo_rep _ _ i)].
    - intros e w _ [Hu|[Hr _]]; [by apply Hundo|by apply Hredo]. }
  intros []. apply (triple_bind _ (λ _ w, redo A' i w ∧ status_of w (i_operation_id i) = Some Journal.SUCCEEDED)).
  { apply (or_else_triple _ _ _ _ (λ _, redo A' i)).
    - apply (triple_bind _ (λ _, redo A' i)); [by apply lift_triple|]. intros []. apply succeed_triple.
    - intros e _ w Hw. by apply Hredo.
    - intros e w _ Hw. by apply Hredo. }
  intros []. eapply triple_weaken; [apply (triple_frame (λ w, status_of w (i_operation_id i) = Some Journal.SUCCEEDED)); [exact (cleanup_redo A' i)|apply cleanup_journal]|by intros [] w Hw|].
  intros e w [Hw _]. right. exists x. split; [done|]. by apply (redoing_rep _ A' i).
Qed.

(** *** Before the intent *)

Definition ready (A : site) (op : string) (w : worldT) : Prop :=
  settled A w ∧ status_of w op = Some Journal.STARTED ∧ Journal.validate_operation_id op = Ok op.

Lemma settled_refuse {B} A op code msg Q : triple (settled A) (refuse (A := B) oracle clock op code msg) Q (λ _, settled A).
Proof.
  unfold refuse. apply (triple_bind _ (λ _, settled A)); [by apply mark_failed_triple|]. intros []. by intros w.
Qed.

Section checks.
Context (A : site) (op : string).
Abbreviation check m Q := (triple (ready A op) m (λ a w, Q a ∧ ready A op w) (λ _, settled A)).

Lemma guard_check (b : bool) code msg :
  check (if b then refuse oracle clock op code msg else mret tt) (λ _, b = false).
Proof. destruct b; [|by intros w]. intros w [Hw _]. by apply (settled_refuse A op code msg). Qed.

Lemma lift_check {B} (r : result B) : check (lift r) (λ b, r = Ok b).
Proof. intros w Hw. destruct r as [b|e]; [done|apply Hw]. Qed.

Lemma if_rejected_check {B} code (r : result B) : check (if_rejected oracle clock op code r) (λ b, r = Ok b).
Proof.
  intros w [Hw Hr]. unfold if_rejected. destruct r as [b|e]; [done|]. destruct (exn_isa _ _); [|done].
  assert (triple (settled A) (mark_failed oracle clock op code) (λ _, settled A) (λ _, settled A)) as Ht by by apply mark_failed_triple.
  specialize (Ht w Hw). rewrite run_bind. by destruct (mark_failed _ _ _ _ w) as [[[]|e'] w'].
Qed.

Lemma bind_check {B D} (m : M worldT B) (k : B → M worldT D) φ Q E :
  check m φ → (∀ b, φ b → triple (ready A op) (k b) Q E) → (∀ (e : exn) w, settled A w → E e w) → triple (ready A op) (m ≫= k) Q E.
Proof.
  intros Hm Hk HE. eapply triple_bind; [eapply triple_weaken; [exact Hm|done|exact HE]|]. intros b w [Hb Hw]. by apply (Hk b).
Qed.

Lemma read_check : check (read_records parse_record dump_record oracle) (λ rs, dict_wf rs ∧ ids_ok rs ∧ is_map rs A.1).
Proof.
  eapply triple_weaken; [apply (read_records_triple (ready A op) A.1 (λ _, settled A))| |done].
  - done.
  - intros w s [(_ & H2) Hst] Hr. by split; [split|].
  - intros w [[? _] _]. done.
  - by intros w e [? _].
  - intros rs w (H1 & H2 & H3 & Hw). done.
Qed.
End checks.

Lemma begin_effect c op action target j x j' :
  Journal.spec_begin c op action target None j = (Ok x, j') →
  (dict_get (Journal.sp_states j') op = Some x ∧ Journal.validate_operation_id op = Ok op) ∧
  (Journal.o_status x = Journal.SUCCEEDED → dict_get (Journal.sp_states j) op = Some x ∧ Journal.o_action x = action ∧ Journal.o_target x = target).
Proof.
  unfold Journal.spec_begin. rewrite run_bind_lift. destruct (Journal.validate_operation_id op) as [op'|] eqn:Ev; [|done].
  assert (op' = op) as -> by (unfold Journal.validate_operation_id in Ev; destruct (fullmatch _ op); [by injection Ev|discriminate Ev]).
  rewrite run_bind_lift. destruct (Journal.validate_name action "action") as [a'|] eqn:Ea; [|done].
  assert (a' = action) as -> by (unfold Journal.validate_name in Ea; destruct (fullmatch _ action); [by injection Ea|discriminate Ea]). rewrite run_bind_lift.
  destruct (Journal.validate_target target) as [t'|] eqn:Et; [|done].
  assert (t' = target) as -> by (unfold Journal.validate_target in Et; destruct (fullmatch _ target); [by injection Et|discriminate Et]).
  rewrite run_bind_lift. destruct (Journal.timestamp_of c None) as [us|]; [|done].
  rewrite run_bind_get. destruct (dict_get (Journal.sp_states j) op) as [cur|] eqn:Ec.
  - rewrite run_bind_lift. unfold Journal.require_same_operation, fail_if. destruct (_ || _) eqn:Es; [done|]. intros [= <- <-]. split; [done|]. intros _.
    apply orb_false_iff in Es as [E1 E2]. apply bool_decide_eq_false, dec_stable in E1. by apply bool_decide_eq_false, dec_stable in E2.
  - unfold Journal.commit. intros [= <- <-]. split; [split; [apply dict_get_set_eq|done]|done].
Qed.

Lemma retry_effect c op j x j' : Journal.spec_retry c op None j = (Ok x, j') →
  Journal.o_status <$> dict_get (Journal.sp_states j') op = Some Journal.STARTED.
Proof.
  unfold Journal.spec_retry. rewrite run_bind_lift. destruct (Journal.validate_operation_id op) as [op'|] eqn:Ev; [|done].
  assert (op' = op) as -> by (unfold Journal.validate_operation_id in Ev; destruct (fullmatch _ op); [by injection Ev|discriminate Ev]).
  rewrite run_bind_lift. destruct (Journal.timestamp_of c None) as [us|]; [|done]. rewrite run_bind_get, run_bind_lift.
  unfold Journal.require_state. destruct (dict_get (Journal.sp_states j) op) as [cur|] eqn:Ec; [|done].
  destruct (Journal.o_status cur) eqn:Es; [|done|].
  - intros [= _ <-]. rewrite Ec. cbn. by rewrite Es.
  - unfold raise_if. rewrite run_bind_lift. destruct (fail_if _ _ _); [|done]. unfold Journal.commit. intros [= _ <-]. cbn. by rewrite dict_get_set_eq.
Qed.

(** The journal says that this very operation succeeded. *)
Definition recorded (op action target : string) (w : worldT) : Prop :=
  ∃ st, dict_get (Journal.sp_states (w_journal w)) op = Some st ∧ Journal.o_status st = Journal.SUCCEEDED ∧
    Journal.o_action st = action ∧ Journal.o_target st = target.

Lemma begin_triple A op action target (w1 : worldT) :
  triple (λ w, w = w1 ∧ settled A w) (begin_operation oracle clock op action target)
    (λ replay w, if (replay : bool) then settled A w ∧ recorded op action target w1 else ready A op w) (λ _, settled A).
Proof.
  unfold begin_operation.
  apply (triple_bind _ (λ st w, settled A w ∧ dict_get (Journal.sp_states (w_journal w)) op = Some st ∧ Journal.validate_operation_id op = Ok op ∧
    (Journal.o_status st = Journal.SUCCEEDED → recorded op action target w1))).
  { apply journal_triple. intros w c [-> Hw]. split; [done|]. intros x j. cbn [Journal.spec_run]. intros [[H1 H2] H3]%begin_effect.
    split; [|done]. split; [done|]. split; [done|]. split; [done|]. intros Hs. destruct (H3 Hs) as (? & ? & ?). by exists x. }
  intros st. destruct (Journal.o_status st) eqn:Es.
  - intros w (Hw & Hd & Hv & _). split; [done|]. split; [|done]. unfold status_of. rewrite Hd. cbn. by rewrite Es.
  - intros w (Hw & _ & _ & Hr). split; [done|]. by apply Hr.
  - apply (triple_bind _ (λ _, ready A op)); [|intros x w Hw; exact Hw].
    apply journal_triple. intros w c (Hw & _ & Hv & _). split; [done|]. intros x j. cbn [Journal.spec_run]. intros Hr%retry_effect. split; [by split|done].
Qed.

(** *** What a call may change *)

Inductive call : Type :=
  | CInstall (op : string) (verified : result (VerifiedPackageArtifact T C))
  | CUpdate (op : string) (verified : result (VerifiedPackageArtifact T C))
  | CEnable (op id : string)
  | CDisable (op id : string)
  | CUninstall (op id : string)
  | CRecover.

(** The directory of an artifact, with its marker. *)
Definition installed (a : VerifiedPackageArtifact T C) : node C :=
  with_marker (artifact_marker (m_id (a_manifest a)) (m_version (a_manifest a)) (a_sha256 a) (a_key_id a)) (Dir (a_tree a)).

Definition put (A : site) (id : string) (r : PackageRecord T) : gmap string (PackageRecord T) := <[id := r]> A.1.

(** A tree that is installed for the record [r], behind a marker that is valid. *)
Definition in_place (A : site) (id : string) (r : PackageRecord T) : Prop :=
  A.1 !! id = Some r ∧ marker_valid (node_marker (A.2 !! id)) id (m_version (pr_manifest r)) = true.

Definition plain_directory (A : site) (id : string) : Prop := ∃ t, A.2 !! id = Some (Dir t).

(** Who signed what is installed signed the update, or the authorizer allows the change. *)
Definition signer_ok (A : site) (id type key : string) : Prop :=
  ∃ signer, marker_signer (node_marker (A.2 !! id)) = Ok signer ∧
    (signer = key ∨ ∃ f, signer_transition_authorizer cb = Some f ∧ f id type signer key = Ok true).

(** The callbacks that are configured answered: about the staged tree, the migrations of the installed one,
    the change of a package, and whoever occupies it. *)
Definition staged_ok (rs : records_map) (a : VerifiedPackageArtifact T C) : Prop :=
  ∀ f, stage_validator cb = Some f → f (Some (installed a)) (a_manifest a) rs = Ok tt.
Definition migrations_ok (m : T) (n : node C) : Prop :=
  has_migrations m = true → ∃ f, migration_applier cb = Some f ∧ f (Some n) m = Ok tt.
Definition state_ok (action : PackageAction) (id : string) (r : PackageRecord T) (rs : records_map) : Prop :=
  ∀ f, state_validator cb = Some f → f action id r rs = Ok tt.
Definition emptied (id : string) : Prop := ∀ f, occupancy_reset cb = Some f → f id = Ok tt.

(** What each call does to the packages, and what it has checked: [rs] is the registry that it read. *)
Inductive change (A : site) : call → string → site → Prop :=
  | change_install op a rs :
      is_map rs A.1 → A.1 !! m_id (a_manifest a) = None → A.2 !! m_id (a_manifest a) = None →
      m_id (a_manifest a) ∉ RESERVED_PACKAGE_IDS →
      check_graph specifier_contains core_version (dict_set rs (m_id (a_manifest a)) (Rec (a_manifest a) INSTALLED)) INSTALLED
        (m_id (a_manifest a)) = Ok tt →
      staged_ok rs a → emptied (m_id (a_manifest a)) → migrations_ok (a_manifest a) (installed a) →
      change A (CInstall op (Ok a)) op
        (put A (m_id (a_manifest a)) (Rec (a_manifest a) INSTALLED), <[m_id (a_manifest a) := installed a]> A.2)
  | change_update op a r rs :
      is_map rs A.1 → in_place A (m_id (a_manifest a)) r → plain_directory A (m_id (a_manifest a)) →
      m_id (a_manifest a) ∉ RESERVED_PACKAGE_IDS →
      m_type (pr_manifest r) = m_type (a_manifest a) →
      version_le (m_version (a_manifest a)) (m_version (pr_manifest r)) = Ok false →
      signer_ok A (m_id (a_manifest a)) (m_type (a_manifest a)) (a_key_id a) →
      check_graph specifier_contains core_version (dict_set rs (m_id (a_manifest a)) (Rec (a_manifest a) (pr_status r))) (pr_status r)
        (m_id (a_manifest a)) = Ok tt →
      staged_ok rs a → migrations_ok (a_manifest a) (installed a) →
      change A (CUpdate op (Ok a)) op
        (put A (m_id (a_manifest a)) (Rec (a_manifest a) (pr_status r)), <[m_id (a_manifest a) := installed a]> A.2)
  | change_enable op id r rs :
      is_map rs A.1 → in_place A id r → state_ok AEnable id r rs →
      require_enabled_dependencies specifier_contains rs id = Ok tt →
      require_enabled_capabilities specifier_contains rs (Some id) None = Ok tt →
      change A (CEnable op id) op (put A id (Rec (pr_manifest r) ENABLED), A.2)
  | change_disable op id r rs :
      is_map rs A.1 → in_place A id r → id ∉ protected given_protected → state_ok ADisable id r rs →
      required_dependents rs id true = [] →
      require_enabled_capabilities specifier_contains rs None (Some id) = Ok tt →
      change A (CDisable op id) op (put A id (Rec (pr_manifest r) DISABLED), A.2)
  | change_uninstall op id r rs :
      is_map rs A.1 → in_place A id r → plain_directory A id → id ∉ protected given_protected → pr_status r ≠ ENABLED →
      state_ok AUninstall id r rs → required_dependents rs id false = [] → emptied id →
      change A (CUninstall op id) op (delete id A.1, delete id A.2).

(** The packages that a late commit marker may leave: the registry of the change, and a tree of which a roll back
    may have removed some, but not the marker. *)
Definition torn (A : site) (c : call) (op : string) (A'' : site) : Prop :=
  late_marker ∧ ∃ a A' t, (c = CInstall op (Ok a) ∨ c = CUpdate op (Ok a)) ∧ change A c op A' ∧
    marker_matches (t_marker t) (m_id (a_manifest a)) (m_version (a_manifest a)) (a_sha256 a) (a_key_id a) = true ∧
    A'' = (A'.1, <[m_id (a_manifest a) := Dir t]> A'.2).

Abbreviation self := (transactional parse_record dump_record sha256_hex package_id_ok has_migrations cb oracle clock).

Definition run_call (c : call) : M worldT (option PackageLifecycleResult) :=
  match c with
  | CInstall op v => r ← install specifier_contains core_version parse_record dump_record sha256_hex package_id_ok m_type version_le cb oracle clock self op v; mret (Some r)
  | CUpdate op v => r ← update specifier_contains core_version parse_record dump_record sha256_hex package_id_ok m_type version_le cb oracle clock self op v; mret (Some r)
  | CEnable op id => r ← enable specifier_contains parse_record dump_record sha256_hex package_id_ok given_protected cb oracle clock self op id; mret (Some r)
  | CDisable op id => r ← disable specifier_contains parse_record dump_record sha256_hex package_id_ok given_protected cb oracle clock self op id; mret (Some r)
  | CUninstall op id => r ← uninstall parse_record dump_record sha256_hex package_id_ok given_protected cb oracle clock self op id; mret (Some r)
  | CRecover => _ ← recover self; mret None
  end.

(** *** Staging *)

Lemma failed_with_rollback_triple A i code msg P m Q :
  triple P m (λ _, Q) (λ _, undo A i) →
  triple P (failed_with_rollback dump_record sha256_hex package_id_ok oracle clock self i code msg m) (λ _, Q) (λ _, rep A).
Proof.
  intros Hm. unfold failed_with_rollback. apply (or_else_triple _ _ _ _ (λ _, undo A i)); [exact Hm| |intros e w _; apply (undo_rep _ A i)].
  intros e _. apply (triple_bind _ (λ _, settled A)); [|intros [] w Hw; by left].
  eapply triple_weaken; [exact (rollback_and_fail_triple (L := late_marker) false A i code)|done|]. intros e' w [Hw|Hw]; [by apply (undo_rep _ A i)|done].
Qed.

Lemma undo_stage A i w f : undo A i w → only f (i_stage_name i) → undo A i (set_stage f (tick w)).
Proof. intros (H1 & H2 & H3 & _ & H5) Hf. parts. Qed.

Lemma begun_stage A i x y s w f : begun A i x w → i_stage_name i = Some s → only f (Some s) → f !! s = y → begun A i y (set_stage f (tick w)).
Proof.
  intros (Hu & Hr & Hrd & Hst & _) Hs Hf Hy. split; [apply undo_stage; [done|by rewrite Hs]|]. parts. intros _. by exists s.
Qed.

Lemma stage_artifact_triple A i a before : intent_ok i → stages (i_action i) = true →
  triple (begun A i None) (stage_artifact sha256_hex package_id_ok cb oracle i a before)
    (λ _ w, staged_ok before a ∧ begun A i (Some (installed a)) w) (λ _, undo A i).
Proof.
  intros Hi Ha w0 Hw0. pose proof (stage_run i Hi) as Hsr. pose proof (io_stage i Hi) as Hsn. rewrite Ha in Hsn. set (s := prefix_of i +:+ ".stage") in *.
  rewrite Hsn in Hsr. unfold optional_path in Hsr. unfold s in Hsr at 1. rewrite nonempty_app in Hsr. unfold stage_artifact. rewrite run_bind_lift.
  destruct (stage_path sha256_hex package_id_ok i) as [s'|]; [|discriminate]. cbn in Hsr. injection Hsr as ->. revert w0 Hw0.
  apply (triple_bind _ (λ _, begun A i (Some (Dir (a_tree a))))).
  { intros w Hw. pose proof Hw as (Hu & _ & _ & _ & Hx). destruct (Hx Ha) as (s2 & Hs2 & Hnone). rewrite Hsn in Hs2. injection Hs2 as <-.
    unfold extract. rewrite Hnone. pose proof Hu as (_ & _ & _ & Hon & _). rewrite Hsn in Hon.
    assert (∀ x, only (<[s := x]> (w_stage w)) (Some s)) as Honly by (intros x k Hk; rewrite lookup_insert_ne by congruence; by apply Hon).
    assert (∀ t, begun A i (Some (Dir t)) (set_stage (<[s := Dir t]> (w_stage (tick w))) (tick w))) as Hset.
    { intros t. eapply begun_stage; [exact Hw|exact Hsn|apply Honly|apply lookup_insert_eq]. }
    assert (triple (λ w1, w1 = w) (durable LExtract (λ w, set_stage (<[s := Dir (a_tree a)]> (w_stage w)) w) (λ t w, set_stage (<[s := Dir t]> (w_stage w)) w))
      (λ _, begun A i (Some (Dir (a_tree a)))) (λ _, undo A i)) as Ht; [|by apply Ht].
    apply durable_triple. intros w1 ->. split; [apply Hset|]. intros e. split; [exact Hu|]. split; [apply (Hset (a_tree a))|]. intros t. apply (Hset t). }
  intros []. apply (triple_bind _ (λ _, begun A i (Some (installed a)))).
  { unfold write_artifact_marker. apply atomic_triple. intros w Hw. pose proof Hw as (Hu & _ & _ & _ & Hx). destruct (Hx Ha) as (s2 & Hs2 & Hsome).
    rewrite Hsn in Hs2. injection Hs2 as <-. pose proof Hu as (_ & _ & _ & Hon & _). rewrite Hsn in Hon. set (mk := artifact_marker _ _ _ _).
    assert (begun A i (Some (installed a)) (set_stage (alter (with_marker mk) s (w_stage (tick w))) (tick w))) as Hset.
    { eapply begun_stage; [exact Hw|exact Hsn| |].
      - intros k Hk. rewrite lookup_alter_ne by congruence. by apply Hon.
      - cbn [tick w_stage]. rewrite lookup_alter_eq, Hsome. done. }
    split; [exact Hset|]. intros e. split; [exact Hu|apply Hset]. }
  intros []. unfold staged_ok. destruct (stage_validator cb) as [f|]; [|by intros w]. intros w Hw. rewrite run_bind_get.
  pose proof Hw as (_ & _ & _ & _ & Hx). destruct (Hx Ha) as (s2 & Hs2 & Hsome). rewrite Hsn in Hs2. injection Hs2 as <-. rewrite Hsome. unfold lift.
  destruct (f _ _ _) as [[]|e] eqn:Ef; [|apply Hw]. split; [|done]. by intros f' [= <-].
Qed.

(** A new intent is well formed. *)
Lemma new_intent_ok op action id before after sha key :
  validate_operation_id op = Ok op → Journal.validate_operation_id op = Ok op → package_id_ok id = true →
  dict_wf before ∧ ids_ok before → dict_wf after ∧ ids_ok after →
  intent_ok (new_intent sha256_hex op action id before after sha key (stages action) (replaces action)).
Proof. intros. by split. Qed.

Lemma valid_op op op' : validate_operation_id op = Ok op' → op' = op.
Proof. unfold validate_operation_id. destruct (fullmatch _ op); [by intros [= ->]|done]. Qed.

Lemma valid_id id id' : validate_package_id package_id_ok id = Ok id' → id' = id ∧ package_id_ok id = true.
Proof. unfold validate_package_id. destruct (package_id_ok id) eqn:E; [by intros [= ->]|done]. Qed.

Lemma ids_set before id m st : ids_ok before → m_id m = id → ids_ok (dict_set before id (Rec m st)).
Proof. intros Hb Hm k r. rewrite dict_get_set. destruct (decide (id = k)) as [<-|]; [by intros [= <-]|apply Hb]. Qed.

Lemma is_map_set rs A id r : is_map rs A.1 → is_map (dict_set rs id r) (put A id r).
Proof.
  intros Hm k. unfold put. rewrite dict_get_set. destruct (decide (id = k)) as [<-|]; [by rewrite lookup_insert_eq|by rewrite lookup_insert_ne].
Qed.

Lemma is_map_del rs (A : site) id : dict_wf rs → is_map rs A.1 → is_map (dict_del rs id) (delete id A.1).
Proof.
  intros Hwf Hm k. rewrite dict_get_del by done. destruct (decide (id = k)) as [<-|]; [by rewrite lookup_delete_eq|by rewrite lookup_delete_ne].
Qed.

Lemma ids_del before id : dict_wf before → ids_ok (T := T) before → ids_ok (dict_del before id).
Proof. intros Hwf Hb k r. rewrite dict_get_del by done. destruct (decide (id = k)); [done|apply Hb]. Qed.

(** The marker that was written is the one that is looked for. *)
Lemma marker_written id version sha key : marker_matches (Some (artifact_marker id version sha key)) id version sha key = true.
Proof. 
  assert (∀ t, is_text (Some (JStr t)) t = true) as Ht by (intros t; apply String.eqb_refl).
  change (is_text (Some (JStr id)) id && is_text (Some (JStr version)) version && is_text (Some (JStr sha)) sha && is_text (Some (JStr key)) key = true).
  by rewrite !Ht.
Qed.

(** *** Calls *)

(** The result that a call gives for the packages [A]. *)
Definition report (A : site) (op : string) (action : PackageAction) (id : string) (replay : bool) : PackageLifecycleResult :=
  LifecycleResult op action id ((λ r, m_version (pr_manifest r)) <$> A.1 !! id) (pr_status <$> A.1 !! id) replay.

(** What a call asks for: its action, its package, the target in the journal. *)
Definition request_of (c : call) : option (PackageAction * string * string) :=
  match c with
  | CInstall _ (Ok a) => Some (AInstall, m_id (a_manifest a), "package/" +:+ m_id (a_manifest a) +:+ "/" +:+ a_sha256 a)
  | CUpdate _ (Ok a) => Some (AUpdate, m_id (a_manifest a), "package/" +:+ m_id (a_manifest a) +:+ "/" +:+ a_sha256 a)
  | CEnable _ id => Some (AEnable, id, "package/" +:+ id)
  | CDisable _ id => Some (ADisable, id, "package/" +:+ id)
  | CUninstall _ id => Some (AUninstall, id, "package/" +:+ id)
  | _ => None
  end.

(** What the call does is done already. *)
Definition in_effect (A : site) (c : call) : Prop :=
  match c with
  | CInstall _ (Ok a) | CUpdate _ (Ok a) =>
      ∃ r, A.1 !! m_id (a_manifest a) = Some r ∧ m_version (pr_manifest r) = m_version (a_manifest a) ∧
        marker_matches (node_marker (A.2 !! m_id (a_manifest a))) (m_id (a_manifest a)) (m_version (a_manifest a)) (a_sha256 a) (a_key_id a) = true
  | CEnable _ id => ∃ r, in_place A id r ∧ pr_status r = ENABLED
  | CDisable _ id => ∃ r, in_place A id r ∧ pr_status r = DISABLED
  | CUninstall _ id => A.1 !! id = None
  | _ => False
  end.

(** Once [w0] is recovered, its journal says that the call has succeeded before. *)
Definition had_succeeded (op action target : string) (w0 : worldT) : Prop :=
  ∃ ids w1, recover self w0 = (Ok ids, w1) ∧ recorded op action target w1.

(** What an answer means, and what an exception leaves. *)
Definition changed (A : site) (c : call) (op : string) (r : PackageLifecycleResult) (w : worldT) : Prop :=
  ∃ A', change A c op A' ∧ settled A' w ∧ status_of w op = Some Journal.SUCCEEDED ∧
    ∃ action id target, request_of c = Some (action, id, target) ∧ r = report A' op action id false.
Definition replayed (A : site) (c : call) (op : string) (w0 : worldT) (r : PackageLifecycleResult) (w : worldT) : Prop :=
  ∃ action id target, request_of c = Some (action, id, target) ∧ r = report A op action id true ∧ settled A w ∧ in_effect A c ∧
    had_succeeded op ("package." +:+ action_value action) target w0.
Definition answered (A : site) (c : call) (op : string) (w0 : worldT) (r : PackageLifecycleResult) (w : worldT) : Prop :=
  changed A c op r w ∨ replayed A c op w0 r w.
Definition took (A : site) (c : call) (op : string) (A' : site) : Prop := change A c op A' ∨ torn A c op A'.
Definition left_over (A : site) (c : call) (op : string) (w : worldT) : Prop := rep A w ∨ ∃ A', took A c op A' ∧ rep A' w.

Lemma settled_left A c op w : settled A w → left_over A c op w.
Proof. intros Hw. left. by left. Qed.

Lemma read_settled A :
  triple (settled A) (read_records parse_record dump_record oracle) (λ rs w, (is_map rs A.1 ∧ ids_ok rs) ∧ settled A w) (λ _, settled A).
Proof.
  eapply triple_weaken; [apply (read_records_triple (settled A) A.1 (λ _, settled A))| |done].
  - done.
  - intros w s [_ Hst] Hr. by split.
  - by intros w [? _].
  - done.
  - intros rs w (_ & H1 & H2 & H3). parts.
Qed.

Lemma read_report A rs id r op action replay : is_map rs A.1 ∧ ids_ok rs → dict_get rs id = Some r → lifecycle_result op action r replay = report A op action id replay.
Proof. intros [Hm Hids] Hr. unfold lifecycle_result, report. rewrite <-(Hm id), Hr. by rewrite <-(Hids id r Hr). Qed.

Lemma replay_artifact_triple A op action a :
  triple (settled A) (replay_artifact parse_record dump_record package_id_ok oracle op action a)
    (λ r w, r = report A op action (m_id (a_manifest a)) true ∧ in_effect A (CInstall op (Ok a)) ∧ settled A w) (λ _, settled A).
Proof.
  unfold replay_artifact. eapply triple_bind; [apply read_settled|]. intros rs w [Hrs Hw].
  destruct (dict_get rs _) as [r|] eqn:Er; [|exact Hw]. destruct (negb _) eqn:Ev; [exact Hw|]. apply negb_false_iff, String.eqb_eq in Ev. rewrite run_bind_lift.
  destruct (package_path _ _) as [n|] eqn:En; [|exact Hw]. destruct (valid_id _ _ En) as [-> _]. rewrite run_bind_get.
  destruct (marker_matches _ _ _ _ _) eqn:Em; [|exact Hw]. pose proof Hw as (_ & Hp & _). rewrite Hp in Em.
  split; [by eapply read_report|]. split; [|done]. exists r. split; [|done]. rewrite <-Er. symmetry. apply Hrs.
Qed.

Lemma check_update_triple A op (a : VerifiedPackageArtifact T C) before : is_map before A.1 →
  triple (ready A op) (check_update package_id_ok m_type version_le cb oracle clock op a (dict_get before (m_id (a_manifest a))))
    (λ _ w, (∃ r, in_place A (m_id (a_manifest a)) r ∧ m_type (pr_manifest r) = m_type (a_manifest a) ∧
        version_le (m_version (a_manifest a)) (m_version (pr_manifest r)) = Ok false ∧
        signer_ok A (m_id (a_manifest a)) (m_type (a_manifest a)) (a_key_id a)) ∧ ready A op w) (λ _, settled A).
Proof.
  intros Hm. unfold check_update, in_place. rewrite (Hm (m_id (a_manifest a))). destruct (A.1 !! m_id (a_manifest a)) as [r|]; [|by intros w [Hw _]; apply (settled_refuse A)].
  eapply bind_check; [apply guard_check| |done]. intros [] Ht. apply negb_false_iff, String.eqb_eq in Ht.
  eapply bind_check; [apply lift_check| |done]. intros old Hold.
  eapply bind_check; [apply (guard_check A op old)| |done]. intros [] ->.
  eapply bind_check; [apply lift_check| |done]. intros n Hn. destruct (valid_id _ _ Hn) as [-> _].
  apply (bind_check A op _ _ (λ mk, mk = node_marker (A.2 !! m_id (a_manifest a)))); [| |done].
  { intros w Hw. split; [|exact Hw]. destruct Hw as [(_ & Hp & _) _]. cbn. by rewrite Hp. }
  intros mk ->. eapply bind_check; [apply guard_check| |done]. intros [] Hmk%negb_false_iff.
  eapply bind_check; [apply lift_check| |done]. intros signer Hsig.
  eapply bind_check; [apply lift_check| |done]. intros [] Hal; [|by intros w [Hw _]; apply (settled_refuse A)].
  intros w Hw. split; [|done]. exists r. split; [done|]. split; [done|]. split; [done|]. exists signer. split; [done|].
  destruct (String.eqb signer (a_key_id a)) eqn:Ek; [left; by apply String.eqb_eq|right].
  destruct (signer_transition_authorizer cb) as [f|]; [by exists f|discriminate].
Qed.

Lemma ready_get A op {B} (k : worldT → M worldT B) Q E : (∀ w, settled A w → triple (ready A op) (k w) Q E) → triple (ready A op) (get_st ≫= k) Q E.
Proof. intros Hk w Hw. rewrite run_bind_get. apply (Hk w (proj1 Hw) w Hw). Qed.

Lemma directory_at A (w : worldT) n : w_packages w = A.2 → negb (node_is_dir (w_packages w !! n)) || is_link_at n w = false → plain_directory A n.
Proof.
  intros Hp Hn. apply orb_false_iff in Hn as [Hd Hl]. unfold is_link_at in Hl. rewrite Hp in Hd, Hl. unfold plain_directory.
  destruct (A.2 !! n) as [[t|t|]|]; try done. by exists t.
Qed.

Lemma check_destination_triple A op action n :
  triple (ready A op) (check_destination oracle clock op action n)
    (λ _ w, (if bool_decide (action = AInstall) then A.2 !! n = None else plain_directory A n) ∧ ready A op w) (λ _, settled A).
Proof.
  unfold check_destination. apply ready_get. intros w0 (_ & Hp & _). destruct (bool_decide (action = AInstall)).
  - eapply triple_weaken; [apply guard_check| |done]. intros [] w [Hn Hw]. split; [|done]. apply bool_decide_eq_false, eq_None_not_Some in Hn. by rewrite <-Hp.
  - eapply triple_weaken; [apply guard_check| |done]. intros [] w [Hn Hw]. split; [|done]. by apply (directory_at A w0).
Qed.

Lemma fresh_ready A i w : ready A (i_operation_id i) w → intent_ok i → i_phase i = PREPARED → is_map (i_before i) A.1 → site_ok A i → fresh A i w.
Proof. intros (Hw & Hs & _) Hi Hp Hm Hs'. by split. Qed.

(** From the intent of an artifact on. *)
Lemma staged_execution A c i a (before : records_map) R (r : PackageLifecycleResult) (Q : PackageLifecycleResult → worldT → Prop) :
  intent_ok i → i_phase i = PREPARED → is_map (i_before i) A.1 → site_ok A i → stages (i_action i) = true →
  is_map (i_after i) R → evidence i (packages_after A i (Some (installed a)) !! i_package_id i) →
  (staged_ok before a → (i_action i = AInstall → emptied (i_package_id i)) → ∀ y, may_end i (Some (installed a)) y A →
     took A c (i_operation_id i) (R, packages_after A i y)) →
  (staged_ok before a → (i_action i = AInstall → emptied (i_package_id i)) → ∀ w, may_end i (Some (installed a)) (Some (installed a)) A →
     settled (R, packages_after A i (Some (installed a))) w → status_of w (i_operation_id i) = Some Journal.SUCCEEDED → Q r w) →
  triple (ready A (i_operation_id i))
    (_ ← or_else (write_intent sha256_hex oracle i)
           (refuse oracle clock (i_operation_id i) "package.intent_write_failed" "package transaction intent could not be persisted");
     _ ← failed_with_rollback dump_record sha256_hex package_id_ok oracle clock self i "package.artifact_stage_failed"
           "package artifact staging failed and was rolled back" (stage_artifact sha256_hex package_id_ok cb oracle i a before);
     _ ← failed_with_rollback dump_record sha256_hex package_id_ok oracle clock self i "package.after_stage_failed"
           "package staging failed and was rolled back" (inject cb "after_stage");
     _ ← (if bool_decide (i_action i = AInstall)
          then failed_with_rollback dump_record sha256_hex package_id_ok oracle clock self i "package.occupancy_reset_failed"
                 "package occupancy reset failed and was rolled back"
                 (lift (match occupancy_reset cb with Some f => f (i_package_id i) | None => Ok tt end))
          else mret tt);
     _ ← v_execute self i; mret r)
    Q (λ _, left_over A c (i_operation_id i)).
Proof.
  intros Hi Hph Hm Hs Hst HR Hev Hch HQ. set (x := Some (installed a)) in *.
  assert (∀ (P : worldT → Prop) (m : M worldT unit) Q', triple P m Q' (λ _, rep A) → triple P m Q' (λ _, left_over A c (i_operation_id i))) as Hrep.
  { intros P m Q' Hm'. eapply triple_weaken; [exact Hm'|done|by left]. }
  apply (triple_bind _ (λ _, begun A i None)).
  { apply Hrep, (or_else_triple _ _ _ _ (λ _ w, fresh A i w ∨ begun A i None w)).
    - eapply triple_strengthen; [apply write_fresh_triple|]. intros w Hw. by apply fresh_ready.
    - intros e _. eapply triple_strengthen; [apply (refuse_triple A i)|]. intros w1 [[? _]|[? _]]; [by left|by right].
    - intros e w1 _ [[? _]|[? _]]; [by left|by apply (undo_rep _ A i)]. }
  intros []. eapply (triple_bind _ (λ _ w, staged_ok before a ∧ begun A i x w)); [by apply Hrep, failed_with_rollback_triple, stage_artifact_triple|]. intros [].
  apply triple_pre. intros Hstaged.
  assert (∀ r, triple (begun A i x) (lift r) (λ _, begun A i x) (λ _, undo A i)) as Hl by (intros r0; apply lift_triple; intros w e Hw; apply Hw).
  apply (triple_bind _ (λ _, begun A i x)); [apply Hrep, failed_with_rollback_triple, Hl|]. intros [].
  apply (triple_bind _ (λ _ w, (i_action i = AInstall → emptied (i_package_id i)) ∧ begun A i x w)).
  { destruct (bool_decide (i_action i = AInstall)) eqn:Ea; [|intros w Hw; split; [|exact Hw]; by apply bool_decide_eq_false in Ea].
    apply Hrep, failed_with_rollback_triple. unfold emptied. intros w Hw. unfold lift. destruct (occupancy_reset cb) as [f|]; [|done].
    destruct (f (i_package_id i)) as [[]|e] eqn:Ef; [|apply Hw]. split; [|exact Hw]. by intros _ f' [= <-]. }
  intros []. apply triple_pre. intros Hempty. eapply triple_bind.
  { eapply triple_conseq; [apply (execute_triple A i x R Hi Hs HR Hev)|by right|done|].
    intros e w [Hw|(y & Hy & Hw)]; [by left|]. right. exists (R, packages_after A i y). split; [by apply Hch|done]. }
  intros [] w (Hy & Hw & Hd). by apply HQ.
Qed.

Lemma settled_bind {B D} A c op (m : M worldT B) (k : B → M worldT D) (φ : B → Prop) Q :
  triple (settled A) m (λ b w, φ b ∧ settled A w) (λ _, settled A) →
  (∀ b, φ b → triple (settled A) (k b) Q (λ _, left_over A c op)) → triple (settled A) (m ≫= k) Q (λ _, left_over A c op).
Proof.
  intros Hm Hk. eapply triple_bind; [eapply triple_weaken; [exact Hm|done|]|].
  - intros e w. apply settled_left.
  - intros b w [Hb Hw]. by apply (Hk b).
Qed.

(** What every call begins with: recovery, then the journal. *)
Lemma call_begin A c op action target (w0 : worldT) {D} (k : bool → M worldT D) Q :
  triple (λ w, had_succeeded op action target w0 ∧ settled A w) (k true) Q (λ _, left_over A c op) →
  triple (ready A op) (k false) Q (λ _, left_over A c op) →
  triple (λ w, w = w0 ∧ rep A w) (_ ← v_recover_locked self; replay ← begin_operation oracle clock op action target; k replay) Q (λ _, left_over A c op).
Proof.
  intros Htrue Hfalse. apply (triple_bind _ (λ _ w, settled A w ∧ ∃ ids, recover self w0 = (Ok ids, w))).
  { intros w [-> Hw]. pose proof (recover_locked_triple (L := late_marker) A w0 Hw) as Hr. unfold recover.
    change (v_recover_locked self) with (recover_locked parse_record dump_record sha256_hex package_id_ok oracle clock cleanup).
    destruct (recover_locked _ _ _ _ _ _ _ w0) as [[ids|e] w']; [split; [done|by exists ids]|by left]. }
  intros _ w [Hw [ids Hids]].
  assert (triple (λ w1, w1 = w ∧ settled A w1) (replay ← begin_operation oracle clock op action target; k replay) Q (λ _, left_over A c op)) as Ht; [|by apply Ht].
  eapply triple_bind.
  { eapply triple_weaken; [apply (begin_triple A op action target w)|done|]. intros e w1. apply settled_left. }
  intros [|]; [|exact Hfalse]. eapply triple_strengthen; [exact Htrue|]. intros w1 [Hw1 Hrec]. split; [by exists ids, w|done].
Qed.

(** The record that is replaced, for either action. *)
Definition existing_ok (A : site) (action : PackageAction) (a : VerifiedPackageArtifact T C) (existing : option (PackageRecord T)) : Prop :=
  match existing with
  | None => action = AInstall
  | Some r => action = AUpdate ∧ in_place A (m_id (a_manifest a)) r ∧ m_type (pr_manifest r) = m_type (a_manifest a) ∧
              version_le (m_version (a_manifest a)) (m_version (pr_manifest r)) = Ok false ∧
              signer_ok A (m_id (a_manifest a)) (m_type (a_manifest a)) (a_key_id a)
  end.

Lemma check_existing A op action a before : is_map before A.1 → (action = AInstall ∨ action = AUpdate) →
  triple (ready A op)
    (if bool_decide (action = AInstall)
     then if bool_decide (is_Some (dict_get before (m_id (a_manifest a))))
          then refuse oracle clock op "package.already_installed" "package is already installed" else mret tt
     else check_update package_id_ok m_type version_le cb oracle clock op a (dict_get before (m_id (a_manifest a))))
    (λ _ w, existing_ok A action a (A.1 !! m_id (a_manifest a)) ∧ ready A op w) (λ _, settled A).
Proof.
  intros Hm [->| ->].
  - eapply triple_weaken; [apply guard_check| |done]. intros [] w [Hn Hw]. split; [|done]. apply bool_decide_eq_false, eq_None_not_Some in Hn.
    rewrite <-Hm, Hn. done.
  - eapply triple_weaken; [by apply check_update_triple| |done]. intros [] w [(r & Hr & Hrest) Hw]. split; [|done]. pose proof Hr as [Hg _]. by rewrite Hg.
Qed.

Definition call_of (action : PackageAction) (op : string) (v : result (VerifiedPackageArtifact T C)) : call :=
  if bool_decide (action = AInstall) then CInstall op v else CUpdate op v.

Definition artifact_intent (op : string) (action : PackageAction) (a : VerifiedPackageArtifact T C) (before : records_map) (r : PackageRecord T) : intent :=
  new_intent sha256_hex op action (m_id (a_manifest a)) before (dict_set before (m_id (a_manifest a)) r) (Some (a_sha256 a)) (Some (a_key_id a))
    true (bool_decide (action = AUpdate)).

Lemma artifact_migrated A op action a before r (i := artifact_intent op action a before r) : (action = AInstall ∨ action = AUpdate) → pr_manifest r = a_manifest a →
  migrated i (packages_after A i (Some (installed a)) !! i_package_id i) → migrations_ok (a_manifest a) (installed a).
Proof.
  intros Hact Hr Hmig Hm. destruct (Hmig r) as (f & Hf & Hok); [apply dict_get_set_eq|destruct Hact as [-> | ->]; set_solver|by rewrite Hr|].
  exists f. split; [done|]. rewrite <-Hok, Hr. f_equal. destruct Hact as [-> | ->]; symmetry; apply lookup_insert_eq.
Qed.

(** Where the transaction of an artifact ends. *)
Lemma artifact_took A op action a before r (i := artifact_intent op action a before r) : (action = AInstall ∨ action = AUpdate) → pr_manifest r = a_manifest a →
  (migrations_ok (a_manifest a) (installed a) →
     change A (call_of action op (Ok a)) op (put A (m_id (a_manifest a)) r, <[m_id (a_manifest a) := installed a]> A.2)) →
  ∀ y, may_end i (Some (installed a)) y A → took A (call_of action op (Ok a)) op (put A (m_id (a_manifest a)) r, packages_after A i y).
Proof.
  intros Hact Hr Hch y (Hy & Hev & Hmig).
  assert (change A (call_of action op (Ok a)) op (put A (m_id (a_manifest a)) r, <[m_id (a_manifest a) := installed a]> A.2)) as Hc.
  { apply Hch. by eapply artifact_migrated. }
  destruct Hy as [->|HL]; [left; by destruct Hact as [-> | ->]|right]. split; [done|].
  assert (∃ t, y = Some (Dir t) ∧ marker_matches (t_marker t) (m_id (a_manifest a)) (m_version (a_manifest a)) (a_sha256 a) (a_key_id a) = true) as (t & -> & Ht).
  { assert (∃ t r' sha key, packages_after A i y !! m_id (a_manifest a) = Some (Dir t) ∧ dict_get (i_after i) (m_id (a_manifest a)) = Some r' ∧
      i_artifact_sha256 i = Some sha ∧ i_signature_key_id i = Some key ∧
      marker_matches (t_marker t) (m_id (a_manifest a)) (m_version (pr_manifest r')) sha key = true) as (t & r' & sha & key & Hn & Hg & [= <-] & [= <-] & Ht)
      by (destruct Hact as [-> | ->]; exact Hev).
    cbn in Hg. rewrite dict_get_set_eq in Hg. injection Hg as <-. rewrite Hr in Ht. exists t. split; [|done]. rewrite <-Hn.
    destruct Hact as [-> | ->]; symmetry; apply lookup_partial_alter_eq. }
  exists a, (put A (m_id (a_manifest a)) r, <[m_id (a_manifest a) := installed a]> A.2), t. split; [by destruct Hact as [-> | ->]; [left|right]|].
  split; [done|]. split; [done|]. cbn. rewrite insert_insert_eq. by destruct Hact as [-> | ->].
Qed.

(** Every check of the artifact has passed. *)
Lemma artifact_change A op action a before st : (action = AInstall ∨ action = AUpdate) → is_map before A.1 →
  m_id (a_manifest a) ∉ RESERVED_PACKAGE_IDS → existing_ok A action a (A.1 !! m_id (a_manifest a)) →
  st = match A.1 !! m_id (a_manifest a) with Some r => pr_status r | None => INSTALLED end →
  check_graph specifier_contains core_version (dict_set before (m_id (a_manifest a)) (Rec (a_manifest a) st)) st (m_id (a_manifest a)) = Ok tt →
  (if bool_decide (action = AInstall) then A.2 !! m_id (a_manifest a) = None else plain_directory A (m_id (a_manifest a))) →
  staged_ok before a → (action = AInstall → emptied (m_id (a_manifest a))) → migrations_ok (a_manifest a) (installed a) →
  change A (call_of action op (Ok a)) op (put A (m_id (a_manifest a)) (Rec (a_manifest a) st), <[m_id (a_manifest a) := installed a]> A.2).
Proof.
  intros Hact Hm Hres Hex -> Hg Hd Hst He Hmig. unfold existing_ok in Hex. destruct (A.1 !! m_id (a_manifest a)) as [r0|] eqn:Er.
  - destruct Hex as (-> & Hin & Ht & Hv & Hs). by apply change_update with before.
  - subst action. apply change_install with before; auto.
Qed.

Lemma install_or_update_triple A op action v (w0 : worldT) : (action = AInstall ∨ action = AUpdate) →
  triple (λ w, w = w0 ∧ rep A w)
    (install_or_update specifier_contains core_version parse_record dump_record sha256_hex package_id_ok m_type version_le cb oracle clock self op action v)
    (answered A (call_of action op v) op w0) (λ _, left_over A (call_of action op v) op).
Proof.
  intros Hact w Hw. unfold install_or_update. rewrite run_bind_lift. destruct v as [a|e]; [|left; apply Hw]. rewrite run_bind_lift.
  destruct (validate_operation_id op) as [op'|] eqn:Hop; [|left; apply Hw]. pose proof (valid_op _ _ Hop) as ->. revert w Hw.
  set (c := call_of action op (Ok a)).
  assert (request_of c = Some (action, m_id (a_manifest a), "package/" +:+ m_id (a_manifest a) +:+ "/" +:+ a_sha256 a)) as Hreq by by destruct Hact as [-> | ->].
  assert (∀ (e : exn) w, settled A w → left_over A c op w) as Hleft by (intros e w; apply settled_left). apply call_begin.
  { apply triple_pre. intros Hhad. eapply triple_conseq; [apply (replay_artifact_triple A)|done| |exact Hleft].
    intros r w (Hr & He & Hw). right. do 3 eexists. split; [exact Hreq|]. split; [exact Hr|]. split; [done|]. split; [by destruct Hact as [-> | ->]|exact Hhad]. }
  eapply bind_check; [apply read_check| |exact Hleft]. intros before (Hwf & Hids & Hm).
  eapply bind_check; [apply guard_check| |exact Hleft]. intros [] Hres%bool_decide_eq_false.
  eapply bind_check; [by apply check_existing| |exact Hleft]. intros [] Hex.
  set (st := match dict_get before (m_id (a_manifest a)) with Some r => pr_status r | None => INSTALLED end). set (r := Rec (a_manifest a) st).
  eapply bind_check; [apply if_rejected_check| |exact Hleft]. intros [] Hgraph.
  eapply bind_check; [apply lift_check| |exact Hleft]. intros n Hn. destruct (valid_id _ _ Hn) as [-> Hidok].
  eapply bind_check; [apply check_destination_triple| |exact Hleft]. intros [] Hdest.
  intros w Hw. pose proof Hw as (_ & _ & Hjop). revert w Hw. set (i := artifact_intent op action a before r).
  assert (intent_ok i) as Hi.
  { assert (dict_wf (dict_set before (m_id (a_manifest a)) r) ∧ ids_ok (dict_set before (m_id (a_manifest a)) r)) by (split; [by apply dict_wf_set|by apply ids_set]).
    destruct Hact as [-> | ->]; by apply new_intent_ok. }
  assert (site_ok A i) as Hs.
  { destruct Hact as [-> | ->]; [split; [exact Hdest|]; cbn; rewrite Hm|destruct Hdest as [t Hd]; by exists (Dir t)]. unfold existing_ok in Hex.
    by destruct (A.1 !! m_id (a_manifest a)) as [r0|]; [destruct Hex|]. }
  assert (is_map (i_after i) (put A (m_id (a_manifest a)) r)) as HR by by apply is_map_set.
  assert (packages_after A i (Some (installed a)) = <[m_id (a_manifest a) := installed a]> A.2) as Hpa by (by destruct Hact as [-> | ->]).
  assert (evidence i (packages_after A i (Some (installed a)) !! i_package_id i)) as Hev.
  { rewrite Hpa. destruct Hact as [-> | ->]; exists (Tree (Some (artifact_marker (m_id (a_manifest a)) (m_version (a_manifest a)) (a_sha256 a) (a_key_id a))) (t_content (a_tree a))), r, (a_sha256 a), (a_key_id a);
      (split; [apply lookup_insert_eq|]; split; [cbn; apply dict_get_set_eq|]; split; [done|]; split; [done|apply marker_written]). }
  assert (staged_ok before a → (action = AInstall → emptied (m_id (a_manifest a))) → migrations_ok (a_manifest a) (installed a) →
    change A c op (put A (m_id (a_manifest a)) r, <[m_id (a_manifest a) := installed a]> A.2)) as Hch.
  { intros Hst He Hmig. apply (artifact_change A op action a before st); try done. unfold st. by rewrite Hm. }
  apply (staged_execution A c i a before (put A (m_id (a_manifest a)) r) _ (answered A c op w0) Hi eq_refl Hm Hs ltac:(by destruct Hact as [-> | ->]) HR Hev).
  - intros Hst He. apply artifact_took; [done|done|]. by apply Hch.
  - intros Hst He w (_ & _ & Hmig%artifact_migrated) Hw Hd; [|done..]. left. rewrite Hpa in Hw.
    exists (put A (m_id (a_manifest a)) r, <[m_id (a_manifest a) := installed a]> A.2). split; [|split; [exact Hw|split; [exact Hd|]]].
    + by apply Hch.
    + do 3 eexists. split; [exact Hreq|]. unfold lifecycle_result, report, put. cbn. by rewrite lookup_insert_eq.
Qed.

(** A call whose intent [execute] persists. *)
Lemma plain_execution A c i R : intent_ok i → i_phase i = PREPARED → is_map (i_before i) A.1 → site_ok A i →
  is_map (i_after i) R → evidence i (packages_after A i None !! i_package_id i) → stages (i_action i) = false →
  change A c (i_operation_id i) (R, packages_after A i None) →
  triple (ready A (i_operation_id i)) (v_execute self i)
    (λ _ w, settled (R, packages_after A i None) w ∧ status_of w (i_operation_id i) = Some Journal.SUCCEEDED)
    (λ _, left_over A c (i_operation_id i)).
Proof.
  intros Hi Hph Hm Hs HR Hev Hst Hch. eapply triple_conseq; [apply (execute_triple A i None R Hi Hs HR Hev)| | |].
  - intros w Hw. left. split; [by apply fresh_ready|done].
  - by intros [] w [_ Hw].
  - intros e w [Hw|(y & _ & Hw)]; [by left|]. right. exists (R, packages_after A i None). split; [by left|].
    unfold packages_after in *. by destruct (i_action i).
Qed.

Lemma require_installed_check A op id before : is_map before A.1 →
  triple (ready A op) (require_installed package_id_ok oracle clock op id before)
    (λ r w, in_place A id r ∧ ready A op w) (λ _, settled A).
Proof.
  intros Hm. unfold require_installed. eapply bind_check; [apply if_rejected_check| |done]. intros r Hr.
  eapply bind_check; [apply lift_check| |done]. intros n Hn. destruct (valid_id _ _ Hn) as [-> _].
  apply ready_get. intros w0 (_ & Hp & _). rewrite Hp.
  destruct (marker_valid (node_marker (A.2 !! id)) id (m_version (pr_manifest r))) eqn:Em; [|intros w [Hw _]; by apply (settled_refuse A)].
  intros w Hw. split; [|done]. split; [|done]. unfold require_record in Hr. rewrite Hm in Hr.
  destruct (A.1 !! id); [by injection Hr as ->|discriminate].
Qed.

Lemma run_state_validator_check A op id action r before :
  triple (ready A op) (run_state_validator cb oracle clock op id action r before) (λ _ w, state_ok action id r before ∧ ready A op w) (λ _, settled A).
Proof.
  unfold run_state_validator, state_ok. destruct (state_validator cb) as [f|]; [|by intros w].
  eapply triple_weaken; [apply if_rejected_check| |done]. intros [] w [Hf Hw]. split; [|done]. by intros f' [= <-].
Qed.

(** What enabling and disabling check. *)
Definition flip_ok (id : string) (action : PackageAction) (before : records_map) (status : PackageStatus) : Prop :=
  if bool_decide (action = AEnable) then
    status = ENABLED ∧ require_enabled_dependencies specifier_contains before id = Ok tt ∧
    require_enabled_capabilities specifier_contains before (Some id) None = Ok tt
  else status = DISABLED ∧ required_dependents before id true = [] ∧ require_enabled_capabilities specifier_contains before None (Some id) = Ok tt.

Lemma check_flip A op id action before :
  triple (ready A op)
    (if bool_decide (action = AEnable) then check_enable specifier_contains oracle clock op id before else check_disable specifier_contains oracle clock op id before)
    (λ status w, flip_ok id action before status ∧ ready A op w) (λ _, settled A).
Proof.
  unfold flip_ok. destruct (bool_decide (action = AEnable)).
  - unfold check_enable. eapply bind_check; [apply if_rejected_check| |done]. intros [] Hr.
    intros w Hw. split; [|done]. split; [done|]. destruct (require_enabled_dependencies _ _ _) as [[]|]; [by split|discriminate].
  - unfold check_disable. apply (bind_check A op _ _ (λ _, required_dependents before id true = [])).
    + destruct (required_dependents before id true); [by intros w|]. intros w [Hw _]. by apply (settled_refuse A).
    + intros [] Hd. eapply bind_check; [apply if_rejected_check| |done]. intros [] Hc. by intros w.
    + done.
Qed.

Lemma replay_state_triple A op id action :
  triple (settled A) (replay_state parse_record dump_record package_id_ok oracle op id action)
    (λ r w, r = report A op action id true ∧
       (∃ r, in_place A id r ∧ pr_status r = if bool_decide (action = AEnable) then ENABLED else DISABLED) ∧ settled A w) (λ _, settled A).
Proof.
  unfold replay_state. eapply triple_bind; [apply read_settled|]. intros rs w [Hrs Hw]. rewrite run_bind_lift. unfold require_record.
  destruct (dict_get rs id) as [r|] eqn:Er; [|exact Hw]. rewrite run_bind_lift.
  destruct (package_path _ _) as [n|] eqn:En; [|exact Hw]. destruct (valid_id _ _ En) as [-> _]. rewrite run_bind_get.
  destruct (_ || _) eqn:Eb; [exact Hw|]. apply orb_false_iff in Eb as [Est Em]. apply bool_decide_eq_false, dec_stable in Est. apply negb_false_iff in Em.
  pose proof Hw as (_ & Hp & _). rewrite Hp in Em. split; [by eapply read_report|]. split; [|done]. exists r. split; [|done].
  split; [|done]. rewrite <-Er. symmetry. apply Hrs.
Qed.

Definition flip_call (action : PackageAction) (op id : string) : call := if bool_decide (action = AEnable) then CEnable op id else CDisable op id.

Lemma state_change_triple A op id action (w0 : worldT) : (action = AEnable ∨ action = ADisable) →
  triple (λ w, w = w0 ∧ rep A w)
    (state_change specifier_contains parse_record dump_record sha256_hex package_id_ok given_protected cb oracle clock self op id action)
    (answered A (flip_call action op id) op w0) (λ _, left_over A (flip_call action op id) op).
Proof.
  intros Hact w Hw. unfold state_change. rewrite run_bind_lift. destruct (validate_operation_id op) as [op'|] eqn:Hop; [|left; apply Hw].
  pose proof (valid_op _ _ Hop) as ->. rewrite run_bind_lift. destruct (validate_package_id package_id_ok id) as [id'|] eqn:Hid; [|left; apply Hw].
  destruct (valid_id _ _ Hid) as [-> Hidok]. revert w Hw. set (c := flip_call action op id).
  assert (request_of c = Some (action, id, "package/" +:+ id)) as Hreq by by destruct Hact as [-> | ->].
  assert (∀ (e : exn) w, settled A w → left_over A c op w) as Hleft by (intros e w; apply settled_left). apply call_begin.
  { apply triple_pre. intros Hhad. eapply triple_conseq; [apply (replay_state_triple A)|done| |exact Hleft].
    intros r w (Hr & He & Hw). right. do 3 eexists. split; [exact Hreq|]. split; [exact Hr|]. split; [done|]. split; [by destruct Hact as [-> | ->]|exact Hhad]. }
  eapply bind_check; [apply read_check| |exact Hleft]. intros before (Hwf & Hids & Hm).
  eapply bind_check; [by apply require_installed_check| |exact Hleft]. intros r Hr. pose proof Hr as [Hget _].
  eapply bind_check; [apply guard_check| |exact Hleft]. intros [] Hprot.
  eapply bind_check; [apply run_state_validator_check| |exact Hleft]. intros [] Hval.
  eapply bind_check; [apply check_flip| |exact Hleft]. intros status Hst.
  intros w Hw. pose proof Hw as (_ & _ & Hjop). revert w Hw.
  set (i := new_intent sha256_hex op action id before (dict_set before id (Rec (pr_manifest r) status)) None None false false).
  assert (intent_ok i) as Hi.
  { assert (dict_wf (dict_set before id (Rec (pr_manifest r) status)) ∧ ids_ok (dict_set before id (Rec (pr_manifest r) status))).
    { split; [by apply dict_wf_set|]. apply ids_set; [done|]. symmetry. apply (Hids id r). by rewrite Hm. }
    destruct Hact as [-> | ->]; by apply new_intent_ok. }
  assert (is_map (i_after i) (put A id (Rec (pr_manifest r) status))) as HR by by apply is_map_set.
  assert (change A c op (put A id (Rec (pr_manifest r) status), A.2)) as Hch.
  { destruct Hact as [-> | ->]; unfold flip_ok in Hst; cbn in Hst.
    - destruct Hst as (-> & Hd & Hc). by apply change_enable with before.
    - destruct Hst as (-> & Hd & Hc). apply change_disable with before; [done|done| |done..]. by apply bool_decide_eq_false in Hprot. }
  assert (packages_after A i None = A.2) as Hpa by by destruct Hact as [-> | ->].
  eapply triple_bind.
  { apply (plain_execution A c i (put A id (Rec (pr_manifest r) status)) Hi eq_refl Hm);
      [by destruct Hact as [-> | ->]|exact HR|by destruct Hact as [-> | ->]|by destruct Hact as [-> | ->]|by rewrite Hpa]. }
  intros [] w [Hw Hd]. rewrite Hpa in Hw. left. exists (put A id (Rec (pr_manifest r) status), A.2). parts. do 3 eexists. split; [exact Hreq|].
  unfold lifecycle_result, report, put. cbn. rewrite lookup_insert_eq. cbn. f_equal. symmetry. apply (Hids id r). by rewrite Hm.
Qed.

Lemma uninstall_triple A op id (w0 : worldT) :
  triple (λ w, w = w0 ∧ rep A w) (uninstall parse_record dump_record sha256_hex package_id_ok given_protected cb oracle clock self op id)
    (answered A (CUninstall op id) op w0) (λ _, left_over A (CUninstall op id) op).
Proof.
  intros w Hw. unfold uninstall. rewrite run_bind_lift. destruct (validate_operation_id op) as [op'|] eqn:Hop; [|left; apply Hw].
  pose proof (valid_op _ _ Hop) as ->. rewrite run_bind_lift. destruct (validate_package_id package_id_ok id) as [id'|] eqn:Hid; [|left; apply Hw].
  destruct (valid_id _ _ Hid) as [-> Hidok]. revert w Hw. set (c := CUninstall op id).
  assert (∀ (e : exn) w, settled A w → left_over A c op w) as Hleft by (intros e w; apply settled_left). apply call_begin.
  { apply triple_pre. intros Hhad. eapply triple_bind; [eapply triple_weaken; [apply read_settled|done|exact Hleft]|].
    intros rs w [[Hm _] Hw]. unfold dict_mem. rewrite (Hm id). destruct (A.1 !! id) as [r|] eqn:Er; [by apply (Hleft os_error)|]. right.
    do 3 eexists. split; [reflexivity|]. unfold report. rewrite Er. parts. }
  eapply bind_check; [apply read_check| |exact Hleft]. intros before (Hwf & Hids & Hm).
  eapply bind_check; [by apply require_installed_check| |exact Hleft]. intros r Hr.
  eapply bind_check; [apply guard_check| |exact Hleft]. intros [] Hprot%bool_decide_eq_false.
  eapply bind_check; [apply guard_check| |exact Hleft]. intros [] Hen.
  eapply bind_check; [apply run_state_validator_check| |exact Hleft]. intros [] Hval.
  apply (bind_check A op _ _ (λ _, required_dependents before id false = [])); [|intros [] Hdep|exact Hleft].
  { destruct (required_dependents before id false); [by intros w|]. intros w [Hw _]. by apply (settled_refuse A). }
  eapply bind_check; [apply lift_check| |exact Hleft]. intros n Hn. destruct (valid_id _ _ Hn) as [-> _].
  apply ready_get. intros w1 (_ & Hp & _). eapply bind_check; [apply guard_check| |exact Hleft]. intros [] Hdir%(directory_at A w1 id Hp).
  set (i := new_intent sha256_hex op AUninstall id before (dict_del before id) None None false true).
  apply (bind_check A op _ _ (λ _, emptied id)); [|intros [] Hempty|exact Hleft].
  { unfold emptied. intros w Hw. unfold or_else, try_except, lift. destruct (occupancy_reset cb) as [f|]; [|done].
    destruct (f id) as [[]|e] eqn:Ef; [split; [by intros f' [= <-]|done]|]. destruct (caught e); [by apply (settled_refuse A), Hw|apply Hw]. }
  intros w Hw. pose proof Hw as (_ & _ & Hjop). revert w Hw.
  assert (dict_wf (dict_del before id) ∧ ids_ok (dict_del before id)) as Hdel by (split; [by apply dict_wf_del|by apply ids_del]).
  assert (intent_ok i) as Hi by by apply new_intent_ok.
  assert (site_ok A i) as Hs by (destruct Hdir as [t Ht]; by exists (Dir t)).
  assert (change A c op (delete id A.1, delete id A.2)) as Hch.
  { apply (change_uninstall A op id r before); try done. intros Hst. unfold is_enabled in Hen. rewrite Hst in Hen. discriminate Hen. }
  eapply triple_bind.
  { by apply (plain_execution A c i (delete id A.1) Hi eq_refl Hm Hs); [apply is_map_del|apply lookup_delete_eq|..]. }
  intros [] w [Hw Hd]. left. exists (delete id A.1, delete id A.2). parts. do 3 eexists. split; [reflexivity|].
  unfold report. cbn. by rewrite lookup_delete_eq.
Qed.

Definition op_of (c : call) : string :=
  match c with CInstall op _ | CUpdate op _ | CEnable op _ | CDisable op _ | CUninstall op _ => op | CRecover => "" end.

(** What a call that began in [w0] leaves behind, by its outcome. *)
Definition outcome (A : site) (c : call) (w0 : worldT) (r : result (option PackageLifecycleResult)) (w : worldT) : Prop :=
  match r with
  | Ok (Some x) => answered A c (op_of c) w0 x w
  | Ok None => settled A w
  | Err _ => left_over A c (op_of c) w
  end.

Lemma call_outcome A c (w : worldT) : rep A w → outcome A c w (run_call c w).1 (run_call c w).2.
Proof.
  assert (∀ (m : M worldT PackageLifecycleResult),
    triple (λ w', w' = w ∧ rep A w') m (answered A c (op_of c) w) (λ _, left_over A c (op_of c)) → rep A w →
    outcome A c w ((r ← m; mret (Some r)) w).1 ((r ← m; mret (Some r)) w).2) as Hsome.
  { intros m Hm Hw. specialize (Hm w (conj eq_refl Hw)). rewrite run_bind. by destruct (m w) as [[r|e] w']. }
  intros Hw. destruct c as [op v|op v|op id|op id|op id|]; cbn [run_call].
  - apply Hsome; [|exact Hw]. apply (install_or_update_triple A op AInstall). by left.
  - apply Hsome; [|exact Hw]. apply (install_or_update_triple A op AUpdate). by right.
  - apply Hsome; [|exact Hw]. apply (state_change_triple A op id AEnable). by left.
  - apply Hsome; [|exact Hw]. apply (state_change_triple A op id ADisable). by right.
  - apply Hsome; [|exact Hw]. apply uninstall_triple.
  - pose proof (recover_locked_triple (L := late_marker) A w Hw) as Hr. rewrite run_bind. unfold recover.
    change (v_recover_locked self) with (recover_locked parse_record dump_record sha256_hex package_id_ok oracle clock cleanup).
    destruct (recover_locked _ _ _ _ _ _ _ w) as [[ids|e] w']; [exact Hr|by left].
Qed.

(** The packages after each call: as before it, with its change, or, if the commit marker came late, with a tree of it that is torn. *)
Inductive history (A : site) : list call → site → Prop :=
  | history_nil : history A [] A
  | history_none cs c A' : history A cs A' → history A (cs ++ [c]) A'
  | history_change cs c A' A'' : history A cs A' → change A' c (op_of c) A'' → history A (cs ++ [c]) A''
  | history_torn cs c A' A'' : history A cs A' → torn A' c (op_of c) A'' → history A (cs ++ [c]) A''.

(** Calls in a row: a process that ended is followed by another one. *)
Definition run_calls (cs : list call) (w : worldT) : worldT := foldl (λ w c, (run_call c w).2) w cs.

Lemma outcome_step A c w0 r (w : worldT) : outcome A c w0 r w → left_over A c (op_of c) w.
Proof.
  destruct r as [[x|]|e]; cbn [outcome].
  - intros [(A' & Hc & Hs & _)|(action & id & target & _ & _ & Hs & _)]; [right; exists A'; split; [by left|by left]|left; by left].
  - apply settled_left.
  - done.
Qed.

Lemma calls_rep A cs (w : worldT) : rep A w → ∃ A', history A cs A' ∧ rep A' (run_calls cs w).
Proof.
  intros Hw. induction cs as [|c cs IH] using rev_ind; [exists A; split; [constructor|done]|].
  destruct IH as (A' & Hh & Hr). unfold run_calls. rewrite foldl_snoc. fold (run_calls cs w).
  destruct (outcome_step A' c _ _ _ (call_outcome A' c (run_calls cs w) Hr)) as [H1|(A'' & [Hc|Hc] & H1)].
  - exists A'. split; [by constructor|done].
  - exists A''. split; [by apply (history_change A cs c A')|done].
  - exists A''. split; [by apply (history_torn A cs c A')|done].
Qed.

(** C1: Crash atomicity of [TransactionalPackageManager]. Take any sequence of installs, updates, enables, disables,
    uninstalls and recoveries in which every write, rename, extraction, removal and journal append may fail before, after or in the
    middle of its effect, with an exception or with the end of the process, and every callback may raise. A
    recovery that answers after them leaves no intent, no staged and no replaced directory, and the registry and the package directories that
    stand for a history in which every call took its whole checked effect or none of it. There is one exception: where a write
    of the commit marker raises although the marker is in place, the roll back that follows runs under a committed intent,
    and the tree that an install or update put there may be one from which files are missing, its integrity marker being intact.
    (pydantic is taken to read back the records that it dumped, which have no key of earlier versions.) *)
Theorem calls_crash_atomic A cs (w : worldT) ids (w' : worldT) :
  settled A w → recover self (run_calls cs w) = (Ok ids, w') → ∃ A', history A cs A' ∧ settled A' w'.
Proof.
  intros Hw Hrec. destruct (calls_rep A cs w) as (A' & Hh & Hr); [by left|]. exists A'. split; [done|].
  pose proof (recover_locked_triple (L := late_marker) A' _ Hr) as Ht. unfold recover in Hrec.
  change (recover_locked parse_record dump_record sha256_hex package_id_ok oracle clock cleanup (run_calls cs w) = (Ok ids, w')) in Hrec.
  by rewrite Hrec in Ht.
Qed.

(** C4: A call that answers has its whole effect and nothing else pending. From any state that the manager may have left, an
    install, update, enable, disable or uninstall that returns a result either leaves exactly the packages that its change describes,
    every check of which passed (graph, protection, valid marker, newer version, the signer or its authorized transition, validators,
    migrations), its operation succeeded in the journal, no intent and no staged or replaced directory, and its result reports the record; or it reports a replay, the packages are as they were and already show
    the effect of the call, and the journal, as recovery left it, held this operation with the same action and target as succeeded.
    (pydantic is taken to read back the records that it dumped, which have no key of earlier versions.) *)
Theorem answered_call_exact A c (w : worldT) r (w' : worldT) :
  rep A w → run_call c w = (Ok (Some r), w') → changed A c (op_of c) r w' ∨ replayed A c (op_of c) w r w'.
Proof. intros Hw Hc. pose proof (call_outcome A c w Hw) as Ho. by rewrite Hc in Ho. Qed.
End laws.

(** ** A shop with failing disks *)

#[export] Instance shelf_eq_dec : EqDecision shelf.
Proof. solve_decision. Defined.

Definition demo_hex (s : string) : string := "h:" +:+ s.
Definition demo_callbacks : callbacks shelf string := Callbacks None None None None None None.
Definition demo_digest (s : string) : string := String.concat s (replicate 65 "").
Definition demo_artifact (p : shelf) (files : string) : VerifiedPackageArtifact shelf string :=
  Artifact p (if String.eqb files "files" then demo_digest "0" else demo_digest "1") "key" (Tree None files).
Definition demo_empty : world shelf string unit := World None ∅ ∅ ∅ ∅ (Journal.Spec 0 []) 0 tt.

Section demo.
Context (oracle : nat → label → fault string).

Definition demo_calls : list (call (T := shelf) (C := string)) → world shelf string unit → world shelf string unit :=
  run_calls demo_contains "1" demo_parse demo_dump demo_hex (λ _, true) (λ _, "app") (λ _, false) (λ _ _, Ok false) ∅ demo_callbacks oracle Z.of_nat.
Definition demo_call : call (T := shelf) (C := string) → world shelf string unit → result (option PackageLifecycleResult) * world shelf string unit :=
  run_call demo_contains "1" demo_parse demo_dump demo_hex (λ _, true) (λ _, "app") (λ _, false) (λ _ _, Ok false) ∅ demo_callbacks oracle Z.of_nat.
Definition demo_recover : world shelf string unit → result (list string) * world shelf string unit :=
  recover (transactional demo_parse demo_dump demo_hex (λ _, true) (λ _, false) demo_callbacks oracle Z.of_nat).
End demo.

Definition demo_files (n : node string) : string := match n with Dir t => t_content t | Link t => t_content t | File => "" end.

(** Statuses, directories and the numbers of staged, replaced and pending things. *)
Definition demo_view (w : world shelf string unit) : result (list (string * PackageStatus)) * list (string * string) * (nat * nat * nat) :=
  (demo_statuses (w_registry w), (λ e, (e.1, demo_files e.2)) <$> map_to_list (w_packages w),
   (size (w_stage w), size (w_backup w), size (w_intents w))).

(** The process ends between the two renames of an update (step 16); the removal of
    the replaced tree of an uninstall fails in the middle (step 31). *)
Definition demo_faults (k : nat) (_ : label) : fault string :=
  if Nat.eqb k 16 then Dies Nothing else if Nat.eqb k 31 then Raises (Partly (Tree None "half")) else Fine.

Definition demo_install : call (T := shelf) (C := string) := CInstall "operation-1" (Ok (demo_artifact Pay "files")).
Definition demo_update : call (T := shelf) (C := string) := CUpdate "operation-2" (Ok (demo_artifact Pay "new files")).
Definition demo_uninstall : call (T := shelf) (C := string) := CUninstall "operation-3" "pay".
Definition demo_story : list (call (T := shelf) (C := string)) := [demo_install; demo_update; demo_uninstall].

Example demo_update_broken : demo_view (demo_calls demo_faults [demo_install; demo_update] demo_empty) = (Ok [("pay", INSTALLED)], [], (1, 1, 1)).
Proof. by vm_compute. Qed.

Example demo_update_undone :
  demo_view (demo_calls demo_faults [demo_install; demo_update; CRecover] demo_empty) = (Ok [("pay", INSTALLED)], [("pay", "files")], (0, 0, 0)).
Proof. by vm_compute. Qed.

Example demo_uninstall_broken : demo_view (demo_calls demo_faults demo_story demo_empty) = (Ok [], [], (0, 1, 1)).
Proof. by vm_compute. Qed.

Lemma demo_parse_dump r : demo_parse (demo_dump r) = Ok r.
Proof. by destruct r as [[] []]. Qed.

Lemma demo_dump_current r : legacy_record_payload (demo_dump r) = None.
Proof. done. Qed.

Lemma demo_empty_settled : settled demo_parse (∅, ∅) demo_empty.
Proof. split; [|done]. exists []. split; [done|]. split; [constructor|]. by split. Qed.

Lemma calls_crash_atomic_witness :
  let last := demo_recover demo_faults (demo_calls demo_faults demo_story demo_empty) in
  last.1 = Ok ["operation-3"] ∧ demo_view last.2 = (Ok [], [], (0, 0, 0)) ∧
  ∃ A', history demo_contains "1" (λ _, "app") (λ _, false) (λ _ _, Ok false) ∅ demo_callbacks demo_faults (∅, ∅) demo_story A' ∧
    settled demo_parse A' last.2.
Proof.
  split; [vm_compute; reflexivity|]. split; [vm_compute; reflexivity|].
  apply (calls_crash_atomic demo_contains "1" demo_parse demo_dump demo_hex (λ _, true) (λ _, "app") (λ _, false) (λ _ _, Ok false) ∅ demo_callbacks
    demo_faults Z.of_nat demo_parse_dump demo_dump_current (∅, ∅) demo_story demo_empty ["operation-3"]).
  - exact demo_empty_settled.
  - vm_compute. reflexivity.
Defined.

(** The packages once [demo_install] is done. *)
Definition demo_site : site (T := shelf) (C := string) :=
  ({[ "pay" := Rec Pay INSTALLED ]}, {[ "pay" := installed (demo_artifact Pay "files") ]}).

Lemma demo_installed : settled demo_parse demo_site (demo_call demo_faults demo_install demo_empty).2.
Proof.
  split; [|split; [vm_compute; reflexivity|split; [vm_compute; reflexivity|split; vm_compute; reflexivity]]].
  exists [("pay", Rec Pay INSTALLED)]. split; [vm_compute; reflexivity|]. split; [apply NoDup_singleton|]. split.
  - intros k r. cbn [dict_get]. destruct (decide ("pay" = k)) as [<-|]; [by intros [= <-]|done].
  - intros k. cbn [dict_get demo_site fst]. destruct (decide ("pay" = k)) as [<-|]; [by rewrite lookup_singleton_eq|by rewrite lookup_singleton_ne].
Qed.

(** An install that succeeded, and its replay. *)
Lemma answered_call_exact_witness :
  let w := (demo_call demo_faults demo_install demo_empty).2 in
  let r := demo_call demo_faults demo_install w in
  lr_idempotent_replay <$> (match r.1 with Ok o => o | Err _ => None end) = Some true ∧
  demo_view r.2 = (Ok [("pay", INSTALLED)], [("pay", "files")], (0, 0, 0)) ∧
  (changed demo_contains "1" demo_parse (λ _, "app") (λ _, false) (λ _ _, Ok false) ∅ demo_callbacks demo_site demo_install "operation-1"
     (LifecycleResult "operation-1" AInstall "pay" (Some "1") (Some INSTALLED) true) r.2 ∨
   replayed demo_parse demo_dump demo_hex (λ _, true) (λ _, false) demo_callbacks demo_faults Z.of_nat demo_site demo_install "operation-1" w
     (LifecycleResult "operation-1" AInstall "pay" (Some "1") (Some INSTALLED) true) r.2).
Proof.
  split; [vm_compute; reflexivity|]. split; [vm_compute; reflexivity|].
  apply (answered_call_exact demo_contains "1" demo_parse demo_dump demo_hex (λ _, true) (λ _, "app") (λ _, false) (λ _ _, Ok false) ∅ demo_callbacks
    demo_faults Z.of_nat demo_parse_dump demo_dump_current demo_site demo_install (demo_call demo_faults demo_install demo_empty).2).
  - left. exact demo_installed.
  - vm_compute. reflexivity.
Defined.

(** The commit marker comes late: [write_json_atomic] raises
    after the rename when the file changed or cannot be examined, and [_execute] then
    rolls back under an intent that says committed.  If the process ends in that roll back, the
    package is gone, its replaced tree waits, and every recovery refuses. *)
Definition marker_raises_late (k : nat) (_ : label) : fault string :=
  if Nat.eqb k 20 then Raises Everything else if Nat.eqb k 21 then Dies Everything else Fine.

Example late_marker_stuck :
  let w := demo_calls marker_raises_late [demo_install; demo_update] demo_empty in
  demo_view w = (Ok [("pay", INSTALLED)], [], (0, 1, 1)) ∧
  (demo_recover marker_raises_late w).1 = rejected "committed package postcondition is invalid; recovery is required" ∧
  demo_view (demo_calls marker_raises_late [demo_uninstall; CRecover; demo_install] w) = demo_view w.
Proof. by vm_compute. Qed.

(** If that roll back removes a part of the new tree but not its marker, recovery accepts what is left. *)
Definition marker_raises_late_part (k : nat) (_ : label) : fault string :=
  if Nat.eqb k 20 then Raises Everything
  else if Nat.eqb k 21 then Dies (Partly (Tree (Some (artifact_marker "pay" "1" (demo_digest "1") "key")) "new fi")) else Fine.

Example late_marker_torn :
  let w := demo_calls marker_raises_late_part [demo_install; demo_update] demo_empty in
  (demo_recover marker_raises_late_part w).1 = Ok ["operation-2"] ∧
  demo_view (demo_recover marker_raises_late_part w).2 = (Ok [("pay", INSTALLED)], [("pay", "new fi")], (0, 0, 0)).
Proof. by vm_compute. Qed.
End LifecycleLaws.
