(* ===== verification/LifecycleProgress.v ===== *)
(** * Recovery completes

    When no step fails and the clock has not gone back behind the journal, recovery answers, whatever
    sequence of failing calls came before: its checks hold in every
    state that stands for some packages.  A commit marker that came late may have led to a state that stands for none:
    recovery refuses it, and keeps doing so. *)

From Stdlib Require Import ZArith Lia Sorting.Sorted Permutation.
From stdpp Require Import base decidable numbers list sorting strings gmap sets.
From S2P Require Import Prelude PyData Regex JsonGraph HashChain OperationJournal Dependencies Packages PackageLifecycle LifecycleLaws.

Module LifecycleProgress.
Import JsonGraph(json, JNull, JBool, JInt, JFloat, JStr, JArr, JObj).
Import Dependencies Packages Lifecycle LifecycleLaws.

(** Equal registries are written alike. *)
Lemma dict_sort_unique {V} (d d' : dict string V) : dict_wf d → dict_wf d' → (∀ k, dict_get d k = dict_get d' k) → dict_sort d = dict_sort d'.
Proof.
  intros Hd Hd' He.
  assert (∀ (d1 d2 : dict string V) x, dict_wf d1 → dict_wf d2 → (∀ k, dict_get d1 k = dict_get d2 k) → x ∈ d1 → x ∈ d2) as Hin.
  { intros d1 d2 [k v] H1 H2 E Hx. apply (dict_get_in d1 k v H1) in Hx. rewrite E in Hx. by apply dict_get_Some_in. }
  assert (∀ d1 : dict string V, dict_wf d1 → NoDup d1) as Hnd by (intros d1 H1; by apply (NoDup_fmap_1 fst)).
  apply (StronglySorted_unique_strong (key_le fst)); [|apply sort_by_sorted..|].
  - intros [k1 v1] [k2 v2] H1 H2 L1 L2. apply (proj1 (elem_of_dict_sort d _)) in H1. apply (proj1 (elem_of_dict_sort d' _)) in H2. unfold key_le, key_leb in L1, L2. cbn in L1, L2.
    pose proof (ord_antisym _ _ L1 L2) as ->. apply (dict_get_in d) in H1; [|done]. apply (dict_get_in d') in H2; [|done].
    rewrite He in H1. congruence.
  - unfold dict_sort. rewrite !sort_by_perm. apply NoDup_Permutation; [by apply Hnd..|]. intros x. split; apply Hin; done.
Qed.

Section progress.
Context {T C X : Type} `{PackageManifest T} `{!EqDecision T}
  (parse_record : json → result (PackageRecord T)) (dump_record : PackageRecord T → json)
  (sha256_hex : string → string) (package_id_ok : string → bool) (clock : nat → Z).

Hypothesis parse_dump : ∀ r, parse_record (dump_record r) = Ok r.
Hypothesis dump_current : ∀ r, legacy_record_payload (dump_record r) = None.

(** No step fails. *)
Definition quiet : nat → label → fault C := λ _ _, Fine.

Abbreviation worldT := (world T C X).
Abbreviation intent := (TransactionIntent T).
Abbreviation intent_ok := (intent_ok sha256_hex package_id_ok).
Abbreviation never := (λ (_ : exn) (_ : worldT), False).

(** ** Computations that answer and leave the journal alone *)

Section calm.
Context (I : worldT → Prop).
Hypothesis I_frame : ∀ w w' : worldT, w_journal w' = w_journal w → w_step w ≤ w_step w' → I w → I w'.

Definition calm {A} (m : M worldT A) : Prop := triple I m (λ _, I) never.

(** What holds after an answer, and the answer. *)
Lemma calm_triple {A} P (m : M worldT A) Q E : triple P m Q E → calm m → triple (λ w, P w ∧ I w) m (λ a w, Q a w ∧ I w) never.
Proof. intros Hm Hc w [Hw Hi]. specialize (Hm w Hw). specialize (Hc w Hi). by destruct (m w) as [[a|e] w']. Qed.

Lemma calm_bind {A B} (m : M worldT A) (k : A → M worldT B) : calm m → (∀ a, calm (k a)) → calm (m ≫= k).
Proof. intros Hm Hk. by apply (triple_bind _ (λ _, I)). Qed.

Lemma calm_ret {A} (a : A) : calm (mret a).
Proof. by intros w Hw. Qed.

Lemma calm_get {B} (k : worldT → M worldT B) : (∀ w, triple (λ w', w' = w ∧ I w) (k w) (λ _, I) never) → calm (get_st ≫= k).
Proof. intros Hk w Hw. rewrite run_bind_get. by apply (Hk w). Qed.

Lemma calm_at {A} w (m : M worldT A) : calm m → triple (λ w', w' = w ∧ I w) m (λ _, I) never.
Proof. intros Hm w' [-> Hw]. by apply Hm. Qed.

Lemma calm_lift {A B} (r : result A) (a : A) (k : A → M worldT B) : r = Ok a → calm (k a) → calm (lift r ≫= k).
Proof. intros -> Hk w Hw. rewrite run_bind_lift. by apply Hk. Qed.

Lemma calm_durable l full part : (∀ w, w_journal (full w) = w_journal w ∧ w_step (full w) = w_step w) → calm (durable (X := X) (T := T) quiet l full part).
Proof. intros Hf w Hw. destruct (Hf (tick w)) as [Hj Hs]. apply (I_frame w); [exact Hj|rewrite Hs; cbn; lia|exact Hw]. Qed.

Lemma calm_when b (m : M worldT unit) : calm m → calm (when b m).
Proof. intros Hm. unfold when. destruct b; [done|apply calm_ret]. Qed.

Lemma calm_drop_stage name : calm (drop_stage quiet name).
Proof. unfold drop_stage. destruct name; [|apply calm_ret]. apply calm_get. intros w. by apply calm_at, calm_when, calm_durable. Qed.

Lemma calm_drop_backup name : calm (drop_backup quiet name).
Proof. unfold drop_backup. destruct name; [|apply calm_ret]. apply calm_get. intros w. by apply calm_at, calm_when, calm_durable. Qed.

Lemma calm_write_intent i p : intent_ok i → calm (write_intent sha256_hex quiet (with_phase p i)).
Proof. intros Hi. rewrite (write_intent_run _ package_id_ok) by done. by apply calm_durable. Qed.

Lemma calm_read R : triple (λ w, reads parse_record (w_registry w) R ∧ I w) (read_records parse_record dump_record quiet) (λ _, I) never.
Proof.
  intros w [(rs & Ep & _) Hi]. unfold read_records. rewrite run_bind. cbn [gets fst].
  rewrite run_bind_lift, Ep. cbn [result_catch]. destruct (registry_payload_has_legacy_keys _); [|done]. apply (I_frame w); [done|cbn; lia|done].
Qed.

Lemma calm_bring_back (w : worldT) n b : is_Some (w_backup w !! b) →
  triple (λ w', w' = w ∧ I w) (_ ← when (bool_decide (is_Some (w_packages w !! n))) (remove_package quiet n); backup_to_package quiet b n) (λ _, I) never.
Proof.
  intros [x Hx]. apply (triple_bind _ (λ _ w', w_backup w' !! b = Some x ∧ I w')).
  - intros w' [-> Hw]. unfold when. destruct (bool_decide _); [|done]. split; [exact Hx|]. apply (I_frame w); [done|cbn; lia|done].
  - intros [] w' [Hw' Hi]. unfold backup_to_package. rewrite Hw'. apply (I_frame w'); [done|cbn; lia|done].
Qed.

Lemma calm_rollback_files (i : intent) n backup : calm (rollback_files quiet i n backup).
Proof.
  unfold rollback_files. apply calm_get. intros w.
  assert (triple (λ w', w' = w ∧ I w) (when (negb (dict_mem (i_before i) (i_package_id i)) && bool_decide (is_Some (w_packages w !! n))) (remove_package quiet n)) (λ _, I) never) as Hremove
    by by apply calm_at, calm_when, calm_durable.
  assert (∀ b, triple (λ w', w' = w ∧ I w) (when (bool_decide (is_Some (w_backup w !! b)))
    (_ ← when (bool_decide (is_Some (w_packages w !! n))) (remove_package quiet n); backup_to_package quiet b n)) (λ _, I) never) as Hback.
  { intros b. unfold when at 1. destruct (bool_decide (is_Some (w_backup w !! b))) eqn:Eb; [|apply calm_at, calm_ret]. apply bool_decide_eq_true in Eb. by apply calm_bring_back. }
  assert (triple (λ w', w' = w ∧ I w) (mret tt) (λ _, I) never) as Hret by apply calm_at, calm_ret.
  destruct (i_action i); [exact Hremove|destruct backup; [apply Hback|exact Hret]|exact Hret..|destruct backup; [apply Hback|exact Hret]].
Qed.

Lemma calm_rollback i : intent_ok i → calm (rollback_intent dump_record sha256_hex package_id_ok quiet i).
Proof.
  intros Hi. unfold rollback_intent.
  eapply calm_lift; [eapply package_path_run; exact Hi|]. eapply calm_lift; [eapply stage_run; exact Hi|]. eapply calm_lift; [eapply backup_run; exact Hi|].
  apply calm_bind; [apply calm_rollback_files|]. intros _. apply calm_bind; [apply calm_drop_stage|]. intros _.
  apply calm_bind; [by apply calm_durable|]. intros _. apply calm_bind; [by apply calm_write_intent|]. intros _. apply calm_ret.
Qed.

Lemma calm_cleanup i : intent_ok i → calm (cleanup_intent sha256_hex package_id_ok quiet i).
Proof.
  intros Hi. unfold cleanup_intent. eapply calm_lift; [eapply stage_run; exact Hi|].
  apply calm_bind; [apply calm_drop_stage|]. intros _. eapply calm_lift; [eapply backup_run; exact Hi|].
  apply calm_bind; [apply calm_drop_backup|]. intros _. eapply calm_lift; [eapply intent_path_run; exact Hi|by apply calm_durable].
Qed.

Abbreviation redo := (redo (C := C) (X := X) parse_record sha256_hex package_id_ok).

(** [_postcondition] answers where the registry can be read. *)
Lemma calm_post R i : intent_ok i →
  triple (λ w, reads parse_record (w_registry w) R ∧ I w) (postcondition (X := X) (C := C) parse_record dump_record package_id_ok quiet i) (λ _, I) never.
Proof.
  intros Hi. unfold postcondition. eapply triple_bind; [apply calm_read|]. intros rs w Hw. destruct (negb _); [exact Hw|].
  by rewrite run_bind_lift, (package_path_run sha256_hex) by done.
Qed.

(** A committed transaction has its evidence. *)
Lemma calm_postcondition A i :
  triple (λ w, redo A i w ∧ I w) (postcondition (X := X) (C := C) parse_record dump_record package_id_ok quiet i)
    (λ ok w, ok = true ∧ redo A i w ∧ I w) never.
Proof.
  unfold postcondition. apply (triple_bind _ (λ rs w, dict_wf rs ∧ is_map rs A.1 ∧ redo A i w ∧ I w)).
  { intros w0 [Hw0 Hi0]. pose proof Hw0 as (_ & _ & _ & _ & _ & _ & _ & Hr & _). pose proof (calm_read A.1 w0 (conj Hr Hi0)) as Hc.
    assert (triple (redo A i) (read_records parse_record dump_record quiet) (λ rs w, dict_wf rs ∧ ids_ok rs ∧ is_map rs A.1 ∧ redo A i w) (λ _ _, True)) as Ht.
    { apply (read_records_triple _ _ _ parse_dump dump_current); [done|intros w s; by apply redo_registry| |done].
      intros w (_ & _ & _ & _ & _ & _ & _ & ? & _). done. }
    specialize (Ht w0 Hw0). destruct (read_records _ _ _ w0) as [[rs|e] w1]; [|done]. destruct Ht as (? & _ & ? & ?). done. }
  intros rs w (Hwf & Hm & Hw & HI). pose proof Hw as (Hi & Ha & _ & _ & _ & Hp & Hev & _).
  assert (same_records rs (i_after i) = true) as ->.
  { apply bool_decide_eq_true_2. apply dict_sort_unique; [done|apply Hi|]. intros k. by rewrite Hm, Ha. }
  cbn [negb]. rewrite run_bind_lift, (package_path_run sha256_hex) by done. rewrite run_bind_get. split; [|done].
  unfold evidence in Hev. rewrite Hp. destruct (i_action i).
  - destruct Hev as (t & r & sha & key & -> & -> & -> & -> & Hmk). exact Hmk.
  - destruct Hev as (t & r & sha & key & -> & -> & -> & -> & Hmk). exact Hmk.
  - done.
  - done.
  - by apply bool_decide_eq_true_2.
Qed.
End calm.

(** ** The journal *)

Abbreviation states w := (Journal.sp_states (w_journal w)).

(** Its operations are valid, and the clock is not behind their start. *)
Definition timely (w : worldT) : Prop :=
  dict_wf (states w) ∧
  ∀ k s, dict_get (states w) k = Some s →
    Journal.o_operation_id s = k ∧ Journal.validate_operation_id k = Ok k ∧
    ∀ n, w_step w ≤ n → ∃ us, Journal.timestamp_of (clock n) None = Ok us ∧ Journal.stamp_lt (HashChain.utc_stamp us) (Journal.o_started_at s) = false.

(** Where nothing but the step changed. *)
Definition at_journal (j : Journal.spec) (w : worldT) : Prop := timely w ∧ w_journal w = j.

Lemma at_journal_frame j (w w' : worldT) : w_journal w' = w_journal w → w_step w ≤ w_step w' → at_journal j w → at_journal j w'.
Proof.
  intros Hj Hs [[Hwf Hw] Ej]. unfold at_journal, timely. rewrite Hj. split; [|done]. split; [done|]. intros k s Hk.
  destruct (Hw k s Hk) as (H1 & H2 & H3). split; [done|]. split; [done|]. intros n Hn. apply H3. lia.
Qed.

(** An operation may get a status: it is started, or it has it. *)
Definition may_finish (st : Journal.OperationStatus) (code : option string) (s : Journal.OperationState) : Prop :=
  Journal.o_status s = Journal.STARTED ∨ Journal.o_status s = st ∧ Journal.o_error_code s = code.

Lemma finish_answers (w : worldT) op st code s : timely w → dict_get (states w) op = Some s → may_finish st code s →
  ∃ x j, Journal.spec_finish (clock (w_step w)) op st code None (w_journal w) = (Ok x, j) ∧
    (Journal.o_status x = st ∧ may_finish st code x) ∧ timely (set_journal j (tick w)) ∧
    (∀ k, dict_get (Journal.sp_states j) k = if decide (op = k) then Some x else dict_get (states w) k).
Proof.
  intros [Hwf Hw] Hop Hs. destruct (Hw op s Hop) as (Hid & Hv & Hclock). destruct (Hclock (w_step w)) as (us & Hus & Hlt); [done|].
  assert (timely (set_journal (w_journal w) (tick w))) as Hsame by (apply (at_journal_frame (w_journal w) w); [done|cbn; lia|done]).
  assert (∀ k, dict_get (states w) k = if decide (op = k) then Some s else dict_get (states w) k) as Hget.
  { intros k. destruct (decide (op = k)) as [<-|]; [done|done]. }
  unfold Journal.spec_finish. rewrite run_bind_lift, Hv, run_bind_lift, Hus, run_bind_get, run_bind_lift. unfold Journal.require_state. rewrite Hop.
  destruct (bool_decide (Journal.o_status s = st) && _) eqn:Eb.
  { apply andb_true_iff in Eb as [Eb _]. apply bool_decide_eq_true in Eb. by exists s, (w_journal w). }
  assert (Journal.o_status s = Journal.STARTED) as Hst.
  { destruct Hs as [Hs|[Hs Hc]]; [done|]. rewrite bool_decide_eq_true_2 in Eb by done. cbn [andb] in Eb. apply orb_false_iff in Eb as [_ Eb].
    by rewrite bool_decide_eq_true_2 in Eb. }
  unfold raise_if. rewrite run_bind_lift, bool_decide_eq_false_2 by (intros Hn; by apply Hn). cbn [fail_if]. rewrite run_bind_lift.
  unfold Journal.integrity_if. rewrite Hlt. cbn [fail_if]. unfold Journal.commit. eexists _, _. split; [reflexivity|]. split; [split; [done|by right]|].
  cbn [Journal.sp_states]. split; [|intros k; apply dict_get_set].
  split; cbn [set_journal w_journal tick w_step Journal.sp_states]; [by apply dict_wf_set|]. intros k s'. rewrite dict_get_set. destruct (decide (op = k)) as [<-|].
  - intros [= <-]. cbn. split; [done|]. split; [done|]. intros n Hn. apply Hclock. lia.
  - intros Hk. destruct (Hw k s' Hk) as (H1 & H2 & H3). split; [done|]. split; [done|]. intros m Hm. apply H3. lia.
Qed.

(** An entry that finishes [op], with what it leaves of the others. *)
Lemma quiet_finish (P : worldT → Prop) Q (o : Z → Journal.op) op st code :
  (∀ c j, Journal.spec_run (o c) j = Journal.spec_finish c op st code None j) →
  (∀ w, P w → timely w ∧ ∃ s, dict_get (states w) op = Some s ∧ may_finish st code s) →
  (∀ (w : worldT) x j, P w → Journal.o_status x = st ∧ may_finish st code x → timely (set_journal j (tick w)) →
     (∀ k, dict_get (Journal.sp_states j) k = if decide (op = k) then Some x else dict_get (states w) k) → Q (set_journal j (tick w))) →
  triple P (journal (X := X) (T := T) (C := C) quiet clock o) (λ _, Q) never.
Proof.
  intros Ho HP HQ w Hw. destruct (HP w Hw) as (Ht & s & Hs & Hm). unfold journal. rewrite Ho.
  destruct (finish_answers w op st code s Ht Hs Hm) as (x & j & -> & Hx & Ht' & Hj). exact (HQ w x j Hw Hx Ht' Hj).
Qed.

(** Interrupted operations are failed one after the other. *)
Definition interrupted_code : string := "package.interrupted_before_prepare".
Definition waiting (l : list Journal.OperationState) (w : worldT) : Prop :=
  timely w ∧ ∀ s, s ∈ l → ∃ s', dict_get (states w) (Journal.o_operation_id s) = Some s' ∧ may_finish Journal.FAILED (Some interrupted_code) s'.

Lemma quiet_fail_interrupted l : triple (waiting l) (collect (fail_interrupted (X := X) (T := T) (C := C) quiet clock) l) (λ _, timely) never.
Proof.
  induction l as [|s l IH]; cbn [collect]; [by intros w [Hw _]|].
  apply (triple_bind _ (λ _, waiting l)); [|intros y; by apply (triple_bind _ (λ _, timely)); [|intros ys w]].
  unfold fail_interrupted. apply (triple_bind _ (λ _, waiting l)); [|by intros x w].
  apply (quiet_finish _ (waiting l) _ (Journal.o_operation_id s) Journal.FAILED (Some interrupted_code)).
  - done.
  - intros w [Ht Hw]. split; [done|]. apply Hw. by left.
  - intros w x j [_ Hw] [_ Hx] Ht Hj. split; [done|]. intros s' Hs'. cbn [set_journal w_journal]. rewrite Hj.
    destruct (decide _) as [|]; [by exists x|]. apply Hw. by right.
Qed.

Lemma pending_waiting (w : worldT) p : timely w →
  waiting (List.filter p (List.filter Journal.is_pending (dict_values (dict_sort (states w))))) w.
Proof.
  intros [Hwf Hw]. split; [done|]. intros s Hs. apply list_elem_of_In, filter_In in Hs as [Hs _]. apply filter_In in Hs as [Hs Hp].
  apply list_elem_of_In, list_elem_of_fmap in Hs as ([k s'] & -> & Hs). cbn in Hp |- *. apply (proj1 (elem_of_dict_sort _ _)) in Hs.
  apply (dict_get_in _ k s' Hwf) in Hs. destruct (Hw k s' Hs) as (Hid & _). rewrite Hid. exists s'. split; [done|]. left.
  unfold Journal.is_pending in Hp. by apply bool_decide_eq_true in Hp.
Qed.

(** ** Recovery *)

Abbreviation redo := (redo (C := C) (X := X) parse_record sha256_hex package_id_ok).
Abbreviation undo := (undo (C := C) (X := X) parse_record sha256_hex package_id_ok).
Abbreviation settled := (settled (T := T) (C := C) (X := X) parse_record).
Abbreviation cleanup := (cleanup_intent (X := X) sha256_hex package_id_ok quiet).

Lemma quiet_cleanup P A i : intent_ok i → triple P (cleanup i) (λ _, settled A) (λ _ _, True) →
  triple (λ w, P w ∧ timely w) (cleanup i) (λ _ w, settled A w ∧ timely w) never.
Proof.
  intros Hi Ht w0 [Hw0 Ht0]. assert (calm (at_journal (w_journal w0)) (cleanup i)) as Hc by (apply calm_cleanup; [apply at_journal_frame|exact Hi]).
  pose proof (calm_triple _ _ _ _ _ Ht Hc w0 (conj Hw0 (conj Ht0 eq_refl))) as Hr.
  destruct (cleanup i w0) as [[a|e] w']; [|exact Hr]. destruct Hr as [Hs [Ht' _]]. done.
Qed.

Lemma quiet_recover_committed A i st (w : worldT) : redo A i w → timely w → status_of w (i_operation_id i) = Some st →
  ∃ w', recover_committed parse_record dump_record package_id_ok quiet clock cleanup i st w = (Ok tt, w') ∧ settled A w' ∧ timely w'.
Proof.
  intros Hw Ht Hst. pose proof Hw as (Hi & _). unfold recover_committed. rewrite run_bind.
  pose proof (calm_postcondition (at_journal (w_journal w)) (at_journal_frame _) A i w (conj Hw (conj Ht eq_refl))) as Hp.
  destruct (postcondition _ _ _ _ i w) as [[ok|e] w1]; [|done]. destruct Hp as (-> & Hw1 & Ht1 & Hj1). cbn [negb].
  assert (triple (λ w, w = w1) (match st with Journal.STARTED => succeed quiet clock (i_operation_id i) | Journal.SUCCEEDED => mret tt
      | Journal.FAILED => lift (rejected "committed package intent conflicts with operation journal") end)
    (λ _ w, redo A i w ∧ timely w) never) as Hs.
  { unfold status_of in Hst. destruct (dict_get (states w) (i_operation_id i)) as [s|] eqn:Es; [|done]. cbn in Hst. injection Hst as <-.
    destruct (Journal.o_status s) eqn:Est.
    - unfold succeed. apply (triple_bind _ (λ _ w, redo A i w ∧ timely w)); [|by intros x w'].
      apply (quiet_finish _ _ _ (i_operation_id i) Journal.SUCCEEDED None); [done|..].
      + intros w' ->. split; [done|]. rewrite Hj1. exists s. split; [done|by left].
      + intros w' x j -> Hx Htj Hj. split; [|done]. destruct Hw1 as (H1 & H2 & H3 & H4 & H5 & H6 & H7 & H8 & _). parts.
        unfold not_failed, status_of. cbn. rewrite Hj, decide_True by done. cbn. destruct Hx as [-> _]; auto.
    - by intros w' ->.
    - intros w' ->. destruct Hw as (_ & _ & _ & _ & _ & _ & _ & _ & Hn). unfold not_failed, status_of in Hn. rewrite Es in Hn. cbn in Hn. rewrite Est in Hn.
      by destruct Hn. }
  match type of Hs with triple _ ?m _ _ => set (settle := m) in * end.
  specialize (Hs w1 eq_refl). rewrite run_bind. destruct (settle w1) as [[[]|e] w2]; [|done].
  assert (triple (redo A i) (cleanup i) (λ _, settled A) (λ _ _, True)) as Hc by (eapply triple_weaken; [apply cleanup_redo|done|done]).
  pose proof (quiet_cleanup _ A i Hi Hc w2 Hs) as Hf. destruct (cleanup i w2) as [[[]|e] w3]; [|done]. by exists w3.
Qed.

Lemma quiet_mark_failed (P : worldT → Prop) op code :
  (∀ w, P w → timely w ∧ Journal.validate_operation_id op = Ok op) → Journal.validate_error_code code = Ok code →
  (∀ (w : worldT) j, P w → timely (set_journal j (tick w)) → now_is op Journal.FAILED (w_journal w) j → P (set_journal j (tick w))) →
  triple P (mark_failed (C := C) quiet clock op code) (λ _, P) never.
Proof.
  intros HP Hcode Hj w Hw. destruct (HP w Hw) as [Ht Hv]. unfold mark_failed. rewrite run_bind. unfold journal_state. rewrite run_bind_lift, Hv. cbn [gets].
  destruct (dict_get (states w) op) as [s|] eqn:Es; [|done]. destruct (bool_decide (Journal.o_status s = Journal.STARTED)) eqn:Eb; [|done].
  apply bool_decide_eq_true in Eb. revert w Hw Ht Es.
  assert (triple (λ w, P w ∧ dict_get (states w) op = Some s) (journal (X := X) (T := T) (C := C) quiet clock (λ c, Journal.OpFail c op code None)) (λ _, P) never) as Hf.
  { apply (quiet_finish _ P _ op Journal.FAILED (Some code)).
    - intros c j. cbn [Journal.spec_run]. by rewrite run_bind_lift, Hcode.
    - intros w [Hw Es]. split; [apply (HP w Hw)|]. exists s. split; [done|by left].
    - intros w x j [Hw Es] Hx Ht Hg. apply Hj; [done|done|]. split; [|intros k Hk; by rewrite Hg, decide_False by congruence].
      rewrite Hg, decide_True by done. destruct Hx as [Hx _]. cbn. by rewrite Hx. }
  intros w Hw _ Es. apply (triple_bind _ (λ _, P) _ _ (λ _, P) never Hf); [by intros x w'|by split].
Qed.

Lemma quiet_recover_uncommitted A i st (w : worldT) : undo A i w → timely w → status_of w (i_operation_id i) = Some st →
  ∃ w', recover_uncommitted dump_record sha256_hex package_id_ok quiet clock cleanup i st w = (Ok tt, w') ∧ settled A w' ∧ timely w'.
Proof.
  intros Hw Ht Hst. pose proof Hw as (Hi & _ & _ & _ & _ & _ & Hnd). unfold journal_ok in Hnd. unfold recover_uncommitted. rewrite run_bind_lift.
  rewrite bool_decide_eq_false_2 by (intros ->; unfold not_done in Hnd; rewrite Hst in Hnd; by destruct Hnd).
  rewrite run_bind.
  pose proof (calm_triple _ _ _ _ _ (rollback_intent_triple (λ _ _, Ok true) "" _ _ _ _ (λ _ _, Ok true) quiet parse_dump dump_current false A i)
    (calm_rollback (at_journal (w_journal w)) (at_journal_frame _) i Hi) w (conj Hw (conj Ht eq_refl))) as Hr.
  destruct (rollback_intent _ _ _ _ i w) as [[j|e] w1]; [|done]. destruct Hr as ((-> & Hu & Hd) & Ht1 & Hj1).
  set (P := λ w, (undone parse_record sha256_hex package_id_ok A i w ∧ on_disk sha256_hex (with_phase ROLLED_BACK i) w) ∧ timely w).
  assert (triple P (mark_failed (C := C) quiet clock (i_operation_id i) "package.recovered_rollback") (λ _, P) never) as Hm.
  { apply quiet_mark_failed; [|done|].
    - intros w' [_ Ht']. split; [done|]. apply Hi.
    - intros w' j [[(Hu' & Hr' & Hs' & Hg') Hd'] _] Ht' Hn. split; [|done]. split; [|done]. split; [by apply undo_journal|done]. }
  specialize (Hm w1 ltac:(by split)). rewrite run_bind. destruct (mark_failed _ _ _ _ w1) as [[[]|e] w2]; [|done]. destruct Hm as [Hu2 Ht2].
  change (cleanup (with_phase ROLLED_BACK i)) with (cleanup i).
  assert (triple (λ w, undone parse_record sha256_hex package_id_ok A i w ∧ on_disk sha256_hex (with_phase ROLLED_BACK i) w) (cleanup i) (λ _, settled A) (λ _ _, True)) as Hc.
  { eapply triple_weaken; [apply (cleanup_undone _ _ _ _ A i ROLLED_BACK)|done|done]. }
  pose proof (quiet_cleanup _ A i Hi Hc w2 (conj Hu2 Ht2)) as Hf. destruct (cleanup i w2) as [[[]|e] w3]; [|done]. by exists w3.
Qed.

Lemma quiet_recover_intent A i (w : worldT) : undo A i w ∨ redo A i w → timely w →
  ∃ op w', recover_intent parse_record dump_record sha256_hex package_id_ok quiet clock cleanup (path_of sha256_hex i) w = (Ok op, w') ∧ settled A w' ∧ timely w'.
Proof.
  intros Hw Ht.
  assert (intent_ok i ∧ ∃ p st, on_disk sha256_hex (with_phase p i) w ∧ status_of w (i_operation_id i) = Some st ∧ (p ≠ COMMITTED ∧ undo A i w ∨ p = COMMITTED ∧ redo A i w))
    as (Hi & p & st & Hd & Hst & Hcase).
  { destruct Hw as [Hw|Hw]; pose proof Hw as (Hi & _ & Hx & _ & _ & Hy).
    - destruct Hx as (p & Hp & Hd). destruct Hy as [_ [Hs|Hs]]; (split; [done|]); exists p; eexists; (split; [done|]); (split; [exact Hs|]); by left.
    - destruct Hy as (_ & _ & _ & [Hs|Hs]); (split; [done|]); exists COMMITTED; eexists; (split; [done|]); (split; [exact Hs|]); by right. }
  unfold recover_intent. rewrite run_bind. unfold read_intent. rewrite run_bind_get.
  assert (w_intents w !! path_of sha256_hex i = Some (with_phase p i)) as -> by (unfold on_disk in Hd; rewrite Hd; apply lookup_singleton_eq).
  change (i_operation_id (with_phase p i)) with (i_operation_id i). rewrite run_bind_lift, (intent_path_run _ package_id_ok), String.eqb_refl by done. cbn [mret M_ret].
  change (i_operation_id (with_phase p i)) with (i_operation_id i).
  rewrite run_bind. unfold journal_state. rewrite run_bind_lift, (io_journal_op _ _ i Hi). cbn [gets].
  pose proof Hst as Hst'. unfold status_of in Hst'. destruct (dict_get (states w) (i_operation_id i)) as [s|]; [|done]. cbn in Hst'. injection Hst' as Hs.
  rewrite run_bind. change (i_phase (with_phase p i)) with p. rewrite Hs. destruct Hcase as [[Hp Hu]|[-> Hr]].
  - rewrite bool_decide_eq_false_2 by done. destruct (quiet_recover_uncommitted A i st w Hu Ht Hst) as (w' & E & Hf).
    change (recover_uncommitted dump_record sha256_hex package_id_ok quiet clock cleanup (with_phase p i))
      with (recover_uncommitted dump_record sha256_hex package_id_ok quiet clock cleanup i). rewrite E. by exists (i_operation_id i), w'.
  - rewrite bool_decide_eq_true_2 by done. destruct (quiet_recover_committed A i st w Hr Ht Hst) as (w' & E & Hf).
    change (recover_committed parse_record dump_record package_id_ok quiet clock cleanup (with_phase COMMITTED i))
      with (recover_committed parse_record dump_record package_id_ok quiet clock cleanup i). rewrite E. by exists (i_operation_id i), w'.
Qed.

(** Recovery refuses a committed transaction without its evidence. *)
Abbreviation stuck := (stuck (C := C) (X := X) parse_record sha256_hex package_id_ok).
Definition refused : result (list string) := rejected "committed package postcondition is invalid; recovery is required".

Lemma quiet_recover_stuck i (w : worldT) : stuck_at parse_record sha256_hex package_id_ok i w → timely w →
  ∃ w', recover_intent parse_record dump_record sha256_hex package_id_ok quiet clock cleanup (path_of sha256_hex i) w =
      (rejected "committed package postcondition is invalid; recovery is required", w') ∧ stuck w'.
Proof.
  intros Hw Ht. pose proof Hw as (Hi & Hd & Hs & R & Hr & _). unfold recover_intent. rewrite run_bind, (read_intent_run sha256_hex package_id_ok i COMMITTED) by done.
  change (i_operation_id (with_phase COMMITTED i)) with (i_operation_id i). rewrite run_bind. unfold journal_state. rewrite run_bind_lift, (io_journal_op _ _ i Hi). cbn [gets].
  unfold status_of in Hs. destruct (dict_get (states w) (i_operation_id i)) as [st|]; [|by destruct Hs].
  rewrite run_bind. change (i_phase (with_phase COMMITTED i)) with COMMITTED. rewrite bool_decide_eq_true_2 by done.
  change (recover_committed parse_record dump_record package_id_ok quiet clock cleanup (with_phase COMMITTED i))
    with (recover_committed parse_record dump_record package_id_ok quiet clock cleanup i).
  unfold recover_committed. rewrite run_bind.
  pose proof (stuck_postcondition parse_record dump_record sha256_hex package_id_ok quiet parse_dump dump_current i w Hw) as Hp.
  pose proof (calm_post (at_journal (w_journal w)) (at_journal_frame _) R i Hi w (conj Hr (conj Ht eq_refl))) as Hc.
  destruct (postcondition _ _ _ _ i w) as [[ok|e] w1]; [|done]. destruct Hp as [-> Hp]. exists w1. split; [done|]. apply stuck_is_at. by exists i.
Qed.

Lemma quiet_recover L A (w : worldT) : rep_or parse_record sha256_hex package_id_ok L A w → timely w →
  (∃ ids w', recover_locked parse_record dump_record sha256_hex package_id_ok quiet clock cleanup w = (Ok ids, w') ∧ settled A w') ∨
  (L ∧ ∃ w', recover_locked parse_record dump_record sha256_hex package_id_ok quiet clock cleanup w = (refused, w') ∧ stuck w').
Proof.
  intros Hw Ht.
  assert (∀ done (w : worldT), settled A w → timely w → ∃ ids w', (waiting ← journal_pending;
      failed ← collect (fail_interrupted quiet clock) (List.filter (interrupted done) waiting); mret (sort_by id (remove_dups (done ++ failed)))) w = (Ok ids, w')) as Hrest.
  { intros done w1 Hs1 Ht1. rewrite run_bind. cbn [journal_pending gets]. rewrite run_bind.
    pose proof (quiet_fail_interrupted _ w1 (pending_waiting w1 (interrupted done) Ht1)) as Hf.
    destruct (collect _ _ w1) as [[failed|e] w2]; [by eexists _, _|done]. }
  assert (∀ ids w', recover_locked parse_record dump_record sha256_hex package_id_ok quiet clock cleanup w = (Ok ids, w') → settled A w') as Hok.
  { intros ids w' E.
    pose proof (recover_locked_triple (L := L) (λ _ _, Ok true) "" parse_record dump_record sha256_hex package_id_ok (λ _ _, Ok true) quiet clock parse_dump dump_current A w Hw) as Hs.
    by rewrite E in Hs. }
  assert (∀ ids, (∃ w', recover_locked parse_record dump_record sha256_hex package_id_ok quiet clock cleanup w = (Ok ids, w')) →
    ∃ ids w', recover_locked parse_record dump_record sha256_hex package_id_ok quiet clock cleanup w = (Ok ids, w') ∧ settled A w') as Hdone.
  { intros ids [w' E]. exists ids, w'. split; [exact E|exact (Hok ids w' E)]. }
  destruct (paths_of_intents (L := L) parse_record sha256_hex package_id_ok A w Hw) as [[Hs Hp]|[(i & Hi & Hp)|(i & HL & Hi & Hp)]].
  - left. destruct (Hrest [] w Hs Ht) as (ids & w' & E). apply (Hdone ids). exists w'.
    unfold recover_locked. rewrite run_bind. cbn [gets]. rewrite Hp. exact E.
  - left. destruct (quiet_recover_intent A i w Hi Ht) as (op & w1 & E1 & Hs1 & Ht1). destruct (Hrest [op] w1 Hs1 Ht1) as (ids & w' & E).
    apply (Hdone ids). exists w'. unfold recover_locked. rewrite run_bind. cbn [gets]. rewrite Hp. cbn [collect]. rewrite !run_bind, E1. exact E.
  - right. split; [done|]. destruct (quiet_recover_stuck i w Hi Ht) as (w' & E & Hs'). exists w'. split; [|done].
    unfold recover_locked. rewrite run_bind. cbn [gets]. rewrite Hp. cbn [collect]. by rewrite !run_bind, E.
Qed.
End progress.

(** ** What every call does to the journal *)

Section journaled.
Context {T C X : Type} `{PackageManifest T} `{!EqDecision T}
  (specifier_contains : string → string → result bool) (core_version : string)
  (parse_record : json → result (PackageRecord T)) (dump_record : PackageRecord T → json)
  (sha256_hex : string → string) (package_id_ok : string → bool)
  (m_type : T → string) (has_migrations : T → bool) (version_le : string → string → result bool)
  (given_protected : gset string) (cb : callbacks T C)
  (oracle : nat → label → fault C) (clock : nat → Z).
Abbreviation worldT := (world T C X).
Context (I : worldT → Prop).

(** An entry at the time it is made. *)
Definition dated (o : Z → Journal.op) : Prop := ∀ c,
  match o c with
  | Journal.OpBegin c' _ _ _ now | Journal.OpRetry c' _ now | Journal.OpSucceed c' _ now | Journal.OpFail c' _ _ now => c' = c ∧ now = None
  end.

(** Steps of the base class leave the rest of a subclass alone. *)
Definition same_rest (w w' : worldT) : Prop := w_journal w' = w_journal w ∧ w_ext w' = w_ext w.

Hypothesis I_frame : ∀ w w' : worldT, same_rest w w' → I w → I w'.
Hypothesis I_journal : ∀ (w : worldT) o n x j, dated o → Journal.spec_run (o (clock n)) (w_journal w) = (Ok x, j) → I w → I (set_journal j w).

Lemma durable_preserves l full part : (∀ w, same_rest w (full w)) → (∀ t w, same_rest w (part t w)) →
  preserves I (durable (X := X) (T := T) oracle l full part).
Proof.
  intros Hf Hp. apply preserves_durable.
  - intros w. by apply I_frame.
  - intros w. by apply I_frame.
  - intros t w. by apply I_frame.
Qed.

Lemma atomic_preserves l full : (∀ w, same_rest w (full w)) → preserves I (atomic (X := X) (T := T) oracle l full).
Proof. intros Hf. by apply durable_preserves. Qed.

Lemma or_else_preserves {A} (m k : M worldT A) : preserves I m → preserves I k → preserves I (or_else m k).
Proof. intros Hm Hk. apply preserves_try; [exact Hm|]. intros e k'. by destruct (caught e); [intros [= <-]|]. Qed.

Lemma journal_preserves o : dated o → preserves I (journal (X := X) (T := T) oracle clock o).
Proof.
  intros Ho w Hw. unfold post, journal. pose proof (I_journal w o (w_step w)) as Hj.
  assert (I (tick w)) as Ht by by apply (I_frame w).
  destruct (Journal.spec_run (o (clock (w_step w))) (w_journal w)) as [[x|e] j]; [|exact Ht].
  specialize (Hj x j Ho eq_refl Hw). assert (I (set_journal j (tick w))) as Hj' by by apply (I_frame (set_journal j w)).
  rewrite run_bind. unfold atomic, durable. by destruct (oracle (w_step w) LJournal) as [|[]|[]].
Qed.

(** The rules, down to the steps. *)
Ltac journaled_step :=
  match goal with
  | |- preserves _ (get_st ≫= _) => apply preserves_get; intros ?
  | |- preserves _ (_ ≫= _) => apply preserves_bind; [|intros ?]
  | |- preserves _ (mret _) => apply preserves_ret
  | |- preserves _ (lift _) => apply preserves_lift
  | |- preserves _ (gets _) => apply preserves_gets
  | |- preserves _ (or_else _ _) => apply or_else_preserves
  | |- preserves _ (when _ _) => apply preserves_when
  | |- preserves _ (journal _ _ _) => apply journal_preserves; by intros ?
  | |- preserves _ (atomic _ _ _) => apply atomic_preserves; done
  | |- preserves _ (durable _ _ _ _) => apply durable_preserves; [done|intros ? ?; repeat (case_match; try done)]
  | |- preserves _ (match ?x with _ => _ end) => destruct x
  end.

Lemma move_preserves {A} (f : worldT → option A) (m : A → M worldT unit) e :
  (∀ x, preserves I (m x)) → preserves I (λ w, match f w with Some x => m x w | None => (Err e, w) end).
Proof. intros Hm w Hw. unfold post. destruct (f w) as [x|]; [by apply (Hm x)|done]. Qed.

Lemma mark_failed_preserves op code : preserves I (mark_failed (X := X) (T := T) oracle clock op code).
Proof. unfold mark_failed, journal_state. repeat journaled_step. Qed.

Lemma refuse_preserves {A} op code msg : preserves I (refuse (A := A) (X := X) (T := T) oracle clock op code msg).
Proof. unfold refuse. apply preserves_bind; [apply mark_failed_preserves|]. intros []. apply preserves_lift. Qed.

Lemma begin_preserves op action target : preserves I (begin_operation (X := X) (T := T) oracle clock op action target).
Proof. unfold begin_operation. repeat journaled_step. Qed.

Lemma read_preserves : preserves I (read_records (X := X) (C := C) parse_record dump_record oracle).
Proof. unfold read_records, write_records. repeat journaled_step. Qed.

Lemma write_intent_preserves i : preserves I (write_intent (X := X) sha256_hex oracle i).
Proof. unfold write_intent. repeat journaled_step. Qed.

Lemma backup_to_package_preserves b n : preserves I (backup_to_package (X := X) (T := T) oracle b n).
Proof. apply move_preserves. intros x. by apply atomic_preserves. Qed.

Lemma package_to_backup_preserves n b : preserves I (package_to_backup (X := X) (T := T) oracle n b).
Proof. apply move_preserves. intros x. by apply atomic_preserves. Qed.

Lemma stage_to_package_preserves s n : preserves I (stage_to_package (X := X) (T := T) oracle s n).
Proof. apply move_preserves. intros x. by apply atomic_preserves. Qed.

Lemma rollback_preserves i : preserves I (rollback_intent (X := X) dump_record sha256_hex package_id_ok oracle i).
Proof.
  unfold rollback_intent, rollback_files, drop_stage, remove_stage, remove_package, write_records.
  repeat first [apply write_intent_preserves | apply backup_to_package_preserves | journaled_step].
Qed.

Lemma cleanup_preserves i : preserves I (cleanup_intent (X := X) sha256_hex package_id_ok oracle i).
Proof. unfold cleanup_intent, drop_stage, drop_backup, remove_stage, remove_backup. repeat journaled_step. Qed.

Abbreviation cleanup := (cleanup_intent (X := X) sha256_hex package_id_ok oracle).

Lemma rollback_and_fail_preserves i code : preserves I (rollback_and_fail dump_record sha256_hex package_id_ok oracle clock cleanup i code).
Proof. unfold rollback_and_fail. repeat first [apply rollback_preserves | apply mark_failed_preserves | apply cleanup_preserves | journaled_step]. Qed.

Lemma apply_files_preserves i : preserves I (apply_files (X := X) sha256_hex package_id_ok oracle i).
Proof. unfold apply_files. repeat first [apply package_to_backup_preserves | apply stage_to_package_preserves | journaled_step]. Qed.

Lemma apply_preserves i : preserves I (apply_intent (X := X) dump_record sha256_hex package_id_ok has_migrations cb oracle i).
Proof.
  unfold apply_intent, apply_migrations, inject, write_records.
  repeat first [apply write_intent_preserves | apply apply_files_preserves | journaled_step].
Qed.

Lemma execute_preserves i : preserves I (execute dump_record sha256_hex package_id_ok has_migrations cb oracle clock cleanup i).
Proof.
  unfold execute, persist_intent, inject, succeed.
  repeat first [apply write_intent_preserves | apply refuse_preserves | apply apply_preserves | apply rollback_and_fail_preserves | apply cleanup_preserves | journaled_step].
Qed.

Lemma postcondition_preserves i : preserves I (postcondition (X := X) parse_record dump_record package_id_ok oracle i).
Proof. unfold postcondition. repeat first [apply read_preserves | journaled_step]. Qed.

Lemma succeed_preserves op : preserves I (succeed (X := X) (T := T) oracle clock op).
Proof. unfold succeed. repeat journaled_step. Qed.

Lemma recover_intent_preserves path : preserves I (recover_intent parse_record dump_record sha256_hex package_id_ok oracle clock cleanup path).
Proof.
  unfold recover_intent, read_intent, journal_state, recover_committed, recover_uncommitted.
  repeat first [apply postcondition_preserves | apply succeed_preserves | apply rollback_preserves | apply mark_failed_preserves | apply cleanup_preserves | journaled_step].
Qed.

Lemma collect_preserves {A B} (f : A → M worldT B) l : (∀ x, preserves I (f x)) → preserves I (collect f l).
Proof. intros Hf. induction l as [|x l IH]; cbn [collect]; repeat first [apply Hf | exact IH | journaled_step]. Qed.

Lemma recover_preserves : preserves I (recover_locked parse_record dump_record sha256_hex package_id_ok oracle clock cleanup).
Proof.
  unfold recover_locked, journal_pending. apply preserves_bind; [apply preserves_gets|]. intros paths.
  apply preserves_bind; [apply collect_preserves, recover_intent_preserves|]. intros done. apply preserves_bind; [apply preserves_gets|]. intros waiting.
  apply preserves_bind; [|intros failed; apply preserves_ret]. apply collect_preserves. intros x. unfold fail_interrupted. repeat journaled_step.
Qed.

Abbreviation self := (transactional parse_record dump_record sha256_hex package_id_ok has_migrations cb oracle clock).

Lemma if_rejected_preserves {A} op code (r : result A) : preserves I (if_rejected (X := X) (T := T) oracle clock op code r).
Proof. unfold if_rejected. repeat first [apply mark_failed_preserves | journaled_step]. Qed.

Lemma failed_with_rollback_preserves i code msg m : preserves I m →
  preserves I (failed_with_rollback dump_record sha256_hex package_id_ok oracle clock self i code msg m).
Proof. intros Hm. unfold failed_with_rollback. repeat first [exact Hm | apply rollback_and_fail_preserves | journaled_step]. Qed.

Lemma extract_preserves a n : preserves I (extract (X := X) oracle a n).
Proof. intros w Hw. unfold post, extract. destruct (w_stage w !! n); [exact Hw|]. by apply durable_preserves. Qed.

Lemma stage_preserves i a before : preserves I (stage_artifact (X := X) sha256_hex package_id_ok cb oracle i a before).
Proof.
  unfold stage_artifact, write_artifact_marker. repeat first [apply extract_preserves | journaled_step].
Qed.

Lemma check_update_preserves op a e : preserves I (check_update (X := X) package_id_ok m_type version_le cb oracle clock op a e).
Proof. unfold check_update. repeat first [apply refuse_preserves | journaled_step]. Qed.

Lemma install_preserves op action v :
  preserves I (install_or_update specifier_contains core_version parse_record dump_record sha256_hex package_id_ok m_type version_le cb oracle clock self op action v).
Proof.
  unfold install_or_update, replay_artifact, check_destination, inject.
  repeat first [apply recover_preserves | apply begin_preserves | apply read_preserves | apply refuse_preserves | apply check_update_preserves | apply if_rejected_preserves
    | apply write_intent_preserves | apply failed_with_rollback_preserves | apply stage_preserves | apply execute_preserves | journaled_step].
Qed.

Lemma require_installed_preserves op id before : preserves I (require_installed (X := X) package_id_ok oracle clock op id before).
Proof. unfold require_installed. repeat first [apply refuse_preserves | apply if_rejected_preserves | journaled_step]. Qed.

Lemma state_validator_preserves op id action r before : preserves I (run_state_validator (X := X) cb oracle clock op id action r before).
Proof. unfold run_state_validator. repeat first [apply if_rejected_preserves | journaled_step]. Qed.

Lemma state_change_preserves op id action :
  preserves I (state_change specifier_contains parse_record dump_record sha256_hex package_id_ok given_protected cb oracle clock self op id action).
Proof.
  unfold state_change, replay_state, check_enable, check_disable.
  repeat first [apply recover_preserves | apply begin_preserves | apply read_preserves | apply refuse_preserves | apply require_installed_preserves
    | apply state_validator_preserves | apply if_rejected_preserves | apply execute_preserves | journaled_step].
Qed.

Lemma uninstall_preserves op id :
  preserves I (uninstall parse_record dump_record sha256_hex package_id_ok given_protected cb oracle clock self op id).
Proof.
  unfold uninstall, release. cbn [v_release_durable_ownership transactional].
  repeat first [apply recover_preserves | apply begin_preserves | apply read_preserves | apply refuse_preserves | apply require_installed_preserves
    | apply state_validator_preserves | apply execute_preserves | journaled_step].
Qed.

Abbreviation run_calls := (run_calls specifier_contains core_version parse_record dump_record sha256_hex package_id_ok m_type has_migrations version_le given_protected cb oracle clock).

Lemma calls_preserve cs (w : worldT) : I w → I (run_calls cs w).
Proof.
  intros Hw. induction cs as [|c cs IH] using rev_ind; [exact Hw|]. unfold LifecycleLaws.run_calls. rewrite foldl_snoc. fold (run_calls cs w).
  assert (preserves I (run_call specifier_contains core_version parse_record dump_record sha256_hex package_id_ok m_type has_migrations version_le given_protected cb oracle clock c)) as Hc.
  { destruct c; cbn [run_call]; (apply preserves_bind; [|intros r; apply preserves_ret]);
      [apply install_preserves|apply install_preserves|apply state_change_preserves|apply state_change_preserves|apply uninstall_preserves|apply recover_preserves]. }
  exact (Hc _ IH).
Qed.
End journaled.

(** ** Recovery after any calls *)

Section recovery.
Context {T C X : Type} `{PackageManifest T} `{!EqDecision T}
  (specifier_contains : string → string → result bool) (core_version : string)
  (parse_record : json → result (PackageRecord T)) (dump_record : PackageRecord T → json)
  (sha256_hex : string → string) (package_id_ok : string → bool)
  (m_type : T → string) (has_migrations : T → bool) (version_le : string → string → result bool)
  (given_protected : gset string) (cb : callbacks T C)
  (oracle : nat → label → fault C) (clock clock' : nat → Z) (bound : Z).
Abbreviation worldT := (world T C X).

Hypothesis parse_dump : ∀ r, parse_record (dump_record r) = Ok r.
Hypothesis dump_current : ∀ r, legacy_record_payload (dump_record r) = None.
Hypothesis clock_bound : ∀ n, (clock n ≤ bound)%Z.
Hypothesis clock_later : ∀ n, (bound ≤ clock' n)%Z ∧ dt_in_range (clock' n) = true.

(** The journal is one that its operations wrote, by [bound]. *)
Definition recorded (w : worldT) : Prop :=
  dict_wf (Journal.sp_states (w_journal w)) ∧
  ∀ k s, dict_get (Journal.sp_states (w_journal w)) k = Some s →
    Journal.o_operation_id s = k ∧ Journal.validate_operation_id k = Ok k ∧ (HashChain.st_us (Journal.o_started_at s) ≤ bound)%Z.

Lemma recorded_commit (w : worldT) op s n : recorded w → Journal.validate_operation_id op = Ok op → Journal.o_operation_id s = op →
  (HashChain.st_us (Journal.o_started_at s) ≤ bound)%Z → recorded (set_journal (Journal.Spec n (dict_set (Journal.sp_states (w_journal w)) op s)) w).
Proof.
  intros [Hwf Hw] Hv Hid Hs. split; cbn [set_journal w_journal Journal.sp_states]; [by apply dict_wf_set|]. intros k s'. rewrite dict_get_set.
  destruct (decide (op = k)) as [<-|]; [by intros [= <-]|apply Hw].
Qed.

Lemma valid_journal_op op op' : Journal.validate_operation_id op = Ok op' → op' = op ∧ Journal.validate_operation_id op = Ok op.
Proof. unfold Journal.validate_operation_id. destruct (fullmatch _ op); [by intros [= ->]|done]. Qed.

Lemma timestamp_now n us : Journal.timestamp_of (clock n) None = Ok us → (us ≤ bound)%Z.
Proof.
  unfold Journal.timestamp_of, Journal.as_utc, as_utc_msg, or_default, astimezone_utc. destruct (dt_in_range (clock n)); [|done]. intros [= <-]. apply clock_bound.
Qed.

Lemma recorded_finish (w : worldT) n op st code x j : recorded w →
  Journal.spec_finish (clock n) op st code None (w_journal w) = (Ok x, j) → recorded (set_journal j w).
Proof.
  intros Hw. unfold Journal.spec_finish. rewrite run_bind_lift. destruct (Journal.validate_operation_id op) as [op'|] eqn:Ev; [|done].
  destruct (valid_journal_op _ _ Ev) as [-> Hv]. rewrite run_bind_lift. destruct (Journal.timestamp_of (clock n) None) as [us|]; [|done].
  rewrite run_bind_get, run_bind_lift. unfold Journal.require_state. destruct (dict_get _ op) as [cur|] eqn:Ec; [|done].
  destruct (bool_decide (Journal.o_status cur = st) && _); [by intros [= _ <-]|]. unfold raise_if. rewrite run_bind_lift. destruct (fail_if _ _ _); [|done].
  rewrite run_bind_lift. destruct (Journal.integrity_if _ _); [|done]. unfold Journal.commit. intros [= _ <-]. destruct Hw as [Hwf Hw].
  destruct (Hw op cur Ec) as (Hid & _ & Hb). by apply recorded_commit.
Qed.

Lemma recorded_run (w : worldT) o n x j : dated o → Journal.spec_run (o (clock n)) (w_journal w) = (Ok x, j) → recorded w → recorded (set_journal j w).
Proof.
  intros Ho Hr Hw. specialize (Ho (clock n)). revert Hr. destruct (o (clock n)) as [c op action target now|c op now|c op now|c op code now];
    destruct Ho as [-> ->]; cbn [Journal.spec_run].
  - unfold Journal.spec_begin. rewrite run_bind_lift. destruct (Journal.validate_operation_id op) as [op'|] eqn:Ev; [|done].
    destruct (valid_journal_op _ _ Ev) as [-> Hv]. rewrite run_bind_lift. destruct (Journal.validate_name _ _); [|done].
    rewrite run_bind_lift. destruct (Journal.validate_target _); [|done]. rewrite run_bind_lift.
    destruct (Journal.timestamp_of (clock n) None) as [us|] eqn:Eu; [|done]. rewrite run_bind_get. destruct (dict_get _ op) as [cur|].
    + rewrite run_bind_lift. destruct (Journal.require_same_operation _ _ _); [|done]. by intros [= _ <-].
    + unfold Journal.commit. intros [= _ <-]. apply recorded_commit; [done..|]. by apply (timestamp_now n).
  - unfold Journal.spec_retry. rewrite run_bind_lift. destruct (Journal.validate_operation_id op) as [op'|] eqn:Ev; [|done].
    destruct (valid_journal_op _ _ Ev) as [-> Hv]. rewrite run_bind_lift.
    destruct (Journal.timestamp_of (clock n) None) as [us|] eqn:Eu; [|done]. rewrite run_bind_get, run_bind_lift.
    unfold Journal.require_state. destruct (dict_get _ op) as [cur|]; [|done]. destruct (Journal.o_status cur); [by intros [= _ <-]|done|].
    unfold raise_if. rewrite run_bind_lift. destruct (fail_if _ _ _); [|done]. unfold Journal.commit. intros [= _ <-].
    apply recorded_commit; [done..|]. by apply (timestamp_now n).
  - by apply recorded_finish.
  - rewrite run_bind_lift. destruct (Journal.validate_error_code code); [|done]. by apply recorded_finish.
Qed.

Lemma recorded_timely (w : worldT) : recorded w → timely clock' w.
Proof.
  intros [Hwf Hw]. split; [done|]. intros k s Hk. destruct (Hw k s Hk) as (Hid & Hv & Hb). split; [done|]. split; [done|]. intros n _.
  destruct (clock_later n) as [Hl Hr]. exists (clock' n). split.
  - unfold Journal.timestamp_of, Journal.as_utc, as_utc_msg, or_default, astimezone_utc. by rewrite Hr.
  - unfold Journal.stamp_lt. cbn. apply Z.ltb_ge. lia.
Qed.

Abbreviation run_calls := (run_calls (X := X) specifier_contains core_version parse_record dump_record sha256_hex package_id_ok m_type has_migrations version_le given_protected cb oracle clock).

(** C2: Recovery completes. After any sequence of package lifecycle calls whose steps fail in any way and whose processes end
    anywhere, a recovery in which no step fails, by a clock that is not behind the journal, answers: its checks (phases, paths, journal states and the evidence of a
    committed transaction) do not refuse the state that the manager left, and it leaves no intent, no staged and no replaced directory.
    There is one exception, for which the steps that fail must include a write of the commit marker that raises although the marker is in place: the roll back that
    follows may have taken the evidence of the committed intent away. Recovery then refuses, and leaves a state of that kind again.
    (pydantic is taken to read back the records that it dumped, which have no key of earlier versions.) *)
Theorem recovery_completes A cs (w : worldT) :
  settled parse_record A w → recorded w →
  let last := recover (transactional parse_record dump_record sha256_hex package_id_ok has_migrations cb quiet clock') (run_calls cs w) in
  (∃ A' ids w', history specifier_contains core_version m_type has_migrations version_le given_protected cb oracle A cs A' ∧
     last = (Ok ids, w') ∧ settled parse_record A' w') ∨
  (late_marker oracle ∧ ∃ w', last = (refused, w') ∧ stuck parse_record sha256_hex package_id_ok w').
Proof.
  intros Hw Hr.
  destruct (calls_rep specifier_contains core_version parse_record dump_record sha256_hex package_id_ok m_type has_migrations version_le given_protected cb
    oracle clock parse_dump dump_current A cs w) as (A' & Hh & Hrep); [by left|].
  assert (recorded (run_calls cs w)) as Hrec.
  { apply (calls_preserve specifier_contains core_version parse_record dump_record sha256_hex package_id_ok m_type has_migrations version_le given_protected cb oracle clock);
      [|intros w0 o n x j; apply recorded_run|exact Hr].
    intros w1 w2 [E _]. unfold recorded. by rewrite E. }
  destruct (quiet_recover parse_record dump_record sha256_hex package_id_ok clock' parse_dump dump_current _ A' _ Hrep (recorded_timely _ Hrec))
    as [(ids & w' & E & Hs)|(HL & w' & E & Hs)]; [left; by exists A', ids, w'|right; split; [done|by exists w']].
Qed.
End recovery.

(** The story of [LifecycleLaws], recovered by the wall clock of the next day. *)
Lemma recovery_completes_witness :
  let last := recover (transactional demo_parse demo_dump demo_hex (λ _, true) (λ _, false) demo_callbacks quiet (λ _, 86400000000%Z))
    (run_calls demo_contains "1" demo_parse demo_dump demo_hex (λ _, true) (λ _, "app") (λ _, false) (λ _ _, Ok false) ∅ demo_callbacks demo_faults (λ n, Z.of_nat (Nat.min n 40)) demo_story demo_empty) in
  last.1 = Ok ["operation-3"] ∧ demo_view last.2 = (Ok [], [], (0, 0, 0)) ∧
  ((∃ A' ids w', history demo_contains "1" (λ _, "app") (λ _, false) (λ _ _, Ok false) ∅ demo_callbacks demo_faults (∅, ∅) demo_story A' ∧
      last = (Ok ids, w') ∧ settled demo_parse A' w') ∨
   (late_marker demo_faults ∧ ∃ w', last = (refused, w') ∧ stuck demo_parse demo_hex (λ _, true) w')).
Proof.
  split; [vm_compute; reflexivity|]. split; [vm_compute; reflexivity|].
  apply (recovery_completes demo_contains "1" demo_parse demo_dump demo_hex (λ _, true) (λ _, "app") (λ _, false) (λ _ _, Ok false) ∅ demo_callbacks
    demo_faults (λ n, Z.of_nat (Nat.min n 40)) (λ _, 86400000000%Z) 40 demo_parse_dump demo_dump_current).
  - intros n. lia.
  - intros n. split; [lia|vm_compute; reflexivity].
  - exact demo_empty_settled.
  - split; [constructor|done].
Defined.
End LifecycleProgress.
