(* ===== verification/PackageSql.v ===== *)
(** * SQL in package transactions (package_sql_recovery.py, package_sql_lifecycle.py)

    [CrashAtomicPackageManager]: the package lifecycle with one prepared transaction of a
    database as a participant.  A record of the participant is kept beside the intent; from
    it, the local phase and the presence of the prepared transaction, recovery
    decides what becomes of the database.  The coordinator of the database
    is a parameter whose calls take place at a step and may raise or be the
    last thing the process does. *)

From Stdlib Require Import Ascii ZArith Lia.
From stdpp Require Import base decidable numbers list strings gmap sets.
From S2P Require Import Prelude PyData Regex JsonGraph HashChain OperationJournal Dependencies Packages PackageLifecycle.

Module PackageSql.
Import JsonGraph(json).
Import Dependencies Packages Lifecycle.

(** ** Evidence (package_sql_recovery.py) *)

Inductive PackageSQLParticipantPhase : Type := PREPARING | PREPARED | FINISHED.

#[export] Instance PackageSQLParticipantPhase_eq_dec : EqDecision PackageSQLParticipantPhase.
Proof. solve_decision. Defined.

Inductive PackageSQLRecoveryAction : Type := NONE | ROLLBACK_PREPARED | COMMIT_PREPARED | VERIFY_ROLLED_BACK | VERIFY_FINISHED.

Record PackagePreparedTransaction : Type := Participant {
  pt_operation_id : string; pt_package_id : string; pt_artifact_sha256 : string; pt_gid : string; pt_owner_role : string;
}.

Record PackageMigrationEvidence : Type := MigrationEvidence { me_owner : string; me_version : string; me_checksum : string }.

Record PackageSQLParticipantEvidence : Type := Evidence {
  ev_participant : PackagePreparedTransaction; ev_migrations : list PackageMigrationEvidence; ev_phase : PackageSQLParticipantPhase;
}.

Record PackageSQLParticipantRecord : Type := ParticipantRecord {
  sr_operation_id : string; sr_package_id : string; sr_artifact_sha256 : string; sr_gid : string; sr_owner_role : string;
  sr_migrations : list PackageMigrationEvidence; sr_phase : PackageSQLParticipantPhase;
}.

Definition CHECKSUM : re := Rep 64 64 (Chr (λ c, is_digit c || in_range "a" "f" c)).

(** [PackageMigrationEvidence(...)]. *)
Definition migration_evidence (m : PackageMigrationEvidence) : result PackageMigrationEvidence :=
  if String.eqb (me_owner m) "" || String.eqb (me_version m) "" || negb (fullmatch CHECKSUM (me_checksum m))
  then fail ValueErr "invalid package migration evidence" else Ok m.

(** [PackageSQLParticipantEvidence(...)]. *)
Definition participant_evidence (e : PackageSQLParticipantEvidence) : result PackageSQLParticipantEvidence :=
  let keys := (λ m, (me_owner m, me_version m)) <$> ev_migrations e in
  _ ← fail_if (bool_decide (ev_migrations e = [])) ValueErr "package SQL participant must bind at least one migration";
  _ ← fail_if (negb (bool_decide (length keys = length (remove_dups keys)))) ValueErr "package SQL participant contains duplicate migration keys";
  _ ← fail_if (existsb (λ m, negb (String.eqb (me_owner m) (pt_package_id (ev_participant e)))) (ev_migrations e)) ValueErr
        "package SQL participant migration owner does not match package";
  Ok e.

Definition from_evidence (e : PackageSQLParticipantEvidence) : PackageSQLParticipantRecord :=
  let p := ev_participant e in
  ParticipantRecord (pt_operation_id p) (pt_package_id p) (pt_artifact_sha256 p) (pt_gid p) (pt_owner_role p) (ev_migrations e) (ev_phase e).

Definition with_sql_phase (p : PackageSQLParticipantPhase) (r : PackageSQLParticipantRecord) : PackageSQLParticipantRecord :=
  ParticipantRecord (sr_operation_id r) (sr_package_id r) (sr_artifact_sha256 r) (sr_gid r) (sr_owner_role r) (sr_migrations r) p.

Definition sql_error {A} (msg : string) : result A := fail PackageSQLRecoveryError msg.

Definition package_sql_recovery_action (local_committed : bool) (evidence : option PackageSQLParticipantEvidence) (prepared_exists : bool) :
    result PackageSQLRecoveryAction :=
  match evidence with
  | None => if prepared_exists then sql_error "prepared package transaction exists without bound participant evidence" else Ok NONE
  | Some e =>
      match ev_phase e with
      | PREPARING =>
          if local_committed then sql_error "local package commit cannot precede durable database prepare evidence"
          else Ok (if prepared_exists then ROLLBACK_PREPARED else VERIFY_ROLLED_BACK)
      | PREPARED =>
          if prepared_exists then Ok (if local_committed then COMMIT_PREPARED else ROLLBACK_PREPARED)
          else Ok (if local_committed then VERIFY_FINISHED else VERIFY_ROLLED_BACK)
      | FINISHED =>
          if prepared_exists then sql_error "finished package SQL participant still exists as prepared"
          else if negb local_committed then sql_error "database participant finished before local package commit decision"
          else Ok VERIFY_FINISHED
      end
  end.

Section identity.
Context (sha256_hex : string → string) (owner_role : string → result string).

Definition nul : string := String "000"%char "".

(** [package_prepared_transaction]. *)
Definition package_prepared_transaction (operation_id package_id artifact_sha256 : string) : result PackagePreparedTransaction :=
  _ ← fail_if (negb (fullmatch Lifecycle.OPERATION_ID operation_id)) ValueErr "invalid package operation id";
  _ ← fail_if (negb (fullmatch CHECKSUM artifact_sha256)) ValueErr "invalid package artifact digest";
  role ← owner_role package_id;
  let digest := sha256_hex (operation_id +:+ nul +:+ package_id +:+ nul +:+ artifact_sha256) in
  Ok (Participant operation_id package_id artifact_sha256 ("plaik:pkg:" +:+ digest) role).

Definition to_evidence (r : PackageSQLParticipantRecord) : result PackageSQLParticipantEvidence :=
  p ← package_prepared_transaction (sr_operation_id r) (sr_package_id r) (sr_artifact_sha256 r);
  if negb (String.eqb (pt_gid p) (sr_gid r)) || negb (String.eqb (pt_owner_role p) (sr_owner_role r))
  then sql_error "durable package SQL participant identity does not match Core derivation"
  else
    ms ← map_result migration_evidence (sr_migrations r);
    participant_evidence (Evidence p ms (sr_phase r)).
End identity.

(** ** The coordinator of the database *)

(** [PackageSQLCoordinator]; the first argument is the step of the call. *)
Record PackageSQLCoordinator (T C D : Type) : Type := Coordinator {
  c_plan : nat → string → option (node C) → T → string → D → result PackageSQLParticipantRecord * D;
  c_prepare : nat → PackageSQLParticipantRecord → option (node C) → T → D → result unit * D;
  c_inspect : nat → PackageSQLParticipantRecord → D → result bool * D;
  c_finish : nat → PackageSQLParticipantRecord → bool → D → result unit * D;
  c_verify_rolled_back : nat → PackageSQLParticipantRecord → D → result unit * D;
  c_verify_finished : nat → PackageSQLParticipantRecord → D → result unit * D;
  c_drop_owner : nat → string → D → result unit * D;
}.
Arguments Coordinator {T C D}.
Arguments c_plan {T C D}.
Arguments c_prepare {T C D}.
Arguments c_inspect {T C D}.
Arguments c_finish {T C D}.
Arguments c_verify_rolled_back {T C D}.
Arguments c_verify_finished {T C D}.
Arguments c_drop_owner {T C D}.

(** What this manager keeps beyond the base one: the files of participant records, by name, and the database. *)
Record sql_state (D : Type) : Type := SqlState { s_records : gmap string PackageSQLParticipantRecord; s_database : D }.
Arguments SqlState {D}.
Arguments s_records {D}.
Arguments s_database {D}.

(** ** The manager (package_sql_lifecycle.py) *)

Section manager.
Context {T C D : Type} `{PackageManifest T} `{!EqDecision T}
  (specifier_contains : string → string → result bool) (core_version : string)
  (parse_record : json → result (PackageRecord T)) (dump_record : PackageRecord T → json)
  (sha256_hex : string → string) (package_id_ok : string → bool) (owner_role : string → result string)
  (has_migrations : T → bool) (cb : callbacks T C)
  (oracle : nat → label → fault C) (clock : nat → Z)
  (sql_coordinator : PackageSQLCoordinator T C D).

Abbreviation worldT := (world T C (sql_state D)).
Abbreviation intent := (TransactionIntent T).
Abbreviation record := PackageSQLParticipantRecord.

Definition set_ext (x : sql_state D) (w : worldT) : worldT :=
  World (w_registry w) (w_packages w) (w_stage w) (w_backup w) (w_intents w) (w_journal w) (w_step w) x.
Definition set_records (rs : gmap string record) (w : worldT) : worldT := set_ext (SqlState rs (s_database (w_ext w))) w.
Definition set_database (d : D) (w : worldT) : worldT := set_ext (SqlState (s_records (w_ext w)) d) w.

(** A call of the coordinator. *)
Definition ask {A} (f : nat → D → result A * D) : M worldT A := λ w,
  let '(r, d) := f (w_step w) (s_database (w_ext w)) in (r, set_database d (tick w)).

Definition drop_owner (package_id : string) : M worldT unit := ask (λ n, c_drop_owner sql_coordinator n package_id).

(** *** Participant records *)

Definition sql_record_path (operation_id : string) : string := sha256_hex operation_id.

Definition write_sql_record (r : record) : M worldT unit :=
  atomic oracle LExtra (λ w, set_records (<[sql_record_path (sr_operation_id r) := r]> (s_records (w_ext w))) w).

Definition remove_sql_record (operation_id : string) : M worldT unit :=
  atomic oracle LExtra (λ w, set_records (delete (sql_record_path operation_id) (s_records (w_ext w))) w).

Definition read_sql_record (path : string) : M worldT record :=
  w ← get_st;
  match s_records (w_ext w) !! path with
  | None => lift (rejected "package SQL participant path is invalid")
  | Some r =>
      _ ← lift (result_catch (to_evidence sha256_hex owner_role r) (λ e, if caught e then Some (rejected "package SQL participant evidence cannot be validated") else None));
      if String.eqb path (sql_record_path (sr_operation_id r)) then mret r else lift (rejected "package SQL participant path is invalid")
  end.

(** By operation, in the order of the file names. *)
Definition add_sql_record (records : dict string record) (r : record) : result (dict string record) :=
  if dict_mem records (sr_operation_id r) then rejected "duplicate package SQL participant evidence"
  else Ok (dict_set records (sr_operation_id r) r).

Fixpoint gather_sql_records (records : dict string record) (paths : list string) : M worldT (dict string record) :=
  match paths with
  | [] => mret records
  | p :: ps => r ← read_sql_record p; records ← lift (add_sql_record records r); gather_sql_records records ps
  end.

Definition sql_record_paths (w : worldT) : list string := sort_by id (elements (dom (s_records (w_ext w)))).
Definition all_sql_records : M worldT (dict string record) := paths ← gets sql_record_paths; gather_sql_records [] paths.

(** *** Decisions *)

Definition validate_sql_binding (i : intent) (r : record) : result unit :=
  e ← to_evidence sha256_hex owner_role r;
  let p := ev_participant e in
  if negb (String.eqb (pt_operation_id p) (i_operation_id i)) || negb (String.eqb (pt_package_id p) (i_package_id i))
     || negb (bool_decide (Some (pt_artifact_sha256 p) = i_artifact_sha256 i))
  then rejected "package SQL participant is not bound to the package transaction" else Ok tt.

Definition carry_out (r : record) (action : PackageSQLRecoveryAction) : M worldT unit :=
  match action with
  | ROLLBACK_PREPARED => ask (λ n, c_finish sql_coordinator n r false)
  | COMMIT_PREPARED => _ ← ask (λ n, c_finish sql_coordinator n r true); ask (λ n, c_verify_finished sql_coordinator n r)
  | VERIFY_ROLLED_BACK => ask (λ n, c_verify_rolled_back sql_coordinator n r)
  | VERIFY_FINISHED => ask (λ n, c_verify_finished sql_coordinator n r)
  | NONE => mret tt
  end.

Definition recover_sql_participant (i : intent) (r : record) (local_committed : bool) : M worldT unit :=
  _ ← lift (validate_sql_binding i r);
  prepared_exists ← ask (λ n, c_inspect sql_coordinator n r);
  e ← lift (to_evidence sha256_hex owner_role r);
  action ← lift (package_sql_recovery_action local_committed (Some e) prepared_exists);
  carry_out r action.

(** *** What is overridden *)

Definition release_durable_ownership (package_id : string) : M worldT unit := drop_owner package_id.

Definition cleanup_intent (i : intent) : M worldT unit :=
  _ ← (if bool_decide (i_action i = AUninstall) && bool_decide (i_phase i = COMMITTED)
       then or_else (release_durable_ownership (i_package_id i)) (lift (rejected "package uninstalled; durable ownership cleanup required"))
       else mret tt);
  _ ← remove_sql_record (i_operation_id i);
  Lifecycle.cleanup_intent sha256_hex package_id_ok oracle i.

(** The manifest whose migrations the transaction applies. *)
Definition sql_manifest (i : intent) : option T :=
  match dict_get (i_after i) (i_package_id i) with
  | Some r => if bool_decide (i_action i ∈ [AInstall; AUpdate]) && has_migrations (pr_manifest r) then Some (pr_manifest r) else None
  | None => None
  end.

(** The handlers: the database first, if there is a participant, then the files. *)
Definition undo_all (i : intent) (r : option record) : M worldT unit :=
  _ ← match r with
      | Some r => or_else (recover_sql_participant i r false) (lift (rejected "package SQL rollback is incomplete and requires recovery"))
      | None => mret tt
      end;
  _ ← rollback_and_fail dump_record sha256_hex package_id_ok oracle clock cleanup_intent i (failed_code i);
  lift (rejected (failed_message i)).

(** [or_else m (undo_all ...)], where the handler never answers. *)
Definition or_undo {A} (i : intent) (r : option record) (m : M worldT A) : M worldT A :=
  try_except m (λ e, if caught e then Some (_ ← undo_all i r; lift (Err e)) else None).

Definition plan_participant (i : intent) (m : T) (sha : string) : M worldT record :=
  _ ← apply_files sha256_hex package_id_ok oracle i;
  _ ← write_intent sha256_hex oracle (with_phase FILES_APPLIED i);
  _ ← inject cb "after_filesystem";
  n ← lift (package_path package_id_ok (i_package_id i));
  w ← get_st;
  ask (λ k, c_plan sql_coordinator k (i_operation_id i) (w_packages w !! n) m sha).

Definition prepare_participant (i : intent) (m : T) (r : record) : M worldT unit :=
  _ ← lift (validate_sql_binding i r);
  _ ← lift (if bool_decide (sr_phase r = PREPARING) then Ok tt else rejected "package SQL coordinator plan must start in preparing phase");
  _ ← write_sql_record r;
  _ ← inject cb "after_sql_intent";
  n ← lift (package_path package_id_ok (i_package_id i));
  w ← get_st;
  _ ← ask (λ k, c_prepare sql_coordinator k r (w_packages w !! n) m);
  inject cb "after_sql_prepare".

Definition apply_registry (i : intent) (r : record) : M worldT unit :=
  _ ← write_sql_record r;
  _ ← inject cb "after_sql_prepared_marker";
  _ ← write_records dump_record oracle (i_after i);
  _ ← write_intent sha256_hex oracle (with_phase REGISTRY_APPLIED i);
  inject cb "after_registry".

Definition finish_participant (i : intent) (r : record) : M worldT unit :=
  _ ← inject cb "after_commit_marker";
  _ ← recover_sql_participant i r true;
  _ ← write_sql_record (with_sql_phase FINISHED r);
  _ ← inject cb "after_sql_finish";
  succeed oracle clock (i_operation_id i).

(** [_execute].  The participant that a handler undoes is the one last assigned. *)
Definition sql_execute (i : intent) : M worldT unit :=
  match sql_manifest i with
  | None => execute dump_record sha256_hex package_id_ok has_migrations cb oracle clock cleanup_intent i
  | Some m =>
      match i_artifact_sha256 i with
      | None => lift (rejected "package SQL transaction requires a signed artifact digest")
      | Some sha =>
          _ ← persist_intent sha256_hex oracle clock i;
          r ← or_undo i None (plan_participant i m sha);
          _ ← or_undo i (Some r) (prepare_participant i m r);
          let prepared := with_sql_phase PREPARED r in
          _ ← or_undo i (Some prepared) (apply_registry i prepared);
          let current := with_phase COMMITTED i in
          _ ← or_undo i (Some prepared) (write_intent sha256_hex oracle current);
          _ ← or_else (finish_participant i prepared)
                (lift (rejected ("package " +:+ action_value (i_action i) +:+ " committed; SQL/journal recovery is required")));
          cleanup_intent current
      end
  end.

(** [_recover_locked]: one intent, with its participant. *)
Definition require_evidence (i : intent) (r : option record) : result unit :=
  match r with
  | Some r => validate_sql_binding i r
  | None => if bool_decide (is_Some (sql_manifest i)) && bool_decide (i_phase i ∈ [REGISTRY_APPLIED; COMMITTED])
            then rejected "package SQL transaction lost its durable participant evidence" else Ok tt
  end.

Definition finish_recovered (i : intent) (r : option record) : M worldT unit :=
  match sql_manifest i with
  | None => mret tt
  | Some _ =>
      match r with
      | None => lift (rejected "committed package SQL transaction has no participant record")
      | Some r => _ ← recover_sql_participant i r true;
                  if bool_decide (sr_phase r = FINISHED) then mret tt else write_sql_record (with_sql_phase FINISHED r)
      end
  end.

Definition undo_recovered (i : intent) (r : option record) (status : Journal.OperationStatus) : M worldT unit :=
  _ ← lift (if bool_decide (status = Journal.SUCCEEDED)
            then rejected "pre-commit package intent conflicts with succeeded journal" else Ok tt);
  _ ← match r with Some r => recover_sql_participant i r false | None => mret tt end;
  _ ← rollback_intent dump_record sha256_hex package_id_ok oracle i;
  _ ← Lifecycle.mark_failed oracle clock (i_operation_id i) "package.recovered_rollback";
  cleanup_intent i.

Definition recover_sql_intent (records : dict string record) (path : string) : M worldT (string * dict string record) :=
  i ← read_intent sha256_hex path;
  state ← journal_state (i_operation_id i);
  match state with
  | None => lift (rejected "package transaction intent has no operation journal")
  | Some s =>
      let r := dict_get records (i_operation_id i) in
      _ ← lift (require_evidence i r);
      _ ← (if bool_decide (i_phase i = COMMITTED)
           then _ ← finish_recovered i r;
                recover_committed parse_record dump_record package_id_ok oracle clock cleanup_intent i (Journal.o_status s)
           else undo_recovered i r (Journal.o_status s));
      mret (i_operation_id i, dict_del records (i_operation_id i))
  end.

Fixpoint recover_sql_intents (records : dict string record) (paths : list string) : M worldT (list string * dict string record) :=
  match paths with
  | [] => mret ([], records)
  | p :: ps => one ← recover_sql_intent records p; rest ← recover_sql_intents one.2 ps; mret (one.1 :: rest.1, rest.2)
  end.

Definition sql_recover_locked : M worldT (list string) :=
  records ← all_sql_records;
  paths ← gets intent_paths;
  done ← recover_sql_intents records paths;
  _ ← lift (if bool_decide (done.2 = []) then Ok tt else rejected "orphan package SQL participant evidence requires repair");
  waiting ← journal_pending;
  failed ← collect (fail_interrupted oracle clock) (List.filter (interrupted done.1) waiting);
  mret (sort_by id (remove_dups (done.1 ++ failed))).

(** The methods of [CrashAtomicPackageManager]. *)
Definition crash_atomic : methods := Methods cleanup_intent sql_execute sql_recover_locked release_durable_ownership.
End manager.
End PackageSql.
