(* ===== verification/PackageSqlLaws.v ===== *)
(** * Two-phase commit of packages and their database

    The transaction of a package with SQL and the prepared transaction of its
    participant end alike: both applied or both undone, wherever steps fail and
    processes end, unless a commit marker came late: then the database may have been rolled back under a package that stays.  The coordinator is known by the laws of [CoordinatorLaws], which
    say what a prepared transaction is. *)

From Stdlib Require Import ZArith Lia.
From stdpp Require Import base decidable numbers list strings gmap sets.
From S2P Require Import Prelude PyData Regex JsonGraph HashChain OperationJournal Dependencies Packages PackageLifecycle LifecycleLaws LifecycleProgress PackageSql.

Module PackageSqlLaws.
Import JsonGraph(json).
Import Dependencies Packages Lifecycle LifecycleLaws LifecycleProgress PackageSql.

(** ** Records *)

(** A record that was written reads back as the evidence it was made from. *)
Section records.
Context (sha256_hex : string → string) (owner_role : string → result string).

Lemma map_evidence_id ms ms' : map_result migration_evidence ms = Ok ms' → ms' = ms.
Proof.
  intros H%map_result_ok. induction H as [|m m' l l' Hm _ IH]; [done|]. rewrite IH. f_equal. revert Hm. unfold migration_evidence.
  destruct (_ || _); [done|]. by intros [= ->].
Qed.

Lemma participant_evidence_id e e' : participant_evidence e = Ok e' → e' = e.
Proof. unfold participant_evidence. intros He. inv_ok He. by injection He. Qed.

(** The participant of given inputs. *)
Lemma prepared_transaction_inv op id sha p : package_prepared_transaction sha256_hex owner_role op id sha = Ok p →
  ∃ role, p = Participant op id sha ("plaik:pkg:" +:+ sha256_hex (op +:+ nul +:+ id +:+ nul +:+ sha)) role.
Proof. unfold package_prepared_transaction. intros Hp. inv_ok Hp. injection Hp as <-. by eexists. Qed.

Lemma to_evidence_inv r e : to_evidence sha256_hex owner_role r = Ok e →
  ∃ p, package_prepared_transaction sha256_hex owner_role (sr_operation_id r) (sr_package_id r) (sr_artifact_sha256 r) = Ok p ∧
    pt_gid p = sr_gid r ∧ pt_owner_role p = sr_owner_role r ∧ e = Evidence p (sr_migrations r) (sr_phase r) ∧
    map_result migration_evidence (sr_migrations r) = Ok (sr_migrations r) ∧ participant_evidence e = Ok e.
Proof.
  unfold to_evidence. destruct (package_prepared_transaction _ _ _ _ _) as [p|] eqn:Ep; [|done]. cbn [mbind result_bind].
  destruct (negb _ || _) eqn:Eg; [done|]. apply orb_false_iff in Eg as [Eg Er]. apply negb_false_iff, String.eqb_eq in Eg. apply negb_false_iff, String.eqb_eq in Er.
  destruct (map_result migration_evidence _) as [ms|] eqn:Em; [|done]. cbn [mbind result_bind]. intros He. pose proof (map_evidence_id _ _ Em) as ->.
  pose proof (participant_evidence_id _ _ He) as ->. by exists p.
Qed.

(** The evidence that a valid record stands for gives back the record, in every phase. *)
Lemma sql_record_roundtrip r e phase : to_evidence sha256_hex owner_role r = Ok e →
  from_evidence e = r ∧ to_evidence sha256_hex owner_role (from_evidence e) = Ok e ∧
  to_evidence sha256_hex owner_role (with_sql_phase phase r) = Ok (Evidence (ev_participant e) (ev_migrations e) phase).
Proof.
  intros He. destruct (to_evidence_inv _ _ He) as (p & Ep & Hg & Hr & E & Em & Ee).
  assert (from_evidence e = r) as Hfrom.
  { rewrite E. unfold from_evidence. cbn. destruct (prepared_transaction_inv _ _ _ _ Ep) as [role ->]. cbn in *. rewrite Hg, Hr. by destruct r. }
  split; [done|]. split; [by rewrite Hfrom|]. unfold to_evidence. cbn. rewrite Ep. cbn [mbind result_bind]. rewrite Hg, Hr, !String.eqb_refl. cbn [negb orb].
  rewrite Em. cbn [mbind result_bind]. subst e. unfold participant_evidence in *. cbn in *.
  apply bind_result_ok in Ee as ([] & -> & Ee). apply bind_result_ok in Ee as ([] & -> & Ee). by apply bind_result_ok in Ee as ([] & -> & Ee).
Qed.

(** The identity of the participant of a transaction. *)
Context {T : Type}.
Definition gid_of (i : TransactionIntent T) : string :=
  "plaik:pkg:" +:+ sha256_hex (i_operation_id i +:+ nul +:+ i_package_id i +:+ nul +:+ or_default (i_artifact_sha256 i) "").

Definition bound (i : TransactionIntent T) (r : PackageSQLParticipantRecord) : Prop := validate_sql_binding sha256_hex owner_role i r = Ok tt.

Lemma bound_inv i r : bound i r → sr_gid r = gid_of i ∧ sr_operation_id r = i_operation_id i ∧ ∃ e, to_evidence sha256_hex owner_role r = Ok e ∧ ev_phase e = sr_phase r.
Proof.
  unfold bound, validate_sql_binding. destruct (to_evidence _ _ r) as [e|] eqn:Ee; [|done]. cbn [mbind result_bind].
  destruct (_ || _) eqn:Eb; [done|]. intros _. apply orb_false_iff in Eb as [Eb Es]. apply orb_false_iff in Eb as [Eo Ep].
  apply negb_false_iff, String.eqb_eq in Eo. apply negb_false_iff, String.eqb_eq in Ep. apply negb_false_iff, bool_decide_eq_true in Es.
  destruct (to_evidence_inv _ _ Ee) as (p & Hp & Hg & _ & E & _). subst e. cbn in *.
  destruct (prepared_transaction_inv _ _ _ _ Hp) as [role ->]. cbn in *.
  split; [|split; [done|by eexists]]. rewrite <-Hg. unfold gid_of. rewrite <-Eo, <-Ep, <-Es. done.
Qed.

Lemma bound_phase i r p : bound i r → bound i (with_sql_phase p r).
Proof.
  intros Hb. pose proof (bound_inv i r Hb) as (_ & _ & e & He & _). unfold bound, validate_sql_binding in *.
  destruct (sql_record_roundtrip r e p He) as (_ & _ & ->). rewrite He in Hb. exact Hb.
Qed.
End records.

(** ** What the database promises *)

(** A prepared transaction: not there (any more), prepared, or committed. *)
Inductive outcome : Type := Absent | Pending | Applied.

#[export] Instance outcome_eq_dec : EqDecision outcome.
Proof. solve_decision. Defined.

Definition target (commit : bool) : outcome := if commit then Applied else Absent.

(** PostgreSQL: PREPARE TRANSACTION, COMMIT PREPARED and ROLLBACK PREPARED take place as a whole or not at all, and touch
    no other transaction; an answer says that it took place. *)
Class CoordinatorLaws {T C D} (co : PackageSQLCoordinator T C D) (view : D → string → outcome) : Prop := {
  plan_law n op x m sha d g : view (c_plan co n op x m sha d).2 g = view d g;
  inspect_view n r d g : view (c_inspect co n r d).2 g = view d g;
  inspect_law n r d b : (c_inspect co n r d).1 = Ok b → b = bool_decide (view d (sr_gid r) = Pending);
  prepare_others n r x m d g : g ≠ sr_gid r → view (c_prepare co n r x m d).2 g = view d g;
  prepare_law n r x m d : view d (sr_gid r) = Absent →
    ((c_prepare co n r x m d).1 = Ok tt → view (c_prepare co n r x m d).2 (sr_gid r) = Pending) ∧
    view (c_prepare co n r x m d).2 (sr_gid r) ≠ Applied;
  finish_others n r b d g : g ≠ sr_gid r → view (c_finish co n r b d).2 g = view d g;
  finish_law n r b d : view d (sr_gid r) = Pending →
    ((c_finish co n r b d).1 = Ok tt → view (c_finish co n r b d).2 (sr_gid r) = target b) ∧
    (view (c_finish co n r b d).2 (sr_gid r) = Pending ∨ view (c_finish co n r b d).2 (sr_gid r) = target b);
  rolled_back_law n r d g : view (c_verify_rolled_back co n r d).2 g = view d g;
  finished_law n r d g : view (c_verify_finished co n r d).2 g = view d g;
  drop_owner_law n p d g : view (c_drop_owner co n p d).2 g = view d g;
}.

Section laws.
Context {T C D : Type} `{PackageManifest T} `{!EqDecision T}
  (parse_record : json → result (PackageRecord T)) (dump_record : PackageRecord T → json)
  (sha256_hex : string → string) (package_id_ok : string → bool) (owner_role : string → result string)
  (has_migrations : T → bool) (cb : callbacks T C)
  (oracle : nat → label → fault C) (clock : nat → Z)
  (co : PackageSQLCoordinator T C D) (view : D → string → outcome) `{!CoordinatorLaws co view}.

Hypothesis parse_dump : ∀ r, parse_record (dump_record r) = Ok r.
Hypothesis dump_current : ∀ r, legacy_record_payload (dump_record r) = None.

Abbreviation worldT := (world T C (sql_state D)).
Abbreviation intent := (TransactionIntent T).
Abbreviation undo := (undo (C := C) (X := sql_state D) parse_record sha256_hex package_id_ok).
Abbreviation redo := (redo (C := C) (X := sql_state D) parse_record sha256_hex package_id_ok).
Abbreviation settled := (settled (T := T) (C := C) (X := sql_state D) parse_record).
Abbreviation bound := (bound sha256_hex owner_role).
Abbreviation recs w := (s_records (w_ext w)).
Abbreviation seen w g := (view (s_database (w_ext w)) g).

(** One transaction, whose files may end as [A] or as [A']; the other transactions of the database are [others]. *)
Context (i : intent) (A A' : site (T := T) (C := C)) (others : string → outcome).

Definition gid : string := gid_of sha256_hex i.
Definition slot : string := sql_record_path sha256_hex (i_operation_id i).

Definition apart (w : worldT) : Prop := ∀ g, g ≠ gid → seen w g = others g.

(** *** The participant *)

Lemma ask_triple {B} P (f : nat → D → result B * D) Q E :
  (∀ w : worldT, P w → match f (w_step w) (s_database (w_ext w)) with
                       | (Ok b, d) => Q b (set_database d (tick w))
                       | (Err e, d) => E e (set_database d (tick w))
                       end) → triple P (ask f) Q E.
Proof. intros Hf w Hw. specialize (Hf w Hw). unfold ask. by destruct (f _ _) as [[b|e] d]. Qed.

Section participant.
Context (B : worldT → Prop).
Hypothesis B_ext : ∀ (w : worldT) x, B w → B (set_ext x (tick w)).
Context (R : gmap string PackageSQLParticipantRecord).

(** The records stay and the other transactions stay. *)
Definition at_outcome (o : outcome → Prop) (w : worldT) : Prop := B w ∧ recs w = R ∧ apart w ∧ o (seen w gid).

Lemma keeps_view (w : worldT) d o : at_outcome o w → (∀ g, view d g = seen w g) → at_outcome o (set_database d (tick w)).
Proof.
  intros (Hb & Hr & Ha & Ho) Hd. split; [by apply B_ext|]. split; [exact Hr|]. split; [intros g Hg; cbn; rewrite Hd; by apply Ha|]. cbn. by rewrite Hd.
Qed.

Lemma moves_view (w : worldT) d (o o' : outcome → Prop) : at_outcome o w → (∀ g, g ≠ gid → view d g = seen w g) → o' (view d gid) →
  at_outcome o' (set_database d (tick w)).
Proof.
  intros (Hb & Hr & Ha & Ho) Hd Ho'. split; [by apply B_ext|]. split; [exact Hr|]. split; [intros g Hg; cbn; rewrite Hd by done; by apply Ha|done].
Qed.

Lemma verify_triple o (f : nat → D → result unit * D) : (∀ n d g, view (f n d).2 g = view d g) →
  triple (at_outcome o) (ask f) (λ _, at_outcome o) (λ _, at_outcome o).
Proof.
  intros Hf. apply ask_triple. intros w Hw. pose proof (Hf (w_step w) (s_database (w_ext w))) as Hv.
  destruct (f _ _) as [[[]|e] d]; by apply keeps_view.
Qed.

(** An end of a prepared transaction. *)
Lemma finish_triple r b : bound i r →
  triple (at_outcome (λ v, v = Pending)) (ask (λ n, c_finish co n r b)) (λ _, at_outcome (λ v, v = target b)) (λ _, at_outcome (λ v, v = Pending ∨ v = target b)).
Proof.
  intros Hb. destruct (bound_inv _ _ i r Hb) as (Hg & _). change (sr_gid r = gid) in Hg. apply ask_triple. intros w Hw. pose proof Hw as (_ & _ & _ & Hv).
  rewrite <-Hg in Hv. destruct (finish_law (co := co) (view := view) (w_step w) r b _ Hv) as [H1 H2].
  pose proof (λ g, finish_others (co := co) (view := view) (w_step w) r b (s_database (w_ext w)) g) as H3.
  rewrite Hg in H1, H2, H3. destruct (c_finish co _ r b _) as [[[]|e] d]; cbn in *.
  - eapply moves_view; [exact Hw|done|by apply H1].
  - eapply moves_view; [exact Hw|done|exact H2].
Qed.

Definition recover_with (r : PackageSQLParticipantRecord) (committed : bool) : M worldT unit :=
  recover_sql_participant sha256_hex owner_role co i r committed.

Lemma inspect_triple r o : bound i r →
  triple (at_outcome o) (ask (λ n, c_inspect co n r)) (λ b, at_outcome (λ v, o v ∧ b = bool_decide (v = Pending))) (λ _, at_outcome o).
Proof.
  intros Hb. destruct (bound_inv _ _ i r Hb) as (Hg & _). change (sr_gid r = gid) in Hg. apply ask_triple. intros w Hw.
  pose proof (inspect_view (co := co) (view := view) (w_step w) r (s_database (w_ext w))) as Hv.
  pose proof (inspect_law (co := co) (view := view) (w_step w) r (s_database (w_ext w))) as Hl. rewrite Hg in Hl.
  destruct (c_inspect co _ r _) as [[b|e] d]; cbn in *; [|by apply keeps_view].
  eapply moves_view; [exact Hw|intros g _; apply Hv|]. split; [rewrite Hv; apply Hw|]. rewrite Hv. by apply Hl.
Qed.

(** The rest of a recovery, once the evidence and the database are known. *)
Lemma recover_rest r committed (o : outcome → Prop) Q E :
  (∀ w e, at_outcome o w → E e w) →
  (bound i r → ∀ e b, ev_phase e = sr_phase r →
     triple (at_outcome (λ v, o v ∧ b = bool_decide (v = Pending)))
       (action ← lift (package_sql_recovery_action committed (Some e) b); carry_out co r action) Q E) →
  triple (at_outcome o) (recover_with r committed) Q E.
Proof.
  intros HE Hk w Hw. unfold recover_with, recover_sql_participant. rewrite run_bind_lift.
  destruct (validate_sql_binding _ _ i r) as [[]|e] eqn:Eb; [|by apply HE]. revert w Hw.
  destruct (bound_inv _ _ i r Eb) as (_ & _ & e & Ee & Hp).
  eapply triple_bind; [eapply triple_weaken; [by apply (inspect_triple r o)|done|intros e' w; apply HE]|].
  intros b w Hw. rewrite run_bind_lift, Ee. by apply (Hk Eb e b Hp w).
Qed.

Lemma undo_participant r :
  triple (at_outcome (λ v, v ≠ Applied)) (recover_with r false) (λ _, at_outcome (λ v, v = Absent)) (λ _, at_outcome (λ v, v ≠ Applied)).
Proof.
  apply recover_rest; [done|]. intros Hb e b Hp.
  assert (∀ w, at_outcome (λ v, v ≠ Applied ∧ b = bool_decide (v = Pending)) w → at_outcome (λ v, v ≠ Applied) w) as Hw0.
  { intros w (H1 & H2 & H3 & H4 & _). by split. }
  assert (∀ w, at_outcome (λ v, v = Pending ∨ v = Absent) w → at_outcome (λ v, v ≠ Applied) w) as Hw1.
  { intros w (H1 & H2 & H3 & [H4|H4]); (split; [done|split; [done|split; [done|by rewrite H4]]]). }
  assert (triple (at_outcome (λ v, v ≠ Applied ∧ b = bool_decide (v = Pending)))
    (carry_out co r (if b then ROLLBACK_PREPARED else VERIFY_ROLLED_BACK)) (λ _, at_outcome (λ v, v = Absent)) (λ _, at_outcome (λ v, v ≠ Applied))) as Hroll.
  { destruct b; cbn [carry_out].
    - eapply triple_conseq; [by apply (finish_triple r false)| |done|by intros e' w; apply Hw1].
      intros w (H1 & H2 & H3 & _ & H4). symmetry in H4. apply bool_decide_eq_true in H4. by split.
    - eapply triple_conseq; [apply (verify_triple (λ v, v = Absent)); intros n d g; apply rolled_back_law| |done|].
      + intros w (H1 & H2 & H3 & H4 & H5). symmetry in H5. apply bool_decide_eq_false in H5. split; [done|split; [done|split; [done|by destruct (seen w gid)]]].
      + intros e' w (H1 & H2 & H3 & H4). split; [done|split; [done|split; [done|by rewrite H4]]]. }
  unfold package_sql_recovery_action. rewrite Hp. destruct (sr_phase r).
  - intros w Hw. rewrite run_bind_lift. by apply Hroll.
  - assert ((if b then Ok (if false then COMMIT_PREPARED else ROLLBACK_PREPARED) else Ok (if false then VERIFY_FINISHED else VERIFY_ROLLED_BACK)) =
      Ok (if b then ROLLBACK_PREPARED else VERIFY_ROLLED_BACK)) as -> by by destruct b. intros w Hw. rewrite run_bind_lift. by apply Hroll.
  - intros w Hw. rewrite run_bind_lift. destruct b; by apply Hw0.
Qed.

Definition redoable (r : PackageSQLParticipantRecord) (v : outcome) : Prop := v = Applied ∨ sr_phase r = PREPARED ∧ v = Pending.

Lemma redo_participant r :
  triple (at_outcome (redoable r)) (recover_with r true) (λ _, at_outcome (λ v, v = Applied)) (λ _, at_outcome (redoable r)).
Proof.
  apply recover_rest; [done|]. intros Hb e b Hp.
  assert (∀ w, at_outcome (λ v, redoable r v ∧ b = bool_decide (v = Pending)) w → at_outcome (redoable r) w) as Hw0.
  { intros w (H1 & H2 & H3 & H4 & _). by split. }
  assert (∀ w, at_outcome (λ v, v = Applied) w → at_outcome (redoable r) w) as Hw1.
  { intros w (H1 & H2 & H3 & H4). split; [done|split; [done|split; [done|by left]]]. }
  assert (triple (at_outcome (λ v, v = Applied)) (ask (λ n, c_verify_finished co n r)) (λ _, at_outcome (λ v, v = Applied)) (λ _, at_outcome (redoable r))) as Hver.
  { eapply triple_conseq; [apply (verify_triple (λ v, v = Applied)); intros n d g; apply finished_law|done|done|by intros e' w; apply Hw1]. }
  assert (b = false → triple (at_outcome (λ v, redoable r v ∧ b = bool_decide (v = Pending))) (ask (λ n, c_verify_finished co n r))
    (λ _, at_outcome (λ v, v = Applied)) (λ _, at_outcome (redoable r))) as Hdone.
  { intros ->. eapply triple_strengthen; [exact Hver|]. intros w (H1 & H2 & H3 & H4 & H5). symmetry in H5. apply bool_decide_eq_false in H5.
    split; [done|split; [done|split; [done|by destruct H4 as [|[_ ?]]]]]. }
  unfold package_sql_recovery_action. rewrite Hp. destruct (sr_phase r) eqn:Es.
  - intros w Hw. rewrite run_bind_lift. by apply Hw0.
  - intros w Hw. rewrite run_bind_lift. destruct b; [|by apply Hdone]. cbn [carry_out]. revert w Hw.
    apply (triple_bind _ (λ _, at_outcome (λ v, v = Applied))); [|intros []; exact Hver].
    eapply triple_conseq; [by apply (finish_triple r true)| |done|].
    + intros w (H1 & H2 & H3 & _ & H4). symmetry in H4. apply bool_decide_eq_true in H4. by split.
    + intros e' w (H1 & H2 & H3 & H4). split; [done|split; [done|split; [done|]]]. unfold redoable. rewrite Es. destruct H4; auto.
  - intros w Hw. rewrite run_bind_lift. destruct b; [by apply Hw0|]. by apply Hdone.
Qed.
End participant.

(** *** The transaction *)

Hypothesis intent_good : intent_ok sha256_hex package_id_ok i.
Context (m : T) (sha : string).
Hypothesis has_sql : sql_manifest has_migrations i = Some m.
Hypothesis has_sha : i_artifact_sha256 i = Some sha.

(** What the database and the records may be while recovery undoes, while it completes, and at the end. *)
Definition undo_db (w : worldT) : Prop :=
  apart w ∧ ((recs w = ∅ ∧ seen w gid = Absent) ∨ ∃ r, bound i r ∧ recs w = {[slot := r]} ∧ seen w gid ≠ Applied).
Definition redo_db (w : worldT) : Prop :=
  apart w ∧ ((recs w = ∅ ∧ seen w gid = Applied) ∨ ∃ r, bound i r ∧ recs w = {[slot := r]} ∧ redoable r (seen w gid)).
Definition done_db (o : outcome) (w : worldT) : Prop := apart w ∧ recs w = ∅ ∧ seen w gid = o.
Definition open_db (o : outcome) (w : worldT) : Prop :=
  apart w ∧ (recs w = ∅ ∨ ∃ r, bound i r ∧ recs w = {[slot := r]}) ∧ seen w gid = o.
Definition held_db (p : PackageSQLParticipantPhase) (o : outcome) (r : PackageSQLParticipantRecord) (w : worldT) : Prop :=
  apart w ∧ bound i r ∧ sr_phase r = p ∧ recs w = {[slot := r]} ∧ seen w gid = o.

Definition aborted (w : worldT) : Prop := settled A w ∧ done_db Absent w.
Definition committed (w : worldT) : Prop := settled A' w ∧ done_db Applied w.

(** Under a late commit marker: the database is rolled back, and the package stays, with [y] for its tree. *)
Context (R : gmap string (PackageRecord T)).
Hypothesis after_good : is_map (i_after i) R.
Definition kept (y : option (node C)) : site := (R, packages_after A i y).
Definition late_files (w : worldT) : Prop :=
  stuck_at parse_record sha256_hex package_id_ok i w ∨ ∃ y, redo (kept y) i w.
Definition late_end (w : worldT) : Prop :=
  late_marker oracle ∧ ∃ y, evidence i (packages_after A i y !! i_package_id i) ∧ settled (kept y) w ∧ done_db Absent w.
Definition late_left (w : worldT) : Prop := late_marker oracle ∧ late_files w ∧ open_db Absent w.

Definition ended (w : worldT) : Prop := aborted w ∨ committed w ∨ late_end w.
Definition rep_sql (w : worldT) : Prop := (undo A i w ∧ undo_db w) ∨ (redo A' i w ∧ redo_db w) ∨ late_left w ∨ ended w.

Lemma ended_rep w : ended w → rep_sql w.
Proof. intros ?. by right; right; right. Qed.
Lemma aborted_rep w : aborted w → rep_sql w.
Proof. intros ?. by apply ended_rep; left. Qed.
Lemma committed_rep w : committed w → rep_sql w.
Proof. intros ?. by apply ended_rep; right; left. Qed.
Lemma undoing_sql w : undo A i w → undo_db w → rep_sql w.
Proof. intros ? ?. by left. Qed.
Lemma redoing_sql w : redo A' i w → redo_db w → rep_sql w.
Proof. intros ? ?. by right; left. Qed.
Lemma late_sql w : late_left w → rep_sql w.
Proof. intros ?. by right; right; left. Qed.

(** They depend on the part of the subclass only. *)
Ltac by_ext := let E := fresh in intros ? ? [_ E]; unfold redo_db, undo_db, done_db, open_db, held_db, apart; by rewrite E.

Lemma open_undo w : open_db Absent w → undo_db w.
Proof. intros (Ha & [Hr|(r & Hb & Hr)] & Hs); (split; [exact Ha|]); [by left|right; exists r; by rewrite Hs]. Qed.

Lemma done_open o w : done_db o w → open_db o w.
Proof. intros (Ha & Hr & Hs). split; [exact Ha|]. split; [by left|done]. Qed.

Lemma not_uninstall : i_action i ≠ AUninstall.
Proof.
  intros E. revert has_sql. unfold sql_manifest. destruct (dict_get _ _); [|done]. rewrite E. by rewrite bool_decide_eq_false_2 by set_solver.
Qed.

Abbreviation cleanup := (PackageSql.cleanup_intent sha256_hex package_id_ok oracle co).

(** The record goes first. *)
Lemma cleanup_run q : cleanup (with_phase q i) =
  (_ ← mret tt; _ ← remove_sql_record sha256_hex oracle (i_operation_id i); Lifecycle.cleanup_intent sha256_hex package_id_ok oracle (with_phase q i)).
Proof. unfold PackageSql.cleanup_intent. cbn. by rewrite (bool_decide_eq_false_2 _ not_uninstall). Qed.

Lemma remove_triple (B : worldT → Prop) o : (∀ (w : worldT) x, B w → B (set_ext x (tick w))) → (∀ w : worldT, B w → B (tick w)) →
  triple (λ w, B w ∧ open_db o w) (remove_sql_record (C := C) (T := T) sha256_hex oracle (i_operation_id i)) (λ _ w, B w ∧ done_db o w) (λ _ w, B w ∧ open_db o w).
Proof.
  intros HB Ht. apply atomic_triple. intros w (Hb & Ha & Hr & Hs).
  assert (delete slot (recs w) = ∅) as Hdel.
  { destruct Hr as [->|(r & _ & ->)]; [apply delete_empty|apply delete_singleton_eq]. }
  assert (done_db o (set_records (delete slot (recs (tick w))) (tick w))) as Hdone by (split; [exact Ha|split; [exact Hdel|exact Hs]]).
  split; [split; [by apply HB|exact Hdone]|]. intros e. split; [split; [by apply Ht|by split]|]. split; [by apply HB|by apply done_open].
Qed.

Lemma cleanup_undone_sql q q' :
  triple (λ w, (undone parse_record sha256_hex package_id_ok A i w ∧ on_disk sha256_hex (with_phase q i) w) ∧ open_db Absent w) (cleanup (with_phase q' i)) (λ _, aborted) (λ _, rep_sql).
Proof.
  rewrite cleanup_run. intros w0 Hw0. rewrite run_bind. cbn [mret M_ret]. revert w0 Hw0.
  apply (triple_bind _ (λ _ w, (undone parse_record sha256_hex package_id_ok A i w ∧ on_disk sha256_hex (with_phase q i) w) ∧ done_db Absent w)).
  { eapply triple_weaken; [apply (remove_triple (λ w, undone parse_record sha256_hex package_id_ok A i w ∧ on_disk sha256_hex (with_phase q i) w))|done|]; [done|done|].
    intros e w [[[Hu _] _] Ho]. by apply undoing_sql, open_undo. }
  intros []. change (Lifecycle.cleanup_intent sha256_hex package_id_ok oracle (with_phase q' i)) with (Lifecycle.cleanup_intent (X := sql_state D) sha256_hex package_id_ok oracle i).
  eapply triple_weaken; [apply (triple_frame (done_db Absent)); [apply (cleanup_undone parse_record sha256_hex package_id_ok oracle A i q)|]|done|].
  - apply cleanup_preserves. by_ext.
  - intros e w [[Hw|Hw] Hd]; [by apply aborted_rep|]. by apply undoing_sql, open_undo, done_open.
Qed.

(** The end of a committed intent, whose database has the outcome [o]. *)
Section forward.
Context (A2 : site (T := T) (C := C)) (o : outcome) (Rep : worldT → Prop).
Hypothesis open_rep : ∀ w, redo A2 i w → open_db o w → Rep w.
Hypothesis done_rep : ∀ w, settled A2 w → done_db o w → Rep w.

Lemma cleanup_redo_sql : triple (λ w, redo A2 i w ∧ open_db o w) (cleanup (with_phase COMMITTED i)) (λ _ w, settled A2 w ∧ done_db o w) (λ _, Rep).
Proof.
  rewrite cleanup_run. intros w0 Hw0. rewrite run_bind. cbn [mret M_ret]. revert w0 Hw0.
  apply (triple_bind _ (λ _ w, redo A2 i w ∧ done_db o w)).
  { eapply triple_weaken; [apply (remove_triple (redo A2 i))|done|]; [done|done|]. intros e w [Hr Ho]. by apply open_rep. }
  intros []. change (Lifecycle.cleanup_intent sha256_hex package_id_ok oracle (with_phase COMMITTED i)) with (Lifecycle.cleanup_intent (X := sql_state D) sha256_hex package_id_ok oracle i).
  eapply triple_weaken; [apply (triple_frame (done_db o)); [apply (cleanup_redo parse_record sha256_hex package_id_ok oracle A2 i)|]|done|].
  - apply cleanup_preserves. by_ext.
  - intros e w [[Hw|Hw] Hd]; [by apply done_rep|]. by apply open_rep, done_open.
Qed.

Lemma succeed_sql :
  triple (λ w, redo A2 i w ∧ open_db o w) (succeed oracle clock (i_operation_id i)) (λ _ w, redo A2 i w ∧ open_db o w) (λ _, Rep).
Proof.
  eapply triple_weaken; [apply (triple_frame (open_db o)); [apply (succeed_triple parse_record sha256_hex package_id_ok oracle clock A2 i)|apply succeed_preserves]| |].
  - by_ext.
  - intros w o' n y j _ _ Hd. exact Hd.
  - by intros [] w [[Hr _] Hd].
  - intros e w [Hr Hd]. by apply open_rep.
Qed.

Lemma recover_committed_sql st :
  triple (λ w, redo A2 i w ∧ open_db o w) (recover_committed parse_record dump_record package_id_ok oracle clock cleanup (with_phase COMMITTED i) st)
    (λ _ w, settled A2 w ∧ done_db o w) (λ _, Rep).
Proof.
  unfold recover_committed. change (postcondition parse_record dump_record package_id_ok oracle (with_phase COMMITTED i)) with (postcondition (X := sql_state D) parse_record dump_record package_id_ok oracle i).
  apply (triple_bind _ (λ _ w, redo A2 i w ∧ open_db o w)).
  { eapply triple_weaken; [apply (triple_frame (open_db o)); [apply (postcondition_triple parse_record dump_record sha256_hex package_id_ok oracle parse_dump dump_current A2 i)|apply postcondition_preserves]|done|].
    - by_ext.
    - intros e w [Hr Hd]. by apply open_rep. }
  intros ok. destruct (negb ok); [intros w [? ?]; by apply open_rep|].
  apply (triple_bind _ (λ _ w, redo A2 i w ∧ open_db o w)); [|intros []; apply cleanup_redo_sql].
  destruct st; [apply succeed_sql|by intros w|intros w [? ?]; by apply open_rep].
Qed.
End forward.

Lemma rollback_triple late :
  triple (λ w, undo_as parse_record sha256_hex package_id_ok late A i w ∧ open_db Absent w) (rollback_intent dump_record sha256_hex package_id_ok oracle i)
    (λ j w, (j = with_phase ROLLED_BACK i ∧ undone parse_record sha256_hex package_id_ok A i w ∧ on_disk sha256_hex (with_phase ROLLED_BACK i) w) ∧ open_db Absent w)
    (λ _ w, undo_as parse_record sha256_hex package_id_ok late A i w ∧ open_db Absent w).
Proof.
  apply (triple_frame (open_db Absent)); [apply (rollback_intent_triple (λ _ _, Ok true) "" _ _ _ _ (λ _ _, Ok true) oracle parse_dump dump_current late A i)|].
  apply rollback_preserves. by_ext.
Qed.

Lemma mark_undone code :
  triple (λ w, (undone parse_record sha256_hex package_id_ok A i w ∧ on_disk sha256_hex (with_phase ROLLED_BACK i) w) ∧ open_db Absent w)
    (Lifecycle.mark_failed oracle clock (i_operation_id i) code)
    (λ _ w, (undone parse_record sha256_hex package_id_ok A i w ∧ on_disk sha256_hex (with_phase ROLLED_BACK i) w) ∧ open_db Absent w)
    (λ _ w, (undone parse_record sha256_hex package_id_ok A i w ∧ on_disk sha256_hex (with_phase ROLLED_BACK i) w) ∧ open_db Absent w).
Proof.
  apply mark_failed_triple; [done|]. intros w j [[(Hu & Hr & Hs & Hg) Hd] Ho] Hn. split; [|done]. split; [|done]. split; [by apply undo_journal|done].
Qed.

Lemma undo_rep_sql w : undo A i w → open_db Absent w → rep_sql w.
Proof. intros Hu Ho. by apply undoing_sql, open_undo. Qed.

(** A roll back under a late commit marker stops where recovery undoes, refuses or goes on. *)
Lemma late_undo_rep late w : (late = true → late_marker oracle) → undo_as parse_record sha256_hex package_id_ok late A i w → open_db Absent w → rep_sql w.
Proof.
  intros HL Hu Ho. destruct late; [|by apply undo_rep_sql]. destruct (late_cases parse_record sha256_hex package_id_ok A i R w after_good Hu) as [Hw|[Hw|(y & _ & Hw)]].
  - by apply undo_rep_sql.
  - apply late_sql. split; [by apply HL|]. split; [by left|done].
  - apply late_sql. split; [by apply HL|]. split; [right; by exists y|done].
Qed.

Lemma rollback_and_fail_sql late code : (late = true → late_marker oracle) →
  triple (λ w, undo_as parse_record sha256_hex package_id_ok late A i w ∧ open_db Absent w)
    (rollback_and_fail dump_record sha256_hex package_id_ok oracle clock cleanup i code) (λ _, aborted) (λ _, rep_sql).
Proof.
  intros HL. unfold rollback_and_fail. apply (or_else_triple _ _ _ _ (λ _, rep_sql)); [|intros e _ w Hw; exact Hw|done].
  eapply triple_bind; [eapply triple_weaken; [apply (rollback_triple late)|done|intros e w [Hu Ho]; by apply (late_undo_rep late)]|]. intros j.
  intros w [[-> Hw] Ho]. revert w Hw Ho.
  assert (triple (λ w, (undone parse_record sha256_hex package_id_ok A i w ∧ on_disk sha256_hex (with_phase ROLLED_BACK i) w) ∧ open_db Absent w)
    (_ ← Lifecycle.mark_failed oracle clock (i_operation_id i) code; cleanup (with_phase ROLLED_BACK i)) (λ _, aborted) (λ _, rep_sql)) as Ht.
  { eapply triple_bind; [eapply triple_weaken; [apply mark_undone|done|intros e w [[[Hu _] _] Ho]; by apply undo_rep_sql]|]. intros []. apply cleanup_undone_sql. }
  intros w Hw Ho. by apply Ht.
Qed.

(** *** The handlers *)

(** A participant that was absent stays so, whatever is decided. *)
Lemma absent_participant (B : worldT → Prop) (HB : ∀ (w : worldT) x, B w → B (set_ext x (tick w))) Rs r committed :
  triple (at_outcome B Rs (λ v, v = Absent)) (recover_with r committed) (λ _, at_outcome B Rs (λ v, v = Absent)) (λ _, at_outcome B Rs (λ v, v = Absent)).
Proof.
  apply (recover_rest B HB); [done|]. intros Hb e b Hp w (H1 & H2 & H3 & H4 & H5). rewrite H4 in H5. change (bool_decide (Absent = Pending)) with false in H5. subst b.
  rewrite run_bind_lift. unfold package_sql_recovery_action. rewrite Hp.
  assert (at_outcome B Rs (λ v, v = Absent) w) as Hw by (split; [done|split; [done|split; [done|done]]]).
  assert (∀ f : nat → D → result unit * D, (∀ n d g, view (f n d).2 g = view d g) →
    triple (at_outcome B Rs (λ v, v = Absent)) (ask f) (λ _, at_outcome B Rs (λ v, v = Absent)) (λ _, at_outcome B Rs (λ v, v = Absent))) as Hver
    by (intros f Hf; by apply (verify_triple B HB Rs (λ v, v = Absent))).
  destruct (sr_phase r), committed; try exact Hw; apply Hver; try exact Hw; intros n d g; first [apply rolled_back_law|apply finished_law].
Qed.

(** Before the handlers: what they may find. *)
Definition undoable (r : option PackageSQLParticipantRecord) (w : worldT) : Prop :=
  undo A i w ∧ match r with Some _ => undo_db w | None => open_db Absent w end.

Lemma undoable_rep r w : undoable r w → rep_sql w.
Proof. intros [Hu Hd]. apply undoing_sql; [done|]. destruct r; [done|by apply open_undo]. Qed.

Lemma undo_database r :
  triple (λ w, undo A i w ∧ undo_db w) (recover_sql_participant sha256_hex owner_role co i r false)
    (λ _ w, undo A i w ∧ open_db Absent w) (λ _ w, undo A i w ∧ undo_db w).
Proof.
  intros w [Hu (Ha & Hdb)].
  assert (∀ (w : worldT) x, undo A i w → undo A i (set_ext x (tick w))) as HB by done.
  destruct Hdb as [[Hr Hs]|(r0 & Hb & Hr & Hs)].
  - assert (at_outcome (undo A i) ∅ (λ v, v = Absent) w) as Hw by (split; [done|split; [done|split; [done|done]]]).
    pose proof (absent_participant (undo A i) HB ∅ r false w Hw) as Ht. unfold recover_with in Ht.
    destruct (recover_sql_participant _ _ _ _ _ _ w) as [[[]|e] w']; destruct Ht as (H1 & H2 & H3 & H4); (split; [done|]).
    + split; [done|]. split; [by left|done].
    + split; [done|]. by left.
  - assert (at_outcome (undo A i) {[slot := r0]} (λ v, v ≠ Applied) w) as Hw by (split; [done|split; [done|split; [done|done]]]).
    pose proof (undo_participant (undo A i) HB {[slot := r0]} r w Hw) as Ht. unfold recover_with in Ht.
    destruct (recover_sql_participant _ _ _ _ _ _ w) as [[[]|e] w']; destruct Ht as (H1 & H2 & H3 & H4); (split; [done|]).
    + split; [done|]. split; [right; by exists r0|done].
    + split; [done|]. right. by exists r0.
Qed.

Lemma undo_all_triple r Q :
  triple (undoable r) (undo_all dump_record sha256_hex package_id_ok owner_role oracle clock co i r) Q (λ _, rep_sql).
Proof.
  unfold undo_all. apply (triple_bind _ (λ _ w, undo A i w ∧ open_db Absent w)).
  - destruct r as [r|]; [|by intros w].
    apply (or_else_triple _ _ _ _ (λ _ w, undo A i w ∧ undo_db w)).
    + apply undo_database.
    + intros e _ w Hw. by apply (undoable_rep (Some r)).
    + intros e w _ Hw. by apply (undoable_rep (Some r)).
  - intros []. apply (triple_bind _ (λ _, aborted)); [by apply (rollback_and_fail_sql false)|]. intros [] w Hw. by apply aborted_rep.
Qed.

(** What the handlers find when the commit marker came late. *)
Definition late_found (r : PackageSQLParticipantRecord) (w : worldT) : Prop :=
  late_marker oracle ∧ redo A' i w ∧ undo_as parse_record sha256_hex package_id_ok true A i w ∧ held_db PREPARED Pending r w.

Lemma late_all_triple r Q : (∃ y, A' = kept y) →
  triple (late_found r) (undo_all dump_record sha256_hex package_id_ok owner_role oracle clock co i (Some r)) Q (λ _, rep_sql).
Proof.
  intros [y Hy] w0 (HL & Hr0 & Hu0 & (Ha0 & Hb & Hp & Hrec0 & Hs0)). revert w0 Hr0 Hu0 Ha0 Hrec0 Hs0.
  set (B := λ w, redo A' i w ∧ undo_as parse_record sha256_hex package_id_ok true A i w).
  assert (∀ (w : worldT) x, B w → B (set_ext x (tick w))) as HB by (by intros w x [? ?]).
  assert (∀ w, at_outcome B {[slot := r]} (λ v, v ≠ Applied) w → rep_sql w) as Hrep.
  { intros w ([Hr Hu] & Hrec & Ha & Hs). destruct (seen w gid) eqn:Es; [|apply redoing_sql; [done|split; [done|right; exists r; split; [done|split; [done|by right]]]]|done].
    apply late_sql. split; [done|]. split; [right; exists y; by rewrite <-Hy|]. split; [done|]. split; [right; by exists r|done]. }
  assert (triple (at_outcome B {[slot := r]} (λ v, v ≠ Applied)) (undo_all dump_record sha256_hex package_id_ok owner_role oracle clock co i (Some r)) Q (λ _, rep_sql)) as Ht.
  { unfold undo_all. apply (triple_bind _ (λ _ w, undo_as parse_record sha256_hex package_id_ok true A i w ∧ open_db Absent w)).
    - apply (or_else_triple _ _ _ _ (λ _, at_outcome B {[slot := r]} (λ v, v ≠ Applied))).
      + eapply triple_weaken; [apply (undo_participant B HB {[slot := r]} r)| |done].
        intros [] w ([_ Hu] & Hrec & Ha & Hs). split; [done|]. split; [done|]. split; [right; by exists r|done].
      + intros e _ w Hw. by apply Hrep.
      + intros e w _ Hw. by apply Hrep.
    - intros []. apply (triple_bind _ (λ _, aborted)); [by apply (rollback_and_fail_sql true)|]. intros [] w Hw. by apply aborted_rep. }
  intros w Hr Hu Ha Hrec Hs. apply Ht. split; [done|]. split; [done|]. split; [done|by rewrite Hs].
Qed.

Lemma or_undo_triple {B} P (n : M worldT B) r Q E :
  triple P n Q E → (∀ e w, caught e = true → E e w → undoable r w ∨ ∃ r', r = Some r' ∧ late_found r' w ∧ ∃ y, A' = kept y) →
  (∀ e w, caught e = false → E e w → rep_sql w) →
  triple P (or_undo dump_record sha256_hex package_id_ok owner_role oracle clock co i r n) Q (λ _, rep_sql).
Proof.
  intros Hn Hc Hd w Hw. specialize (Hn w Hw). unfold or_undo, try_except. destruct (n w) as [[b|e] w']; [exact Hn|].
  destruct (caught e) eqn:Ec; [|by apply (Hd e)]. specialize (Hc e w' Ec Hn).
  assert (∀ P' : worldT → Prop, triple P' (undo_all dump_record sha256_hex package_id_ok owner_role oracle clock co i r) (λ _ _, False) (λ _, rep_sql) →
    triple P' (_ ← undo_all dump_record sha256_hex package_id_ok owner_role oracle clock co i r; lift (Err e)) Q (λ _, rep_sql)) as Ht.
  { intros P' HP'. by apply (triple_bind _ (λ _ _, False)); [|intros [] ? []]. }
  destruct Hc as [Hc|(r' & -> & Hc & Hy)]; [apply (Ht (undoable r)); [apply undo_all_triple|done]|apply (Ht (late_found r')); [by apply late_all_triple|done]].
Qed.

(** *** Executing *)

Context (x : option (node C)).
Hypothesis site_good : site_ok A i.
Hypothesis evidence_good : evidence i (packages_after A i x !! i_package_id i).
Hypothesis next_site : A' = (R, packages_after A i x).

Abbreviation begun := (begun (X := sql_state D) parse_record sha256_hex package_id_ok A i x).
Abbreviation moved := (moved (X := sql_state D) parse_record sha256_hex package_id_ok A i A'.2).
Abbreviation applied := (applied (X := sql_state D) parse_record sha256_hex package_id_ok A i A'.2).

Lemma moved_done w : moved w → done_db Absent w → undoable None w.
Proof. intros [Hu _] Hd. split; [done|by apply done_open]. Qed.

(** The files, and the plan of the participant. *)
Lemma plan_triple :
  triple (λ w, begun w ∧ done_db Absent w) (plan_participant sha256_hex package_id_ok cb oracle co i m sha) (λ _ w, moved w ∧ done_db Absent w) (λ _, undoable None).
Proof.
  assert (∀ w w', same_rest w w' → done_db Absent w → done_db Absent w') as Hframe by by_ext.
  unfold plan_participant. apply (triple_bind _ (λ _ w, moved w ∧ done_db Absent w)).
  { eapply triple_weaken; [apply (triple_frame (done_db Absent)); [apply (apply_files_triple (λ _ _, Ok true) "" parse_record sha256_hex package_id_ok (λ _ _, Ok true) oracle A i x site_good)|by apply apply_files_preserves]| |].
    - intros [] w. by rewrite next_site.
    - intros e w [Hu Hd]. split; [done|by apply done_open]. }
  intros []. apply (triple_bind _ (λ _ w, moved w ∧ done_db Absent w)).
  { eapply triple_weaken; [apply (triple_frame (done_db Absent) moved); [apply (phase_triple parse_record sha256_hex package_id_ok oracle A i moved FILES_APPLIED)|by apply write_intent_preserves]|done|].
    - done.
    - done.
    - intros w Hw. split; [apply Hw|]. by apply moved_phase.
    - intros e w [Hu Hd]. split; [done|by apply done_open]. }
  intros []. apply (triple_bind _ (λ _ w, moved w ∧ done_db Absent w)); [apply lift_triple; intros w e [? ?]; by apply moved_done|].
  intros []. intros w Hw. rewrite run_bind_lift. destruct (package_path _ _); [|by apply moved_done; apply Hw]. rewrite run_bind_get.
  revert w Hw. intros w0 Hw0. assert (∀ f : nat → D → result PackageSQLParticipantRecord * D, (∀ n d g, view (f n d).2 g = view d g) →
    triple (λ w, moved w ∧ done_db Absent w) (ask f) (λ _ w, moved w ∧ done_db Absent w) (λ _, undoable None)) as Hask.
  { intros f Hf. apply ask_triple. intros w [Hm (Ha & Hr & Hs)]. specialize (Hf (w_step w) (s_database (w_ext w))).
    destruct (f _ _) as [[r|e] d]; cbn in Hf.
    - split; [done|]. split; [intros g Hg; cbn; rewrite Hf; by apply Ha|]. split; [done|]. cbn. by rewrite Hf.
    - split; [apply Hm|]. split; [intros g Hg; cbn; rewrite Hf; by apply Ha|]. split; [by left|]. cbn. by rewrite Hf. }
  apply (Hask (λ k, c_plan co k (i_operation_id i) (w_packages w0 !! _) m sha)); [|exact Hw0]. intros n d g. apply plan_law.
Qed.

Lemma bound_path r : bound i r → sql_record_path sha256_hex (sr_operation_id r) = slot.
Proof. intros Hb. destruct (bound_inv _ _ i r Hb) as (_ & E & _). unfold slot. by rewrite E. Qed.

(** Writing a record of this transaction over the one that is there, if any. *)
Lemma write_record_triple (B : worldT → Prop) r o (Q : worldT → Prop) (E : exn → worldT → Prop) :
  (∀ (w : worldT) y, B w → B (set_ext y (tick w))) → bound i r →
  (∀ w, B w → apart w → recs w = {[slot := r]} → seen w gid = o → Q w ∧ ∀ e, E e w) →
  (∀ w e, B w → open_db o w → E e (tick w)) →
  triple (λ w, B w ∧ open_db o w) (write_sql_record (C := C) (T := T) (D := D) sha256_hex oracle r) (λ _, Q) E.
Proof.
  intros HB Hb HQ HE. unfold write_sql_record. rewrite bound_path by done. apply atomic_triple. intros w [Hw Ho]. pose proof Ho as (Ha & Hr & Hs).
  assert (<[slot := r]> (recs w) = {[slot := r]}) as Hins.
  { destruct Hr as [->|(r0 & _ & ->)]; [done|apply insert_singleton_eq]. }
  destruct (HQ (set_records (<[slot := r]> (recs (tick w))) (tick w))) as [H1 H2]; [by apply HB|exact Ha|exact Hins|exact Hs|].
  split; [exact H1|]. intros e. split; [by apply HE|apply H2].
Qed.

(** The record, then PREPARE TRANSACTION. *)
Lemma prepare_triple r :
  triple (λ w, moved w ∧ done_db Absent w) (prepare_participant sha256_hex package_id_ok owner_role cb oracle co i m r)
    (λ _ w, moved w ∧ held_db PREPARING Pending r w) (λ _, undoable (Some r)).
Proof.
  assert (∀ w o, moved w → open_db o w → o ≠ Applied → o = Absent ∨ (∃ r0, bound i r0 ∧ recs w = {[slot := r0]}) → undoable (Some r) w) as Hun.
  { intros w o [Hu _] (Ha & Hr & Hs) Ho Hc. split; [done|]. split; [done|]. destruct Hr as [Hr|(r0 & Hb & Hr)]; [|right; exists r0; by rewrite Hs].
    destruct Hc as [->|(r0 & Hb & Hr')]; [by left|right; exists r0; by rewrite Hs]. }
  assert (∀ w, moved w → done_db Absent w → undoable (Some r) w) as Hun0.
  { intros w Hm Hd. apply (Hun w Absent); [done|by apply done_open|done|by left]. }
  unfold prepare_participant. intros w0 Hw0. rewrite run_bind_lift.
  destruct (validate_sql_binding _ _ i r) as [[]|e] eqn:Eb; [|by apply Hun0; apply Hw0]. rewrite run_bind_lift.
  destruct (bool_decide (sr_phase r = PREPARING)) eqn:Ep; [|by apply Hun0; apply Hw0]. apply bool_decide_eq_true in Ep. revert w0 Hw0.
  apply (triple_bind _ (λ _ w, moved w ∧ held_db PREPARING Absent r w)).
  { eapply triple_strengthen; [apply (write_record_triple moved r Absent)|]; [done|done|..].
    - intros w Hm Ha Hr Hs. split; [by split|]. intros e. split; [apply Hm|]. split; [done|]. right. exists r. by rewrite Hs.
    - intros w e Hm Ho. apply (Hun _ Absent); [done|done|done|by left].
    - intros w [Hm Hd]. split; [done|by apply done_open]. }
  intros []. assert (∀ w o, moved w ∧ held_db PREPARING o r w → o ≠ Applied → undoable (Some r) w) as Hun1.
  { intros w o [Hm (Ha & Hb & _ & Hr & Hs)] Ho. split; [apply Hm|]. split; [done|]. right. exists r. by rewrite Hs. }
  apply (triple_bind _ (λ _ w, moved w ∧ held_db PREPARING Absent r w)); [apply lift_triple; intros w e Hw; by apply (Hun1 w Absent)|].
  intros [] w Hw. rewrite run_bind_lift. destruct (package_path _ _) as [n|]; [|by apply (Hun1 w Absent)]. rewrite run_bind_get.
  set (pkg := w_packages w !! n). revert w Hw pkg. intros w Hw pkg.
  assert (triple (λ w, moved w ∧ held_db PREPARING Absent r w) (_ ← ask (λ k, c_prepare co k r pkg m); inject cb "after_sql_prepare")
    (λ _ w, moved w ∧ held_db PREPARING Pending r w) (λ _, undoable (Some r))) as Ht; [|by apply Ht].
  apply (triple_bind _ (λ _ w, moved w ∧ held_db PREPARING Pending r w)).
  - apply ask_triple. intros w1 [Hm (Ha & Hb & Hp & Hr & Hs)]. destruct (bound_inv _ _ i r Hb) as (Hg & _). change (sr_gid r = gid) in Hg.
    pose proof Hs as Hs'. rewrite <-Hg in Hs'. destruct (prepare_law (co := co) (view := view) (w_step w1) r pkg m _ Hs') as [H1 H2].
    pose proof (λ g, prepare_others (co := co) (view := view) (w_step w1) r pkg m (s_database (w_ext w1)) g) as H3. rewrite Hg in H1, H2, H3.
    assert (∀ d, (∀ g, g ≠ gid → view d g = seen w1 g) → apart (set_database d (tick w1))) as Hap by (intros d Hd g Hg'; cbn; rewrite Hd by done; by apply Ha).
    destruct (c_prepare co _ r pkg m _) as [[[]|e] d]; cbn in H1, H2, H3.
    + split; [done|]. split; [by apply Hap|]. split; [done|]. split; [done|]. split; [done|by apply H1].
    + split; [apply Hm|]. split; [by apply Hap|]. right. exists r. split; [done|]. split; [done|exact H2].
  - intros []. apply lift_triple. intros w1 e Hw1. by apply (Hun1 w1 Pending).
Qed.

(** The database is prepared: the record says so, then the registry. *)
Lemma registry_triple r0 r : bound i r → sr_phase r = PREPARED →
  triple (λ w, moved w ∧ held_db PREPARING Pending r0 w) (apply_registry dump_record sha256_hex cb oracle i r)
    (λ _ w, applied w ∧ held_db PREPARED Pending r w) (λ _, undoable (Some r)).
Proof.
  intros Hb Hp.
  assert (∀ w p r1, undo A i w → held_db p Pending r1 w → undoable (Some r) w) as Hheld.
  { intros w p r1 Hu (Ha & Hb1 & _ & Hr & Hs). split; [done|]. split; [done|]. right. exists r1. by rewrite Hs. }
  assert (∀ w w', same_rest w w' → held_db PREPARED Pending r w → held_db PREPARED Pending r w') as Hframe by by_ext.
  unfold apply_registry. apply (triple_bind _ (λ _ w, moved w ∧ held_db PREPARED Pending r w)).
  { unfold write_sql_record. rewrite bound_path by done. apply atomic_triple. intros w [Hm Hd]. pose proof Hd as (Ha & _ & _ & Hr & Hs).
    assert (held_db PREPARED Pending r (set_records (<[slot := r]> (recs (tick w))) (tick w))) as Hd'.
    { split; [done|]. split; [done|]. split; [done|]. split; [cbn; rewrite Hr; apply insert_singleton_eq|done]. }
    split; [by split|]. intros e. split; [apply (Hheld _ PREPARING r0); [apply Hm|done]|]. apply (Hheld _ PREPARED r); [apply Hm|exact Hd']. }
  intros []. apply (triple_bind _ (λ _ w, moved w ∧ held_db PREPARED Pending r w)); [apply lift_triple; intros w e [[Hu _] Hd]; by apply (Hheld w PREPARED r)|].
  intros []. apply (triple_bind _ (λ _ w, applied w ∧ held_db PREPARED Pending r w)).
  { eapply triple_weaken; [apply (triple_frame (held_db PREPARED Pending r)); [apply (write_after_triple parse_record dump_record sha256_hex package_id_ok oracle parse_dump dump_current A i A'.2 intent_good)|by apply atomic_preserves]|done|].
    - by exists R.
    - intros e w [Hu Hd]. by apply (Hheld w PREPARED r). }
  intros []. apply (triple_bind _ (λ _ w, applied w ∧ held_db PREPARED Pending r w)).
  { eapply triple_weaken; [apply (triple_frame (held_db PREPARED Pending r) applied); [apply (phase_triple parse_record sha256_hex package_id_ok oracle A i applied REGISTRY_APPLIED)|by apply write_intent_preserves]|done|].
    - done.
    - done.
    - intros w [Hm Hr]. split; [apply Hm|]. split; [by apply moved_phase|done].
    - intros e w [Hu Hd]. by apply (Hheld w PREPARED r). }
  intros []. apply lift_triple. intros w e [[[Hu _] _] Hd]. by apply (Hheld w PREPARED r).
Qed.

(** The decision. *)
Lemma commit_triple_sql r :
  triple (λ w, applied w ∧ held_db PREPARED Pending r w) (write_intent sha256_hex oracle (with_phase COMMITTED i))
    (λ _ w, redo A' i w ∧ held_db PREPARED Pending r w)
    (λ e w, (undo A i w ∨ redo A' i w ∧ (e = the_end ∨ late_marker oracle ∧ undo_as parse_record sha256_hex package_id_ok true A i w)) ∧
       held_db PREPARED Pending r w).
Proof.
  apply (triple_frame (held_db PREPARED Pending r)); [|apply write_intent_preserves; by_ext].
  pose proof (commit_step (X := sql_state D) parse_record sha256_hex package_id_ok oracle A i (packages_after A i x) R intent_good after_good evidence_good) as Hc.
  rewrite next_site. exact Hc.
Qed.

Lemma held_redo p o r w : redo A' i w → held_db p o r w → redoable r o → rep_sql w.
Proof. intros Hr (Ha & Hb & _ & Hrec & Hs) Ho. apply redoing_sql; [done|]. split; [done|]. right. exists r. by rewrite Hs. Qed.

(** The participant is committed, and the journal told. *)
Lemma redo_database r w : redo A' i w → held_db (sr_phase r) (seen w gid) r w → redoable r (seen w gid) →
  match recover_sql_participant sha256_hex owner_role co i r true w with
  | (Ok _, w') => redo A' i w' ∧ held_db (sr_phase r) Applied r w'
  | (Err _, w') => rep_sql w'
  end.
Proof.
  intros Hr (Ha & Hb & _ & Hrec & _) Ho.
  assert (∀ (w : worldT) y, redo A' i w → redo A' i (set_ext y (tick w))) as HB by done.
  assert (at_outcome (redo A' i) {[slot := r]} (redoable r) w) as Hw by (split; [done|split; [done|split; [done|done]]]).
  pose proof (redo_participant (redo A' i) HB {[slot := r]} r w Hw) as Ht. unfold recover_with in Ht.
  destruct (recover_sql_participant _ _ _ _ _ _ w) as [[[]|e] w']; destruct Ht as (H1 & H2 & H3 & H4).
  - split; [done|]. done.
  - apply redoing_sql; [done|]. split; [done|]. right. by exists r.
Qed.

Lemma finished_record r : bound i r → bound i (with_sql_phase FINISHED r) ∧ sr_phase (with_sql_phase FINISHED r) = FINISHED.
Proof. intros Hb. split; [by apply bound_phase|done]. Qed.

(** Marking the participant as finished. *)
Lemma finish_record_triple (B : worldT → Prop) p o r : (∀ (w : worldT) y, B w → B (set_ext y (tick w))) → (∀ w : worldT, B w → B (tick w)) →
  triple (λ w, B w ∧ held_db p o r w) (write_sql_record (C := C) (T := T) (D := D) sha256_hex oracle (with_sql_phase FINISHED r))
    (λ _ w, B w ∧ open_db o w) (λ _ w, B w ∧ open_db o w).
Proof.
  intros HB Ht w0 Hw0. pose proof Hw0 as [_ (_ & Hb0 & _)]. destruct (finished_record r Hb0) as [Hb _]. revert w0 Hw0.
  unfold write_sql_record. rewrite (bound_path _ Hb). apply atomic_triple. intros w [Hr (Ha & Hb1 & Hp & Hrec & Hs)].
  assert (open_db o (set_records (<[slot := with_sql_phase FINISHED r]> (recs (tick w))) (tick w))) as Hd.
  { split; [done|]. split; [|done]. right. exists (with_sql_phase FINISHED r). split; [done|]. cbn. rewrite Hrec. apply insert_singleton_eq. }
  split; [split; [by apply HB|done]|]. intros e. split; [split; [by apply Ht|]|split; [by apply HB|done]]. split; [done|]. split; [right; by exists r|done].
Qed.

Lemma open_redo w : redo A' i w → open_db Applied w → rep_sql w.
Proof.
  intros Hr (Ha & [Hrec|(r & Hb & Hrec)] & Hs); apply redoing_sql; (try done); (split; [done|]); [by left|right; exists r; split; [done|split; [done|by left]]].
Qed.

Lemma done_committed w : settled A' w → done_db Applied w → rep_sql w.
Proof. intros ? ?. by apply committed_rep. Qed.

Lemma finish_triple_sql r : sr_phase r = PREPARED →
  triple (λ w, redo A' i w ∧ held_db PREPARED Pending r w) (finish_participant sha256_hex owner_role cb oracle clock co i r)
    (λ _ w, redo A' i w ∧ open_db Applied w) (λ _, rep_sql).
Proof.
  intros Hp. assert (redoable r Pending) as Hre by by right. unfold finish_participant.
  apply (triple_bind _ (λ _ w, redo A' i w ∧ held_db PREPARED Pending r w)); [apply lift_triple; intros w e [? ?]; by eapply held_redo|].
  intros []. apply (triple_bind _ (λ _ w, redo A' i w ∧ held_db PREPARED Applied r w)).
  { intros w [Hr Hd]. pose proof Hd as (_ & _ & _ & _ & Hs). pose proof (redo_database r w Hr) as Ht. rewrite Hp, Hs in Ht. specialize (Ht Hd Hre).
    by destruct (recover_sql_participant _ _ _ _ _ _ w) as [[[]|e] w']. }
  intros []. apply (triple_bind _ (λ _ w, redo A' i w ∧ open_db Applied w)).
  { eapply triple_weaken; [by apply (finish_record_triple (redo A' i))|done|intros e w [? ?]; by apply open_redo]. }
  intros []. apply (triple_bind _ (λ _ w, redo A' i w ∧ open_db Applied w)); [apply lift_triple; intros w e [? ?]; by apply open_redo|].
  intros []. apply succeed_sql, open_redo.
Qed.

Lemma persist_begun w : begun w → persist_intent sha256_hex oracle clock i w = (Ok tt, w).
Proof.
  intros (Hu & _). pose proof Hu as (_ & _ & (p & _ & Hd) & _). unfold persist_intent. rewrite run_bind_lift, (intent_path_run _ package_id_ok), run_bind_get by done.
  unfold on_disk in Hd. rewrite Hd. change (path_of sha256_hex (with_phase p i)) with (path_of sha256_hex i). by rewrite lookup_singleton_eq.
Qed.

(** The whole of [_execute]. *)
Lemma sql_execute_triple :
  triple (λ w, begun w ∧ done_db Absent w)
    (sql_execute dump_record sha256_hex package_id_ok owner_role has_migrations cb oracle clock co i) (λ _, committed) (λ _, rep_sql).
Proof.
  intros w0 Hw0. unfold sql_execute. rewrite has_sql, has_sha, run_bind, persist_begun by apply Hw0. revert w0 Hw0.
  apply (triple_bind _ (λ _ w, moved w ∧ done_db Absent w)).
  { eapply or_undo_triple; [apply plan_triple|intros e w _; by left|intros e w _; apply undoable_rep]. }
  intros r. apply (triple_bind _ (λ _ w, moved w ∧ held_db PREPARING Pending r w)).
  { eapply or_undo_triple; [apply prepare_triple|intros e w _; by left|intros e w _; apply undoable_rep]. }
  intros [] w1 Hw1. pose proof Hw1 as [_ (_ & Hb0 & _)]. set (prepared := with_sql_phase PREPARED r).
  assert (bound i prepared) as Hb by by apply bound_phase. revert w1 Hw1.
  apply (triple_bind _ (λ _ w, applied w ∧ held_db PREPARED Pending prepared w)).
  { eapply or_undo_triple; [by apply registry_triple|intros e w _; by left|intros e w _; apply undoable_rep]. }
  assert (∀ w, undo A i w → held_db PREPARED Pending prepared w → undoable (Some prepared) w) as Hun.
  { intros w Hu (Ha & _ & _ & Hr & Hs). split; [done|]. split; [done|]. right. exists prepared. by rewrite Hs. }
  intros []. apply (triple_bind _ (λ _ w, redo A' i w ∧ held_db PREPARED Pending prepared w)).
  { eapply or_undo_triple; [apply commit_triple_sql|..].
    - intros e w Hc [[Hu|[Hr [->|[HL Hu]]]] Hd]; [left; by apply Hun|discriminate Hc|right]. exists prepared. split; [done|]. split; [done|]. by exists x.
    - intros e w _ [[Hu|[Hr _]] Hd]; [by apply (undoable_rep (Some prepared)), Hun|]. eapply held_redo; [done|done|by right]. }
  intros []. apply (triple_bind _ (λ _ w, redo A' i w ∧ open_db Applied w)).
  - apply (or_else_triple _ _ _ _ (λ _, rep_sql)); [by apply finish_triple_sql|by intros e _ w Hw|done].
  - intros []. eapply triple_weaken; [apply (cleanup_redo_sql A' Applied rep_sql); [apply open_redo|apply done_committed]|done|done].
Qed.

(** *** Recovering *)

(** The records that are there. *)
Definition found (rs : dict string PackageSQLParticipantRecord) (w : worldT) : Prop :=
  (recs w = ∅ ∧ rs = []) ∨ ∃ r, bound i r ∧ recs w = {[slot := r]} ∧ rs = [(i_operation_id i, r)].

Lemma all_records_run w : (recs w = ∅ ∨ ∃ r, bound i r ∧ recs w = {[slot := r]}) →
  ∃ rs, all_sql_records (C := C) (T := T) sha256_hex owner_role w = (Ok rs, w) ∧ found rs w.
Proof.
  intros [Hr|(r & Hb & Hr)]; unfold all_sql_records; rewrite run_bind; cbn [gets]; unfold sql_record_paths; rewrite Hr.
  - rewrite dom_empty_L, elements_empty. exists []. split; [done|by left].
  - rewrite dom_singleton_L, elements_singleton. change (sort_by id [slot]) with [slot]. cbn [gather_sql_records]. rewrite run_bind.
    destruct (bound_inv _ _ i r Hb) as (_ & Hop & e & He & _).
    assert (read_sql_record (C := C) (T := T) sha256_hex owner_role slot w = (Ok r, w)) as ->.
    { unfold read_sql_record. rewrite run_bind_get, Hr, lookup_singleton_eq, run_bind_lift, He. cbn [result_catch].
      by rewrite bound_path, String.eqb_refl. }
    rewrite run_bind_lift. unfold add_sql_record. cbn. rewrite Hop. exists [(i_operation_id i, r)]. split; [done|]. right. by exists r.
Qed.

(** One intent on the way back. *)
Lemma undo_recovered_triple p rs st :
  triple (λ w, undo A i w ∧ undo_db w ∧ found rs w)
    (undo_recovered dump_record sha256_hex package_id_ok owner_role oracle clock co (with_phase p i) (dict_get rs (i_operation_id i)) st) (λ _, ended) (λ _, rep_sql).
Proof.
  assert (∀ w, undo A i w → undo_db w → rep_sql w) as Hrep by (intros w; apply undoing_sql).
  unfold undo_recovered. apply (triple_bind _ (λ _ w, undo A i w ∧ undo_db w ∧ found rs w)).
  { apply lift_triple. intros w e (Hu & Hd & _). by apply Hrep. }
  intros []. apply (triple_bind _ (λ _ w, undo A i w ∧ open_db Absent w)).
  { intros w (Hu & Hd & Hf). destruct Hf as [[Hr ->]|(r & Hb & Hr & ->)].
    - cbn. split; [done|]. destruct Hd as [Ha [[_ Hs]|(r & _ & Hr' & _)]]; [split; [done|split; [by left|done]]|]. rewrite Hr in Hr'.
      exfalso. by apply (map_non_empty_singleton slot r).
    - cbn [dict_get]. rewrite decide_True by done. pose proof (undo_database r w (conj Hu Hd)) as Ht.
      change (recover_sql_participant sha256_hex owner_role co (with_phase p i) r false w) with (recover_sql_participant (C := C) sha256_hex owner_role co i r false w).
      destruct (recover_sql_participant _ _ _ _ _ _ w) as [[[]|e] w']; [done|]. by apply Hrep; apply Ht. }
  intros []. change (rollback_intent dump_record sha256_hex package_id_ok oracle (with_phase p i)) with (rollback_intent (X := sql_state D) dump_record sha256_hex package_id_ok oracle i).
  eapply triple_bind; [eapply triple_weaken; [apply (rollback_triple false)|done|intros e w [Hu Ho]; by apply undo_rep_sql]|]. intros j.
  apply (triple_bind _ (λ _ w, (undone parse_record sha256_hex package_id_ok A i w ∧ on_disk sha256_hex (with_phase ROLLED_BACK i) w) ∧ open_db Absent w)).
  { eapply triple_conseq; [apply mark_undone|by intros w [[_ Hw] Ho]|done|intros e w [[[Hu _] _] Ho]; by apply undo_rep_sql]. }
  intros []. eapply triple_weaken; [apply cleanup_undone_sql|intros [] w Hw; by left|done].
Qed.

(** A committed intent: the database first. *)
Abbreviation finishing rs := (finish_recovered sha256_hex owner_role has_migrations oracle co (with_phase COMMITTED i) (dict_get rs (i_operation_id i))).

(** One intent on the way forward. *)
Lemma redo_finish_triple rs :
  triple (λ w, redo A' i w ∧ redo_db w ∧ found rs w) (finishing rs) (λ _ w, redo A' i w ∧ open_db Applied w) (λ _, rep_sql).
Proof.
  intros w (Hu & Hd & Hf). unfold finish_recovered. change (sql_manifest has_migrations (with_phase COMMITTED i)) with (sql_manifest has_migrations i). rewrite has_sql.
  destruct Hf as [[Hr ->]|(r & Hb & Hr & ->)]; [by apply redoing_sql|]. cbn [dict_get]. rewrite decide_True by done.
  change (recover_sql_participant sha256_hex owner_role co (with_phase COMMITTED i) r true) with (recover_sql_participant (C := C) sha256_hex owner_role co i r true).
  assert (held_db (sr_phase r) (seen w gid) r w ∧ redoable r (seen w gid)) as [Hh Hre].
  { destruct Hd as [Ha [[Hr' _]|(r' & _ & Hr' & Hre)]].
    - rewrite Hr' in Hr. exfalso. by apply (map_non_empty_singleton slot r).
    - rewrite Hr in Hr'. apply (inj (singletonM slot)) in Hr'. subst r'. split; [|done]. done. }
  pose proof (redo_database r w Hu Hh Hre) as Ht. rewrite run_bind.
  destruct (recover_sql_participant _ _ _ _ _ _ w) as [[[]|e] w']; [|exact Ht]. destruct Ht as [Hu' Hh'].
  destruct (bool_decide (sr_phase r = FINISHED)).
  - split; [done|]. destruct Hh' as (Ha & _ & _ & Hr' & Hs). split; [done|]. split; [right; by exists r|done].
  - assert (triple (λ w, redo A' i w ∧ held_db (sr_phase r) Applied r w) (write_sql_record (C := C) (T := T) (D := D) sha256_hex oracle (with_sql_phase FINISHED r))
      (λ _ w, redo A' i w ∧ open_db Applied w) (λ _, rep_sql)) as Hw; [|by apply Hw].
    eapply triple_weaken; [by apply (finish_record_triple (redo A' i))|done|intros e w1 [? ?]; by apply open_redo].
Qed.

Lemma redo_recovered_triple rs st :
  triple (λ w, redo A' i w ∧ redo_db w ∧ found rs w)
    (_ ← finishing rs; recover_committed parse_record dump_record package_id_ok oracle clock cleanup (with_phase COMMITTED i) st) (λ _, ended) (λ _, rep_sql).
Proof.
  eapply triple_bind; [apply redo_finish_triple|]. intros [].
  eapply triple_weaken; [apply (recover_committed_sql A' Applied rep_sql); [apply open_redo|apply done_committed]| |done].
  intros [] w Hw. right. by left.
Qed.

(** One whose database was rolled back under a late commit marker: the database stays, the package too, or recovery refuses. *)
Lemma late_finish_triple (B : worldT → Prop) rs : (∀ (w : worldT) y, B w → B (set_ext y (tick w))) → (∀ w : worldT, B w → B (tick w)) →
  triple (λ w, (B w ∧ open_db Absent w) ∧ found rs w) (finishing rs) (λ _ w, B w ∧ open_db Absent w) (λ _ w, B w ∧ open_db Absent w).
Proof.
  intros HB Ht w ([Hu Hd] & Hf). unfold finish_recovered. change (sql_manifest has_migrations (with_phase COMMITTED i)) with (sql_manifest has_migrations i). rewrite has_sql.
  destruct Hf as [[Hr ->]|(r & Hb & Hr & ->)]; [done|]. cbn [dict_get]. rewrite decide_True by done.
  change (recover_sql_participant sha256_hex owner_role co (with_phase COMMITTED i) r true) with (recover_with r true).
  destruct Hd as (Ha & _ & Hs).
  assert (at_outcome B {[slot := r]} (λ v, v = Absent) w) as Hw by (split; [done|split; [done|split; [done|done]]]).
  pose proof (absent_participant B HB {[slot := r]} r true w Hw) as Hrec. rewrite run_bind.
  assert (∀ w, at_outcome B {[slot := r]} (λ v, v = Absent) w → (B w ∧ open_db Absent w) ∧ (B w ∧ held_db (sr_phase r) Absent r w)) as Hopen.
  { intros w1 (H1 & H2 & H3 & H4). split; [split; [done|]; split; [done|]; split; [right; by exists r|done]|done]. }
  destruct (recover_with r true w) as [[[]|e] w']; [|by apply Hopen]. destruct (Hopen w' Hrec) as [Ho Hh].
  destruct (bool_decide (sr_phase r = FINISHED)); [exact Ho|]. by apply (finish_record_triple B (sr_phase r) Absent r HB Ht).
Qed.

Lemma late_recovered_triple rs st : late_marker oracle →
  triple (λ w, (late_files w ∧ open_db Absent w) ∧ found rs w)
    (_ ← finishing rs; recover_committed parse_record dump_record package_id_ok oracle clock cleanup (with_phase COMMITTED i) st) (λ _, ended) (λ _, rep_sql).
Proof.
  intros HL. assert (∀ w, late_files w → open_db Absent w → rep_sql w) as Hrep by (intros w Hf Ho; by apply late_sql).
  assert (triple (λ w, (stuck_at parse_record sha256_hex package_id_ok i w ∧ open_db Absent w) ∧ found rs w)
    (_ ← finishing rs; recover_committed parse_record dump_record package_id_ok oracle clock cleanup (with_phase COMMITTED i) st) (λ _, ended) (λ _, rep_sql)) as Hstuck.
  { eapply triple_bind; [eapply triple_weaken; [by apply (late_finish_triple (stuck_at parse_record sha256_hex package_id_ok i))|done|intros e w [? ?]; apply Hrep; [by left|done]]|].
    intros []. unfold recover_committed. change (postcondition parse_record dump_record package_id_ok oracle (with_phase COMMITTED i)) with (postcondition (X := sql_state D) parse_record dump_record package_id_ok oracle i).
    eapply triple_bind.
    { eapply triple_weaken; [apply (triple_frame (open_db Absent)); [apply (stuck_postcondition parse_record dump_record sha256_hex package_id_ok oracle parse_dump dump_current i)|apply postcondition_preserves; by_ext]|done|].
      intros e w [? ?]. apply Hrep; [by left|done]. }
    intros ok w [[-> Hs] Ho]. apply Hrep; [by left|done]. }
  assert (∀ y, evidence i (packages_after A i y !! i_package_id i) → triple (λ w, (redo (kept y) i w ∧ open_db Absent w) ∧ found rs w)
    (_ ← finishing rs; recover_committed parse_record dump_record package_id_ok oracle clock cleanup (with_phase COMMITTED i) st) (λ _, ended) (λ _, rep_sql)) as Hredo.
  { intros y Hev. assert (∀ w, redo (kept y) i w → open_db Absent w → rep_sql w) as Hy by (intros w ? ?; apply Hrep; [right; by exists y|done]).
    assert (∀ w, settled (kept y) w → done_db Absent w → ended w) as Hend by (intros w ? ?; right; right; split; [done|by exists y]).
    eapply triple_bind; [eapply triple_weaken; [by apply (late_finish_triple (redo (kept y) i))|done|intros e w [? ?]; by apply Hy]|]. intros [].
    eapply triple_weaken; [apply (recover_committed_sql (kept y) Absent rep_sql Hy)|intros [] w [? ?]; by apply Hend|done].
    intros w ? ?. by apply ended_rep, Hend. }
  intros w ([[Hs|[y Hr]] Ho] & Hf); [by apply (Hstuck w)|]. apply (Hredo y); [|done]. by destruct Hr as (_ & _ & _ & _ & _ & _ & ? & _).
Qed.

(** The states of an intent that is on the disk. *)
Definition open_intent (w : worldT) : Prop := (undo A i w ∧ undo_db w) ∨ (redo A' i w ∧ redo_db w) ∨ late_left w.

Lemma late_on_disk w : late_files w → on_disk sha256_hex (with_phase COMMITTED i) w.
Proof. intros [(_ & Hd & _)|[y (_ & _ & Hd & _)]]; exact Hd. Qed.

(** The intent that is on the disk. *)
Lemma recover_one_triple rs :
  triple (λ w, open_intent w ∧ found rs w)
    (recover_sql_intent parse_record dump_record sha256_hex package_id_ok owner_role has_migrations oracle clock co rs (path_of sha256_hex i))
    (λ p w, p.2 = [] ∧ ended w) (λ _, rep_sql).
Proof.
  intros w [Hw Hf].
  assert (∃ p, on_disk sha256_hex (with_phase p i) w ∧ (p ≠ COMMITTED ∧ undo A i w ∧ undo_db w ∨ p = COMMITTED ∧ ((redo A' i w ∧ redo_db w) ∨ late_left w)))
    as (p & Hd & Hcase).
  { destruct Hw as [[Hw Hdb]|[[Hw Hdb]|Hw]]; [pose proof Hw as (_ & _ & (p & Hp & Hd) & _); exists p; split; [done|by left]|exists COMMITTED..].
    - pose proof Hw as (_ & _ & Hd & _). split; [done|]. right. split; [done|by left].
    - pose proof Hw as (_ & Hfs & _). split; [by apply late_on_disk|]. right. split; [done|by right]. }
  assert (rep_sql w) as Hrep by (destruct Hw as [?|[?|?]]; [by left|by right; left|by right; right; left]).
  assert (∀ st : Journal.OperationState, dict_del rs (i_operation_id i) = []) as Hdel.
  { intros _. destruct Hf as [[_ ->]|(r & _ & _ & ->)]; [done|]. cbn. by rewrite decide_True. }
  unfold recover_sql_intent. rewrite run_bind, (read_intent_run sha256_hex package_id_ok i p) by done.
  change (i_operation_id (with_phase p i)) with (i_operation_id i).
  rewrite run_bind. unfold journal_state. rewrite run_bind_lift, (io_journal_op _ _ i intent_good). cbn [gets].
  destruct (dict_get (Journal.sp_states (w_journal w)) (i_operation_id i)) as [st|]; [|exact Hrep]. specialize (Hdel st).
  rewrite run_bind_lift. destruct (require_evidence _ _ _ _ _) as [[]|e]; [|exact Hrep].
  rewrite run_bind. change (i_phase (with_phase p i)) with p. destruct Hcase as [(Hp & Hu & Hdb)|(-> & Hr)].
  - rewrite bool_decide_eq_false_2 by done. pose proof (undo_recovered_triple p rs (Journal.o_status st) w (conj Hu (conj Hdb Hf))) as Ht.
    destruct (undo_recovered _ _ _ _ _ _ _ _ _ _ w) as [[[]|e] w']; [|exact Ht]. split; [exact Hdel|exact Ht].
  - rewrite bool_decide_eq_true_2 by done.
    assert (match (_ ← finishing rs; recover_committed parse_record dump_record package_id_ok oracle clock cleanup (with_phase COMMITTED i) (Journal.o_status st)) w with
            | (Ok _, w') => ended w' | (Err _, w') => rep_sql w' end) as Ht.
    { destruct Hr as [[Hr Hdb]|(HL & Hfs & Ho)]; [by apply (redo_recovered_triple rs (Journal.o_status st) w)|by apply (late_recovered_triple rs (Journal.o_status st) HL w)]. }
    match type of Ht with context [?k w] => set (n := k) in * end.
    destruct (n w) as [[[]|e] w']; [|exact Ht]. split; [exact Hdel|exact Ht].
Qed.

Abbreviation recovery := (sql_recover_locked parse_record dump_record sha256_hex package_id_ok owner_role has_migrations oracle clock co).

(** What remains of a recovery touches the journal only. *)
Lemma interrupted_triple done :
  triple ended (waiting ← journal_pending; failed ← collect (fail_interrupted oracle clock) (List.filter (interrupted done) waiting);
    mret (sort_by id (remove_dups (done ++ failed)))) (λ _, ended) (λ _, rep_sql).
Proof.
  apply (triple_bind _ (λ _, ended)); [by intros w|]. intros waiting. apply (triple_bind _ (λ _, ended)); [|intros failed; by intros w].
  eapply triple_weaken; [apply (collect_triple ended (fail_interrupted oracle clock) _ (λ _, ended))|done|intros e w; apply ended_rep].
  intros st. unfold fail_interrupted. apply (triple_bind _ (λ _, ended)); [|intros y; by intros w].
  eapply triple_weaken; [apply (fail_triple oracle clock ended _ _ (λ _, ended)); [done|intros w j e Hw _; exact Hw]| |done].
  intros _ w (w0 & j & Hw0 & _ & ->). exact Hw0.
Qed.

Lemma ended_recs w : ended w → recs w = ∅.
Proof. intros [(_ & _ & Hr & _)|[(_ & _ & Hr & _)|(_ & y & _ & _ & _ & Hr & _)]]; exact Hr. Qed.

Lemma rep_records w : rep_sql w → recs w = ∅ ∨ ∃ r, bound i r ∧ recs w = {[slot := r]}.
Proof.
  intros [(_ & _ & [[Hr _]|(r & Hb & Hr & _)])|[(_ & _ & [[Hr _]|(r & Hb & Hr & _)])|[(_ & _ & _ & Hr & _)|Hw]]];
    first [exact Hr|by left|right; by exists r|left; by apply ended_recs].
Qed.

Lemma ended_paths w : ended w → intent_paths w = [].
Proof.
  assert (∀ B, settled B w → intent_paths w = []) as Hs by (intros B (_ & _ & _ & _ & E); unfold intent_paths; by rewrite E, dom_empty_L, elements_empty).
  intros [[Hw _]|[[Hw _]|(_ & y & _ & Hw & _)]]; by eapply Hs.
Qed.

Lemma open_paths w : open_intent w → intent_paths w = [path_of sha256_hex i].
Proof.
  intros [[(_ & _ & (p & _ & Hd) & _) _]|[[(_ & _ & Hd & _) _]|(_ & Hd%late_on_disk & _)]]; by eapply paths_on_disk.
Qed.

Lemma ended_records w rs : ended w → found rs w → rs = [].
Proof.
  intros Hw [[_ ->]|(r & _ & Hr & _)]; [done|]. exfalso. apply (map_non_empty_singleton slot r). rewrite <-Hr. by apply ended_recs.
Qed.

Lemma sql_recover_triple : triple rep_sql recovery (λ _, ended) (λ _, rep_sql).
Proof.
  intros w Hw. destruct (all_records_run w (rep_records w Hw)) as (rs & Ers & Hf). unfold sql_recover_locked. rewrite run_bind, Ers, run_bind. cbn [gets].
  assert (ended w ∨ open_intent w) as [He|Hi] by (destruct Hw as [?|[?|[?|?]]]; [by right; left|by right; right; left|by right; right; right|by left]).
  - rewrite (ended_paths w He). cbn [recover_sql_intents]. rewrite run_bind. cbn [mret M_ret fst snd]. rewrite run_bind_lift, (ended_records w rs He Hf).
    by apply (interrupted_triple [] w).
  - rewrite (open_paths w Hi). cbn [recover_sql_intents]. rewrite !run_bind. pose proof (recover_one_triple rs w (conj Hi Hf)) as Ht.
    destruct (recover_sql_intent _ _ _ _ _ _ _ _ _ _ _ w) as [[[op left]|e] w']; [|exact Ht]. destruct Ht as [Hl He]. cbn in Hl. subst left.
    cbn. by apply (interrupted_triple [op] w').
Qed.

(** Recoveries in a row, each by another process. *)
Definition recoveries (n : nat) (w : worldT) : worldT := Nat.iter n (λ w, (recovery w).2) w.

Lemma recoveries_rep n w : rep_sql w → rep_sql (recoveries n w).
Proof.
  intros Hw. induction n as [|n IH]; [exact Hw|]. cbn. pose proof (sql_recover_triple _ IH) as Ht. unfold recoveries in *.
  destruct (recovery _) as [[ids|e] w']; [by apply ended_rep|exact Ht].
Qed.

(** C3: Two-phase commit. Execute the transaction of a package with SQL, in which every file step and every call of the
    coordinator may fail before, after or in the middle of its effect, with an exception or the end of the process, and let any
    number of recoveries fail likewise. Once a recovery answers, the registry and the package directories are as before and the prepared transaction is
    gone, or they are changed and it is committed; no intent, record, staged or replaced directory is left, and no other prepared transaction was touched.
    There is one exception, for which the steps that fail must include a write of the commit marker that raises although the marker is in place: the database is then rolled back first, and
    if that roll back of the files does not get through, the package may stay, with the registry changed and an intact integrity marker, while the prepared transaction is gone.
    (The coordinator is taken to keep [CoordinatorLaws], pydantic to read back the records that it dumped, which have no key of earlier versions.) *)
Theorem two_phase_atomic (w : worldT) n ids (w' : worldT) :
  begun w → done_db Absent w →
  recovery (recoveries n (sql_execute dump_record sha256_hex package_id_ok owner_role has_migrations cb oracle clock co i w).2) = (Ok ids, w') →
  (settled A w' ∧ done_db Absent w') ∨ (settled A' w' ∧ done_db Applied w') ∨
  (late_marker oracle ∧ ∃ y, evidence i (packages_after A i y !! i_package_id i) ∧ settled (R, packages_after A i y) w' ∧ done_db Absent w').
Proof.
  intros Hb Hd Hr.
  assert (rep_sql (sql_execute dump_record sha256_hex package_id_ok owner_role has_migrations cb oracle clock co i w).2) as Hrep.
  { pose proof (sql_execute_triple w (conj Hb Hd)) as Ht. destruct (sql_execute _ _ _ _ _ _ _ _ _ _ w) as [[[]|e] w1]; [by apply committed_rep|exact Ht]. }
  pose proof (sql_recover_triple _ (recoveries_rep n _ Hrep)) as Ht. by rewrite Hr in Ht.
Qed.
End laws.

(** ** A database of prepared transactions *)

Definition demo_role (p : string) : result string := Ok ("role-" +:+ p).
Definition demo_seen (d : dict string outcome) (g : string) : outcome := or_default (dict_get d g) Absent.

(** The process may end in a call, after its effect. *)
Definition demo_end (dies : nat → bool) (n : nat) : result unit := if dies n then Err the_end else Ok tt.

Definition demo_move (dies : nat → bool) (n : nat) (g : string) (from to : outcome) (d : dict string outcome) : result unit * dict string outcome :=
  if bool_decide (demo_seen d g = from) then (demo_end dies n, dict_set d g to) else (fail PackagePreparedTransactionError "", d).

Definition demo_coordinator (dies : nat → bool) : PackageSQLCoordinator shelf string (dict string outcome) := {|
  c_plan n op x p sha d :=
    (e ← package_prepared_transaction demo_hex demo_role op (m_id p) sha;
     Ok (from_evidence (Evidence e [MigrationEvidence (m_id p) "1" (demo_digest "2")] PREPARING)), d);
  c_prepare n r x p d := demo_move dies n (sr_gid r) Absent Pending d;
  c_inspect n r d := (Ok (bool_decide (demo_seen d (sr_gid r) = Pending)), d);
  c_finish n r b d := demo_move dies n (sr_gid r) Pending (target b) d;
  c_verify_rolled_back n r d := (demo_end dies n, d);
  c_verify_finished n r d := (demo_end dies n, d);
  c_drop_owner n p d := (demo_end dies n, d) |}.

Lemma demo_move_others dies n g from to d g' : g' ≠ g → demo_seen (demo_move dies n g from to d).2 g' = demo_seen d g'.
Proof. intros Hg. unfold demo_move. destruct (bool_decide _); [|done]. cbn. unfold demo_seen. by rewrite dict_get_set_ne by congruence. Qed.

Lemma demo_move_to dies n g from to d : demo_seen d g = from → demo_seen (demo_move dies n g from to d).2 g = to.
Proof. intros Hg. unfold demo_move. rewrite bool_decide_eq_true_2 by done. cbn. unfold demo_seen. by rewrite dict_get_set_eq. Qed.

#[export] Instance demo_laws dies : CoordinatorLaws (demo_coordinator dies) demo_seen.
Proof.
  split; try done.
  - by intros n r d b [= <-].
  - intros n r x m d g. apply demo_move_others.
  - intros n r x m d Hg. cbn. rewrite demo_move_to by done. by split.
  - intros n r b d g. apply demo_move_others.
  - intros n r b d Hg. cbn. rewrite demo_move_to by done. split; [done|by right].
Qed.

(** The intent of an installation and the world in which its artifact is staged. *)
Definition sql_after : dict string (PackageRecord shelf) := [("pay", Rec Pay INSTALLED)].
Definition sql_intent : TransactionIntent shelf :=
  new_intent demo_hex "operation-1" AInstall "pay" [] sql_after (Some (demo_digest "0")) (Some "key") true false.
Definition sql_stage : string := "pay-" +:+ token demo_hex "operation-1" +:+ ".stage".
Definition sql_package : node string := installed (demo_artifact Pay "files").

Definition sql_begun : world shelf string (sql_state (dict string outcome)) :=
  World None ∅ {[ sql_stage := sql_package ]} ∅ {[ "h:operation-1" := sql_intent ]}
    (Journal.Spec 1 [("operation-1", Journal.started "operation-1" 1 "package.install" "package/pay" 0 1)]) 0 (SqlState ∅ []).

Section demo.
Context (oracle : nat → label → fault string) (dies : nat → bool).

Abbreviation demo_execute := (sql_execute demo_dump demo_hex (λ _, true) demo_role (λ _, true) demo_callbacks oracle Z.of_nat (demo_coordinator dies) sql_intent).
Definition demo_sql_recover : world shelf string (sql_state (dict string outcome)) → result (list string) * world shelf string (sql_state (dict string outcome)) :=
  sql_recover_locked demo_parse demo_dump demo_hex (λ _, true) demo_role (λ _, true) oracle Z.of_nat (demo_coordinator dies).
Definition demo_recoveries (n : nat) : world shelf string (sql_state (dict string outcome)) :=
  recoveries demo_parse demo_dump demo_hex (λ _, true) demo_role (λ _, true) oracle Z.of_nat (demo_coordinator dies) n (demo_execute sql_begun).2.
End demo.

Definition sql_view (w : world shelf string (sql_state (dict string outcome))) :=
  (demo_statuses (w_registry w), (λ e, (e.1, demo_files e.2)) <$> map_to_list (w_packages w),
   (size (w_stage w), size (w_backup w), size (w_intents w)), (size (s_records (w_ext w)), (s_database (w_ext w)).*2)).
(** The process ends with the commit marker (step 8), and the one that recovers, when the database has committed (step 10). *)
Definition sql_faults (n : nat) (_ : label) : fault string := if Nat.eqb n 8 then Dies Everything else Fine.
Definition sql_dies (n : nat) : bool := Nat.eqb n 10.

Example sql_prepared : sql_view (demo_recoveries sql_faults sql_dies 0) = (Ok [("pay", INSTALLED)], [("pay", "files")], (0, 0, 1), (1, [Pending])).
Proof. by vm_compute. Qed.

Example sql_half_recovered : sql_view (demo_recoveries sql_faults sql_dies 1) = (Ok [("pay", INSTALLED)], [("pay", "files")], (0, 0, 1), (1, [Applied])).
Proof. by vm_compute. Qed.

Definition sql_site : site (T := shelf) (C := string) := ({[ "pay" := Rec Pay INSTALLED ]}, packages_after (∅, ∅) sql_intent (Some sql_package)).

Lemma sql_intent_good : intent_ok demo_hex (λ _, true) sql_intent.
Proof.
  apply (new_intent_ok demo_hex (λ _, true) "operation-1" AInstall "pay" [] sql_after (Some (demo_digest "0")) (Some "key")); [done..| |].
  - split; [constructor|done].
  - split; [apply NoDup_singleton|]. intros k r. unfold sql_after. cbn. by destruct (decide ("pay" = k)) as [<-|]; [intros [= <-]|].
Qed.

Lemma sql_begun_ok : begun demo_parse demo_hex (λ _, true) (∅, ∅) sql_intent (Some sql_package) sql_begun.
Proof.
  assert (reads demo_parse None ∅) as Hr by (exists []; split; [done|split; [constructor|by split]]).
  split; [|split; [by split|split; [exact Hr|split; [done|by exists sql_stage]]]].
  split; [apply sql_intent_good|]. split; [done|]. split; [by exists Lifecycle.PREPARED|]. split.
  - intros k Hk. apply lookup_singleton_ne. intros Ek. apply Hk. by rewrite <-Ek.
  - split; [by split|]. split; [by left|by left].
Qed.

Lemma two_phase_atomic_witness :
  let last := demo_sql_recover sql_faults sql_dies (demo_recoveries sql_faults sql_dies 1) in
  last.1 = Ok ["operation-1"] ∧ sql_view last.2 = (Ok [("pay", INSTALLED)], [("pay", "files")], (0, 0, 0), (0, [Applied])) ∧
  ((settled demo_parse (∅, ∅) last.2 ∧ done_db demo_hex demo_seen sql_intent (λ _, Absent) Absent last.2) ∨
   (settled demo_parse sql_site last.2 ∧ done_db demo_hex demo_seen sql_intent (λ _, Absent) Applied last.2) ∨
   (late_marker sql_faults ∧ ∃ y, evidence sql_intent (packages_after (∅, ∅) sql_intent y !! "pay") ∧
      settled demo_parse ({[ "pay" := Rec Pay INSTALLED ]}, packages_after (∅, ∅) sql_intent y) last.2 ∧
      done_db demo_hex demo_seen sql_intent (λ _, Absent) Absent last.2)).
Proof.
  split; [vm_compute; reflexivity|]. split; [vm_compute; reflexivity|].
  apply (two_phase_atomic demo_parse demo_dump demo_hex (λ _, true) demo_role (λ _, true) demo_callbacks sql_faults Z.of_nat (demo_coordinator sql_dies) demo_seen
    demo_parse_dump demo_dump_current sql_intent (∅, ∅) sql_site (λ _, Absent)
    sql_intent_good Pay (demo_digest "0") eq_refl eq_refl {[ "pay" := Rec Pay INSTALLED ]}) with (x := Some sql_package) (w := sql_begun) (n := 1) (ids := ["operation-1"]).
  - intros k. cbn. destruct (decide ("pay" = k)) as [<-|Hk]; [by rewrite lookup_singleton_eq|by rewrite lookup_singleton_ne].
  - split; reflexivity.
  - exists (Tree (Some (artifact_marker "pay" "1" (demo_digest "0") "key")) "files"), (Rec Pay INSTALLED), (demo_digest "0"), "key".
    split; [reflexivity|]. split; [reflexivity|]. split; [reflexivity|]. split; [reflexivity|vm_compute; reflexivity].
  - reflexivity.
  - exact sql_begun_ok.
  - split; [done|]. by split.
  - vm_compute. reflexivity.
Defined.

(** The commit marker (step 8) comes late, and the process ends when its handler has rolled the database back (step 10): recovery
    then completes the installation, without the tables that it was prepared with. *)
Definition marker_late (n : nat) (_ : label) : fault string := if Nat.eqb n 8 then Raises Everything else Fine.

Example late_marker_divides :
  let w := demo_recoveries marker_late sql_dies 0 in
  sql_view w = (Ok [("pay", INSTALLED)], [("pay", "files")], (0, 0, 1), (1, [Absent])) ∧
  (demo_sql_recover marker_late sql_dies w).1 = Ok ["operation-1"] ∧
  sql_view (demo_sql_recover marker_late sql_dies w).2 = (Ok [("pay", INSTALLED)], [("pay", "files")], (0, 0, 0), (0, [Absent])).
Proof. by vm_compute. Qed.

(** [_cleanup_intent] removes the participant record before the base class removes the replaced tree and the intent.  If that fails, or the
    process ends there (step 15), the intent is committed without its evidence, which every recovery refuses. *)
Definition unlink_fails (n : nat) (_ : label) : fault string := if Nat.eqb n 15 then Raises Nothing else Fine.

Example lost_evidence_stuck :
  sql_view (demo_recoveries unlink_fails (λ _, false) 0) = (Ok [("pay", INSTALLED)], [("pay", "files")], (0, 0, 1), (0, [Applied])) ∧
  (demo_sql_recover unlink_fails (λ _, false) (demo_recoveries unlink_fails (λ _, false) 0)).1 =
    rejected "package SQL transaction lost its durable participant evidence" ∧
  sql_view (demo_recoveries unlink_fails (λ _, false) 5) = sql_view (demo_recoveries unlink_fails (λ _, false) 0).
Proof. by vm_compute. Qed.
End PackageSqlLaws.
